(* ===== verification/_CoqProject ===== *)
-Q . S2P
Prelude.v
ChaCha20.v
Poly1305.v
Poly26.v
Poly64.v
CryptoProbe.v
Crc32c.v
CacheProbe.v
IoSpike.v
LeaseProbe.v
LeaseMaint.v
LeaseShape.v
Harness.v
Engine.v
Worker.v
LeaseQueue.v
Dequeue.v
Stream.v
LeasedWorker.v
LeaseRefine.v
Float32.v
Tokenizer.v
DecimalFloat.v
Parser.v
ParserTotal.v
SqlPrint.v
SqlLayout.v
SqlRoundtrip.v
VectorArena.v
VectorTopK.v
VectorSearch.v
Bindings.v
Step.v
Catalog.v
QueueSql.v
QueueText.v
QueueContract.v
Api.v
WorkerText.v
Columns.v
Contract.v
AllocMap.v
Recount.v
Storage.v
Superblock.v
Transaction.v
Recovery.v
CatalogGraph.v
Durability.v
Creation.v
