(* ===== verification/Prelude.v ===== *)
(** * A verification library for CybouDB

    CybouDB is a database engine in x86-64 assembly ([src/src]) with a C
    interface ([include/cyboudb.h]), three example programs over it
    ([examples]) and C probes and harnesses ([benchmarks]) in which the
    engine's decisions were worked out.  This library models the interface as
    the engine implements it, the storage core below it, the programs that use
    it, and the probes, and proves what makes them right.

    ** The parts and the files that model them

    - This file: machine words as [Z] with the truncation of C written out
      ([u8], [u32], [u64]), byte strings and little-endian values ([le_val],
      [le_bytes]), [memcpy], loops ([for_loop], [while_loop]), the first match
      of a search ([first_from]); the tactics [case_if] and [bool_to_prop] and
      the hint database [word].

    The C interface, [src/api/cyboudb_c.asm]:
    - [Step]: [cyboudb_step], [cyboudb_step_batch], [cyboudb_reset]: every
      statement kind, the explicit transaction, autocommit, the pulled SELECT.
      Storage and SQL layers are the interface [Core]; a transaction relies on
      [Transactional] (the contract of [docs/TRANSACTIONS.md]), a scan on
      [Scanning].
    - [Api]: connections and statements with the memory they take:
      [cyboudb_open], [cyboudb_create_with_options], [cyboudb_close],
      [cyboudb_errmsg], [cyboudb_prepare], [cyboudb_finalize], [cyboudb_exec].
    - [Bindings]: [cyboudb_bind_*], the parameter slots and their copy buffer.
    - [Columns]: [cyboudb_column_*], [cyboudb_batch_*], [cyboudb_message],
      [cyboudb_claim_ticket], with the pointers of a plan followed in partial
      memory.
    - [Contract]: what [cyboudb.h] says of the results, messages, tickets and
      handles, as definitions, against the two files above.

    The SQL front end:
    - [Tokenizer]: [src/sql/tokenizer.asm], the whole of it.
    - [DecimalFloat]: the FLOAT32 literals of [src/sql/parser.asm], which divides
      512-bit integers.
    - [Parser]: [src/sql/parser.asm], the whole of it: every statement, the
      expressions with their precedence and nesting limit, literals, the arena
      and every error with its message and place.  A statement is a value of
      [ast]; a refusal carries the code returned; a loop that does not end is the
      outcome [Hangs].
    - [ParserTotal]: for which texts the parser answers.
    - [SqlPrint], [SqlLayout], [SqlRoundtrip]: the words of expressions and of
      statements, the texts that are those words - in any layout - and that the
      parser reads the statement back from every such text.

    The vector runtime:
    - [Float32]: binary32 arithmetic on bit patterns, the scalar and AVX2 kernels
      ([src/sql/vector_kernels_*.asm]) and the choice between them.
    - [VectorArena]: [src/core/vector_arena.asm].
    - [VectorTopK]: [src/sql/vector_topk.asm], monolithic and streaming search.

    Queues and streams:
    - [LeaseQueue]: the lease operations of [src/core/queue.asm], their search,
      summaries and validation, and ENQUEUE.
    - [Dequeue]: DEQUEUE, peek and depth of the same file.
    - [Stream]: [src/core/stream.asm]: APPEND, readers, READ and TRIM over the
      segments of a queue, and the validation of the stream's page.
    - [LeaseRefine]: that they implement the contract [LeasedWorker] is written
      against.
    - [Catalog]: the directory of [src/core/catalog.asm] with the objects it names
      ([db_catalog_put], [db_catalog_drop], the entry [db_catalog_edit] repoints)
      and the lookup of a name in [src/sql/binder.asm].
    - [QueueSql]: the queue and stream statements in [src/sql/binder.asm] and
      [src/sql/executor.asm]: [sql_bind] takes the syntax [Parser] gives to a plan,
      [sql_execute] runs the plan on the directory with the operations above.
    - [QueueText]: [cyboudb_prepare] and a step of [src/api/cyboudb_c.asm] on the
      text of such a statement: tokenizer, parser, binder and executor composed.
    - [QueueContract]: what those texts promise.

    The storage core, on pages of bytes:
    - [AllocMap]: [src/core/bitmap.asm] and [bitmap_leaf.asm], both layouts of the
      allocation map: leaves, staging in the inactive copy, allocation of pages and
      runs, reuse and retirement, the change-set, the pages a transaction wrote
      ([mark_dirty]), and the validation of a candidate superblock's map.  The walk
      of the graph that it asks for is the interface [Walk].
    - [Recount]: the count of retired pages that [db_bitmap_recount] makes with
      masks and a multiplication, against the map.
    - [Storage]: [src/core/database.asm] and [cow.asm]: [db_create], [db_open] with
      the choice between the superblocks, the operations of a copy-on-write
      transaction, [db_commit] as a sequence of stores and barriers, [db_rollback],
      [db_close], and the free list of files without features.
    - [Superblock], [Transaction]: what the stores of a superblock leave; the
      invariant of an open transaction, kept by every operation.
    - [Recovery]: the files a crash may leave, and what [db_open] makes of them;
      [WalkLocal] is what it relies on of the walk.
    - [CatalogGraph]: the walk of [src/core/catalog.asm] and the lookups beside it,
      over the interface [Graph.Objects] of the modules that own what lies below
      an object; it implements [Walk] and [WalkLocal].
    - [Durability], [Creation]: the theorems, and the file [db_create] lays out.

    The examples:
    - [Engine]: the interface the two workers use, and their C strings.
    - [Worker]: [examples/worker.c]; [LeasedWorker]: [examples/leased_worker.c]
      with the lease contract of the header; [VectorSearch]:
      [examples/vector_search.c] over the modelled vector runtime.
    - [WorkerText]: the texts the two workers hand over, run by [QueueText].

    The probes and harnesses:
    - [ChaCha20], [Poly1305], [Poly26], [Poly64], [CryptoProbe]:
      [benchmarks/crypto_probe.c].  Five ChaCha20 routines down to the lanes of
      their vector registers; the streaming layer of Poly1305 over an interface
      ([LimbField]) that the 26-bit and the 64-bit limb arithmetic implement, the
      latter over an interface of 128-bit integers ([U128], [U128Laws]) that the
      native type and the MSVC pair of halves implement; the four-chain
      one-shot MAC; feature detection, known-answer checks, sealing loops.
    - [Crc32c]: [crc32c] of [benchmarks/lease_probe.c] and of
      [src/core/checksum.asm], both its paths.
    - [CacheProbe]: [benchmarks/cache_probe.c], a set-associative page cache with
      three policies and the workloads that drive it.
    - [IoSpike]: [benchmarks/io_spike.c], the plaintext cache in front of a file
      and the read paths measured against each other; a read path is an
      instance of the interface [PageSource].
    - [LeaseProbe], [LeaseMaint], [LeaseShape]: [benchmarks/lease_probe.c].  The
      queue page and the segment pages as bytes, the slots in them, the tree of
      ready-at summaries with its search and its incremental maintenance, the
      four operations, the shapes of queue, their sealing, and the report of
      [main].
    - [Harness]: the result consumers and measured loops of
      [benchmarks/c_api_harness.c], [sqlite_harness.c] and [duckdb_harness.c].

    State is a record threaded through the operations, one definition per
    function (or per loop or label of a long one), with the source's names.  A
    NULL pointer is [None].  Arrays are lists; an index the source leaves
    unchecked is a total lookup, and where a read of memory that is not there is
    what is at stake ([CryptoProbe.slice], [Columns.memory]) it is [None].
    Counters that the source keeps in 64 bits and that the theorems need at that
    width are [Z] reduced there; indexes into arrays are [nat].

    ** What the theorems show

    - Transactions and stepping ([Step]): nothing is published between BEGIN and
      COMMIT, and COMMIT and ROLLBACK are all or nothing; outside a transaction
      every statement publishes by itself; row by row and batch by batch
      stepping deliver the same rows.  Work whose autocommit was refused comes
      back with the next statement.
    - Handles ([Api]): close succeeds once the statements are finalized and all
      memory is then returned; prepare always answers; what create answers; which
      call the error message is about.  Opening, executing, resetting and
      finalizing do what the header says ([Contract]).
    - SQL ([Tokenizer], [DecimalFloat], [ParserTotal], [SqlRoundtrip]): the tokens
      cover the text; a decimal literal is the nearest float; the parser answers
      every text but one kind, which is exactly described; every statement is
      read back from every layout of its text.  Two more theorems are about dimensions
      beyond 32 bits and ignored column lists.
    - Parameters and results ([Bindings], [Columns]): bindings are a list of
      optional values, except after the sequence that writes over a neighbour;
      accessors read the row that is shown, from a row and from a batch alike;
      a column of a DEQUEUE faults; batches, messages, tickets and dimensions are
      what the header says ([Contract]).
    - Queues and streams ([Dequeue], [Stream]): without leases a queue hands out
      what was put in, in order, each message once, and with leases DEQUEUE does
      not look at them; a stream implements a log with named readers, each of
      which is given every record, and no record a reader needs is trimmed.
    - Statements over them ([QueueSql], [QueueContract]): whatever is prepared and
      stepped, the directory stays in order and only the object named changes;
      ENQUEUE and DEQUEUE by name are a list, CLAIM, ACK, NACK and RENEW the lease
      contract, APPEND, READ, TRIM and the cursors the contract of a stream.  A
      prepared statement follows the id of its object, which a later CREATE may
      take over; a CLAIM without room for its message keeps the lease.
    - Storage ([Durability], [Creation], [CatalogGraph], [Recount]): a crash at any
      point of a transaction or of its commit leaves a file that opens at the old
      generation, untouched, or at the new one, whole; a commit that answered is
      there after any crash; a rollback leaves the live generation as it was; a page
      handed out is used by nobody and is flushed before the superblock; whatever
      sequence of commits, rollbacks, reopenings and kills follows [db_create], the
      file opens and a transaction can begin; what [db_open] answers and releases on
      every path; an accepted directory is a map from ids to objects with names of
      their own.
      A crash is this: a page is found in a state it had since a barrier covered
      it.  Of the pages in front of the payload (superblocks, map) the states are
      those after each operation and after each store of [write_superblock]; a
      payload page that was being written may hold anything.  Ranges flushed ahead
      of a barrier are durable with it.  The checksum of an unfinished superblock
      is not zero, which is what its field holds.  These theorems are about files
      in the span layout, the default one.  That a commit's graph is one an open
      accepts is a hypothesis of durability: a commit proves what it changed and
      inherits the rest ([Graph.inherited]), an open walks all of it.
    - Leases ([LeaseQueue], [LeaseRefine]): the search is the first claimable
      message, a ticket is honoured at most once, pages stay acceptable to the
      commit's validation, and the whole implements the header's contract; two
      theorems are about operations that leave pages it refuses.
    - Vectors ([Float32], [VectorArena], [VectorTopK]): both kernels compute the
      same bits, the arena is a list of vectors, the search is exact, and
      streaming it changes nothing.
    - Examples ([Worker], [LeasedWorker], [VectorSearch]): a job is moved
      atomically whichever call fails, the loop drains the queue, and each [main]
      exits with 0 and its transcript.  The laws they assume of their statements
      over queues and streams are what the texts do ([WorkerText]), and the queue
      statements of the leased worker's [main] are computed from text to pages.
    - Probes: the five ChaCha20 routines are one function and the Poly1305
      routines compute the mathematical tag; a cache lookup is a hit exactly when
      the page is there, LRU refines a recency list, the read paths see the same
      bytes; the CRC assembly is the C function; the lease tree's search is the
      FIFO walk and its maintenance keeps the tree a rebuild would give within
      bounds; the harnesses agree.

    ** Bounds and fuel

    [while_loop] takes fuel; each use gives it a number that a measure of its
    state never exceeds (the bytes left of a buffer, the 64 bits of a mask, the
    ways of a cache set), and [while_done] and the lemmas of each component
    prove that the loop has ended by then, so no theorem rests on running out.
    The lease theorems are about queues of at most 495 segments, the directory's
    capacity.  Prepare doubles its allocation 47 times at most before a signed
    64-bit size overflows ([Api.prep_fuel]), and [Api.prepare_total] proves that
    enough.  Loops that end only when the data does (a worker's, a scan's) take
    fuel as an argument, and their theorems give an amount that suffices.  The
    recursion of the parser is bounded by its text: three steps a character are
    enough ([ParserTotal]), and the lexer's tokens are at most one more than the
    characters.  The parser's own limits (64 columns, values, placeholders and
    levels of nesting, 256 rows, 4096 components of a vector) are counted down in
    the loops that check them.  The scans of the allocation map take the number of
    pages up to the high-water, and [Recount.recount_exact] covers the fuel of the
    count (504 words a leaf, a turn for each leaf).

    ** What is not modelled

    Time and printing, the operating system (mappings, [pread], files), the
    dynamic loading of SQLite and DuckDB and the engines themselves: what they
    hand over is an argument of the definitions, and what is relied on is a named
    hypothesis.  Of the assembly below the C interface, row storage (PAX pages,
    zone maps, compression, varlen extents), the indexes, the SQL binder and
    executor for tables, and page encryption with its cache are not modelled: the
    interface [Step.Core] stands for them in the C interface, [Graph.Objects] in
    the walk of a commit, and the fields of [Catalog.env], [LeaseQueue.ctx] and
    [Stream.sctx] for what queues, streams and the directory ask of the pages
    below.  A table or an index is an opaque entry of the directory.  Which pages
    segments and extent chains take, and that dropping an object retires them, is
    left out of the models of those objects; the allocator they call is
    [AllocMap].  [Step.Transactional] is stated over [Step.Core] and not derived
    from [Durability], because the statements between the two are not modelled. *)

From Stdlib Require Export ZArith Lia ZifyBool ZifyNat.
From stdpp Require Export base list numbers.
#[global] Open Scope Z_scope.

(** ** Notation for C's bitwise operators

    The operators are the unbounded ones of [Z]; a definition writes the
    truncation of the C type ([u8], [u32], [u64]) wherever C truncates. *)

Declare Scope word_scope.
Delimit Scope word_scope with word.
Infix ".&" := Z.land (at level 38, left associativity) : word_scope.
Infix ".|" := Z.lor (at level 40, left associativity) : word_scope.
Infix ".^" := Z.lxor (at level 39, left associativity) : word_scope.
Infix ".<<" := Z.shiftl (at level 36, left associativity) : word_scope.
Infix ".>>" := Z.shiftr (at level 36, left associativity) : word_scope.
#[global] Open Scope word_scope.

(** ** Unsigned machine integers: conversion is reduction modulo [2 ^ width] *)

Definition u8 (x : Z) : Z := x mod 2 ^ 8.
Definition u32 (x : Z) : Z := x mod 2 ^ 32.
Definition u64 (x : Z) : Z := x mod 2 ^ 64.
Definition u128 (x : Z) : Z := x mod 2 ^ 128.

Definition UINT32_MAX : Z := 2 ^ 32 - 1.
Definition UINT64_MAX : Z := 2 ^ 64 - 1.

(** ** Result codes of the C interface ([include/cyboudb.h]) *)

Definition CybouDB_OK : Z := 0.
Definition CybouDB_ROW : Z := 100.
Definition CybouDB_DONE : Z := 101.
Definition CybouDB_ERROR : Z := -1.

(** ** Automation *)

Create HintDb word discriminated.
Create Rewrite HintDb lengths.

Ltac Zify.zify_post_hook ::= Z.div_mod_to_equations.

(** Reflects every boolean comparison of [Z] and [nat] in sight. *)
Ltac bool_to_prop :=
  repeat match goal with
  | H : (_ <? _)%Z = true |- _ => apply Z.ltb_lt in H
  | H : (_ <? _)%Z = false |- _ => apply Z.ltb_ge in H
  | H : (_ <=? _)%Z = true |- _ => apply Z.leb_le in H
  | H : (_ <=? _)%Z = false |- _ => apply Z.leb_gt in H
  | H : (_ =? _)%Z = true |- _ => apply Z.eqb_eq in H
  | H : (_ =? _)%Z = false |- _ => apply Z.eqb_neq in H
  | H : (_ <? _)%nat = true |- _ => apply Nat.ltb_lt in H
  | H : (_ <? _)%nat = false |- _ => apply Nat.ltb_ge in H
  | H : (_ <=? _)%nat = true |- _ => apply Nat.leb_le in H
  | H : (_ <=? _)%nat = false |- _ => apply Nat.leb_gt in H
  | H : (_ =? _)%nat = true |- _ => apply Nat.eqb_eq in H
  | H : (_ =? _)%nat = false |- _ => apply Nat.eqb_neq in H
  | H : _ && _ = true |- _ => apply andb_true_iff in H as [? ?]
  | H : _ || _ = false |- _ => apply orb_false_iff in H as [? ?]
  | H : negb _ = true |- _ => apply negb_true_iff in H
  | H : negb _ = false |- _ => apply negb_false_iff in H
  end.

(** Case analysis on the innermost [if] of the goal, comparisons reflected. *)
Ltac case_if :=
  match goal with
  | |- context [if ?b then _ else _] =>
      lazymatch b with
      | context [if _ then _ else _] => fail
      | _ => let E := fresh "E" in destruct b eqn:E; bool_to_prop
      end
  end.

(** ** Ranges of machine integers *)

Lemma u8_range x : 0 <= u8 x < 2 ^ 8.
Proof. apply Z.mod_pos_bound; lia. Qed.
Lemma u32_range x : 0 <= u32 x < 2 ^ 32.
Proof. apply Z.mod_pos_bound; lia. Qed.
Lemma u64_range x : 0 <= u64 x < 2 ^ 64.
Proof. apply Z.mod_pos_bound; lia. Qed.
Lemma u128_range x : 0 <= u128 x < 2 ^ 128.
Proof. apply Z.mod_pos_bound; lia. Qed.

Lemma u8_small x : 0 <= x < 2 ^ 8 -> u8 x = x.
Proof. apply Z.mod_small. Qed.
Lemma u32_small x : 0 <= x < 2 ^ 32 -> u32 x = x.
Proof. apply Z.mod_small. Qed.
Lemma u64_small x : 0 <= x < 2 ^ 64 -> u64 x = x.
Proof. apply Z.mod_small. Qed.
Lemma u128_small x : 0 <= x < 2 ^ 128 -> u128 x = x.
Proof. apply Z.mod_small. Qed.

#[export] Hint Resolve u8_range u32_range u64_range u128_range : word.

(** ** Bits: masks are remainders, shifts are quotients, disjoint [or] is a sum *)

(** The bits of [Z] above a bound are clear. *)
Lemma testbit_above n p i : 0 <= n < 2 ^ p -> 0 <= p <= i -> Z.testbit n i = false.
Proof.
  intros Hn Hp. rewrite <- (Z.mod_small n (2 ^ p)) by lia.
  apply Z.mod_pow2_bits_high. lia.
Qed.

(** Two words whose bits do not meet: [a] below [2 ^ p], [b] a multiple of it. *)
Lemma lor_add_shift a b p : 0 <= p -> 0 <= a < 2 ^ p ->
  Z.lor a (Z.shiftl b p) = a + b * 2 ^ p.
Proof.
  intros Hp Ha. rewrite <- Z.shiftl_mul_pow2 by lia. symmetry.
  apply Z.add_nocarry_lor. apply Z.bits_inj'. intros i Hi.
  rewrite Z.land_spec, Z.bits_0, Z.shiftl_spec by lia.
  destruct (Z.lt_ge_cases i p).
  - rewrite (Z.testbit_neg_r b) by lia. apply andb_false_r.
  - rewrite (testbit_above a p) by lia. reflexivity.
Qed.

Lemma lor_add_mul a b p : 0 <= p -> 0 <= a < 2 ^ p ->
  Z.lor a (b * 2 ^ p) = a + b * 2 ^ p.
Proof.
  intros. rewrite <- lor_add_shift by lia. now rewrite Z.shiftl_mul_pow2 by lia.
Qed.

(** A [w]-bit word assembled from the low bits of two others. *)
Lemma lor_shift_mod w a b k n : 0 <= k <= w -> 0 <= a < 2 ^ k -> n = w - k ->
  a .| ((b .<< k) mod 2 ^ w) = a + b mod 2 ^ n * 2 ^ k.
Proof.
  intros Hk Ha ->. rewrite Z.shiftl_mul_pow2 by lia.
  replace (2 ^ w) with (2 ^ (w - k) * 2 ^ k) by (rewrite <- Z.pow_add_r by lia; f_equal; lia).
  rewrite Z.mul_mod_distr_r by (apply Z.pow_nonzero; lia). apply lor_add_mul; lia.
Qed.

Lemma land_mask x p : 0 <= p -> Z.land x (2 ^ p - 1) = x mod 2 ^ p.
Proof.
  intros. rewrite <- Z.land_ones by lia. f_equal. rewrite Z.ones_equiv. lia.
Qed.

(** A mask only reads the bits it has. *)
Lemma land_mod_l x m p : 0 <= p -> 0 <= m < 2 ^ p -> Z.land (x mod 2 ^ p) m = Z.land x m.
Proof.
  intros Hp Hm. rewrite <- Z.land_ones by lia. rewrite <- Z.land_assoc. f_equal.
  rewrite Z.land_comm, Z.land_ones by lia. apply Z.mod_small. lia.
Qed.

Lemma land_congr p x y m : 0 <= p -> 0 <= m < 2 ^ p -> x mod 2 ^ p = y mod 2 ^ p ->
  Z.land x m = Z.land y m.
Proof. intros Hp Hm E. by rewrite <- (land_mod_l x m p), E, land_mod_l by lia. Qed.

(** A word is below [2 ^ p] when its bits from [p] on are clear. *)
Lemma bits_below n p : 0 <= p -> 0 <= n ->
  (forall i, p <= i -> Z.testbit n i = false) -> n < 2 ^ p.
Proof.
  intros Hp Hn Hbits. destruct (Z.lt_ge_cases n (2 ^ p)) as [|Hge]; [done|exfalso].
  assert (Hpos : 0 < n) by (pose proof (Z.pow_pos_nonneg 2 p); lia).
  pose proof (Z.bit_log2 _ Hpos) as Hbit.
  rewrite Hbits in Hbit; [discriminate|]. apply Z.log2_le_pow2; lia.
Qed.

(** A mask bounds what it lets through. *)
Lemma land_range x a p : 0 <= p -> 0 <= a < 2 ^ p -> 0 <= Z.land x a < 2 ^ p.
Proof.
  intros Hp Ha. assert (0 <= Z.land x a) by (apply Z.land_nonneg; lia).
  split; [done|]. apply bits_below; [done..|]. intros i Hi.
  rewrite Z.land_spec, (testbit_above a p) by lia. apply andb_false_r.
Qed.

(** A mask splits with the word it is applied to. *)
Lemma land_split x a b p : 0 <= p -> 0 <= a < 2 ^ p ->
  Z.land x (a + b * 2 ^ p) = Z.land x a + Z.land (x / 2 ^ p) b * 2 ^ p.
Proof.
  intros Hp Ha. rewrite <- !lor_add_mul; try lia.
  - rewrite Z.land_lor_distr_r. f_equal. rewrite <- !Z.shiftl_mul_pow2 by lia.
    rewrite <- Z.shiftr_div_pow2 by lia. apply Z.bits_inj'. intros i Hi.
    rewrite Z.land_spec, !Z.shiftl_spec by lia. destruct (Z.lt_ge_cases i p).
    + rewrite !(Z.testbit_neg_r _ (i - p)) by lia. apply andb_false_r.
    + rewrite Z.land_spec, Z.shiftr_spec by lia. do 2 f_equal. lia.
  - by apply land_range.
Qed.

Lemma lxor_nonneg_range a b p :
  0 <= p -> 0 <= a < 2 ^ p -> 0 <= b < 2 ^ p -> 0 <= Z.lxor a b < 2 ^ p.
Proof.
  intros Hp Ha Hb. assert (0 <= Z.lxor a b) by (apply Z.lxor_nonneg; lia).
  split; [done|]. apply bits_below; [done..|]. intros i Hi.
  by rewrite Z.lxor_spec, !(testbit_above _ p) by lia.
Qed.

Lemma lxor_cancel_r a b : Z.lxor (Z.lxor a b) b = a.
Proof. rewrite Z.lxor_assoc, Z.lxor_nilpotent. apply Z.lxor_0_r. Qed.

(** ** Byte strings *)

Definition is_byte (b : Z) : Prop := 0 <= b < 2 ^ 8.
Definition bytes (l : list Z) : Prop := Forall is_byte l.

(** The little-endian value of a byte string. *)
Fixpoint le_val (l : list Z) : Z :=
  match l with
  | [] => 0
  | b :: l' => b + 2 ^ 8 * le_val l'
  end.

(** The [n] little-endian bytes of a value, as the stores
    [out[i] = (uint8_t)(v >> 8 * i)] write them. *)
Fixpoint le_bytes (n : nat) (v : Z) : list Z :=
  match n with
  | O => []
  | S n' => u8 v :: le_bytes n' (v .>> 8)
  end.

Lemma bytes_nil : bytes [].
Proof. constructor. Qed.

Lemma bytes_app l1 l2 : bytes (l1 ++ l2) <-> bytes l1 /\ bytes l2.
Proof. apply Forall_app. Qed.

Lemma bytes_take n l : bytes l -> bytes (take n l).
Proof. apply Forall_take. Qed.

Lemma bytes_drop n l : bytes l -> bytes (drop n l).
Proof. apply Forall_drop. Qed.

#[export] Hint Resolve bytes_nil bytes_take bytes_drop : word.

Lemma length_le_bytes n v : length (le_bytes n v) = n.
Proof. revert v. induction n; intros; simpl; auto. Qed.

Lemma bytes_le_bytes n v : bytes (le_bytes n v).
Proof.
  revert v. induction n; intros; simpl; constructor; [apply u8_range|apply IHn].
Qed.
#[export] Hint Resolve bytes_le_bytes : word.

Lemma le_val_range l : bytes l -> 0 <= le_val l < 2 ^ (8 * Z.of_nat (length l)).
Proof.
  induction 1 as [|b l Hb Hl IH]; simpl length; [simpl; lia|].
  rewrite Nat2Z.inj_succ. replace (8 * Z.succ (Z.of_nat (length l)))
    with (8 + 8 * Z.of_nat (length l)) by lia.
  rewrite Z.pow_add_r by lia. red in Hb. simpl le_val.
  set (P := 2 ^ (8 * Z.of_nat (length l))) in *. lia.
Qed.

Lemma le_val_le_bytes n v : 0 <= v < 2 ^ (8 * Z.of_nat n) -> le_val (le_bytes n v) = v.
Proof.
  revert v. induction n as [|n IH]; intros v Hv; [simpl in *; lia|].
  rewrite Nat2Z.inj_succ in Hv.
  replace (8 * Z.succ (Z.of_nat n)) with (8 + 8 * Z.of_nat n) in Hv by lia.
  rewrite Z.pow_add_r in Hv by lia. set (P := 2 ^ (8 * Z.of_nat n)) in *.
  simpl. unfold u8. rewrite Z.shiftr_div_pow2 by lia.
  rewrite IH by (subst P; lia). lia.
Qed.

Lemma le_bytes_le_val l : bytes l -> le_bytes (length l) (le_val l) = l.
Proof.
  induction 1 as [|b l Hb Hl IH]; [done|]. red in Hb. simpl. f_equal.
  - unfold u8. lia.
  - rewrite Z.shiftr_div_pow2 by lia.
    replace ((b + 2 ^ 8 * le_val l) / 2 ^ 8) with (le_val l) by lia. apply IH.
Qed.

Lemma le_val_app l1 l2 :
  le_val (l1 ++ l2) = le_val l1 + 2 ^ (8 * Z.of_nat (length l1)) * le_val l2.
Proof.
  induction l1 as [|b l IH]; [simpl; lia|].
  rewrite <- app_comm_cons. simpl le_val at 1. rewrite IH. simpl le_val at 3.
  simpl length. rewrite Nat2Z.inj_succ.
  replace (8 * Z.succ (Z.of_nat (length l))) with (8 + 8 * Z.of_nat (length l)) by lia.
  rewrite Z.pow_add_r by lia. lia.
Qed.

Lemma le_val_zeros n : le_val (replicate n 0) = 0.
Proof. induction n; simpl in *; lia. Qed.

(** A slice of a byte string is a digit of its value. *)
Lemma le_val_drop k l : bytes l -> (k <= length l)%nat ->
  le_val (drop k l) = le_val l / 2 ^ (8 * Z.of_nat k).
Proof.
  intros Hl Hk. rewrite <- (take_drop k l) at 2. rewrite le_val_app, length_take_le by lia.
  pose proof (le_val_range (take k l) (bytes_take _ _ Hl)) as H.
  rewrite length_take_le in H by lia.
  rewrite Z.mul_comm, Z.div_add, Z.div_small by lia. done.
Qed.

Lemma le_val_take k l : bytes l -> (k <= length l)%nat ->
  le_val (take k l) = le_val l mod 2 ^ (8 * Z.of_nat k).
Proof.
  intros Hl Hk. rewrite <- (take_drop k l) at 2. rewrite le_val_app, length_take_le by lia.
  pose proof (le_val_range (take k l) (bytes_take _ _ Hl)) as H.
  rewrite length_take_le in H by lia.
  rewrite Z.mul_comm, Z.mod_add, Z.mod_small by lia. done.
Qed.

Lemma le_val_slice k n l : bytes l -> (k + n <= length l)%nat ->
  le_val (take n (drop k l)) = le_val l / 2 ^ (8 * Z.of_nat k) mod 2 ^ (8 * Z.of_nat n).
Proof.
  intros Hl Hk. rewrite le_val_take by (rewrite ?length_drop; auto with word lia).
  by rewrite le_val_drop by (done || lia).
Qed.

Lemma le_bytes_mod n v : le_bytes n (v mod 2 ^ (8 * Z.of_nat n)) = le_bytes n v.
Proof.
  revert v. induction n as [|n IH]; intros v; [done|].
  rewrite Nat2Z.inj_succ.
  replace (8 * Z.succ (Z.of_nat n)) with (8 + 8 * Z.of_nat n) by lia.
  rewrite Z.pow_add_r by lia. set (Q := 2 ^ (8 * Z.of_nat n)) in *.
  assert (0 < Q) by (apply Z.pow_pos_nonneg; lia). simpl.
  rewrite Z.rem_mul_r by lia. rewrite !Z.shiftr_div_pow2 by lia. f_equal.
  - unfold u8. rewrite Z.mul_comm, Z.mod_add by lia. apply Z.mod_mod. lia.
  - rewrite Z.mul_comm, Z.div_add by lia.
    rewrite (Z.div_small (v mod 2 ^ 8)) by (apply Z.mod_pos_bound; lia). apply IH.
Qed.

Lemma le_bytes_app n k v :
  le_bytes (n + k) v = le_bytes n v ++ le_bytes k (v / 2 ^ (8 * Z.of_nat n)).
Proof.
  revert v. induction n as [|n IH]; intros v; simpl; [by rewrite Z.div_1_r|].
  f_equal. rewrite IH. f_equal. f_equal.
  rewrite Z.shiftr_div_pow2, Z.div_div by (try apply Z.pow_pos_nonneg; lia).
  f_equal. rewrite <- Z.pow_add_r by lia. f_equal. lia.
Qed.

(** The stores as an indexed loop. *)
Lemma map_store_bytes n v :
  map (fun c => u8 (v .>> (8 * Z.of_nat c))) (seq 0 n) = le_bytes n v.
Proof.
  revert v. induction n as [|n IH]; intros v; [done|]. cbn [seq map le_bytes].
  f_equal. rewrite <- seq_shift, List.map_map, <- IH. apply map_ext. intros c.
  rewrite Z.shiftr_shiftr by lia. do 2 f_equal. lia.
Qed.

(** [u8to32]/[load32]-style assembly of four bytes. *)
Definition u8to32 (p : list Z) (off : nat) : Z :=
  (p !!! off) .| (p !!! (off + 1)%nat) .<< 8
  .| (p !!! (off + 2)%nat) .<< 16 .| (p !!! (off + 3)%nat) .<< 24.

Lemma u8to32_le_val p i : bytes p -> (i + 4 <= length p)%nat ->
  u8to32 p i = le_val (take 4 (drop i p)).
Proof.
  intros Hp Hi. unfold u8to32.
  assert (H : forall j, (j < 4)%nat -> exists b, is_byte b /\ p !! (i + j)%nat = Some b).
  { intros j Hj. destruct (lookup_lt_is_Some_2 p (i + j)%nat) as [b Hb]; [lia|].
    exists b. split; [|done]. by eapply Forall_lookup_1 in Hb. }
  destruct (H 0%nat) as (b0 & R0 & E0); [lia|]. rewrite Nat.add_0_r in E0.
  destruct (H 1%nat) as (b1 & R1 & E1); [lia|].
  destruct (H 2%nat) as (b2 & R2 & E2); [lia|].
  destruct (H 3%nat) as (b3 & R3 & E3); [lia|].
  rewrite !list_lookup_total_alt, E0, E1, E2, E3. simpl default.
  erewrite drop_S by exact E0. replace (S i) with (i + 1)%nat by lia.
  erewrite drop_S by exact E1. replace (S (i + 1)) with (i + 2)%nat by lia.
  erewrite drop_S by exact E2. replace (S (i + 2)) with (i + 3)%nat by lia.
  erewrite drop_S by exact E3. unfold is_byte in *. simpl.
  rewrite (lor_add_shift b0) by lia. rewrite (lor_add_shift _ b2) by lia.
  rewrite (lor_add_shift _ b3) by lia. lia.
Qed.

(** ** Lists *)

(** [memcpy(dst + off, src, |src|)]: the bytes of [dst] from [off] are
    replaced; the caller guarantees [off + |src| <= |dst|]. *)
Definition memcpy (dst : list Z) (off : nat) (src : list Z) : list Z :=
  take off dst ++ src ++ drop (off + length src) dst.

Lemma length_memcpy dst off src :
  (off + length src <= length dst)%nat -> length (memcpy dst off src) = length dst.
Proof.
  intros. unfold memcpy. rewrite !length_app, length_take, length_drop. lia.
Qed.

Lemma take_memcpy dst off src : (off <= length dst)%nat ->
  take (off + length src) (memcpy dst off src) = take off dst ++ src.
Proof.
  intros. unfold memcpy. rewrite app_assoc.
  apply take_app_length'. rewrite length_app, length_take. lia.
Qed.

Lemma bytes_memcpy dst off src : bytes dst -> bytes src -> bytes (memcpy dst off src).
Proof. intros. unfold memcpy. rewrite !bytes_app. auto with word. Qed.

Lemma lookup_memcpy dst off src i : (off + length src <= length dst)%nat ->
  memcpy dst off src !! i =
  if (off <=? i)%nat && (i <? off + length src)%nat then src !! (i - off)%nat else dst !! i.
Proof.
  intros Hlen. unfold memcpy. destruct (decide (i < off)%nat) as [Hi|Hi].
  - rewrite lookup_app_l by (rewrite length_take; lia). rewrite lookup_take_lt by done.
    by rewrite (proj2 (Nat.leb_gt off i)) by lia.
  - rewrite lookup_app_r by (rewrite length_take; lia). rewrite length_take, Nat.min_l by lia.
    rewrite (proj2 (Nat.leb_le off i)) by lia. simpl. case_if.
    + by rewrite lookup_app_l by lia.
    + rewrite lookup_app_r by lia. rewrite lookup_drop. f_equal. lia.
Qed.

(** Reading back what was copied, and reading beside it. *)
Lemma slice_memcpy_eq dst off src : (off + length src <= length dst)%nat ->
  take (length src) (drop off (memcpy dst off src)) = src.
Proof.
  intros. unfold memcpy. rewrite drop_app_length' by (rewrite length_take; lia).
  apply take_app_length.
Qed.

Lemma slice_memcpy_ne dst off src o n : (off + length src <= length dst)%nat ->
  (o + n <= off \/ off + length src <= o)%nat ->
  take n (drop o (memcpy dst off src)) = take n (drop o dst).
Proof.
  intros Hlen Hd. apply list_eq. intros i. destruct (decide (i < n)%nat).
  - rewrite !lookup_take_lt, !lookup_drop, lookup_memcpy by done.
    by destruct ((off <=? o + i)%nat) eqn:E1, ((o + i <? off + length src)%nat) eqn:E2;
      bool_to_prop; try done; lia.
  - by rewrite !lookup_take_ge by lia.
Qed.

Lemma lookup_map {A B} (f : A -> B) l i : map f l !! i = f <$> l !! i.
Proof. revert i. induction l; intros [|i]; simpl; done. Qed.

Lemma map_insert {A B} (f : A -> B) l i x : map f (<[i := x]> l) = <[i := f x]> (map f l).
Proof.
  revert i. induction l as [|y l IH]; intros [|i]; simpl; [done|done|done|].
  apply (f_equal (cons (f y))), IH.
Qed.

(** Structural induction on a list cut into pieces of [n] elements. *)
Lemma chunk_ind {A} (n : nat) (P : list A -> Prop) : (0 < n)%nat ->
  (forall l, (length l < n)%nat -> P l) ->
  (forall l, (n <= length l)%nat -> P (drop n l) -> P l) ->
  forall l, P l.
Proof.
  intros Hn Hshort Hlong l. remember (length l) as m eqn:Hm.
  revert l Hm. induction m as [m IH] using lt_wf_ind. intros l ->.
  destruct (decide (length l < n)%nat) as [|Hge]; [auto|].
  apply Hlong; [lia|]. eapply IH; [|reflexivity]. rewrite length_drop. lia.
Qed.

(** ** Loops

    [for_loop n body s] is [for (i = 0; i < n; i++) s = body(i, s)];
    [while_loop] is C's [while] with fuel.  [while_done] says that enough fuel
    is any number above a measure the body decreases, so a theorem about a
    [while_loop] never rests on running out of fuel. *)

Definition for_loop {S} (n : nat) (body : nat -> S -> S) (s : S) : S :=
  fold_left (fun s i => body i s) (seq 0 n) s.

Fixpoint while_loop {S} (fuel : nat) (cond : S -> bool) (body : S -> S) (s : S) : S :=
  match fuel with
  | O => s
  | S fuel' => if cond s then while_loop fuel' cond body (body s) else s
  end.

Lemma for_loop_0 {S} (body : nat -> S -> S) s : for_loop 0 body s = s.
Proof. done. Qed.

Lemma for_loop_S {S} n (body : nat -> S -> S) s :
  for_loop (Datatypes.S n) body s = body n (for_loop n body s).
Proof. unfold for_loop. rewrite seq_S, fold_left_app. done. Qed.

(** Induction over the iterations of a [for]. *)
Lemma for_loop_ind {S} (P : nat -> S -> Prop) n (body : nat -> S -> S) s :
  P O s -> (forall i s', (i < n)%nat -> P i s' -> P (Datatypes.S i) (body i s')) ->
  P n (for_loop n body s).
Proof.
  intros H0 Hstep. induction n as [|n IH]; [done|]. rewrite for_loop_S.
  apply Hstep; [lia|]. apply IH. intros. apply Hstep; [lia|done].
Qed.

(** Two loops in lock step. *)
Lemma for_loop_rel {S T} (R : S -> T -> Prop) n (f : nat -> S -> S) (g : nat -> T -> T) s t :
  R s t -> (forall i s' t', (i < n)%nat -> R s' t' -> R (f i s') (g i t')) ->
  R (for_loop n f s) (for_loop n g t).
Proof.
  intros H0 Hstep. induction n as [|n IH]; [done|]. rewrite !for_loop_S.
  apply Hstep; [lia|]. apply IH. intros. apply Hstep; [lia|done].
Qed.

(** The first index of [i .. i + n) that satisfies [p]: a [for] that leaves
    at its first match. *)
Fixpoint first_from (p : nat -> bool) (i n : nat) : option nat :=
  match n with
  | O => None
  | S n' => if p i then Some i else first_from p (S i) n'
  end.

Lemma first_from_Some p i n j : first_from p i n = Some j ->
  (i <= j < i + n)%nat /\ p j = true /\ (forall k, (i <= k < j)%nat -> p k = false).
Proof.
  revert i. induction n as [|n IH]; intros i; simpl; [done|].
  destruct (p i) eqn:E.
  - intros [= <-]. split_and!; [lia|lia|done|lia].
  - intros H. apply IH in H as (? & ? & Hk). split_and!; [lia|lia|done|].
    intros k ?. destruct (decide (k = i)) as [->|]; [done|]. apply Hk. lia.
Qed.

Lemma first_from_None p i n : first_from p i n = None ->
  forall k, (i <= k < i + n)%nat -> p k = false.
Proof.
  revert i. induction n as [|n IH]; intros i; simpl; [lia|].
  destruct (p i) eqn:E; [done|]. intros H k ?.
  destruct (decide (k = i)) as [->|]; [done|]. apply (IH (S i)); [done|lia].
Qed.

Lemma first_from_intro p i n j : (i <= j < i + n)%nat -> p j = true ->
  (forall k, (i <= k < j)%nat -> p k = false) -> first_from p i n = Some j.
Proof.
  revert i. induction n as [|n IH]; intros i Hj Hp Hk; simpl; [lia|].
  destruct (decide (j = i)) as [->|]; [by rewrite Hp|].
  rewrite Hk by lia. apply IH; [lia|done|]. intros. apply Hk. lia.
Qed.

Lemma first_from_none_intro p i n :
  (forall k, (i <= k < i + n)%nat -> p k = false) -> first_from p i n = None.
Proof.
  intros Hk. destruct (first_from p i n) as [j|] eqn:E; [|done].
  apply first_from_Some in E as (Hj & Hp & _). by rewrite Hk in Hp.
Qed.

Lemma first_from_ext p q i n : (forall k, (i <= k < i + n)%nat -> p k = q k) ->
  first_from p i n = first_from q i n.
Proof.
  revert i. induction n as [|n IH]; intros i H; simpl; [done|].
  rewrite H by lia. rewrite IH; [done|]. intros. apply H. lia.
Qed.

Lemma first_from_app p i n m :
  first_from p i (n + m) = match first_from p i n with
                           | Some j => Some j
                           | None => first_from p (i + n) m
                           end.
Proof.
  revert i. induction n as [|n IH]; intros i; simpl; [by rewrite Nat.add_0_r|].
  destruct (p i); [done|]. rewrite IH. by rewrite Nat.add_succ_r.
Qed.

Section while_loops.
Context {S : Type} (cond : S -> bool) (body : S -> S).
Context (I : S -> Prop) (measure : S -> nat).
Context (Hbody : forall s, I s -> cond s = true ->
           I (body s) /\ (measure (body s) < measure s)%nat).

Lemma while_done fuel s : I s -> (measure s <= fuel)%nat ->
  let s' := while_loop fuel cond body s in I s' /\ cond s' = false.
Proof.
  revert s. induction fuel as [|fuel IH]; intros s Hs Hm; simpl.
  - split; [done|]. destruct (cond s) eqn:E; [|done].
    destruct (Hbody s Hs E). lia.
  - destruct (cond s) eqn:E; [|done]. destruct (Hbody s Hs E).
    apply IH; [done|lia].
Qed.

Lemma while_fuel fuel fuel' s : I s ->
  (measure s <= fuel)%nat -> (measure s <= fuel')%nat ->
  while_loop fuel cond body s = while_loop fuel' cond body s.
Proof.
  revert fuel' s. induction fuel as [|fuel IH]; intros fuel' s Hs H1 H2.
  - destruct fuel'; [done|]. simpl. destruct (cond s) eqn:E; [|done].
    destruct (Hbody s Hs E). lia.
  - destruct fuel' as [|fuel']; simpl; destruct (cond s) eqn:E; try done;
      destruct (Hbody s Hs E); [lia|]. apply IH; [done|lia|lia].
Qed.
End while_loops.
