(* ===== verification/ChaCha20.v ===== *)
(** * ChaCha20 as [benchmarks/crypto_probe.c] implements it

    Five implementations of one cipher: [chacha20_xor] (state rebuilt per
    block), [chacha20_xor_hoisted], [chacha20_xor_sse2] (rows in four 128-bit
    registers, shuffled), [chacha20_xor_sse2x4] and [chacha20_xor_avx2] (four
    and eight blocks at once, transposed).  A byte is a [Z] below [2 ^ 8], a
    [uint32_t] a [Z] reduced by [u32], an [__m128i] / [__m256i] the list of its
    four / eight 32-bit lanes, lane 0 first. *)

From S2P Require Import Prelude.

(** ** The 32-bit word operations a quarter round uses

    The source writes the quarter round three times: as the macro
    [QUARTERROUND] on [uint32_t], as [QR4] on [__m128i] and as [QR8] on
    [__m256i].  The class names what the three have in common. *)

Class WordOps (T : Type) := {
  wadd : T -> T -> T;
  wxor : T -> T -> T;
  wrotl : T -> Z -> T;
}.

Definition ROTL32 (v n : Z) : Z := u32 (v .<< n) .| (v .>> (32 - n)).

#[export] Instance word32 : WordOps Z := {
  wadd a b := u32 (a + b);
  wxor := Z.lxor;
  wrotl := ROTL32;
}.

(** ** Vector registers *)

Abbreviation lanes := (list Z) (only parsing).

(** [_mm_add_epi32], [_mm_xor_si128], [_mm_or_si128], [_mm_slli_epi32],
    [_mm_srli_epi32] and their 256-bit forms: lane by lane. *)
Definition mm_add_epi32 (a b : lanes) : lanes := zip_with (fun x y => u32 (x + y)) a b.
Definition mm_xor (a b : lanes) : lanes := zip_with Z.lxor a b.
Definition mm_or (a b : lanes) : lanes := zip_with Z.lor a b.
Definition mm_slli_epi32 (a : lanes) (n : Z) : lanes := map (fun x => u32 (x .<< n)) a.
Definition mm_srli_epi32 (a : lanes) (n : Z) : lanes := map (fun x => x .>> n) a.

(** [_mm_shuffle_epi32]: lane [i] of the result is the source lane named by
    bits [2i+1:2i] of the immediate. *)
Definition mm_shuffle_epi32 (a : lanes) (imm : Z) : lanes :=
  map (fun i => a !!! Z.to_nat ((imm .>> (2 * Z.of_nat i)) .& 3)) (seq 0 4).

Definition mm_set1 (w : nat) (v : Z) : lanes := replicate w v.

(** [rotl_epi32] and [rotl_epi32_256]. *)
Definition rotl_epi32 (x : lanes) (n : Z) : lanes :=
  mm_or (mm_slli_epi32 x n) (mm_srli_epi32 x (32 - n)).

#[export] Instance wordv : WordOps lanes := {
  wadd := mm_add_epi32;
  wxor := mm_xor;
  wrotl := rotl_epi32;
}.

(** ** The quarter round, on the array [x] at indices [a b c d] *)

(** The statements [x[a] += x[b]], [x[d] ^= x[a]] and [x[d] = ROTL32(x[d], n)]. *)
Definition add_assign `{Inhabited T, WordOps T} (a b : nat) (x : list T) : list T :=
  <[a := wadd (x !!! a) (x !!! b)]> x.
Definition xor_assign `{Inhabited T, WordOps T} (d a : nat) (x : list T) : list T :=
  <[d := wxor (x !!! d) (x !!! a)]> x.
Definition rotl_assign `{Inhabited T, WordOps T} (d : nat) (n : Z) (x : list T) : list T :=
  <[d := wrotl (x !!! d) n]> x.

Definition QUARTERROUND `{Inhabited T, WordOps T} (a b c d : nat) (x : list T) : list T :=
  let x := rotl_assign d 16 (xor_assign d a (add_assign a b x)) in
  let x := rotl_assign b 12 (xor_assign b c (add_assign c d x)) in
  let x := rotl_assign d 8 (xor_assign d a (add_assign a b x)) in
  rotl_assign b 7 (xor_assign b c (add_assign c d x)).

Definition QR4 : nat -> nat -> nat -> nat -> list lanes -> list lanes := QUARTERROUND.
Definition QR8 : nat -> nat -> nat -> nat -> list lanes -> list lanes := QUARTERROUND.

(** One iteration of [for (i = 0; i < 10; i++)]: four columns, four diagonals. *)
Definition double_round {T} (QR : nat -> nat -> nat -> nat -> list T -> list T)
    (x : list T) : list T :=
  (let x := QR 0 4 8 12 x in let x := QR 1 5 9 13 x in
   let x := QR 2 6 10 14 x in let x := QR 3 7 11 15 x in
   let x := QR 0 5 10 15 x in let x := QR 1 6 11 12 x in
   let x := QR 2 7 8 13 x in QR 3 4 9 14 x)%nat.

(** ** The state and one block *)

(** [(uint32_t)p[4 * i] | p[4 * i + 1] << 8 | p[4 * i + 2] << 16 | p[4 * i + 3] << 24]. *)
Definition load32 (p : list Z) (i : nat) : Z := u8to32 p (4 * i).

(** The four byte stores of a word. *)
Definition store32 (v : Z) : list Z := [u8 v; u8 (v .>> 8); u8 (v .>> 16); u8 (v .>> 24)].

Definition C : list Z := [0x61707865; 0x3320646e; 0x79622d32; 0x6b206574].

(** The sixteen words [s] every implementation starts from. *)
Definition chacha20_state (key : list Z) (counter : Z) (nonce : list Z) : list Z :=
  C ++ map (load32 key) (seq 0 8) ++ [counter] ++ map (load32 nonce) (seq 0 3).

Definition chacha20_rounds (x : list Z) : list Z :=
  for_loop 10 (fun _ x => double_round QUARTERROUND x) x.

Definition chacha20_block (key : list Z) (counter : Z) (nonce : list Z) : list Z :=
  let s := chacha20_state key counter nonce in
  let x := chacha20_rounds s in
  flat_map (fun i => store32 (u32 (x !!! i + s !!! i))) (seq 0 16).

(** ** Five stream ciphers

    [buf] is updated in place; [xor_into buf at n ks] is the loop
    [for (i = 0; i < n; i++) buf[at + i] ^= ks(i)]. *)

Definition xor_into (buf : list Z) (at_ n : nat) (ks : nat -> Z) : list Z :=
  for_loop n (fun i buf => <[(at_ + i)%nat := (buf !!! (at_ + i)%nat) .^ ks i]> buf) buf.

(** [len - done < 64 ? len - done : 64]. *)
Definition chunk_len (len done_ : nat) : nat :=
  if (len - done_ <? 64)%nat then (len - done_)%nat else 64%nat.

Definition chacha20_xor_step (key nonce : list Z) (st : nat * Z * list Z) : nat * Z * list Z :=
  let '(done_, counter, buf) := st in
  let n := chunk_len (length buf) done_ in
  let ks := chacha20_block key counter nonce in
  ((done_ + n)%nat, u32 (counter + 1), xor_into buf done_ n (fun i => ks !!! i)).

Definition not_done {S} (st : nat * S * list Z) : bool :=
  let '(done_, _, buf) := st in (done_ <? length buf)%nat.

Definition chacha20_xor (key : list Z) (counter : Z) (nonce buf : list Z) : list Z :=
  (while_loop (length buf) not_done (chacha20_xor_step key nonce) (0%nat, counter, buf)).2.

(** The hoisted version keeps the words [s] and bumps [s[12]]. *)
Definition chacha20_hoisted_step (st : nat * list Z * list Z) : nat * list Z * list Z :=
  let '(done_, s, buf) := st in
  let n := chunk_len (length buf) done_ in
  let x := chacha20_rounds s in
  let x := for_loop 16 (fun i x => <[i := u32 (x !!! i + s !!! i)]> x) x in
  ((done_ + n)%nat, <[12%nat := u32 (s !!! 12%nat + 1)]> s,
   xor_into buf done_ n (fun j =>
     u8 ((x !!! (j / 4)%nat) .>> (Z.of_nat (j mod 4) * 8)))).

Definition chacha20_xor_hoisted (key : list Z) (counter : Z) (nonce buf : list Z) : list Z :=
  (while_loop (length buf) not_done chacha20_hoisted_step
     (0%nat, chacha20_state key counter nonce, buf)).2.

(** One block in four row registers. *)
Definition sse2_half (r : lanes * lanes * lanes * lanes) : lanes * lanes * lanes * lanes :=
  let '(a, b, c, d) := r in
  let a := mm_add_epi32 a b in let d := mm_xor d a in let d := rotl_epi32 d 16 in
  let c := mm_add_epi32 c d in let b := mm_xor b c in let b := rotl_epi32 b 12 in
  let a := mm_add_epi32 a b in let d := mm_xor d a in let d := rotl_epi32 d 8 in
  let c := mm_add_epi32 c d in let b := mm_xor b c in let b := rotl_epi32 b 7 in
  (a, b, c, d).

Definition sse2_double_round (r : lanes * lanes * lanes * lanes) : lanes * lanes * lanes * lanes :=
  let '(a, b, c, d) := sse2_half r in
  let b := mm_shuffle_epi32 b 0x39 in
  let c := mm_shuffle_epi32 c 0x4E in
  let d := mm_shuffle_epi32 d 0x93 in
  let '(a, b, c, d) := sse2_half (a, b, c, d) in
  let b := mm_shuffle_epi32 b 0x93 in
  let c := mm_shuffle_epi32 c 0x4E in
  let d := mm_shuffle_epi32 d 0x39 in
  (a, b, c, d).

(** [_mm_loadu_si128] of four words and [_mm_storeu_si128] to sixteen bytes. *)
Definition mm_loadu (s : list Z) (i : nat) : lanes := take 4 (drop i s).
Definition mm_storeu (v : lanes) : list Z := flat_map store32 v.

Definition chacha20_sse2_step (st : nat * (lanes * lanes * lanes * lanes) * list Z)
    : nat * (lanes * lanes * lanes * lanes) * list Z :=
  let '(done_, (v0, v1, v2, v3), buf) := st in
  let n := chunk_len (length buf) done_ in
  let '(a, b, c, d) := for_loop 10 (fun _ => sse2_double_round) (v0, v1, v2, v3) in
  let ks := mm_storeu (mm_add_epi32 a v0) ++ mm_storeu (mm_add_epi32 b v1)
         ++ mm_storeu (mm_add_epi32 c v2) ++ mm_storeu (mm_add_epi32 d v3) in
  ((done_ + n)%nat, (v0, v1, v2, mm_add_epi32 v3 [1; 0; 0; 0]),
   xor_into buf done_ n (fun j => ks !!! j)).

Definition chacha20_xor_sse2 (key : list Z) (counter : Z) (nonce buf : list Z) : list Z :=
  let s := chacha20_state key counter nonce in
  (while_loop (length buf) not_done chacha20_sse2_step
     (0%nat, (mm_loadu s 0, mm_loadu s 4, mm_loadu s 8, mm_loadu s 12), buf)).2.

(** [w] blocks at once, each register word [i] of [w] different blocks: the
    body [chacha20_xor_sse2x4] ([w = 4]) and [chacha20_xor_avx2] ([w = 8])
    share up to the register width.  [xN_words] is the array [words], before
    the inner loop over the blocks. *)
Definition xN_init (w : nat) (s : list Z) : list lanes :=
  let x := map (mm_set1 w) s in
  <[12%nat := map (fun i => u32 (s !!! 12%nat + Z.of_nat i)) (seq 0 w)]> x.

Definition xN_words (w : nat) (QR : nat -> nat -> nat -> nat -> list lanes -> list lanes)
    (s : list Z) : list lanes :=
  let x := xN_init w s in
  let o := x in
  let x := for_loop 10 (fun _ x => double_round QR x) x in
  zip_with mm_add_epi32 x o.

(** [for (blk = 0; blk < w && chunk > 0; blk++)]: one block of keystream each,
    the last one possibly short. *)
Definition xN_block (words : list lanes) (blk : nat) (st : nat * nat * list Z)
    : nat * nat * list Z :=
  let '(done_, chunk, buf) := st in
  if (0 <? chunk)%nat then
    let n := if (chunk <? 64)%nat then chunk else 64%nat in
    let ks := flat_map (fun i => store32 ((words !!! i) !!! blk)) (seq 0 16) in
    ((done_ + n)%nat, (chunk - n)%nat, xor_into buf done_ n (fun j => ks !!! j))
  else st.

Definition chacha20_xN_step (w : nat)
    (QR : nat -> nat -> nat -> nat -> list lanes -> list lanes)
    (st : nat * list Z * list Z) : nat * list Z * list Z :=
  let '(done_, s, buf) := st in
  let words := xN_words w QR s in
  let chunk := (length buf - done_)%nat in
  let '(done_, _, buf) := for_loop w (xN_block words) (done_, chunk, buf) in
  (done_, <[12%nat := u32 (s !!! 12%nat + Z.of_nat w)]> s, buf).

Definition chacha20_xor_sse2x4 (key : list Z) (counter : Z) (nonce buf : list Z) : list Z :=
  (while_loop (length buf) not_done (chacha20_xN_step 4 QR4)
     (0%nat, chacha20_state key counter nonce, buf)).2.

Definition chacha20_xor_avx2 (key : list Z) (counter : Z) (nonce buf : list Z) : list Z :=
  (while_loop (length buf) not_done (chacha20_xN_step 8 QR8)
     (0%nat, chacha20_state key counter nonce, buf)).2.

(** ** The reference: a stream of keystream bytes *)

(** Byte [j] of the stream that starts at block [counter] of the cipher. *)
Definition keystream_byte (key : list Z) (counter : Z) (nonce : list Z) (j : nat) : Z :=
  chacha20_block key (u32 (counter + Z.of_nat (j / 64))) nonce !!! (j mod 64)%nat.

Definition chacha20_stream (key : list Z) (counter : Z) (nonce buf : list Z) : list Z :=
  imap (fun j b => b .^ keystream_byte key counter nonce j) buf.

(** ** Lemmas: the loop that xors a chunk *)

Lemma xor_into_S buf a n ks : xor_into buf a (S n) ks =
  (let buf' := xor_into buf a n ks in
   <[(a + n)%nat := (buf' !!! (a + n)%nat) .^ ks n]> buf').
Proof. unfold xor_into. by rewrite for_loop_S. Qed.

Lemma length_xor_into buf a n ks : length (xor_into buf a n ks) = length buf.
Proof.
  induction n as [|n IH]; [done|]. rewrite xor_into_S. simpl.
  by rewrite length_insert.
Qed.

Lemma xor_into_lookup buf a n ks j : (a + n <= length buf)%nat ->
  xor_into buf a n ks !! j =
  (if (a <=? j)%nat && (j <? a + n)%nat
   then (fun b => b .^ ks (j - a)%nat) <$> buf !! j else buf !! j).
Proof.
  induction n as [|n IH]; intros Hlen.
  - case_if; [lia|done].
  - rewrite xor_into_S. simpl. destruct (decide (j = a + n)%nat) as [->|Hne].
    + rewrite list_lookup_insert_eq by (rewrite length_xor_into; lia).
      rewrite list_lookup_total_alt, IH by lia.
      destruct (lookup_lt_is_Some_2 buf (a + n)%nat) as [b Hb]; [lia|].
      rewrite Hb. repeat case_if; try (exfalso; lia). simpl.
      repeat f_equal; lia.
    + rewrite list_lookup_insert_ne by lia. rewrite IH by lia.
      repeat case_if; try done; exfalso; lia.
Qed.

Lemma xor_into_ext buf a n ks ks' : (forall i, (i < n)%nat -> ks i = ks' i) ->
  xor_into buf a n ks = xor_into buf a n ks'.
Proof.
  intros H. induction n as [|n IH]; [done|]. rewrite !xor_into_S. simpl.
  rewrite IH by auto. rewrite H by lia. done.
Qed.

Lemma xor_into_split buf a n m ks :
  xor_into (xor_into buf a n ks) (a + n) m (fun i => ks (n + i)%nat) =
  xor_into buf a (n + m) ks.
Proof.
  induction m as [|m IH]; [by rewrite Nat.add_0_r|].
  rewrite Nat.add_succ_r, !xor_into_S. simpl. rewrite IH.
  by rewrite Nat.add_assoc.
Qed.

Lemma chunk_len_min len d : chunk_len len d = ((len - d) `min` 64)%nat.
Proof. unfold chunk_len. case_if; lia. Qed.

(** Every implementation is an instance of this loop: [R done st] says what
    the loop-carried state [st] is after [done] bytes, and a step xors the
    bytes [K done .. K (done + n - 1)] of one keystream [K]. *)
Section stream_loop.
Context {S : Type} (K : nat -> Z) (R : nat -> S -> Prop).
Context (step : nat * S * list Z -> nat * S * list Z).
Context (Hstep : forall d st buf, R d st -> (d < length buf)%nat ->
  exists n st', (0 < n)%nat /\ (d + n <= length buf)%nat /\
    step (d, st, buf) = ((d + n)%nat, st', xor_into buf d n (fun i => K (d + i)%nat)) /\
    ((d + n < length buf)%nat -> R (d + n)%nat st')).

Lemma stream_loop st0 buf0 : R 0%nat st0 ->
  (while_loop (length buf0) not_done step (0%nat, st0, buf0)).2
  = imap (fun j b => b .^ K j) buf0.
Proof.
  intros HR.
  set (I := fun s : nat * S * list Z => let '(d, st, buf) := s in
    (d <= length buf0)%nat /\ length buf = length buf0 /\
    ((d < length buf0)%nat -> R d st) /\ buf = xor_into buf0 0 d K).
  destruct (while_done not_done step I
    (fun s => (length buf0 - s.1.1)%nat)) with (fuel := length buf0)
    (s := (0%nat, st0, buf0)) as [HI Hc].
  - intros [[d st] buf] (Hd & Hl & HRd & ->) Hnd. simpl in Hnd. bool_to_prop.
    rewrite length_xor_into in *.
    destruct (Hstep d st (xor_into buf0 0 d K)) as (n & st' & ? & Hn & -> & Hr);
      [auto|rewrite length_xor_into; lia|].
    rewrite length_xor_into in Hn, Hr. simpl. split; [|lia].
    repeat split; [lia|by rewrite !length_xor_into|auto|].
    apply (xor_into_split buf0 0 d n K).
  - repeat split; auto with lia.
  - simpl. lia.
  - destruct (while_loop _ _ _ _) as [[d st] buf]. destruct HI as (? & Hl & _ & ->).
    simpl in Hc |- *. bool_to_prop. rewrite length_xor_into in Hc.
    apply list_eq. intros j. rewrite xor_into_lookup by lia.
    rewrite list_lookup_imap. destruct (buf0 !! j) eqn:E.
    + apply lookup_lt_Some in E. simpl.
      replace ((j <? d)%nat) with true by (symmetry; apply Nat.ltb_lt; lia).
      simpl. by rewrite Nat.sub_0_r.
    + by case_if.
Qed.
End stream_loop.

(** ** Lemmas: blocks and registers *)

Lemma length_add_assign `{Inhabited T, WordOps T} a b (x : list T) :
  length (add_assign a b x) = length x.
Proof. apply length_insert. Qed.
Lemma length_xor_assign `{Inhabited T, WordOps T} a b (x : list T) :
  length (xor_assign a b x) = length x.
Proof. apply length_insert. Qed.
Lemma length_rotl_assign `{Inhabited T, WordOps T} a n (x : list T) :
  length (rotl_assign a n x) = length x.
Proof. apply length_insert. Qed.
#[local] Hint Rewrite @length_add_assign @length_xor_assign @length_rotl_assign : lengths.

Lemma length_QUARTERROUND `{Inhabited T, WordOps T} a b c d (x : list T) :
  length (QUARTERROUND a b c d x) = length x.
Proof. unfold QUARTERROUND. by autorewrite with lengths. Qed.

Lemma length_double_round `{Inhabited T, WordOps T} (x : list T) :
  length (double_round QUARTERROUND x) = length x.
Proof. unfold double_round. by rewrite !length_QUARTERROUND. Qed.

Lemma length_chacha20_rounds x : length (chacha20_rounds x) = length x.
Proof.
  apply (for_loop_ind (fun _ y => length y = length x)); [done|].
  intros i y _ <-. apply length_double_round.
Qed.

Lemma length_chacha20_state key c nonce : length (chacha20_state key c nonce) = 16%nat.
Proof. done. Qed.

Lemma chacha20_state_counter key c nonce v :
  <[12%nat := v]> (chacha20_state key c nonce) = chacha20_state key v nonce.
Proof. done. Qed.

Lemma chacha20_state_12 key c nonce : chacha20_state key c nonce !!! 12%nat = c.
Proof. done. Qed.

(** Names the sixteen elements of a list of length sixteen. *)
Ltac explode x H :=
  repeat (let v := fresh "x" in destruct x as [|v x]; [discriminate H|]; simpl in H);
  destruct x; [|discriminate H]; clear H.

Lemma flat_map_store32_lookup (g : nat -> Z) j : (j < 64)%nat ->
  flat_map (fun i => store32 (g i)) (seq 0 16) !!! j
  = u8 (g (j / 4)%nat .>> (Z.of_nat (j mod 4) * 8)).
Proof. intros Hj. do 64 (destruct j as [|j]; [reflexivity|]). lia. Qed.

Lemma length_chacha20_block key c nonce : length (chacha20_block key c nonce) = 64%nat.
Proof. done. Qed.

Lemma chacha20_block_lookup key c nonce j : (j < 64)%nat ->
  let s := chacha20_state key c nonce in
  chacha20_block key c nonce !!! j
  = u8 (u32 (chacha20_rounds s !!! (j / 4)%nat + s !!! (j / 4)%nat)
        .>> (Z.of_nat (j mod 4) * 8)).
Proof. intros Hj s. unfold chacha20_block. by rewrite flat_map_store32_lookup. Qed.

Lemma keystream_byte_block key c nonce d i : (d mod 64 = 0)%nat -> (i < 64)%nat ->
  keystream_byte key c nonce (d + i)
  = chacha20_block key (u32 (c + Z.of_nat (d / 64))) nonce !!! i.
Proof.
  intros Hd Hi. unfold keystream_byte.
  replace ((d + i) / 64)%nat with (d / 64)%nat by lia.
  by replace ((d + i) mod 64)%nat with i by lia.
Qed.

Lemma next_counter c d : (d mod 64 = 0)%nat ->
  u32 (u32 (c + Z.of_nat (d / 64)) + 1) = u32 (c + Z.of_nat ((d + 64) / 64)).
Proof.
  intros. unfold u32. rewrite Z.add_mod_idemp_l by lia. f_equal. lia.
Qed.

Lemma chunk_full len d : (d < len)%nat ->
  (0 < chunk_len len d <= 64)%nat /\ (d + chunk_len len d <= len)%nat /\
  ((d + chunk_len len d < len)%nat -> chunk_len len d = 64%nat).
Proof. rewrite chunk_len_min. lia. Qed.

(** A step of an implementation is determined by the 64 keystream bytes of its
    state: what each of the single-block versions has to prove. *)
Lemma single_block_step key c nonce {S} (R : nat -> S -> Prop)
    (block : S -> nat -> Z) (next : S -> S) (step : nat * S * list Z -> nat * S * list Z) :
  (forall d st buf, step (d, st, buf) =
     ((d + chunk_len (length buf) d)%nat, next st,
      xor_into buf d (chunk_len (length buf) d) (block st))) ->
  (forall d st, (d mod 64 = 0)%nat -> R d st -> R (d + 64)%nat (next st)) ->
  (forall d st i, R d st -> (i < 64)%nat ->
     block st i = chacha20_block key (u32 (c + Z.of_nat (d / 64))) nonce !!! i) ->
  forall st0 buf, R 0%nat st0 ->
    (while_loop (length buf) not_done step (0%nat, st0, buf)).2
    = chacha20_stream key c nonce buf.
Proof.
  intros Hs Hnext Hblock st0 buf HR0.
  apply (stream_loop _ (fun d st => (d mod 64 = 0)%nat /\ R d st)); [|done].
  intros d st b [Hd HR] Hlt. destruct (chunk_full _ _ Hlt) as (? & ? & Hfull).
  exists (chunk_len (length b) d), (next st).
  split; [lia|]. split; [lia|]. split.
  - rewrite Hs. f_equal. apply xor_into_ext. intros i Hi.
    rewrite keystream_byte_block by lia. apply Hblock; [done|lia].
  - intros Hmore. rewrite Hfull by done. split; [lia|auto].
Qed.

(** *** [chacha20_xor] *)

Lemma chacha20_xor_stream key c nonce buf : 0 <= c < 2 ^ 32 ->
  chacha20_xor key c nonce buf = chacha20_stream key c nonce buf.
Proof.
  intros Hc. unfold chacha20_xor.
  apply (single_block_step key c nonce
    (fun d counter => counter = u32 (c + Z.of_nat (d / 64)))
    (fun counter i => chacha20_block key counter nonce !!! i)
    (fun counter => u32 (counter + 1))); [done| | |].
  - intros d st ? ->. by apply next_counter.
  - by intros d st i -> ?.
  - simpl. rewrite Z.add_0_r. by rewrite u32_small.
Qed.

(** *** [chacha20_xor_hoisted] *)

Lemma add_state_lookup (x s : list Z) k : length x = 16%nat -> (k < 16)%nat ->
  for_loop 16 (fun i x => <[i := u32 (x !!! i + s !!! i)]> x) x !!! k
  = u32 (x !!! k + s !!! k).
Proof.
  intros Hx Hk.
  assert (H : forall n, (n <= 16)%nat ->
    let y := for_loop n (fun i x => <[i := u32 (x !!! i + s !!! i)]> x) x in
    length y = 16%nat /\ forall j, (j < 16)%nat ->
      y !!! j = if (j <? n)%nat then u32 (x !!! j + s !!! j) else x !!! j).
  { induction n as [|n IH]; intros Hn; [done|]. rewrite for_loop_S.
    destruct IH as [Hl Hj]; [lia|]. split; [by rewrite length_insert|].
    intros j Hj16. rewrite list_lookup_total_insert, Hl.
    case_decide as E; [destruct E as [<- _]|]; rewrite Hj by lia;
      repeat case_if; try done; exfalso; lia. }
  destruct (H 16%nat ltac:(lia)) as [_ Hall]. rewrite Hall by done.
  by case_if; [|lia].
Qed.

Lemma chacha20_xor_hoisted_stream key c nonce buf : 0 <= c < 2 ^ 32 ->
  chacha20_xor_hoisted key c nonce buf = chacha20_stream key c nonce buf.
Proof.
  intros Hc. unfold chacha20_xor_hoisted.
  eapply (single_block_step key c nonce
    (fun d s => s = chacha20_state key (u32 (c + Z.of_nat (d / 64))) nonce));
    [intros; reflexivity| | |].
  - intros d st ? ->. rewrite chacha20_state_12, chacha20_state_counter.
    by rewrite next_counter.
  - intros d st i -> Hi. cbv beta zeta.
    by rewrite chacha20_block_lookup, add_state_lookup
      by (rewrite ?length_chacha20_rounds; done || lia).
  - simpl. rewrite Z.add_0_r. by rewrite u32_small.
Qed.

(** *** [chacha20_xor_sse2] *)

Definition rows (x : list Z) : lanes * lanes * lanes * lanes :=
  (take 4 x, take 4 (drop 4 x), take 4 (drop 8 x), take 4 (drop 12 x)).

Lemma sse2_double_round_rows x : length x = 16%nat ->
  sse2_double_round (rows x) = rows (double_round QUARTERROUND x).
Proof.
  intros Hx. explode x Hx.
  cbv -[u32 Z.lxor Z.lor Z.shiftl Z.shiftr Z.add]. reflexivity.
Qed.

Lemma sse2_rounds_rows x : length x = 16%nat ->
  for_loop 10 (fun _ => sse2_double_round) (rows x) = rows (chacha20_rounds x).
Proof.
  intros Hx. unfold chacha20_rounds.
  assert (H : forall n, for_loop n (fun _ => sse2_double_round) (rows x)
    = rows (for_loop n (fun _ y => double_round QUARTERROUND y) x)
    /\ length (for_loop n (fun _ y => double_round QUARTERROUND y) x) = 16%nat).
  { induction n as [|n [IH IHl]]; [done|]. rewrite !for_loop_S, IH.
    by rewrite sse2_double_round_rows, length_double_round. }
  apply H.
Qed.

Lemma sse2_block x s : length x = 16%nat -> length s = 16%nat ->
  let '(a, b, c, d) := rows x in let '(v0, v1, v2, v3) := rows s in
  mm_storeu (mm_add_epi32 a v0) ++ mm_storeu (mm_add_epi32 b v1)
    ++ mm_storeu (mm_add_epi32 c v2) ++ mm_storeu (mm_add_epi32 d v3)
  = flat_map (fun i => store32 (u32 (x !!! i + s !!! i))) (seq 0 16).
Proof. intros Hx Hs. explode x Hx. explode s Hs. reflexivity. Qed.

Lemma load32_range p i : bytes p -> (4 * i + 4 <= length p)%nat ->
  0 <= load32 p i < 2 ^ 32.
Proof.
  intros Hp Hi. unfold load32. rewrite u8to32_le_val by done.
  pose proof (le_val_range (take 4 (drop (4 * i) p))) as H.
  rewrite length_take, length_drop in H.
  replace (4 `min` (length p - 4 * i))%nat with 4%nat in H by lia.
  apply H. auto with word.
Qed.

Lemma sse2_state_next key v nonce : bytes nonce -> length nonce = 12%nat ->
  let '(v0, v1, v2, v3) := rows (chacha20_state key v nonce) in
  (v0, v1, v2, mm_add_epi32 v3 [1; 0; 0; 0]) = rows (chacha20_state key (u32 (v + 1)) nonce).
Proof.
  intros Hb Hl. cbv [rows]. f_equal. unfold mm_add_epi32. simpl.
  rewrite !Z.add_0_r, !(u32_small (load32 _ _)) by (apply load32_range; [done|lia]). done.
Qed.

Lemma chacha20_xor_sse2_stream key c nonce buf : 0 <= c < 2 ^ 32 ->
  bytes nonce -> length nonce = 12%nat ->
  chacha20_xor_sse2 key c nonce buf = chacha20_stream key c nonce buf.
Proof.
  intros Hc Hb Hl. unfold chacha20_xor_sse2.
  apply (single_block_step key c nonce
    (fun d v => v = rows (chacha20_state key (u32 (c + Z.of_nat (d / 64))) nonce))
    (fun v j => let '(v0, v1, v2, v3) := v in
       let '(a, b, c, d) := for_loop 10 (fun _ => sse2_double_round) v in
       (mm_storeu (mm_add_epi32 a v0) ++ mm_storeu (mm_add_epi32 b v1)
         ++ mm_storeu (mm_add_epi32 c v2) ++ mm_storeu (mm_add_epi32 d v3)) !!! j)
    (fun v => let '(v0, v1, v2, v3) := v in (v0, v1, v2, mm_add_epi32 v3 [1; 0; 0; 0]))).
  - intros d [[[v0 v1] v2] v3] b. unfold chacha20_sse2_step.
    by destruct (for_loop 10 _ _) as [[[? ?] ?] ?].
  - intros d st Hd ->. rewrite <- next_counter by done. by apply sse2_state_next.
  - intros d st i -> Hi. set (s := chacha20_state _ _ _).
    pose proof (sse2_block (chacha20_rounds s) s) as Hblk.
    pose proof (sse2_rounds_rows s) as Hr.
    destruct (rows s) as [[[v0 v1] v2] v3] eqn:Es. rewrite Hr by done.
    destruct (rows (chacha20_rounds s)) as [[[a b] c'] d'].
    by rewrite Hblk by (by rewrite ?length_chacha20_rounds).
  - simpl. rewrite Z.add_0_r. by rewrite u32_small.
Qed.

(** *** [chacha20_xor_sse2x4] and [chacha20_xor_avx2]

    Lane [k] of the transposed computation is the scalar computation. *)

Section lanes.
Context (w k : nat) (Hk : (k < w)%nat).

Definition lane_k (v : lanes) : Z := v !!! k.

(** [y] is lane [k] of the registers [x], each of which has [w] lanes. *)
Definition in_lane (x : list lanes) (y : list Z) : Prop :=
  length x = 16%nat /\ Forall (fun v : lanes => length v = w) x /\ map lane_k x = y.

Lemma lane_lookup x y a : in_lane x y -> (a < 16)%nat ->
  length (x !!! a) = w /\ y !!! a = lane_k (x !!! a).
Proof.
  intros (Hl & Hw & <-) Ha. destruct (lookup_lt_is_Some_2 x a) as [v Hv]; [lia|].
  rewrite (list_lookup_total_correct _ _ _ Hv).
  split; [exact (Forall_lookup_1 _ _ _ _ Hw Hv)|].
  apply list_lookup_total_correct. by rewrite lookup_map, Hv.
Qed.

Lemma lane_insert x y a v z : in_lane x y -> length v = w -> lane_k v = z ->
  in_lane (<[a := v]> x) (<[a := z]> y).
Proof.
  intros (Hl & Hw & <-) Hv <-. split; [by rewrite length_insert|].
  split; [by apply Forall_insert|]. apply map_insert.
Qed.

Lemma lane_zip (f : Z -> Z -> Z) (u v : lanes) : length u = w -> length v = w ->
  length (zip_with f u v) = w /\ lane_k (zip_with f u v) = f (lane_k u) (lane_k v).
Proof.
  intros Hu Hv. split; [rewrite length_zip_with; lia|]. unfold lane_k.
  destruct (lookup_lt_is_Some_2 u k) as [a Ha]; [lia|].
  destruct (lookup_lt_is_Some_2 v k) as [b Hb]; [lia|].
  by rewrite !list_lookup_total_alt, lookup_zip_with, Ha, Hb.
Qed.

Lemma lane_map (f : Z -> Z) (u : lanes) : length u = w ->
  length (map f u) = w /\ lane_k (map f u) = f (lane_k u).
Proof.
  intros Hu. split; [by rewrite length_map|]. unfold lane_k.
  destruct (lookup_lt_is_Some_2 u k) as [a Ha]; [lia|].
  by rewrite !list_lookup_total_alt, lookup_map, Ha.
Qed.

Lemma lane_rotl (u : lanes) n : length u = w ->
  length (rotl_epi32 u n) = w /\ lane_k (rotl_epi32 u n) = ROTL32 (lane_k u) n.
Proof.
  intros Hu. unfold rotl_epi32, mm_or, mm_slli_epi32, mm_srli_epi32, ROTL32.
  destruct (lane_map (fun x => u32 (x .<< n)) u Hu) as [L1 E1].
  destruct (lane_map (fun x => x .>> (32 - n)) u Hu) as [L2 E2].
  destruct (lane_zip Z.lor _ _ L1 L2) as [L3 E3].
  split; [done|]. by rewrite E3, E1, E2.
Qed.

Lemma lane_step2 (opv : lanes -> lanes -> lanes) (op : Z -> Z -> Z) x y a b :
  (forall u v, length u = w -> length v = w ->
     length (opv u v) = w /\ lane_k (opv u v) = op (lane_k u) (lane_k v)) ->
  (a < 16)%nat -> (b < 16)%nat -> in_lane x y ->
  in_lane (<[a := opv (x !!! a) (x !!! b)]> x) (<[a := op (y !!! a) (y !!! b)]> y).
Proof.
  intros Hop Ha Hb H. destruct (lane_lookup x y a H Ha) as [La Ea].
  destruct (lane_lookup x y b H Hb) as [Lb Eb].
  destruct (Hop _ _ La Lb). apply lane_insert; [done|done|congruence].
Qed.

Lemma lane_QUARTERROUND x y a b c d :
  (a < 16)%nat -> (b < 16)%nat -> (c < 16)%nat -> (d < 16)%nat ->
  in_lane x y -> in_lane (QUARTERROUND a b c d x) (QUARTERROUND a b c d y).
Proof.
  intros Ha Hb Hc Hd H.
  assert (Hadd : forall x y i j, (i < 16)%nat -> (j < 16)%nat -> in_lane x y ->
    in_lane (add_assign i j x) (add_assign i j y))
    by (intros; apply lane_step2; [intros; by apply lane_zip|done..]).
  assert (Hxor : forall x y i j, (i < 16)%nat -> (j < 16)%nat -> in_lane x y ->
    in_lane (xor_assign i j x) (xor_assign i j y))
    by (intros; apply lane_step2; [intros; by apply lane_zip|done..]).
  assert (Hrot : forall x y i n, (i < 16)%nat -> in_lane x y ->
    in_lane (rotl_assign i n x) (rotl_assign i n y)).
  { intros x' y' i n Hi H'.
    apply (lane_step2 (fun u _ => wrotl u n) (fun u _ => wrotl u n) x' y' i i); auto.
    intros; by apply lane_rotl. }
  unfold QUARTERROUND. auto 20.
Qed.

Lemma lane_double_round x y : in_lane x y ->
  in_lane (double_round QUARTERROUND x) (double_round QUARTERROUND y).
Proof. intros H. unfold double_round. repeat apply lane_QUARTERROUND; try lia. done. Qed.

Lemma lane_rounds x y : in_lane x y ->
  in_lane (for_loop 10 (fun _ x => double_round QUARTERROUND x) x) (chacha20_rounds y).
Proof.
  intros H. unfold chacha20_rounds. generalize 10%nat as n. intros n.
  induction n as [|n IH]; [done|]. rewrite !for_loop_S. by apply lane_double_round.
Qed.

Lemma lane_init s : length s = 16%nat ->
  in_lane (xN_init w s) (<[12%nat := u32 (s !!! 12%nat + Z.of_nat k)]> s).
Proof.
  intros Hs. unfold xN_init. apply lane_insert.
  - split; [by rewrite length_map|]. split.
    + apply Forall_map, Forall_forall. intros v _. apply length_replicate.
    + rewrite map_map. rewrite <- (map_id s) at 2. apply map_ext. intros v.
      unfold lane_k, mm_set1. by apply lookup_total_replicate_2.
  - by rewrite length_map, length_seq.
  - unfold lane_k. rewrite list_lookup_total_alt, lookup_map.
    by rewrite lookup_seq_lt by lia.
Qed.

(** Word [i] of block [k] of the array [words]. *)
Lemma lane_words s i : length s = 16%nat -> (i < 16)%nat ->
  let s' := <[12%nat := u32 (s !!! 12%nat + Z.of_nat k)]> s in
  (xN_words w QUARTERROUND s !!! i) !!! k = u32 (chacha20_rounds s' !!! i + s' !!! i).
Proof.
  intros Hs Hi s'. pose proof (lane_init s Hs) as H0.
  pose proof (lane_rounds _ _ H0) as H1. unfold xN_words.
  destruct (lane_lookup _ _ i H0 Hi) as [L0 E0].
  destruct (lane_lookup _ _ i H1 Hi) as [L1 E1].
  destruct (lane_zip (fun x y => u32 (x + y)) _ _ L1 L0) as [_ E].
  destruct H0 as [Hl0 _], H1 as [Hl1 _]. fold s' in E0, E1. rewrite E0, E1, <- E.
  unfold lane_k. f_equal. set (x := for_loop _ _ _) in *.
  destruct (lookup_lt_is_Some_2 x i) as [a Ha]; [lia|].
  destruct (lookup_lt_is_Some_2 (xN_init w s) i) as [b Hb]; [lia|].
  by rewrite !list_lookup_total_alt, lookup_zip_with, Ha, Hb.
Qed.
End lanes.

Lemma lane_block_lookup w key c nonce blk j : (blk < w)%nat -> (j < 64)%nat ->
  flat_map (fun i => store32
    ((xN_words w QUARTERROUND (chacha20_state key c nonce) !!! i) !!! blk)) (seq 0 16) !!! j
  = chacha20_block key (u32 (c + Z.of_nat blk)) nonce !!! j.
Proof.
  intros Hb Hj. rewrite flat_map_store32_lookup, chacha20_block_lookup by done.
  rewrite (lane_words w blk) by (done || lia).
  by rewrite chacha20_state_12, chacha20_state_counter.
Qed.

Lemma next_counter_block c d blk : (d mod 64 = 0)%nat ->
  u32 (u32 (c + Z.of_nat (d / 64)) + Z.of_nat blk)
  = u32 (c + Z.of_nat ((d + 64 * blk) / 64)).
Proof. intros. unfold u32. rewrite Z.add_mod_idemp_l by lia. f_equal. lia. Qed.

(** The inner loop over the blocks of one group: [min (64 w) rest] bytes. *)
Lemma xN_blocks_run w key c nonce d buf : (d mod 64 = 0)%nat -> (d < length buf)%nat ->
  let words := xN_words w QUARTERROUND
    (chacha20_state key (u32 (c + Z.of_nat (d / 64))) nonce) in
  forall b, (b <= w)%nat ->
  let n := ((length buf - d) `min` (64 * b))%nat in
  for_loop b (xN_block words) (d, (length buf - d)%nat, buf)
  = ((d + n)%nat, (length buf - d - n)%nat,
     xor_into buf d n (fun i => keystream_byte key c nonce (d + i))).
Proof.
  intros Hd Hlt words b. induction b as [|b IH]; intros Hb n.
  - replace n with 0%nat by lia. by rewrite Nat.add_0_r, Nat.sub_0_r.
  - rewrite for_loop_S, IH by lia. set (m := ((length buf - d) `min` (64 * b))%nat).
    unfold xN_block. case_if.
    + set (q := if (_ <? 64)%nat then (_ : nat) else 64%nat).
      assert (Hq : q = ((length buf - d - m) `min` 64)%nat) by (subst q; case_if; lia).
      assert (m = 64 * b)%nat by lia. assert (n = m + q)%nat by lia.
      f_equal; [f_equal; lia|]. replace n with (m + q)%nat.
      rewrite <- (xor_into_split buf d m q). apply xor_into_ext. intros i Hi.
      unfold words. rewrite lane_block_lookup by lia.
      rewrite next_counter_block by done.
      replace (d + (m + i))%nat with ((d + 64 * b) + i)%nat by lia.
      rewrite keystream_byte_block by lia. done.
    + by replace n with m by lia.
Qed.

Lemma chacha20_xN_stream w key c nonce buf : 0 <= c < 2 ^ 32 -> (0 < w)%nat ->
  (while_loop (length buf) not_done (chacha20_xN_step w QUARTERROUND)
     (0%nat, chacha20_state key c nonce, buf)).2 = chacha20_stream key c nonce buf.
Proof.
  intros Hc Hw. apply (stream_loop _ (fun d s => (d mod 64 = 0)%nat /\
    s = chacha20_state key (u32 (c + Z.of_nat (d / 64))) nonce)).
  - intros d st b [Hd ->] Hlt.
    exists ((length b - d) `min` (64 * w))%nat,
      (chacha20_state key (u32 (u32 (c + Z.of_nat (d / 64)) + Z.of_nat w)) nonce).
    split; [lia|]. split; [lia|]. split.
    + unfold chacha20_xN_step. by rewrite xN_blocks_run.
    + intros Hmore. replace ((length b - d) `min` (64 * w))%nat with (64 * w)%nat by lia.
      split; [lia|]. by rewrite next_counter_block.
  - split; [done|]. simpl. rewrite Z.add_0_r. by rewrite u32_small.
Qed.

(** ** Theorems *)

(** The five implementations are one function: for every key, every 96-bit
    nonce, every 32-bit block counter (wrapping included) and every buffer of
    every length, the scalar, the hoisted, the SSE2, the four-block SSE2 and
    the eight-block AVX2 routine leave the same bytes in the buffer.  The
    probe's own checks sample this at lengths 1..200, 1..400 and 1..700. *)
Theorem chacha20_implementations_agree key c nonce buf :
  0 <= c < 2 ^ 32 -> bytes nonce -> length nonce = 12%nat ->
  chacha20_xor_hoisted key c nonce buf = chacha20_xor key c nonce buf /\
  chacha20_xor_sse2 key c nonce buf = chacha20_xor key c nonce buf /\
  chacha20_xor_sse2x4 key c nonce buf = chacha20_xor key c nonce buf /\
  chacha20_xor_avx2 key c nonce buf = chacha20_xor key c nonce buf.
Proof.
  intros Hc Hb Hl. rewrite chacha20_xor_stream, chacha20_xor_hoisted_stream,
    chacha20_xor_sse2_stream by done.
  repeat split; apply chacha20_xN_stream; (done || lia).
Qed.

Lemma chacha20_implementations_agree_witness :
  let key := replicate 32 7 in let nonce := replicate 12 3 in
  let buf := replicate 70 0xAA in
  chacha20_xor_avx2 key UINT32_MAX nonce buf = chacha20_xor key UINT32_MAX nonce buf.
Proof.
  intros key nonce buf. eapply chacha20_implementations_agree.
  - unfold UINT32_MAX. lia.
  - apply Forall_replicate. unfold is_byte. lia.
  - reflexivity.
Defined.

Lemma length_chacha20_stream key c nonce buf :
  length (chacha20_stream key c nonce buf) = length buf.
Proof. apply length_imap. Qed.

Lemma keystream_byte_range key c nonce j : is_byte (keystream_byte key c nonce j).
Proof.
  unfold keystream_byte. rewrite chacha20_block_lookup by lia. apply u8_range.
Qed.

Lemma bytes_chacha20_stream key c nonce buf : bytes buf ->
  bytes (chacha20_stream key c nonce buf).
Proof.
  intros Hb. apply Forall_lookup_2. intros j x. unfold chacha20_stream.
  rewrite list_lookup_imap. destruct (buf !! j) as [b|] eqn:E; simpl; [|done].
  intros [= <-]. apply lxor_nonneg_range; [lia| |].
  - by eapply (Forall_lookup_1 is_byte) in E.
  - apply keystream_byte_range.
Qed.

(** A stream continues after whole blocks with the counter advanced. *)
Lemma chacha20_stream_app key c nonce a b : (length a mod 64 = 0)%nat ->
  chacha20_stream key c nonce (a ++ b)
  = chacha20_stream key c nonce a
    ++ chacha20_stream key (u32 (c + Z.of_nat (length a / 64))) nonce b.
Proof.
  intros Ha. unfold chacha20_stream. rewrite imap_app. f_equal. apply imap_ext.
  intros i x _. unfold compose, keystream_byte.
  replace ((length a + i) mod 64)%nat with (i mod 64)%nat by lia.
  replace (u32 (u32 (c + Z.of_nat (length a / 64)) + Z.of_nat (i / 64)))
    with (u32 (c + Z.of_nat ((length a + i) / 64))); [done|].
  unfold u32. rewrite Z.add_mod_idemp_l by lia. f_equal. lia.
Qed.

(** The keystream does not depend on where the buffer is split: encrypting
    [a ++ b] in one call, or [a] and then [b] with the counter advanced by the
    blocks of [a], gives the same bytes, whenever [a] is a whole number of
    64-byte blocks.  This is the probe's chunking check for every length. *)
Theorem chacha20_xor_chunking key c nonce a b :
  0 <= c < 2 ^ 32 -> (length a mod 64 = 0)%nat ->
  chacha20_xor key c nonce (a ++ b)
  = chacha20_xor key c nonce a
    ++ chacha20_xor key (u32 (c + Z.of_nat (length a / 64))) nonce b.
Proof.
  intros Hc Ha. rewrite !chacha20_xor_stream by auto with word.
  by apply chacha20_stream_app.
Qed.

Lemma chacha20_xor_chunking_witness :
  let key := replicate 32 7 in let nonce := replicate 12 3 in
  chacha20_xor key 0 nonce (replicate 64 1 ++ replicate 9 2)
  = chacha20_xor key 0 nonce (replicate 64 1)
    ++ chacha20_xor key (u32 (0 + 1)) nonce (replicate 9 2).
Proof.
  intros key nonce. apply (chacha20_xor_chunking key 0 nonce); [lia|reflexivity].
Defined.

(** Decryption is encryption: applying the cipher twice with the same key,
    counter and nonce restores the buffer, and the length never changes. *)
Theorem chacha20_xor_involutive key c nonce buf : 0 <= c < 2 ^ 32 ->
  chacha20_xor key c nonce (chacha20_xor key c nonce buf) = buf /\
  length (chacha20_xor key c nonce buf) = length buf.
Proof.
  intros Hc. rewrite !chacha20_xor_stream by done.
  split; [|apply length_chacha20_stream]. apply list_eq. intros j.
  unfold chacha20_stream. rewrite !list_lookup_imap.
  destruct (buf !! j); simpl; [|done]. by rewrite lxor_cancel_r.
Qed.

Lemma chacha20_xor_involutive_witness :
  let key := replicate 32 7 in let nonce := replicate 12 3 in
  chacha20_xor key 1 nonce (chacha20_xor key 1 nonce [1; 2; 3]) = [1; 2; 3].
Proof. intros key nonce. eapply (chacha20_xor_involutive key 1 nonce). lia. Defined.
