(* ===== verification/Poly1305.v ===== *)
(** * Poly1305: the reference MAC and the streaming layer

    The reference [poly1305_mac] is the polynomial of RFC 8439 section 2.5
    over the integers modulo [P = 2 ^ 130 - 5].

    [benchmarks/crypto_probe.c] has two streaming implementations, in five
    26-bit limbs ([poly1305_*], file Poly26) and in three 64-bit limbs
    ([poly64_*], file Poly64).  Their contexts have the same fields and their
    [_update] functions and final blocks the same text, so both are modelled
    once here, over the type [L] of the limbs and the body [step] of the block
    loop.  The class [LimbField] is what the streaming layer asks of the limb
    arithmetic: one iteration of the block loop is one Horner step modulo [P].
    [update_ok] and [last_ok] are proved against that interface only. *)

From S2P Require Import Prelude.

(** ** The reference *)

Definition P : Z := 2 ^ 130 - 5.

Definition clamp (r : Z) : Z := r .& 0x0ffffffc0ffffffc0ffffffc0fffffff.

(** A block with the byte [1] appended. *)
Definition block_val (b : list Z) : Z := le_val b + 2 ^ (8 * Z.of_nat (length b)).

Fixpoint chunks (fuel n : nat) (l : list Z) : list (list Z) :=
  match fuel, l with
  | S fuel', _ :: _ => take n l :: chunks fuel' n (drop n l)
  | _, _ => []
  end.

Definition blocks16 (m : list Z) : list (list Z) := chunks (length m) 16 m.

(** Horner evaluation: [h = (h + block) * r mod P] for each block. *)
Definition absorb (r h : Z) (bs : list (list Z)) : Z :=
  fold_left (fun h b => ((h + block_val b) * r) mod P) bs h.

Definition poly1305_mac (key m : list Z) : list Z :=
  let r := clamp (le_val (take 16 key)) in
  let s := le_val (take 16 (drop 16 key)) in
  le_bytes 16 (absorb r 0 (blocks16 m) + s).

(** ** Lemmas on the reference *)

Lemma chunks_fuel n f f' l : (0 < n)%nat -> (length l <= f)%nat -> (length l <= f')%nat ->
  chunks f n l = chunks f' n l.
Proof.
  intros Hn. revert f' l. induction f as [|f IH]; intros f' l H1 H2.
  - destruct l; [|simpl in *; lia]. by destruct f'.
  - destruct l as [|x l]; [by destruct f'|]. destruct f' as [|f']; [simpl in *; lia|].
    cbn [chunks]. f_equal. apply IH; rewrite length_drop; simpl in *; lia.
Qed.

Lemma blocks16_nil : blocks16 [] = [].
Proof. done. Qed.

Lemma blocks16_cons m : m <> [] -> blocks16 m = take 16 m :: blocks16 (drop 16 m).
Proof.
  intros Hm. unfold blocks16. destruct m as [|x m]; [done|]. cbn [length chunks].
  f_equal. apply chunks_fuel; rewrite ?length_drop; cbn [length]; lia.
Qed.

(** Whole blocks followed by anything: the blocks split there. *)
Lemma blocks16_app a b : (length a mod 16 = 0)%nat ->
  blocks16 (a ++ b) = blocks16 a ++ blocks16 b.
Proof.
  revert a. refine (chunk_ind 16 _ _ _ _); [lia| |].
  - intros a Ha H. destruct a as [|x a]; [done|]. simpl length in *. lia.
  - intros a Ha IH H.
    rewrite (blocks16_cons a) by (intros ->; simpl in Ha; lia).
    rewrite (blocks16_cons (a ++ b)) by (destruct a; [simpl in Ha; lia|done]).
    rewrite take_app_le, drop_app_le by lia. rewrite IH by (rewrite length_drop; lia).
    done.
Qed.

Lemma absorb_app r h a b : absorb r h (a ++ b) = absorb r (absorb r h a) b.
Proof. apply fold_left_app. Qed.

Lemma absorb_mod r h bs : absorb r (h mod P) bs mod P = absorb r h bs mod P.
Proof.
  destruct bs as [|b bs]; simpl; [apply Z.mod_mod; unfold P; lia|].
  unfold absorb. f_equal. f_equal. rewrite <- Z.mul_mod_idemp_l by (unfold P; lia).
  rewrite Z.add_mod_idemp_l, Z.mul_mod_idemp_l by (unfold P; lia). done.
Qed.

Lemma absorb_reduced r bs : absorb r 0 bs mod P = absorb r 0 bs.
Proof.
  destruct bs as [|b bs _] using rev_ind; [done|]. rewrite absorb_app.
  simpl. apply Z.mod_mod. unfold P; lia.
Qed.

(** Congruence modulo [P], the relation the limb computations preserve. *)
Definition eqP (a b : Z) : Prop := a mod P = b mod P.
Infix "≡ₚ" := eqP (at level 70).

#[export] Instance eqP_equiv : Equivalence eqP.
Proof. split; unfold eqP; repeat intro; congruence. Qed.

#[export] Instance eqP_add : Proper (eqP ==> eqP ==> eqP) Z.add.
Proof.
  unfold eqP. intros a a' Ha b b' Hb.
  rewrite Z.add_mod, Ha, Hb by (unfold P; lia). by rewrite <- Z.add_mod by (unfold P; lia).
Qed.

#[export] Instance eqP_mul : Proper (eqP ==> eqP ==> eqP) Z.mul.
Proof.
  unfold eqP. intros a a' Ha b b' Hb.
  rewrite Z.mul_mod, Ha, Hb by (unfold P; lia). by rewrite <- Z.mul_mod by (unfold P; lia).
Qed.

Lemma eqP_mod a : a mod P ≡ₚ a.
Proof. apply Z.mod_mod. unfold P; lia. Qed.

Lemma eqP_multiple a b q : a = b + P * q -> a ≡ₚ b.
Proof. intros ->. unfold eqP. rewrite Z.mul_comm. apply Z.mod_add. unfold P; lia. Qed.

Lemma absorb_eqP r h h' bs : h ≡ₚ h' -> absorb r h bs ≡ₚ absorb r h' bs.
Proof.
  intros H. unfold eqP. by rewrite <- (absorb_mod r h), H, absorb_mod.
Qed.

Lemma absorb_snoc_eqP r h bs b :
  absorb r h (bs ++ [b]) ≡ₚ (absorb r h bs + block_val b) * r.
Proof. rewrite absorb_app. apply eqP_mod. Qed.

(** ** The streaming context *)

Record mac_ctx (L PAD : Type) := mk_ctx {
  ctx_r : L;
  ctx_h : L;
  ctx_pad : PAD;
  ctx_leftover : nat;
  ctx_buffer : list Z;
  ctx_final : bool;
}.
Arguments mk_ctx {L PAD}.
Arguments ctx_r {L PAD}.
Arguments ctx_h {L PAD}.
Arguments ctx_pad {L PAD}.
Arguments ctx_leftover {L PAD}.
Arguments ctx_buffer {L PAD}.
Arguments ctx_final {L PAD}.

Definition set_h {L PAD} (st : mac_ctx L PAD) (h : L) : mac_ctx L PAD :=
  mk_ctx (ctx_r st) h (ctx_pad st) (ctx_leftover st) (ctx_buffer st) (ctx_final st).

Definition set_buffer {L PAD} (st : mac_ctx L PAD) (leftover : nat) (buffer : list Z)
    : mac_ctx L PAD :=
  mk_ctx (ctx_r st) (ctx_h st) (ctx_pad st) leftover buffer (ctx_final st).

(** The block loop [while (bytes >= 16)]: [step final r h m] is its body, [m]
    what is left of the message. *)
Definition mac_blocks {L PAD} (step : bool -> L -> L -> list Z -> L)
    (st : mac_ctx L PAD) (m : list Z) : mac_ctx L PAD :=
  let '(h, _) := while_loop (length m)
    (fun '(_, m) => (16 <=? length m)%nat)
    (fun '(h, m) => (step (ctx_final st) (ctx_r st) h m, drop 16 m))
    (ctx_h st, m) in
  set_h st h.

(** [if (bytes >= 16)] and [if (bytes)], the end of [_update]; [bytes & ~15]
    is [bytes - bytes % 16]. *)
Definition mac_update_tail {L PAD} (blocks : mac_ctx L PAD -> list Z -> mac_ctx L PAD)
    (st : mac_ctx L PAD) (m : list Z) : mac_ctx L PAD :=
  let want := if (16 <=? length m)%nat then (length m - length m mod 16)%nat else 0%nat in
  let st := if (16 <=? length m)%nat then blocks st (take want m) else st in
  let m := drop want m in
  if (0 <? length m)%nat
  then set_buffer st (ctx_leftover st + length m)
         (memcpy (ctx_buffer st) (ctx_leftover st) m)
  else st.

Definition mac_update {L PAD} (blocks : mac_ctx L PAD -> list Z -> mac_ctx L PAD)
    (st : mac_ctx L PAD) (m : list Z) : mac_ctx L PAD :=
  if (0 <? ctx_leftover st)%nat then
    let want := (16 - ctx_leftover st)%nat in
    let want := if (length m <? want)%nat then length m else want in
    let st := set_buffer st (ctx_leftover st + want)
                (memcpy (ctx_buffer st) (ctx_leftover st) (take want m)) in
    let m := drop want m in
    if (ctx_leftover st <? 16)%nat then st
    else
      let st := blocks st (ctx_buffer st) in
      mac_update_tail blocks (set_buffer st 0 (ctx_buffer st)) m
  else mac_update_tail blocks st m.

(** The final block of [_finish]: [1], zeros, and [st->final = 1]. *)
Definition mac_last {L PAD} (blocks : mac_ctx L PAD -> list Z -> mac_ctx L PAD)
    (st : mac_ctx L PAD) : mac_ctx L PAD :=
  if (0 <? ctx_leftover st)%nat then
    let i := ctx_leftover st in
    let buffer := <[i := 1]> (ctx_buffer st) in
    let buffer := for_loop (16 - (i + 1))
      (fun k b => <[(i + 1 + k)%nat := 0]> b) buffer in
    blocks (mk_ctx (ctx_r st) (ctx_h st) (ctx_pad st) i buffer true) buffer
  else st.

(** The padded buffer is the last block with its [1] byte. *)
Lemma pad_loop buffer i : length buffer = 16%nat -> (i < 16)%nat ->
  for_loop (16 - (i + 1)) (fun k b => <[(i + 1 + k)%nat := 0]> b) (<[i := 1]> buffer)
  = take i buffer ++ 1 :: replicate (15 - i) 0.
Proof.
  intros Hlen Hi.
  assert (forall n, (n <= 15 - i)%nat ->
    for_loop n (fun k b => <[(i + 1 + k)%nat := 0]> b) (<[i := 1]> buffer)
    = take i buffer ++ 1 :: replicate n 0 ++ drop (i + 1 + n) buffer) as Hn.
  { induction n as [|n IH]; intros Hle.
    - rewrite for_loop_0, Nat.add_0_r, Nat.add_1_r. apply insert_take_drop. lia.
    - rewrite for_loop_S, IH by lia.
      rewrite insert_app_r_alt by (rewrite length_take; lia).
      rewrite length_take_le by lia. replace (i + 1 + n - i)%nat with (S n) by lia.
      change (<[S n := 0]> (1 :: ?l)) with (1 :: <[n := 0]> l). f_equal. f_equal.
      rewrite insert_app_r_alt by (rewrite length_replicate; lia).
      rewrite length_replicate, Nat.sub_diag.
      destruct (drop (i + 1 + n) buffer) as [|x l] eqn:Ed.
      { apply (f_equal length) in Ed. rewrite length_drop in Ed. simpl in Ed. lia. }
      change (<[0%nat := 0]> (x :: l)) with (0 :: l). rewrite replicate_S_end, <- app_assoc. f_equal. simpl. f_equal.
      replace (i + 1 + S n)%nat with (1 + (i + 1 + n))%nat by lia.
      rewrite Nat.add_comm, <- drop_drop, Ed. done. }
  rewrite Hn by lia. replace (16 - (i + 1))%nat with (15 - i)%nat by lia.
  rewrite (drop_ge buffer) by lia. by rewrite app_nil_r.
Qed.

Lemma padded_block rest : (length rest < 16)%nat -> bytes rest ->
  let b := rest ++ 1 :: replicate (15 - length rest) 0 in
  length b = 16%nat /\ bytes b /\ le_val b = block_val rest.
Proof.
  intros Hl Hb b. subst b. split_and!.
  - rewrite length_app. simpl. rewrite length_replicate. lia.
  - apply bytes_app. split; [done|]. constructor; [done|]. by apply Forall_replicate.
  - rewrite le_val_app. simpl le_val. rewrite le_val_zeros. unfold block_val.
    by rewrite Z.add_0_r, Z.mul_1_r.
Qed.

(** ** The interface the streaming layer asks of the limbs *)

Class LimbField (L : Type) (step : bool -> L -> L -> list Z -> L) := {
  lf_eval : L -> Z;
  lf_ok : L -> Prop;
  lf_ok_r : L -> Prop;
  lf_step_ok final r h m : lf_ok_r r -> lf_ok h -> bytes m -> (16 <= length m)%nat ->
    lf_ok (step final r h m) /\
    lf_eval (step final r h m)
      ≡ₚ (lf_eval h + (le_val (take 16 m) + if final then 0 else 2 ^ 128)) * lf_eval r;
}.

Ltac ctx_simpl :=
  cbn [set_h set_buffer ctx_r ctx_h ctx_pad ctx_leftover ctx_buffer ctx_final] in *.

Section streaming.
Context {L PAD : Type} {step : bool -> L -> L -> list Z -> L} {F : LimbField L step}.

Abbreviation blocks := (mac_blocks (PAD := PAD) step).

Lemma mac_loop_ok fuel r h m : lf_ok_r r -> lf_ok h -> bytes m ->
  (length m mod 16 = 0)%nat -> (length m <= fuel)%nat ->
  let '(h', _) := while_loop fuel (fun '(_, m) => (16 <=? length m)%nat)
    (fun '(h, m) => (step false r h m, drop 16 m)) (h, m) in
  lf_ok h' /\ lf_eval h' ≡ₚ absorb (lf_eval r) (lf_eval h) (blocks16 m).
Proof.
  intros Hr. revert h m. induction fuel as [|fuel IH]; intros h m Hh Hb H16 Hf; cbn [while_loop].
  { destruct m; [done|simpl in *; lia]. }
  case_if.
  - destruct (lf_step_ok false r h m Hr Hh Hb) as [Hok Hev]; [done|].
    specialize (IH (step false r h m) (drop 16 m)). rewrite length_drop in IH.
    destruct (while_loop _ _ _ _) as [h' m']. destruct IH as [Hok' Hev'];
      [done|auto with word|lia|lia|]. split; [done|].
    rewrite Hev'. rewrite (blocks16_cons m) by (intros ->; simpl in *; lia).
    rewrite (absorb_eqP _ _ _ _ Hev). simpl absorb at 2.
    symmetry. unfold block_val. rewrite length_take_le by done. apply absorb_eqP, eqP_mod.
  - destruct m; [done|]. simpl length in *. lia.
Qed.

(** What a context says of the bytes absorbed so far. *)
Record Rep (r : L) (pad : PAD) (st : mac_ctx L PAD) (full rest : list Z) : Prop := {
  rep_r : ctx_r st = r;
  rep_pad : ctx_pad st = pad;
  rep_final : ctx_final st = false;
  rep_ok : lf_ok (ctx_h st);
  rep_eval : lf_eval (ctx_h st) ≡ₚ absorb (lf_eval r) 0 (blocks16 full);
  rep_full : (length full mod 16 = 0)%nat;
  rep_rest : rest = take (ctx_leftover st) (ctx_buffer st);
  rep_left : (ctx_leftover st < 16)%nat;
  rep_buffer : length (ctx_buffer st) = 16%nat;
  rep_bytes : bytes (ctx_buffer st);
}.

Lemma mac_blocks_ok st m : lf_ok_r (ctx_r st) -> lf_ok (ctx_h st) -> bytes m ->
  ctx_final st = false -> (length m mod 16 = 0)%nat ->
  exists h, blocks st m = set_h st h /\ lf_ok h /\
    lf_eval h ≡ₚ absorb (lf_eval (ctx_r st)) (lf_eval (ctx_h st)) (blocks16 m).
Proof.
  intros Hr Hh Hb Hfin H16. unfold mac_blocks. rewrite Hfin.
  pose proof (mac_loop_ok (length m) _ _ m Hr Hh Hb H16 (Nat.le_refl _)) as Hloop.
  destruct (while_loop _ _ _ _) as [h m']. by exists h.
Qed.

(** Absorbing whole blocks on an empty buffer. *)
Lemma rep_blocks r pad st full m : lf_ok_r r -> Rep r pad st full [] ->
  bytes m -> (length m mod 16 = 0)%nat ->
  exists st', blocks st m = st' /\ Rep r pad st' (full ++ m) [] /\
    ctx_leftover st' = ctx_leftover st.
Proof.
  intros Hr [E1 E2 E3 Hok Hev Hfull Hrest Hleft Hbuf Hbytes] Hm H16.
  destruct (mac_blocks_ok st m) as (h & -> & Hh & Eh); rewrite ?E1; try done.
  eexists. split; [done|]. split; [|done]. split; ctx_simpl; try done.
  - rewrite Eh, E1, blocks16_app, absorb_app by done. by apply absorb_eqP.
  - rewrite length_app. lia.
Qed.

(** Buffering fewer bytes than a block still has room for. *)
Lemma rep_buffered r pad st full rest m : Rep r pad st full rest -> bytes m ->
  (ctx_leftover st + length m < 16)%nat ->
  Rep r pad (set_buffer st (ctx_leftover st + length m)
               (memcpy (ctx_buffer st) (ctx_leftover st) m)) full (rest ++ m).
Proof.
  intros [E1 E2 E3 Hok Hev Hfull Hrest Hleft Hbuf Hbytes] Hm Hlen. split; ctx_simpl; try done.
  - rewrite take_memcpy by lia. by rewrite Hrest.
  - rewrite length_memcpy; lia.
  - by apply bytes_memcpy.
Qed.

Lemma rep_leftover r pad st full : Rep r pad st full [] -> ctx_leftover st = 0%nat.
Proof.
  intros H. pose proof (f_equal length (rep_rest _ _ _ _ _ H)) as E.
  rewrite length_take, (rep_buffer _ _ _ _ _ H) in E. simpl in E.
  pose proof (rep_left _ _ _ _ _ H). lia.
Qed.

Lemma rep_update_tail r pad st full m : lf_ok_r r -> Rep r pad st full [] -> bytes m ->
  let want := (length m - length m mod 16)%nat in
  Rep r pad (mac_update_tail blocks st m) (full ++ take want m) (drop want m).
Proof.
  intros Hr HR Hm want. unfold mac_update_tail. fold want.
  assert (Hw : (if (16 <=? length m)%nat then want else 0%nat) = want)
    by (subst want; case_if; lia).
  rewrite Hw.
  assert (exists st', (if (16 <=? length m)%nat then blocks st (take want m) else st) = st' /\
    Rep r pad st' (full ++ take want m) []) as (st' & -> & HR').
  { case_if.
    - destruct (rep_blocks r pad st full (take want m)) as (st' & E' & HR' & _); [done|done| | |].
      + auto with word.
      + rewrite length_take_le; subst want; lia.
      + by exists st'.
    - exists st. split; [done|]. replace want with 0%nat by (subst want; lia).
      by rewrite take_0, app_nil_r. }
  case_if.
  - apply (rep_buffered _ _ _ _ []); [done|auto with word|].
    rewrite (rep_leftover _ _ _ _ HR'), length_drop. subst want. lia.
  - destruct (drop want m) eqn:Ed; [done|simpl in *; lia].
Qed.

(** Filling the buffer completes a block. *)
Lemma rep_filled r pad st full rest m : lf_ok_r r -> Rep r pad st full rest -> bytes m ->
  (ctx_leftover st + length m = 16)%nat ->
  let buffer := memcpy (ctx_buffer st) (ctx_leftover st) m in
  let st' := blocks (set_buffer st (ctx_leftover st + length m) buffer) buffer in
  Rep r pad (set_buffer st' 0 (ctx_buffer st')) (full ++ rest ++ m) [].
Proof.
  intros Hr [E1 E2 E3 Hok Hev Hfull Hrest Hleft Hbuf Hbytes] Hm H16 buffer.
  assert (Hlen : length buffer = 16%nat) by (subst buffer; rewrite length_memcpy; lia).
  assert (Eb : buffer = rest ++ m).
  { rewrite <- (firstn_all buffer), Hlen, <- H16. subst buffer.
    rewrite take_memcpy by lia. by rewrite <- Hrest. }
  assert (Hbb : bytes buffer) by (by apply bytes_memcpy).
  destruct (mac_blocks_ok (set_buffer st (ctx_leftover st + length m) buffer) buffer)
    as (h & -> & Hh & Eh); ctx_simpl; [by rewrite E1|done|done|done|by rewrite Hlen|].
  split; ctx_simpl; try done; try lia.
  - rewrite Eh, E1, <- Eb, blocks16_app, absorb_app by done. by apply absorb_eqP.
  - rewrite <- Eb, length_app, Hlen. lia.
Qed.

(** [_update] absorbs the bytes it is given, whatever the earlier calls left. *)
Lemma update_ok r pad st full rest m : lf_ok_r r -> Rep r pad st full rest -> bytes m ->
  exists full' rest', full ++ rest ++ m = full' ++ rest' /\
    Rep r pad (mac_update blocks st m) full' rest'.
Proof.
  intros Hr HR Hm. unfold mac_update. pose proof (rep_left _ _ _ _ _ HR) as Hl.
  case_if; cycle 1.
  - replace rest with (@nil Z) in *; cycle 1.
    { rewrite (rep_rest _ _ _ _ _ HR). by replace (ctx_leftover st) with 0%nat by lia. }
    eexists _, _. split; [|by apply rep_update_tail].
    by rewrite <- app_assoc, take_drop.
  - set (want := if (length m <? 16 - ctx_leftover st)%nat then length m
                 else (16 - ctx_leftover st)%nat).
    assert (Hlt : length (take want m) = want) by (rewrite length_take; subst want; case_if; lia).
    ctx_simpl. case_if.
    + eexists _, _. split; [reflexivity|].
      assert (Ew : want = length m) by (subst want; revert E0; case_if; lia).
      rewrite Ew in *. rewrite firstn_all. apply rep_buffered; [done..|lia].
    + assert (H16 : (ctx_leftover st + length (take want m) = 16)%nat)
        by (rewrite Hlt; subst want; revert E0; case_if; lia).
      replace (ctx_leftover st + want)%nat
        with (ctx_leftover st + length (take want m))%nat by lia.
      eexists _, _. split; cycle 1.
      * apply (rep_update_tail r pad _ (full ++ rest ++ take want m)); [done| |auto with word].
        apply rep_filled; auto with word.
      * by rewrite <- !app_assoc, !take_drop.
Qed.

(** Any sequence of calls absorbs the concatenation of their bytes. *)
Lemma updates_ok r pad ms st full rest : lf_ok_r r ->
  Rep r pad st full rest -> Forall bytes ms ->
  exists full' rest', full ++ rest ++ concat ms = full' ++ rest' /\
    Rep r pad (fold_left (mac_update blocks) ms st) full' rest'.
Proof.
  intros Hr HR Hms. revert st full rest HR.
  induction Hms as [|m ms Hm Hms IH]; intros st full rest HR.
  - exists full, rest. by rewrite app_nil_r.
  - destruct (update_ok r pad st full rest m Hr HR Hm) as (full' & rest' & E & HR').
    destruct (IH _ _ _ HR') as (full'' & rest'' & E' & HR'').
    exists full'', rest''. split; [|done]. simpl.
    rewrite <- E', (app_assoc full' rest'), <- E. by rewrite <- !app_assoc.
Qed.

(** After the final block the accumulator holds the whole message. *)
Lemma last_ok r pad st full rest : lf_ok_r r -> Rep r pad st full rest ->
  let st' := mac_last blocks st in
  lf_ok (ctx_h st') /\ ctx_pad st' = pad /\
  lf_eval (ctx_h st') ≡ₚ absorb (lf_eval r) 0 (blocks16 (full ++ rest)).
Proof.
  intros Hr [E1 E2 E3 Hok Hev Hfull Hrest Hleft Hbuf Hbytes]. unfold mac_last.
  rewrite blocks16_app, absorb_app by done. case_if; cycle 1.
  { replace rest with (@nil Z) by (rewrite Hrest; by replace (ctx_leftover st) with 0%nat by lia).
    done. }
  rewrite pad_loop, <- Hrest by done.
  assert (Hri : length rest = ctx_leftover st) by (rewrite Hrest, length_take; lia).
  destruct (padded_block rest) as (Hlen & Hb & Eb); [lia|rewrite Hrest; auto with word|].
  rewrite <- Hri in *. set (buffer := rest ++ _) in *.
  assert (Ebl : blocks16 rest = [rest]).
  { rewrite blocks16_cons by (intros ->; simpl in *; lia).
    by rewrite take_ge, drop_ge by lia. }
  unfold mac_blocks. rewrite Hlen. cbn [while_loop ctx_h ctx_final ctx_r]. rewrite Hlen, E1.
  change (16 <=? 16)%nat with true. rewrite drop_ge by lia. cbn -[take].
  destruct (lf_step_ok true r (ctx_h st) buffer Hr Hok Hb) as [Hh Eh]; [lia|].
  split; [done|]. split; [done|]. rewrite Eh, Ebl. cbn -[take]. rewrite eqP_mod.
  rewrite take_ge, Z.add_0_r by lia. by rewrite Hev, Eb.
Qed.
End streaming.
