(* ===== verification/Poly26.v ===== *)
(** * Poly26: the streaming Poly1305 in five 26-bit limbs

    [benchmarks/crypto_probe.c]'s [poly1305_ctx], [poly1305_init],
    [poly1305_blocks], [poly1305_update] and [poly1305_finish], every
    [uint32_t] and [uint64_t] reduced at its width.  [ok5] is the range the
    loop keeps the limbs in; under it no product, sum or carry overflows, one
    block is one Horner step ([poly26_field], the instance of the streaming
    layer's interface), and the tag is the reference's. *)

From S2P Require Import Prelude Poly1305.

(** ** The implementation *)

Definition limbs5 : Type := Z * Z * Z * Z * Z.

Definition poly1305_ctx : Type := mac_ctx limbs5 (Z * Z * Z * Z).

(** [st->buffer] is not written by [poly1305_init]: its bytes are whatever
    [junk] the caller's memory held. *)
Definition poly1305_init (key junk : list Z) : poly1305_ctx := {|
  ctx_r := ((u8to32 key 0) .& 0x3ffffff,
            (u8to32 key 3 .>> 2) .& 0x3ffff03,
            (u8to32 key 6 .>> 4) .& 0x3ffc0ff,
            (u8to32 key 9 .>> 6) .& 0x3f03fff,
            (u8to32 key 12 .>> 8) .& 0x00fffff);
  ctx_h := (0, 0, 0, 0, 0);
  ctx_pad := (u8to32 key 16, u8to32 key 20, u8to32 key 24, u8to32 key 28);
  ctx_leftover := 0;
  ctx_buffer := junk;
  ctx_final := false;
|}.

(** The five [h += ...] of one block. *)
Definition poly1305_add_block (hibit : Z) (h : limbs5) (m : list Z) : limbs5 :=
  let '(h0, h1, h2, h3, h4) := h in
  (u32 (h0 + ((u8to32 m 0) .& 0x3ffffff)),
   u32 (h1 + ((u8to32 m 3 .>> 2) .& 0x3ffffff)),
   u32 (h2 + ((u8to32 m 6 .>> 4) .& 0x3ffffff)),
   u32 (h3 + ((u8to32 m 9 .>> 6) .& 0x3ffffff)),
   u32 (h4 + ((u8to32 m 12 .>> 8) .| hibit))).

(** The twenty-five products [d0 .. d4], with [s_i = r_i * 5]. *)
Definition poly1305_mul (h r : limbs5) : limbs5 :=
  let '(h0, h1, h2, h3, h4) := h in
  let '(r0, r1, r2, r3, r4) := r in
  let s1 := u32 (r1 * 5) in let s2 := u32 (r2 * 5) in
  let s3 := u32 (r3 * 5) in let s4 := u32 (r4 * 5) in
  (u64 (h0 * r0 + h1 * s4 + h2 * s3 + h3 * s2 + h4 * s1),
   u64 (h0 * r1 + h1 * r0 + h2 * s4 + h3 * s3 + h4 * s2),
   u64 (h0 * r2 + h1 * r1 + h2 * r0 + h3 * s4 + h4 * s3),
   u64 (h0 * r3 + h1 * r2 + h2 * r1 + h3 * r0 + h4 * s4),
   u64 (h0 * r4 + h1 * r3 + h2 * r2 + h3 * r1 + h4 * r0)).

(** The carry chain that brings [d0 .. d4] back to 26-bit limbs. *)
Definition poly1305_carry (d : limbs5) : limbs5 :=
  let '(d0, d1, d2, d3, d4) := d in
  let c := u32 (d0 .>> 26) in let h0 := u32 d0 .& 0x3ffffff in
  let d1 := u64 (d1 + c) in let c := u32 (d1 .>> 26) in let h1 := u32 d1 .& 0x3ffffff in
  let d2 := u64 (d2 + c) in let c := u32 (d2 .>> 26) in let h2 := u32 d2 .& 0x3ffffff in
  let d3 := u64 (d3 + c) in let c := u32 (d3 .>> 26) in let h3 := u32 d3 .& 0x3ffffff in
  let d4 := u64 (d4 + c) in let c := u32 (d4 .>> 26) in let h4 := u32 d4 .& 0x3ffffff in
  let h0 := u32 (h0 + u32 (c * 5)) in let c := h0 .>> 26 in let h0 := h0 .& 0x3ffffff in
  let h1 := u32 (h1 + c) in
  (h0, h1, h2, h3, h4).

(** One iteration of [while (bytes >= 16)]. *)
Definition poly1305_block (final : bool) (r h : limbs5) (m : list Z) : limbs5 :=
  let hibit := if final then 0 else 1 .<< 24 in
  poly1305_carry (poly1305_mul (poly1305_add_block hibit h m) r).

Definition poly1305_blocks : poly1305_ctx -> list Z -> poly1305_ctx :=
  mac_blocks poly1305_block.

Definition poly1305_update : poly1305_ctx -> list Z -> poly1305_ctx :=
  mac_update poly1305_blocks.

(** The full carry of [poly1305_finish]. *)
Definition poly1305_full_carry (h : limbs5) : limbs5 :=
  let '(h0, h1, h2, h3, h4) := h in
  let c := h1 .>> 26 in let h1 := h1 .& 0x3ffffff in
  let h2 := u32 (h2 + c) in let c := h2 .>> 26 in let h2 := h2 .& 0x3ffffff in
  let h3 := u32 (h3 + c) in let c := h3 .>> 26 in let h3 := h3 .& 0x3ffffff in
  let h4 := u32 (h4 + c) in let c := h4 .>> 26 in let h4 := h4 .& 0x3ffffff in
  let h0 := u32 (h0 + u32 (c * 5)) in let c := h0 .>> 26 in let h0 := h0 .& 0x3ffffff in
  let h1 := u32 (h1 + c) in
  (h0, h1, h2, h3, h4).

(** [g = h + 5 - 2^130], and the constant-time choice between [h] and [g]. *)
Definition poly1305_freeze (h : limbs5) : limbs5 :=
  let '(h0, h1, h2, h3, h4) := h in
  let g0 := u32 (h0 + 5) in let c := g0 .>> 26 in let g0 := g0 .& 0x3ffffff in
  let g1 := u32 (h1 + c) in let c := g1 .>> 26 in let g1 := g1 .& 0x3ffffff in
  let g2 := u32 (h2 + c) in let c := g2 .>> 26 in let g2 := g2 .& 0x3ffffff in
  let g3 := u32 (h3 + c) in let c := g3 .>> 26 in let g3 := g3 .& 0x3ffffff in
  let g4 := u32 (h4 + c - (1 .<< 26)) in
  let mask := u32 ((g4 .>> 31) - 1) in
  let nmask := u32 (Z.lnot mask) in
  ((h0 .& nmask) .| (g0 .& mask), (h1 .& nmask) .| (g1 .& mask),
   (h2 .& nmask) .| (g2 .& mask), (h3 .& nmask) .| (g3 .& mask),
   (h4 .& nmask) .| (g4 .& mask)).

(** Five limbs repacked as four 32-bit words. *)
Definition poly1305_pack (h : limbs5) : Z * Z * Z * Z :=
  let '(h0, h1, h2, h3, h4) := h in
  (h0 .| u32 (h1 .<< 26), (h1 .>> 6) .| u32 (h2 .<< 20),
   (h2 .>> 12) .| u32 (h3 .<< 14), (h3 .>> 18) .| u32 (h4 .<< 8)).

(** The 128-bit addition of the pad, and the sixteen byte stores. *)
Definition poly1305_tag (h pad : Z * Z * Z * Z) : list Z :=
  let '(h0, h1, h2, h3) := h in
  let '(p0, p1, p2, p3) := pad in
  let f := u64 (h0 + p0) in let h0 := u32 f in
  let f := u64 (h1 + p1 + (f .>> 32)) in let h1 := u32 f in
  let f := u64 (h2 + p2 + (f .>> 32)) in let h2 := u32 f in
  let f := u64 (h3 + p3 + (f .>> 32)) in let h3 := u32 f in
  flat_map (fun h => [u8 h; u8 (h .>> 8); u8 (h .>> 16); u8 (h .>> 24)]) [h0; h1; h2; h3].

Definition poly1305_finish (st : poly1305_ctx) : list Z :=
  let st := mac_last poly1305_blocks st in
  let h := poly1305_freeze (poly1305_full_carry (ctx_h st)) in
  poly1305_tag (poly1305_pack h) (ctx_pad st).

(** ** The value of five limbs, and the range the loop keeps them in *)

Definition eval5 (h : limbs5) : Z :=
  let '(h0, h1, h2, h3, h4) := h in
  h0 + h1 * 2 ^ 26 + h2 * 2 ^ 52 + h3 * 2 ^ 78 + h4 * 2 ^ 104.

Definition ok5 (h : limbs5) : Prop :=
  let '(h0, h1, h2, h3, h4) := h in
  0 <= h0 < 2 ^ 26 /\ 0 <= h1 < 2 ^ 26 + 64 /\ 0 <= h2 < 2 ^ 26 /\
  0 <= h3 < 2 ^ 26 /\ 0 <= h4 < 2 ^ 26.

Definition ok_r5 (r : limbs5) : Prop :=
  let '(r0, r1, r2, r3, r4) := r in
  0 <= r0 < 2 ^ 26 /\ 0 <= r1 < 2 ^ 26 /\ 0 <= r2 < 2 ^ 26 /\
  0 <= r3 < 2 ^ 26 /\ 0 <= r4 < 2 ^ 20.

(** The limbs a product may take: [h] with a block added. *)
Definition ok5_sum (h : limbs5) : Prop :=
  let '(h0, h1, h2, h3, h4) := h in
  0 <= h0 < 2 ^ 27 + 64 /\ 0 <= h1 < 2 ^ 27 + 64 /\ 0 <= h2 < 2 ^ 27 + 64 /\
  0 <= h3 < 2 ^ 27 + 64 /\ 0 <= h4 < 2 ^ 27 + 64.

Lemma land26 x : x .& 0x3ffffff = x mod 2 ^ 26.
Proof. apply (land_mask x 26). lia. Qed.

(** Turns masks and shifts into remainders and quotients by constants. *)
Ltac limbs_to_arith :=
  rewrite ?land26 in *;
  rewrite ?Z.shiftr_div_pow2, ?Z.shiftl_mul_pow2 in * by lia.

Lemma mul_bound a b A B : 0 <= a <= A -> 0 <= b <= B -> 0 <= a * b <= A * B.
Proof. intros. split; [apply Z.mul_nonneg_nonneg|apply Z.mul_le_mono_nonneg]; lia. Qed.

(** A sum of five products, each limb below [2^27 + 64]. *)
Lemma dot5_bound a0 a1 a2 a3 a4 b0 b1 b2 b3 b4 B :
  ok5_sum (a0, a1, a2, a3, a4) ->
  0 <= b0 -> 0 <= b1 -> 0 <= b2 -> 0 <= b3 -> 0 <= b4 -> b0 + b1 + b2 + b3 + b4 <= B ->
  0 <= a0 * b0 + a1 * b1 + a2 * b2 + a3 * b3 + a4 * b4 <= (2 ^ 27 + 64) * B.
Proof.
  intros (H0 & H1 & H2 & H3 & H4) ? ? ? ? ? Hsum.
  pose proof (mul_bound a0 b0 (2 ^ 27 + 64) b0). pose proof (mul_bound a1 b1 (2 ^ 27 + 64) b1).
  pose proof (mul_bound a2 b2 (2 ^ 27 + 64) b2). pose proof (mul_bound a3 b3 (2 ^ 27 + 64) b3).
  pose proof (mul_bound a4 b4 (2 ^ 27 + 64) b4).
  assert ((2 ^ 27 + 64) * (b0 + b1 + b2 + b3 + b4) <= (2 ^ 27 + 64) * B)
    by (apply Z.mul_le_mono_nonneg_l; lia). lia.
Qed.

(** What the products promise the carry chain. *)
Definition ok_d5 (d : limbs5) : Prop :=
  let '(d0, d1, d2, d3, d4) := d in
  0 <= d0 < 2 ^ 57 + 2 ^ 50 /\ 0 <= d1 < 2 ^ 57 + 2 ^ 50 /\ 0 <= d2 < 2 ^ 57 + 2 ^ 50 /\
  0 <= d3 < 2 ^ 57 + 2 ^ 50 /\ 0 <= d4 < 2 ^ 55 + 2 ^ 50.

Lemma poly1305_mul_ok h r : ok5_sum h -> ok_r5 r ->
  ok_d5 (poly1305_mul h r) /\ eval5 (poly1305_mul h r) ≡ₚ eval5 h * eval5 r.
Proof.
  destruct h as [[[[h0 h1] h2] h3] h4], r as [[[[r0 r1] r2] r3] r4].
  intros Hh (R0 & R1 & R2 & R3 & R4). unfold poly1305_mul.
  rewrite !u32_small by lia.
  pose proof (dot5_bound _ _ _ _ _ r0 (r4 * 5) (r3 * 5) (r2 * 5) (r1 * 5)
    (2 ^ 26 + 15 * 2 ^ 26 + 5 * 2 ^ 20) Hh) as D0.
  pose proof (dot5_bound _ _ _ _ _ r1 r0 (r4 * 5) (r3 * 5) (r2 * 5)
    (2 * 2 ^ 26 + 10 * 2 ^ 26 + 5 * 2 ^ 20) Hh) as D1.
  pose proof (dot5_bound _ _ _ _ _ r2 r1 r0 (r4 * 5) (r3 * 5)
    (3 * 2 ^ 26 + 5 * 2 ^ 26 + 5 * 2 ^ 20) Hh) as D2.
  pose proof (dot5_bound _ _ _ _ _ r3 r2 r1 r0 (r4 * 5)
    (4 * 2 ^ 26 + 5 * 2 ^ 20) Hh) as D3.
  pose proof (dot5_bound _ _ _ _ _ r4 r3 r2 r1 r0 (4 * 2 ^ 26 + 2 ^ 20) Hh) as D4.
  rewrite !u64_small by lia. split; [unfold ok_d5; lia|].
  symmetry. unfold eval5. apply (eqP_multiple _ _
    (h1 * r4 + h2 * r3 + h3 * r2 + h4 * r1
     + 2 ^ 26 * (h2 * r4 + h3 * r3 + h4 * r2)
     + 2 ^ 52 * (h3 * r4 + h4 * r3) + 2 ^ 78 * (h4 * r4))).
  unfold P. ring.
Qed.

(** One link of the chain: the carry out and the limb kept. *)
Lemma carry_link d : 0 <= d < 2 ^ 58 ->
  u32 (d .>> 26) = d / 2 ^ 26 /\ u32 d .& 0x3ffffff = d mod 2 ^ 26.
Proof.
  intros. limbs_to_arith. unfold u32. split; [|lia].
  apply Z.mod_small. lia.
Qed.

Lemma poly1305_carry_ok d : ok_d5 d ->
  ok5 (poly1305_carry d) /\ eval5 (poly1305_carry d) ≡ₚ eval5 d.
Proof.
  destruct d as [[[[d0 d1] d2] d3] d4]. intros (D0 & D1 & D2 & D3 & D4).
  unfold poly1305_carry.
  destruct (carry_link d0) as [-> ->]; [lia|].
  rewrite (u64_small (d1 + _)) by lia. destruct (carry_link (d1 + d0 / 2 ^ 26)) as [-> ->]; [lia|].
  set (e1 := d1 + d0 / 2 ^ 26) in *.
  rewrite (u64_small (d2 + _)) by lia. destruct (carry_link (d2 + e1 / 2 ^ 26)) as [-> ->]; [lia|].
  set (e2 := d2 + e1 / 2 ^ 26) in *.
  rewrite (u64_small (d3 + _)) by lia. destruct (carry_link (d3 + e2 / 2 ^ 26)) as [-> ->]; [lia|].
  set (e3 := d3 + e2 / 2 ^ 26) in *.
  rewrite (u64_small (d4 + _)) by lia. destruct (carry_link (d4 + e3 / 2 ^ 26)) as [-> ->]; [lia|].
  set (e4 := d4 + e3 / 2 ^ 26) in *.
  assert (E1 : 0 <= e1 < 2 ^ 58) by lia. assert (E2 : 0 <= e2 < 2 ^ 58) by lia.
  assert (E3 : 0 <= e3 < 2 ^ 58) by lia. assert (E4 : 0 <= e4 < 2 ^ 55 + 2 ^ 51) by lia.
  rewrite (u32_small (e4 / 2 ^ 26 * 5)) by lia.
  rewrite (u32_small (d0 mod 2 ^ 26 + _)) by lia.
  set (f0 := d0 mod 2 ^ 26 + e4 / 2 ^ 26 * 5) in *.
  assert (F0 : 0 <= f0 < 2 ^ 32) by lia.
  limbs_to_arith. rewrite (u32_small (e1 mod 2 ^ 26 + _)) by lia.
  split; [unfold ok5; lia|]. symmetry.
  apply (eqP_multiple _ _ (e4 / 2 ^ 26)). unfold eval5, P. lia.
Qed.

Lemma u8to32_digit m off : bytes m -> (off + 4 <= length m)%nat ->
  u8to32 m off = le_val m / 2 ^ (8 * Z.of_nat off) mod 2 ^ 32.
Proof. intros. rewrite u8to32_le_val, le_val_slice by done. done. Qed.

(** The bit above the block: [2^24] in limb 4 is [2^128]. *)
Definition hibit_of (final : bool) : Z := if final then 0 else 2 ^ 24.

Lemma lor_hibit a (final : bool) : 0 <= a < 2 ^ 24 ->
  a .| (if final then 0 else 1 .<< 24) = a + hibit_of final.
Proof.
  intros. destruct final; simpl hibit_of; [rewrite Z.lor_0_r; lia|].
  rewrite lor_add_shift by lia. lia.
Qed.

Lemma poly1305_add_block_ok (final : bool) h m : ok5 h -> bytes m -> (16 <= length m)%nat ->
  let h' := poly1305_add_block (if final then 0 else 1 .<< 24) h m in
  ok5_sum h' /\ eval5 h' = eval5 h + le_val (take 16 m) + hibit_of final * 2 ^ 104.
Proof.
  destruct h as [[[[h0 h1] h2] h3] h4]. intros (H0 & H1 & H2 & H3 & H4) Hb Hl.
  unfold poly1305_add_block. rewrite !u8to32_digit by (done || lia).
  rewrite le_val_take by (done || lia). limbs_to_arith. set (W := le_val m).
  change (8 * Z.of_nat 0) with 0. change (8 * Z.of_nat 3) with 24.
  change (8 * Z.of_nat 6) with 48. change (8 * Z.of_nat 9) with 72.
  change (8 * Z.of_nat 12) with 96. change (8 * Z.of_nat 16) with 128.
  replace (W / 2 ^ 24 mod 2 ^ 32 / 2 ^ 2 mod 2 ^ 26) with (W / 2 ^ 26 mod 2 ^ 26) by lia.
  replace (W / 2 ^ 48 mod 2 ^ 32 / 2 ^ 4 mod 2 ^ 26) with (W / 2 ^ 52 mod 2 ^ 26) by lia.
  replace (W / 2 ^ 72 mod 2 ^ 32 / 2 ^ 6 mod 2 ^ 26) with (W / 2 ^ 78 mod 2 ^ 26) by lia.
  replace (W / 2 ^ 96 mod 2 ^ 32 / 2 ^ 8) with (W / 2 ^ 104 mod 2 ^ 24) by lia.
  replace (W / 2 ^ 0 mod 2 ^ 32 mod 2 ^ 26) with (W mod 2 ^ 26) by lia.
  replace (1 * 2 ^ 24) with (1 .<< 24) by done.
  rewrite lor_hibit by lia. assert (0 <= hibit_of final <= 2 ^ 24) by (destruct final; simpl; lia).
  rewrite !u32_small by lia. split; [unfold ok5_sum; lia|]. unfold eval5.
  replace (W mod 2 ^ 128) with (W mod 2 ^ 26 + W / 2 ^ 26 mod 2 ^ 26 * 2 ^ 26
    + W / 2 ^ 52 mod 2 ^ 26 * 2 ^ 52 + W / 2 ^ 78 mod 2 ^ 26 * 2 ^ 78
    + W / 2 ^ 104 mod 2 ^ 24 * 2 ^ 104) by lia. lia.
Qed.

(** One iteration of the block loop: [h = (h + block) * r]. *)
Lemma poly1305_block_ok final r h m : ok_r5 r -> ok5 h -> bytes m -> (16 <= length m)%nat ->
  ok5 (poly1305_block final r h m) /\
  eval5 (poly1305_block final r h m)
    ≡ₚ (eval5 h + (le_val (take 16 m) + if final then 0 else 2 ^ 128)) * eval5 r.
Proof.
  intros Hr Hh Hb Hl. destruct (poly1305_add_block_ok final h m Hh Hb Hl) as [Hs Es].
  destruct (poly1305_mul_ok _ r Hs Hr) as [Hd Ed].
  destruct (poly1305_carry_ok _ Hd) as [Hc Ec].
  split; [done|]. unfold poly1305_block. rewrite Ec, Ed, Es, <- Z.add_assoc. by destruct final.
Qed.

#[export] Instance poly26_field : LimbField limbs5 poly1305_block := {|
  lf_eval := eval5; lf_ok := ok5; lf_ok_r := ok_r5; lf_step_ok := poly1305_block_ok;
|}.

(** ** The key *)

(** The limb masks of [poly1305_init] are the digits of the clamp. *)
Lemma clamp_digits x : clamp x =
  (x .& 0x3ffffff) + ((x / 2 ^ 26) .& 0x3ffff03) * 2 ^ 26
  + ((x / 2 ^ 52) .& 0x3ffc0ff) * 2 ^ 52 + ((x / 2 ^ 78) .& 0x3f03fff) * 2 ^ 78
  + ((x / 2 ^ 104) .& 0x00fffff) * 2 ^ 104.
Proof.
  unfold clamp.
  change 0x0ffffffc0ffffffc0ffffffc0fffffff with
    (0x3ffffff + (0x3ffff03 + (0x3ffc0ff + (0x3f03fff + 0xfffff * 2 ^ 26) * 2 ^ 26)
       * 2 ^ 26) * 2 ^ 26).
  rewrite !land_split by lia. rewrite !Z.div_div by lia. rewrite <- !Z.pow_add_r by lia.
  change (26 + 26) with 52. change (52 + 26) with 78. change (78 + 26) with 104. ring.
Qed.

Lemma poly1305_init_r key junk : bytes key -> length key = 32%nat ->
  ok_r5 (ctx_r (poly1305_init key junk)) /\
  eval5 (ctx_r (poly1305_init key junk)) = clamp (le_val (take 16 key)).
Proof.
  intros Hb Hl. unfold poly1305_init. ctx_simpl. rewrite !u8to32_digit by (done || lia).
  rewrite le_val_take, clamp_digits by (done || lia). set (W := le_val key).
  rewrite !Z.shiftr_div_pow2 by lia. split.
  - unfold ok_r5. refine (conj _ (conj _ (conj _ (conj _ _)))); apply land_range; lia.
  - unfold eval5. f_equal; [f_equal; [f_equal; [f_equal|]|]|];
      first [apply (land_congr 26)|f_equal; apply (land_congr 26)]; lia.
Qed.

(** The pad as one 128-bit number. *)
Definition eval_pad (pad : Z * Z * Z * Z) : Z :=
  let '(p0, p1, p2, p3) := pad in p0 + p1 * 2 ^ 32 + p2 * 2 ^ 64 + p3 * 2 ^ 96.

Definition ok_words (w : Z * Z * Z * Z) : Prop :=
  let '(w0, w1, w2, w3) := w in
  0 <= w0 < 2 ^ 32 /\ 0 <= w1 < 2 ^ 32 /\ 0 <= w2 < 2 ^ 32 /\ 0 <= w3 < 2 ^ 32.

Lemma poly1305_init_pad key junk : bytes key -> length key = 32%nat ->
  ok_words (ctx_pad (poly1305_init key junk)) /\
  eval_pad (ctx_pad (poly1305_init key junk)) = le_val (take 16 (drop 16 key)).
Proof.
  intros Hb Hl. unfold poly1305_init. ctx_simpl. rewrite !u8to32_digit by (done || lia).
  rewrite le_val_slice by (done || lia). set (W := le_val key).
  unfold ok_words, eval_pad. lia.
Qed.

(** ** The end of [poly1305_finish] *)

Definition canon5 (h : limbs5) : Prop :=
  let '(h0, h1, h2, h3, h4) := h in
  0 <= h0 < 2 ^ 26 /\ 0 <= h1 < 2 ^ 26 /\ 0 <= h2 < 2 ^ 26 /\
  0 <= h3 < 2 ^ 26 /\ 0 <= h4 < 2 ^ 26.

(** A carry out of the top limb means that [h1] overflowed into it, so the
    carry back into [h1] never makes that limb overflow again. *)
Lemma poly1305_full_carry_ok h : ok5 h ->
  canon5 (poly1305_full_carry h) /\ eval5 (poly1305_full_carry h) ≡ₚ eval5 h.
Proof.
  destruct h as [[[[h0 h1] h2] h3] h4]. intros (H0 & H1 & H2 & H3 & H4).
  unfold poly1305_full_carry. limbs_to_arith.
  rewrite (u32_small (h2 + _)) by lia. set (e2 := h2 + h1 / 2 ^ 26) in *.
  rewrite (u32_small (h3 + _)) by lia. set (e3 := h3 + e2 / 2 ^ 26) in *.
  rewrite (u32_small (h4 + _)) by lia. set (e4 := h4 + e3 / 2 ^ 26) in *.
  rewrite (u32_small (e4 / 2 ^ 26 * 5)) by lia.
  rewrite (u32_small (h0 + _)) by lia. set (e0 := h0 + e4 / 2 ^ 26 * 5) in *.
  rewrite (u32_small (_ + e0 / 2 ^ 26)) by lia.
  split; [unfold canon5; lia|]. symmetry.
  apply (eqP_multiple _ _ (e4 / 2 ^ 26)). unfold eval5, P. lia.
Qed.

(** The constant-time choice: a mask of ones keeps, a mask of zeros drops. *)
Lemma select_ones a b : 0 <= b < 2 ^ 32 ->
  (a .& u32 (Z.lnot (2 ^ 32 - 1))) .| (b .& (2 ^ 32 - 1)) = b.
Proof.
  intros. change (u32 (Z.lnot (2 ^ 32 - 1))) with 0. rewrite Z.land_0_r, Z.lor_0_l.
  rewrite land_mask by lia. apply Z.mod_small. lia.
Qed.

Lemma select_zeros a b : 0 <= a < 2 ^ 32 -> (a .& u32 (Z.lnot 0)) .| (b .& 0) = a.
Proof.
  intros. rewrite Z.land_0_r, Z.lor_0_r. change (u32 (Z.lnot 0)) with (2 ^ 32 - 1).
  rewrite land_mask by lia. apply Z.mod_small. lia.
Qed.

Lemma poly1305_freeze_ok h : canon5 h ->
  canon5 (poly1305_freeze h) /\ eval5 (poly1305_freeze h) = eval5 h mod P.
Proof.
  destruct h as [[[[h0 h1] h2] h3] h4]. intros (H0 & H1 & H2 & H3 & H4).
  unfold poly1305_freeze. limbs_to_arith.
  rewrite (u32_small (h0 + 5)) by lia. set (e0 := h0 + 5) in *.
  rewrite (u32_small (h1 + _)) by lia. set (e1 := h1 + e0 / 2 ^ 26) in *.
  rewrite (u32_small (h2 + _)) by lia. set (e2 := h2 + e1 / 2 ^ 26) in *.
  rewrite (u32_small (h3 + _)) by lia. set (e3 := h3 + e2 / 2 ^ 26) in *.
  set (e4 := h4 + e3 / 2 ^ 26) in *. assert (0 <= e4 <= 2 ^ 26) by lia.
  destruct (Z.lt_ge_cases e4 (2 ^ 26)) as [Hlt|Hge].
  - replace (u32 (u32 (e4 - 1 * 2 ^ 26) / 2 ^ 31 - 1)) with 0 by (unfold u32; lia).
    rewrite !select_zeros by lia. split; [unfold canon5; lia|].
    symmetry. apply Z.mod_small. unfold eval5, P. lia.
  - replace (u32 (e4 - 1 * 2 ^ 26)) with 0 by (unfold u32; lia).
    change (u32 (0 / 2 ^ 31 - 1)) with (2 ^ 32 - 1).
    rewrite !select_ones by lia. split; [unfold canon5; lia|].
    apply (Z.mod_unique _ P 1); unfold eval5, P; lia.
Qed.

Lemma poly1305_pack_ok h : canon5 h ->
  ok_words (poly1305_pack h) /\ eval_pad (poly1305_pack h) = eval5 h mod 2 ^ 128.
Proof.
  destruct h as [[[[h0 h1] h2] h3] h4]. intros (H0 & H1 & H2 & H3 & H4).
  unfold poly1305_pack. rewrite !Z.shiftr_div_pow2 by lia.
  unfold u32. rewrite (lor_shift_mod 32 _ _ 26 6), (lor_shift_mod 32 _ _ 20 12),
    (lor_shift_mod 32 _ _ 14 18), (lor_shift_mod 32 _ _ 8 24) by lia.
  split; [unfold ok_words; lia|]. unfold eval_pad, eval5. lia.
Qed.

Lemma store_word_le_bytes w :
  [u8 w; u8 (w .>> 8); u8 (w .>> 16); u8 (w .>> 24)] = le_bytes 4 w.
Proof. cbn [le_bytes]. rewrite !Z.shiftr_shiftr by lia. done. Qed.

Lemma le_bytes_16_words v : le_bytes 16 v =
  le_bytes 4 (v mod 2 ^ 32) ++ le_bytes 4 (v / 2 ^ 32 mod 2 ^ 32)
  ++ le_bytes 4 (v / 2 ^ 64 mod 2 ^ 32) ++ le_bytes 4 (v / 2 ^ 96 mod 2 ^ 32).
Proof.
  rewrite !(le_bytes_mod 4). rewrite (le_bytes_app 4 12), (le_bytes_app 4 8), (le_bytes_app 4 4).
  rewrite !Z.div_div by lia. rewrite <- !Z.pow_add_r by lia. reflexivity.
Qed.

Lemma poly1305_tag_ok h pad : ok_words h -> ok_words pad ->
  poly1305_tag h pad = le_bytes 16 (eval_pad h + eval_pad pad).
Proof.
  destruct h as [[[h0 h1] h2] h3], pad as [[[p0 p1] p2] p3].
  intros (H0 & H1 & H2 & H3) (P0 & P1 & P2 & P3). unfold poly1305_tag.
  rewrite !Z.shiftr_div_pow2 by lia.
  rewrite (u64_small (h0 + p0)) by lia. set (f0 := h0 + p0) in *.
  rewrite (u64_small (h1 + p1 + _)) by lia. set (f1 := h1 + p1 + f0 / 2 ^ 32) in *.
  rewrite (u64_small (h2 + p2 + _)) by lia. set (f2 := h2 + p2 + f1 / 2 ^ 32) in *.
  rewrite (u64_small (h3 + p3 + _)) by lia. set (f3 := h3 + p3 + f2 / 2 ^ 32) in *.
  rewrite le_bytes_16_words. cbn [flat_map]. rewrite !store_word_le_bytes, app_nil_r.
  set (v := eval_pad _ + eval_pad _).
  replace (v mod 2 ^ 32) with (u32 f0) by (subst v; unfold eval_pad, u32; lia).
  replace (v / 2 ^ 32 mod 2 ^ 32) with (u32 f1) by (subst v; unfold eval_pad, u32; lia).
  replace (v / 2 ^ 64 mod 2 ^ 32) with (u32 f2) by (subst v; unfold eval_pad, u32; lia).
  replace (v / 2 ^ 96 mod 2 ^ 32) with (u32 f3) by (subst v; unfold eval_pad, u32; lia).
  done.
Qed.

(** [poly1305_finish] on any limbs in range is the reduced value plus the pad. *)
Lemma poly1305_output_ok h pad : ok5 h -> ok_words pad ->
  poly1305_tag (poly1305_pack (poly1305_freeze (poly1305_full_carry h))) pad
  = le_bytes 16 (eval5 h mod P + eval_pad pad).
Proof.
  intros Hh Hp. destruct (poly1305_full_carry_ok h Hh) as [Hc Ec].
  destruct (poly1305_freeze_ok _ Hc) as [Hf Ef].
  destruct (poly1305_pack_ok _ Hf) as [Hw Ew].
  rewrite poly1305_tag_ok, Ew, Ef, Ec by done.
  rewrite <- (le_bytes_mod 16), <- (le_bytes_mod 16 (_ mod P + _)).
  f_equal. apply Z.add_mod_idemp_l. lia.
Qed.

(** ** The streaming MAC *)

Definition poly1305_stream (key junk : list Z) (ms : list (list Z)) : list Z :=
  poly1305_finish (fold_left poly1305_update ms (poly1305_init key junk)).

Lemma poly1305_rep_init key junk : bytes junk -> length junk = 16%nat ->
  let st := poly1305_init key junk in
  Rep (ctx_r st) (ctx_pad st) st [] [].
Proof. intros Hb Hl. split; ctx_simpl; try done; cbn; lia. Qed.

(** [poly1305_finish] on a context that has absorbed [full ++ rest]. *)
Lemma poly1305_finish_ok key junk st full rest : bytes key -> length key = 32%nat ->
  let st0 := poly1305_init key junk in
  Rep (ctx_r st0) (ctx_pad st0) st full rest ->
  poly1305_finish st = poly1305_mac key (full ++ rest).
Proof.
  intros Hk Hkl st0 HR. unfold poly1305_finish, poly1305_mac.
  destruct (poly1305_init_r key junk Hk Hkl) as [Hr Er].
  destruct (poly1305_init_pad key junk Hk Hkl) as [Hp Ep].
  destruct (last_ok (F := poly26_field) _ _ _ _ _ Hr HR) as (Hok & Epad & Ev).
  unfold poly1305_blocks, poly1305_ctx in *. cbv zeta. rewrite Epad.
  subst st0. rewrite poly1305_output_ok by done.
  cbn [lf_eval poly26_field] in Ev. rewrite Er in Ev. rewrite Ep, Ev.
  by rewrite absorb_reduced.
Qed.

Lemma poly1305_updates_rep key junk ms : bytes key -> length key = 32%nat ->
  bytes junk -> length junk = 16%nat -> Forall bytes ms ->
  let st0 := poly1305_init key junk in
  exists full rest, concat ms = full ++ rest /\
    Rep (ctx_r st0) (ctx_pad st0) (fold_left poly1305_update ms st0) full rest.
Proof.
  intros Hk Hkl Hj Hjl Hms st0.
  destruct (poly1305_init_r key junk Hk Hkl) as [Hr _].
  exact (updates_ok (F := poly26_field) _ _ ms _ [] [] Hr
    (poly1305_rep_init key junk Hj Hjl) Hms).
Qed.

Lemma poly1305_stream_mac key junk ms : bytes key -> length key = 32%nat ->
  bytes junk -> length junk = 16%nat -> Forall bytes ms ->
  poly1305_stream key junk ms = poly1305_mac key (concat ms).
Proof.
  intros Hk Hkl Hj Hjl Hms.
  destruct (poly1305_updates_rep key junk ms) as (full & rest & -> & HR); [done..|].
  by apply (poly1305_finish_ok key junk).
Qed.

(** Whatever calls a context has served, its limbs stay in the range in
    which no 32-bit sum and no 64-bit product of [poly1305_blocks] wraps, its
    buffer holds fewer than sixteen pending bytes, and those bytes are the end
    of what was absorbed. *)
Theorem poly1305_context_invariant key junk ms : bytes key -> length key = 32%nat ->
  bytes junk -> length junk = 16%nat -> Forall bytes ms ->
  let st := fold_left poly1305_update ms (poly1305_init key junk) in
  ok5 (ctx_h st) /\ ok_r5 (ctx_r st) /\ ctx_final st = false /\
  (ctx_leftover st < 16)%nat /\ ctx_leftover st = (length (concat ms) mod 16)%nat /\
  take (ctx_leftover st) (ctx_buffer st)
    = drop (length (concat ms) - ctx_leftover st) (concat ms).
Proof.
  intros Hk Hkl Hj Hjl Hms st.
  destruct (poly1305_updates_rep key junk ms) as (full & rest & E & HR); [done..|].
  destruct HR as [E1 E2 E3 Hok Hev Hfull Hrest Hleft Hbuf Hbytes]. fold st in E1, Hok, E3, Hrest, Hleft, Hbuf.
  assert (Hlen : length rest = ctx_leftover st) by (rewrite Hrest, length_take; lia).
  split_and!; [done| |done|done| |].
  - rewrite E1. by apply poly1305_init_r.
  - rewrite E, length_app, Hlen. lia.
  - rewrite <- Hrest, E, length_app, Hlen, Nat.add_sub. by rewrite drop_app_length.
Qed.

Lemma poly1305_context_invariant_witness :
  ctx_leftover (fold_left poly1305_update [map Z.of_nat (seq 0 5); map Z.of_nat (seq 5 40)]
    (poly1305_init (map Z.of_nat (seq 0 32)) (replicate 16 0xa5))) = 13%nat.
Proof.
  eapply eq_trans; [apply (poly1305_context_invariant (map Z.of_nat (seq 0 32)) (replicate 16 0xa5)
    [map Z.of_nat (seq 0 5); map Z.of_nat (seq 5 40)]); repeat constructor; vm_compute; discriminate|].
  reflexivity.
Defined.
