(* ===== verification/Poly64.v ===== *)
(** * Poly64: Poly1305 in limbs of 44, 44 and 42 bits, streaming and four chains

    [benchmarks/crypto_probe.c]'s [poly1305_64], [poly64_init],
    [poly64_blocks], [poly64_update], [poly64_finish], [fe_mul] and
    [poly1305_x4].  The source has two definitions of its 128-bit integer,
    [unsigned __int128] and, for MSVC, a pair of 64-bit halves; the class
    [U128] is that type with its seven operations, [U128Laws] what the limb
    arithmetic relies on, and both definitions are instances.  Everything
    after the instances is proved against the interface, so it holds of both
    builds. *)

From S2P Require Import Prelude Poly1305.

(** ** 128-bit integers *)

Class U128 (T : Type) := {
  u128_mul : Z -> Z -> T;
  u128_add : T -> T -> T;
  u128_addu : T -> Z -> T;
  u128_low44 : T -> Z;
  u128_low42 : T -> Z;
  u128_shr44 : T -> Z;
  u128_shr42 : T -> Z;
}.

(** [typedef unsigned __int128 u128_t]. *)
Definition u128_native : Type := Z.

#[export] Instance native_ops : U128 u128_native := {|
  u128_mul a b := u128 (a * b);
  u128_add a b := u128 (a + b);
  u128_addu a b := u128 (a + b);
  u128_low44 a := u64 a .& 0xfffffffffff;
  u128_low42 a := u64 a .& 0x3ffffffffff;
  u128_shr44 a := u64 (a .>> 44);
  u128_shr42 a := u64 (a .>> 42);
|}.

(** [typedef struct { uint64_t lo, hi; } u128_t], MSVC. *)
Record u128_msvc := mk_msvc { lo : Z; hi : Z }.

(** [_addcarry_u64(c, a, b, &out)]: the carry out and the sum. *)
Definition addcarry_u64 (c a b : Z) : Z * Z := ((a + b + c) .>> 64, u64 (a + b + c)).

Definition msvc_add (a b : u128_msvc) : u128_msvc :=
  let '(c, rlo) := addcarry_u64 0 (lo a) (lo b) in
  let '(_, rhi) := addcarry_u64 c (hi a) (hi b) in
  mk_msvc rlo rhi.

#[export] Instance msvc_ops : U128 u128_msvc := {|
  u128_mul a b := mk_msvc (u64 (a * b)) (u64 ((a * b) .>> 64));
  u128_add := msvc_add;
  u128_addu a b := msvc_add a (mk_msvc b 0);
  u128_low44 a := lo a .& 0xfffffffffff;
  u128_low42 a := lo a .& 0x3ffffffffff;
  u128_shr44 a := (lo a .>> 44) .| u64 (hi a .<< 20);
  u128_shr42 a := (lo a .>> 42) .| u64 (hi a .<< 22);
|}.

(** What the limb arithmetic relies on: [u128_rep x v] says that [x] holds the
    number [v]. *)
Class U128Laws (T : Type) `{U128 T} := {
  u128_rep : T -> Z -> Prop;
  rep_mul a b : 0 <= a < 2 ^ 64 -> 0 <= b < 2 ^ 64 -> u128_rep (u128_mul a b) (a * b);
  rep_add x y a b : u128_rep x a -> u128_rep y b -> a + b < 2 ^ 128 ->
    u128_rep (u128_add x y) (a + b);
  rep_addu x a b : u128_rep x a -> 0 <= b < 2 ^ 64 -> a + b < 2 ^ 128 ->
    u128_rep (u128_addu x b) (a + b);
  rep_low44 x a : u128_rep x a -> u128_low44 x = a mod 2 ^ 44;
  rep_low42 x a : u128_rep x a -> u128_low42 x = a mod 2 ^ 42;
  rep_shr44 x a : u128_rep x a -> a < 2 ^ 108 -> u128_shr44 x = a / 2 ^ 44;
  rep_shr42 x a : u128_rep x a -> a < 2 ^ 106 -> u128_shr42 x = a / 2 ^ 42;
}.

Lemma land44 x : x .& 0xfffffffffff = x mod 2 ^ 44.
Proof. apply (land_mask x 44). lia. Qed.
Lemma land42 x : x .& 0x3ffffffffff = x mod 2 ^ 42.
Proof. apply (land_mask x 42). lia. Qed.

(** Turns masks and shifts into remainders and quotients by constants. *)
Ltac limbs64 :=
  rewrite ?land44, ?land42 in *;
  rewrite ?Z.shiftr_div_pow2, ?Z.shiftl_mul_pow2 in * by lia.

#[export] Instance native_laws : U128Laws u128_native.
Proof.
  refine {| u128_rep x v := x = v /\ 0 <= v < 2 ^ 128 |}; cbn.
  - intros a b Ha Hb. assert (0 <= a * b < 2 ^ 64 * 2 ^ 64) by nia.
    split; [apply u128_small|]; lia.
  - intros x y a b [-> ?] [-> ?] ?. split; [apply u128_small|]; lia.
  - intros x a b [-> ?] ? ?. split; [apply u128_small|]; lia.
  - intros x a [-> ?]. limbs64. unfold u64. lia.
  - intros x a [-> ?]. limbs64. unfold u64. lia.
  - intros x a [-> ?] ?. limbs64. apply u64_small. lia.
  - intros x a [-> ?] ?. limbs64. apply u64_small. lia.
Defined.

Lemma msvc_add_ok x y : 0 <= lo x < 2 ^ 64 -> 0 <= hi x < 2 ^ 64 ->
  0 <= lo y < 2 ^ 64 -> 0 <= hi y < 2 ^ 64 ->
  lo x + hi x * 2 ^ 64 + (lo y + hi y * 2 ^ 64) < 2 ^ 128 ->
  0 <= lo (msvc_add x y) < 2 ^ 64 /\ 0 <= hi (msvc_add x y) < 2 ^ 64 /\
  lo (msvc_add x y) + hi (msvc_add x y) * 2 ^ 64
    = lo x + hi x * 2 ^ 64 + (lo y + hi y * 2 ^ 64).
Proof.
  intros. unfold msvc_add, addcarry_u64. cbn. limbs64. unfold u64. lia.
Qed.

#[export] Instance msvc_laws : U128Laws u128_msvc.
Proof.
  refine {| u128_rep x v :=
    0 <= lo x < 2 ^ 64 /\ 0 <= hi x < 2 ^ 64 /\ lo x + hi x * 2 ^ 64 = v |}; cbn.
  - intros a b Ha Hb. assert (0 <= a * b < 2 ^ 64 * 2 ^ 64) by nia.
    limbs64. unfold u64. set (p := a * b) in *. lia.
  - intros x y a b (? & ? & <-) (? & ? & <-) ?. by apply msvc_add_ok.
  - intros x a b (? & ? & <-) ? ?.
    destruct (msvc_add_ok x (mk_msvc b 0)) as (? & ? & E); cbn in *; lia.
  - intros x a (? & ? & <-). limbs64. lia.
  - intros x a (? & ? & <-). limbs64. lia.
  - intros x a (? & ? & <-) ?. unfold u64. rewrite Z.shiftr_div_pow2 by lia.
    rewrite (lor_shift_mod 64 _ _ 20 44) by lia. lia.
  - intros x a (? & ? & <-) ?. unfold u64. rewrite Z.shiftr_div_pow2 by lia.
    rewrite (lor_shift_mod 64 _ _ 22 42) by lia. lia.
Defined.

(** ** The implementation *)

Definition limbs3 : Type := Z * Z * Z.

Definition poly1305_64 : Type := mac_ctx limbs3 (Z * Z).

(** [load64le]: eight bytes in memory, on a little-endian host. *)
Definition load64le (p : list Z) (off : nat) : Z := le_val (take 8 (drop off p)).

(** The 128 bits of two words as limbs:
    [t0 & m44], [((t0 >> 44) | (t1 << 20)) & m44], [(t1 >> 24) & m42]. *)
Definition limbs_of (t0 t1 : Z) : limbs3 :=
  (t0 .& 0xfffffffffff,
   ((t0 .>> 44) .| u64 (t1 .<< 20)) .& 0xfffffffffff,
   (t1 .>> 24) .& 0x3ffffffffff).

(** [r], clamped: the key's first sixteen bytes. *)
Definition poly64_r (key : list Z) : limbs3 :=
  let t0 := load64le key 0 in let t1 := load64le key 8 in
  (t0 .& 0x0ffc0fffffff,
   ((t0 .>> 44) .| u64 (t1 .<< 20)) .& 0x0fffffc0ffff,
   (t1 .>> 24) .& 0x00ffffffc0f).

Definition poly64_init (key junk : list Z) : poly1305_64 := {|
  ctx_r := poly64_r key;
  ctx_h := (0, 0, 0);
  ctx_pad := (load64le key 16, load64le key 24);
  ctx_leftover := 0;
  ctx_buffer := junk;
  ctx_final := false;
|}.

(** [h += block], the bit above the block in [hibit]. *)
Definition poly64_add_block (hibit : Z) (h : limbs3) (m : list Z) : limbs3 :=
  let '(h0, h1, h2) := h in
  let '(t0, t1, t2) := limbs_of (load64le m 0) (load64le m 8) in
  (u64 (h0 + t0), u64 (h1 + t1), u64 (h2 + (t2 .| hibit))).

(** The reduction round of [poly64_finish] and [poly1305_x4]. *)
Definition poly64_carry_round (h : limbs3) : limbs3 :=
  let '(h0, h1, h2) := h in
  let c := h1 .>> 44 in let h1 := h1 .& 0xfffffffffff in
  let h2 := u64 (h2 + c) in let c := h2 .>> 42 in let h2 := h2 .& 0x3ffffffffff in
  let h0 := u64 (h0 + u64 (c * 5)) in let c := h0 .>> 44 in let h0 := h0 .& 0xfffffffffff in
  let h1 := u64 (h1 + c) in
  (h0, h1, h2).

(** [g = h + 5 - 2^130], and the constant-time choice between [h] and [g]. *)
Definition poly64_freeze (h : limbs3) : limbs3 :=
  let '(h0, h1, h2) := h in
  let g0 := u64 (h0 + 5) in let c := g0 .>> 44 in let g0 := g0 .& 0xfffffffffff in
  let g1 := u64 (h1 + c) in let c := g1 .>> 44 in let g1 := g1 .& 0xfffffffffff in
  let g2 := u64 (h2 + c - (1 .<< 42)) in
  let c := u64 ((g2 .>> 63) - 1) in
  let nc := u64 (Z.lnot c) in
  ((h0 .& nc) .| (g0 .& c), (h1 .& nc) .| (g1 .& c), (h2 .& nc) .| (g2 .& c)).

(** The addition of the pad in limbs, the repacking and the byte stores. *)
Definition poly64_tag (h : limbs3) (pad : Z * Z) : list Z :=
  let '(h0, h1, h2) := h in
  let '(t0, t1, t2) := limbs_of (fst pad) (snd pad) in
  let h0 := u64 (h0 + t0) in
  let c := h0 .>> 44 in let h0 := h0 .& 0xfffffffffff in
  let h1 := u64 (h1 + (t1 + c)) in
  let c := h1 .>> 44 in let h1 := h1 .& 0xfffffffffff in
  let h2 := u64 (h2 + (t2 + c)) in
  let h2 := h2 .& 0x3ffffffffff in
  let h0 := h0 .| u64 (h1 .<< 44) in
  let h1 := (h1 .>> 20) .| u64 (h2 .<< 24) in
  map (fun c => u8 (h0 .>> (8 * Z.of_nat c))) (seq 0 8)
  ++ map (fun c => u8 (h1 .>> (8 * Z.of_nat c))) (seq 0 8).

Section implementation.
Context (T : Type) `{U : U128 T}.

(** The carry chain of [fe_mul]. *)
Definition fe_carry (d0 d1 d2 : T) : limbs3 :=
  let c := u128_shr44 d0 in let out0 := u128_low44 d0 in
  let d1 := u128_addu d1 c in
  let c := u128_shr44 d1 in let out1 := u128_low44 d1 in
  let d2 := u128_addu d2 c in
  let c := u128_shr42 d2 in let out2 := u128_low42 d2 in
  let out0 := u64 (out0 + u64 (c * 5)) in
  let c := out0 .>> 44 in let out0 := out0 .& 0xfffffffffff in
  let out1 := u64 (out1 + c) in
  (out0, out1, out2).

(** The nine products and the carry chain; [poly64_blocks] repeats this text
    on its own variables. *)
Definition fe_mul (a b : limbs3) : limbs3 :=
  let '(a0, a1, a2) := a in
  let '(b0, b1, b2) := b in
  let s1 := u64 (b1 * 20) in let s2 := u64 (b2 * 20) in
  let d0 := u128_add (u128_add (u128_mul a0 b0) (u128_mul a1 s2)) (u128_mul a2 s1) in
  let d1 := u128_add (u128_add (u128_mul a0 b1) (u128_mul a1 b0)) (u128_mul a2 s2) in
  let d2 := u128_add (u128_add (u128_mul a0 b2) (u128_mul a1 b1)) (u128_mul a2 b0) in
  fe_carry d0 d1 d2.

(** One iteration of [while (bytes >= 16)]. *)
Definition poly64_block (final : bool) (r h : limbs3) (m : list Z) : limbs3 :=
  let hibit := if final then 0 else 1 .<< 40 in
  fe_mul (poly64_add_block hibit h m) r.

Definition poly64_blocks : mac_ctx limbs3 (Z * Z) -> list Z -> mac_ctx limbs3 (Z * Z) :=
  mac_blocks poly64_block.

Definition poly64_update : mac_ctx limbs3 (Z * Z) -> list Z -> mac_ctx limbs3 (Z * Z) :=
  mac_update poly64_blocks.

Definition poly64_finish (st : mac_ctx limbs3 (Z * Z)) : list Z :=
  let st := mac_last poly64_blocks st in
  let h := poly64_carry_round (poly64_carry_round (ctx_h st)) in
  poly64_tag (poly64_freeze h) (ctx_pad st).

(** One lane of a group: [acc = acc.r^4 + m]. *)
Definition x4_lane (r4 : limbs3) (m : list Z) (lane : nat) (acc : list limbs3)
    : list limbs3 :=
  <[lane := poly64_add_block (1 .<< 40) (fe_mul (acc !!! lane) r4) (drop (lane * 16) m)]> acc.

(** [while (bytes >= 64)]. *)
Definition x4_groups (r4 : limbs3) (acc : list limbs3) (m : list Z)
    : list limbs3 * list Z :=
  while_loop (length m)
    (fun '(_, m) => (64 <=? length m)%nat)
    (fun '(acc, m) => (for_loop 4 (x4_lane r4 m) acc, drop 64 m))
    (acc, m).

(** The four products summed limb by limb, and the carries of the sum. *)
Definition x4_combine (p0 p1 p2 p3 : limbs3) : limbs3 :=
  let '(a0, a1, a2) := p0 in let '(b0, b1, b2) := p1 in
  let '(c0, c1, c2) := p2 in let '(d0, d1, d2) := p3 in
  let h0 := u64 (a0 + b0 + c0 + d0) in
  let h1 := u64 (a1 + b1 + c1 + d1) in
  let h2 := u64 (a2 + b2 + c2 + d2) in
  let c := h0 .>> 44 in let h0 := h0 .& 0xfffffffffff in let h1 := u64 (h1 + c) in
  let c := h1 .>> 44 in let h1 := h1 .& 0xfffffffffff in let h2 := u64 (h2 + c) in
  let c := h2 .>> 42 in let h2 := h2 .& 0x3ffffffffff in let h0 := u64 (h0 + u64 (c * 5)) in
  let c := h0 .>> 44 in let h0 := h0 .& 0xfffffffffff in let h1 := u64 (h1 + c) in
  (h0, h1, h2).

(** [while (bytes > 0)]: the blocks the groups left, the last one padded in
    [last], whose sixteen bytes are uninitialised before it is written. *)
Definition x4_serial_step (r : limbs3) (last : list Z) (h : limbs3) (m : list Z) : limbs3 :=
  let n := if (length m <? 16)%nat then length m else 16%nat in
  let '(b, hibit) :=
    if (n =? 16)%nat then (m, 1 .<< 40)
    else
      let last := <[n := 1]> (memcpy last 0 (take n m)) in
      let last := for_loop (16 - (n + 1)) (fun k l => <[(n + 1 + k)%nat := 0]> l) last in
      (last, 0) in
  fe_mul (poly64_add_block hibit h b) r.

Definition x4_serial (r : limbs3) (last : list Z) (h : limbs3) (m : list Z) : limbs3 * list Z :=
  while_loop (length m)
    (fun '(_, m) => (0 <? length m)%nat)
    (fun '(h, m) => (x4_serial_step r last h m,
                     drop (if (length m <? 16)%nat then length m else 16) m))
    (h, m).

Definition poly1305_x4 (key m last : list Z) : list Z :=
  let r := poly64_r key in
  let pad := (load64le key 16, load64le key 24) in
  let r2 := fe_mul r r in
  let r3 := fe_mul r2 r in
  let r4 := fe_mul r2 r2 in
  let '(acc, m) := x4_groups r4 (replicate 4 (0, 0, 0)) m in
  let h := x4_combine (fe_mul (acc !!! 0%nat) r4) (fe_mul (acc !!! 1%nat) r3)
                      (fe_mul (acc !!! 2%nat) r2) (fe_mul (acc !!! 3%nat) r) in
  let '(h, _) := x4_serial r last h m in
  poly64_tag (poly64_freeze (poly64_carry_round h)) pad.
End implementation.

(** ** The value of three limbs, and the ranges the loops keep *)

Definition eval3 (h : limbs3) : Z :=
  let '(h0, h1, h2) := h in h0 + h1 * 2 ^ 44 + h2 * 2 ^ 88.

Definition ok3 (h : limbs3) : Prop :=
  let '(h0, h1, h2) := h in
  0 <= h0 < 2 ^ 44 /\ 0 <= h1 < 2 ^ 44 + 2 ^ 7 /\ 0 <= h2 < 2 ^ 42.

(** The limbs a product may take: [h] with a block added. *)
Definition ok3_sum (h : limbs3) : Prop :=
  let '(h0, h1, h2) := h in
  0 <= h0 < 2 ^ 45 /\ 0 <= h1 < 2 ^ 45 + 2 ^ 7 /\ 0 <= h2 < 2 ^ 43.

Lemma ok3_sum_weaken h : ok3 h -> ok3_sum h.
Proof. destruct h as [[h0 h1] h2]. unfold ok3, ok3_sum. lia. Qed.

(** A sum of three products of bounded factors. *)
Lemma dot3_bound a0 a1 a2 b0 b1 b2 A0 A1 A2 B0 B1 B2 :
  0 <= a0 <= A0 -> 0 <= a1 <= A1 -> 0 <= a2 <= A2 ->
  0 <= b0 <= B0 -> 0 <= b1 <= B1 -> 0 <= b2 <= B2 ->
  0 <= a0 * b0 <= A0 * B0 /\ 0 <= a1 * b1 <= A1 * B1 /\ 0 <= a2 * b2 <= A2 * B2.
Proof.
  intros. repeat split;
    first [apply Z.mul_nonneg_nonneg; lia|apply Z.mul_le_mono_nonneg; lia].
Qed.

Lemma load64le_digit p off : bytes p -> (off + 8 <= length p)%nat ->
  load64le p off = le_val p / 2 ^ (8 * Z.of_nat off) mod 2 ^ 64.
Proof. intros. unfold load64le. by rewrite le_val_slice. Qed.

(** Two words cut into limbs. *)
Lemma limbs_of_arith t0 t1 : 0 <= t0 < 2 ^ 64 -> 0 <= t1 < 2 ^ 64 ->
  limbs_of t0 t1 = (t0 mod 2 ^ 44, t0 / 2 ^ 44 + t1 mod 2 ^ 24 * 2 ^ 20, t1 / 2 ^ 24).
Proof.
  intros. unfold limbs_of, u64. rewrite !Z.shiftr_div_pow2 by lia.
  rewrite (lor_shift_mod 64 _ _ 20 44) by lia. limbs64. f_equal; [f_equal|]; lia.
Qed.

Lemma limbs_of_ok t0 t1 l0 l1 l2 : 0 <= t0 < 2 ^ 64 -> 0 <= t1 < 2 ^ 64 ->
  limbs_of t0 t1 = (l0, l1, l2) ->
  0 <= l0 < 2 ^ 44 /\ 0 <= l1 < 2 ^ 44 /\ 0 <= l2 < 2 ^ 40 /\
  l0 + l1 * 2 ^ 44 + l2 * 2 ^ 88 = t0 + t1 * 2 ^ 64.
Proof. intros H0 H1 E. rewrite limbs_of_arith in E by done. simplify_eq. lia. Qed.

Definition hibit40 (final : bool) : Z := if final then 0 else 2 ^ 40.

Lemma lor_hibit40 a (final : bool) : 0 <= a < 2 ^ 40 ->
  a .| (if final then 0 else 1 .<< 40) = a + hibit40 final.
Proof.
  intros. destruct final; simpl hibit40; [rewrite Z.lor_0_r; lia|].
  rewrite lor_add_shift by lia. lia.
Qed.

Lemma poly64_add_block_ok (final : bool) h m : ok3 h -> bytes m -> (16 <= length m)%nat ->
  let h' := poly64_add_block (if final then 0 else 1 .<< 40) h m in
  ok3_sum h' /\
  eval3 h' = eval3 h + (le_val (take 16 m) + if final then 0 else 2 ^ 128).
Proof.
  destruct h as [[h0 h1] h2]. intros (H0 & H1 & H2) Hb Hl. unfold poly64_add_block.
  rewrite !load64le_digit, le_val_take by (done || lia). set (W := le_val m).
  destruct (limbs_of _ _) as [[t0 t1] t2] eqn:E.
  apply limbs_of_ok in E as (? & ? & ? & E); [|lia..].
  rewrite lor_hibit40 by done. assert (Hbit : 0 <= hibit40 final <= 2 ^ 40) by (destruct final; simpl; lia).
  rewrite !u64_small by lia. split; [unfold ok3_sum; lia|]. unfold eval3.
  replace (if final then 0 else 2 ^ 128) with (hibit40 final * 2 ^ 88) by (by destruct final).
  lia.
Qed.

Section field.
Context {T : Type} `{UL : U128Laws T}.

(** The three accumulations hold the exact sums of products. *)
Lemma rep_dot3 a0 a1 a2 b0 b1 b2 :
  0 <= a0 < 2 ^ 46 -> 0 <= a1 < 2 ^ 46 -> 0 <= a2 < 2 ^ 46 ->
  0 <= b0 < 2 ^ 50 -> 0 <= b1 < 2 ^ 50 -> 0 <= b2 < 2 ^ 50 ->
  u128_rep (u128_add (u128_add (u128_mul a0 b0) (u128_mul a1 b1)) (u128_mul a2 b2))
           (a0 * b0 + a1 * b1 + a2 * b2).
Proof.
  intros. pose proof (dot3_bound a0 a1 a2 b0 b1 b2 (2 ^ 46) (2 ^ 46) (2 ^ 46)
    (2 ^ 50) (2 ^ 50) (2 ^ 50)).
  apply rep_add; [apply rep_add|..]; try apply rep_mul; lia.
Qed.

(** The carry chain on the exact sums. *)
Lemma fe_carry_ok x0 x1 x2 d0 d1 d2 :
  u128_rep x0 d0 -> u128_rep x1 d1 -> u128_rep x2 d2 ->
  0 <= d0 < 2 ^ 93 -> 0 <= d1 < 2 ^ 93 -> 0 <= d2 < 2 ^ 89 + 2 ^ 88 + 2 ^ 60 ->
  ok3 (fe_carry T x0 x1 x2) /\
  eval3 (fe_carry T x0 x1 x2) ≡ₚ d0 + d1 * 2 ^ 44 + d2 * 2 ^ 88.
Proof.
  intros R0 R1 R2 H0 H1 H2. unfold fe_carry.
  rewrite (rep_shr44 _ _ R0), (rep_low44 _ _ R0) by lia.
  pose proof (rep_addu _ _ (d0 / 2 ^ 44) R1 ltac:(lia) ltac:(lia)) as R1'.
  set (e1 := d1 + d0 / 2 ^ 44) in *.
  rewrite (rep_shr44 _ _ R1'), (rep_low44 _ _ R1') by lia.
  pose proof (rep_addu _ _ (e1 / 2 ^ 44) R2 ltac:(lia) ltac:(lia)) as R2'.
  set (e2 := d2 + e1 / 2 ^ 44) in *.
  rewrite (rep_shr42 _ _ R2'), (rep_low42 _ _ R2') by lia. clear R0 R1 R2 R1' R2'.
  rewrite (u64_small (e2 / 2 ^ 42 * 5)) by lia. rewrite (u64_small (d0 mod 2 ^ 44 + _)) by lia.
  set (f0 := d0 mod 2 ^ 44 + e2 / 2 ^ 42 * 5) in *. limbs64.
  rewrite (u64_small (e1 mod 2 ^ 44 + _)) by lia.
  split; [unfold ok3; lia|]. symmetry.
  apply (eqP_multiple _ _ (e2 / 2 ^ 42)). unfold eval3, P. lia.
Qed.

Lemma fe_mul_ok a b : ok3_sum a -> ok3 b ->
  ok3 (fe_mul T a b) /\ eval3 (fe_mul T a b) ≡ₚ eval3 a * eval3 b.
Proof.
  destruct a as [[a0 a1] a2], b as [[b0 b1] b2].
  intros (A0 & A1 & A2) (B0 & B1 & B2). unfold fe_mul.
  rewrite (u64_small (b1 * 20)), (u64_small (b2 * 20)) by lia.
  pose proof (rep_dot3 a0 a1 a2 b0 (b2 * 20) (b1 * 20)) as R0.
  pose proof (rep_dot3 a0 a1 a2 b1 b0 (b2 * 20)) as R1.
  pose proof (rep_dot3 a0 a1 a2 b2 b1 b0) as R2.
  assert (0 <= b1 * 20 < 2 ^ 50) by lia. assert (0 <= b2 * 20 < 2 ^ 50) by lia.
  do 6 (specialize (R0 ltac:(lia))).
  do 6 (specialize (R1 ltac:(lia))). do 6 (specialize (R2 ltac:(lia))).
  destruct (dot3_bound a0 a1 a2 b0 (b2 * 20) (b1 * 20) (2 ^ 45) (2 ^ 45 + 2 ^ 7) (2 ^ 43)
    (2 ^ 44) (2 ^ 42 * 20) ((2 ^ 44 + 2 ^ 7) * 20)) as (? & ? & ?); [lia..|].
  destruct (dot3_bound a0 a1 a2 b1 b0 (b2 * 20) (2 ^ 45) (2 ^ 45 + 2 ^ 7) (2 ^ 43)
    (2 ^ 44 + 2 ^ 7) (2 ^ 44) (2 ^ 42 * 20)) as (? & ? & ?); [lia..|].
  destruct (dot3_bound a0 a1 a2 b2 b1 b0 (2 ^ 45) (2 ^ 45 + 2 ^ 7) (2 ^ 43)
    (2 ^ 42) (2 ^ 44 + 2 ^ 7) (2 ^ 44)) as (? & ? & ?); [lia..|].
  destruct (fe_carry_ok _ _ _ _ _ _ R0 R1 R2) as [Hok Hev]; [clear R0 R1 R2; lia..|].
  split; [done|]. rewrite Hev. symmetry.
  apply (eqP_multiple _ _ (4 * (a1 * b2 + a2 * b1) + 2 ^ 46 * (a2 * b2))).
  unfold eval3, P. ring.
Qed.

Lemma poly64_block_ok final r h m : ok3 r -> ok3 h -> bytes m -> (16 <= length m)%nat ->
  ok3 (poly64_block T final r h m) /\
  eval3 (poly64_block T final r h m)
    ≡ₚ (eval3 h + (le_val (take 16 m) + if final then 0 else 2 ^ 128)) * eval3 r.
Proof.
  intros Hr Hh Hb Hl. destruct (poly64_add_block_ok final h m Hh Hb Hl) as [Hs Es].
  destruct (fe_mul_ok _ r Hs Hr) as [Hm Em]. unfold poly64_block.
  split; [done|]. by rewrite Em, Es.
Qed.

#[global] Instance poly64_field : LimbField limbs3 (poly64_block T) := {|
  lf_eval := eval3; lf_ok := ok3; lf_ok_r := ok3; lf_step_ok := poly64_block_ok;
|}.
End field.

(** ** The key *)

Lemma clamp_digits64 x : clamp x =
  (x .& 0x0ffc0fffffff) + ((x / 2 ^ 44) .& 0x0fffffc0ffff) * 2 ^ 44
  + ((x / 2 ^ 88) .& 0x00ffffffc0f) * 2 ^ 88.
Proof.
  unfold clamp.
  change 0x0ffffffc0ffffffc0ffffffc0fffffff with
    (0x0ffc0fffffff + (0x0fffffc0ffff + 0x00ffffffc0f * 2 ^ 44) * 2 ^ 44).
  rewrite !land_split by lia. rewrite !Z.div_div by lia. rewrite <- !Z.pow_add_r by lia.
  change (44 + 44) with 88. ring.
Qed.

Lemma poly64_r_ok key : bytes key -> length key = 32%nat ->
  ok3 (poly64_r key) /\ eval3 (poly64_r key) = clamp (le_val (take 16 key)).
Proof.
  intros Hb Hl. unfold poly64_r. rewrite !load64le_digit by (done || lia).
  rewrite le_val_take, clamp_digits64 by (done || lia). set (W := le_val key).
  unfold u64. rewrite !Z.shiftr_div_pow2 by lia. rewrite (lor_shift_mod 64 _ _ 20 44) by lia.
  split.
  - unfold ok3. pose proof (land_range (W / 2 ^ (8 * Z.of_nat 0) mod 2 ^ 64) 0x0ffc0fffffff 44).
    refine (conj _ (conj _ _)); [apply land_range; lia| |apply land_range; lia].
    match goal with |- 0 <= ?a .& _ < _ =>
      pose proof (land_range a 0x0fffffc0ffff 44 ltac:(lia) ltac:(lia)) end. lia.
  - unfold eval3. f_equal; [f_equal|];
      first [apply (land_congr 44)|f_equal; apply (land_congr 44)]; lia.
Qed.

(** ** The end of [poly64_finish] and [poly1305_x4] *)

Definition canon3 (h : limbs3) : Prop :=
  let '(h0, h1, h2) := h in 0 <= h0 < 2 ^ 44 /\ 0 <= h1 < 2 ^ 44 /\ 0 <= h2 < 2 ^ 42.

Lemma canon3_ok3 h : canon3 h -> ok3 h.
Proof. destruct h as [[h0 h1] h2]. unfold canon3, ok3. lia. Qed.

(** One round is enough: a carry out of [h2] means that [h1] overflowed into
    it, so the carry back into [h1] does not make that limb overflow again. *)
Lemma poly64_carry_round_ok h : ok3 h ->
  canon3 (poly64_carry_round h) /\ eval3 (poly64_carry_round h) ≡ₚ eval3 h.
Proof.
  destruct h as [[h0 h1] h2]. intros (H0 & H1 & H2). unfold poly64_carry_round. limbs64.
  rewrite (u64_small (h2 + _)) by lia. set (e2 := h2 + h1 / 2 ^ 44) in *.
  rewrite (u64_small (e2 / 2 ^ 42 * 5)) by lia.
  rewrite (u64_small (h0 + _)) by lia. set (e0 := h0 + e2 / 2 ^ 42 * 5) in *.
  rewrite (u64_small (_ + e0 / 2 ^ 44)) by lia.
  split; [unfold canon3; lia|]. symmetry.
  apply (eqP_multiple _ _ (e2 / 2 ^ 42)). unfold eval3, P. lia.
Qed.

Lemma select64_ones a b : 0 <= b < 2 ^ 64 ->
  (a .& u64 (Z.lnot (2 ^ 64 - 1))) .| (b .& (2 ^ 64 - 1)) = b.
Proof.
  intros. change (u64 (Z.lnot (2 ^ 64 - 1))) with 0. rewrite Z.land_0_r, Z.lor_0_l.
  rewrite land_mask by lia. apply Z.mod_small. lia.
Qed.

Lemma select64_zeros a b : 0 <= a < 2 ^ 64 -> (a .& u64 (Z.lnot 0)) .| (b .& 0) = a.
Proof.
  intros. rewrite Z.land_0_r, Z.lor_0_r. change (u64 (Z.lnot 0)) with (2 ^ 64 - 1).
  rewrite land_mask by lia. apply Z.mod_small. lia.
Qed.

Lemma poly64_freeze_ok h : canon3 h ->
  canon3 (poly64_freeze h) /\ eval3 (poly64_freeze h) = eval3 h mod P.
Proof.
  destruct h as [[h0 h1] h2]. intros (H0 & H1 & H2). unfold poly64_freeze. limbs64.
  rewrite (u64_small (h0 + 5)) by lia. set (e0 := h0 + 5) in *.
  rewrite (u64_small (h1 + _)) by lia. set (e1 := h1 + e0 / 2 ^ 44) in *.
  set (e2 := h2 + e1 / 2 ^ 44) in *. assert (0 <= e2 <= 2 ^ 42) by lia.
  destruct (Z.lt_ge_cases e2 (2 ^ 42)) as [Hlt|Hge].
  - replace (u64 (u64 (e2 - 1 * 2 ^ 42) / 2 ^ 63 - 1)) with 0 by (unfold u64; lia).
    rewrite !select64_zeros by lia. split; [unfold canon3; lia|].
    symmetry. apply Z.mod_small. unfold eval3, P. lia.
  - replace (u64 (e2 - 1 * 2 ^ 42)) with 0 by (unfold u64; lia).
    change (u64 (0 / 2 ^ 63 - 1)) with (2 ^ 64 - 1).
    rewrite !select64_ones by lia. split; [unfold canon3; lia|].
    apply (Z.mod_unique _ P 1); unfold eval3, P; lia.
Qed.

Lemma poly64_tag_ok h t0 t1 : canon3 h -> 0 <= t0 < 2 ^ 64 -> 0 <= t1 < 2 ^ 64 ->
  poly64_tag h (t0, t1) = le_bytes 16 (eval3 h + (t0 + t1 * 2 ^ 64)).
Proof.
  destruct h as [[h0 h1] h2]. intros (H0 & H1 & H2) T0 T1. unfold poly64_tag.
  cbn [fst snd]. destruct (limbs_of t0 t1) as [[l0 l1] l2] eqn:E.
  apply limbs_of_ok in E as (? & ? & ? & <-); [|done..].
  rewrite (u64_small (h0 + l0)) by lia. set (e0 := h0 + l0) in *. limbs64.
  rewrite (u64_small (h1 + _)) by lia. set (e1 := h1 + (l1 + e0 / 2 ^ 44)) in *.
  rewrite (u64_small (h2 + _)) by lia. set (e2 := h2 + (l2 + e1 / 2 ^ 44)) in *.
  rewrite !map_store_bytes, <- !Z.shiftl_mul_pow2 by lia. unfold u64.
  rewrite (lor_shift_mod 64 _ _ 44 20), (lor_shift_mod 64 _ _ 24 40) by lia.
  rewrite (le_bytes_app 8 8), <- (le_bytes_mod 8 (eval3 _ + _)),
    <- (le_bytes_mod 8 ((eval3 _ + _) / _)).
  change (8 * Z.of_nat 8) with 64. unfold eval3. rewrite ?Z.shiftl_mul_pow2 by lia.
  f_equal; f_equal; lia.
Qed.

Lemma poly64_output_ok h t0 t1 : ok3 h -> 0 <= t0 < 2 ^ 64 -> 0 <= t1 < 2 ^ 64 ->
  poly64_tag (poly64_freeze (poly64_carry_round h)) (t0, t1)
  = le_bytes 16 (eval3 h mod P + (t0 + t1 * 2 ^ 64)).
Proof.
  intros Hh H0 H1. destruct (poly64_carry_round_ok h Hh) as [Hc Ec].
  destruct (poly64_freeze_ok _ Hc) as [Hf Ef]. by rewrite poly64_tag_ok, Ef, Ec by done.
Qed.

Lemma poly64_pad_ok key : bytes key -> length key = 32%nat ->
  0 <= load64le key 16 < 2 ^ 64 /\ 0 <= load64le key 24 < 2 ^ 64 /\
  load64le key 16 + load64le key 24 * 2 ^ 64 = le_val (take 16 (drop 16 key)).
Proof.
  intros Hb Hl. rewrite !load64le_digit, le_val_slice by (done || lia).
  set (W := le_val key). lia.
Qed.

(** ** The streaming MAC *)

Definition poly64_stream (T : Type) `{U128 T} (key junk : list Z) (ms : list (list Z)) : list Z :=
  poly64_finish T (fold_left (poly64_update T) ms (poly64_init key junk)).

Lemma poly64_rep_init T `{U128Laws T} key junk : bytes junk -> length junk = 16%nat ->
  let st := poly64_init key junk in
  Rep (step := poly64_block T) (ctx_r st) (ctx_pad st) st [] [].
Proof. intros Hb Hl. split; ctx_simpl; try done; cbn; lia. Qed.

Lemma poly64_stream_mac T `{U128Laws T} key junk ms :
  bytes key -> length key = 32%nat -> bytes junk -> length junk = 16%nat ->
  Forall bytes ms ->
  poly64_stream T key junk ms = poly1305_mac key (concat ms).
Proof.
  intros Hk Hkl Hj Hjl Hms. unfold poly64_stream, poly64_finish, poly1305_mac.
  destruct (poly64_r_ok key Hk Hkl) as [Hr Er].
  destruct (poly64_pad_ok key Hk Hkl) as (P0 & P1 & Ep).
  destruct (updates_ok (F := poly64_field) _ _ ms _ [] [] Hr
    (poly64_rep_init T key junk Hj Hjl) Hms) as (full & rest & E & HR).
  destruct (last_ok (F := poly64_field) _ _ _ _ _ Hr HR) as (Hok & Epad & Ev).
  unfold poly64_update, poly64_blocks in *. cbv zeta. rewrite Epad.
  destruct (poly64_carry_round_ok _ Hok) as [Hc Ec].
  change (ctx_pad (poly64_init key junk)) with (load64le key 16, load64le key 24).
  rewrite poly64_output_ok, Ec by (auto using canon3_ok3).
  cbn [lf_eval poly64_field] in Ev. rewrite Ep, Ev, <- E. simpl app.
  change (ctx_r (poly64_init key junk)) with (poly64_r key). rewrite Er.
  f_equal. f_equal. apply absorb_reduced.
Qed.

(** ** Four chains at once *)

Section four_chains.
Context {T : Type} `{UL : U128Laws T}.
Context (r r2 r3 r4 : limbs3) (R : Z).
Context (Hr : ok3 r) (Hr2 : ok3 r2) (Hr3 : ok3 r3) (Hr4 : ok3 r4).
Context (Er : eval3 r ≡ₚ R) (Er2 : eval3 r2 ≡ₚ R ^ 2)
  (Er3 : eval3 r3 ≡ₚ R ^ 3) (Er4 : eval3 r4 ≡ₚ R ^ 4).

(** What four accumulators stand for. *)
Definition x4_value (a0 a1 a2 a3 : limbs3) : Z :=
  eval3 a0 * R ^ 4 + eval3 a1 * R ^ 3 + eval3 a2 * R ^ 2 + eval3 a3 * R.

Lemma block_val_16 m : (16 <= length m)%nat ->
  block_val (take 16 m) = le_val (take 16 m) + 2 ^ 128.
Proof. intros. unfold block_val. by rewrite length_take_le by done. Qed.

(** One lane: [acc.r^4 + block]. *)
Lemma x4_lane_ok a m : ok3_sum a -> bytes m -> (16 <= length m)%nat ->
  let a' := poly64_add_block (1 .<< 40) (fe_mul T a r4) m in
  ok3_sum a' /\ eval3 a' ≡ₚ eval3 a * R ^ 4 + block_val (take 16 m).
Proof.
  intros Ha Hb Hl. destruct (fe_mul_ok a r4 Ha Hr4) as [Hm Em].
  destruct (poly64_add_block_ok false _ m Hm Hb Hl) as [Hs Es].
  split; [done|]. cbn [negb] in Es. rewrite Es, Em, Er4. by rewrite block_val_16.
Qed.

Lemma blocks16_group m : (64 <= length m)%nat ->
  blocks16 m = take 16 m :: take 16 (drop 16 m) :: take 16 (drop 32 m)
               :: take 16 (drop 48 m) :: blocks16 (drop 64 m).
Proof.
  intros Hl. assert (Hne : forall k, (k < 64)%nat -> drop k m <> []).
  { intros k Hk E. apply (f_equal length) in E. rewrite length_drop in E. simpl in E. lia. }
  rewrite (blocks16_cons m) by apply (Hne 0%nat ltac:(lia)).
  rewrite (blocks16_cons (drop 16 m)) by (apply Hne; lia). rewrite drop_drop.
  rewrite (blocks16_cons (drop (16 + 16) m)) by (apply Hne; lia). rewrite drop_drop.
  rewrite (blocks16_cons (drop (16 + 16 + 16) m)) by (apply Hne; lia). by rewrite drop_drop.
Qed.

(** A group of four blocks is four Horner steps on the value. *)
Lemma x4_group_ok a0 a1 a2 a3 m : ok3_sum a0 -> ok3_sum a1 -> ok3_sum a2 -> ok3_sum a3 ->
  bytes m -> (64 <= length m)%nat ->
  exists b0 b1 b2 b3, for_loop 4 (x4_lane T r4 m) [a0; a1; a2; a3] = [b0; b1; b2; b3] /\
    ok3_sum b0 /\ ok3_sum b1 /\ ok3_sum b2 /\ ok3_sum b3 /\
    absorb R (x4_value b0 b1 b2 b3) (blocks16 (drop 64 m))
      ≡ₚ absorb R (x4_value a0 a1 a2 a3) (blocks16 m).
Proof.
  intros H0 H1 H2 H3 Hb Hl.
  destruct (x4_lane_ok a0 m H0 Hb) as [K0 E0]; [lia|].
  destruct (x4_lane_ok a1 (drop 16 m) H1) as [K1 E1]; [auto with word|rewrite length_drop; lia|].
  destruct (x4_lane_ok a2 (drop 32 m) H2) as [K2 E2]; [auto with word|rewrite length_drop; lia|].
  destruct (x4_lane_ok a3 (drop 48 m) H3) as [K3 E3]; [auto with word|rewrite length_drop; lia|].
  eexists _, _, _, _. split; [reflexivity|]. cbn [Nat.mul Nat.add]. rewrite drop_0.
  split_and!; [done..|]. rewrite (blocks16_group m) by done. cbn [absorb fold_left].
  apply absorb_eqP. unfold x4_value. rewrite E0, E1, E2, E3, !eqP_mod.
  match goal with |- ?a ≡ₚ ?b => replace a with b by ring; done end.
Qed.

Lemma x4_groups_ok fuel a0 a1 a2 a3 m :
  ok3_sum a0 -> ok3_sum a1 -> ok3_sum a2 -> ok3_sum a3 -> bytes m -> (length m <= fuel)%nat ->
  exists b0 b1 b2 b3 m',
    while_loop fuel (fun '(_, m) => (64 <=? length m)%nat)
      (fun '(acc, m) => (for_loop 4 (x4_lane T r4 m) acc, drop 64 m)) ([a0; a1; a2; a3], m)
    = ([b0; b1; b2; b3], m') /\
    ok3_sum b0 /\ ok3_sum b1 /\ ok3_sum b2 /\ ok3_sum b3 /\ bytes m' /\
    absorb R (x4_value b0 b1 b2 b3) (blocks16 m')
      ≡ₚ absorb R (x4_value a0 a1 a2 a3) (blocks16 m).
Proof.
  revert a0 a1 a2 a3 m. induction fuel as [|fuel IH]; intros a0 a1 a2 a3 m H0 H1 H2 H3 Hb Hf.
  { by exists a0, a1, a2, a3, m. }
  cbn [while_loop]. case_if; [|by exists a0, a1, a2, a3, m].
  destruct (x4_group_ok a0 a1 a2 a3 m) as (b0 & b1 & b2 & b3 & -> & K0 & K1 & K2 & K3 & Eg);
    [done..|].
  destruct (IH b0 b1 b2 b3 (drop 64 m)) as (c0 & c1 & c2 & c3 & m' & -> & Hc);
    [done..|auto with word|rewrite length_drop; lia|].
  exists c0, c1, c2, c3, m'. destruct Hc as (? & ? & ? & ? & ? & Ec). by rewrite Ec, Eg.
Qed.

(** The products summed and carried are in range and hold the value. *)
Lemma x4_combine_ok p0 p1 p2 p3 : ok3 p0 -> ok3 p1 -> ok3 p2 -> ok3 p3 ->
  ok3 (x4_combine p0 p1 p2 p3) /\
  eval3 (x4_combine p0 p1 p2 p3) ≡ₚ eval3 p0 + eval3 p1 + eval3 p2 + eval3 p3.
Proof.
  clear. destruct p0 as [[a0 a1] a2], p1 as [[b0 b1] b2], p2 as [[c0 c1] c2],
    p3 as [[d0 d1] d2].
  intros (A0 & A1 & A2) (B0 & B1 & B2) (C0 & C1 & C2) (D0 & D1 & D2).
  unfold x4_combine. rewrite (u64_small (a0 + b0 + c0 + d0)), (u64_small (a1 + b1 + c1 + d1)),
    (u64_small (a2 + b2 + c2 + d2)) by lia.
  set (s0 := a0 + b0 + c0 + d0). set (s1 := a1 + b1 + c1 + d1). set (s2 := a2 + b2 + c2 + d2).
  assert (0 <= s0 < 2 ^ 46) by lia. assert (0 <= s1 < 2 ^ 46 + 2 ^ 9) by lia.
  assert (0 <= s2 < 2 ^ 44) by lia.
  match goal with |- _ /\ _ ≡ₚ ?x =>
    replace x with (s0 + s1 * 2 ^ 44 + s2 * 2 ^ 88) by (unfold eval3; lia) end.
  clearbody s0 s1 s2. clear -H H0 H1. limbs64.
  rewrite (u64_small (s1 + _)) by lia. set (e1 := s1 + s0 / 2 ^ 44) in *.
  rewrite (u64_small (s2 + _)) by lia. set (e2 := s2 + e1 / 2 ^ 44) in *.
  rewrite (u64_small (e2 / 2 ^ 42 * 5)) by lia.
  rewrite (u64_small (s0 mod 2 ^ 44 + _)) by lia.
  set (e0 := s0 mod 2 ^ 44 + e2 / 2 ^ 42 * 5) in *.
  rewrite (u64_small (e1 mod 2 ^ 44 + _)) by lia.
  split; [unfold ok3; lia|]. symmetry.
  apply (eqP_multiple _ _ (e2 / 2 ^ 42)). unfold eval3, P. lia.
Qed.

(** One serial step absorbs the next block, padded when it is short. *)
Lemma x4_serial_step_ok last h m : ok3 h -> bytes m -> (0 < length m)%nat ->
  bytes last -> length last = 16%nat ->
  ok3 (x4_serial_step T r last h m) /\
  eval3 (x4_serial_step T r last h m) ≡ₚ (eval3 h + block_val (take 16 m)) * R.
Proof.
  intros Hh Hb Hm Hlb Hll. unfold x4_serial_step.
  destruct (length m <? 16)%nat eqn:E; bool_to_prop.
  - destruct (length m =? 16)%nat eqn:E'; bool_to_prop; [lia|]. rewrite firstn_all.
    rewrite pad_loop by (rewrite ?length_memcpy; lia).
    replace (take (length m) (memcpy last 0 m)) with m
      by (symmetry; apply (take_memcpy last 0 m); lia).
    destruct (padded_block m E Hb) as (Hlen & Hbb & Eb).
    destruct (poly64_add_block_ok true h _ Hh Hbb) as [Hs Es]; [lia|].
    destruct (fe_mul_ok _ r Hs Hr) as [Hok Hev]. split; [done|].
    rewrite Hev, Es, Er, (take_ge m) by lia. rewrite take_ge, Z.add_0_r by lia. by rewrite Eb.
  - cbn [Nat.eqb]. destruct (poly64_add_block_ok false h m Hh Hb E) as [Hs Es].
    destruct (fe_mul_ok _ r Hs Hr) as [Hok Hev]. split; [done|].
    by rewrite Hev, Es, Er, block_val_16.
Qed.

Lemma x4_serial_ok fuel last h m : ok3 h -> bytes m -> (length m <= fuel)%nat ->
  bytes last -> length last = 16%nat ->
  let '(h', _) := while_loop fuel (fun '(_, m) => (0 <? length m)%nat)
    (fun '(h, m) => (x4_serial_step T r last h m,
                     drop (if (length m <? 16)%nat then length m else 16) m)) (h, m) in
  ok3 h' /\ eval3 h' ≡ₚ absorb R (eval3 h) (blocks16 m).
Proof.
  intros Hh Hb Hf Hlb Hll. revert h m Hh Hb Hf.
  induction fuel as [|fuel IH]; intros h m Hh Hb Hf.
  { destruct m; [done|simpl in *; lia]. }
  cbn [while_loop]. destruct (0 <? length m)%nat eqn:E; bool_to_prop; cycle 1.
  { destruct m; [done|simpl in *; lia]. }
  destruct (x4_serial_step_ok last h m Hh Hb E Hlb Hll) as [Hs Es].
  replace (drop (if (length m <? 16)%nat then length m else 16) m) with (drop 16 m)
    by (case_if; [by rewrite !drop_ge by lia|done]).
  specialize (IH (x4_serial_step T r last h m) (drop 16 m) Hs).
  destruct (while_loop _ _ _ _) as [h' m']. destruct IH as [Hok Hev];
    [auto with word|rewrite length_drop; lia|]. split; [done|].
  rewrite Hev, (absorb_eqP _ _ _ _ Es). rewrite (blocks16_cons m) by (intros ->; simpl in *; lia).
  symmetry. cbn [absorb fold_left]. apply absorb_eqP, eqP_mod.
Qed.

(** The accumulators combined and the rest of the message absorbed. *)
Lemma x4_accumulate m last : bytes m -> bytes last -> length last = 16%nat ->
  let '(acc, m') := x4_groups T r4 (replicate 4 (0, 0, 0)) m in
  let h := x4_combine (fe_mul T (acc !!! 0%nat) r4) (fe_mul T (acc !!! 1%nat) r3)
                      (fe_mul T (acc !!! 2%nat) r2) (fe_mul T (acc !!! 3%nat) r) in
  let '(h', _) := x4_serial T r last h m' in
  ok3 h' /\ eval3 h' ≡ₚ absorb R 0 (blocks16 m).
Proof.
  intros Hb Hlb Hll. unfold x4_serial.
  assert (Hz : ok3_sum (0, 0, 0)) by (unfold ok3_sum; lia).
  destruct (x4_groups_ok (length m) _ _ _ _ m Hz Hz Hz Hz Hb (Nat.le_refl _))
    as (b0 & b1 & b2 & b3 & m' & Ew & K0 & K1 & K2 & K3 & Hb' & Eg).
  change (x4_groups T r4 (replicate 4 (0, 0, 0)) m = ([b0; b1; b2; b3], m')) in Ew.
  rewrite Ew. cbn [lookup_total list_lookup_total].
  destruct (fe_mul_ok b0 r4 K0 Hr4) as [O0 E0]. destruct (fe_mul_ok b1 r3 K1 Hr3) as [O1 E1].
  destruct (fe_mul_ok b2 r2 K2 Hr2) as [O2 E2]. destruct (fe_mul_ok b3 r K3 Hr) as [O3 E3].
  destruct (x4_combine_ok _ _ _ _ O0 O1 O2 O3) as [Hc Ec].
  set (h := x4_combine _ _ _ _) in *.
  pose proof (x4_serial_ok (length m') last h m' Hc Hb' (Nat.le_refl _) Hlb Hll) as Hs.
  destruct (while_loop _ _ _ _) as [h' m'']. destruct Hs as [Hok Hev]. split; [done|].
  rewrite Hev. rewrite (absorb_eqP R (eval3 h) (x4_value b0 b1 b2 b3)); [done|].
  unfold x4_value. by rewrite Ec, E0, E1, E2, E3, Er, Er2, Er3, Er4.
Qed.
End four_chains.

Lemma poly1305_x4_mac T `{U128Laws T} key m last :
  bytes key -> length key = 32%nat -> bytes m -> bytes last -> length last = 16%nat ->
  poly1305_x4 T key m last = poly1305_mac key m.
Proof.
  intros Hk Hkl Hm Hlb Hll. unfold poly1305_x4, poly1305_mac.
  destruct (poly64_r_ok key Hk Hkl) as [Hr Er]. set (r := poly64_r key) in *.
  destruct (poly64_pad_ok key Hk Hkl) as (P0 & P1 & Ep).
  destruct (fe_mul_ok r r (ok3_sum_weaken _ Hr) Hr) as [H2 E2].
  destruct (fe_mul_ok _ r (ok3_sum_weaken _ H2) Hr) as [H3 E3].
  destruct (fe_mul_ok _ _ (ok3_sum_weaken _ H2) H2) as [H4 E4].
  rewrite <- Er.
  pose proof (x4_accumulate r _ _ _ (eval3 r) Hr H2 H3 H4) as Hacc.
  specialize (Hacc ltac:(done) ltac:(rewrite E2; by replace (eval3 r ^ 2) with (eval3 r * eval3 r) by ring)
    ltac:(rewrite E3, E2; by replace (eval3 r ^ 3) with (eval3 r * eval3 r * eval3 r) by ring)
    ltac:(rewrite E4, E2; by replace (eval3 r ^ 4)
      with (eval3 r * eval3 r * (eval3 r * eval3 r)) by ring) m last Hm Hlb Hll).
  revert Hacc. cbv zeta. destruct (x4_groups _ _ _ _) as [acc m'].
  destruct (x4_serial _ _ _ _ _) as [h' m'']. intros [Hok Hev].
  rewrite poly64_output_ok, Ep, Hev by done.
  by rewrite absorb_reduced.
Qed.
