(* ===== verification/CryptoProbe.v ===== *)
(** * CryptoProbe: the probe around the primitives

    The rest of [benchmarks/crypto_probe.c]: CPU feature detection, the
    known-answer vectors, the chunking and differential checks of
    [kat_streaming], and the page-sealing loops of [main].  Reads of a local
    array go through [slice], which is [None] past its end, so a definition
    that returns [None] is a run that reads memory the array does not own.
    Uninitialised memory (the buffer of a context, the [last] block of
    [poly1305_x4]) is the parameter [junk]. *)

From stdpp Require Import option.
From S2P Require Import Prelude ChaCha20 Poly1305 Poly26 Poly64.

(** ** CPU features; [cpuid leaf] is the instruction with sub-leaf 0 *)

Record cpu_features := mk_features {
  aesni : Z; pclmul : Z; sha_ni : Z; avx2 : Z; rdseed : Z; sse41 : Z;
}.

Record regs := mk_regs { eax : Z; ebx : Z; ecx : Z; edx : Z }.

Definition bit (r n : Z) : Z := (r .>> n) .& 1.

Definition cpu_detect (cpuid : Z -> regs) : cpu_features :=
  let maxleaf := eax (cpuid 0) in
  let f := mk_features 0 0 0 0 0 0 in
  let f := if 1 <=? maxleaf then
      let r := cpuid 1 in
      mk_features (bit (ecx r) 25) (bit (ecx r) 1) (sha_ni f) (avx2 f) (rdseed f)
                  (bit (ecx r) 19)
    else f in
  if 7 <=? maxleaf then
    let r := cpuid 7 in
    mk_features (aesni f) (pclmul f) (bit (ebx r) 29) (bit (ebx r) 5) (bit (ebx r) 18) (sse41 f)
  else f.

(** ** Checks *)

Record tally := mk_tally { checks_run : Z; checks_failed : Z }.

Definition check (t : tally) (ok : bool) : tally :=
  mk_tally (checks_run t + 1) (if ok then checks_failed t else checks_failed t + 1).

(** [memcmp(a, b, n) == 0] on whole arrays. *)
Definition same (a b : list Z) : bool := bool_decide (a = b).

(** The bytes [p[off .. off + len)]; [None] when the array is shorter. *)
Definition slice (p : list Z) (off len : nat) : option (list Z) :=
  if (off + len <=? length p)%nat then Some (take len (drop off p)) else None.

(** [for (len = lo; n more; len++) { ...; if (differ) { ok = 0; break; } }]. *)
Fixpoint every_length (f : nat -> option bool) (len n : nat) : option bool :=
  match n with
  | O => Some true
  | S n' => ok ← f len; if (ok : bool) then every_length f (S len) n' else Some false
  end.

Definition byte_array (n : nat) (f : Z -> Z) : list Z := map (fun i => u8 (f (Z.of_nat i))) (seq 0 n).

(** ** Known-answer vectors *)

Definition kat_chacha20 (t : tally) : tally :=
  let key := byte_array 32 (fun i => i) in
  let nonce := [0; 0; 0; 9; 0; 0; 0; 0x4a; 0; 0; 0; 0] in
  let want := [
    0x10;0xf1;0xe7;0xe4;0xd1;0x3b;0x59;0x15;0x50;0x0f;0xdd;0x1f;0xa3;0x20;0x71;0xc4;
    0xc7;0xd1;0xf4;0xc7;0x33;0xc0;0x68;0x03;0x04;0x22;0xaa;0x9a;0xc3;0xd4;0x6c;0x4e;
    0xd2;0x82;0x64;0x46;0x07;0x9f;0xaa;0x09;0x14;0xc2;0xd7;0x05;0xd9;0x8b;0x02;0xa2;
    0xb5;0x12;0x9c;0xd1;0xde;0x16;0x4e;0xb9;0xcb;0xd0;0x83;0xe8;0xa2;0x50;0x3c;0x4e ] in
  let got := chacha20_block key 1 nonce in
  check t (same got want).

(** ["Cryptographic Forum Research Group"], without its terminator. *)
Definition kat_msg : list Z :=
  [0x43;0x72;0x79;0x70;0x74;0x6f;0x67;0x72;0x61;0x70;0x68;0x69;0x63;0x20;0x46;0x6f;0x72;
   0x75;0x6d;0x20;0x52;0x65;0x73;0x65;0x61;0x72;0x63;0x68;0x20;0x47;0x72;0x6f;0x75;0x70].

Section probe.
Context (T : Type) `{U : U128 T} (junk : list Z).

(** One [init], one [update], one [finish]. *)
Definition poly1305_tag26 (key m : list Z) : list Z :=
  poly1305_finish (poly1305_update (poly1305_init key junk) m).
Definition poly1305_tag64 (key m : list Z) : list Z :=
  poly64_finish T (poly64_update T (poly64_init key junk) m).

Definition kat_poly1305 (t : tally) : tally :=
  let key := [
    0x85;0xd6;0xbe;0x78;0x57;0x55;0x6d;0x33;0x7f;0x44;0x52;0xfe;0x42;0xd5;0x06;0xa8;
    0x01;0x03;0x80;0x8a;0xfb;0x0d;0xb2;0xfd;0x4a;0xbf;0xf6;0xaf;0x41;0x49;0xf5;0x1b ] in
  let want := [
    0xa8;0x06;0x1d;0xc1;0x30;0x51;0x36;0xc6;0xc2;0x2b;0x8b;0xaf;0x0c;0x01;0x27;0xa9 ] in
  let t := check t (same (poly1305_tag26 key kat_msg) want) in
  let t := check t (same (poly1305_x4 T key kat_msg junk) want) in
  check t (same (poly1305_tag64 key kat_msg) want).

(** ** [kat_streaming] *)

Definition kat_key : list Z := byte_array 32 (fun i => i * 7 + 1).
Definition kat_nonce : list Z := byte_array 12 (fun i => i * 3).

(** The array [a] as the whole of [kat_streaming] sees it. *)
Definition kat_a : list Z := chacha20_xor kat_key 0 kat_nonce (byte_array 200 (fun i => i)).

(** [xor] and [chacha20_xor_hoisted] on [len] bytes of [k * 11 + 3]. *)
Definition xor_agrees (xor : list Z -> Z -> list Z -> list Z -> list Z) (len : nat)
    : option bool :=
  let p := byte_array len (fun k => k * 11 + 3) in
  Some (same (chacha20_xor_hoisted kat_key 7 kat_nonce p) (xor kat_key 7 kat_nonce p)).

(** The ChaCha20 half, lines to the end of the [HAVE_CHACHA_SSE2] block. *)
Definition kat_streaming_chacha20 (host_avx2 : bool) (t : tally) : option tally :=
  let b := byte_array 200 (fun i => i) in
  b1 ← slice b 0 64;
  b2 ← slice b 64 136;
  let b := memcpy (memcpy b 0 (chacha20_xor kat_key 0 kat_nonce b1))
                  64 (chacha20_xor kat_key 1 kat_nonce b2) in
  let t := check t (same kat_a b) in
  let b := chacha20_xor_hoisted kat_key 0 kat_nonce (byte_array 200 (fun i => i)) in
  let t := check t (same kat_a b) in
  ok ← every_length (xor_agrees chacha20_xor_sse2) 1 200;
  let t := check t ok in
  ok ← every_length (xor_agrees chacha20_xor_sse2x4) 1 400;
  let t := check t ok in
  if host_avx2 then
    ok ← every_length (xor_agrees chacha20_xor_avx2) 1 700;
    Some (check t ok)
  else Some t.

(** The bodies of the two loops over [len]. *)
Definition tags_26_64 (a : list Z) (len : nat) : option bool :=
  m ← slice a 0 len;
  Some (same (poly1305_tag26 kat_key m) (poly1305_tag64 kat_key m)).
Definition tags_26_x4 (a : list Z) (len : nat) : option bool :=
  m ← slice a 0 len;
  Some (same (poly1305_tag26 kat_key m) (poly1305_x4 T kat_key m junk)).

Definition kat_streaming_poly1305 (t : tally) : option tally :=
  let a := kat_a in
  m ← slice a 0 200;
  let m1 := poly1305_tag26 kat_key m in
  c1 ← slice a 0 7;
  c2 ← slice a 7 1;
  c3 ← slice a 8 192;
  let m2 := poly1305_finish (poly1305_update (poly1305_update (poly1305_update
              (poly1305_init kat_key junk) c1) c2) c3) in
  let t := check t (same m1 m2) in
  ok ← every_length (tags_26_64 a) 0 301;
  let t := check t ok in
  ok ← every_length (tags_26_x4 a) 0 301;
  Some (check t ok).

Definition kat_streaming (host_avx2 : bool) (t : tally) : option tally :=
  t ← kat_streaming_chacha20 host_avx2 t;
  kat_streaming_poly1305 t.
End probe.

(** ** Sealing a page: the measured loops of [main]

    [for (i = 0; i < rounds; i++) { xor(key, i, nonce, page); mac = tag(page); }];
    the loop variable is the block counter. *)
Definition seal_rounds (xor : list Z -> Z -> list Z -> list Z -> list Z)
    (tag : list Z -> list Z -> list Z) (key nonce : list Z) (rounds : nat)
    (page_mac : list Z * list Z) : list Z * list Z :=
  for_loop rounds (fun i '(page, _) =>
    let page := xor key (Z.of_nat i) nonce page in (page, tag key page)) page_mac.

Section sealing.
Context (T : Type) `{U : U128 T} (junk key nonce : list Z).

Definition seal_scalar : nat -> list Z * list Z -> list Z * list Z :=
  seal_rounds chacha20_xor_hoisted (poly1305_tag26 junk) key nonce.
Definition seal_sse2 : nat -> list Z * list Z -> list Z * list Z :=
  seal_rounds chacha20_xor_sse2x4 (poly1305_tag26 junk) key nonce.
Definition seal_avx2 : nat -> list Z * list Z -> list Z * list Z :=
  seal_rounds chacha20_xor_avx2 (poly1305_tag26 junk) key nonce.
Definition seal_sse2_x4 : nat -> list Z * list Z -> list Z * list Z :=
  seal_rounds chacha20_xor_sse2x4 (fun key m => poly1305_x4 T key m junk) key nonce.
Definition seal_avx2_x4 : nat -> list Z * list Z -> list Z * list Z :=
  seal_rounds chacha20_xor_avx2 (fun key m => poly1305_x4 T key m junk) key nonce.
End sealing.

(** ** Lemmas *)

Lemma bytes_byte_array n f : bytes (byte_array n f).
Proof. unfold byte_array. induction (seq 0 n); simpl; constructor; [apply u8_range|done]. Qed.

Lemma length_byte_array n f : length (byte_array n f) = n.
Proof. unfold byte_array. by rewrite length_map, length_seq. Qed.

#[export] Hint Resolve bytes_byte_array : word.

Lemma same_refl a b : a = b -> same a b = true.
Proof. intros ->. by apply bool_decide_eq_true_2. Qed.

Lemma slice_ok p off len : (off + len <= length p)%nat ->
  slice p off len = Some (take len (drop off p)).
Proof. intros. unfold slice. by case_if; [|lia]. Qed.

Lemma slice_overrun p off len : (length p < off + len)%nat -> slice p off len = None.
Proof. intros. unfold slice. by case_if; [lia|]. Qed.

Lemma every_length_ok f len n : (forall k, (len <= k < len + n)%nat -> f k = Some true) ->
  every_length f len n = Some true.
Proof.
  revert len. induction n as [|n IH]; intros len Hf; [done|]. simpl.
  rewrite Hf by lia. simpl. apply IH. intros. apply Hf. lia.
Qed.

Lemma every_length_overrun f len n k : (len <= k < len + n)%nat ->
  (forall j, (len <= j < k)%nat -> f j = Some true) -> f k = None ->
  every_length f len n = None.
Proof.
  revert len. induction n as [|n IH]; intros len Hk Hf Hn; [lia|]. simpl.
  destruct (decide (k = len)) as [->|]; [by rewrite Hn|].
  rewrite Hf by lia. simpl. apply IH; [lia| |done]. intros. apply Hf. lia.
Qed.

Section tags.
Context (T : Type) `{UL : U128Laws T} (junk : list Z).
Context (Hj : bytes junk) (Hjl : length junk = 16%nat).

Lemma tag26_mac key m : bytes key -> length key = 32%nat -> bytes m ->
  poly1305_tag26 junk key m = poly1305_mac key m.
Proof.
  intros Hk Hl Hm. pose proof (poly1305_stream_mac key junk [m] Hk Hl Hj Hjl) as E.
  simpl in E. rewrite app_nil_r in E. apply E. auto.
Qed.

Lemma tag64_mac key m : bytes key -> length key = 32%nat -> bytes m ->
  poly1305_tag64 T junk key m = poly1305_mac key m.
Proof.
  intros Hk Hl Hm. pose proof (poly64_stream_mac T key junk [m] Hk Hl Hj Hjl) as E.
  simpl in E. rewrite app_nil_r in E. apply E. auto.
Qed.

Lemma x4_mac key m : bytes key -> length key = 32%nat -> bytes m ->
  poly1305_x4 T key m junk = poly1305_mac key m.
Proof. intros. by apply poly1305_x4_mac. Qed.
End tags.

Lemma sse2x4_stream key c nonce buf : 0 <= c < 2 ^ 32 ->
  chacha20_xor_sse2x4 key c nonce buf = chacha20_stream key c nonce buf.
Proof. intros. apply chacha20_xN_stream; [done|lia]. Qed.

Lemma avx2_stream key c nonce buf : 0 <= c < 2 ^ 32 ->
  chacha20_xor_avx2 key c nonce buf = chacha20_stream key c nonce buf.
Proof. intros. apply chacha20_xN_stream; [done|lia]. Qed.

(** ** Theorems *)

(** Every Poly1305 of the probe computes the RFC 8439 tag: the streaming
    26-bit and 64-bit implementations for any split of the message over calls
    to their [_update] (empty calls included) or for one call, and the one-shot
    four-chain implementation, with either 128-bit integer type, for any key and any
    earlier contents of the memory they do not initialise. *)
Theorem poly1305_implementations_agree T `{U128Laws T} key junk ms :
  bytes key -> length key = 32%nat -> bytes junk -> length junk = 16%nat ->
  Forall bytes ms ->
  poly1305_stream key junk ms = poly1305_mac key (concat ms) /\
  poly64_stream T key junk ms = poly1305_mac key (concat ms) /\
  poly1305_tag26 junk key (concat ms) = poly1305_mac key (concat ms) /\
  poly1305_tag64 T junk key (concat ms) = poly1305_mac key (concat ms) /\
  poly1305_x4 T key (concat ms) junk = poly1305_mac key (concat ms).
Proof.
  intros Hk Hkl Hj Hjl Hms. assert (Hm : bytes (concat ms)) by (by apply Forall_concat).
  split_and!.
  - by apply poly1305_stream_mac.
  - by apply poly64_stream_mac.
  - by apply tag26_mac.
  - by apply tag64_mac.
  - by apply poly1305_x4_mac.
Qed.

Lemma poly1305_implementations_agree_witness :
  let ms := [map Z.of_nat (seq 0 16); map Z.of_nat (seq 16 3); []; map Z.of_nat (seq 19 60)] in
  poly64_stream u128_msvc (map Z.of_nat (seq 100 32)) (replicate 16 0xa5) ms
  = poly1305_mac (map Z.of_nat (seq 100 32)) (concat ms).
Proof.
  intros ms.
  destruct (poly1305_implementations_agree u128_msvc (map Z.of_nat (seq 100 32))
    (replicate 16 0xa5) ms) as (_ & E & _); [..|exact E];
  repeat constructor; vm_compute; discriminate.
Defined.

Lemma seal_rounds_ext xor xor' tag tag' key nonce n st : bytes (fst st) -> Z.of_nat n < 2 ^ 32 ->
  (forall c p, 0 <= c < 2 ^ 32 -> bytes p -> xor key c nonce p = xor' key c nonce p /\
     bytes (xor key c nonce p)) ->
  (forall p, bytes p -> tag key p = tag' key p) ->
  seal_rounds xor tag key nonce n st = seal_rounds xor' tag' key nonce n st.
Proof.
  intros Hb Hn Hx Ht.
  enough (seal_rounds xor tag key nonce n st = seal_rounds xor' tag' key nonce n st /\
    bytes (fst (seal_rounds xor tag key nonce n st))) as [E _] by exact E.
  unfold seal_rounds. induction n as [|n IH]; [done|].
  rewrite !for_loop_S. destruct IH as [<- IHb]; [lia|].
  destruct (for_loop n _ st) as [p m]. simpl in *.
  destruct (Hx (Z.of_nat n) p) as [E Hbx]; [lia|done|]. rewrite <- E, <- Ht by done. done.
Qed.

(** The machine chooses how fast a page is sealed, never what is written:
    for any page and any number of rounds, the five sealing loops of [main]
    (scalar, SSE2 and AVX2 cipher, with the 26-bit or the four-chain MAC)
    leave the same page and the same tag. *)
Theorem sealing_independent_of_machine T `{U128Laws T} junk key nonce rounds page mac :
  bytes key -> length key = 32%nat -> bytes nonce -> length nonce = 12%nat ->
  bytes junk -> length junk = 16%nat -> bytes page -> Z.of_nat rounds < 2 ^ 32 ->
  let sealed := seal_scalar junk key nonce rounds (page, mac) in
  seal_sse2 junk key nonce rounds (page, mac) = sealed /\
  seal_avx2 junk key nonce rounds (page, mac) = sealed /\
  seal_sse2_x4 T junk key nonce rounds (page, mac) = sealed /\
  seal_avx2_x4 T junk key nonce rounds (page, mac) = sealed.
Proof.
  intros Hk Hkl Hn Hnl Hj Hjl Hp Hr.
  split_and!; apply seal_rounds_ext; try done; intros;
    rewrite ?sse2x4_stream, ?avx2_stream, ?chacha20_xor_hoisted_stream,
      ?tag26_mac, ?x4_mac by done; auto using bytes_chacha20_stream.
Qed.

Lemma sealing_independent_of_machine_witness :
  seal_avx2_x4 u128_native (replicate 16 0) (replicate 32 1) (replicate 12 100) 3
    (replicate 100 9, [])
  = seal_scalar (replicate 16 0) (replicate 32 1) (replicate 12 100) 3 (replicate 100 9, []).
Proof.
  destruct (sealing_independent_of_machine u128_native (replicate 16 0) (replicate 32 1)
    (replicate 12 100) 3 (replicate 100 9) []) as (_ & _ & _ & E); [..|exact E];
  repeat constructor; vm_compute; discriminate.
Defined.

(** The known-answer vectors of RFC 8439, sections 2.3.2 and 2.5.2, hold:
    the four checks of [kat_chacha20] and [kat_poly1305] all pass, with either
    128-bit integer type and whatever the uninitialised memory holds. *)
Theorem kat_vectors_pass T `{U128Laws T} junk t : bytes junk -> length junk = 16%nat ->
  kat_poly1305 T junk (kat_chacha20 t) = mk_tally (checks_run t + 4) (checks_failed t).
Proof.
  intros Hj Hjl. unfold kat_poly1305.
  rewrite tag26_mac, tag64_mac, x4_mac by
    (done || (repeat constructor; unfold is_byte; lia)).
  destruct t as [r f]. unfold kat_chacha20.
  match goal with |- context [same (chacha20_block ?k ?c ?n) ?w] =>
    replace (same (chacha20_block k c n) w) with true by (vm_compute; reflexivity) end.
  match goal with |- context [same (poly1305_mac ?k ?m) ?w] =>
    replace (same (poly1305_mac k m) w) with true by (vm_compute; reflexivity) end.
  unfold check. cbn [checks_run checks_failed]. f_equal. lia.
Qed.

Lemma kat_vectors_pass_witness :
  kat_poly1305 u128_msvc (replicate 16 0xcc) (kat_chacha20 (mk_tally 0 0)) = mk_tally 4 0.
Proof.
  apply (kat_vectors_pass u128_msvc (replicate 16 0xcc) (mk_tally 0 0));
    repeat constructor; vm_compute; discriminate.
Defined.

Lemma kat_a_stream : kat_a = chacha20_stream kat_key 0 kat_nonce (byte_array 200 (fun i => i)).
Proof. unfold kat_a. by apply chacha20_xor_stream. Qed.

Lemma length_kat_a : length kat_a = 200%nat.
Proof. by rewrite kat_a_stream, length_chacha20_stream, length_byte_array. Qed.

Lemma bytes_kat_a : bytes kat_a.
Proof. rewrite kat_a_stream. auto using bytes_chacha20_stream, bytes_byte_array. Qed.

Lemma xor_agrees_ok xor len :
  (forall p, bytes p -> xor kat_key 7 kat_nonce p = chacha20_stream kat_key 7 kat_nonce p) ->
  xor_agrees xor len = Some true.
Proof.
  intros Hx. unfold xor_agrees. rewrite Hx by auto with word.
  by rewrite chacha20_xor_hoisted_stream, same_refl by done.
Qed.

(** [b] encrypted in two calls, counters 0 and 1. *)
Lemma two_calls_stream :
  let b := byte_array 200 (fun i => i) in
  memcpy (memcpy b 0 (chacha20_xor kat_key 0 kat_nonce (take 64 (drop 0 b))))
    64 (chacha20_xor kat_key 1 kat_nonce (take 136 (drop 64 b))) = kat_a.
Proof.
  intros b. assert (Hb : length b = 200%nat) by apply length_byte_array.
  rewrite kat_a_stream, !chacha20_xor_stream, drop_0 by lia. fold b. clearbody b.
  rewrite <- (take_drop 64 b) at 4. rewrite (take_ge (drop 64 b)) by (rewrite length_drop; lia).
  rewrite chacha20_stream_app by (by rewrite length_take, Hb).
  rewrite (length_take b 64), Hb. change (u32 (0 + Z.of_nat (64 `min` 200 / 64))) with 1.
  unfold memcpy. rewrite !length_chacha20_stream, length_take, length_drop, Hb. simpl Nat.min.
  cbn [Nat.add Nat.sub]. rewrite take_0. simpl app at 2.
  rewrite take_app_le, take_ge by (rewrite length_chacha20_stream, length_take, Hb; lia).
  f_equal. rewrite (drop_ge (_ ++ _)).
  - by rewrite app_nil_r.
  - rewrite !length_app, length_chacha20_stream, length_take, length_drop. cbn [length]; lia.
Qed.

Lemma bind_ok {A B} (m : option A) x (f : A -> option B) y :
  m = Some x -> f x = y -> m ≫= f = y.
Proof. by intros -> <-. Qed.

Lemma bind_none {A B} (m : option A) (f : A -> option B) : m = None -> m ≫= f = None.
Proof. by intros ->. Qed.

Lemma check_ok t b : b = true -> check t b = mk_tally (checks_run t + 1) (checks_failed t).
Proof. by intros ->. Qed.

Lemma tally_add r f n : mk_tally (checks_run (mk_tally r f) + n) (checks_failed (mk_tally r f))
  = mk_tally (r + n) f.
Proof. done. Qed.

(** The ChaCha20 half of [kat_streaming] reads inside its arrays and every
    check of it passes: the two-call encryption, the hoisted routine, and the
    SSE2, four-block and (when the host has it) AVX2 routines at every length
    of their loops. *)
Theorem kat_streaming_chacha20_passes host_avx2 t :
  kat_streaming_chacha20 host_avx2 t
  = Some (mk_tally (checks_run t + (if host_avx2 then 5 else 4)) (checks_failed t)).
Proof.
  unfold kat_streaming_chacha20. destruct t as [r f].
  eapply bind_ok; [apply slice_ok; rewrite length_byte_array; lia|].
  eapply bind_ok; [apply slice_ok; rewrite length_byte_array; lia|]. cbv beta zeta.
  rewrite (check_ok (mk_tally r f)) by (apply same_refl; symmetry; apply two_calls_stream).
  rewrite (check_ok (mk_tally _ _)) by (apply same_refl; rewrite chacha20_xor_hoisted_stream by lia;
    apply kat_a_stream).
  rewrite !tally_add.
  eapply bind_ok; [apply every_length_ok; intros k _; apply xor_agrees_ok; intros;
    apply chacha20_xor_sse2_stream; [lia|apply bytes_byte_array|apply length_byte_array]|].
  eapply bind_ok; [apply every_length_ok; intros k _; apply xor_agrees_ok; intros;
    apply sse2x4_stream; lia|].
  rewrite !check_ok, !tally_add by reflexivity. destruct host_avx2; cycle 1.
  { cbn [checks_run checks_failed]. do 2 f_equal. lia. }
  eapply bind_ok; [apply every_length_ok; intros k _; apply xor_agrees_ok; intros;
    apply avx2_stream; lia|].
  rewrite !check_ok, !tally_add by reflexivity.
  cbn [checks_run checks_failed]. do 2 f_equal. lia.
Qed.

(** [kat_streaming] reads past its array: the comparison of the two
    streaming MACs is meant for lengths 0 to 300, but the message is the local
    array [a] of 200 bytes.  Every length up to 200 agrees, so the loop does
    not stop before it asks [poly1305_update] for 201 bytes of it. *)
Theorem kat_streaming_overruns_a T `{U128Laws T} junk host_avx2 t :
  bytes junk -> length junk = 16%nat ->
  (forall len, (len <= 200)%nat -> tags_26_64 T junk kat_a len = Some true) /\
  kat_streaming T junk host_avx2 t = None.
Proof.
  intros Hj Hjl.
  assert (Hkk : bytes kat_key) by apply bytes_byte_array.
  assert (Hkl : length kat_key = 32%nat) by apply length_byte_array.
  assert (Hok : forall len, (len <= 200)%nat -> tags_26_64 T junk kat_a len = Some true).
  { intros len Hlen. unfold tags_26_64. rewrite slice_ok by (rewrite length_kat_a; lia).
    cbn [mbind option_bind]. pose proof bytes_kat_a.
    rewrite tag26_mac, tag64_mac, same_refl by auto with word. done. }
  split; [done|]. unfold kat_streaming.
  destruct (kat_streaming_chacha20 host_avx2 t) as [t'|]; [|done].
  apply (bind_ok _ t'); [done|]. unfold kat_streaming_poly1305. cbv zeta.
  do 4 (eapply bind_ok; [apply slice_ok; rewrite length_kat_a; lia|]).
  apply bind_none, (every_length_overrun _ _ _ 201); [lia| |].
  - intros j Hj'. apply Hok. lia.
  - apply bind_none, slice_overrun. rewrite length_kat_a. lia.
Qed.

Lemma kat_streaming_overruns_a_witness :
  kat_streaming u128_native (replicate 16 0) true (mk_tally 4 0) = None.
Proof.
  destruct (kat_streaming_overruns_a u128_native (replicate 16 0) true (mk_tally 4 0))
    as [_ E]; [..|exact E]; repeat constructor; vm_compute; discriminate.
Defined.
