(* ===== verification/Crc32c.v ===== *)
(** * Crc32c: the checksum of every page, in C and in the engine

    [crc32c] of [benchmarks/lease_probe.c] is the probe's independent
    implementation; [src/core/checksum.asm] has the engine's, with a portable
    bit loop and a path on the SSE4.2 [crc32] instruction.  The instruction on
    a source of [8 * w] bits is modelled as that many steps of the reflected
    division on [crc xor src], which is its documented result. *)

From S2P Require Import Prelude.

Definition POLY : Z := 0x82F63B78.

(** ** [benchmarks/lease_probe.c] *)

(** [crc = (crc & 1) ? (crc >> 1) ^ POLY : crc >> 1]. *)
Definition crc_bit (crc : Z) : Z :=
  if (crc .& 1) =? 0 then crc .>> 1 else (crc .>> 1) .^ POLY.

Definition crc_byte (crc b : Z) : Z := for_loop 8 (fun _ crc => crc_bit crc) (crc .^ b).

Definition crc32c (data : list Z) : Z :=
  fold_left crc_byte data 0xFFFFFFFF .^ 0xFFFFFFFF.

(** ** [src/core/checksum.asm] *)

(** [shr eax, 1; jnc; xor eax, POLY]. *)
Definition asm_bit (eax : Z) : Z :=
  let carry := Z.testbit eax 0 in
  let eax := eax .>> 1 in
  if carry then eax .^ POLY else eax.

(** [.byte_loop], for a length above zero. *)
Definition asm_byte_loop (data : list Z) (eax : Z) : Z :=
  fold_left (fun eax b => for_loop 8 (fun _ eax => asm_bit eax) (eax .^ b)) data eax.

(** The instruction [crc32 dest, src] with a source of [w] bytes. *)
Definition crc32_insn (w : nat) (dest src : Z) : Z :=
  for_loop (8 * w) (fun _ x => asm_bit x) (dest .^ src).

Definition load_le (w : nat) (data : list Z) : Z := le_val (take w data).

(** [.hw_loop32]: four qwords per iteration. *)
Definition hw_loop32 (eax : Z) (data : list Z) : Z * list Z :=
  while_loop (length data) (fun '(_, data) => (32 <=? length data)%nat)
    (fun '(eax, data) =>
       let eax := crc32_insn 8 eax (load_le 8 data) in
       let eax := crc32_insn 8 eax (load_le 8 (drop 8 data)) in
       let eax := crc32_insn 8 eax (load_le 8 (drop 16 data)) in
       let eax := crc32_insn 8 eax (load_le 8 (drop 24 data)) in
       (eax, drop 32 data)) (eax, data).

(** [.hw_qword]. *)
Definition hw_qword (eax : Z) (data : list Z) : Z * list Z :=
  while_loop (length data) (fun '(_, data) => (8 <=? length data)%nat)
    (fun '(eax, data) => (crc32_insn 8 eax (load_le 8 data), drop 8 data)) (eax, data).

(** [.hw_tail], [.hw_word], [.hw_byte]: the low three bits of the length left. *)
Definition hw_tail (w : nat) (eax : Z) (data : list Z) (r11 : nat) : Z * list Z :=
  if Nat.testbit r11 (Nat.log2 w) then (crc32_insn w eax (load_le w data), drop w data)
  else (eax, data).

Definition asm_hardware (data : list Z) (eax : Z) : Z :=
  let '(eax, data) := hw_loop32 eax data in
  let '(eax, data) := hw_qword eax data in
  let r11 := length data in
  let '(eax, data) := hw_tail 4 eax data r11 in
  let '(eax, data) := hw_tail 2 eax data r11 in
  let '(eax, _) := hw_tail 1 eax data r11 in
  eax.

(** The routine: [hardware] is what [crc32c_force_scalar] and [cpu_has_sse42]
    decide. *)
Definition asm_crc32c (hardware : bool) (data : list Z) : Z :=
  let eax := 0xFFFFFFFF in
  if (length data =? 0)%nat then u32 (Z.lnot eax)
  else if hardware then u32 (Z.lnot (asm_hardware data eax))
  else u32 (Z.lnot (asm_byte_loop data eax)).

(** ** The bit step is linear *)

Lemma land_1_testbit x : (x .& 1 =? 0) = negb (Z.testbit x 0).
Proof.
  rewrite Z.bit0_odd. change 1 with (Z.ones 1). rewrite Z.land_ones, Zmod_odd by lia.
  by destruct (Z.odd x).
Qed.

Lemma crc_bit_asm x : crc_bit x = asm_bit x.
Proof. unfold crc_bit, asm_bit. rewrite land_1_testbit. by destruct (Z.testbit x 0). Qed.

Lemma asm_bit_lxor x y : asm_bit (x .^ y) = asm_bit x .^ asm_bit y.
Proof.
  unfold asm_bit. rewrite Z.lxor_spec, Z.shiftr_lxor.
  destruct (Z.testbit x 0), (Z.testbit y 0); simpl xorb; cbv iota;
    apply Z.bits_inj'; intros i _; rewrite !Z.lxor_spec;
    by destruct (Z.testbit (x .>> 1) i), (Z.testbit (y .>> 1) i), (Z.testbit POLY i).
Qed.

Definition steps (n : nat) (x : Z) : Z := for_loop n (fun _ x => asm_bit x) x.

Lemma steps_S n x : steps (S n) x = asm_bit (steps n x).
Proof. apply for_loop_S. Qed.

Lemma steps_add n m x : steps (n + m) x = steps m (steps n x).
Proof.
  induction m as [|m IH]; [by rewrite Nat.add_0_r|].
  by rewrite Nat.add_succ_r, !steps_S, IH.
Qed.

(** Bits that have not reached the bottom only move down. *)
Lemma steps_lxor_shift n x y : steps n (x .^ (y .<< Z.of_nat n)) = steps n x .^ y.
Proof.
  revert y. induction n as [|n IH]; intros y.
  - unfold steps. rewrite !for_loop_0. by rewrite Z.shiftl_0_r.
  - rewrite !steps_S. replace (Z.of_nat (S n)) with (1 + Z.of_nat n) by lia.
    rewrite <- Z.shiftl_shiftl by lia. rewrite IH, asm_bit_lxor. f_equal.
    unfold asm_bit. rewrite Z.shiftl_spec_low by lia. cbv iota.
    rewrite Z.shiftr_shiftl_l by lia. apply Z.shiftl_0_r.
Qed.

Lemma crc_byte_steps crc b : crc_byte crc b = steps 8 (crc .^ b).
Proof.
  unfold crc_byte, steps, for_loop. simpl. by rewrite !crc_bit_asm.
Qed.

(** One instruction on [w] bytes is [w] bytes of the bit loop. *)
Lemma crc32_insn_bytes l crc : bytes l ->
  crc32_insn (length l) crc (le_val l) = fold_left crc_byte l crc.
Proof.
  intros Hb. unfold crc32_insn. fold (steps (8 * length l) (crc .^ le_val l)).
  revert crc. induction Hb as [|b l Hbb Hb IH]; intros crc.
  - simpl. by rewrite Z.lxor_0_r.
  - cbn [length fold_left le_val]. rewrite <- IH, crc_byte_steps.
    replace (8 * S (length l))%nat with (8 + 8 * length l)%nat by lia.
    rewrite steps_add. f_equal. red in Hbb.
    replace (b + 2 ^ 8 * le_val l) with (b .^ (le_val l .<< Z.of_nat 8)).
    + rewrite <- Z.lxor_assoc. apply steps_lxor_shift.
    + change (Z.of_nat 8) with 8.
      rewrite Z.mul_comm, <- Z.shiftl_mul_pow2 by lia. symmetry. apply Z.add_nocarry_lxor.
      apply Z.bits_inj'. intros i Hi. rewrite Z.land_spec, Z.bits_0, Z.shiftl_spec by lia.
      destruct (Z.lt_ge_cases i 8); [rewrite (Z.testbit_neg_r _ (i - 8)) by lia; apply andb_false_r|].
      by rewrite (testbit_above b 8) by lia.
Qed.

Lemma insn_load w crc data : bytes data -> (w <= length data)%nat ->
  crc32_insn w crc (load_le w data) = fold_left crc_byte (take w data) crc.
Proof.
  intros Hb Hw. rewrite <- crc32_insn_bytes by auto with word.
  unfold load_le. by rewrite length_take_le by done.
Qed.

(** ** The hardware path *)

Lemma fold_crc_split n data crc :
  fold_left crc_byte data crc = fold_left crc_byte (drop n data) (fold_left crc_byte (take n data) crc).
Proof. rewrite <- fold_left_app. by rewrite take_drop. Qed.

Lemma hw_qword_ok fuel data crc : bytes data -> (length data <= fuel)%nat ->
  let '(crc', rest) := while_loop fuel (fun '(_, data) => (8 <=? length data)%nat)
    (fun '(eax, data) => (crc32_insn 8 eax (load_le 8 data), drop 8 data)) (crc, data) in
  bytes rest /\ (length rest < 8)%nat /\
  fold_left crc_byte rest crc' = fold_left crc_byte data crc.
Proof.
  revert data crc. induction fuel as [|fuel IH]; intros data crc Hb Hf; cbn [while_loop].
  { destruct data; [|simpl in Hf; lia]. split_and!; [done|simpl; lia|done]. }
  case_if; [|done]. rewrite insn_load by done.
  specialize (IH (drop 8 data) (fold_left crc_byte (take 8 data) crc) (bytes_drop _ _ Hb)).
  destruct (while_loop _ _ _ _) as [crc' rest].
  rewrite (fold_crc_split 8 data crc). apply IH. rewrite length_drop. lia.
Qed.

Lemma hw_loop32_ok fuel data crc : bytes data ->
  let '(crc', rest) := while_loop fuel (fun '(_, data) => (32 <=? length data)%nat)
    (fun '(eax, data) =>
       let eax := crc32_insn 8 eax (load_le 8 data) in
       let eax := crc32_insn 8 eax (load_le 8 (drop 8 data)) in
       let eax := crc32_insn 8 eax (load_le 8 (drop 16 data)) in
       let eax := crc32_insn 8 eax (load_le 8 (drop 24 data)) in
       (eax, drop 32 data)) (crc, data) in
  bytes rest /\ fold_left crc_byte rest crc' = fold_left crc_byte data crc.
Proof.
  revert data crc. induction fuel as [|fuel IH]; intros data crc Hb; cbn [while_loop]; [done|].
  case_if; [|done]. cbv zeta.
  rewrite !insn_load by (rewrite ?length_drop; auto with word lia).
  match goal with |- context [while_loop fuel _ _ (?x, drop 32 data)] =>
    specialize (IH (drop 32 data) x (bytes_drop _ _ Hb)); destruct (while_loop _ _ _ _) as [crc' rest]
  end. destruct IH as [? ->]. split; [done|].
  rewrite (fold_crc_split 8 data), (fold_crc_split 8 (drop 8 data)), drop_drop,
    (fold_crc_split 8 (drop 16 data)), drop_drop, (fold_crc_split 8 (drop 24 data)), drop_drop. done.
Qed.

(** One of the three tail steps, on a length whose bits above are spent. *)
Lemma hw_tail_ok k crc data : bytes data -> (length data < 2 ^ (k + 1))%nat ->
  let '(crc', rest) := hw_tail (2 ^ k) crc data (length data) in
  bytes rest /\ (length rest = length data mod 2 ^ k)%nat /\
  fold_left crc_byte rest crc' = fold_left crc_byte data crc.
Proof.
  intros Hb Hl. unfold hw_tail. rewrite Nat.log2_pow2 by lia.
  rewrite Nat.pow_add_r in Hl. simpl (2 ^ 1)%nat in Hl.
  assert (Hp : (2 ^ k <> 0)%nat) by (apply Nat.pow_nonzero; lia).
  destruct (Nat.testbit (length data) k) eqn:E.
  - assert (Hge : (2 ^ k <= length data)%nat).
    { destruct (Nat.le_gt_cases (2 ^ k) (length data)) as [|Hlt]; [done|].
      rewrite Nat.testbit_eqb, Nat.div_small in E by done. discriminate. }
    rewrite insn_load by done. split_and!; [auto with word| |by rewrite (fold_crc_split (2 ^ k) data)].
    rewrite length_drop. apply (Nat.mod_unique _ _ 1); lia.
  - assert (Hlt : (length data < 2 ^ k)%nat).
    { destruct (Nat.le_gt_cases (2 ^ k) (length data)) as [Hge|]; [|done].
      rewrite Nat.testbit_eqb in E. replace (length data / 2 ^ k)%nat with 1%nat in E; [discriminate|].
      apply (Nat.div_unique _ _ 1 (length data - 2 ^ k)); lia. }
    split_and!; [done|by rewrite Nat.mod_small|done].
Qed.

Lemma hw_tail_mod k n w eax data : (n < 8)%nat -> (k < w <= 3)%nat ->
  hw_tail (2 ^ k) eax data n = hw_tail (2 ^ k) eax data (n mod 2 ^ w).
Proof.
  intros Hn Hk. unfold hw_tail. rewrite Nat.log2_pow2 by lia.
  replace (Nat.testbit (n mod 2 ^ w) k) with (Nat.testbit n k); [done|].
  by rewrite Nat.mod_pow2_bits_low by lia.
Qed.

Lemma asm_hardware_ok data crc : bytes data ->
  asm_hardware data crc = fold_left crc_byte data crc.
Proof.
  intros Hb. unfold asm_hardware, hw_loop32, hw_qword.
  pose proof (hw_loop32_ok (length data) data crc Hb) as H1.
  destruct (while_loop _ _ _ (crc, data)) as [crc1 d1]. destruct H1 as [Hb1 <-].
  pose proof (hw_qword_ok (length d1) d1 crc1 Hb1 (Nat.le_refl _)) as H2.
  destruct (while_loop _ _ _ (crc1, d1)) as [crc2 d2]. destruct H2 as (Hb2 & Hl2 & <-).
  pose proof (hw_tail_ok 2 crc2 d2 Hb2 Hl2) as H3. change (2 ^ 2)%nat with 4%nat in H3.
  destruct (hw_tail 4 crc2 d2 _) as [crc3 d3]. destruct H3 as (Hb3 & Hl3 & <-).
  pose proof (hw_tail_ok 1 crc3 d3 Hb3 ltac:(rewrite Hl3; apply Nat.mod_upper_bound; done)) as H4.
  rewrite (hw_tail_mod 1 (length d2) 2) by (done || lia). change (2 ^ 2)%nat with 4%nat.
  rewrite <- Hl3. change (2 ^ 1)%nat with 2%nat in H4 |- *.
  destruct (hw_tail 2 crc3 d3 _) as [crc4 d4]. destruct H4 as (Hb4 & Hl4 & <-).
  pose proof (hw_tail_ok 0 crc4 d4 Hb4 ltac:(rewrite Hl4; apply Nat.mod_upper_bound; done)) as H5.
  rewrite (hw_tail_mod 0 (length d2) 1) by (done || lia).
  replace (length d2 mod 2 ^ 1)%nat with (length d4) by (rewrite Hl4, Hl3; simpl (2 ^ 1)%nat; lia).
  change (2 ^ 0)%nat with 1%nat in H5 |- *.
  destruct (hw_tail 1 crc4 d4 _) as [crc5 d5]. destruct H5 as (_ & Hl5 & <-).
  rewrite Nat.mod_1_r in Hl5. by destruct d5.
Qed.

(** ** Range *)

Lemma asm_bit_range x : 0 <= x < 2 ^ 32 -> 0 <= asm_bit x < 2 ^ 32.
Proof.
  intros Hx. unfold asm_bit. rewrite Z.shiftr_div_pow2 by lia. case_if; [|lia].
  apply lxor_nonneg_range; unfold POLY; lia.
Qed.

Lemma crc_byte_range crc b : 0 <= crc < 2 ^ 32 -> is_byte b -> 0 <= crc_byte crc b < 2 ^ 32.
Proof.
  intros Hc Hb. rewrite crc_byte_steps. unfold steps.
  apply (for_loop_ind (fun _ x => 0 <= x < 2 ^ 32)).
  - apply lxor_nonneg_range; [lia|done|]. red in Hb. lia.
  - intros i x _. apply asm_bit_range.
Qed.

Lemma crc_fold_range data crc : bytes data -> 0 <= crc < 2 ^ 32 ->
  0 <= fold_left crc_byte data crc < 2 ^ 32.
Proof.
  intros Hb. revert crc. induction Hb as [|b l Hbb Hb IH]; intros crc Hc; [done|].
  simpl. apply IH. by apply crc_byte_range.
Qed.

Lemma crc32c_range data : bytes data -> 0 <= crc32c data < 2 ^ 32.
Proof.
  intros Hb. unfold crc32c. apply lxor_nonneg_range; [lia| |lia].
  apply crc_fold_range; [done|lia].
Qed.

(** [not eax] is [xor] with all ones. *)
Lemma lnot32 x : 0 <= x < 2 ^ 32 -> u32 (Z.lnot x) = x .^ 0xFFFFFFFF.
Proof.
  intros Hx. apply Z.bits_inj'. intros i Hi. unfold u32.
  change 0xFFFFFFFF with (Z.ones 32). rewrite Z.lxor_spec.
  destruct (Z.lt_ge_cases i 32).
  - rewrite Z.mod_pow2_bits_low, Z.lnot_spec, Z.ones_spec_low by lia. by destruct (Z.testbit x i).
  - rewrite Z.mod_pow2_bits_high, Z.ones_spec_high, (testbit_above x 32) by lia. done.
Qed.

(** C40: the engine and the probe compute one checksum: for every byte string,
    the SSE4.2 path (32 bytes at a time, then qwords, then the tail), the
    portable bit loop and the probe's C routine return the same 32-bit value. *)
Theorem crc32c_paths_agree hardware data : bytes data ->
  asm_crc32c hardware data = crc32c data /\ 0 <= crc32c data < 2 ^ 32.
Proof.
  intros Hb. split; [|by apply crc32c_range]. unfold asm_crc32c, crc32c.
  pose proof (crc_fold_range data 0xFFFFFFFF Hb ltac:(lia)) as Hr.
  case_if; [destruct data; [done|simpl in *; lia]|].
  destruct hardware; [by rewrite asm_hardware_ok, lnot32|].
  replace (asm_byte_loop data 0xFFFFFFFF) with (fold_left crc_byte data 0xFFFFFFFF);
    [by rewrite lnot32|].
  unfold asm_byte_loop. clear Hr. generalize 0xFFFFFFFF. clear Hb E.
  induction data as [|b l IH]; intros crc; [done|]. simpl fold_left at 1 2.
  rewrite crc_byte_steps. apply IH.
Qed.

(** ["123456789"], the vector of the format's documentation. *)
Lemma crc32c_paths_agree_witness :
  asm_crc32c true [0x31; 0x32; 0x33; 0x34; 0x35; 0x36; 0x37; 0x38; 0x39] = 0xE3069283.
Proof.
  eapply eq_trans; [eapply (crc32c_paths_agree true)|vm_compute; reflexivity].
  repeat constructor; vm_compute; discriminate.
Defined.
