(* ===== verification/CacheProbe.v ===== *)
(** * CacheProbe: the set-associative page cache and its three policies

    [benchmarks/cache_probe.c]: the generator, the two index functions, the
    cache with its clock, LRU and probation policies, and the workloads that
    drive it.  A [uint8_t] flag is a [bool]; array indexes, set counts and way
    counts are [nat], page numbers, stamps and counters 64-bit words. *)

From Stdlib Require Import Sorted.
From S2P Require Import Prelude.

Definition PAGES : Z := 60000.
Definition CAPACITY : nat := Z.to_nat 8192.
Definition WARM : nat := 200 * 1000.
Definition MEASURED : nat := 2000 * 1000.
Definition HOT_BASE : Z := 21737.

(** ** The generator *)

Definition next_random (rng : Z) : Z :=
  let rng := rng .^ u64 (rng .<< 13) in
  let rng := rng .^ (rng .>> 7) in
  rng .^ u64 (rng .<< 17).

Definition reseed (s : Z) : Z := if s =? 0 then 1 else s.

(** ** The index *)

Inductive hash := HASH_LOW | HASH_MIX.

Definition index_of (h : hash) (page : Z) (sets : nat) : nat :=
  match h with
  | HASH_LOW => Z.to_nat (u32 (page .& u32 (Z.of_nat sets - 1)))
  | HASH_MIX =>
      Z.to_nat (u32 (u64 (page * 0x9E3779B97F4A7C15) .>> 40) .& u32 (Z.of_nat sets - 1))
  end.

(** ** The cache *)

Inductive policy := POLICY_CLOCK | POLICY_LRU | POLICY_PROBATION.

Definition EMPTY : Z := UINT64_MAX.

Record slot := mk_slot {
  page : Z;
  stamp : Z;
  referenced : bool;
  resident : bool;
}.

#[export] Instance slot_inhabited : Inhabited slot := populate (mk_slot EMPTY 0 false false).

Record cache := mk_cache {
  slots : list slot;
  sets : nat;
  ways : nat;
  hand : list nat;
  hash_of : hash;
  policy_of : policy;
  clock : Z;
  hits : Z;
  misses : Z;
}.

Definition cache_init (ways : nat) (h : hash) (p : policy) : cache :=
  let sets := (CAPACITY / ways)%nat in
  mk_cache (replicate CAPACITY (mk_slot EMPTY 0 false false)) sets ways (replicate sets 0%nat)
           h p 0 0 0.

(** [for (i...) if (eligible i && s[i].stamp < oldest) { oldest = ...; victim = i; }]
    from [oldest = UINT64_MAX]; the last component is [found]. *)
Definition oldest_slot (s : nat -> slot) (eligible : slot -> bool) (ways victim : nat)
    : Z * nat * bool :=
  for_loop ways (fun i '(oldest, victim, found) =>
    if eligible (s i) && (stamp (s i) <? oldest) then (stamp (s i), i, true)
    else (oldest, victim, found)) (UINT64_MAX, victim, false).

(** The clock hand's [for (;;)]: clear and pass every referenced slot. *)
Definition clock_sweep (fuel : nat) (base ways : nat) (slots : list slot) (victim : nat)
    : list slot * nat :=
  while_loop fuel
    (fun '(slots, victim) => referenced (slots !!! (base + victim)%nat))
    (fun '(slots, victim) =>
       let sl := slots !!! (base + victim)%nat in
       (<[(base + victim)%nat := mk_slot (page sl) (stamp sl) false (resident sl)]> slots,
        ((victim + 1) mod ways)%nat))
    (slots, victim).

(** The slot to replace in a set: the slots with the clock's flags cleared, the
    hands, and the victim. *)
Definition choose_victim (c : cache) (set base : nat) : list slot * list nat * nat :=
  let s i := slots c !!! (base + i)%nat in
  match first_from (fun i => page (s i) =? EMPTY) 0 (ways c) with
  | Some i => (slots c, hand c, i)
  | None =>
      match policy_of c with
      | POLICY_LRU =>
          let '(_, victim, _) := oldest_slot s (fun _ => true) (ways c) 0 in
          (slots c, hand c, victim)
      | POLICY_CLOCK =>
          let '(slots, victim) :=
            clock_sweep (ways c) base (ways c) (slots c) (hand c !!! set) in
          (slots, <[set := ((victim + 1) mod ways c)%nat]> (hand c), victim)
      | POLICY_PROBATION =>
          let '(_, victim, found) := oldest_slot s (fun sl => negb (resident sl)) (ways c) 0 in
          if found then (slots c, hand c, victim)
          else
            let '(_, victim, _) := oldest_slot s (fun _ => true) (ways c) victim in
            (slots c, hand c, victim)
      end
  end.

(** The cache after the access, and whether it was a hit. *)
Definition cache_get (c : cache) (pg : Z) : cache * bool :=
  let set := index_of (hash_of c) pg (sets c) in
  let base := (set * ways c)%nat in
  let clock := u64 (clock c + 1) in
  match first_from (fun i => page (slots c !!! (base + i)%nat) =? pg) 0 (ways c) with
  | Some i =>
      (mk_cache (<[(base + i)%nat :=
                    mk_slot (page (slots c !!! (base + i)%nat)) clock true true]> (slots c))
                (sets c) (ways c) (hand c) (hash_of c) (policy_of c) clock
                (u64 (hits c + 1)) (misses c), true)
  | None =>
      let '(slots, hand, victim) := choose_victim c set base in
      (mk_cache (<[(base + victim)%nat := mk_slot pg clock false false]> slots)
                (sets c) (ways c) hand (hash_of c) (policy_of c) clock
                (hits c) (u64 (misses c + 1)), false)
  end.

(** ** The workloads: each returns the page and the generator *)

Definition hot_page (rng : Z) : Z * Z :=
  let rng := next_random rng in
  let bucket := rng .& 7 in
  let span := PAGES .>> (bucket + 1) in
  let span := if span =? 0 then 1 else span in
  let rng := next_random rng in
  ((HOT_BASE + rng mod span) mod PAGES, rng).

Definition uniform_page (rng : Z) : Z * Z :=
  let rng := next_random rng in (rng mod PAGES, rng).

(** The page, the cursor, what is left of the run, and the generator. *)
Definition run_page (cursor lft rng : Z) : Z * Z * Z * Z :=
  let '(cursor, lft, rng) :=
    if lft =? 0 then
      let starts := Z.of_nat CAPACITY / 8 in
      let rng := next_random rng in
      let cursor := (HOT_BASE + (rng mod starts) * 8) mod PAGES in
      let rng := next_random rng in
      (cursor, 4 + rng mod 12, rng)
    else (cursor, lft, rng) in
  (cursor mod PAGES, u64 (cursor + 1), u64 (lft - 1), rng).

Inductive workload := W_UNIFORM | W_HOT | W_RUNS | W_SCAN_STORM.

(** The variables of [run_workload]'s loop. *)
Record run := mk_run {
  run_cache : cache;
  rng_state : Z;
  cursor : Z;
  run_left : Z;
  scan_at : Z;
  point_hits : Z;
  point_total : Z;
}.

(** The page of iteration [i], and whether it is part of the scan. *)
Definition next_page (w : workload) (i : nat) (r : run) : Z * bool * run :=
  match w with
  | W_UNIFORM =>
      let '(pg, rng) := uniform_page (rng_state r) in
      (pg, false, mk_run (run_cache r) rng (cursor r) (run_left r) (scan_at r)
                         (point_hits r) (point_total r))
  | W_HOT =>
      let '(pg, rng) := hot_page (rng_state r) in
      (pg, false, mk_run (run_cache r) rng (cursor r) (run_left r) (scan_at r)
                         (point_hits r) (point_total r))
  | W_RUNS =>
      let '(pg, cur, lft, rng) := run_page (cursor r) (run_left r) (rng_state r) in
      (pg, false, mk_run (run_cache r) rng cur lft (scan_at r) (point_hits r) (point_total r))
  | W_SCAN_STORM =>
      if (i mod 10 =? 0)%nat then
        (scan_at r mod PAGES, true,
         mk_run (run_cache r) (rng_state r) (cursor r) (run_left r) (u64 (scan_at r + 1))
                (point_hits r) (point_total r))
      else
        let '(pg, rng) := hot_page (rng_state r) in
        (pg, false, mk_run (run_cache r) rng (cursor r) (run_left r) (scan_at r)
                           (point_hits r) (point_total r))
  end.

Definition run_step (warm : nat) (w : workload) (i : nat) (r : run) : run :=
  let '(pg, is_scan, r) := next_page w i r in
  let '(c, hit) := cache_get (run_cache r) pg in
  let measured := (warm <=? i)%nat && negb is_scan in
  mk_run c (rng_state r) (cursor r) (run_left r) (scan_at r)
    (if measured && hit then u64 (point_hits r + 1) else point_hits r)
    (if measured then u64 (point_total r + 1) else point_total r).

(** [run_workload], with the lengths of its warm-up and of its measurement. *)
Definition run_workload (warm measured : nat) (c : cache) (w : workload) (seed : Z) : run :=
  let c := mk_cache (slots c) (sets c) (ways c) (hand c) (hash_of c) (policy_of c)
                    (clock c) 0 0 in
  for_loop (warm + measured) (run_step warm w) (mk_run c (reseed seed) 0 0 0 0 0).

(** The hit rate it returns, as the fraction [numerator / denominator]; [0]
    when the scan storm had no point query. *)
Definition hit_rate (w : workload) (r : run) : Z * Z :=
  match w with
  | W_SCAN_STORM => if point_total r =? 0 then (0, 1) else (point_hits r, point_total r)
  | _ => (hits (run_cache r), u64 (hits (run_cache r) + misses (run_cache r)))
  end.

(** ** The index stays inside the array *)

Lemma index_of_lt h pg k : (k <= 31)%nat -> (index_of h pg (2 ^ k) < 2 ^ k)%nat.
Proof.
  intros Hk. assert (Hp : Z.of_nat (2 ^ k) = 2 ^ Z.of_nat k) by (by rewrite Nat2Z.inj_pow).
  assert (0 < 2 ^ Z.of_nat k <= 2 ^ 31).
  { split; [lia|]. apply Z.pow_le_mono_r; lia. }
  unfold index_of. rewrite Hp, (u32_small (_ - 1)) by lia. rewrite !land_mask by lia.
  pose proof (Z.mod_pos_bound pg (2 ^ Z.of_nat k)).
  pose proof (Z.mod_pos_bound (u32 (u64 (pg * 0x9E3779B97F4A7C15) .>> 40)) (2 ^ Z.of_nat k)).
  destruct h; [rewrite u32_small by lia|]; lia.
Qed.

(** ** The invariant

    Only the page numbers matter to what the cache holds; stamps, flags and
    hands only choose the victim. *)

Definition pages (sl : list slot) : list Z := map page sl.

Definition set_of (c : cache) (pg : Z) : nat := index_of (hash_of c) pg (sets c).

Record cache_wf (c : cache) : Prop := {
  wf_ways : (0 < ways c)%nat;
  wf_sets : exists k, (k <= 31)%nat /\ sets c = (2 ^ k)%nat;
  wf_len : length (slots c) = (sets c * ways c)%nat;
  wf_hand : length (hand c) = sets c /\ Forall (fun h => h < ways c)%nat (hand c);
  (** a page is only ever in its own set *)
  wf_place j pg : pages (slots c) !! j = Some pg -> pg <> EMPTY ->
    (j / ways c)%nat = set_of c pg;
  (** and in one slot of it *)
  wf_uniq j1 j2 pg : pg <> EMPTY -> pages (slots c) !! j1 = Some pg ->
    pages (slots c) !! j2 = Some pg -> j1 = j2;
}.

Definition cached (c : cache) (pg : Z) : Prop := exists j, pages (slots c) !! j = Some pg.

(** The slots of a set. *)
Definition in_set (c : cache) (set j : nat) : Prop := (j / ways c)%nat = set /\ (j < length (slots c))%nat.

Lemma set_of_lt c pg : cache_wf c -> (set_of c pg < sets c)%nat.
Proof. intros Hwf. destruct (wf_sets c Hwf) as (k & Hk & E). unfold set_of. rewrite E. by apply index_of_lt. Qed.

Lemma slot_index c set i : cache_wf c -> (set < sets c)%nat -> (i < ways c)%nat ->
  in_set c set (set * ways c + i).
Proof.
  intros Hwf Hs Hi. pose proof (wf_ways c Hwf). unfold in_set. rewrite (wf_len c Hwf). split.
  - rewrite Nat.div_add_l, Nat.div_small by lia. lia.
  - nia.
Qed.

Lemma in_set_index c set j : cache_wf c -> in_set c set j ->
  exists i, (i < ways c)%nat /\ j = (set * ways c + i)%nat.
Proof.
  intros Hwf [<- Hj]. pose proof (wf_ways c Hwf). exists (j mod ways c)%nat.
  split; [apply Nat.mod_upper_bound; lia|]. rewrite Nat.mul_comm. apply Nat.div_mod. lia.
Qed.

Lemma pages_lookup sl j : (j < length sl)%nat -> pages sl !! j = Some (page (sl !!! j)).
Proof.
  intros Hj. unfold pages. rewrite lookup_map.
  destruct (lookup_lt_is_Some_2 sl j Hj) as [x Hx]. by rewrite list_lookup_total_alt, Hx.
Qed.

Lemma length_pages sl : length (pages sl) = length sl.
Proof. apply length_map. Qed.

Lemma pages_insert sl j x : pages (<[j := x]> sl) = <[j := page x]> (pages sl).
Proof. apply map_insert. Qed.

(** ** The clock hand *)

Lemma clock_sweep_pages fuel base w sl v : (base + w <= length sl)%nat -> (v < w)%nat ->
  let '(sl', v') := clock_sweep fuel base w sl v in
  pages sl' = pages sl /\ length sl' = length sl /\ (v' < w)%nat.
Proof.
  unfold clock_sweep. revert sl v. induction fuel as [|fuel IH]; intros sl v Hl Hv; simpl; [done|].
  case_if; [|done].
  assert (Hv' : ((v + 1) mod w < w)%nat) by (apply Nat.mod_upper_bound; lia).
  specialize (IH (<[(base + v)%nat := mk_slot (page (sl !!! (base + v)%nat))
    (stamp (sl !!! (base + v)%nat)) false (resident (sl !!! (base + v)%nat))]> sl)
    ((v + 1) mod w)%nat). rewrite length_insert in IH. specialize (IH Hl Hv').
  destruct (while_loop _ _ _ _) as [sl' v'']. destruct IH as (-> & -> & ?).
  split_and!; [|done|done]. rewrite pages_insert. simpl.
  apply list_insert_id. apply pages_lookup. lia.
Qed.

Lemma cyclic_ne w v d : (v < w)%nat -> (0 < d < w)%nat -> ((v + d) mod w <> v)%nat.
Proof.
  intros Hv Hd. destruct (decide (v + d < w)%nat).
  - rewrite Nat.mod_small by lia. lia.
  - replace (v + d)%nat with ((v + d - w) + 1 * w)%nat by lia.
    rewrite Nat.Div0.mod_add, Nat.mod_small by lia. lia.
Qed.

Lemma cyclic_succ w v d : (((v + 1) mod w + d) mod w = (v + S d) mod w)%nat.
Proof. rewrite Nat.Div0.add_mod_idemp_l. f_equal. lia. Qed.

(** One step of the sweep: the flag of [v] is cleared, the others stay. *)
Lemma sweep_flag base w sl v i : (base + w <= length sl)%nat -> (v < w)%nat -> (i < w)%nat ->
  let sl' := <[(base + v)%nat := mk_slot (page (sl !!! (base + v)%nat))
    (stamp (sl !!! (base + v)%nat)) false (resident (sl !!! (base + v)%nat))]> sl in
  referenced (sl' !!! (base + i)%nat)
  = if (i =? v)%nat then false else referenced (sl !!! (base + i)%nat).
Proof.
  intros Hl Hv Hi sl'. subst sl'. destruct (decide (i = v)) as [->|].
  - rewrite Nat.eqb_refl, list_lookup_total_insert_eq by lia. done.
  - rewrite list_lookup_total_insert_ne by lia. by case_if; [lia|].
Qed.

(** The hand stops at the first clear flag it meets. *)
Lemma sweep_reaches fuel base w sl v k : (base + w <= length sl)%nat -> (v < w)%nat ->
  (k < w)%nat -> (k <= fuel)%nat ->
  (forall d, (d < k)%nat -> referenced (sl !!! (base + (v + d) mod w)%nat) = true) ->
  referenced (sl !!! (base + (v + k) mod w)%nat) = false ->
  let '(sl', v') := clock_sweep fuel base w sl v in
  v' = ((v + k) mod w)%nat /\ referenced (sl' !!! (base + v')%nat) = false.
Proof.
  unfold clock_sweep. revert fuel sl v. induction k as [|k IH]; intros fuel sl v Hl Hv Hk Hf Hset Hclr.
  - rewrite Nat.add_0_r, Nat.mod_small in Hclr |- * by done.
    destruct fuel; simpl; [done|]. by rewrite Hclr.
  - destruct fuel as [|fuel]; [lia|]. cbn [while_loop].
    specialize (Hset O ltac:(lia)) as H0. rewrite Nat.add_0_r, Nat.mod_small in H0 by done.
    rewrite H0. rewrite <- (cyclic_succ w v k) in Hclr |- *.
    assert (Hv' : ((v + 1) mod w < w)%nat) by (apply Nat.mod_upper_bound; lia).
    apply (IH fuel); [by rewrite length_insert|done|lia|lia| |].
    + intros d Hd. rewrite cyclic_succ, (sweep_flag base w) by (done || apply Nat.mod_upper_bound; lia).
      destruct (Nat.eqb_spec ((v + S d) mod w) v) as [E|];
        [by apply cyclic_ne in E; [|lia|lia]|]. apply Hset. lia.
    + rewrite (sweep_flag base w) by (done || apply Nat.mod_upper_bound; lia). by case_if.
Qed.

(** ** The scans for the oldest slot *)

Lemma oldest_slot_spec s eligible w v0 :
  let '(oldest, v, found) := oldest_slot s eligible w v0 in
  if (found : bool)
  then (v < w)%nat /\ eligible (s v) = true /\ oldest = stamp (s v) /\
       (forall i, (i < w)%nat -> eligible (s i) = true -> stamp (s v) <= stamp (s i)) /\
       stamp (s v) < UINT64_MAX
  else v = v0 /\ forall i, (i < w)%nat -> eligible (s i) = true -> UINT64_MAX <= stamp (s i).
Proof.
  unfold oldest_slot.
  set (body := fun i '(oldest, victim, found) => _).
  enough (forall n, let '(oldest, v, found) := for_loop n body (UINT64_MAX, v0, false) in
    if (found : bool)
    then (v < n)%nat /\ eligible (s v) = true /\ oldest = stamp (s v) /\
         (forall i, (i < n)%nat -> eligible (s i) = true -> stamp (s v) <= stamp (s i)) /\
         stamp (s v) < UINT64_MAX
    else oldest = UINT64_MAX /\ v = v0 /\
         forall i, (i < n)%nat -> eligible (s i) = true -> UINT64_MAX <= stamp (s i)) as H.
  { specialize (H w). destruct (for_loop w body _) as [[o v] [|]]; tauto. }
  induction n as [|n IH]; [simpl; split_and!; [done|done|lia]|].
  rewrite for_loop_S. destruct (for_loop n body _) as [[o v] f]. unfold body.
  destruct (eligible (s n) && (stamp (s n) <? o)) eqn:E; bool_to_prop.
  - split_and!; [lia|done|done| |].
    + intros i Hi He. destruct (decide (i = n)) as [->|]; [lia|].
      destruct f; [destruct IH as (_ & _ & -> & Hle & _)|destruct IH as (-> & _ & Hle)];
        specialize (Hle i ltac:(lia) He); lia.
    + destruct f; [destruct IH as (_ & _ & -> & _ & ?)|destruct IH as (-> & _)]; lia.
  - assert (He : eligible (s n) = true -> o <= stamp (s n)).
    { intros He. rewrite He in E. simpl in E. lia. }
    destruct f.
    + destruct IH as (? & ? & -> & Hle & ?). split_and!; [lia|done|done| |done].
      intros i Hi Hi'. destruct (decide (i = n)) as [->|]; [by apply He|]. apply Hle; [lia|done].
    + destruct IH as (-> & -> & Hle). split_and!; [done|done|].
      intros i Hi Hi'. destruct (decide (i = n)) as [->|]; [by apply He|]. apply Hle; [lia|done].
Qed.

Lemma oldest_slot_lt s eligible w v0 : (v0 < w)%nat ->
  (snd (fst (oldest_slot s eligible w v0)) < w)%nat.
Proof.
  intros Hv. pose proof (oldest_slot_spec s eligible w v0) as H.
  destruct (oldest_slot _ _ _ _) as [[o v] [|]]; simpl; [tauto|]. by destruct H as [-> _].
Qed.

(** ** What [choose_victim] leaves alone, and that an empty slot goes first *)

Lemma choose_victim_ok c set : cache_wf c -> (set < sets c)%nat ->
  let base := (set * ways c)%nat in
  let '(sl, hd, v) := choose_victim c set base in
  pages sl = pages (slots c) /\ length sl = length (slots c) /\ (v < ways c)%nat /\
  length hd = sets c /\ Forall (fun h => h < ways c)%nat hd /\
  (forall j, in_set c set j -> pages (slots c) !! j = Some EMPTY ->
     pages (slots c) !! (base + v)%nat = Some EMPTY).
Proof.
  intros Hwf Hs base. pose proof (wf_ways c Hwf) as Hw. destruct (wf_hand c Hwf) as [Hh Hhf].
  assert (Hbase : (base + ways c <= length (slots c))%nat) by (rewrite (wf_len c Hwf); nia).
  unfold choose_victim. destruct (first_from _ _ _) as [i|] eqn:Ef.
  { apply first_from_Some in Ef as (? & Ei & _). bool_to_prop.
    split_and!; try done; [lia|]. intros _ _ _. rewrite pages_lookup by lia. by rewrite Ei. }
  assert (Hfull : forall j, in_set c set j -> pages (slots c) !! j <> Some EMPTY).
  { intros j Hj E. apply in_set_index in Hj as (i & Hi & ->); [|done].
    pose proof (first_from_None _ _ _ Ef i ltac:(lia)) as Hn. cbv beta in Hn. bool_to_prop.
    rewrite pages_lookup in E by (subst base; lia). fold base in E. congruence. }
  assert (Hlru : forall e v0, (v0 < ways c)%nat ->
    (snd (fst (oldest_slot (fun i => slots c !!! (base + i)%nat) e (ways c) v0)) < ways c)%nat)
    by (intros; by apply oldest_slot_lt).
  destruct (policy_of c).
  - assert (Hv : (hand c !!! set < ways c)%nat).
    { destruct (lookup_lt_is_Some_2 (hand c) set) as [h Eh]; [lia|].
      rewrite list_lookup_total_alt, Eh. by eapply (Forall_lookup_1 _ _ _ _ Hhf) in Eh. }
    pose proof (clock_sweep_pages (ways c) base (ways c) (slots c) _ Hbase Hv) as H.
    destruct (clock_sweep _ _ _ _ _) as [sl v]. destruct H as (-> & -> & ?).
    split_and!; try done; [by rewrite length_insert| |naive_solver].
    apply Forall_insert; [done|]. apply Nat.mod_upper_bound. lia.
  - specialize (Hlru (fun _ => true) 0%nat Hw). destruct (oldest_slot _ _ _ _) as [[o v] f].
    split_and!; try done. naive_solver.
  - pose proof (Hlru (fun sl => negb (resident sl)) 0%nat Hw) as H1.
    destruct (oldest_slot _ _ _ 0) as [[o v] [|]]; [split_and!; try done; naive_solver|].
    specialize (Hlru (fun _ => true) v H1). destruct (oldest_slot _ _ _ v) as [[o' v'] f'].
    split_and!; try done. naive_solver.
Qed.

(** ** One access *)

(** A miss replaces one slot of the page's own set. *)
Lemma wf_replace c c' pg j : cache_wf c -> 0 <= pg < EMPTY -> ~ cached c pg ->
  in_set c (set_of c pg) j ->
  pages (slots c') = <[j := pg]> (pages (slots c)) ->
  sets c' = sets c -> ways c' = ways c -> hash_of c' = hash_of c ->
  length (hand c') = sets c -> Forall (fun h => h < ways c)%nat (hand c') -> cache_wf c'.
Proof.
  intros Hwf Hpg Hno [Hjs Hjl] Ep Es Ew Eh Hhl Hhf. rewrite <- length_pages in Hjl.
  assert (Hlk : forall j' q, pages (slots c') !! j' = Some q ->
    (j' = j /\ q = pg) \/ (j' <> j /\ pages (slots c) !! j' = Some q)).
  { intros j' q. rewrite Ep. destruct (decide (j' = j)) as [->|].
    - rewrite list_lookup_insert_eq by done. intros [= <-]. by left.
    - rewrite list_lookup_insert_ne by done. by right. }
  split; rewrite ?Es, ?Ew.
  - apply (wf_ways c Hwf).
  - apply (wf_sets c Hwf).
  - rewrite <- length_pages, Ep, length_insert, length_pages. apply (wf_len c Hwf).
  - by split.
  - intros j' q Hq Hne. unfold set_of. rewrite Eh, Es.
    apply Hlk in Hq as [[-> ->]|[_ Hq]]; [done|]. by apply (wf_place c Hwf).
  - intros j1 j2 q Hne H1 H2. apply Hlk in H1 as [[-> ->]|[? H1]], H2 as [[-> E2]|[? H2]];
      try done; subst; try (exfalso; apply Hno; eexists; eassumption).
    by apply (wf_uniq c Hwf j1 j2 q).
Qed.

(** A hit leaves every page where it is. *)
Lemma wf_same_pages c c' : cache_wf c -> pages (slots c') = pages (slots c) ->
  sets c' = sets c -> ways c' = ways c -> hash_of c' = hash_of c -> hand c' = hand c ->
  cache_wf c'.
Proof.
  intros [W S L H P U] Ep Es Ew Eh Ehd.
  split; unfold set_of; rewrite ?Ep, ?Es, ?Ew, ?Eh, ?Ehd; try done.
  by rewrite <- length_pages, Ep, length_pages.
Qed.

(** The lookup loop finds a page exactly when the cache holds it. *)
Lemma lookup_loop c pg : cache_wf c -> 0 <= pg < EMPTY ->
  let base := (set_of c pg * ways c)%nat in
  match first_from (fun i => page (slots c !!! (base + i)%nat) =? pg) 0 (ways c) with
  | Some i => (i < ways c)%nat /\ (base + i < length (slots c))%nat /\
              page (slots c !!! (base + i)%nat) = pg
  | None => ~ cached c pg
  end.
Proof.
  intros Hwf Hpg base. destruct (first_from _ _ _) as [i|] eqn:Ef.
  - apply first_from_Some in Ef as (? & Ei & _). bool_to_prop. split_and!; [lia| |done].
    destruct (slot_index c (set_of c pg) i Hwf (set_of_lt c pg Hwf)) as [_ ?]; [lia|done].
  - intros [j Hj]. assert (Hjl : (j < length (slots c))%nat).
    { rewrite <- length_pages. by eapply lookup_lt_Some. }
    pose proof (wf_place c Hwf j pg Hj ltac:(lia)) as Hset.
    destruct (in_set_index c (set_of c pg) j Hwf (conj Hset Hjl)) as (i & Hi & ->).
    pose proof (first_from_None _ _ _ Ef i ltac:(lia)) as Hn. cbv beta in Hn. bool_to_prop.
    rewrite pages_lookup in Hj by done. fold base in Hj. congruence.
Qed.

(** What an access does to the pages, by outcome. *)
Lemma cache_get_pages c pg : cache_wf c -> 0 <= pg < EMPTY ->
  let '(c', hit) := cache_get c pg in
  cache_wf c' /\
  if (hit : bool) then cached c pg /\ pages (slots c') = pages (slots c)
  else ~ cached c pg /\ exists j, in_set c (set_of c pg) j /\
    pages (slots c') = <[j := pg]> (pages (slots c)) /\
    (forall j', in_set c (set_of c pg) j' -> pages (slots c) !! j' = Some EMPTY ->
       pages (slots c) !! j = Some EMPTY).
Proof.
  intros Hwf Hpg. unfold cache_get. fold (set_of c pg).
  pose proof (lookup_loop c pg Hwf Hpg) as Hlk. cbv zeta in Hlk.
  destruct (first_from _ _ _) as [i|].
  - destruct Hlk as (Hi & Hl & E). set (c' := mk_cache _ _ _ _ _ _ _ _ _).
    assert (Ep : pages (slots c') = pages (slots c)).
    { simpl. rewrite pages_insert. apply list_insert_id. simpl. by apply pages_lookup. }
    split_and!; [by apply (wf_same_pages c)| |done].
    exists (set_of c pg * ways c + i)%nat. rewrite pages_lookup by done. by rewrite E.
  - pose proof (choose_victim_ok c (set_of c pg) Hwf (set_of_lt c pg Hwf)) as Hv. cbv zeta in Hv.
    destruct (choose_victim _ _ _) as [[sl hd] v].
    destruct Hv as (Epg & El & Hv & Hhl & Hhf & Hempty).
    pose proof (slot_index c _ v Hwf (set_of_lt c pg Hwf) Hv) as Hin.
    set (c' := mk_cache _ _ _ _ _ _ _ _ _).
    assert (Ep : pages (slots c') = <[(set_of c pg * ways c + v)%nat := pg]> (pages (slots c))).
    { simpl. by rewrite pages_insert, Epg. }
    split_and!; [by eapply (wf_replace c c' pg)|done|].
    by exists (set_of c pg * ways c + v)%nat.
Qed.

(** One access to a well-formed cache (any policy, either index
    function).  It is a hit exactly when the page was in the cache; the cache
    stays well formed (every page in its own set, once); afterwards the page is
    cached; no page enters but the one accessed; and the only page that can
    leave is one of the same set, and only when that set has no empty slot. *)
Theorem cache_get_correct c pg : cache_wf c -> 0 <= pg < EMPTY ->
  let '(c', hit) := cache_get c pg in
  cache_wf c' /\ (hit = true <-> cached c pg) /\ cached c' pg /\
  (forall q, q <> EMPTY -> cached c' q -> q = pg \/ cached c q) /\
  (forall q, q <> EMPTY -> cached c q -> ~ cached c' q ->
     hit = false /\ set_of c q = set_of c pg /\
     forall j, in_set c (set_of c pg) j -> pages (slots c) !! j <> Some EMPTY).
Proof.
  intros Hwf Hpg. pose proof (cache_get_pages c pg Hwf Hpg) as H.
  destruct (cache_get c pg) as [c' [|]]; destruct H as (Hwf' & Hc & H).
  - unfold cached. rewrite H. split_and!; try done. intros q _ Hq. by right.
  - destruct H as (j & [Hd Hj] & E & Hempty). rewrite <- length_pages in Hj.
    assert (Hlk : forall j', j' <> j -> pages (slots c') !! j' = pages (slots c) !! j')
      by (intros; by rewrite E, list_lookup_insert_ne).
    split_and!; try done.
    + exists j. by rewrite E, list_lookup_insert_eq.
    + intros q _ [j' Hq]. destruct (decide (j' = j)) as [->|]; [left|right; exists j'; by rewrite <- Hlk].
      rewrite E, list_lookup_insert_eq in Hq by done. congruence.
    + intros q Hne [j' Hq] Hno. split; [done|].
      destruct (decide (j' = j)) as [->|Hjj]; [|exfalso; apply Hno; exists j'; by rewrite Hlk].
      split; [by rewrite <- (wf_place c Hwf j q Hq Hne)|].
      intros j2 Hin He. rewrite (Hempty j2 Hin He) in Hq. congruence.
Qed.

Lemma cache_init_wf w h p : (exists k, (k <= 13)%nat /\ w = (2 ^ k)%nat) ->
  cache_wf (cache_init w h p).
Proof.
  intros (k & Hk & ->). assert (Hdiv : (CAPACITY / 2 ^ k)%nat = (2 ^ (13 - k))%nat).
  { change CAPACITY with (2 ^ 13)%nat. rewrite <- Nat.pow_sub_r by lia. done. }
  assert (Hpos : (0 < 2 ^ k)%nat) by (apply Nat.neq_0_lt_0, Nat.pow_nonzero; lia).
  assert (Hemp : forall j q, pages (slots (cache_init (2 ^ k) h p)) !! j = Some q -> q = EMPTY).
  { intros j q. cbn [cache_init slots]. unfold pages. rewrite lookup_map.
    destruct (_ !! j) as [sl|] eqn:E; [|done].
    apply lookup_replicate in E as [-> _]. by intros [= <-]. }
  split; try (by intros; exfalso; eauto).
  - done.
  - exists (13 - k)%nat. split; [lia|done].
  - cbn [cache_init slots sets ways]. rewrite length_replicate, Hdiv, <- Nat.pow_add_r.
    change CAPACITY with (2 ^ 13)%nat. f_equal. lia.
  - cbn [cache_init hand sets ways]. split; [apply length_replicate|]. by apply Forall_replicate.
Qed.

Lemma cache_get_correct_witness :
  let c := mk_cache (map (fun p => mk_slot p 1 true false) [4; 8; 5; EMPTY]) 2 2 [0%nat; 0%nat]
             HASH_LOW POLICY_CLOCK 9 0 0 in
  (snd (cache_get c 6) = true <-> cached c 6) /\ cached (fst (cache_get c 6)) 6.
Proof.
  intros c. assert (Hwf : cache_wf c).
  { split.
    - simpl. lia.
    - exists 1%nat. split; [lia|done].
    - done.
    - split; [done|]. repeat constructor; simpl; lia.
    - intros [|[|[|[|j]]]] q; simpl; intros [= <-]; done.
    - intros [|[|[|[|j1]]]] [|[|[|[|j2]]]] q Hq; simpl; rewrite ?lookup_nil; congruence. }
  pose proof (cache_get_correct c 6 Hwf ltac:(unfold EMPTY, UINT64_MAX; lia)) as H.
  destruct (cache_get c 6) as [c' hit]. tauto.
Defined.

(** The clock hand always stops, within one turn of the set: from a hand
    inside the set, [ways] passes are enough, the slot it stops at has its flag
    clear, and it is the first clear one in cyclic order from the hand, or the
    hand's own slot when every flag was set.  No page moves. *)
Theorem clock_sweep_victim base w sl v : (0 < w)%nat -> (base + w <= length sl)%nat -> (v < w)%nat ->
  let '(sl', victim) := clock_sweep w base w sl v in
  (victim < w)%nat /\ referenced (sl' !!! (base + victim)%nat) = false /\ pages sl' = pages sl /\
  victim = match first_from (fun k => negb (referenced (sl !!! (base + (v + k) mod w)%nat))) 0 w with
           | Some k => ((v + k) mod w)%nat
           | None => v
           end.
Proof.
  intros Hw Hl Hv. pose proof (clock_sweep_pages w base w sl v Hl Hv) as Hpg.
  destruct (first_from _ _ _) as [k|] eqn:Ef.
  - apply first_from_Some in Ef as (Hk & Ek & Hall). bool_to_prop.
    pose proof (sweep_reaches w base w sl v k Hl Hv ltac:(lia) ltac:(lia)) as H.
    destruct (clock_sweep _ _ _ _ _) as [sl' v']. destruct Hpg as (-> & _ & ?).
    destruct H as [-> ?]; [|done|done]. intros d Hd. specialize (Hall d ltac:(lia)).
    by bool_to_prop.
  - assert (Hall : forall d, (d < w)%nat -> referenced (sl !!! (base + (v + d) mod w)%nat) = true).
    { intros d Hd. pose proof (first_from_None _ _ _ Ef d ltac:(lia)) as H. cbv beta in H.
      by bool_to_prop. }
    revert Hpg. unfold clock_sweep. destruct w as [|w]; [lia|]. cbn [while_loop].
    pose proof (Hall O ltac:(lia)) as H0. rewrite Nat.add_0_r, Nat.mod_small in H0 by done.
    rewrite H0. set (sl1 := <[_ := _]> sl).
    assert (Hv' : ((v + 1) mod S w < S w)%nat) by (apply Nat.mod_upper_bound; lia).
    assert (Hcyc : (((v + 1) mod S w + w) mod S w = v)%nat).
    { rewrite cyclic_succ. replace (v + S w)%nat with (v + 1 * S w)%nat by lia.
      rewrite Nat.Div0.mod_add. by apply Nat.mod_small. }
    pose proof (sweep_reaches w base (S w) sl1 ((v + 1) mod S w) w) as H.
    unfold clock_sweep in H. rewrite Hcyc in H. destruct (while_loop _ _ _ _) as [sl' v'].
    intros (-> & _ & ?). destruct H as [-> ?]; [by unfold sl1; rewrite length_insert|done|lia|lia| | |done].
    + intros d Hd. rewrite cyclic_succ. unfold sl1.
      rewrite (sweep_flag base (S w)) by (done || apply Nat.mod_upper_bound; lia).
      destruct (Nat.eqb_spec ((v + S d) mod S w) v) as [E|];
        [by apply cyclic_ne in E; [|lia|lia]|]. apply Hall. lia.
    + unfold sl1. rewrite (sweep_flag base (S w)) by done. by rewrite Nat.eqb_refl.
Qed.

Lemma clock_sweep_victim_witness :
  let sl := map (fun r => mk_slot 7 1 r false) [true; true; false; true] in
  (snd (clock_sweep 4 0 4 sl 3) < 4)%nat /\ snd (clock_sweep 4 0 4 sl 3) = 2%nat.
Proof.
  intros sl. pose proof (clock_sweep_victim 0 4 sl 3 ltac:(lia) ltac:(simpl; lia) ltac:(lia)) as H.
  destruct (clock_sweep 4 0 4 sl 3) as [sl' v] eqn:E. destruct H as (H1 & _ & _ & H2).
  split; [exact H1|]. exact H2.
Defined.

(** ** Policies that choose by stamp

    A stamp is the value of [clock] at the slot's last access; the bound keeps
    [clock] below the point where it would wrap. *)

Definition stamps_ok (c : cache) : Prop :=
  0 <= clock c < UINT64_MAX - 1 /\ Forall (fun sl => 0 <= stamp sl <= clock c) (slots c).

Definition slot_at (c : cache) (j : nat) (sl : slot) : Prop := slots c !! j = Some sl.

Lemma slot_total c set i : cache_wf c -> (set < sets c)%nat -> (i < ways c)%nat ->
  slot_at c (set * ways c + i) (slots c !!! (set * ways c + i)%nat).
Proof.
  intros Hwf Hs Hi. destruct (slot_index c set i Hwf Hs Hi) as [_ Hj].
  unfold slot_at. rewrite list_lookup_total_alt.
  by destruct (lookup_lt_is_Some_2 (slots c) _ Hj) as [sl ->].
Qed.

Lemma stamp_of c j sl : stamps_ok c -> slot_at c j sl -> 0 <= stamp sl <= clock c.
Proof. intros [_ Hf] Hj. by eapply (Forall_lookup_1 _ _ _ _ Hf) in Hj. Qed.

(** What replacing slot [j] by a new entry for [pg] gives. *)
Definition placed (c : cache) (pg : Z) (j : nat) (c' : cache) : Prop :=
  slots c' = <[j := mk_slot pg (clock c + 1) false false]> (slots c) /\
  sets c' = sets c /\ ways c' = ways c /\ hash_of c' = hash_of c /\
  policy_of c' = policy_of c /\ hand c' = hand c /\ clock c' = clock c + 1 /\ hits c' = hits c.

(** The victim of LRU and probation, by position in the set. *)
Definition stamp_victim (c : cache) (s : nat -> slot) (v : nat) : Prop :=
  page (s v) = EMPTY \/
  (forall i, (i < ways c)%nat -> page (s i) <> EMPTY) /\
  match policy_of c with
  | POLICY_LRU => forall i, (i < ways c)%nat -> stamp (s v) <= stamp (s i)
  | _ => forall i, (i < ways c)%nat -> resident (s i) = false -> resident (s v) = false
  end.

Lemma choose_victim_stamp c set base : (0 < ways c)%nat -> policy_of c <> POLICY_CLOCK ->
  let s i := slots c !!! (base + i)%nat in
  (forall i, (i < ways c)%nat -> stamp (s i) < UINT64_MAX) ->
  exists v, choose_victim c set base = (slots c, hand c, v) /\ (v < ways c)%nat /\
    stamp_victim c s v.
Proof.
  intros Hw Hpol s Hst. unfold choose_victim, stamp_victim. fold s.
  destruct (first_from _ _ _) as [i|] eqn:Ef.
  { apply first_from_Some in Ef as (? & Ei & _). bool_to_prop. exists i. split_and!; [done|lia|by left]. }
  assert (Hfull : forall i, (i < ways c)%nat -> page (s i) <> EMPTY).
  { intros i Hi. pose proof (first_from_None _ _ _ Ef i ltac:(lia)) as Hn. cbv beta in Hn.
    by bool_to_prop. }
  destruct (policy_of c); [done| |].
  - pose proof (oldest_slot_spec s (fun _ => true) (ways c) 0) as H.
    destruct (oldest_slot _ _ _ _) as [[o v] [|]].
    + destruct H as (Hv & _ & _ & Hmin & _). exists v. split_and!; [done|done|]. right. auto.
    + destruct H as [_ H]. specialize (H O Hw eq_refl). specialize (Hst O Hw). lia.
  - pose proof (oldest_slot_spec s (fun sl => negb (resident sl)) (ways c) 0) as H.
    destruct (oldest_slot _ _ _ 0) as [[o v] [|]].
    + destruct H as (Hv & Hr & _). bool_to_prop. exists v. split_and!; [done|done|]. right. auto.
    + destruct H as [-> H].
      pose proof (oldest_slot_lt s (fun _ => true) _ _ Hw) as Hv.
      destruct (oldest_slot _ _ _ _) as [[o' v'] f']. simpl in Hv.
      exists v'. split_and!; [done|done|]. right. split; [done|]. intros i Hi Hr.
      specialize (H i Hi ltac:(by rewrite Hr)). specialize (Hst i Hi). lia.
Qed.

(** A miss under LRU or probation: an empty slot, or the one the policy names. *)
Lemma cache_get_miss c pg : cache_wf c -> stamps_ok c -> 0 <= pg < EMPTY -> ~ cached c pg ->
  policy_of c <> POLICY_CLOCK ->
  let base := (set_of c pg * ways c)%nat in
  exists v, (v < ways c)%nat /\ snd (cache_get c pg) = false /\
    placed c pg (base + v) (fst (cache_get c pg)) /\
    stamp_victim c (fun i => slots c !!! (base + i)%nat) v.
Proof.
  intros Hwf Hst Hpg Hno Hpol base. unfold cache_get. fold (set_of c pg). fold base.
  pose proof (lookup_loop c pg Hwf Hpg) as Hlk. cbv zeta in Hlk. fold base in Hlk.
  destruct (first_from _ _ _) as [i|].
  { destruct Hlk as (Hi & Hl & E). exfalso. apply Hno. exists (base + i)%nat.
    rewrite pages_lookup by done. by rewrite E. }
  destruct (choose_victim_stamp c (set_of c pg) base (wf_ways c Hwf) Hpol)
    as (v & -> & Hv & Hvic).
  { intros i Hi. pose proof (stamp_of c _ _ Hst
      (slot_total c _ i Hwf (set_of_lt c pg Hwf) Hi)) as H. fold base in H.
    destruct Hst as [? _]. lia. }
  exists v. split_and!; [done|done| |done]. cbn [fst]. unfold placed. simpl.
  assert (Eclk : u64 (clock c + 1) = clock c + 1); [|by rewrite Eclk].
  destruct Hst as [? _]. apply u64_small. unfold UINT64_MAX in *. lia.
Qed.

Lemma placed_wf c pg v c' : cache_wf c -> 0 <= pg < EMPTY -> ~ cached c pg -> (v < ways c)%nat ->
  placed c pg (set_of c pg * ways c + v) c' -> cache_wf c'.
Proof.
  intros Hwf Hpg Hno Hv (Es & Ese & Ew & Eh & Ep & Ehd & Ec & _).
  destruct (wf_hand c Hwf) as [? ?].
  apply (wf_replace c c' pg (set_of c pg * ways c + v)); try done; try by rewrite Ehd.
  - by apply slot_index; [|apply set_of_lt|].
  - by rewrite Es, pages_insert.
Qed.

Lemma placed_stamps c pg j c' : stamps_ok c -> placed c pg j c' -> clock c < UINT64_MAX - 2 ->
  stamps_ok c'.
Proof.
  intros [Hc Hf] (Es & _ & _ & _ & _ & _ & Ec & _) Hlt. split; [lia|]. rewrite Es, Ec.
  apply Forall_insert; [|simpl; lia]. eapply Forall_impl; [|exact Hf]. simpl. intros; lia.
Qed.

(** ** Probation keeps the working set through a sweep *)

(** A page touched at least twice since it entered. *)
Definition kept (c : cache) (pg : Z) : Prop :=
  exists j sl, slot_at c j sl /\ page sl = pg /\ resident sl = true.

(** A set with a slot that is empty or still on probation. *)
Definition set_open (c : cache) (set : nat) : Prop :=
  exists i, (i < ways c)%nat /\ resident (slots c !!! (set * ways c + i)%nat) = false.

Record scan_inv (c : cache) : Prop := {
  si_wf : cache_wf c;
  si_policy : policy_of c = POLICY_PROBATION;
  si_open set : (set < sets c)%nat -> set_open c set;
}.

Lemma scan_step c pg : scan_inv c -> stamps_ok c -> 0 <= pg < EMPTY -> ~ cached c pg ->
  let c' := fst (cache_get c pg) in
  scan_inv c' /\ hits c' = hits c /\ clock c' = clock c + 1 /\
  (clock c < UINT64_MAX - 2 -> stamps_ok c') /\
  (forall q, 0 <= q < EMPTY -> kept c q -> kept c' q) /\
  (forall q, cached c' q -> cached c q \/ q = pg).
Proof.
  intros [Hwf Hpol Hopen] Hst Hpg Hno.
  destruct (cache_get_miss c pg Hwf Hst Hpg Hno) as (v & Hv & _ & Hpl & Hvic); [by rewrite Hpol|].
  pose proof (set_of_lt c pg Hwf) as Hs. destruct (slot_index c _ v Hwf Hs Hv) as [Hdiv Hlen].
  set (j := (set_of c pg * ways c + v)%nat) in *. set (c' := fst (cache_get c pg)) in *.
  pose proof Hpl as (Es & Ese & Ew & Eh & Ep & Ehd & Ec & Ehi). split_and!; try done.
  - split; [by apply (placed_wf c pg v)|congruence|]. intros set Hset. rewrite Ese in Hset.
    unfold set_open. rewrite Ew. destruct (decide (set = set_of c pg)) as [->|Hne].
    + exists v. split; [done|]. fold j. by rewrite Es, list_lookup_total_insert_eq.
    + destruct (Hopen set Hset) as (i & Hi & Hr). exists i. split; [done|].
      rewrite Es, list_lookup_total_insert_ne; [done|]. intros E.
      destruct (slot_index c set i Hwf Hset Hi) as [Hd _]. congruence.
  - by apply (placed_stamps c pg j).
  - intros q Hq (j' & sl & Hat & Epg & Hr). exists j', sl. split; [|done]. unfold slot_at in *.
    rewrite Es, list_lookup_insert_ne; [done|]. intros <-.
    assert (Esl : slots c !!! j = sl) by (by apply list_lookup_total_correct).
    destruct Hvic as [He|[_ Hres]]; [fold j in He; rewrite Esl in He; lia|].
    rewrite Hpol in Hres. destruct (Hopen _ Hs) as (i & Hi & Hri). specialize (Hres i Hi Hri).
    fold j in Hres. congruence.
  - intros q [j' Hj']. rewrite Es, pages_insert in Hj'. destruct (decide (j' = j)) as [->|].
    + rewrite list_lookup_insert_eq in Hj' by (by rewrite length_pages). right. by injection Hj'.
    + rewrite list_lookup_insert_ne in Hj' by done. left. by exists j'.
Qed.

(** A sweep evicts itself.  Under the probation policy, a run of accesses
    to distinct pages the cache does not hold (a table scan, of any length)
    leaves every page of the working set, the pages touched twice, in the
    cache, provided each set had one slot that was empty or on probation; and
    none of the sweep's accesses is a hit. *)
Theorem probation_survives_scan c sweep : scan_inv c -> stamps_ok c ->
  clock c + Z.of_nat (length sweep) < UINT64_MAX - 1 ->
  NoDup sweep -> Forall (fun pg => 0 <= pg < EMPTY /\ ~ cached c pg) sweep ->
  let c' := fold_left (fun c pg => fst (cache_get c pg)) sweep c in
  hits c' = hits c /\ forall q, 0 <= q < EMPTY -> kept c q -> kept c' q.
Proof.
  revert c. induction sweep as [|pg sweep IH]; intros c Hinv Hst Hclk Hnd Hall; [done|].
  apply list.NoDup_cons in Hnd as [Hnotin Hnd]. apply list.Forall_cons in Hall as [[Hpg Hno] Hall].
  destruct (scan_step c pg Hinv Hst Hpg Hno) as (Hinv' & Ehits & Eclk & Hst' & Hkept & Hcached).
  cbn [length] in Hclk. specialize (Hst' ltac:(lia)). simpl.
  destruct (IH (fst (cache_get c pg))) as [IHh IHk]; [done|done|lia|done| |].
  - apply list.Forall_forall. intros q Hq. pose proof (proj1 (list.Forall_forall _ _) Hall q Hq) as [? Hnc].
    split; [done|]. intros [?| ->]%Hcached; done.
  - split; [congruence|]. auto.
Qed.

Lemma probation_survives_scan_witness :
  let c := mk_cache [mk_slot 4 1 true true; mk_slot 8 2 false false;
                     mk_slot 5 3 true true; mk_slot EMPTY 0 false false] 2 2 [0%nat; 0%nat]
             HASH_LOW POLICY_PROBATION 9 0 0 in
  kept (fold_left (fun c pg => fst (cache_get c pg)) [10; 12; 14; 11; 13; 15; 16] c) 4.
Proof.
  intros c. assert (Hc : forall q, cached c q -> q = 4 \/ q = 8 \/ q = 5 \/ q = EMPTY).
  { intros q [[|[|[|[|j]]]] H]; simpl in H; rewrite ?lookup_nil in H; naive_solver. }
  eapply (probation_survives_scan c [10; 12; 14; 11; 13; 15; 16]).
  - split; [|done|].
    + split.
      * simpl. lia.
      * exists 1%nat. split; [lia|done].
      * done.
      * split; [done|]. repeat constructor; simpl; lia.
      * intros [|[|[|[|j]]]] q; simpl; rewrite ?lookup_nil; intros [= <-]; done.
      * intros [|[|[|[|j1]]]] [|[|[|[|j2]]]] q Hq; simpl; rewrite ?lookup_nil; congruence.
    + intros [|[|set]] Hset; [exists 1%nat|exists 1%nat|simpl in Hset; lia]; simpl; split; (done || lia).
  - split; [simpl; unfold UINT64_MAX; lia|]. repeat constructor; simpl; lia.
  - unfold UINT64_MAX. simpl. lia.
  - apply NoDup_ListNoDup. repeat constructor; simpl; lia.
  - repeat constructor; try (unfold EMPTY, UINT64_MAX; lia);
      intros H%Hc; unfold EMPTY, UINT64_MAX in H; lia.
  - unfold EMPTY, UINT64_MAX. lia.
  - by exists 0%nat, (mk_slot 4 1 true true).
Defined.

(** ** LRU refines a recency list

    The specification of one set is the list of its pages, most recent first;
    an access moves the page to the front and drops what exceeds [ways]. *)

Definition lru_access (w : nat) (pg : Z) (l : list Z) : list Z :=
  if decide (pg ∈ l) then pg :: filter (fun q => q <> pg) l else take w (pg :: l).

Abbreviation page_at c j := (page (slots c !!! j)).
Abbreviation stamp_at c j := (stamp (slots c !!! j)).

(** [js] are the occupied slots of the set by decreasing stamp. *)
Record lru_order (c : cache) (set : nat) (js : list nat) : Prop := {
  lo_nodup : NoDup js;
  lo_slots j : j ∈ js <-> in_set c set j /\ page_at c j <> EMPTY;
  lo_sorted : StronglySorted (fun j1 j2 => stamp_at c j2 < stamp_at c j1) js;
}.

Definition lru_rep (c : cache) (set : nat) (l : list Z) : Prop :=
  exists js, lru_order c set js /\ l = map (fun j => page_at c j) js.

Lemma StronglySorted_ext {A} (R R' : A -> A -> Prop) l :
  (forall x y, x ∈ l -> y ∈ l -> R x y -> R' x y) -> StronglySorted R l -> StronglySorted R' l.
Proof.
  intros HR Hs. induction Hs as [|a l Hs IH Hf]; constructor.
  - apply IH. intros. apply HR; [by apply list_elem_of_further..|done].
  - apply list.Forall_forall. intros y Hy. apply HR; [by left|by right|].
    by apply (proj1 (list.Forall_forall _ _) Hf).
Qed.

Lemma StronglySorted_app_inv {A} (R : A -> A -> Prop) l1 x l2 :
  StronglySorted R (l1 ++ x :: l2) -> StronglySorted R (l1 ++ l2).
Proof.
  induction l1 as [|a l1 IH]; intros Hs; inversion_clear Hs as [|? ? Hs' Hf]; [done|].
  constructor; [by apply IH|]. apply Forall_app in Hf as [? Hf]. apply Forall_app.
  split; [done|]. by inversion Hf.
Qed.

Lemma StronglySorted_after {A} (R : A -> A -> Prop) l1 x y l2 :
  StronglySorted R (l1 ++ x :: y :: l2) -> R x y.
Proof.
  induction l1 as [|a l1 IH]; intros Hs; inversion_clear Hs as [|? ? Hs' Hf]; [|by apply IH].
  by inversion Hf.
Qed.

(** Every access touches one slot [j] and stamps it newest. *)
Definition touched (c c' : cache) (j : nat) : Prop :=
  ways c' = ways c /\ length (slots c') = length (slots c) /\ (j < length (slots c))%nat /\
  stamp_at c' j = clock c + 1 /\
  forall j', j' <> j -> slots c' !!! j' = slots c !!! j'.

Lemma in_set_touched c c' j set j' : touched c c' j -> in_set c' set j' <-> in_set c set j'.
Proof. intros (E & El & _). unfold in_set. by rewrite E, El. Qed.

(** Another set keeps its order. *)
Lemma lru_rep_frame c c' j set l : touched c c' j -> ~ in_set c set j ->
  lru_rep c set l -> lru_rep c' set l.
Proof.
  intros Ht Hj (js & [Hn Hsl Hs] & ->).
  assert (Hsame : forall j', j' ∈ js -> slots c' !!! j' = slots c !!! j').
  { intros j' Hin. apply Ht. intros ->. by apply Hsl in Hin as [? _]. }
  exists js. split; [split|].
  - done.
  - intros j'. rewrite Hsl, (in_set_touched c c' j) by done. split; intros [Hi Hp]; split; try done.
    + rewrite (proj2 (proj2 (proj2 (proj2 Ht)))); [done|]. by intros ->.
    + rewrite (proj2 (proj2 (proj2 (proj2 Ht)))) in Hp; [done|]. by intros ->.
  - eapply StronglySorted_ext; [|exact Hs]. intros x y Hx Hy. by rewrite !Hsame.
  - apply map_ext_in. intros j' Hin%list_elem_of_In. by rewrite Hsame.
Qed.

(** The touched slot goes to the front of its set. *)
Lemma lru_order_front c c' j set js0 : cache_wf c -> stamps_ok c -> touched c c' j ->
  in_set c set j -> page_at c' j <> EMPTY -> NoDup js0 -> j ∉ js0 ->
  (forall j', j' ∈ js0 <-> in_set c set j' /\ page_at c j' <> EMPTY /\ j' <> j) ->
  StronglySorted (fun j1 j2 => stamp_at c j2 < stamp_at c j1) js0 ->
  lru_order c' set (j :: js0).
Proof.
  intros Hwf Hst Ht Hin Hne Hnd Hnotin Hiff Hs. pose proof Ht as (Ew & El & Hlt & Estamp & Hoth).
  assert (Hsame : forall j', j' ∈ js0 -> slots c' !!! j' = slots c !!! j').
  { intros j' Hj'. apply Hoth. intros ->. done. }
  split.
  - by apply list.NoDup_cons.
  - intros j'. rewrite (in_set_touched c c' j) by done. rewrite elem_of_cons, Hiff.
    destruct (decide (j' = j)) as [->|Hne']; [split; [done|by left]|].
    rewrite Hoth by done. tauto.
  - constructor.
    + eapply StronglySorted_ext; [|exact Hs]. intros x y Hx Hy. by rewrite !Hsame.
    + apply list.Forall_forall. intros y Hy. rewrite Estamp, Hsame by done.
      apply Hiff in Hy as ([_ Hy] & _).
      destruct (lookup_lt_is_Some_2 (slots c) y Hy) as [sl Esl].
      rewrite (list_lookup_total_correct _ _ _ Esl). pose proof (stamp_of c y sl Hst Esl). lia.
Qed.

Definition set_slots (c : cache) (set : nat) : list nat :=
  map (fun i => set * ways c + i)%nat (seq 0 (ways c)).

Lemma elem_of_set_slots c set j : cache_wf c -> (set < sets c)%nat ->
  j ∈ set_slots c set <-> in_set c set j.
Proof.
  intros Hwf Hs. unfold set_slots. rewrite list_elem_of_In, in_map_iff. split.
  - intros (i & <- & Hi%in_seq). apply slot_index; [done|done|lia].
  - intros Hj. destruct (in_set_index c set j Hwf Hj) as (i & Hi & ->). exists i.
    split; [done|]. apply in_seq. lia.
Qed.

Lemma length_in_set c set js : cache_wf c -> (set < sets c)%nat -> NoDup js ->
  (forall j, j ∈ js -> in_set c set j) -> (length js <= ways c)%nat.
Proof.
  intros Hwf Hs Hn Hin. assert (Hsub : js ⊆+ set_slots c set).
  { apply NoDup_submseteq; [done|]. intros j Hj. apply elem_of_set_slots; auto. }
  apply submseteq_length in Hsub. unfold set_slots in Hsub. by rewrite length_map, length_seq in Hsub.
Qed.

Lemma length_full_set c set js : cache_wf c -> (set < sets c)%nat ->
  (forall j, in_set c set j -> j ∈ js) -> (ways c <= length js)%nat.
Proof.
  intros Hwf Hs Hin. assert (Hsub : set_slots c set ⊆+ js).
  { apply NoDup_submseteq; [|intros j Hj; by apply Hin, elem_of_set_slots].
    apply NoDup_ListNoDup, Finite.Injective_map_NoDup; [intros x y; lia|apply seq_NoDup]. }
  apply submseteq_length in Hsub. unfold set_slots in Hsub. by rewrite length_map, length_seq in Hsub.
Qed.

Lemma page_in_set c set j : in_set c set j -> pages (slots c) !! j = Some (page_at c j).
Proof. intros [_ Hj]. by apply pages_lookup. Qed.

(** A set's list holds the pages cached in it. *)
Lemma lru_rep_elem c pg l : cache_wf c -> 0 <= pg < EMPTY -> lru_rep c (set_of c pg) l ->
  pg ∈ l <-> cached c pg.
Proof.
  intros Hwf Hpg (js & [Hn Hsl Hs] & ->). rewrite list_elem_of_In, in_map_iff. split.
  - intros (j & <- & [Hj _]%list_elem_of_In%Hsl). exists j. by eapply page_in_set.
  - intros [j Hj]. assert (Hin : in_set c (set_of c pg) j).
    { split; [by apply (wf_place c Hwf); [|lia]|]. rewrite <- length_pages. by eapply lookup_lt_Some. }
    rewrite (page_in_set c _ j Hin) in Hj. injection Hj as Hj. exists j. split; [done|].
    apply list_elem_of_In, Hsl. split; [done|]. lia.
Qed.

Lemma filter_ne_notin (pg : Z) (l : list Z) : pg ∉ l -> filter (fun q => q <> pg) l = l.
Proof.
  induction l as [|x l IH]; intros Hn; [done|]. apply not_elem_of_cons in Hn as [Hx Hn].
  rewrite filter_cons_True by done. by rewrite IH.
Qed.

(** A hit: the page's slot moves to the front. *)
Lemma lru_hit c c' j js pg : cache_wf c -> stamps_ok c -> touched c c' j -> 0 <= pg < EMPTY ->
  lru_order c (set_of c pg) js -> in_set c (set_of c pg) j -> page_at c j = pg ->
  page_at c' j = pg ->
  lru_rep c' (set_of c pg) (pg :: filter (fun q => q <> pg) (map (fun j => page_at c j) js)).
Proof.
  intros Hwf Hst Ht Hpg Ho Hin Ej Ej'. pose proof Ho as [Hn Hsl Hs].
  assert (Hj : j ∈ js) by (apply Hsl; split; [done|lia]).
  apply list_elem_of_split in Hj as (a & b & ->).
  apply list.NoDup_app in Hn as (Hna & Hab & Hnb). apply list.NoDup_cons in Hnb as [Hjb Hnb].
  assert (Hja : j ∉ a ++ b).
  { rewrite not_elem_of_app. split; [|done]. intros Ha. apply (Hab j Ha). by left. }
  assert (Hother : forall j', j' ∈ a ++ b -> j' <> j /\ page_at c j' <> pg).
  { intros j' Hj'. assert (Hne : j' <> j) by (by intros ->). split; [done|]. intros E. apply Hne.
    assert (in_set c (set_of c pg) j') as Hin'.
    { apply Hsl. apply elem_of_app in Hj' as [?|?]; apply elem_of_app; [by left|right; by right]. }
    apply (wf_uniq c Hwf j' j pg); [lia| |]; rewrite (page_in_set c (set_of c pg)) by done; congruence. }
  exists (j :: a ++ b). split.
  - apply (lru_order_front c); try done; [by rewrite Ej'; lia| | |by eapply StronglySorted_app_inv].
    + apply list.NoDup_app. split_and!; [done| |done]. intros x Hx Hxb. apply (Hab x Hx). by right.
    + intros j'. specialize (Hsl j'). rewrite elem_of_app, elem_of_cons in Hsl.
      rewrite elem_of_app. specialize (Hother j'). rewrite elem_of_app in Hother. tauto.
  - cbn [map]. rewrite Ej'. f_equal. rewrite map_app. cbn [map]. rewrite list.filter_app.
    rewrite filter_cons_False by (intros H; by apply H). rewrite <- list.filter_app, <- map_app.
    rewrite filter_ne_notin.
    + apply map_ext_in. intros j' Hj'%list_elem_of_In. destruct (Hother j' Hj') as [Hne _].
      by rewrite (proj2 (proj2 (proj2 (proj2 Ht))) j' Hne).
    + rewrite list_elem_of_In, in_map_iff. intros (j' & E & Hj'%list_elem_of_In).
      by destruct (Hother j' Hj').
Qed.

(** A miss: the new page goes to the front, and a full set drops its last. *)
Lemma lru_miss c c' v js pg : cache_wf c -> stamps_ok c -> 0 <= pg < EMPTY ->
  let set := set_of c pg in let j := (set * ways c + v)%nat in
  touched c c' j -> page_at c' j = pg -> (v < ways c)%nat -> policy_of c = POLICY_LRU ->
  stamp_victim c (fun i => slots c !!! (set * ways c + i)%nat) v ->
  lru_order c set js ->
  lru_rep c' set (take (ways c) (pg :: map (fun j => page_at c j) js)).
Proof.
  intros Hwf Hst Hpg set j Ht Ej Hv Hpol Hvic Ho. pose proof Ho as [Hn Hsl Hs].
  pose proof (set_of_lt c pg Hwf) as Hlt. fold set in Hlt.
  pose proof (slot_index c set v Hwf Hlt Hv) as Hin. fold j in Hin.
  assert (Hsame : forall js0, j ∉ js0 ->
    map (fun j => page_at c' j) (j :: js0) = pg :: map (fun j => page_at c j) js0).
  { intros js0 Hj. cbn [map]. rewrite Ej. f_equal. apply map_ext_in. intros j' Hj'%list_elem_of_In.
    rewrite (proj2 (proj2 (proj2 (proj2 Ht)))); [done|]. by intros ->. }
  destruct Hvic as [He|[Hfull Hmin]].
  - fold j in He. assert (Hj : j ∉ js) by (intros [_ Hne]%Hsl; done).
    exists (j :: js). split.
    + apply (lru_order_front c); try done; [rewrite Ej; lia|]. intros j'. rewrite Hsl.
      split; [|tauto]. intros [? Hp]. split_and!; [done|done|]. by intros ->.
    + rewrite Hsame by done. apply take_ge. cbn [length]. rewrite length_map.
      apply (length_in_set c set (j :: js)); [done|done|by apply list.NoDup_cons|].
      intros j' [->|Hj']%elem_of_cons; [done|]. by apply Hsl.
  - rewrite Hpol in Hmin.
    assert (Hall : forall j', in_set c set j' -> j' ∈ js).
    { intros j' Hj'. apply Hsl. split; [done|]. destruct (in_set_index c set j' Hwf Hj') as (i & Hi & ->).
      by apply Hfull. }
    destruct (list_elem_of_split js j) as (a & b & ->); [by apply Hall|].
    pose proof (StronglySorted_app_inv _ _ _ _ Hs) as Hsab.
    destruct b as [|y b].
    2: { exfalso. assert (Hy : in_set c set y) by (apply Hsl, elem_of_app; right; right; by left).
         destruct (in_set_index c set y Hwf Hy) as (i & Hi & ->). specialize (Hmin i Hi).
         apply StronglySorted_after in Hs. simpl in Hs. fold j in Hmin. lia. }
    rewrite app_nil_r in Hsab. apply list.NoDup_app in Hn as (Hna & Hab & _).
    assert (Hj : j ∉ a) by (intros Ha; apply (Hab j Ha); by left).
    exists (j :: a). split.
    + apply (lru_order_front c); try done; [rewrite Ej; lia|]. intros j'. specialize (Hsl j').
      rewrite elem_of_app, list_elem_of_singleton in Hsl. destruct (decide (j' = j)) as [->|]; tauto.
    + rewrite Hsame by done.
      pose proof (length_full_set c set (a ++ [j]) Hwf Hlt Hall) as H1. rewrite length_app in H1.
      pose proof (length_in_set c set (a ++ [j]) Hwf Hlt) as H2. rewrite length_app in H2.
      rewrite map_app. change (pg :: map _ a ++ ?t) with ((pg :: map (fun j => page_at c j) a) ++ t).
      apply take_app_length'. cbn [length] in *. rewrite length_map.
      enough (length a + 1 <= ways c)%nat by lia. apply H2.
      * apply list.NoDup_app. split_and!; [done|done|]. apply NoDup_singleton.
      * intros j' Hj'. by apply Hsl.
Qed.

Lemma placed_touched c pg j c' : (j < length (slots c))%nat -> placed c pg j c' ->
  touched c c' j /\ page_at c' j = pg.
Proof.
  intros Hj (Es & _ & Ew & _). rewrite Es. unfold touched. rewrite Es, length_insert.
  rewrite !list_lookup_total_insert_eq by done. split_and!; try done.
  intros j' Hne. by rewrite list_lookup_total_insert_ne.
Qed.

(** LRU implements the recency list.  If a list describes the set of the
    page accessed, most recent first, then [cache_get] is a hit exactly when
    the list has the page, the new contents of that set are the list with the
    page moved to (or put at) the front and cut to [ways] pages, and every
    other set is described by the list that described it before. *)
Theorem lru_refines_recency_list c pg l : cache_wf c -> stamps_ok c -> 0 <= pg < EMPTY ->
  policy_of c = POLICY_LRU -> lru_rep c (set_of c pg) l ->
  let '(c', hit) := cache_get c pg in
  hit = bool_decide (pg ∈ l) /\
  lru_rep c' (set_of c pg) (lru_access (ways c) pg l) /\
  forall set k, set <> set_of c pg -> lru_rep c set k -> lru_rep c' set k.
Proof.
  intros Hwf Hst Hpg Hpol Hl. pose proof (lru_rep_elem c pg l Hwf Hpg Hl) as Hiff.
  assert (Hframe : forall c' j, touched c c' j -> in_set c (set_of c pg) j ->
    forall set k, set <> set_of c pg -> lru_rep c set k -> lru_rep c' set k).
  { intros c' j Ht [Hd _] set k Hne. apply (lru_rep_frame c c' j); [done|]. intros [Hd' _]. congruence. }
  destruct Hl as (js & Ho & ->). unfold lru_access. destruct (decide _) as [Hin|Hout].
  - unfold cache_get. fold (set_of c pg).
    pose proof (lookup_loop c pg Hwf Hpg) as Hlk. cbv zeta in Hlk.
    destruct (first_from _ _ _) as [i|]; [|by apply Hiff in Hin].
    destruct Hlk as (Hi & Hlen & E).
    pose proof (slot_index c _ i Hwf (set_of_lt c pg Hwf) Hi) as Hset.
    assert (Ht : touched c (mk_cache (<[(set_of c pg * ways c + i)%nat := mk_slot
      (page (slots c !!! (set_of c pg * ways c + i)%nat)) (u64 (clock c + 1)) true true]> (slots c))
      (sets c) (ways c) (hand c) (hash_of c) (policy_of c) (u64 (clock c + 1))
      (u64 (hits c + 1)) (misses c)) (set_of c pg * ways c + i)).
    { unfold touched. cbn [slots ways]. rewrite length_insert, list_lookup_total_insert_eq by done.
      split_and!; try done.
      - destruct Hst as [? _]. apply u64_small. unfold UINT64_MAX in *. lia.
      - intros j' Hne. by rewrite list_lookup_total_insert_ne. }
    split_and!; [by rewrite bool_decide_eq_true_2| |by eapply Hframe].
    eapply (lru_hit c); try done. cbn [slots]. by rewrite list_lookup_total_insert_eq.
  - destruct (cache_get_miss c pg Hwf Hst Hpg) as (v & Hv & Hhit & Hpl & Hvic);
      [by rewrite <- Hiff|by rewrite Hpol|].
    pose proof (slot_index c _ v Hwf (set_of_lt c pg Hwf) Hv) as Hset.
    destruct (placed_touched c pg _ _ (proj2 Hset) Hpl) as [Ht Ej].
    destruct (cache_get c pg) as [c' hit]. cbn [fst snd] in *.
    split_and!; [by rewrite bool_decide_eq_false_2| |by eapply Hframe].
    by apply (lru_miss c c' v).
Qed.

Lemma lru_rep_empty c set : (forall j, in_set c set j -> page_at c j = EMPTY) -> lru_rep c set [].
Proof.
  intros He. exists []. split; [|done]. split; [constructor| |constructor].
  intros j. split; [by intros ?%elem_of_nil|]. intros [Hj Hne]. exfalso. auto.
Qed.

Lemma lru_refines_recency_list_witness :
  let c := mk_cache [mk_slot EMPTY 0 false false; mk_slot EMPTY 0 false false] 1 2 [0%nat]
             HASH_LOW POLICY_LRU 0 0 0 in
  lru_rep (fst (cache_get c 7)) 0 [7].
Proof.
  intros c.
  pose proof (lru_refines_recency_list c 7 []) as H. destruct (cache_get c 7) as [c' hit].
  destruct H as (_ & E & _); [..|exact E].
  - split.
    + simpl. lia.
    + exists 0%nat. split; [lia|done].
    + done.
    + split; [done|]. repeat constructor; simpl; lia.
    + intros [|[|j]] q; simpl; rewrite ?lookup_nil; intros [= <-]; done.
    + intros [|[|j1]] [|[|j2]] q Hq; simpl; rewrite ?lookup_nil; congruence.
  - split; [simpl; unfold UINT64_MAX; lia|]. repeat constructor; simpl; lia.
  - unfold EMPTY, UINT64_MAX. lia.
  - done.
  - apply lru_rep_empty. intros [|[|j]] [_ Hj]; [done|done|simpl in Hj; lia].
Defined.

(** ** The workloads *)

Definition rng_ok (x : Z) : Prop := 0 < x < 2 ^ 64.

(** A left shift of a nonzero word never equals the word. *)
Lemma shl_fixpoint x k : 0 < k < 64 -> 0 <= x < 2 ^ 64 -> u64 (x .<< k) = x -> x = 0.
Proof.
  intros Hk Hx E. apply Z.bits_inj_0. intros i.
  destruct (Z.lt_ge_cases i 0) as [|Hi]; [by apply Z.testbit_neg_r|].
  destruct (Z.lt_ge_cases i 64) as [Hi64|]; [|by apply (testbit_above x 64)].
  revert Hi64. revert i Hi. apply (Zlt_0_ind (fun i => i < 64 -> Z.testbit x i = false)).
  intros i IH Hi Hi64. rewrite <- E. unfold u64. rewrite Z.mod_pow2_bits_low by lia.
  rewrite Z.shiftl_spec by lia. destruct (Z.lt_ge_cases (i - k) 0); [by apply Z.testbit_neg_r|].
  apply IH; lia.
Qed.

Lemma lxor_zero a b : a .^ b = 0 -> b = a.
Proof. intros E. symmetry. by apply Z.lxor_eq. Qed.

Lemma next_random_ok x : rng_ok x -> rng_ok (next_random x).
Proof.
  intros Hx. unfold next_random, rng_ok in *.
  assert (Hshl : forall y k, 0 < k < 64 -> 0 < y < 2 ^ 64 -> 0 < y .^ u64 (y .<< k) < 2 ^ 64).
  { intros y k Hk Hy. pose proof (lxor_nonneg_range y (u64 (y .<< k)) 64 ltac:(lia) ltac:(lia)
      (u64_range _)). destruct (Z.eq_dec (y .^ u64 (y .<< k)) 0) as [E|]; [|lia].
    apply lxor_zero, shl_fixpoint in E; lia. }
  apply Hshl; [lia|]. set (y := x .^ u64 (x .<< 13)).
  assert (Hy : 0 < y < 2 ^ 64) by (apply Hshl; lia).
  pose proof (lxor_nonneg_range y (y .>> 7) 64 ltac:(lia) ltac:(lia)
    ltac:(rewrite Z.shiftr_div_pow2 by lia; lia)).
  destruct (Z.eq_dec (y .^ (y .>> 7)) 0) as [E|]; [|lia].
  apply lxor_zero in E. rewrite Z.shiftr_div_pow2 in E by lia. lia.
Qed.

(** Every workload asks for a page of the file and keeps the generator alive. *)
Lemma next_page_ok w i r : rng_ok (rng_state r) ->
  let '(pg, _, r') := next_page w i r in
  0 <= pg < PAGES /\ rng_ok (rng_state r') /\ run_cache r' = run_cache r /\
  point_hits r' = point_hits r /\ point_total r' = point_total r.
Proof.
  intros Hr. assert (Hmod : forall x, 0 <= x mod PAGES < PAGES) by (intros; apply Z.mod_pos_bound; done).
  destruct w; cbn [next_page uniform_page hot_page].
  - split_and!; try done; apply Hmod || by apply next_random_ok.
  - split_and!; try done; apply Hmod || by do 2 apply next_random_ok.
  - unfold run_page. case_if; cbv zeta;
      split_and!; try done; apply Hmod || by do 2 apply next_random_ok.
  - case_if; split_and!; try done; apply Hmod || by do 2 apply next_random_ok.
Qed.

Lemma cache_get_counts c pg : 0 <= hits c -> 0 <= misses c -> hits c + misses c < UINT64_MAX ->
  let '(c', hit) := cache_get c pg in
  hits c' = hits c + (if (hit : bool) then 1 else 0) /\
  misses c' = misses c + (if hit then 0 else 1).
Proof.
  intros Hh Hm Hs. unfold UINT64_MAX in Hs. unfold cache_get. destruct (first_from _ _ _).
  - simpl. rewrite u64_small by lia. lia.
  - destruct (choose_victim _ _ _) as [[sl hd] v]. simpl. rewrite u64_small by lia. lia.
Qed.

(** A run of a workload is sound: it never leaves the cache ill formed,
    every page it asks for is a page of the file, the xorshift generator never
    reaches its fixed point zero, each access is counted once as a hit or a
    miss, and the hit rate it reports is a fraction of a positive total that
    is at most one. *)
Theorem run_workload_sound warm measured c w seed :
  cache_wf c -> 0 <= seed < 2 ^ 64 -> (0 < measured)%nat ->
  Z.of_nat (warm + measured) < UINT64_MAX ->
  let r := run_workload warm measured c w seed in
  cache_wf (run_cache r) /\ rng_ok (rng_state r) /\
  hits (run_cache r) + misses (run_cache r) = Z.of_nat (warm + measured) /\
  let '(num, den) := hit_rate w r in 0 <= num <= den /\ 0 < den.
Proof.
  intros Hwf Hseed Hm Hn. unfold run_workload.
  set (c0 := mk_cache _ _ _ _ _ _ _ _ _). set (r0 := mk_run _ _ _ _ _ _ _).
  set (Inv := fun n (r : run) => cache_wf (run_cache r) /\ rng_ok (rng_state r) /\
    0 <= hits (run_cache r) /\ 0 <= misses (run_cache r) /\
    hits (run_cache r) + misses (run_cache r) = Z.of_nat n /\
    0 <= point_hits r <= point_total r /\ point_total r <= Z.of_nat n).
  assert (HI : Inv (warm + measured)%nat (for_loop (warm + measured) (run_step warm w) r0)).
  { apply (for_loop_ind Inv).
    - subst Inv. simpl. split_and!; try done; try lia; [by apply (wf_same_pages c)|].
      unfold reseed, rng_ok. case_if; lia.
    - intros i r Hi (Hwf' & Hr & Hh & Hms & Hsum & Hp & Hpt). unfold run_step.
      pose proof (next_page_ok w i r Hr) as Hnp.
      destruct (next_page w i r) as [[pg sc] r']. destruct Hnp as (Hpg & Hr' & Ec & Eh & Et).
      rewrite Ec. pose proof (cache_get_pages (run_cache r) pg Hwf') as Hg.
      pose proof (cache_get_counts (run_cache r) pg Hh Hms ltac:(lia)) as Hcnt.
      destruct (cache_get (run_cache r) pg) as [c' hit].
      destruct Hg as [Hwf'' _]; [unfold EMPTY, UINT64_MAX, PAGES in *; lia|].
      destruct Hcnt as [E1 E2]. subst Inv. cbn [run_cache rng_state point_hits point_total].
      assert (Ew : forall x, 0 <= x <= Z.of_nat i -> u64 (x + 1) = x + 1)
        by (intros; apply u64_small; unfold UINT64_MAX in *; lia).
      rewrite Eh, Et, !Ew by lia. destruct ((warm <=? i)%nat && negb sc), hit; cbn [andb];
        split_and!; try done; lia. }
  destruct HI as (Hwf' & Hr & Hh & Hms & Hsum & Hp & Hpt). split_and!; try done.
  unfold hit_rate. rewrite Hsum. rewrite u64_small by (unfold UINT64_MAX in *; lia).
  destruct w; try (split; lia). case_if; lia.
Qed.

Lemma run_workload_sound_witness :
  cache_wf (run_cache (run_workload 5 20 (cache_init 8 HASH_MIX POLICY_PROBATION) W_SCAN_STORM 0)).
Proof.
  destruct (run_workload_sound 5 20 (cache_init 8 HASH_MIX POLICY_PROBATION) W_SCAN_STORM 0)
    as (E & _); [..|exact E].
  - apply cache_init_wf. exists 3%nat. split; [lia|reflexivity].
  - lia.
  - lia.
  - unfold UINT64_MAX. lia.
Defined.
