(* ===== verification/IoSpike.v ===== *)
(** * IoSpike: the plaintext page cache in front of a file, and its workloads

    [benchmarks/io_spike.c]: the keystream [transform], the eight-way cache
    with one clock hand per set, the read paths (mapping, dispatch through a
    pointer, cache) and the point and scan workloads that run on each.

    The operating system is a parameter: [pread off] is the list of bytes a
    [pread(fd, buf, PAGE_SIZE, off)] transfers, shorter than a page when the
    call falls short and empty when it fails.  [file_read_at] writes what was
    transferred into the buffer and succeeds when that is a whole page. *)

From S2P Require Import Prelude.

Definition PAGE_SIZE : nat := Z.to_nat 4096.
Definition WAYS : nat := 8.

(** ** The generator and the transform *)

Definition rng_next (x : Z) : Z :=
  let x := x .^ u64 (x .<< 13) in
  let x := x .^ (x .>> 7) in
  x .^ u64 (x .<< 17).

(** [*(uint64_t * )(page + off)]. *)
Definition load64 (page : list Z) (off : nat) : Z := le_val (take 8 (drop off page)).

Definition transform_words (words : nat) (k : Z) (page : list Z) : Z * list Z :=
  for_loop words (fun i '(k, page) =>
    let k := rng_next k in
    (k, memcpy page (8 * i) (le_bytes 8 (load64 page (8 * i) .^ k)))) (k, page).

Definition transform (page : list Z) (page_no : Z) : list Z :=
  let k := u64 (page_no * 0x9E3779B97F4A7C15 + 0x1234567891234567) in
  snd (transform_words (PAGE_SIZE / 8) k page).

(** ** The cache *)

Record page_cache := mk_page_cache {
  tags : list Z;
  slots : list (list Z);
  refbit : list bool;
  hand : list nat;
  sets : Z;
  set_mask : Z;
  hits : Z;
  misses : Z;
}.

(** [while (sets < want_sets) sets <<= 1]; 32 doublings of a [uint32_t]
    exhaust it. *)
Definition cache_sets (slots : Z) : Z :=
  let want_sets := if slots / Z.of_nat WAYS =? 0 then 1 else slots / Z.of_nat WAYS in
  while_loop 32 (fun sets => sets <? want_sets) (fun sets => u32 (sets .<< 1)) 1.

(** [malloc] leaves the slots as they were: [junk]. *)
Definition cache_init (slots : Z) (junk : list (list Z)) : page_cache :=
  let sets := cache_sets slots in
  let count := u32 (sets * Z.of_nat WAYS) in
  mk_page_cache (replicate (Z.to_nat count) 0) junk (replicate (Z.to_nat count) false)
                (replicate (Z.to_nat sets) 0%nat) sets (u32 (sets - 1)) 0 0.

Definition cache_reset (c : page_cache) : page_cache :=
  mk_page_cache (replicate (length (tags c)) 0) (slots c)
                (replicate (length (refbit c)) false) (replicate (length (hand c)) 0%nat)
                (sets c) (set_mask c) 0 0.

(** The clock's [for (;;)]: the reference bits, the hand and the slot taken;
    [None] when the fuel runs out. *)
Fixpoint clock_pick (fuel : nat) (tags : list Z) (base : nat) (refbit : list bool) (h : nat)
    : option (list bool * nat * nat) :=
  match fuel with
  | O => None
  | S fuel' =>
      let w := h in
      let h := ((w + 1) mod WAYS)%nat in
      if (tags !!! (base + w)%nat =? 0) || negb (refbit !!! (base + w)%nat)
      then Some (refbit, h, w)
      else clock_pick fuel' tags base (<[(base + w)%nat := false]> refbit) h
  end.

Definition set_index (c : page_cache) (page_no : Z) : nat :=
  Z.to_nat (u32 (u64 (page_no * 0x9E3779B97F4A7C15) .>> 33) .& set_mask c).

Section reads.
Context (pread : Z -> list Z).

(** The buffer afterwards, and whether the read succeeded. *)
Definition file_read_at (offset : Z) (buf : list Z) : list Z * bool :=
  let got := pread offset in
  (memcpy buf 0 got, (length got =? PAGE_SIZE)%nat).

(** The cache and the page it returns, [None] for [NULL]. *)
Definition cache_get (with_transform : bool) (c : page_cache) (page_no : Z)
    : page_cache * option (list Z) :=
  let want := u64 (page_no + 1) in
  let set := set_index c page_no in
  let base := (set * WAYS)%nat in
  match first_from (fun w => tags c !!! (base + w)%nat =? want) 0 WAYS with
  | Some w =>
      (mk_page_cache (tags c) (slots c) (<[(base + w)%nat := true]> (refbit c)) (hand c)
         (sets c) (set_mask c) (u64 (hits c + 1)) (misses c),
       Some (slots c !!! (base + w)%nat))
  | None =>
      match clock_pick (WAYS + 1) (tags c) base (refbit c) (hand c !!! set) with
      | None => (c, None)
      | Some (refbit, h, w) =>
          let victim := (base + w)%nat in
          let '(slot, ok) := file_read_at (u64 (page_no * Z.of_nat PAGE_SIZE))
                               (slots c !!! victim) in
          let hand := <[set := h]> (hand c) in
          let misses := u64 (misses c + 1) in
          if ok then
            let slot := if with_transform then transform slot page_no else slot in
            (mk_page_cache (<[victim := want]> (tags c)) (<[victim := slot]> (slots c))
               (<[victim := true]> refbit) hand (sets c) (set_mask c) (hits c) misses,
             Some slot)
          else
            (mk_page_cache (tags c) (<[victim := slot]> (slots c)) refbit hand
               (sets c) (set_mask c) (hits c) misses, None)
      end
  end.
End reads.

(** ** The read paths and the workloads

    [get] threads the state of a read path: none for a mapping, the cache for
    [cache_page]. *)

Definition shared_page (base : list Z) (_ : unit) (page_no : Z) : unit * option (list Z) :=
  (tt, Some (take PAGE_SIZE (drop (Z.to_nat page_no * PAGE_SIZE) base))).

Definition dispatch_page {S} (g_dispatch : S -> Z -> S * option (list Z)) (ctx : S) (page_no : Z)
    : S * option (list Z) := g_dispatch ctx page_no.

Definition cache_page (pread : Z -> list Z) (g_transform : bool) (c : page_cache) (page_no : Z)
    : page_cache * option (list Z) := cache_get pread g_transform c page_no.

Section workloads.
Context {S : Type} (get : S -> Z -> S * option (list Z)).

Definition seed : Z := 0x2026091500000001.

(** [if (page) acc += *(uint64_t * )(page + 16)]. *)
Definition touch (s : S) (acc p : Z) : S * Z :=
  let '(s, page) := get s p in
  match page with Some page => (s, u64 (acc + load64 page 16)) | None => (s, acc) end.

Definition warm (pages touches : nat) (s : S) : S * Z :=
  let '(s, acc) := for_loop pages (fun i '(s, acc) => touch s acc (Z.of_nat i)) (s, 0) in
  let '(s, acc, _) := for_loop touches (fun _ '(s, acc, rng) =>
    let rng := rng_next rng in
    let '(s, acc) := touch s acc (rng mod Z.of_nat pages) in (s, acc, rng)) (s, acc, seed) in
  (s, acc).

(** The timed loop: [None] is [return -1.0]. *)
Fixpoint point_loop (n : nat) (pages : nat) (s : S) (acc rng : Z) : S * option Z :=
  match n with
  | O => (s, Some acc)
  | Datatypes.S n' =>
      let rng := rng_next rng in
      let '(s, page) := get s (rng mod Z.of_nat pages) in
      match page with
      | None => (s, None)
      | Some page => point_loop n' pages s (u64 (acc + load64 page 16)) rng
      end
  end.

(** [run_point]'s effect on [sink]; the elapsed time is not modelled. *)
Definition run_point (pages touches : nat) (s : S) (sink : Z) : S * option Z :=
  let '(s, acc) := warm pages (touches / 4) s in
  let sink := u64 (sink + acc) in
  let '(s, acc) := point_loop touches pages s 0 seed in
  match acc with Some acc => (s, Some (u64 (sink + acc))) | None => (s, None) end.

(** [for (j = 0; j < PAGE_SIZE / 8; j += 8) acc += w[j]]. *)
Definition sum_page (page : list Z) (acc : Z) : Z :=
  for_loop (PAGE_SIZE / 64) (fun j acc => u64 (acc + load64 page (64 * j))) acc.

Fixpoint scan_pages (n : nat) (p : Z) (s : S) (acc : Z) : S * option Z :=
  match n with
  | O => (s, Some acc)
  | Datatypes.S n' =>
      let '(s, page) := get s p in
      match page with
      | None => (s, None)
      | Some page => scan_pages n' (p + 1) s (sum_page page acc)
      end
  end.

Fixpoint scan_sweeps (n : nat) (pages : nat) (s : S) (acc : Z) : S * option Z :=
  match n with
  | O => (s, Some acc)
  | Datatypes.S n' =>
      let '(s, acc) := scan_pages pages 0 s acc in
      match acc with Some acc => scan_sweeps n' pages s acc | None => (s, None) end
  end.

Definition run_scan (pages sweeps : nat) (s : S) (sink : Z) : S * option Z :=
  let '(s, acc) := for_loop pages (fun p '(s, acc) => touch s acc (Z.of_nat p)) (s, 0) in
  let '(s, acc) := scan_sweeps sweeps pages s acc in
  match acc with Some acc => (s, Some (u64 (sink + acc))) | None => (s, None) end.
End workloads.

Lemma page_words : (8 * (PAGE_SIZE / 8))%nat = PAGE_SIZE.
Proof. unfold PAGE_SIZE. lia. Qed.

#[local] Opaque PAGE_SIZE.

(** ** The transform *)

Lemma rng_next_range x : 0 <= x < 2 ^ 64 -> 0 <= rng_next x < 2 ^ 64.
Proof.
  intros Hx. unfold rng_next.
  assert (Hshl : forall y k, 0 <= y < 2 ^ 64 -> 0 <= y .^ u64 (y .<< k) < 2 ^ 64)
    by (intros; apply lxor_nonneg_range; [lia|done|apply u64_range]).
  apply Hshl. apply lxor_nonneg_range; [lia|by apply Hshl|].
  pose proof (Hshl x 13 Hx). rewrite Z.shiftr_div_pow2 by lia. lia.
Qed.

(** The transform word by word from the front. *)
Fixpoint xor_words (n : nat) (k : Z) (page : list Z) : list Z :=
  match n with
  | O => page
  | S n' => let k := rng_next k in
            le_bytes 8 (le_val (take 8 page) .^ k) ++ xor_words n' k (drop 8 page)
  end.

Lemma transform_words_fold n j k pre page :
  length pre = (8 * j)%nat -> (8 * n <= length page)%nat ->
  snd (fold_left (fun s i => let '(k, page) := s in
         (rng_next k, memcpy page (8 * i) (le_bytes 8 (load64 page (8 * i) .^ rng_next k))))
         (seq j n) (k, pre ++ page)) = pre ++ xor_words n k page.
Proof.
  revert j k pre page. induction n as [|n IH]; intros j k pre page Hpre Hlen; [done|].
  cbn [seq fold_left xor_words].
  assert (Eload : load64 (pre ++ page) (8 * j) = le_val (take 8 page)).
  { unfold load64. by rewrite drop_app_length'. }
  rewrite Eload. set (b := le_bytes 8 _).
  assert (Hb : length b = 8%nat) by apply length_le_bytes.
  assert (Emem : memcpy (pre ++ page) (8 * j) b = (pre ++ b) ++ drop 8 page).
  { unfold memcpy. rewrite take_app_length' by done. rewrite <- app_assoc. do 2 f_equal.
    rewrite Hb, <- Hpre, drop_app_add. done. }
  rewrite Emem, IH, <- app_assoc; [done|rewrite length_app; lia|rewrite length_drop; lia].
Qed.

Lemma transform_words_xor n k page : (8 * n <= length page)%nat ->
  snd (transform_words n k page) = xor_words n k page.
Proof. intros Hl. by apply (transform_words_fold n 0 k [] page). Qed.

Lemma transform_xor_words page p : (PAGE_SIZE <= length page)%nat ->
  transform page p
  = xor_words (PAGE_SIZE / 8) (u64 (p * 0x9E3779B97F4A7C15 + 0x1234567891234567)) page.
Proof.
  intros Hl. unfold transform. cbv zeta. apply transform_words_xor. by rewrite page_words.
Qed.

Lemma length_xor_words n k page : (8 * n <= length page)%nat ->
  length (xor_words n k page) = length page.
Proof.
  revert k page. induction n as [|n IH]; intros k page Hl; [done|]. cbn [xor_words].
  rewrite length_app, length_le_bytes, IH, length_drop by (rewrite length_drop; lia). lia.
Qed.

Lemma bytes_xor_words n k page : bytes page -> bytes (xor_words n k page).
Proof.
  revert k page. induction n as [|n IH]; intros k page Hb; [done|]. cbn [xor_words].
  apply bytes_app. auto with word.
Qed.

Lemma xor_words_involutive n k page : 0 <= k < 2 ^ 64 -> bytes page -> (8 * n <= length page)%nat ->
  xor_words n k (xor_words n k page) = page.
Proof.
  revert k page. induction n as [|n IH]; intros k page Hk Hb Hl; [done|]. cbn [xor_words].
  pose proof (rng_next_range k Hk) as Hk'. set (k' := rng_next k) in *.
  assert (Ht : length (take 8 page) = 8%nat) by (rewrite length_take; lia).
  pose proof (le_val_range (take 8 page) (bytes_take _ _ Hb)) as Hv. rewrite Ht in Hv.
  rewrite take_app_length', drop_app_length' by (by rewrite length_le_bytes).
  rewrite le_val_le_bytes by (by apply lxor_nonneg_range).
  rewrite lxor_cancel_r. rewrite IH by (auto with word; rewrite length_drop; lia).
  rewrite <- Ht at 1. rewrite le_bytes_le_val by auto with word. apply take_drop.
Qed.

(** The transform is its own inverse, and keeps the length of a page. *)
Lemma transform_twice page p : bytes page -> length page = PAGE_SIZE ->
  transform (transform page p) p = page /\ length (transform page p) = PAGE_SIZE.
Proof.
  intros Hb Hl. pose proof page_words.
  rewrite (transform_xor_words page) by lia.
  assert (E : length (xor_words (PAGE_SIZE / 8) (u64 (p * 0x9E3779B97F4A7C15 + 0x1234567891234567))
    page) = PAGE_SIZE) by (rewrite length_xor_words; lia).
  split; [|done]. rewrite transform_xor_words by lia.
  apply xor_words_involutive; [apply u64_range|done|lia].
Qed.

(** ** The clock always finds a victim *)

(** The reference bits set in a set of the cache. *)
Definition refs_set (rb : list bool) (base : nat) : nat :=
  length (List.filter (fun i => rb !!! (base + i)%nat) (seq 0 WAYS)).

Lemma filter_clear {A} (p q : A -> bool) (x : A) l : List.NoDup l -> In x l ->
  p x = true -> q x = false -> (forall y, y <> x -> q y = p y) ->
  S (length (List.filter q l)) = length (List.filter p l).
Proof.
  intros Hn Hx Hp Hq Hoth. induction Hn as [|y l Hy Hn IH]; [done|]. simpl.
  destruct Hx as [->|Hx].
  - rewrite Hp, Hq. simpl. do 2 f_equal. apply List.filter_ext_in. intros z Hz. apply Hoth.
    by intros ->.
  - rewrite Hoth by (by intros ->). destruct (p y); simpl; rewrite IH by done; done.
Qed.

Lemma clock_pick_ok fuel tags base rb h : (base + WAYS <= length rb)%nat -> (h < WAYS)%nat ->
  (refs_set rb base < fuel)%nat ->
  exists rb' h' w, clock_pick fuel tags base rb h = Some (rb', h', w) /\
    length rb' = length rb /\ (h' < WAYS)%nat /\ (w < WAYS)%nat /\
    (tags !!! (base + w)%nat = 0 \/ rb' !!! (base + w)%nat = false).
Proof.
  revert rb h. induction fuel as [|fuel IH]; intros rb h Hl Hh Hf; [lia|]. cbn [clock_pick].
  assert (Hh' : ((h + 1) mod WAYS < WAYS)%nat) by (apply Nat.mod_upper_bound; done).
  destruct (_ || _) eqn:E.
  - exists rb, ((h + 1) mod WAYS)%nat, h. split_and!; try done.
    apply orb_true_iff in E as [E|E]; bool_to_prop; auto.
  - bool_to_prop. destruct (IH (<[(base + h)%nat := false]> rb) ((h + 1) mod WAYS)%nat)
      as (rb' & h' & w & Ew & Elen & ? & ? & ?); [by rewrite length_insert|done| |].
    + unfold refs_set in *.
      rewrite <- (filter_clear (fun i => rb !!! (base + i)%nat)
        (fun i => <[(base + h)%nat := false]> rb !!! (base + i)%nat) h) in Hf; [lia|..].
      * apply seq_NoDup.
      * apply in_seq. lia.
      * done.
      * rewrite list_lookup_total_insert_eq by lia. done.
      * intros y Hy. by rewrite list_lookup_total_insert_ne by lia.
    + exists rb', h', w. rewrite length_insert in Elen. done.
Qed.

Lemma refs_set_bound rb base : (refs_set rb base < WAYS + 1)%nat.
Proof.
  unfold refs_set. pose proof (filter_length_le (fun i => rb !!! (base + i)%nat) (seq 0 WAYS)) as H.
  rewrite length_seq in H. lia.
Qed.

(** ** Coherence: what a tagged slot holds *)

Section coherence.
Context (pread : Z -> list Z) (with_transform : bool).

Definition readable (p : Z) : Prop :=
  length (pread (u64 (p * Z.of_nat PAGE_SIZE))) = PAGE_SIZE.

(** The page as the caller is to see it. *)
Definition content (p : Z) : list Z :=
  let page := pread (u64 (p * Z.of_nat PAGE_SIZE)) in
  if with_transform then transform page p else page.

(** [n] is the number of sets. *)
Record coherent (n : nat) (c : page_cache) : Prop := {
  co_sets : exists k, 0 <= k <= 31 /\ sets c = 2 ^ k /\ set_mask c = 2 ^ k - 1 /\
              n = Z.to_nat (2 ^ k);
  co_tags : length (tags c) = (n * WAYS)%nat;
  co_slots : length (slots c) = (n * WAYS)%nat;
  co_refs : length (refbit c) = (n * WAYS)%nat;
  co_hand : length (hand c) = n /\ Forall (fun h => h < WAYS)%nat (hand c);
  co_buf : Forall (fun s => length s = PAGE_SIZE) (slots c);
  co_page j t : tags c !! j = Some t -> t <> 0 -> slots c !! j = Some (content (t - 1));
}.

Lemma set_index_lt n c p : coherent n c -> (set_index c p < n)%nat.
Proof.
  intros Hc. destruct (co_sets n c Hc) as (k & Hk & _ & Em & ->). unfold set_index.
  rewrite Em, land_mask by lia. pose proof (Z.mod_pos_bound (u32 (u64 (p * 0x9E3779B97F4A7C15) .>> 33)) (2 ^ k)).
  lia.
Qed.

Lemma memcpy_whole (buf got : list Z) : length buf = length got -> memcpy buf 0 got = got.
Proof.
  intros E. unfold memcpy. rewrite take_0, drop_ge by lia. apply app_nil_r.
Qed.

(** A read of a readable page: it is a hit or the victim is refilled, and the
    caller sees the page either way. *)
Lemma cache_get_content n c p : coherent n c -> 0 <= p < 2 ^ 52 -> readable p ->
  length (content p) = PAGE_SIZE ->
  exists c', cache_get pread with_transform c p = (c', Some (content p)) /\ coherent n c'.
Proof.
  intros Hc Hp Hread Hlen. pose proof (set_index_lt n c p Hc) as Hs.
  assert (Hu : u64 (p + 1) = p + 1) by (apply u64_small; lia).
  unfold cache_get. rewrite Hu. set (base := (set_index c p * WAYS)%nat).
  assert (Hbase : (base + WAYS <= n * WAYS)%nat) by (subst base; nia).
  destruct (first_from _ _ _) as [w|] eqn:Ef.
  - apply first_from_Some in Ef as (Hw & Et & _). bool_to_prop.
    destruct (lookup_lt_is_Some_2 (tags c) (base + w)) as [t Ht]; [rewrite (co_tags n c Hc); lia|].
    rewrite (list_lookup_total_correct _ _ _ Ht) in Et. subst t.
    pose proof (co_page n c Hc _ _ Ht ltac:(lia)) as Hsl. replace (p + 1 - 1) with p in Hsl by lia.
    rewrite (list_lookup_total_correct _ _ _ Hsl). eexists. split; [done|].
    destruct Hc as [? ? ? ? ? ? ?]. split; cbn; try done. by rewrite length_insert.
  - destruct (co_hand n c Hc) as [Hhl Hhf].
    assert (Hh : (hand c !!! set_index c p < WAYS)%nat).
    { destruct (lookup_lt_is_Some_2 (hand c) (set_index c p)) as [h Eh]; [lia|].
      rewrite (list_lookup_total_correct _ _ _ Eh). by eapply (Forall_lookup_1 _ _ _ _ Hhf) in Eh. }
    destruct (clock_pick_ok (WAYS + 1) (tags c) base (refbit c) (hand c !!! set_index c p))
      as (rb & h & w & -> & Hrl & Hh' & Hw & _);
      [by rewrite (co_refs n c Hc)|done|apply refs_set_bound|].
    assert (Hv : (base + w < length (slots c))%nat) by (rewrite (co_slots n c Hc); lia).
    destruct (lookup_lt_is_Some_2 (slots c) (base + w) Hv) as [buf Hbuf].
    assert (Hbl : length buf = PAGE_SIZE) by (by eapply (Forall_lookup_1 _ _ _ _ (co_buf n c Hc)) in Hbuf).
    rewrite (list_lookup_total_correct _ _ _ Hbuf). unfold file_read_at.
    rewrite Hread, Nat.eqb_refl, memcpy_whole by (by rewrite Hbl). fold (content p).
    eexists. split; [done|]. destruct Hc as [Hk Ht Hsl Hrf Hhd Hbf Hpg].
    split; cbn; rewrite ?length_insert; try done.
    + by rewrite Hrl.
    + split; [done|]. by apply Forall_insert.
    + by apply Forall_insert.
    + intros j t. destruct (decide (j = base + w)%nat) as [->|].
      * rewrite !list_lookup_insert_eq by lia. intros [= <-] _. by replace (p + 1 - 1) with p by lia.
      * rewrite !list_lookup_insert_ne by done. apply Hpg.
Qed.
End coherence.

(** ** The number of sets *)

(** The least power of two that is at least [want_sets], reached before the
    [uint32_t] could wrap. *)
Lemma double_until want m i : 0 <= i -> i + Z.of_nat m <= 31 -> want <= 2 ^ (i + Z.of_nat m) ->
  (i = 0 \/ 2 ^ (i - 1) < want) ->
  exists k, i <= k <= i + Z.of_nat m /\ want <= 2 ^ k /\ (k = 0 \/ 2 ^ (k - 1) < want) /\
    forall extra, while_loop (m + extra) (fun sets => sets <? want)
      (fun sets => u32 (sets .<< 1)) (2 ^ i) = 2 ^ k.
Proof.
  revert i. induction m as [|m IH]; intros i Hi Hm Hw Hlow.
  - rewrite Z.add_0_r in Hw. exists i. split_and!; try done; try lia. intros extra.
    destruct extra; simpl; [done|]. by case_if; [lia|].
  - destruct (Z.lt_ge_cases (2 ^ i) want) as [Hlt|Hge].
    + destruct (IH (i + 1)) as (k & Hk & Hwk & Hl & Hloop); [lia|lia| |right|].
      * by replace (i + 1 + Z.of_nat m) with (i + Z.of_nat (S m)) by lia.
      * by replace (i + 1 - 1) with i by lia.
      * exists k. split_and!; try done; try lia. intros extra. rewrite <- (Hloop extra).
        cbn [Nat.add while_loop]. case_if; [|lia]. f_equal. unfold u32.
        rewrite Z.shiftl_mul_pow2, <- Z.pow_add_r by lia. apply Z.mod_small.
        split; [lia|]. apply Z.pow_lt_mono_r; lia.
    + exists i. split_and!; try done; try lia. intros extra. cbn [Nat.add while_loop].
      by case_if; [lia|].
Qed.

Lemma cache_sets_ok slots : 0 <= slots <= 2 ^ 31 ->
  exists k, 0 <= k <= 28 /\ cache_sets slots = 2 ^ k /\ slots / 8 <= 2 ^ k /\
    (k = 0 \/ 2 ^ (k - 1) < slots / 8).
Proof.
  intros Hs. unfold cache_sets. change (Z.of_nat WAYS) with 8.
  destruct (double_until (if slots / 8 =? 0 then 1 else slots / 8) 28 0)
    as (k & Hk & Hw & Hl & Hloop); [lia|lia|case_if; simpl; lia|by left|].
  exists k. specialize (Hloop 4%nat). change (28 + 4)%nat with 32%nat in Hloop.
  change (2 ^ 0) with 1 in Hloop. rewrite Hloop.
  split; [lia|]. split; [done|]. split; [revert Hw; case_if; lia|].
  destruct Hl as [->|Hl]; [by left|]. revert Hl. case_if; [|by right].
  intros Hl. left. destruct (Z.eq_dec k 0) as [|]; [done|].
  pose proof (Z.pow_pos_nonneg 2 (k - 1)). lia.
Qed.

Lemma cache_init_ok pread with_transform budget junk : 0 <= budget <= 2 ^ 31 ->
  let c := cache_init budget junk in
  length junk = Z.to_nat (sets c * 8) -> Forall (fun s => length s = PAGE_SIZE) junk ->
  coherent pread with_transform (Z.to_nat (sets c)) c.
Proof.
  intros Hb c Hj Hjf. destruct (cache_sets_ok budget Hb) as (k & Hk & Ek & _).
  assert (Hp : 1 <= 2 ^ k <= 2 ^ 28).
  { split; [|apply Z.pow_le_mono_r; lia]. pose proof (Z.pow_pos_nonneg 2 k). lia. }
  assert (Ec : u32 (2 ^ k * 8) = 2 ^ k * 8) by (apply u32_small; lia).
  subst c. unfold cache_init in *. cbn [sets] in *. rewrite Ek in *.
  change (Z.of_nat WAYS) with 8 in *.
  split; cbn; rewrite ?length_replicate, ?Ec; try (unfold WAYS; lia); try done.
  - exists k. split_and!; try done; try lia. apply u32_small. lia.
  - split; [done|]. apply Forall_replicate. unfold WAYS. lia.
  - intros j t Ht Hne. apply lookup_replicate in Ht as [-> _]. done.
Qed.

(** [cache_init] sizes the cache without wrapping: for any budget up to
    2^31 pages the number of sets is the least power of two that is at least
    [slots / WAYS] (one for a small budget), the 32-bit slot count is exactly
    eight slots a set, and the cache it makes is coherent with any file. *)
Theorem cache_init_coherent pread with_transform budget junk : 0 <= budget <= 2 ^ 31 ->
  let c := cache_init budget junk in
  length junk = Z.to_nat (sets c * 8) -> Forall (fun s => length s = PAGE_SIZE) junk ->
  coherent pread with_transform (Z.to_nat (sets c)) c /\
  length (tags c) = Z.to_nat (sets c * 8) /\
  budget / 8 <= sets c /\ (sets c = 1 \/ sets c < 2 * (budget / 8)).
Proof.
  intros Hb c Hj Hjf. pose proof (cache_init_ok pread with_transform budget junk Hb Hj Hjf) as Hc.
  fold c in Hc. split; [done|]. rewrite (co_tags _ _ _ _ Hc).
  destruct (cache_sets_ok budget Hb) as (k & Hk & Ek & Hge & Hle).
  subst c. cbn [cache_init sets] in *. rewrite Ek in *. pose proof (Z.pow_pos_nonneg 2 k).
  split_and!; [unfold WAYS; lia|done|]. destruct Hle as [->|Hle]; [by left|right].
  destruct (Z.eq_dec k 0) as [->|]; [simpl in *; lia|].
  replace k with (1 + (k - 1)) at 1 by lia. rewrite Z.pow_add_r by lia. lia.
Qed.

Lemma cache_init_coherent_witness :
  let c := cache_init 20 (replicate 16 (replicate PAGE_SIZE 0)) in
  coherent (fun _ => []) false (Z.to_nat (sets c)) c /\ length (tags c) = Z.to_nat (sets c * 8) /\
  20 / 8 <= sets c /\
  (sets c = 1 \/ sets c < 2 * (20 / 8)).
Proof.
  apply (cache_init_coherent (fun _ => []) false 20 (replicate 16 (replicate PAGE_SIZE 0))).
  - lia.
  - rewrite length_replicate. reflexivity.
  - apply Forall_replicate. apply length_replicate.
Defined.

(** ** Read paths as an interface

    What a workload relies on: in a good state, a read of any page of the file
    returns [view] of that page and leaves a good state. *)

Class PageSource {S : Type} (get : S -> Z -> S * option (list Z)) (pages : nat)
    (view : Z -> list Z) := {
  ps_inv : S -> Prop;
  ps_get s p : ps_inv s -> 0 <= p < Z.of_nat pages ->
    exists s', get s p = (s', Some (view p)) /\ ps_inv s';
}.

(** The reference read path: the view itself. *)
Definition view_page (view : Z -> list Z) (s : unit) (p : Z) : unit * option (list Z) :=
  (s, Some (view p)).

Section sources.
Context {S : Type} {get : S -> Z -> S * option (list Z)} {pages : nat} {view : Z -> list Z}.
Context {PS : PageSource get pages view} (Hpages : (0 < pages)%nat).

Lemma touch_view s acc p : ps_inv s -> 0 <= p < Z.of_nat pages ->
  exists s', touch get s acc p = (s', u64 (acc + load64 (view p) 16)) /\ ps_inv s'.
Proof.
  intros Hs Hp. destruct (ps_get s p Hs Hp) as (s' & E & Hs'). exists s'.
  unfold touch. by rewrite E.
Qed.

Lemma sweep_view s acc :
  ps_inv s ->
  exists s', ps_inv s' /\
    for_loop pages (fun i '(s, acc) => touch get s acc (Z.of_nat i)) (s, acc)
    = (s', snd (for_loop pages (fun i '(s, acc) => touch (view_page view) s acc (Z.of_nat i))
                  (tt, acc))).
Proof.
  intros Hs. pose proof (for_loop_rel (fun (x : S * Z) (y : unit * Z) => ps_inv (fst x) /\ snd x = snd y)
    pages (fun i '(s, acc) => touch get s acc (Z.of_nat i))
    (fun i '(s, acc) => touch (view_page view) s acc (Z.of_nat i)) (s, acc) (tt, acc)) as H.
  destruct H as [H1 H2]; [done| |].
  - intros i [s1 a1] [[] a2] Hi [Hi1 E]. simpl in E, Hi1. subst a2.
    destruct (touch_view s1 a1 (Z.of_nat i) Hi1) as (s' & -> & Hs'); [lia|]. done.
  - destruct (for_loop pages _ (s, acc)) as [s' a']. simpl in *. subst a'. by exists s'.
Qed.

Lemma rng_page rng : 0 <= rng mod Z.of_nat pages < Z.of_nat pages.
Proof. apply Z.mod_pos_bound. lia. Qed.

Lemma warm_view touches s : ps_inv s ->
  exists s', ps_inv s' /\
    warm get pages touches s = (s', snd (warm (view_page view) pages touches tt)).
Proof.
  intros Hs. unfold warm. destruct (sweep_view s 0 Hs) as (s1 & Hs1 & ->).
  destruct (for_loop pages _ (tt, 0)) as [[] a]. cbn [snd].
  pose proof (for_loop_rel (fun (x : S * Z * Z) (y : unit * Z * Z) =>
    ps_inv (fst (fst x)) /\ snd (fst x) = snd (fst y) /\ snd x = snd y) touches
    (fun _ '(s, acc, rng) => let rng := rng_next rng in
       let '(s, acc) := touch get s acc (rng mod Z.of_nat pages) in (s, acc, rng))
    (fun _ '(s, acc, rng) => let rng := rng_next rng in
       let '(s, acc) := touch (view_page view) s acc (rng mod Z.of_nat pages) in (s, acc, rng))
    (s1, a, seed) (tt, a, seed)) as H.
  destruct H as (H1 & H2 & H3); [done| |].
  - intros i [[s2 a2] g2] [[[] a3] g3] _ (Hi & E1 & E2). simpl in *. subst a3 g3.
    destruct (touch_view s2 a2 _ Hi (rng_page (rng_next g2))) as (s' & -> & Hs'). done.
  - destruct (for_loop touches _ (s1, a, seed)) as [[s' a'] g'].
    destruct (for_loop touches _ (tt, a, seed)) as [[[] a''] g'']. simpl in *. subst. by exists s'.
Qed.

Lemma point_loop_view n s acc rng : ps_inv s ->
  exists s', ps_inv s' /\
    point_loop get n pages s acc rng
    = (s', snd (point_loop (view_page view) n pages tt acc rng)).
Proof.
  revert s acc rng. induction n as [|n IH]; intros s acc rng Hs; [by exists s|].
  cbn [point_loop]. destruct (ps_get s _ Hs (rng_page (rng_next rng))) as (s' & -> & Hs').
  by apply IH.
Qed.

Lemma run_point_view touches s sink : ps_inv s ->
  snd (run_point get pages touches s sink)
  = snd (run_point (view_page view) pages touches tt sink).
Proof.
  intros Hs. unfold run_point. destruct (warm_view (touches / 4) s Hs) as (s1 & Hs1 & ->).
  destruct (warm (view_page view) _ _ _) as [[] a]. cbn [snd].
  destruct (point_loop_view touches s1 0 seed Hs1) as (s2 & Hs2 & ->).
  destruct (point_loop (view_page view) _ _ _ _ _) as [[] [a'|]]; done.
Qed.

Lemma scan_pages_view n p s acc : ps_inv s -> 0 <= p -> p + Z.of_nat n <= Z.of_nat pages ->
  exists s', ps_inv s' /\
    scan_pages get n p s acc = (s', snd (scan_pages (view_page view) n p tt acc)).
Proof.
  revert p s acc. induction n as [|n IH]; intros p s acc Hs Hp Hn; [by exists s|].
  cbn [scan_pages]. destruct (ps_get s p Hs) as (s' & -> & Hs'); [lia|]. apply IH; [done|lia|lia].
Qed.

Lemma scan_sweeps_view n s acc : ps_inv s ->
  exists s', ps_inv s' /\
    scan_sweeps get n pages s acc = (s', snd (scan_sweeps (view_page view) n pages tt acc)).
Proof.
  revert s acc. induction n as [|n IH]; intros s acc Hs; [by exists s|]. cbn [scan_sweeps].
  destruct (scan_pages_view pages 0 s acc Hs) as (s' & Hs' & ->); [lia|lia|].
  destruct (scan_pages (view_page view) _ _ _ _) as [[] [a|]]; cbn [snd]; [by apply IH|by exists s'].
Qed.

Lemma run_scan_view sweeps s sink : ps_inv s ->
  snd (run_scan get pages sweeps s sink)
  = snd (run_scan (view_page view) pages sweeps tt sink).
Proof.
  intros Hs. unfold run_scan. destruct (sweep_view s 0 Hs) as (s1 & Hs1 & ->).
  destruct (for_loop pages _ (tt, 0)) as [[] a]. cbn [snd].
  destruct (scan_sweeps_view sweeps s1 a Hs1) as (s2 & _ & ->).
  destruct (scan_sweeps (view_page view) _ _ _ _) as [[] [a'|]]; done.
Qed.
End sources.

Definition shared_source base pages : PageSource (shared_page base) pages
    (fun p => take PAGE_SIZE (drop (Z.to_nat p * PAGE_SIZE) base)) := {|
  ps_inv _ := True;
  ps_get s p _ _ := ex_intro _ tt (conj eq_refl I);
|}.

#[export] Instance dispatch_source {S} (get : S -> Z -> S * option (list Z)) pages view
    (PS : PageSource get pages view) : PageSource (dispatch_page get) pages view := {|
  ps_inv := ps_inv;
  ps_get := ps_get;
|}.

(** The cache is a source of the pages it can read. *)
Definition cache_source pread with_transform (n : nat) pages view
    (Hpages : Z.of_nat pages <= 2 ^ 52)
    (Hread : forall p, 0 <= p < Z.of_nat pages ->
       readable pread p /\ content pread with_transform p = view p /\
       length (view p) = PAGE_SIZE)
    : PageSource (cache_page pread with_transform) pages view.
Proof.
  refine {| ps_inv := coherent pread with_transform n |}.
  intros c p Hc Hp. destruct (Hread p Hp) as (Hr & E & Hl). rewrite <- E in Hl |- *.
  apply cache_get_content; [done|lia|done|done].
Defined.

(** Every read path answers the same questions.  Let [plain] be the pages
    of a database and let the file hold them as they are ([enc = false]) or
    transformed ([enc = true]).  Then the point and the scan workload, run
    through the cache in any coherent state, end with the same checksum in
    [sink] as when run on a mapping of the plain pages, directly or through the
    dispatch pointer; no read of theirs fails. *)
Theorem read_paths_agree (enc : bool) pread plain pages n c touches sweeps sink :
  (0 < pages)%nat -> Z.of_nat pages <= 2 ^ 52 -> bytes plain ->
  length plain = (pages * PAGE_SIZE)%nat ->
  let page p := take PAGE_SIZE (drop (Z.to_nat p * PAGE_SIZE) plain) in
  (forall p, 0 <= p < Z.of_nat pages ->
     pread (u64 (p * Z.of_nat PAGE_SIZE)) = if enc then transform (page p) p else page p) ->
  coherent pread enc n c ->
  snd (run_point (cache_page pread enc) pages touches c sink)
    = snd (run_point (shared_page plain) pages touches tt sink) /\
  snd (run_point (dispatch_page (shared_page plain)) pages touches tt sink)
    = snd (run_point (shared_page plain) pages touches tt sink) /\
  snd (run_scan (cache_page pread enc) pages sweeps c sink)
    = snd (run_scan (shared_page plain) pages sweeps tt sink).
Proof.
  intros Hp Hmax Hb Hlen page Hfile Hc.
  assert (Hpl : forall p, 0 <= p < Z.of_nat pages -> length (page p) = PAGE_SIZE).
  { intros p Hr. unfold page. rewrite length_take, length_drop, Hlen. nia. }
  assert (Hread : forall p, 0 <= p < Z.of_nat pages -> readable pread p /\
    content pread enc p = page p /\ length (page p) = PAGE_SIZE).
  { intros p Hr. destruct (transform_twice (page p) p) as [E El];
      [unfold page; auto with word|by apply Hpl|].
    unfold readable, content. rewrite Hfile by done. destruct enc; rewrite ?E, ?El; auto. }
  pose (P1 := cache_source pread enc n pages page Hmax Hread).
  pose (P2 := shared_source plain pages).
  rewrite (run_point_view (PS := P1) Hp), (run_scan_view (PS := P1) Hp) by done.
  rewrite (run_point_view (PS := P2) Hp), (run_scan_view (PS := P2) Hp) by done.
  by rewrite (run_point_view (PS := dispatch_source _ _ _ P2) Hp).
Qed.

Lemma read_paths_agree_witness :
  let plain := replicate (2 * PAGE_SIZE) 7 in
  let page p := take PAGE_SIZE (drop (Z.to_nat p * PAGE_SIZE) plain) in
  let pread off := transform (page (off / 4096)) (off / 4096) in
  snd (run_point (cache_page pread true) 2 40 (cache_init 8 (replicate 8 (replicate PAGE_SIZE 0))) 5)
  = snd (run_point (shared_page plain) 2 40 tt 5).
Proof.
  intros plain page pread.
  destruct (read_paths_agree true pread plain 2 1
    (cache_init 8 (replicate 8 (replicate PAGE_SIZE 0))) 40 1 5) as [E _]; [..|exact E].
  - lia.
  - lia.
  - apply Forall_replicate. unfold is_byte. lia.
  - apply length_replicate.
  - intros p Hp. assert (E : Z.of_nat PAGE_SIZE = 4096) by reflexivity. rewrite E.
    unfold pread. rewrite u64_small by lia. replace (p * 4096 / 4096) with p by lia. reflexivity.
  - apply (cache_init_ok pread true 8); [lia| |].
    + rewrite length_replicate. reflexivity.
    + apply Forall_replicate. apply length_replicate.
Defined.

(** A failed read leaves a stale slot.  [cache_get] reads into the
    victim's buffer before it knows whether the read succeeds, and returns
    [NULL] without clearing the victim's tag.  Here eight pages are read well,
    the read of a ninth transfers one byte and fails, and the next access to
    page 0 is a hit that returns a page the file does not hold ([warm] goes on
    after a [NULL], so such an access can follow). *)
Theorem failed_read_leaves_stale_page :
  exists pread stale,
    let get c p := cache_get pread false c p in
    let c0 := cache_init 8 (replicate 8 (replicate PAGE_SIZE 0)) in
    let c := fold_left (fun c p => fst (get c p)) [0; 1; 2; 3; 4; 5; 6; 7] c0 in
    readable pread 0 /\ snd (get c 0) = Some (content pread false 0) /\
    snd (get c 8) = None /\
    snd (get (fst (get c 8)) 0) = Some stale /\ stale <> content pread false 0.
Proof.
  exists (fun off => if off <? 8 * 4096 then replicate PAGE_SIZE (off / 4096) else [0xff]).
  exists (0xff :: replicate (PAGE_SIZE - 1) 0).
  split_and!; [vm_compute; reflexivity..|]. vm_compute. discriminate.
Qed.
