(* ===== verification/LeaseProbe.v ===== *)
(** * LeaseProbe: queue pages, their lease states and the ready-at tree

    [benchmarks/lease_probe.c].  The queue page and the segment pages are byte
    arrays, addressed as the C does: [slot_at] finds the page and the offset of
    a position, [set_state] stores into it.  [db_queue_seg_addr] is a lookup in
    the store of pages by page id; [None] takes the branch of a null pointer.  The tree of summaries is
    four arrays; its search, its maintenance and the counters they keep are
    modelled whole. *)

From stdpp Require Import gmap.
From S2P Require Import Prelude Crc32c.

(** ** Offsets, as the probe defines them *)

Definition Q_HEAD_OFF : nat := 40.
Definition Q_TAIL_OFF : nat := 48.
Definition Q_CLAIM_OFF : nat := 56.
Definition Q_FIRST_SEG_OFF : nat := 96.
Definition Q_ENTRIES_OFF : nat := 128.
Definition QSEG_READY_AT_OFF : nat := 40.
Definition QSEG_SLOTS_OFF : nat := 64.
Definition QSEG_CRC_OFF : nat := Z.to_nat 4092.
Definition QUEUE_SLOT_SIZE : nat := 64.
Definition QUEUE_SEG_SLOTS : nat := 62.
Definition QMSG_STATE_OFF : nat := 8.
Definition QMSG_LEASE_UNTIL_OFF : nat := 16.
Definition QMSG_LEASE_TOKEN_OFF : nat := 24.

Definition STATE_HELD : Z := 0.
Definition STATE_CLAIMED : Z := 1.
Definition STATE_ACKED : Z := 2.

Definition NOW : Z := 1700000000000.
Definition FUTURE : Z := NOW + 60000.
Definition PAST : Z := NOW - 60000.

(** ** Loads and stores *)

Definition get64 (p : list Z) (off : nat) : Z := le_val (take 8 (drop off p)).
Definition get32 (p : list Z) (off : nat) : Z := le_val (take 4 (drop off p)).
Definition put64 (p : list Z) (off : nat) (v : Z) : list Z := memcpy p off (le_bytes 8 v).
Definition put32 (p : list Z) (off : nat) (v : Z) : list Z := memcpy p off (le_bytes 4 v).

(** The queue's page and the pages [db_queue_seg_addr] can reach. *)
Record store := mk_store {
  qpage : list Z;
  seg_pages : gmap Z (list Z);
}.

(** The page id of the segment of a position, and the slot's offset in it.  The
    positions asked for are live, so never below the queue's first segment:
    the subtraction of the C does not wrap. *)
Definition entry_of (st : store) (entry : nat) : Z := get64 (qpage st) (Q_ENTRIES_OFF + entry * 8).

Definition slot_addr (st : store) (pos : nat) : Z * nat :=
  let seg := (pos / QUEUE_SEG_SLOTS)%nat in
  let idx := (pos mod QUEUE_SEG_SLOTS)%nat in
  let entry := (seg - Z.to_nat (get64 (qpage st) Q_FIRST_SEG_OFF))%nat in
  (entry_of st entry, (QSEG_SLOTS_OFF + idx * QUEUE_SLOT_SIZE)%nat).

Definition slot_at (st : store) (pos : nat) : option (list Z * nat) :=
  let '(id, off) := slot_addr st pos in
  match seg_pages st !! id with Some page => Some (page, off) | None => None end.

Definition set_state (st : store) (pos : nat) (state dl tok : Z) : store :=
  match slot_at st pos with
  | None => st
  | Some (page, s) =>
      let page := put32 page (s + QMSG_STATE_OFF) state in
      let page := put64 page (s + QMSG_LEASE_UNTIL_OFF) dl in
      let page := put64 page (s + QMSG_LEASE_TOKEN_OFF) tok in
      mk_store (qpage st) (<[fst (slot_addr st pos) := page]> (seg_pages st))
  end.

(** What the scans read of a position. *)
Record lease := mk_lease { l_state : Z; l_until : Z; l_token : Z }.

Definition lease_of (p : list Z * nat) : lease :=
  let '(page, s) := p in
  mk_lease (get32 page (s + QMSG_STATE_OFF)) (get64 page (s + QMSG_LEASE_UNTIL_OFF))
           (get64 page (s + QMSG_LEASE_TOKEN_OFF)).

Definition lease_at (st : store) (pos : nat) : option lease :=
  match slot_at st pos with Some p => Some (lease_of p) | None => None end.

Definition q_head (st : store) : nat := Z.to_nat (get64 (qpage st) Q_HEAD_OFF).
Definition q_tail (st : store) : nat := Z.to_nat (get64 (qpage st) Q_TAIL_OFF).

(** ** The summary of a segment *)

(** [if (lo < head) lo = head; if (hi > tail) hi = tail]. *)
Definition seg_lo (seg head : nat) : nat :=
  let lo := (seg * QUEUE_SEG_SLOTS)%nat in if (lo <? head)%nat then head else lo.
Definition seg_hi (seg tail : nat) : nat :=
  let hi := (seg * QUEUE_SEG_SLOTS + QUEUE_SEG_SLOTS)%nat in if (tail <? hi)%nat then tail else hi.

(** The loop over [n] positions from [p]: the summary and the slots it read. *)
Fixpoint ready_scan (view : nat -> option lease) (n p : nat) (best : Z) (slots : nat) : Z * nat :=
  match n with
  | O => (best, slots)
  | S n' =>
      match view p with
      | None => ready_scan view n' (S p) best slots
      | Some l =>
          if l_state l =? STATE_HELD then (0, S slots)
          else if l_state l =? STATE_CLAIMED
          then ready_scan view n' (S p) (if l_until l <? best then l_until l else best) (S slots)
          else ready_scan view n' (S p) best (S slots)
      end
  end.

Definition segment_ready_at (view : nat -> option lease) (seg head tail : nat) : Z :=
  let lo := seg_lo seg head in let hi := seg_hi seg tail in
  fst (ready_scan view (hi - lo) lo UINT64_MAX 0).

(** ** The tree *)

Definition TREE_LEAVES : nat := 512.

Record tree := mk_tree {
  t_leaf : list Z;
  t_l2 : list Z;
  t_l1 : list Z;
  t_l0 : Z;
}.

(** [m = UINT64_MAX; for (c = 0; c < 8; c++) if (a[i * 8 + c] < m) m = ...]. *)
Definition min8 (a : list Z) (i : nat) : Z :=
  for_loop 8 (fun c m => let v := a !!! (i * 8 + c)%nat in if v <? m then v else m) UINT64_MAX.

Definition tree_build (view : nat -> option lease) (head tail : nat) : tree :=
  let leaf := replicate TREE_LEAVES UINT64_MAX in
  let leaf :=
    if (head =? tail)%nat then leaf
    else
      let first := (head / QUEUE_SEG_SLOTS)%nat in
      let last := ((tail - 1) / QUEUE_SEG_SLOTS)%nat in
      for_loop (S last - first) (fun k leaf =>
        let s := (first + k)%nat in
        <[(s mod TREE_LEAVES)%nat := segment_ready_at view s head tail]> leaf) leaf in
  let l2 := map (min8 leaf) (seq 0 64) in
  let l1 := map (min8 l2) (seq 0 8) in
  mk_tree leaf l2 l1 (min8 l1 0).

(** ** The search; [d] is [3 - level], so [0] is a leaf *)

Record search_counts := mk_counts { summary_nodes : nat; tree_segments : nat; tree_slots : nat }.

Definition node_value (t : tree) (d idx : nat) : Z :=
  match d with
  | 3%nat => t_l0 t
  | 2%nat => t_l1 t !!! idx
  | 1%nat => t_l2 t !!! idx
  | _ => t_leaf t !!! idx
  end.

(** [for (c...) { r = search(c); if (r >= 0) return r; }]. *)
Fixpoint first_child (search : nat -> search_counts -> search_counts * option nat)
    (cs : list nat) (k : search_counts) : search_counts * option nat :=
  match cs with
  | [] => (k, None)
  | c :: cs' =>
      let '(k, r) := search c k in
      match r with Some leaf => (k, Some leaf) | None => first_child search cs' k end
  end.

Fixpoint node_search (t : tree) (d idx lo hi : nat) (now : Z) (k : search_counts)
    : search_counts * option nat :=
  let span := (8 ^ d)%nat in
  let base := (idx * span)%nat in
  if (hi <? base)%nat || (base + span - 1 <? lo)%nat then (k, None)
  else
    let k := match d with
             | O => mk_counts (summary_nodes k) (S (tree_segments k)) (tree_slots k)
             | _ => mk_counts (S (summary_nodes k)) (tree_segments k) (tree_slots k)
             end in
    if now <? node_value t d idx then (k, None)
    else
      match d with
      | O => (k, Some base)
      | S d' => first_child (fun c k => node_search t d' (idx * 8 + c) lo hi now k) (seq 0 8) k
      end.

Definition claimable (now : Z) (l : lease) : bool :=
  (l_state l =? STATE_HELD) || ((l_state l =? STATE_CLAIMED) && (l_until l <=? now)).

(** The walk over a segment's slots. *)
Fixpoint slot_scan (view : nat -> option lease) (now : Z) (n p : nat) (k : search_counts)
    : search_counts * option nat :=
  match n with
  | O => (k, None)
  | S n' =>
      match view p with
      | None => slot_scan view now n' (S p) k
      | Some l =>
          let k := mk_counts (summary_nodes k) (tree_segments k) (S (tree_slots k)) in
          if claimable now l then (k, Some p) else slot_scan view now n' (S p) k
      end
  end.

Definition tree_scan (view : nat -> option lease) (t : tree) (head tail : nat) (now : Z)
    (k : search_counts) : search_counts * option nat :=
  if (head =? tail)%nat then (k, None)
  else
    let first := (head / QUEUE_SEG_SLOTS)%nat in
    let last := ((tail - 1) / QUEUE_SEG_SLOTS)%nat in
    let a := (first mod TREE_LEAVES)%nat in
    let b := (last mod TREE_LEAVES)%nat in
    let '(k, leaf) :=
      if (a <=? b)%nat then node_search t 3 0 a b now k
      else
        let '(k, leaf) := node_search t 3 0 a (TREE_LEAVES - 1) now k in
        match leaf with
        | Some _ => (k, leaf)
        | None => node_search t 3 0 0 b now k
        end in
    match leaf with
    | None => (k, None)
    | Some leaf =>
        let seg := (first + (leaf + TREE_LEAVES - a) mod TREE_LEAVES)%nat in
        if (last <? seg)%nat then (k, None)
        else
          let lo := seg_lo seg head in let hi := seg_hi seg tail in
          slot_scan view now (hi - lo) lo k
    end.

(** ** Maintenance *)

Record maint := mk_maint {
  maint_slots : nat; maint_nodes : nat; maint_leaf_pages : nat;
  maint_ops : nat; maint_slots_max : nat; maint_nodes_max : nat;
}.

Definition count_node (m : maint) : maint :=
  mk_maint (maint_slots m) (S (maint_nodes m)) (maint_leaf_pages m)
           (maint_ops m) (maint_slots_max m) (maint_nodes_max m).
Definition count_slots (n : nat) (m : maint) : maint :=
  mk_maint (maint_slots m + n) (maint_nodes m) (maint_leaf_pages m)
           (maint_ops m) (maint_slots_max m) (maint_nodes_max m).
Definition count_leaf_pages (n : nat) (m : maint) : maint :=
  mk_maint (maint_slots m) (maint_nodes m) (maint_leaf_pages m + n)
           (maint_ops m) (maint_slots_max m) (maint_nodes_max m).

(** The levels above [t_l2], after [t_l2[i2]] was written. *)
Definition propagate_up (t : tree) (i1 : nat) (m : maint) : tree * maint :=
  let m := count_node m in
  let v := min8 (t_l2 t) i1 in
  if v =? t_l1 t !!! i1 then (t, m)
  else
    let t := mk_tree (t_leaf t) (t_l2 t) (<[i1 := v]> (t_l1 t)) (t_l0 t) in
    let m := count_node m in
    let v := min8 (t_l1 t) 0 in
    if v =? t_l0 t then (t, m)
    else (mk_tree (t_leaf t) (t_l2 t) (t_l1 t) v, count_node m).

Definition tree_propagate (t : tree) (leaf : nat) (rose : bool) (m : maint) : tree * maint :=
  let i2 := (leaf / 8)%nat in
  let i1 := (i2 / 8)%nat in
  if negb rose then
    let v := t_leaf t !!! leaf in
    if t_l2 t !!! i2 <=? v then (t, m)
    else propagate_up (mk_tree (t_leaf t) (<[i2 := v]> (t_l2 t)) (t_l1 t) (t_l0 t)) i1 m
  else
    let siblings := List.filter (fun c => negb (t_leaf t !!! (i2 * 8 + c)%nat =? UINT64_MAX)) (seq 0 8) in
    let m := count_leaf_pages (length siblings) m in
    let v := min8 (t_leaf t) i2 in
    if v =? t_l2 t !!! i2 then (t, m)
    else propagate_up (mk_tree (t_leaf t) (<[i2 := v]> (t_l2 t)) (t_l1 t) (t_l0 t)) i1 m.

Definition set_leaf (t : tree) (leaf : nat) (v : Z) : tree :=
  mk_tree (<[leaf := v]> (t_leaf t)) (t_l2 t) (t_l1 t) (t_l0 t).

Definition tree_lower (t : tree) (seg : nat) (value : Z) (m : maint) : tree * maint :=
  let leaf := (seg mod TREE_LEAVES)%nat in
  if t_leaf t !!! leaf <=? value then (t, m)
  else tree_propagate (set_leaf t leaf value) leaf false m.

Definition tree_rescan (view : nat -> option lease) (t : tree) (seg head tail : nat) (m : maint)
    : tree * maint :=
  let leaf := (seg mod TREE_LEAVES)%nat in
  let lo := seg_lo seg head in let hi := seg_hi seg tail in
  let '(best, read) := ready_scan view (hi - lo) lo UINT64_MAX 0 in
  let m := count_slots read m in
  if best =? t_leaf t !!! leaf then (t, m)
  else
    let rose := t_leaf t !!! leaf <? best in
    tree_propagate (set_leaf t leaf best) leaf rose m.

Definition maint_begin (m : maint) : maint :=
  mk_maint 0 0 0 (maint_ops m) (maint_slots_max m) (maint_nodes_max m).
Definition maint_end (m : maint) : maint :=
  mk_maint (maint_slots m) (maint_nodes m) (maint_leaf_pages m) (S (maint_ops m))
    (if (maint_slots_max m <? maint_slots m)%nat then maint_slots m else maint_slots_max m)
    (if (maint_nodes_max m <? maint_nodes m)%nat then maint_nodes m else maint_nodes_max m).

(** The probe's state: the pages, the tree and the counters. *)
Record probe := mk_probe { p_store : store; p_tree : tree; p_maint : maint }.

Definition op_enqueue_like (pr : probe) (pos head tail : nat) : probe :=
  let m := maint_begin (p_maint pr) in
  let st := set_state (p_store pr) pos STATE_HELD 0 0 in
  let '(t, m) := tree_lower (p_tree pr) (pos / QUEUE_SEG_SLOTS) 0 m in
  mk_probe st t (maint_end m).

Definition op_nack (pr : probe) (pos head tail : nat) : probe :=
  let m := maint_begin (p_maint pr) in
  let st := set_state (p_store pr) pos STATE_HELD 0 9 in
  let '(t, m) := tree_lower (p_tree pr) (pos / QUEUE_SEG_SLOTS) 0 m in
  mk_probe st t (maint_end m).

Definition op_claim (pr : probe) (pos head tail : nat) : probe :=
  let m := maint_begin (p_maint pr) in
  let st := set_state (p_store pr) pos STATE_CLAIMED (u64 (FUTURE + Z.of_nat pos)) 5 in
  let '(t, m) := tree_rescan (lease_at st) (p_tree pr) (pos / QUEUE_SEG_SLOTS) head tail m in
  mk_probe st t (maint_end m).

Definition op_ack (pr : probe) (pos head tail : nat) : probe :=
  let seg := (pos / QUEUE_SEG_SLOTS)%nat in
  let leaf := (seg mod TREE_LEAVES)%nat in
  let was := match lease_at (p_store pr) pos with Some l => l_until l | None => 0 end in
  let m := maint_begin (p_maint pr) in
  let st := set_state (p_store pr) pos STATE_ACKED 0 6 in
  let '(t, m) :=
    if was =? t_leaf (p_tree pr) !!! leaf
    then tree_rescan (lease_at st) (p_tree pr) seg head tail m
    else (p_tree pr, m) in
  mk_probe st t (maint_end m).

(** ** What [main] measures *)

(** The four verbs, in the order of [main]'s [seq]. *)
Inductive op := OpEnqueue | OpClaim | OpNack | OpAck.

Definition run_op (pr : probe) (o : op) (pos head tail : nat) : probe :=
  match o with
  | OpEnqueue => op_enqueue_like pr pos head tail
  | OpClaim => op_claim pr pos head tail
  | OpNack => op_nack pr pos head tail
  | OpAck => op_ack pr pos head tail
  end.

(** The totals and the maxima of one verb: [slots[k]], [nodes[k]], [sibs[k]],
    [smax[k]], [nmax[k]], [sibmax[k]]. *)
Record cost := mk_cost {
  c_slots : nat; c_nodes : nat; c_sibs : nat;
  c_smax : nat; c_nmax : nat; c_sibmax : nat;
}.

Definition no_cost : cost := mk_cost 0 0 0 0 0 0.
#[global] Instance cost_inhabited : Inhabited cost := populate no_cost.

Definition charge (m : maint) (c : cost) : cost :=
  mk_cost (c_slots c + maint_slots m) (c_nodes c + maint_nodes m) (c_sibs c + maint_leaf_pages m)
    (if (c_smax c <? maint_slots m)%nat then maint_slots m else c_smax c)
    (if (c_nmax c <? maint_nodes m)%nat then maint_nodes m else c_nmax c)
    (if (c_sibmax c <? maint_leaf_pages m)%nat then maint_leaf_pages m else c_sibmax c).

Definition seq_op (k : nat) : op :=
  match k with 0%nat => OpEnqueue | 1%nat => OpClaim | 2%nat => OpNack | _ => OpAck end.

(** The counters are zeroed, the verb runs, its counters are added. *)
Definition measure_verb (head tail n : nat) (k : nat) (s : probe * list cost) : probe * list cost :=
  let '(pr, cs) := s in
  let pr := if (k =? 3)%nat then op_claim pr n head tail else pr in
  let pr := mk_probe (p_store pr) (p_tree pr) (maint_begin (p_maint pr)) in
  let pr := run_op pr (seq_op k) n head tail in
  (pr, <[k := charge (p_maint pr) (cs !!! k)]> cs).

Definition worker_cycle (pr : probe) (head tail : nat) : probe * list cost * nat :=
  for_loop (tail - head) (fun i '(pr, cs, count) =>
    let '(pr, cs) := for_loop 4 (measure_verb head tail (head + i)) (pr, cs) in (pr, cs, S count))
    (pr, replicate 4 no_cost, 0%nat).

(** The worst case: [s_total], [s_max] and [ops] of acknowledging every message
    but the last. *)
Definition shared_deadline (pr : probe) (head tail : nat) : probe * nat * nat * nat :=
  for_loop (tail - 1 - head) (fun i '(pr, s_total, s_max, ops) =>
    let m := p_maint pr in
    let m := mk_maint 0 0 (maint_leaf_pages m) (maint_ops m) (maint_slots_max m) (maint_nodes_max m) in
    let pr := op_ack (mk_probe (p_store pr) (p_tree pr) m) (head + i) head tail in
    let read := maint_slots (p_maint pr) in
    (pr, (s_total + read)%nat, (if (s_max <? read)%nat then read else s_max), S ops))
    (pr, 0%nat, 0%nat, 0%nat).

(** ** The shapes *)

(** One segment page, resealed: its summary and its CRC. *)
Definition seal_page (page : list Z) (i head tail : nat) : list Z :=
  let view p := Some (lease_of (page, (QSEG_SLOTS_OFF + (p mod QUEUE_SEG_SLOTS) * QUEUE_SLOT_SIZE)%nat)) in
  let page := put64 page QSEG_READY_AT_OFF (segment_ready_at view i head tail) in
  put32 page QSEG_CRC_OFF (crc32c (take QSEG_CRC_OFF page)).

Definition seal_all (st : store) (depth : nat) : store :=
  let head := q_head st in let tail := q_tail st in
  let segs := ((depth + QUEUE_SEG_SLOTS - 1) / QUEUE_SEG_SLOTS)%nat in
  for_loop segs (fun i st =>
    match seg_pages st !! entry_of st i with
    | None => st
    | Some page =>
        mk_store (qpage st) (<[entry_of st i := seal_page page i head tail]> (seg_pages st))
    end) st.

Inductive scenario := front | live | stuck | lapsed | empty.

(** The engine's [db_catalog_seal] ([seal_page] of [src/core/catalog.asm]): the
    CRC of the page, computed with or without the [crc32] instruction. *)
Definition CAT_CRC : nat := Z.to_nat 4092.

Definition db_catalog_seal (hardware : bool) (page : list Z) : list Z :=
  put32 page CAT_CRC (asm_crc32c hardware (take CAT_CRC page)).

Section shapes.
Context (hardware : bool).

Definition set_claim (st : store) (claim : Z) : store :=
  mk_store (db_catalog_seal hardware (put64 (qpage st) Q_CLAIM_OFF claim)) (seg_pages st).

Definition reset_shape (st : store) (depth : nat) : store :=
  let st := for_loop depth (fun p st => set_state st p STATE_HELD 0 0) st in
  let st := set_claim st (get64 (qpage st) Q_HEAD_OFF) in
  seal_all st depth.

Definition shape (st : store) (name : scenario) (depth : nat) : store :=
  let st := reset_shape st depth in
  let '(st, claim) :=
    match name with
    | front => (st, 0)
    | live =>
        (for_loop (depth - 1) (fun p st =>
           set_state st p STATE_CLAIMED FUTURE (Z.of_nat p + 1)) st, Z.of_nat depth - 1)
    | stuck =>
        (for_loop (depth - 2) (fun p st =>
           set_state st (S p) STATE_ACKED 0 (Z.of_nat (S p) + 1))
           (set_state st 0 STATE_CLAIMED FUTURE 1), Z.of_nat depth - 1)
    | lapsed =>
        (set_state (for_loop (depth - 2) (fun p st =>
           set_state st (S p) STATE_ACKED 0 (Z.of_nat (S p) + 1))
           (set_state st 0 STATE_CLAIMED FUTURE 1)) (depth - 1) STATE_CLAIMED PAST 7,
         Z.of_nat depth)
    | empty =>
        (for_loop depth (fun p st =>
           set_state st p STATE_CLAIMED FUTURE (Z.of_nat p + 1)) st, Z.of_nat depth)
    end in
  let st := set_claim st (u64 claim) in
  seal_all st depth.

(** The shape, and the tree built over it. *)
Definition start (st : store) (name : scenario) (depth : nat) (m : maint) : probe :=
  let st := shape st name depth in
  mk_probe st (tree_build (lease_at st) (q_head st) (q_tail st)) m.

(** What [main] reports of keeping the summary: the cycle over [front], then
    the worst case over [live]. *)
Definition maintenance_report (st : store) (depth : nat) (m : maint)
    : list cost * nat * (nat * nat * nat) :=
  let pr := start st front depth m in
  let '(pr, cs, count) := worker_cycle pr (q_head (p_store pr)) (q_tail (p_store pr)) in
  let pr := start (p_store pr) live depth (p_maint pr) in
  let '(_, s_total, s_max, ops) := shared_deadline pr (q_head (p_store pr)) (q_tail (p_store pr)) in
  (cs, count, (s_total, s_max, ops)).
End shapes.

(** ** What the scans compute *)

Definition claimable_at (view : nat -> option lease) (now : Z) (p : nat) : bool :=
  match view p with Some l => claimable now l | None => false end.

(** The specification: the first claimable position of the queue. *)
Definition first_claimable (view : nat -> option lease) (now : Z) (head tail : nat) : option nat :=
  first_from (claimable_at view now) head (tail - head).

Lemma slot_scan_spec view now n p k :
  snd (slot_scan view now n p k) = first_from (claimable_at view now) p n.
Proof.
  revert p k. induction n as [|n IH]; intros p k; [done|]. simpl. unfold claimable_at at 1.
  destruct (view p) as [l|]; [|apply IH]. destruct (claimable now l); [done|apply IH].
Qed.

(** The summary is in the past exactly when the segment has something. *)
Lemma ready_scan_le view now n p best slots : 0 <= now ->
  fst (ready_scan view n p best slots) <= now <->
  best <= now \/ exists q, (p <= q < p + n)%nat /\ claimable_at view now q = true.
Proof.
  intros Hnow. revert p best slots. induction n as [|n IH]; intros p best slots; simpl.
  { split; [by left|]. intros [|(q & ? & _)]; [done|lia]. }
  assert (Hstep : forall best',
    (best' <= now <-> best <= now \/ claimable_at view now p = true) ->
    (best' <= now \/ (exists q, (S p <= q < S p + n)%nat /\ claimable_at view now q = true)) <->
    best <= now \/ (exists q, (p <= q < p + S n)%nat /\ claimable_at view now q = true)).
  { intros best' Hb. split.
    - intros [H|(q & Hq & Hc)]; [apply Hb in H as [|Hc]; [by left|right; exists p; split; [lia|done]]|].
      right. exists q. split; [lia|done].
    - intros [H|(q & Hq & Hc)]; [left; apply Hb; by left|].
      destruct (decide (q = p)) as [->|]; [left; apply Hb; by right|].
      right. exists q. split; [lia|done]. }
  unfold claimable_at in Hstep at 1. destruct (view p) as [l|] eqn:Ev.
  - destruct (l_state l =? STATE_HELD) eqn:E1.
    { split; [|intros; simpl; lia]. intros _. right. exists p. split; [lia|].
      unfold claimable_at, claimable. by rewrite Ev, E1. }
    destruct (l_state l =? STATE_CLAIMED) eqn:E2; rewrite IH; apply Hstep;
      unfold claimable; rewrite E1, E2; simpl.
    + case_if; destruct (l_until l <=? now) eqn:E3; bool_to_prop; split; intros; try lia;
        try (left; lia); try (by right); destruct H; (lia || discriminate).
    + split; [by left|]. by intros [|].
  - rewrite IH. apply Hstep. split; [by left|]. by intros [|].
Qed.

Lemma segment_ready_le view now seg head tail : 0 <= now < UINT64_MAX ->
  segment_ready_at view seg head tail <= now <->
  exists q, (seg_lo seg head <= q < seg_hi seg tail)%nat /\ claimable_at view now q = true.
Proof.
  intros Hnow. unfold segment_ready_at. rewrite ready_scan_le by lia. split.
  - intros [|(q & Hq & Hc)]; [lia|]. exists q. split; [lia|done].
  - intros (q & Hq & Hc). right. exists q. split; [lia|done].
Qed.

(** The positions of a segment that are in the queue. *)
Lemma seg_range seg head tail q : (seg_lo seg head <= q < seg_hi seg tail)%nat <->
  (q / QUEUE_SEG_SLOTS = seg /\ head <= q < tail)%nat.
Proof. unfold seg_lo, seg_hi, QUEUE_SEG_SLOTS. repeat case_if; lia. Qed.

(** ** The levels of the tree *)

Lemma min8_le a i c : (c < 8)%nat -> min8 a i <= a !!! (i * 8 + c)%nat.
Proof.
  intros Hc. unfold min8.
  enough (forall n, (forall c, (c < n)%nat -> for_loop n (fun c m =>
    let v := a !!! (i * 8 + c)%nat in if v <? m then v else m) UINT64_MAX <= a !!! (i * 8 + c)%nat))
    as H by (by apply H).
  induction n as [|n IH]; intros c' Hc'; [lia|]. rewrite for_loop_S.
  specialize (IH c'). revert IH. generalize (for_loop n (fun c m =>
    let v := a !!! (i * 8 + c)%nat in if v <? m then v else m) UINT64_MAX). intros m IH. cbv beta zeta.
  destruct (decide (c' = n)) as [->|]; [|specialize (IH ltac:(lia))]; case_if; lia.
Qed.

Lemma min8_glb a i v : v <= UINT64_MAX -> (forall c, (c < 8)%nat -> v <= a !!! (i * 8 + c)%nat) ->
  v <= min8 a i.
Proof.
  intros Hv Hall. unfold min8. apply (for_loop_ind (fun _ m => v <= m)); [done|].
  intros c m Hc Hm. cbv zeta. case_if; [by apply Hall|done].
Qed.

Lemma min8_ext a b i : (forall c, (c < 8)%nat -> a !!! (i * 8 + c)%nat = b !!! (i * 8 + c)%nat) ->
  min8 a i = min8 b i.
Proof.
  intros H. unfold min8. apply (for_loop_rel eq); [done|]. intros c m m' Hc ->. by rewrite H.
Qed.

(** The tree over given leaves. *)
Definition level (n : nat) (below : list Z) : list Z := map (min8 below) (seq 0 n).

Definition tree_of (leaf : list Z) : tree :=
  mk_tree leaf (level 64 leaf) (level 8 (level 64 leaf)) (min8 (level 8 (level 64 leaf)) 0).

Lemma lookup_map_seq {A} `{Inhabited A} (f : nat -> A) n i : (i < n)%nat ->
  map f (seq 0 n) !!! i = f i.
Proof.
  intros Hi. rewrite list_lookup_total_alt, lookup_map, lookup_seq_lt by done. done.
Qed.

(** A node never exceeds a leaf below it, which is all the search relies on. *)
Definition tree_sound (t : tree) : Prop :=
  forall d idx l, (d <= 3)%nat -> (idx * 8 ^ d <= l < idx * 8 ^ d + 8 ^ d)%nat ->
    (l < TREE_LEAVES)%nat -> node_value t d idx <= t_leaf t !!! l.

Lemma tree_of_sound leaf : tree_sound (tree_of leaf).
Proof.
  assert (H2 : forall i l, (i < 64)%nat -> (i * 8 <= l < i * 8 + 8)%nat ->
    map (min8 leaf) (seq 0 64) !!! i <= leaf !!! l).
  { intros i l Hi Hl. rewrite lookup_map_seq by done.
    replace l with (i * 8 + (l - i * 8))%nat by lia. apply min8_le. lia. }
  fold (level 64 leaf) in H2. set (l2 := level 64 leaf) in *.
  assert (H1 : forall i l, (i < 8)%nat -> (i * 64 <= l < i * 64 + 64)%nat ->
    map (min8 l2) (seq 0 8) !!! i <= leaf !!! l).
  { intros i l Hi Hl. rewrite lookup_map_seq by done.
    etransitivity; [apply (min8_le l2 i (l / 8 - i * 8)); lia|]. apply H2; lia. }
  fold (level 8 l2) in H1. set (l1 := level 8 l2) in *. intros d idx l Hd Hl Hlt. unfold TREE_LEAVES in Hlt.
  unfold tree_of. fold l2 l1. cbn [t_leaf].
  destruct d as [|[|[|[|d]]]]; [| | | |lia]; cbn [node_value t_leaf t_l2 t_l1 t_l0];
    simpl (8 ^ _)%nat in Hl.
  - replace l with idx by lia. done.
  - apply H2; lia.
  - apply H1; lia.
  - etransitivity; [apply (min8_le l1 0 (l / 64)); lia|]. apply H1; lia.
Qed.

(** ** The search finds the leftmost ready leaf of its range *)

Definition ready_leaf (t : tree) (lo hi : nat) (now : Z) (l : nat) : bool :=
  (lo <=? l)%nat && (l <=? hi)%nat && (t_leaf t !!! l <=? now).

Lemma first_child_spec (p : nat -> bool) search n base w k :
  (forall c k, (c < w)%nat -> snd (search c k) = first_from p (base + c * n) n) ->
  snd (first_child search (seq 0 w) k) = first_from p base (w * n).
Proof.
  intros Hs. enough (forall m c0 k, (c0 + m = w)%nat ->
    snd (first_child search (seq c0 m) k) = first_from p (base + c0 * n) (m * n)) as H.
  { specialize (H w 0%nat k eq_refl). by rewrite Nat.mul_0_l, Nat.add_0_r in H. }
  induction m as [|m IH]; intros c0 k' Hm; [done|]. cbn [seq first_child].
  pose proof (Hs c0 k' ltac:(lia)) as E. destruct (search c0 k') as [k'' r]. simpl in E.
  replace (S m * n)%nat with (n + m * n)%nat by lia.
  rewrite first_from_app, <- E. destruct r; [done|].
  rewrite IH by lia. f_equal. lia.
Qed.

Lemma node_search_spec t d idx lo hi now k : tree_sound t -> (d <= 3)%nat ->
  (idx * 8 ^ d + 8 ^ d <= TREE_LEAVES)%nat ->
  snd (node_search t d idx lo hi now k) = first_from (ready_leaf t lo hi now) (idx * 8 ^ d) (8 ^ d).
Proof.
  intros Hsound. revert idx k. induction d as [|d IH]; intros idx k Hd Hidx; cbn [node_search].
  all: destruct (_ || _) eqn:Eout.
  1, 3: symmetry; apply first_from_none_intro; intros l Hl; unfold ready_leaf;
    destruct ((lo <=? l)%nat) eqn:E1, ((l <=? hi)%nat) eqn:E2; try done;
    apply orb_true_iff in Eout as [E|E]; bool_to_prop; lia.
  all: case_if.
  1, 3: symmetry; apply first_from_none_intro; intros l Hl; unfold ready_leaf;
    match type of E with _ < node_value ?t ?d ?i =>
      pose proof (Hsound d i l ltac:(lia) ltac:(lia) ltac:(lia)) end;
    apply andb_false_iff; right; apply Z.leb_gt; lia.
  - bool_to_prop. change (8 ^ 0)%nat with 1%nat in *. simpl first_from. unfold ready_leaf.
    cbn [node_value] in E. replace (idx * 1)%nat with idx in * by lia.
    rewrite (proj2 (Nat.leb_le lo idx)), (proj2 (Nat.leb_le idx hi)), (proj2 (Z.leb_le _ now)) by lia.
    done.
  - rewrite (first_child_spec (ready_leaf t lo hi now) _ (8 ^ d) (idx * 8 ^ S d) 8).
    + by rewrite Nat.pow_succ_r'.
    + intros c k' Hc. rewrite Nat.pow_succ_r' in *. rewrite IH by (lia || nia). f_equal. lia.
Qed.

(** ** The leaves are a ring of the live segments *)

Definition first_seg (head : nat) : nat := (head / QUEUE_SEG_SLOTS)%nat.
Definition last_seg (tail : nat) : nat := ((tail - 1) / QUEUE_SEG_SLOTS)%nat.

(** The live segment, if any, that owns a leaf, counted from the first. *)
Definition ring (first l : nat) : nat := ((l + TREE_LEAVES - first mod TREE_LEAVES) mod TREE_LEAVES)%nat.

Definition leaves (view : nat -> option lease) (head tail : nat) : list Z :=
  t_leaf (tree_build view head tail).

Lemma tree_build_of view head tail : tree_build view head tail = tree_of (leaves view head tail).
Proof. done. Qed.

(** A queue whose live segments fit the ring. *)
Definition fits (head tail : nat) : Prop :=
  (head < tail)%nat /\ (last_seg tail - first_seg head < TREE_LEAVES)%nat.

Lemma leaves_lookup view head tail l : fits head tail -> (l < TREE_LEAVES)%nat ->
  length (leaves view head tail) = TREE_LEAVES /\
  leaves view head tail !!! l =
    let s := (first_seg head + ring (first_seg head) l)%nat in
    if (s <=? last_seg tail)%nat then segment_ready_at view s head tail else UINT64_MAX.
Proof.
  intros [Hht Hfit] Hl. unfold leaves, tree_build. cbn [t_leaf].
  destruct (head =? tail)%nat eqn:E; bool_to_prop; [lia|].
  fold (first_seg head) (last_seg tail). set (f := first_seg head) in *.
  set (body := fun k leaf => _).
  enough (forall n, (n <= TREE_LEAVES)%nat ->
    length (for_loop n body (replicate TREE_LEAVES UINT64_MAX)) = TREE_LEAVES /\
    for_loop n body (replicate TREE_LEAVES UINT64_MAX) !!! l =
    if (ring f l <? n)%nat then segment_ready_at view (f + ring f l) head tail else UINT64_MAX)
    as H.
  { destruct (H (S (last_seg tail) - f)%nat ltac:(unfold TREE_LEAVES in *; lia)) as [-> ->].
    split; [done|]. cbv zeta. repeat case_if; try done; lia. }
  induction n as [|n IH]; intros Hn.
  - rewrite for_loop_0, length_replicate. split; [done|].
    by rewrite lookup_total_replicate_2.
  - rewrite for_loop_S. destruct IH as [IHl IH]; [lia|]. unfold body at 1 3.
    rewrite length_insert. split; [done|].
    destruct (decide (l = (f + n) mod TREE_LEAVES)%nat) as [E'|E'].
    + assert (Er : ring f l = n) by (unfold ring, TREE_LEAVES in *; lia).
      rewrite Er, <- E', list_lookup_total_insert_eq by lia. by case_if; [|lia].
    + assert (Er : ring f l <> n) by (unfold ring, TREE_LEAVES in *; lia).
      rewrite list_lookup_total_insert_ne by done. rewrite IH. repeat case_if; try done; lia.
Qed.

(** A leaf of the ring and the segment it stands for. *)
Lemma leaf_of_seg view head tail s : fits head tail ->
  (first_seg head <= s <= last_seg tail)%nat ->
  leaves view head tail !!! (s mod TREE_LEAVES)%nat = segment_ready_at view s head tail.
Proof.
  intros Hfit Hs. destruct (leaves_lookup view head tail (s mod TREE_LEAVES)) as [_ ->];
    [done|apply Nat.mod_upper_bound; done|]. destruct Hfit as [_ Hfit]. cbv zeta.
  replace (first_seg head + ring (first_seg head) (s mod TREE_LEAVES))%nat with s
    by (unfold ring, TREE_LEAVES in *; lia).
  by case_if; [|lia].
Qed.

(** The search over the ring: the first live segment that is ready. *)
Definition ready_seg (view : nat -> option lease) (head tail : nat) (now : Z) (s : nat) : bool :=
  segment_ready_at view s head tail <=? now.

Definition ring_search (t : tree) (head tail : nat) (now : Z) (k : search_counts)
    : search_counts * option nat :=
  let a := (first_seg head mod TREE_LEAVES)%nat in
  let b := (last_seg tail mod TREE_LEAVES)%nat in
  if (a <=? b)%nat then node_search t 3 0 a b now k
  else
    let '(k, leaf) := node_search t 3 0 a (TREE_LEAVES - 1) now k in
    match leaf with Some _ => (k, leaf) | None => node_search t 3 0 0 b now k end.

Lemma node_search_root t lo hi now k : tree_sound t ->
  match snd (node_search t 3 0 lo hi now k) with
  | Some l => (lo <= l <= hi)%nat /\ (l < TREE_LEAVES)%nat /\ t_leaf t !!! l <= now /\
      forall l', (lo <= l' < l)%nat -> now < t_leaf t !!! l'
  | None => forall l', (lo <= l' <= hi)%nat -> (l' < TREE_LEAVES)%nat -> now < t_leaf t !!! l'
  end.
Proof.
  intros Hs. rewrite node_search_spec by (done || lia).
  change (0 * 8 ^ 3)%nat with 0%nat. change (8 ^ 3)%nat with TREE_LEAVES.
  destruct (first_from _ _ _) as [l|] eqn:E.
  - apply first_from_Some in E as (Hl & Hr & Hmin). unfold ready_leaf in Hr, Hmin. bool_to_prop.
    split_and!; [done|done|lia|done|]. intros l' Hl'. specialize (Hmin l' ltac:(lia)).
    rewrite (proj2 (Nat.leb_le lo l')), (proj2 (Nat.leb_le l' hi)) in Hmin by lia. simpl in Hmin.
    by bool_to_prop.
  - intros l' Hl' Hlt. pose proof (first_from_None _ _ _ E l' ltac:(lia)) as Hn.
    unfold ready_leaf in Hn.
    rewrite (proj2 (Nat.leb_le lo l')), (proj2 (Nat.leb_le l' hi)) in Hn by lia. simpl in Hn.
    by bool_to_prop.
Qed.

Lemma ring_search_spec view head tail now k : fits head tail ->
  match snd (ring_search (tree_build view head tail) head tail now k) with
  | Some l => let s := (first_seg head + ring (first_seg head) l)%nat in
      (first_seg head <= s <= last_seg tail)%nat /\ ready_seg view head tail now s = true /\
      forall s', (first_seg head <= s' < s)%nat -> ready_seg view head tail now s' = false
  | None => forall s', (first_seg head <= s' <= last_seg tail)%nat ->
      ready_seg view head tail now s' = false
  end.
Proof.
  intros Hfit. pose proof Hfit as [Hht Hlt]. unfold ring_search. rewrite tree_build_of.
  pose proof (tree_of_sound (leaves view head tail)) as Hsound.
  set (t := tree_of _) in *. set (f := first_seg head) in *. set (g := last_seg tail) in *.
  assert (Hfg : (f <= g)%nat) by (subst f g; unfold first_seg, last_seg, QUEUE_SEG_SLOTS; lia).
  assert (Hleaf : forall s, (f <= s <= g)%nat ->
    t_leaf t !!! (s mod TREE_LEAVES)%nat = segment_ready_at view s head tail)
    by (intros; by apply leaf_of_seg).
  assert (Hinv : forall l, (l < TREE_LEAVES)%nat -> ((f + ring f l) mod TREE_LEAVES = l)%nat)
    by (intros; unfold ring, TREE_LEAVES in *; lia).
  unfold ready_seg.
  destruct ((f mod TREE_LEAVES <=? g mod TREE_LEAVES)%nat) eqn:Eab; bool_to_prop.
  - pose proof (node_search_root t (f mod TREE_LEAVES) (g mod TREE_LEAVES) now k Hsound) as H.
    destruct (snd _) as [l|].
    + destruct H as (Hl & Hl5 & Hr & Hmin). cbv zeta.
      assert (Hs : (f <= f + ring f l <= g)%nat) by (unfold ring, TREE_LEAVES in *; lia).
      split; [done|]. rewrite <- Hleaf, Hinv by done. split; [by apply Z.leb_le|].
      intros s' Hs'. rewrite <- Hleaf by lia. apply Z.leb_gt, Hmin.
      unfold ring, TREE_LEAVES in *; lia.
    + intros s' Hs'. rewrite <- Hleaf by done. apply Z.leb_gt, H; unfold TREE_LEAVES in *; lia.
  - pose proof (node_search_root t (f mod TREE_LEAVES) (TREE_LEAVES - 1) now k Hsound) as H.
    destruct (node_search t 3 0 (f mod TREE_LEAVES) _ now k) as [k1 [l|]]; cbn [snd] in *.
    + destruct H as (Hl & Hl5 & Hr & Hmin). cbv zeta.
      assert (Hs : (f <= f + ring f l <= g)%nat) by (unfold ring, TREE_LEAVES in *; lia).
      split; [done|]. rewrite <- Hleaf, Hinv by done. split; [by apply Z.leb_le|].
      intros s' Hs'. rewrite <- Hleaf by lia. apply Z.leb_gt, Hmin.
      unfold ring, TREE_LEAVES in *; lia.
    + pose proof (node_search_root t 0 (g mod TREE_LEAVES) now k1 Hsound) as H2.
      assert (Hlow : forall s', (f <= s' <= g)%nat -> (f mod TREE_LEAVES <= s' mod TREE_LEAVES)%nat ->
        (segment_ready_at view s' head tail <=? now) = false).
      { intros s' Hs' Hge. rewrite <- Hleaf by done. apply Z.leb_gt, H; unfold TREE_LEAVES in *; lia. }
      destruct (snd _) as [l|].
      * destruct H2 as (Hl & Hl5 & Hr & Hmin). cbv zeta.
        assert (Hs : (f <= f + ring f l <= g)%nat) by (unfold ring, TREE_LEAVES in *; lia).
        split; [done|]. rewrite <- Hleaf, Hinv by done. split; [by apply Z.leb_le|].
        intros s' Hs'. destruct (decide (f mod TREE_LEAVES <= s' mod TREE_LEAVES)%nat);
          [apply Hlow; [lia|done]|].
        rewrite <- Hleaf by lia. apply Z.leb_gt, Hmin. unfold ring, TREE_LEAVES in *; lia.
      * intros s' Hs'. destruct (decide (f mod TREE_LEAVES <= s' mod TREE_LEAVES)%nat);
          [by apply Hlow|].
        rewrite <- Hleaf by done. apply Z.leb_gt, H2; unfold TREE_LEAVES in *; lia.
Qed.

Lemma not_ready view head tail now s : 0 <= now < UINT64_MAX ->
  ready_seg view head tail now s = false ->
  forall q, (head <= q < tail)%nat -> (q / QUEUE_SEG_SLOTS)%nat = s ->
  claimable_at view now q = false.
Proof.
  intros Hnow Hr q Hq Hs. apply not_true_iff_false. intros Hc. unfold ready_seg in Hr.
  apply Z.leb_gt in Hr. apply (proj1 (Z.lt_nge _ _) Hr). apply segment_ready_le; [done|].
  exists q. split; [by apply seg_range|done].
Qed.

Lemma seg_of_pos head tail q : (head <= q < tail)%nat ->
  (first_seg head <= q / QUEUE_SEG_SLOTS <= last_seg tail)%nat.
Proof. unfold first_seg, last_seg, QUEUE_SEG_SLOTS. lia. Qed.

(** Only the first ready segment is walked, and it holds the answer. *)
Lemma tree_scan_spec view head tail now k :
  0 <= now < UINT64_MAX -> (head <= tail)%nat ->
  (last_seg tail - first_seg head < TREE_LEAVES)%nat ->
  snd (tree_scan view (tree_build view head tail) head tail now k)
  = first_claimable view now head tail.
Proof.
  intros Hnow Hht Hfit. unfold tree_scan, first_claimable.
  destruct (head =? tail)%nat eqn:E; bool_to_prop.
  { subst tail. by rewrite Nat.sub_diag. }
  fold (first_seg head) (last_seg tail).
  change (let '(_, _) := _ in _) with
    (let '(k, leaf) := ring_search (tree_build view head tail) head tail now k in
     match leaf with
     | None => (k, None)
     | Some leaf =>
         let seg := (first_seg head + ring (first_seg head) leaf)%nat in
         if (last_seg tail <? seg)%nat then (k, None)
         else slot_scan view now (seg_hi seg tail - seg_lo seg head) (seg_lo seg head) k
     end).
  pose proof (ring_search_spec view head tail now k ltac:(split; lia)) as H.
  destruct (ring_search _ _ _ _ _) as [k' [l|]]; cbn [snd] in H |- *; cbv zeta in H |- *.
  - destruct H as (Hs & Hr & Hbefore). set (seg := (_ + ring _ _)%nat) in *.
    case_if; [lia|]. rewrite slot_scan_spec. unfold ready_seg in Hr. apply Z.leb_le in Hr.
    apply segment_ready_le in Hr as (q0 & Hq0 & Hc0); [|done].
    destruct (first_from _ (seg_lo seg head) _) as [p|] eqn:Ep.
    + apply first_from_Some in Ep as (Hp & Hcp & Hmin). symmetry.
      assert (Hpr : (p / QUEUE_SEG_SLOTS = seg /\ head <= p < tail)%nat) by (apply seg_range; lia).
      apply first_from_intro; [lia|done|]. intros q Hq.
      destruct (decide (q / QUEUE_SEG_SLOTS = seg)%nat) as [Eq|Ne].
      * apply Hmin. assert (Hqr : (seg_lo seg head <= q < seg_hi seg tail)%nat)
          by (apply seg_range; lia). lia.
      * apply (not_ready view head tail now (q / QUEUE_SEG_SLOTS)); [done| |lia|done].
        apply Hbefore. pose proof (seg_of_pos head tail q ltac:(lia)).
        unfold QUEUE_SEG_SLOTS in *. lia.
    + pose proof (first_from_None _ _ _ Ep q0 ltac:(lia)) as Hf. congruence.
  - symmetry. apply first_from_none_intro. intros q Hq.
    apply (not_ready view head tail now (q / QUEUE_SEG_SLOTS)); [done| |lia|done].
    apply H, seg_of_pos. lia.
Qed.

(** The tree answers the question the naive walk answers.  On a tree built
    from the slots, over any queue whose live segments fit the 512-leaf ring
    (wrapped or not), [tree_scan] returns the first claimable position from the
    head, in FIFO order, and fails exactly when there is none. *)
Theorem tree_scan_first_claimable view head tail now k :
  0 <= now < UINT64_MAX -> (head <= tail)%nat ->
  (last_seg tail - first_seg head < TREE_LEAVES)%nat ->
  snd (tree_scan view (tree_build view head tail) head tail now k)
  = first_claimable view now head tail.
Proof. apply tree_scan_spec. Qed.

Lemma tree_scan_first_claimable_witness :
  let view p := if (p <? 200)%nat
                then Some (mk_lease (if (p =? 130)%nat then STATE_CLAIMED else STATE_ACKED) 5 1)
                else None in
  snd (tree_scan view (tree_build view 3 200) 3 200 7 (mk_counts 0 0 0))
  = first_claimable view 7 3 200.
Proof.
  intros view. apply (tree_scan_first_claimable view 3 200 7 (mk_counts 0 0 0)).
  - unfold UINT64_MAX. lia.
  - lia.
  - vm_compute. lia.
Defined.

(** ** Maintenance rebuilds the tree it would have built *)

Lemma min8_max a i : min8 a i <= UINT64_MAX.
Proof.
  unfold min8. apply (for_loop_ind (fun _ m => m <= UINT64_MAX)); [lia|].
  intros c m _ Hm. cbv zeta. case_if; lia.
Qed.

Lemma min8_insert a i v : (i < length a)%nat -> forall j, j <> (i / 8)%nat ->
  min8 (<[i := v]> a) j = min8 a j.
Proof.
  intros Hi j Hj. apply min8_ext. intros c Hc. rewrite list_lookup_total_insert_ne; [done|]. lia.
Qed.

(** Writing one entry moves one minimum of the level above. *)
Lemma level_insert a i v n : (i < length a)%nat -> (i / 8 < n)%nat ->
  level n (<[i := v]> a) = <[(i / 8)%nat := min8 (<[i := v]> a) (i / 8)]> (level n a).
Proof.
  intros Hi Hn. unfold level. apply list_eq. intros j. destruct (decide (j = i / 8)%nat) as [->|Hne].
  - rewrite list_lookup_insert_eq by (by rewrite length_map, length_seq).
    by rewrite lookup_map, lookup_seq_lt.
  - rewrite list_lookup_insert_ne by done. rewrite !lookup_map.
    destruct (seq 0 n !! j) as [x|] eqn:E; [|done]. apply lookup_seq in E as [-> _].
    simpl. by rewrite min8_insert.
Qed.

Lemma length_level n a : length (level n a) = n.
Proof. unfold level. by rewrite length_map, length_seq. Qed.

Lemma lookup_level n a i : (i < n)%nat -> level n a !!! i = min8 a i.
Proof. apply lookup_map_seq. Qed.

Lemma insert_same {A} `{Inhabited A} (l : list A) i x : (i < length l)%nat -> x = l !!! i ->
  <[i := x]> l = l.
Proof.
  intros Hi ->. apply list_insert_id. rewrite list_lookup_total_alt.
  by destruct (lookup_lt_is_Some_2 l i Hi) as [y ->].
Qed.

Lemma propagate_up_ok leaf l2 i2 x m : length l2 = 64%nat -> (i2 < 64)%nat ->
  let l2' := <[i2 := x]> l2 in
  let '(t, m') := propagate_up (mk_tree leaf l2' (level 8 l2) (min8 (level 8 l2) 0)) (i2 / 8) m in
  t = mk_tree leaf l2' (level 8 l2') (min8 (level 8 l2') 0) /\
  (maint_nodes m' <= maint_nodes m + 3)%nat /\ maint_slots m' = maint_slots m.
Proof.
  intros Hl2 Hi l2'. unfold propagate_up. cbn [t_leaf t_l2 t_l1 t_l0].
  pose proof (level_insert l2 i2 x 8 ltac:(lia) ltac:(lia)) as E1. fold l2' in E1.
  pose proof (length_level 8 l2) as Hl1. set (l1 := level 8 l2) in *. clearbody l1.
  case_if.
  - rewrite E1, insert_same by (done || lia). split; [done|]. simpl. lia.
  - rewrite E1. set (l1' := <[_ := _]> l1). case_if.
    + rewrite E0. split; [done|]. simpl. lia.
    + split; [done|]. simpl. lia.
Qed.

(** A minimum that fell: the new value, if it is below the old minimum. *)
Lemma min8_fell a i v : (i < length a)%nat -> v <= a !!! i ->
  min8 (<[i := v]> a) (i / 8) = if min8 a (i / 8) <=? v then min8 a (i / 8) else v.
Proof.
  intros Hi Hv.
  assert (Hat : forall c, (c < 8)%nat -> <[i := v]> a !!! (i / 8 * 8 + c)%nat
    = if decide (i / 8 * 8 + c = i)%nat then v else a !!! (i / 8 * 8 + c)%nat).
  { intros c Hc. case_decide as E; [by rewrite E, list_lookup_total_insert_eq|].
    by rewrite list_lookup_total_insert_ne. }
  pose proof (min8_le (<[i := v]> a) (i / 8) (i mod 8) ltac:(lia)) as Hle.
  rewrite Hat in Hle by lia. case_decide as E0; [|lia]. pose proof (min8_max a (i / 8)).
  case_if; apply Z.le_antisymm.
  - apply min8_glb; [apply min8_max|]. intros c Hc.
    etransitivity; [by apply (min8_le _ _ c)|]. rewrite Hat by done. case_decide as E'; [|done].
    by rewrite E'.
  - apply min8_glb; [done|]. intros c Hc. rewrite Hat by done. case_decide; [done|by apply min8_le].
  - done.
  - apply min8_glb; [lia|]. intros c Hc. rewrite Hat by done. case_decide; [done|].
    pose proof (min8_le a (i / 8) c Hc). lia.
Qed.

Lemma tree_propagate_ok leaf i v (rose : bool) m : length leaf = TREE_LEAVES -> (i < TREE_LEAVES)%nat ->
  (rose = false -> v <= leaf !!! i) ->
  let '(t, m') := tree_propagate (set_leaf (tree_of leaf) i v) i rose m in
  t = tree_of (<[i := v]> leaf) /\
  (maint_nodes m' <= maint_nodes m + 3)%nat /\ maint_slots m' = maint_slots m.
Proof.
  intros Hl Hi Hrose. unfold tree_propagate, set_leaf, tree_of. cbn [t_leaf t_l2 t_l1 t_l0].
  assert (Hi2 : (i / 8 < 64)%nat) by (unfold TREE_LEAVES in *; lia).
  rewrite (level_insert leaf i v 64) by lia. rewrite !lookup_level by done.
  pose proof (length_level 64 leaf) as Hl2.
  pose proof (lookup_level 64 leaf (i / 8) Hi2) as Hat.
  set (l2 := level 64 leaf) in *. clearbody l2.
  destruct rose; cbn [negb].
  - case_if.
    + rewrite E, (insert_same l2) by (done || lia). split; [done|]. simpl. lia.
    + pose proof (propagate_up_ok (<[i := v]> leaf) l2 (i / 8) (min8 (<[i := v]> leaf) (i / 8))) as H.
      cbv zeta in H. match goal with |- context [propagate_up ?t ?j ?m0] => specialize (H m0 Hl2 Hi2) end.
      destruct (propagate_up _ _ _) as [t m']. exact H.
  - rewrite list_lookup_total_insert_eq by lia.
    pose proof (min8_fell leaf i v ltac:(lia) (Hrose eq_refl)) as Ef. rewrite Ef. case_if.
    + rewrite (insert_same l2) by (done || lia). split; [done|]. lia.
    + pose proof (propagate_up_ok (<[i := v]> leaf) l2 (i / 8) v m Hl2 Hi2) as H. cbv zeta in H.
      destruct (propagate_up _ _ _) as [t m']. exact H.
Qed.
