(* ===== verification/LeaseMaint.v ===== *)
(** * LeaseMaint: the tree is kept, not rebuilt

    The operations of [benchmarks/lease_probe.c] on a queue whose pages are well
    formed: storing a lease state changes one position and no other; the
    summaries the operations maintain are the ones a rebuild would compute, for
    at most three nodes written and one segment read; so the search still
    answers exactly after any sequence of operations. *)

From stdpp Require Import gmap.
From S2P Require Import Prelude Crc32c LeaseProbe.

(** ** Pages *)

Definition PAGE_SIZE : nat := Z.to_nat 4096.

Definition page_ok (page : list Z) : Prop := length page = PAGE_SIZE /\ bytes page.

(** The live positions have a page, and two segments never share one. *)
Record store_wf (st : store) (head tail : nat) : Prop := {
  wf_pages : map_Forall (fun _ => page_ok) (seg_pages st);
  wf_slots p : (head <= p < tail)%nat -> is_Some (slot_at st p);
  wf_apart p q : (head <= p < tail)%nat -> (head <= q < tail)%nat ->
    (p / QUEUE_SEG_SLOTS)%nat <> (q / QUEUE_SEG_SLOTS)%nat ->
    fst (slot_addr st p) <> fst (slot_addr st q);
}.

Lemma length_put64 p off v : (off + 8 <= length p)%nat -> length (put64 p off v) = length p.
Proof. intros. apply length_memcpy. by rewrite length_le_bytes. Qed.

Lemma length_put32 p off v : (off + 4 <= length p)%nat -> length (put32 p off v) = length p.
Proof. intros. apply length_memcpy. by rewrite length_le_bytes. Qed.

Lemma get64_put64 p off v : (off + 8 <= length p)%nat -> 0 <= v < 2 ^ 64 ->
  get64 (put64 p off v) off = v.
Proof.
  intros Hl Hv. unfold get64, put64.
  pose proof (slice_memcpy_eq p off (le_bytes 8 v)) as E. rewrite length_le_bytes in E.
  rewrite E by done. by apply le_val_le_bytes.
Qed.

Lemma get32_put32 p off v : (off + 4 <= length p)%nat -> 0 <= v < 2 ^ 32 ->
  get32 (put32 p off v) off = v.
Proof.
  intros Hl Hv. unfold get32, put32.
  pose proof (slice_memcpy_eq p off (le_bytes 4 v)) as E. rewrite length_le_bytes in E.
  rewrite E by done. by apply le_val_le_bytes.
Qed.

(** A read of [n] bytes at [o] that a store at [off] does not meet. *)
Definition apart (o n off w : nat) : Prop := (o + n <= off \/ off + w <= o)%nat.

Lemma get64_put64_ne p off v o : (off + 8 <= length p)%nat -> apart o 8 off 8 ->
  get64 (put64 p off v) o = get64 p o.
Proof. intros. unfold get64, put64. rewrite slice_memcpy_ne; rewrite ?length_le_bytes; done. Qed.

Lemma get64_put32_ne p off v o : (off + 4 <= length p)%nat -> apart o 8 off 4 ->
  get64 (put32 p off v) o = get64 p o.
Proof. intros. unfold get64, put32. rewrite slice_memcpy_ne; rewrite ?length_le_bytes; done. Qed.

Lemma get32_put64_ne p off v o : (off + 8 <= length p)%nat -> apart o 4 off 8 ->
  get32 (put64 p off v) o = get32 p o.
Proof. intros. unfold get32, put64. rewrite slice_memcpy_ne; rewrite ?length_le_bytes; done. Qed.

Lemma get32_put32_ne p off v o : (off + 4 <= length p)%nat -> apart o 4 off 4 ->
  get32 (put32 p off v) o = get32 p o.
Proof. intros. unfold get32, put32. rewrite slice_memcpy_ne; rewrite ?length_le_bytes; done. Qed.

Lemma get64_range p off : bytes p -> (off + 8 <= length p)%nat -> 0 <= get64 p off < 2 ^ 64.
Proof.
  intros Hp Hl. unfold get64.
  pose proof (le_val_range (take 8 (drop off p))) as H.
  rewrite length_take, length_drop, Nat.min_l in H by lia. apply H. auto with word.
Qed.

(** ** One slot *)

(** The three stores of [set_state] into a page. *)
Definition write_lease (page : list Z) (s : nat) (l : lease) : list Z :=
  let page := put32 page (s + QMSG_STATE_OFF) (l_state l) in
  let page := put64 page (s + QMSG_LEASE_UNTIL_OFF) (l_until l) in
  put64 page (s + QMSG_LEASE_TOKEN_OFF) (l_token l).

Definition lease_ok (l : lease) : Prop :=
  0 <= l_state l < 2 ^ 32 /\ 0 <= l_until l < 2 ^ 64 /\ 0 <= l_token l < 2 ^ 64.

Ltac slot_arith :=
  unfold apart, QMSG_STATE_OFF, QMSG_LEASE_UNTIL_OFF, QMSG_LEASE_TOKEN_OFF in *; lia.

Lemma length_write_lease page s l : (s + 32 <= length page)%nat ->
  length (write_lease page s l) = length page.
Proof.
  intros. unfold write_lease.
  repeat (rewrite ?length_put64, ?length_put32; try slot_arith).
Qed.

Lemma bytes_write_lease page s l : bytes page -> bytes (write_lease page s l).
Proof. intros. unfold write_lease, put64, put32. repeat apply bytes_memcpy; auto with word. Qed.

Lemma write_lease_eq page s l : (s + 32 <= length page)%nat -> lease_ok l ->
  lease_of (write_lease page s l, s) = l.
Proof.
  intros Hs (H1 & H2 & H3). unfold lease_of, write_lease. cbv zeta. destruct l as [a b c]. simpl in *.
  set (p1 := put32 _ _ _). set (p2 := put64 p1 _ _).
  assert (L1 : length p1 = length page) by (apply length_put32; slot_arith).
  assert (L2 : length p2 = length page) by (rewrite <- L1; apply length_put64; slot_arith).
  f_equal.
  - rewrite get32_put64_ne by slot_arith. unfold p2. rewrite get32_put64_ne by slot_arith.
    apply get32_put32; [slot_arith|done].
  - rewrite get64_put64_ne by slot_arith. apply get64_put64; [slot_arith|done].
  - apply get64_put64; [slot_arith|done].
Qed.

Lemma write_lease_ne page s l s' : (s + 32 <= length page)%nat ->
  (s' + 64 <= s \/ s + 64 <= s')%nat ->
  lease_of (write_lease page s l, s') = lease_of (page, s').
Proof.
  intros Hs Hd. unfold lease_of, write_lease. cbv zeta.
  set (p1 := put32 _ _ _). set (p2 := put64 p1 _ _).
  assert (L1 : length p1 = length page) by (apply length_put32; slot_arith).
  assert (L2 : length p2 = length page) by (rewrite <- L1; apply length_put64; slot_arith).
  f_equal.
  - rewrite get32_put64_ne by slot_arith. unfold p2. rewrite get32_put64_ne by slot_arith.
    apply get32_put32_ne; slot_arith.
  - rewrite get64_put64_ne by slot_arith. unfold p2. rewrite get64_put64_ne by slot_arith.
    apply get64_put32_ne; slot_arith.
  - rewrite get64_put64_ne by slot_arith. unfold p2. rewrite get64_put64_ne by slot_arith.
    apply get64_put32_ne; slot_arith.
Qed.

(** ** Storing a lease state *)

Definition slot_off (p : nat) : nat := (QSEG_SLOTS_OFF + (p mod QUEUE_SEG_SLOTS) * QUEUE_SLOT_SIZE)%nat.

Lemma slot_off_bound p : (slot_off p + 64 <= PAGE_SIZE)%nat.
Proof. unfold slot_off, QSEG_SLOTS_OFF, QUEUE_SEG_SLOTS, QUEUE_SLOT_SIZE, PAGE_SIZE. lia. Qed.

Lemma slot_addr_off st p : snd (slot_addr st p) = slot_off p.
Proof. done. Qed.

Lemma slot_at_alt st p :
  slot_at st p = (fun page => (page, slot_off p)) <$> seg_pages st !! fst (slot_addr st p).
Proof. unfold slot_at. simpl. by destruct (seg_pages st !! _). Qed.

Lemma lease_at_alt st p :
  lease_at st p = (fun page => lease_of (page, slot_off p)) <$> seg_pages st !! fst (slot_addr st p).
Proof. unfold lease_at. rewrite slot_at_alt. by destruct (seg_pages st !! _). Qed.

Lemma set_state_alt st p state dl tok page :
  seg_pages st !! fst (slot_addr st p) = Some page ->
  set_state st p state dl tok =
  mk_store (qpage st) (<[fst (slot_addr st p) := write_lease page (slot_off p) (mk_lease state dl tok)]>
                        (seg_pages st)).
Proof. intros E. unfold set_state. by rewrite slot_at_alt, E. Qed.

Lemma slot_addr_qpage st st' p : qpage st' = qpage st -> slot_addr st' p = slot_addr st p.
Proof. intros E. unfold slot_addr, entry_of. by rewrite E. Qed.

(** Positions of one segment are in one page; their slots are apart. *)
Lemma slot_addr_seg st p q : (p / QUEUE_SEG_SLOTS = q / QUEUE_SEG_SLOTS)%nat ->
  fst (slot_addr st p) = fst (slot_addr st q).
Proof. intros E. unfold slot_addr. cbv zeta. cbn [fst]. by rewrite E. Qed.

Lemma slot_off_apart p q : (p / QUEUE_SEG_SLOTS = q / QUEUE_SEG_SLOTS)%nat -> p <> q ->
  (slot_off q + 64 <= slot_off p \/ slot_off p + 64 <= slot_off q)%nat.
Proof. unfold slot_off, QSEG_SLOTS_OFF, QUEUE_SEG_SLOTS, QUEUE_SLOT_SIZE. lia. Qed.

Section store.
Context (st : store) (head tail : nat) (Hwf : store_wf st head tail).

Lemma live_page p : (head <= p < tail)%nat ->
  exists page, seg_pages st !! fst (slot_addr st p) = Some page /\ page_ok page.
Proof.
  intros Hp. destruct (wf_slots _ _ _ Hwf p Hp) as [x E]. rewrite slot_at_alt in E.
  destruct (seg_pages st !! _) as [page|] eqn:E'; [|done]. exists page. split; [done|].
  by apply (wf_pages _ _ _ Hwf) in E'.
Qed.

Lemma set_state_wf pos state dl tok : (head <= pos < tail)%nat ->
  store_wf (set_state st pos state dl tok) head tail.
Proof.
  intros Hpos. destruct (live_page pos Hpos) as (page & E & Hl & Hb).
  rewrite (set_state_alt _ _ _ _ _ _ E). split.
  - simpl. apply map_Forall_insert_2; [|apply Hwf]. split; [|by apply bytes_write_lease].
    rewrite length_write_lease; [done|]. pose proof (slot_off_bound pos). lia.
  - intros p Hp. rewrite slot_at_alt, fmap_is_Some, (slot_addr_qpage st) by done. cbn [seg_pages].
    destruct (decide (fst (slot_addr st p) = fst (slot_addr st pos))) as [Eq|Ne].
    + rewrite Eq. by rewrite lookup_insert_eq.
    + rewrite lookup_insert_ne by done. destruct (live_page p Hp) as (? & -> & _). done.
  - intros p q Hp Hq Hne. rewrite !(slot_addr_qpage st) by done. by apply (wf_apart _ _ _ Hwf).
Qed.

Lemma lease_at_set_state pos state dl tok p :
  (head <= pos < tail)%nat -> (head <= p < tail)%nat -> lease_ok (mk_lease state dl tok) ->
  lease_at (set_state st pos state dl tok) p =
  if (p =? pos)%nat then Some (mk_lease state dl tok) else lease_at st p.
Proof.
  intros Hpos Hp Hok. destruct (live_page pos Hpos) as (page & E & Hl & Hb).
  rewrite (set_state_alt _ _ _ _ _ _ E), !lease_at_alt, (slot_addr_qpage st) by done. cbn [seg_pages].
  pose proof (slot_off_bound pos) as Hoff.
  destruct (decide (p / QUEUE_SEG_SLOTS = pos / QUEUE_SEG_SLOTS)%nat) as [Eseg|Nseg].
  - rewrite (slot_addr_seg st p pos) by done. rewrite lookup_insert_eq, E. cbn [fmap option_fmap option_map].
    case_if; f_equal.
    + subst p. apply write_lease_eq; [lia|done].
    + apply write_lease_ne; [lia|]. by apply slot_off_apart.
  - case_if; [congruence|]. rewrite lookup_insert_ne; [done|].
    by apply not_eq_sym, (wf_apart _ _ _ Hwf).
Qed.

Lemma lease_at_live p : (head <= p < tail)%nat ->
  exists l, lease_at st p = Some l /\ 0 <= l_until l < 2 ^ 64.
Proof.
  intros Hp. destruct (live_page p Hp) as (page & E & Hl & Hb). rewrite lease_at_alt, E.
  eexists. split; [done|]. cbn [lease_of l_until]. apply get64_range; [done|].
  pose proof (slot_off_bound p). unfold QMSG_LEASE_UNTIL_OFF. lia.
Qed.
End store.

(** Storing a lease state through [set_state] is an update of one position.
    On well-formed pages, reading any live position back gives the state,
    deadline and token just written when it is that position and what was there
    before otherwise, down to the bytes of the pages; and the pages stay well
    formed. *)
Theorem set_state_updates_one_slot st head tail pos state dl tok :
  store_wf st head tail -> (head <= pos < tail)%nat -> lease_ok (mk_lease state dl tok) ->
  store_wf (set_state st pos state dl tok) head tail /\
  forall p, (head <= p < tail)%nat ->
    lease_at (set_state st pos state dl tok) p =
    if (p =? pos)%nat then Some (mk_lease state dl tok) else lease_at st p.
Proof.
  intros Hwf Hpos Hok. split; [by apply set_state_wf|]. intros p Hp.
  by apply (lease_at_set_state st head tail).
Qed.

(** A queue of two segments, positions 3 to 99. *)
Definition blank_page : list Z := replicate PAGE_SIZE 0.

Definition two_segments : store :=
  mk_store (put64 (put64 (put64 (put64 blank_page Q_HEAD_OFF 3) Q_TAIL_OFF 100)
                     Q_ENTRIES_OFF 7) (Q_ENTRIES_OFF + 8) 9)
           (<[7 := blank_page]> (<[9 := blank_page]> ∅)).

Lemma blank_page_ok : page_ok blank_page.
Proof.
  split; [apply length_replicate|]. apply Forall_replicate. unfold is_byte. lia.
Qed.

Lemma two_segments_addr p : (p < 124)%nat ->
  fst (slot_addr two_segments p) = if (p / QUEUE_SEG_SLOTS =? 0)%nat then 7 else 9.
Proof.
  intros Hp. assert (H : (p / QUEUE_SEG_SLOTS = 0 \/ p / QUEUE_SEG_SLOTS = 1)%nat)
    by (unfold QUEUE_SEG_SLOTS; lia).
  unfold slot_addr. cbv zeta. cbn [fst].
  destruct H as [-> | ->]; vm_compute; reflexivity.
Qed.

Lemma two_segments_wf : store_wf two_segments 3 100.
Proof.
  split.
  - apply map_Forall_insert_2; [exact blank_page_ok|].
    apply map_Forall_insert_2; [exact blank_page_ok|apply map_Forall_empty].
  - intros p Hp. rewrite slot_at_alt, fmap_is_Some, two_segments_addr by lia.
    case_if; eexists; reflexivity.
  - intros p q Hp Hq Hne. rewrite !two_segments_addr by lia.
    unfold QUEUE_SEG_SLOTS in *. repeat case_if; lia.
Qed.

Lemma set_state_updates_one_slot_witness :
  let st := set_state two_segments 70 STATE_CLAIMED FUTURE 1 in
  store_wf st 3 100 /\
  forall p, (3 <= p < 100)%nat ->
    lease_at st p = if (p =? 70)%nat then Some (mk_lease STATE_CLAIMED FUTURE 1)
                    else lease_at two_segments p.
Proof.
  apply (set_state_updates_one_slot two_segments 3 100 70 STATE_CLAIMED FUTURE 1).
  - exact two_segments_wf.
  - lia.
  - vm_compute. repeat split; discriminate.
Defined.

(** ** One segment's summary *)

(** Two views that agree on the live positions of a segment. *)
Lemma ready_scan_ext view view' n p best slots :
  (forall q, (p <= q < p + n)%nat -> view' q = view q) ->
  ready_scan view' n p best slots = ready_scan view n p best slots.
Proof.
  revert p best slots. induction n as [|n IH]; intros p best slots H; [done|]. simpl.
  rewrite H by lia. destruct (view p) as [l|]; [|apply IH; intros; apply H; lia].
  repeat case_if; try done; apply IH; intros; apply H; lia.
Qed.

Lemma segment_ready_ext view view' seg head tail :
  (forall q, (head <= q < tail)%nat -> (q / QUEUE_SEG_SLOTS)%nat = seg -> view' q = view q) ->
  segment_ready_at view' seg head tail = segment_ready_at view seg head tail.
Proof.
  intros H. unfold segment_ready_at. cbv zeta. f_equal. apply ready_scan_ext. intros q Hq.
  assert (Hr : (q / QUEUE_SEG_SLOTS = seg /\ head <= q < tail)%nat) by (apply seg_range; lia).
  apply H; tauto.
Qed.

Lemma ready_scan_range view n p best slots :
  (forall q l, (p <= q < p + n)%nat -> view q = Some l -> 0 <= l_until l) -> 0 <= best ->
  let '(r, read) := ready_scan view n p best slots in
  0 <= r <= best /\ (slots <= read <= slots + n)%nat.
Proof.
  revert p best slots. induction n as [|n IH]; intros p best slots H Hb; simpl; [lia|].
  assert (Hl : forall l, view p = Some l -> 0 <= l_until l) by (intros; apply (H p); [lia|done]).
  assert (IH' : forall best' slots', 0 <= best' ->
    let '(r, read) := ready_scan view n (S p) best' slots' in
    0 <= r <= best' /\ (slots' <= read <= slots' + n)%nat).
  { intros best' slots' Hb'. apply IH; [|done]. intros q l Hq. apply H. lia. }
  destruct (view p) as [l|].
  - specialize (Hl l eq_refl). destruct (l_state l =? STATE_HELD); [lia|].
    destruct (l_state l =? STATE_CLAIMED).
    + specialize (IH' (if l_until l <? best then l_until l else best) (S slots)).
      destruct (ready_scan _ _ _ _ _) as [r read]. revert IH'. case_if; intros IH';
      destruct IH'; lia.
    + specialize (IH' best (S slots)). destruct (ready_scan _ _ _ _ _) as [r read].
      destruct IH'; lia.
  - specialize (IH' best slots). destruct (ready_scan _ _ _ _ _) as [r read]. destruct IH'; lia.
Qed.

(** The summary is decided by the times at which something is claimable. *)
Lemma ready_antisym r r' : 0 <= r <= UINT64_MAX -> 0 <= r' <= UINT64_MAX ->
  (forall now, 0 <= now < UINT64_MAX -> (r <= now <-> r' <= now)) -> r = r'.
Proof.
  intros Hr Hr' H. destruct (Z.lt_trichotomy r r') as [Hlt|[|Hlt]]; [|done|];
    [destruct (H r ltac:(lia)) as [H1 _]; specialize (H1 ltac:(lia))
    |destruct (H r' ltac:(lia)) as [_ H1]; specialize (H1 ltac:(lia))]; lia.
Qed.

Lemma seg_size seg head tail : (seg_hi seg tail - seg_lo seg head <= QUEUE_SEG_SLOTS)%nat.
Proof. unfold seg_lo, seg_hi. repeat case_if; lia. Qed.

Lemma scan_range view seg head tail slots :
  (forall q l, (head <= q < tail)%nat -> view q = Some l -> 0 <= l_until l) ->
  let '(r, read) := ready_scan view (seg_hi seg tail - seg_lo seg head) (seg_lo seg head)
                      UINT64_MAX slots in
  0 <= r <= UINT64_MAX /\ (slots <= read <= slots + QUEUE_SEG_SLOTS)%nat.
Proof.
  intros Hview. pose proof (ready_scan_range view (seg_hi seg tail - seg_lo seg head)
    (seg_lo seg head) UINT64_MAX slots) as H.
  destruct (ready_scan _ _ _ _ _) as [r read]. destruct H as [Hr Hn]; [|unfold UINT64_MAX; lia|].
  - intros q l Hq. apply Hview.
    assert (Hq' : (q / QUEUE_SEG_SLOTS = seg /\ head <= q < tail)%nat) by (apply seg_range; lia).
    tauto.
  - pose proof (seg_size seg head tail). lia.
Qed.

(** ** The views the store gives *)

(** On the live positions every slot is there, and a free message has no deadline. *)
Definition view_ok (view : nat -> option lease) (head tail : nat) : Prop :=
  forall p, (head <= p < tail)%nat ->
    exists l, view p = Some l /\ 0 <= l_until l < 2 ^ 64 /\
      (l_state l = STATE_HELD -> l_until l = 0).

Section views.
Context (view : nat -> option lease) (head tail : nat) (Hview : view_ok view head tail).

Lemma view_live p : (head <= p < tail)%nat ->
  exists l, view p = Some l /\ 0 <= l_until l < 2 ^ 64.
Proof. intros Hp. destruct (Hview p Hp) as (l & -> & Hl & _). by exists l. Qed.

Lemma view_until q l : (head <= q < tail)%nat -> view q = Some l -> 0 <= l_until l.
Proof.
  intros Hq E. destruct (view_live q Hq) as (l' & E' & Hl). rewrite E in E'. injection E' as ->. lia.
Qed.

Lemma segment_scan_range seg slots :
  let '(r, read) := ready_scan view (seg_hi seg tail - seg_lo seg head) (seg_lo seg head)
                      UINT64_MAX slots in
  0 <= r <= UINT64_MAX /\ (slots <= read <= slots + QUEUE_SEG_SLOTS)%nat.
Proof. apply scan_range, view_until. Qed.

Lemma segment_ready_range seg : 0 <= segment_ready_at view seg head tail <= UINT64_MAX.
Proof.
  pose proof (segment_scan_range seg 0) as H. unfold segment_ready_at. cbv zeta.
  destruct (ready_scan _ _ _ _ _) as [r read]. simpl. tauto.
Qed.

(** A free message makes its segment ready at once. *)
Lemma segment_ready_free p l : (head <= p < tail)%nat -> view p = Some l ->
  l_state l = STATE_HELD -> segment_ready_at view (p / QUEUE_SEG_SLOTS) head tail = 0.
Proof.
  intros Hp E Hs. apply Z.le_antisymm; [|apply segment_ready_range].
  apply segment_ready_le; [unfold UINT64_MAX; lia|]. exists p.
  split; [by apply seg_range|]. unfold claimable_at, claimable. rewrite E, Hs. done.
Qed.
End views.

Lemma claimable_mono view now now' q : now <= now' ->
  claimable_at view now q = true -> claimable_at view now' q = true.
Proof.
  intros Hn. unfold claimable_at, claimable. destruct (view q) as [l|]; [|done].
  intros [H|H]%orb_true_iff; apply orb_true_iff; [by left|]. right.
  apply andb_true_iff in H as [H1 H2]. apply andb_true_iff. bool_to_prop. split; lia.
Qed.

(** A message is claimable from its deadline on. *)
Lemma claimable_until view head tail p l now : view_ok view head tail -> (head <= p < tail)%nat ->
  view p = Some l -> 0 <= now -> claimable_at view now p = true ->
  l_until l <= now /\ claimable_at view (l_until l) p = true.
Proof.
  intros Hv Hp E Hnow. destruct (Hv p Hp) as (l0 & E0 & Hl0 & Hheld).
  rewrite E in E0. injection E0 as <-. unfold claimable_at, claimable. rewrite E.
  destruct (l_state l =? STATE_HELD) eqn:E1; bool_to_prop; simpl.
  - intros _. rewrite Hheld by done. done.
  - destruct (l_state l =? STATE_CLAIMED); simpl; [|done]. intros H. bool_to_prop.
    split; [done|]. apply Z.leb_refl.
Qed.

(** Acknowledging a message whose deadline is not the summary leaves the
    summary: another message holds the minimum. *)
Lemma segment_ready_ack view view' head tail p l l' :
  view_ok view head tail -> view_ok view' head tail -> (head <= p < tail)%nat ->
  view p = Some l -> view' p = Some l' -> l_state l' = STATE_ACKED ->
  (forall q, (head <= q < tail)%nat -> q <> p -> view' q = view q) ->
  l_until l <> segment_ready_at view (p / QUEUE_SEG_SLOTS) head tail ->
  segment_ready_at view' (p / QUEUE_SEG_SLOTS) head tail
  = segment_ready_at view (p / QUEUE_SEG_SLOTS) head tail.
Proof.
  intros Hv Hv' Hp E E' Hs' Hframe Hne. set (seg := (p / QUEUE_SEG_SLOTS)%nat) in *.
  pose proof (segment_ready_range view head tail Hv seg) as Hr.
  assert (Hsame : forall now q, (head <= q < tail)%nat -> q <> p ->
    claimable_at view' now q = claimable_at view now q).
  { intros now q Hq Hqp. unfold claimable_at. by rewrite Hframe. }
  apply ready_antisym; [by apply segment_ready_range|done|]. intros now Hnow.
  rewrite !segment_ready_le by done. split; intros (q & Hq & Hc); pose proof Hq as Hq';
    apply seg_range in Hq' as [Eq Hq'].
  - exists q. split; [done|]. rewrite <- Hsame; [done..|]. intros ->.
    revert Hc. unfold claimable_at, claimable. rewrite E', Hs'. done.
  - destruct (decide (q = p)) as [->|Hqp]; [|exists q; split; [done|by rewrite Hsame]].
    destruct (view_live view head tail Hv p Hp) as (l0 & E0 & Hl0).
    rewrite E in E0. injection E0 as <-.
    destruct (claimable_until view head tail p l now) as [Hu Hcu]; [done..|lia|done|].
    assert (Hle : segment_ready_at view seg head tail <= l_until l)
      by (apply segment_ready_le; [lia|by exists p]).
    destruct (proj1 (segment_ready_le view (segment_ready_at view seg head tail) seg head tail
      ltac:(lia)) ltac:(lia)) as (q' & Hq'' & Hc').
    exists q'. split; [done|]. apply seg_range in Hq'' as [Eq'' Hlive].
    assert (q' <> p).
    { intros ->. apply (claimable_until view head tail p l) in Hc' as [H _]; [lia|done..|lia]. }
    rewrite Hsame by done. apply (claimable_mono _ (segment_ready_at view seg head tail)); [lia|done].
Qed.

(** ** The ring after a change in one segment *)

Lemma length_leaves view head tail : fits head tail -> length (leaves view head tail) = TREE_LEAVES.
Proof. intros H. apply (leaves_lookup view head tail 0 H). unfold TREE_LEAVES. lia. Qed.

Lemma leaves_update view view' head tail s : fits head tail ->
  (first_seg head <= s <= last_seg tail)%nat ->
  (forall q, (head <= q < tail)%nat -> (q / QUEUE_SEG_SLOTS)%nat <> s -> view' q = view q) ->
  leaves view' head tail
  = <[(s mod TREE_LEAVES)%nat := segment_ready_at view' s head tail]> (leaves view head tail).
Proof.
  intros Hfit Hs Hframe. pose proof Hfit as [_ Hlt].
  apply (list_eq_same_length _ _ TREE_LEAVES); [by rewrite length_insert, length_leaves|by apply length_leaves|].
  intros i x y Hi Hx Hy. apply list_lookup_total_correct in Hx as <-, Hy as <-.
  destruct (decide (i = s mod TREE_LEAVES)%nat) as [->|Hne].
  - rewrite list_lookup_total_insert_eq by (by rewrite length_leaves). by apply leaf_of_seg.
  - rewrite list_lookup_total_insert_ne by done.
    destruct (leaves_lookup view' head tail i Hfit Hi) as [_ ->].
    destruct (leaves_lookup view head tail i Hfit Hi) as [_ ->]. cbv zeta. case_if; [|done].
    apply segment_ready_ext. intros q Hq Eq. apply Hframe; [done|]. rewrite Eq. intros E'.
    unfold ring, TREE_LEAVES in *. lia.
Qed.

(** ** Lowering and rescanning *)

Lemma tree_lower_ok leaf seg v m : length leaf = TREE_LEAVES ->
  v <= leaf !!! (seg mod TREE_LEAVES)%nat ->
  let '(t, m') := tree_lower (tree_of leaf) seg v m in
  t = tree_of (<[(seg mod TREE_LEAVES)%nat := v]> leaf) /\
  (maint_nodes m' <= maint_nodes m + 3)%nat /\ maint_slots m' = maint_slots m.
Proof.
  intros Hl Hv. assert (Hi : (seg mod TREE_LEAVES < TREE_LEAVES)%nat) by (by apply Nat.mod_upper_bound).
  unfold tree_lower. cbv zeta. change (t_leaf (tree_of leaf)) with leaf. case_if.
  - rewrite insert_same by lia. split; [done|]. lia.
  - by apply tree_propagate_ok.
Qed.

Lemma tree_rescan_ok view leaf seg head tail m : length leaf = TREE_LEAVES ->
  view_ok view head tail ->
  let '(t, m') := tree_rescan view (tree_of leaf) seg head tail m in
  t = tree_of (<[(seg mod TREE_LEAVES)%nat := segment_ready_at view seg head tail]> leaf) /\
  (maint_nodes m' <= maint_nodes m + 3)%nat /\
  (maint_slots m' <= maint_slots m + QUEUE_SEG_SLOTS)%nat.
Proof.
  intros Hl Hview. assert (Hi : (seg mod TREE_LEAVES < TREE_LEAVES)%nat) by (by apply Nat.mod_upper_bound).
  unfold tree_rescan, segment_ready_at. cbv zeta. change (t_leaf (tree_of leaf)) with leaf.
  pose proof (segment_scan_range view head tail Hview seg 0) as Hr.
  destruct (ready_scan _ _ _ _ _) as [best read]. cbn [fst]. case_if.
  - rewrite insert_same by lia. split; [done|]. simpl. lia.
  - pose proof (tree_propagate_ok leaf (seg mod TREE_LEAVES) best
      (leaf !!! (seg mod TREE_LEAVES)%nat <? best) (count_slots read m) Hl Hi) as H.
    destruct (tree_propagate _ _ _ _) as [t m']. simpl in H |- *.
    destruct H as (H1 & H2 & H3); [intros; bool_to_prop; lia|]. split; [done|]. lia.
Qed.

(** ** The operations *)

(** The probe between two operations. *)
Record probe_inv (pr : probe) (head tail : nat) : Prop := {
  inv_wf : store_wf (p_store pr) head tail;
  inv_view : view_ok (lease_at (p_store pr)) head tail;
  inv_tree : p_tree pr = tree_build (lease_at (p_store pr)) head tail;
  inv_nodes : (maint_nodes_max (p_maint pr) <= 3)%nat;
  inv_slots : (maint_slots_max (p_maint pr) <= QUEUE_SEG_SLOTS)%nat;
}.

Lemma maint_end_bounds m : (maint_nodes m <= 3)%nat -> (maint_slots m <= QUEUE_SEG_SLOTS)%nat ->
  (maint_nodes_max m <= 3)%nat -> (maint_slots_max m <= QUEUE_SEG_SLOTS)%nat ->
  (maint_nodes_max (maint_end m) <= 3)%nat /\ (maint_slots_max (maint_end m) <= QUEUE_SEG_SLOTS)%nat.
Proof. intros. simpl. repeat case_if; lia. Qed.

Lemma tree_propagate_max t leaf rose m :
  let m' := snd (tree_propagate t leaf rose m) in
  maint_nodes_max m' = maint_nodes_max m /\ maint_slots_max m' = maint_slots_max m.
Proof. unfold tree_propagate, propagate_up. repeat case_if; done. Qed.

Lemma tree_lower_max t seg v m :
  let m' := snd (tree_lower t seg v m) in
  maint_nodes_max m' = maint_nodes_max m /\ maint_slots_max m' = maint_slots_max m.
Proof. unfold tree_lower. cbv zeta. case_if; [done|apply tree_propagate_max]. Qed.

Lemma tree_rescan_max view t seg head tail m :
  let m' := snd (tree_rescan view t seg head tail m) in
  maint_nodes_max m' = maint_nodes_max m /\ maint_slots_max m' = maint_slots_max m.
Proof.
  unfold tree_rescan. cbv zeta. destruct (ready_scan _ _ _ _ _) as [best read].
  case_if; [done|]. destruct (tree_propagate_max (set_leaf t (seg mod TREE_LEAVES) best)
    (seg mod TREE_LEAVES) (t_leaf t !!! (seg mod TREE_LEAVES)%nat <? best) (count_slots read m)) as [-> ->].
  done.
Qed.

Section ops.
Context (pr : probe) (pos head tail : nat).
Context (Hfit : fits head tail) (Hpos : (head <= pos < tail)%nat) (Hinv : probe_inv pr head tail).

Definition stored (l : lease) : store := set_state (p_store pr) pos (l_state l) (l_until l) (l_token l).

Definition lease_legal (l : lease) : Prop :=
  lease_ok l /\ (l_state l = STATE_HELD -> l_until l = 0).

Lemma stored_lookup l p : lease_legal l -> (head <= p < tail)%nat ->
  lease_at (stored l) p = if (p =? pos)%nat then Some l else lease_at (p_store pr) p.
Proof using Hpos Hinv.
  intros [Hok _] Hp. unfold stored. destruct l as [a b c].
  apply (lease_at_set_state _ head tail); [apply Hinv|done..].
Qed.

Lemma stored_view_ok l : lease_legal l -> view_ok (lease_at (stored l)) head tail.
Proof using Hpos Hinv.
  intros Hl p Hp. rewrite stored_lookup by done. destruct Hl as [(H1 & H2 & H3) H4].
  case_if; [by exists l|]. by apply (inv_view _ _ _ Hinv).
Qed.

Lemma stored_leaves l : lease_legal l ->
  leaves (lease_at (stored l)) head tail =
  <[(pos / QUEUE_SEG_SLOTS mod TREE_LEAVES)%nat :=
      segment_ready_at (lease_at (stored l)) (pos / QUEUE_SEG_SLOTS) head tail]>
    (leaves (lease_at (p_store pr)) head tail).
Proof using Hfit Hpos Hinv.
  intros Hl. apply leaves_update; [done|by apply seg_of_pos|]. intros q Hq Hne.
  rewrite stored_lookup by done. by case_if; [subst|].
Qed.

(** What every operation leaves: its store and a tree whose changed leaf is
    the summary of the changed segment. *)
Lemma finish l t m : lease_legal l ->
  t = tree_of (<[(pos / QUEUE_SEG_SLOTS mod TREE_LEAVES)%nat :=
        segment_ready_at (lease_at (stored l)) (pos / QUEUE_SEG_SLOTS) head tail]>
        (leaves (lease_at (p_store pr)) head tail)) ->
  (maint_nodes m <= 3)%nat -> (maint_slots m <= QUEUE_SEG_SLOTS)%nat ->
  maint_nodes_max m = maint_nodes_max (p_maint pr) ->
  maint_slots_max m = maint_slots_max (p_maint pr) ->
  probe_inv (mk_probe (stored l) t (maint_end m)) head tail.
Proof using Hfit Hpos Hinv.
  intros Hl -> Hn Hs En Es. rewrite <- stored_leaves, <- tree_build_of by done.
  destruct (maint_end_bounds m) as [? ?]; [done..|rewrite En|rewrite Es|]; try apply Hinv.
  split; cbn [p_store p_tree p_maint]; try done; [|by apply stored_view_ok].
  apply set_state_wf; [apply Hinv|done].
Qed.

Lemma free_inv tok : 0 <= tok < 2 ^ 64 ->
  probe_inv
    (let '(t, m) := tree_lower (p_tree pr) (pos / QUEUE_SEG_SLOTS) 0 (maint_begin (p_maint pr)) in
     mk_probe (set_state (p_store pr) pos STATE_HELD 0 tok) t (maint_end m)) head tail.
Proof using Hfit Hpos Hinv.
  intros Htok. set (l := mk_lease STATE_HELD 0 tok).
  assert (Hl : lease_legal l) 
    by (split; [split_and!; simpl; unfold STATE_HELD; lia|done]).
  rewrite (inv_tree _ _ _ Hinv), tree_build_of.
  pose proof (tree_lower_ok (leaves (lease_at (p_store pr)) head tail) (pos / QUEUE_SEG_SLOTS) 0
    (maint_begin (p_maint pr)) (length_leaves _ _ _ Hfit)) as H.
  pose proof (tree_lower_max (tree_of (leaves (lease_at (p_store pr)) head tail))
    (pos / QUEUE_SEG_SLOTS) 0 (maint_begin (p_maint pr))) as Hm.
  destruct (tree_lower _ _ _ _) as [t m]. simpl in Hm.
  destruct H as (H1 & H2 & H3).
  { rewrite leaf_of_seg by (done || by apply seg_of_pos).
    apply segment_ready_range, (inv_view _ _ _ Hinv). }
  apply (finish l); try tauto; simpl in H2, H3; [|lia..]. rewrite H1. do 2 f_equal.
  symmetry. apply (segment_ready_free _ _ _ (stored_view_ok l Hl) pos l); [done| |done].
  rewrite stored_lookup by done. by rewrite Nat.eqb_refl.
Qed.

Lemma rescan_inv l : lease_legal l ->
  probe_inv
    (let '(t, m) := tree_rescan (lease_at (stored l)) (p_tree pr) (pos / QUEUE_SEG_SLOTS) head tail
                      (maint_begin (p_maint pr)) in
     mk_probe (stored l) t (maint_end m)) head tail.
Proof using Hfit Hpos Hinv.
  intros Hl. rewrite (inv_tree _ _ _ Hinv), tree_build_of.
  pose proof (tree_rescan_ok (lease_at (stored l)) (leaves (lease_at (p_store pr)) head tail)
    (pos / QUEUE_SEG_SLOTS) head tail (maint_begin (p_maint pr)) (length_leaves _ _ _ Hfit)
    (stored_view_ok l Hl)) as H.
  pose proof (tree_rescan_max (lease_at (stored l)) (tree_of (leaves (lease_at (p_store pr)) head tail))
    (pos / QUEUE_SEG_SLOTS) head tail (maint_begin (p_maint pr))) as Hm.
  destruct (tree_rescan _ _ _ _ _ _) as [t m]. simpl in Hm. destruct H as (H1 & H2 & H3).
  simpl in H2, H3. apply finish; try tauto; lia.
Qed.
End ops.

Lemma op_ack_inv pr pos head tail : fits head tail -> (head <= pos < tail)%nat ->
  probe_inv pr head tail -> probe_inv (op_ack pr pos head tail) head tail.
Proof.
  intros Hfit Hpos Hinv. unfold op_ack. cbv zeta. set (l := mk_lease STATE_ACKED 0 6).
  assert (Hl : lease_legal l) by (split; [split_and!; simpl; unfold STATE_ACKED; lia|done]).
  pose proof (stored_lookup pr pos head tail Hpos Hinv l) as Hat.
  destruct (view_live _ _ _ (inv_view _ _ _ Hinv) pos Hpos) as (was & Ewas & _). rewrite Ewas.
  change (set_state (p_store pr) pos STATE_ACKED 0 6) with (stored pr pos l). case_if.
  - by apply rescan_inv.
  - apply (finish pr pos head tail); cbn [maint_begin maint_nodes maint_slots]; try done; try lia.
    rewrite (inv_tree _ _ _ Hinv), tree_build_of in E |- *. change (t_leaf (tree_of ?x)) with x in E.
    rewrite leaf_of_seg in E by (done || by apply seg_of_pos).
    rewrite (segment_ready_ack (lease_at (p_store pr)) _ head tail pos was l); try done.
    + rewrite insert_same; [done| |by rewrite leaf_of_seg by (done || by apply seg_of_pos)].
      rewrite length_leaves by done. by apply Nat.mod_upper_bound.
    + apply Hinv.
    + by apply stored_view_ok.
    + rewrite Hat by done. by rewrite Nat.eqb_refl.
    + intros q Hq Hne. rewrite Hat by done. by rewrite (proj2 (Nat.eqb_neq q pos)).
Qed.

Lemma run_op_inv pr o pos head tail : fits head tail -> (head <= pos < tail)%nat ->
  probe_inv pr head tail -> probe_inv (run_op pr o pos head tail) head tail.
Proof.
  intros Hfit Hpos Hinv. destruct o; simpl.
  - apply (free_inv pr pos head tail Hfit Hpos Hinv 0). lia.
  - apply (rescan_inv pr pos head tail Hfit Hpos Hinv (mk_lease STATE_CLAIMED (u64 (FUTURE + Z.of_nat pos)) 5)).
    split; [|done]. split_and!; simpl; try apply u64_range; unfold STATE_CLAIMED; lia.
  - apply (free_inv pr pos head tail Hfit Hpos Hinv 9). lia.
  - by apply op_ack_inv.
Qed.

Definition run_ops (pr : probe) (ops : list (op * nat)) (head tail : nat) : probe :=
  fold_left (fun pr '(o, pos) => run_op pr o pos head tail) ops pr.

Lemma run_ops_inv ops pr head tail : fits head tail -> probe_inv pr head tail ->
  Forall (fun '(_, pos) => (head <= pos < tail)%nat) ops ->
  probe_inv (run_ops pr ops head tail) head tail.
Proof.
  intros Hfit. revert pr. induction ops as [|[o pos] ops IH]; intros pr Hinv Hops; [done|].
  apply list.Forall_cons in Hops as [Hpos Hops]. simpl. apply IH; [|done]. by apply run_op_inv.
Qed.

(** Keeping the tree is as good as rebuilding it.  From a well-formed queue
    with its tree, whatever the sequence of enqueues, claims, hand-backs and
    acknowledgements at live positions, the tree the operations maintain
    incrementally is the one [tree_build] would compute from the pages they
    leave, no operation wrote more than 3 nodes or re-read more than one
    segment's 62 slots, and [tree_scan] on it finds exactly the first claimable
    message of the queue. *)
Theorem maintenance_keeps_the_tree pr ops head tail :
  fits head tail -> probe_inv pr head tail ->
  Forall (fun '(_, pos) => (head <= pos < tail)%nat) ops ->
  let pr' := run_ops pr ops head tail in
  p_tree pr' = tree_build (lease_at (p_store pr')) head tail /\
  (maint_nodes_max (p_maint pr') <= 3)%nat /\
  (maint_slots_max (p_maint pr') <= QUEUE_SEG_SLOTS)%nat /\
  forall now k, 0 <= now < UINT64_MAX ->
    snd (tree_scan (lease_at (p_store pr')) (p_tree pr') head tail now k)
    = first_claimable (lease_at (p_store pr')) now head tail.
Proof.
  intros Hfit Hinv Hops pr'. destruct (run_ops_inv ops pr head tail Hfit Hinv Hops) as [_ _ Ht Hn Hs].
  fold pr' in Ht, Hn, Hs. split_and!; [done..|]. intros now k Hnow. rewrite Ht.
  destruct Hfit. apply tree_scan_spec; [done|lia|done].
Qed.

Lemma blank_get64 off : (off + 8 <= PAGE_SIZE)%nat -> get64 blank_page off = 0.
Proof.
  intros H. unfold get64, blank_page. rewrite drop_replicate, take_replicate. apply le_val_zeros.
Qed.

Lemma blank_get32 off : (off + 4 <= PAGE_SIZE)%nat -> get32 blank_page off = 0.
Proof.
  intros H. unfold get32, blank_page. rewrite drop_replicate, take_replicate. apply le_val_zeros.
Qed.

Lemma two_segments_lease p : (3 <= p < 100)%nat ->
  lease_at two_segments p = Some (mk_lease STATE_HELD 0 0).
Proof.
  intros Hp. rewrite lease_at_alt, two_segments_addr by lia. pose proof (slot_off_bound p).
  assert (E : seg_pages two_segments !! (if (p / QUEUE_SEG_SLOTS =? 0)%nat then 7 else 9)
    = Some blank_page) by (case_if; reflexivity).
  rewrite E. cbn [fmap option_fmap option_map lease_of]. rewrite blank_get32, !blank_get64 by slot_arith.
  done.
Qed.

Definition two_segments_probe : probe :=
  mk_probe two_segments (tree_build (lease_at two_segments) 3 100) (mk_maint 0 0 0 0 0 0).

Lemma two_segments_inv : probe_inv two_segments_probe 3 100.
Proof.
  split; cbn [two_segments_probe p_store p_tree p_maint maint_nodes_max maint_slots_max];
    [exact two_segments_wf| |done|lia|lia].
  intros p Hp. rewrite two_segments_lease by done. eexists. split; [done|]. simpl. split; [lia|done].
Qed.

Lemma maintenance_keeps_the_tree_witness :
  let pr' := run_ops two_segments_probe [(OpClaim, 3%nat); (OpAck, 3%nat); (OpClaim, 70%nat); (OpNack, 70%nat)]
               3 100 in
  p_tree pr' = tree_build (lease_at (p_store pr')) 3 100.
Proof.
  destruct (maintenance_keeps_the_tree two_segments_probe
    [(OpClaim, 3%nat); (OpAck, 3%nat); (OpClaim, 70%nat); (OpNack, 70%nat)] 3 100) as (E & _).
  - split; [lia|]. vm_compute. lia.
  - exact two_segments_inv.
  - repeat (apply list.Forall_cons; split; [lia|]). constructor.
  - exact E.
Defined.

(** ** What the verbs cost *)

Lemma tree_propagate_pages t leaf rose m :
  let m' := snd (tree_propagate t leaf rose m) in
  (maint_leaf_pages m' <= maint_leaf_pages m + if rose then 8 else 0)%nat.
Proof.
  unfold tree_propagate, propagate_up. cbv zeta. destruct rose; cbn [negb].
  - set (f := List.filter _ _). assert (Hf : (length f <= 8)%nat).
    { subst f. rewrite filter_length_le. by rewrite length_seq. }
    clearbody f. repeat case_if; simpl; lia.
  - repeat case_if; simpl; lia.
Qed.

Lemma tree_rescan_pages view t seg head tail m :
  (maint_leaf_pages (snd (tree_rescan view t seg head tail m)) <= maint_leaf_pages m + 8)%nat.
Proof.
  unfold tree_rescan. cbv zeta. destruct (ready_scan _ _ _ _ _) as [best read].
  case_if; [simpl; lia|]. etransitivity; [apply tree_propagate_pages|].
  simpl. case_if; lia.
Qed.

Lemma tree_lower_pages t seg v m :
  (maint_leaf_pages (snd (tree_lower t seg v m)) <= maint_leaf_pages m)%nat.
Proof.
  unfold tree_lower. cbv zeta. case_if; [done|]. etransitivity; [apply tree_propagate_pages|].
  cbv iota. lia.
Qed.

(** Freeing a message reads nothing; the other two verbs read one segment and
    the leaves of one node. *)
Definition op_bound (o : op) : nat * nat * nat :=
  match o with OpEnqueue | OpNack => (0, 3, 0)%nat | OpClaim | OpAck => (QUEUE_SEG_SLOTS, 3, 8)%nat end.

Definition within (m : maint) (b : nat * nat * nat) : Prop :=
  let '(slots, nodes, pages) := b in
  (maint_slots m <= slots /\ maint_nodes m <= nodes /\ maint_leaf_pages m <= pages)%nat.

Section costs.
Context (pr : probe) (pos head tail : nat).
Context (Hfit : fits head tail) (Hpos : (head <= pos < tail)%nat) (Hinv : probe_inv pr head tail).

Lemma free_cost : within (snd (tree_lower (p_tree pr) (pos / QUEUE_SEG_SLOTS) 0
  (maint_begin (p_maint pr)))) (op_bound OpEnqueue).
Proof using Hfit Hpos Hinv.
  rewrite (inv_tree _ _ _ Hinv), tree_build_of.
  pose proof (tree_lower_ok (leaves (lease_at (p_store pr)) head tail) (pos / QUEUE_SEG_SLOTS) 0
    (maint_begin (p_maint pr)) (length_leaves _ _ _ Hfit)) as H.
  pose proof (tree_lower_pages (tree_of (leaves (lease_at (p_store pr)) head tail))
    (pos / QUEUE_SEG_SLOTS) 0 (maint_begin (p_maint pr))) as Hp.
  destruct (tree_lower _ _ _ _) as [t m]. cbn [snd] in *. destruct H as (_ & H2 & H3).
  { rewrite leaf_of_seg by (done || by apply seg_of_pos).
    apply segment_ready_range, (inv_view _ _ _ Hinv). }
  simpl in H2, H3, Hp. unfold within, op_bound. lia.
Qed.

Lemma rescan_cost l : lease_legal l -> within (snd (tree_rescan (lease_at (stored pr pos l)) (p_tree pr)
  (pos / QUEUE_SEG_SLOTS) head tail (maint_begin (p_maint pr)))) (op_bound OpClaim).
Proof using Hfit Hpos Hinv.
  intros Hl. rewrite (inv_tree _ _ _ Hinv), tree_build_of.
  pose proof (tree_rescan_ok (lease_at (stored pr pos l)) (leaves (lease_at (p_store pr)) head tail)
    (pos / QUEUE_SEG_SLOTS) head tail (maint_begin (p_maint pr)) (length_leaves _ _ _ Hfit)
    (stored_view_ok _ _ _ _ Hpos Hinv l Hl)) as H.
  pose proof (tree_rescan_pages (lease_at (stored pr pos l))
    (tree_of (leaves (lease_at (p_store pr)) head tail))
    (pos / QUEUE_SEG_SLOTS) head tail (maint_begin (p_maint pr))) as Hp.
  destruct (tree_rescan _ _ _ _ _ _) as [t m]. cbn [snd] in *. destruct H as (_ & H2 & H3).
  simpl in H2, H3, Hp. unfold within, op_bound. lia.
Qed.

Lemma run_op_cost o : within (p_maint (run_op pr o pos head tail)) (op_bound o).
Proof using Hfit Hpos Hinv.
  destruct o; cbn [run_op].
  - pose proof free_cost as H. unfold op_enqueue_like. cbv zeta.
    destruct (tree_lower _ _ _ _) as [t m]. exact H.
  - pose proof (rescan_cost (mk_lease STATE_CLAIMED (u64 (FUTURE + Z.of_nat pos)) 5)) as H.
    unfold op_claim. cbv zeta. unfold stored in H. cbn [l_state l_until l_token] in H.
    destruct (tree_rescan _ _ _ _ _ _) as [t m]. apply H.
    split; [|done]. split_and!; simpl; try apply u64_range; unfold STATE_CLAIMED; lia.
  - pose proof free_cost as H. unfold op_nack. cbv zeta.
    destruct (tree_lower _ _ _ _) as [t m]. exact H.
  - pose proof (rescan_cost (mk_lease STATE_ACKED 0 6)) as H.
    unfold op_ack. cbv zeta. unfold stored in H. cbn [l_state l_until l_token] in H.
    case_if; [|simpl; unfold QUEUE_SEG_SLOTS; lia].
    destruct (tree_rescan _ _ _ _ _ _) as [t m]. apply H.
    split; [|done]. split_and!; simpl; unfold STATE_ACKED; lia.
Qed.
End costs.

(** The line of the report of verb [k] after [count] rounds. *)
Definition cost_ok (k count : nat) (c : cost) : Prop :=
  let '(slots, nodes, pages) := op_bound (seq_op k) in
  (c_smax c <= slots /\ c_nmax c <= nodes /\ c_sibmax c <= pages /\
   c_slots c <= slots * count /\ c_nodes c <= nodes * count /\ c_sibs c <= pages * count)%nat.

Lemma charge_ok k count m c : within m (op_bound (seq_op k)) -> cost_ok k count c ->
  cost_ok k (S count) (charge m c).
Proof.
  unfold within, cost_ok. destruct (op_bound _) as [[slots nodes] pages].
  intros (H1 & H2 & H3) (H4 & H5 & H6 & H7 & H8 & H9).
  cbn [charge c_slots c_nodes c_sibs c_smax c_nmax c_sibmax]. rewrite !Nat.mul_succ_r.
  repeat case_if; lia.
Qed.

Lemma zeroed_inv pr m head tail : probe_inv pr head tail ->
  maint_nodes_max m = maint_nodes_max (p_maint pr) -> maint_slots_max m = maint_slots_max (p_maint pr) ->
  probe_inv (mk_probe (p_store pr) (p_tree pr) m) head tail.
Proof. intros [] E1 E2. split; cbn [p_store p_tree p_maint]; rewrite ?E1, ?E2; done. Qed.

Lemma measure_verb_ok head tail n k count pr cs : fits head tail -> (head <= n < tail)%nat ->
  (k < 4)%nat -> probe_inv pr head tail -> length cs = 4%nat ->
  cost_ok k count (cs !!! k) ->
  let '(pr', cs') := measure_verb head tail n k (pr, cs) in
  probe_inv pr' head tail /\ length cs' = 4%nat /\ cost_ok k (S count) (cs' !!! k) /\
  forall j, j <> k -> cs' !!! j = cs !!! j.
Proof.
  intros Hfit Hn Hk Hinv Hlen Hc. unfold measure_verb. set (pr1 := if (k =? 3)%nat then _ else _).
  assert (H1 : probe_inv pr1 head tail)
    by (subst pr1; case_if; [by apply (run_op_inv pr OpClaim)|done]).
  assert (H2 : probe_inv (mk_probe (p_store pr1) (p_tree pr1) (maint_begin (p_maint pr1))) head tail)
    by (by apply zeroed_inv).
  cbv zeta. split; [by apply run_op_inv|]. rewrite length_insert. split; [done|]. split.
  - rewrite list_lookup_total_insert_eq by lia. apply charge_ok; [by apply run_op_cost|done].
  - intros j Hj. by rewrite list_lookup_total_insert_ne.
Qed.

Lemma measure_round head tail n count pr cs : fits head tail -> (head <= n < tail)%nat ->
  probe_inv pr head tail -> length cs = 4%nat ->
  (forall k, (k < 4)%nat -> cost_ok k count (cs !!! k)) ->
  let '(pr', cs') := for_loop 4 (measure_verb head tail n) (pr, cs) in
  probe_inv pr' head tail /\ length cs' = 4%nat /\
  forall k, (k < 4)%nat -> cost_ok k (S count) (cs' !!! k).
Proof.
  intros Hfit Hn Hinv Hlen Hc.
  pose proof (for_loop_ind (fun i '(pr', cs') => probe_inv pr' head tail /\ length cs' = 4%nat /\
    forall k, (k < 4)%nat -> cost_ok k (if (k <? i)%nat then S count else count) (cs' !!! k))
    4 (measure_verb head tail n) (pr, cs)) as H.
  destruct (for_loop 4 _ _) as [pr' cs']. destruct H as (H1 & H2 & H3).
  - split_and!; [done..|]. intros k Hk. by apply Hc.
  - intros i [pr1 cs1] Hi (I1 & I2 & I3).
    pose proof (measure_verb_ok head tail n i count pr1 cs1 Hfit Hn Hi I1 I2) as Hm.
    destruct (measure_verb _ _ _ _ _) as [pr2 cs2]. destruct Hm as (M1 & M2 & M3 & M4).
    { specialize (I3 i Hi). by rewrite Nat.ltb_irrefl in I3. }
    split_and!; [done..|]. intros k Hk. destruct (decide (k = i)) as [->|Hne].
    + by rewrite (proj2 (Nat.ltb_lt i (S i))) by lia.
    + rewrite M4 by done. specialize (I3 k Hk). revert I3. repeat case_if; try done; lia.
  - split_and!; [done..|]. intros k Hk. specialize (H3 k Hk).
    by rewrite (proj2 (Nat.ltb_lt k 4)) in H3.
Qed.

Lemma worker_cycle_costs pr head tail : fits head tail -> probe_inv pr head tail ->
  let '(pr', cs, count) := worker_cycle pr head tail in
  count = (tail - head)%nat /\ length cs = 4%nat /\
  (forall k, (k < 4)%nat -> cost_ok k count (cs !!! k)) /\ probe_inv pr' head tail.
Proof.
  intros Hfit Hinv. unfold worker_cycle. set (body := fun i _ => _).
  pose proof (for_loop_ind (fun i '(pr', cs, count) => count = i /\ probe_inv pr' head tail /\
    length cs = 4%nat /\ forall k, (k < 4)%nat -> cost_ok k count (cs !!! k))
    (tail - head) body (pr, replicate 4 no_cost, 0%nat)) as H.
  destruct (for_loop _ body _) as [[pr' cs] count]. destruct H as (H1 & H2 & H3 & H4).
  - split_and!; [done..|]. intros k Hk. rewrite lookup_total_replicate_2 by done.
    unfold cost_ok. destruct (op_bound _) as [[? ?] ?]. simpl. lia.
  - intros i [[pr1 cs1] count1] Hi (-> & I2 & I3 & I4). subst body. cbv beta iota.
    pose proof (measure_round head tail (head + i) i pr1 cs1 Hfit ltac:(lia) I2 I3 I4) as Hm.
    destruct (for_loop 4 _ _) as [pr2 cs2]. tauto.
  - done.
Qed.

Lemma shared_deadline_costs pr head tail : fits head tail -> probe_inv pr head tail ->
  let '(pr', s_total, s_max, ops) := shared_deadline pr head tail in
  ops = (tail - 1 - head)%nat /\ (s_max <= QUEUE_SEG_SLOTS)%nat /\
  (s_total <= QUEUE_SEG_SLOTS * ops)%nat /\ probe_inv pr' head tail.
Proof.
  intros Hfit Hinv. unfold shared_deadline. set (body := fun i _ => _).
  pose proof (for_loop_ind (fun i '(pr', s_total, s_max, ops) => ops = i /\
    (s_max <= QUEUE_SEG_SLOTS)%nat /\ (s_total <= QUEUE_SEG_SLOTS * ops)%nat /\ probe_inv pr' head tail)
    (tail - 1 - head) body (pr, 0%nat, 0%nat, 0%nat)) as H.
  destruct (for_loop _ body _) as [[[pr' s_total] s_max] ops]. apply H; clear H.
  - split_and!; [done|lia..|done].
  - intros i [[[pr1 total1] max1] ops1] Hi (-> & H1 & H2 & H3). subst body. cbv beta iota zeta.
    set (m := mk_maint 0 0 _ _ _ _).
    assert (Hz : probe_inv (mk_probe (p_store pr1) (p_tree pr1) m) head tail) by (by apply zeroed_inv).
    pose proof (run_op_cost _ (head + i) head tail Hfit ltac:(lia) Hz OpAck) as Hc.
    pose proof (run_op_inv _ OpAck (head + i) head tail Hfit ltac:(lia) Hz) as Hi'.
    cbn [run_op] in Hc, Hi'. set (pr2 := op_ack _ _ _ _) in *. clearbody pr2.
    unfold within, op_bound in Hc. rewrite Nat.mul_succ_r.
    split_and!; [done| |lia|done]. case_if; lia.
Qed.
