(* ===== verification/LeaseShape.v ===== *)
(** * LeaseShape: the queues the lease probe measures

    The shapes of [benchmarks/lease_probe.c] ([reset_shape], [shape],
    [seal_all]), run on the bytes of the pages: what every slot holds
    afterwards, which message a claim would find, and that every segment page is
    sealed with the summary and the CRC of what it holds. *)

From stdpp Require Import gmap.
From S2P Require Import Prelude Crc32c LeaseProbe LeaseMaint.

(** ** A queue fresh from [db_queue_push] *)

(** [depth] messages from position 0, their segments named by the directory:
    at most 495 entries, which end where the page's CRC begins. *)
Record fresh_queue (st : store) (depth : nat) : Prop := {
  fq_wf : store_wf st 0 depth;
  fq_page : page_ok (qpage st);
  fq_first : get64 (qpage st) Q_FIRST_SEG_OFF = 0;
  fq_head : q_head st = 0%nat;
  fq_tail : q_tail st = depth;
  fq_depth : (depth <= 495 * QUEUE_SEG_SLOTS)%nat;
}.

(** The slots of a queue, position by position. *)
Definition holds (st : store) (depth : nat) (f : nat -> lease) : Prop :=
  fresh_queue st depth /\ forall p, (p < depth)%nat -> lease_at st p = Some (f p).

Definition update (f : nat -> lease) (pos : nat) (l : lease) (p : nat) : lease :=
  if (p =? pos)%nat then l else f p.

Lemma set_state_qpage st pos a b c : qpage (set_state st pos a b c) = qpage st.
Proof. unfold set_state. by destruct (slot_at st pos) as [[? ?]|]. Qed.

Lemma fresh_set_state st depth pos a b c : fresh_queue st depth -> (pos < depth)%nat ->
  fresh_queue (set_state st pos a b c) depth.
Proof.
  intros [] Hpos. unfold q_head, q_tail in *.
  split; unfold q_head, q_tail; rewrite ?set_state_qpage; try done. apply set_state_wf; [done|lia].
Qed.

Lemma holds_set_state st depth f pos l : holds st depth f -> (pos < depth)%nat -> lease_ok l ->
  holds (set_state st pos (l_state l) (l_until l) (l_token l)) depth (update f pos l).
Proof.
  intros [Hfq Hf] Hpos Hok. split; [by apply fresh_set_state|]. intros p Hp.
  rewrite (lease_at_set_state st 0 depth); [|apply Hfq|lia|lia|by destruct l].
  unfold update. case_if; [by destruct l|by apply Hf].
Qed.

Lemma holds_ext st depth f g : holds st depth f -> (forall p, (p < depth)%nat -> f p = g p) ->
  holds st depth g.
Proof. intros [Hfq Hf] H. split; [done|]. intros p Hp. by rewrite Hf, H. Qed.

(** A loop of [set_state]s over positions [from .. from + n). *)
Lemma holds_loop st depth f from n (l : nat -> lease) : holds st depth f ->
  (from + n <= depth)%nat -> (forall p, (from <= p < from + n)%nat -> lease_ok (l p)) ->
  holds (for_loop n (fun i st => let p := (from + i)%nat in
           set_state st p (l_state (l p)) (l_until (l p)) (l_token (l p))) st) depth
        (fun p => if (from <=? p)%nat && (p <? from + n)%nat then l p else f p).
Proof.
  intros Hst Hn Hok. induction n as [|n IH].
  - rewrite for_loop_0. apply (holds_ext _ _ f); [done|]. intros p Hp. rewrite Nat.add_0_r.
    destruct (from <=? p)%nat eqn:E1, (p <? from)%nat eqn:E2; try done; bool_to_prop; lia.
  - rewrite for_loop_S. cbv zeta. eapply holds_ext.
    + apply holds_set_state; [apply IH; [lia|intros; apply Hok; lia]|lia|apply Hok; lia].
    + intros p Hp. unfold update. cbv beta.
      destruct (p =? from + n)%nat eqn:E; bool_to_prop.
      * subst p. rewrite (proj2 (Nat.leb_le _ _)), (proj2 (Nat.ltb_lt _ _)) by lia. done.
      * destruct (from <=? p)%nat eqn:E1; [|done]. simpl.
        destruct (p <? from + n)%nat eqn:E2, (p <? from + S n)%nat eqn:E3; bool_to_prop; try done; lia.
Qed.

(** ** The claim cursor: one word of the queue page, and its CRC *)

Section cursor.
Context (hardware : bool) (st : store) (claim : Z) (Hq : page_ok (qpage st)).
Let st' := set_claim hardware st claim.

Lemma set_claim_page : page_ok (qpage st').
Proof using Hq.
  destruct Hq as [Hl Hb]. unfold st', set_claim, db_catalog_seal. cbn [qpage]. split.
  - rewrite length_put32; rewrite length_put64; rewrite ?Hl; try done;
      unfold Q_CLAIM_OFF, CAT_CRC, PAGE_SIZE; lia.
  - unfold put32, put64. repeat apply bytes_memcpy; auto with word.
Qed.

Lemma set_claim_get o : (o + 8 <= Q_CLAIM_OFF \/ Q_CLAIM_OFF + 8 <= o)%nat -> (o + 8 <= CAT_CRC)%nat ->
  get64 (qpage st') o = get64 (qpage st) o.
Proof using Hq.
  intros Ho Hc. destruct Hq as [Hl Hb]. unfold st', set_claim, db_catalog_seal. cbn [qpage].
  assert (Hl' : length (put64 (qpage st) Q_CLAIM_OFF claim) = PAGE_SIZE)
    by (rewrite length_put64; rewrite ?Hl; [done|]; unfold Q_CLAIM_OFF, PAGE_SIZE; lia).
  rewrite get64_put32_ne; [apply get64_put64_ne| |by left].
  - unfold PAGE_SIZE in *. unfold Q_CLAIM_OFF. lia.
  - done.
  - rewrite Hl'. unfold CAT_CRC, PAGE_SIZE. lia.
Qed.
End cursor.

Lemma fresh_entry st depth p : fresh_queue st depth ->
  fst (slot_addr st p) = entry_of st (p / QUEUE_SEG_SLOTS).
Proof.
  intros [_ _ E _ _ _]. unfold slot_addr. cbv zeta. cbn [fst]. rewrite E.
  by rewrite Nat.sub_0_r.
Qed.

Lemma set_claim_entry hardware st claim e : page_ok (qpage st) -> (e < 495)%nat ->
  entry_of (set_claim hardware st claim) e = entry_of st e.
Proof.
  intros Hq He. apply set_claim_get; [done|right|]; unfold Q_ENTRIES_OFF, Q_CLAIM_OFF, CAT_CRC; lia.
Qed.

Lemma holds_set_claim hardware st depth f claim : holds st depth f ->
  holds (set_claim hardware st claim) depth f.
Proof.
  intros [Hfq Hf]. pose proof Hfq as [Hwf Hq Hfirst Hhead Htail Hd].
  assert (Hget : forall o, o = Q_HEAD_OFF \/ o = Q_TAIL_OFF \/ o = Q_FIRST_SEG_OFF ->
    get64 (qpage (set_claim hardware st claim)) o = get64 (qpage st) o).
  { intros o Ho. apply set_claim_get; [done|..]; destruct Ho as [->|[->| ->]]; vm_compute; lia. }
  assert (Haddr : forall p, (p < depth)%nat ->
    slot_addr (set_claim hardware st claim) p = slot_addr st p).
  { intros p Hp. unfold slot_addr. rewrite Hget by tauto. rewrite Hfirst. cbv zeta.
    rewrite set_claim_entry; [done..|]. unfold QUEUE_SEG_SLOTS in *. simpl (Z.to_nat 0). lia. }
  split; [split|]; unfold q_head, q_tail; rewrite ?Hget by tauto; try done.
  - split; [apply Hwf| |].
    + intros p Hp. rewrite slot_at_alt, Haddr by lia.
      change (seg_pages (set_claim hardware st claim)) with (seg_pages st).
      rewrite <- slot_at_alt. apply (wf_slots _ _ _ Hwf p Hp).
    + intros p q Hp Hq'. rewrite !Haddr by lia. by apply (wf_apart _ _ _ Hwf).
  - by apply set_claim_page.
  - intros p Hp. rewrite lease_at_alt, Haddr by lia.
    change (seg_pages (set_claim hardware st claim)) with (seg_pages st).
    rewrite <- lease_at_alt. by apply Hf.
Qed.

(** ** Sealing a segment page *)

(** The summary and the CRC say what the page holds. *)
Definition sealed (page : list Z) (ready : Z) : Prop :=
  get64 page QSEG_READY_AT_OFF = ready /\
  get32 page QSEG_CRC_OFF = crc32c (take QSEG_CRC_OFF page).

Section sealing.
Context (page : list Z) (i head tail : nat) (Hpage : page_ok page).
Let view (p : nat) : option lease := Some (lease_of (page, slot_off p)).

Lemma page_ready_range : 0 <= segment_ready_at view i head tail < 2 ^ 64.
Proof using Hpage.
  destruct Hpage as [Hl Hb]. pose proof (scan_range view i head tail 0) as H. unfold segment_ready_at.
  cbv zeta. destruct (ready_scan _ _ _ _ _) as [r read]. cbn [fst]. unfold UINT64_MAX in H.
  destruct H as [H _]; [|lia]. intros q l _ E. unfold view in E. injection E as <-.
  change (0 <= get64 page (slot_off q + QMSG_LEASE_UNTIL_OFF)). apply get64_range; [done|].
  pose proof (slot_off_bound q). unfold QMSG_LEASE_UNTIL_OFF. lia.
Qed.

Let page1 : list Z := put64 page QSEG_READY_AT_OFF (segment_ready_at view i head tail).

Lemma page1_ok : page_ok page1.
Proof using Hpage.
  destruct Hpage as [Hl Hb]. split.
  - unfold page1. rewrite length_put64; rewrite ?Hl; [done|].
    unfold QSEG_READY_AT_OFF, PAGE_SIZE. lia.
  - unfold page1, put64. apply bytes_memcpy; auto with word.
Qed.

Lemma seal_page_alt : seal_page page i head tail
  = put32 page1 QSEG_CRC_OFF (crc32c (take QSEG_CRC_OFF page1)).
Proof. done. Qed.

Lemma crc_fits : (QSEG_CRC_OFF + 4 <= length page1)%nat.
Proof using Hpage. destruct page1_ok as [-> _]. unfold QSEG_CRC_OFF, PAGE_SIZE. lia. Qed.

Lemma seal_page_ok : page_ok (seal_page page i head tail).
Proof using Hpage.
  rewrite seal_page_alt. destruct page1_ok as [Hl Hb]. split.
  - by rewrite length_put32 by apply crc_fits.
  - unfold put32. apply bytes_memcpy; auto with word.
Qed.

Lemma seal_page_sealed : sealed (seal_page page i head tail) (segment_ready_at view i head tail).
Proof using Hpage.
  rewrite seal_page_alt. pose proof crc_fits as Hfit. destruct page1_ok as [Hl Hb]. split.
  - rewrite get64_put32_ne by (done || vm_compute; lia). apply get64_put64; [|apply page_ready_range].
    destruct Hpage as [-> _]. unfold QSEG_READY_AT_OFF, PAGE_SIZE. lia.
  - rewrite get32_put32; [|done|apply crc32c_range; auto with word].
    f_equal. unfold put32, memcpy. rewrite take_app_length'; [done|]. rewrite length_take. lia.
Qed.

Lemma seal_page_lease p : lease_of (seal_page page i head tail, slot_off p) = lease_of (page, slot_off p).
Proof using Hpage.
  rewrite seal_page_alt. pose proof crc_fits as Hfit. destruct page1_ok as [Hl Hb].
  assert (Hlo : (QSEG_READY_AT_OFF + 8 <= slot_off p)%nat)
    by (unfold slot_off, QSEG_READY_AT_OFF, QSEG_SLOTS_OFF; lia).
  assert (Hhi : (slot_off p + 64 <= QSEG_CRC_OFF)%nat)
    by (unfold slot_off, QSEG_CRC_OFF, QSEG_SLOTS_OFF, QUEUE_SEG_SLOTS, QUEUE_SLOT_SIZE; lia).
  assert (H1 : (QSEG_READY_AT_OFF + 8 <= length page)%nat)
    by (destruct Hpage as [-> _]; unfold QSEG_READY_AT_OFF, PAGE_SIZE; lia).
  unfold lease_of. rewrite get32_put32_ne, !get64_put32_ne by (done || slot_arith).
  unfold page1. rewrite get32_put64_ne, !get64_put64_ne by (done || slot_arith). done.
Qed.
End sealing.

Definition segs_of (depth : nat) : nat := ((depth + QUEUE_SEG_SLOTS - 1) / QUEUE_SEG_SLOTS)%nat.

(** The first [n] segments carry their summary and their CRC. *)
Definition sealed_upto (st : store) (depth : nat) (f : nat -> lease) (n : nat) : Prop :=
  forall i, (i < n)%nat -> exists page, seg_pages st !! entry_of st i = Some page /\
    sealed page (segment_ready_at (fun p => Some (f p)) i 0 depth).

Lemma seg_first_live depth j : (j < segs_of depth)%nat -> (j * QUEUE_SEG_SLOTS < depth)%nat.
Proof. unfold segs_of, QUEUE_SEG_SLOTS. lia. Qed.

Section seal_step.
Context (st : store) (depth i : nat) (f : nat -> lease) (page : list Z).
Context (Hst : holds st depth f) (Hi : (i < segs_of depth)%nat).
Context (Hpage : seg_pages st !! entry_of st i = Some page).
Let st' : store := mk_store (qpage st) (<[entry_of st i := seal_page page i 0 depth]> (seg_pages st)).

Lemma seal_page_live : page_ok page.
Proof using Hst Hpage. destruct Hst as [[Hwf _ _ _ _ _] _]. by apply (wf_pages _ _ _ Hwf) in Hpage. Qed.

Lemma seg_entry j : entry_of st j = fst (slot_addr st (j * QUEUE_SEG_SLOTS)).
Proof using Hst. rewrite (fresh_entry st depth) by apply Hst. by rewrite Nat.div_mul. Qed.

Lemma seal_step_lookup p : (p < depth)%nat -> lease_at st' p = lease_at st p.
Proof using Hst Hpage.
  intros Hp. rewrite !lease_at_alt. change (slot_addr st' p) with (slot_addr st p). cbn [st' seg_pages].
  destruct (decide (fst (slot_addr st p) = entry_of st i)) as [->|Hne].
  - rewrite lookup_insert_eq, Hpage. cbn [fmap option_fmap option_map].
    by rewrite seal_page_lease by apply seal_page_live.
  - by rewrite lookup_insert_ne.
Qed.

Lemma seal_step_holds : holds st' depth f.
Proof using Hst Hi Hpage.
  pose proof Hst as [[Hwf Hq Hfirst Hhead Htail Hd] Hf]. split; [split; try done|].
  - split.
    + apply map_Forall_insert_2; [apply seal_page_ok, seal_page_live|apply Hwf].
    + intros p Hp. pose proof (seal_step_lookup p ltac:(lia)) as E. rewrite Hf in E by lia.
      unfold lease_at in E. destruct (slot_at st' p); [done|discriminate].
    + apply (wf_apart _ _ _ Hwf).
  - intros p Hp. rewrite seal_step_lookup by done. by apply Hf.
Qed.

Lemma seal_step_sealed : sealed_upto st depth f i -> sealed_upto st' depth f (S i).
Proof using Hst Hi Hpage.
  intros Hs j Hj. change (entry_of st' j) with (entry_of st j). cbn [st' seg_pages].
  destruct (decide (j = i)) as [->|Hne].
  - eexists. split; [apply lookup_insert_eq|].
    rewrite (segment_ready_ext (fun p => Some (lease_of (page, slot_off p)))).
    + apply seal_page_sealed, seal_page_live.
    + intros q Hq Eq. pose proof Hst as [Hfq Hf]. rewrite <- Hf by lia.
      rewrite lease_at_alt, (fresh_entry st depth), Eq by done. by rewrite Hpage.
  - destruct (Hs j ltac:(lia)) as (page' & E & Hse). exists page'. split; [|done].
    rewrite lookup_insert_ne; [done|]. rewrite !seg_entry.
    pose proof (seg_first_live depth j ltac:(lia)). pose proof (seg_first_live depth i Hi).
    destruct Hst as [[Hwf _ _ _ _ _] _]. apply (wf_apart _ _ _ Hwf); [lia..|].
    rewrite !Nat.div_mul by done. done.
Qed.
End seal_step.

Lemma holds_seal_all st depth f : holds st depth f ->
  holds (seal_all st depth) depth f /\ sealed_upto (seal_all st depth) depth f (segs_of depth).
Proof.
  intros Hst. unfold seal_all. cbv zeta. fold (segs_of depth).
  pose proof Hst as [[_ _ _ -> -> _] _].
  apply (for_loop_ind (fun n st => holds st depth f /\ sealed_upto st depth f n)).
  - split; [done|]. intros i Hi. lia.
  - intros i st1 Hi [H1 H2].
    destruct (live_page st1 0 depth ltac:(apply H1) (i * QUEUE_SEG_SLOTS)) as (page & E & _).
    { split; [lia|by apply seg_first_live]. }
    rewrite <- (seg_entry st1 depth f H1 i) in E. rewrite E. split.
    + by apply seal_step_holds.
    + by apply seal_step_sealed.
Qed.

(** ** The shapes *)

Definition free_slot : lease := mk_lease STATE_HELD 0 0.
Definition held_until_future (p : nat) : lease := mk_lease STATE_CLAIMED FUTURE (Z.of_nat p + 1).
Definition finished (p : nat) : lease := mk_lease STATE_ACKED 0 (Z.of_nat p + 1).

(** What each shape says a slot holds. *)
Definition shape_lease (name : scenario) (depth p : nat) : lease :=
  match name with
  | front => free_slot
  | live => if (p =? depth - 1)%nat then free_slot else held_until_future p
  | stuck => if (p =? 0)%nat then held_until_future 0
             else if (p =? depth - 1)%nat then free_slot else finished p
  | lapsed => if (p =? depth - 1)%nat then mk_lease STATE_CLAIMED PAST 7
              else if (p =? 0)%nat then held_until_future 0 else finished p
  | empty => held_until_future p
  end.

(** What a claim at [NOW] finds in it. *)
Definition shape_answer (name : scenario) (depth : nat) : option nat :=
  match name with
  | front => Some 0%nat
  | live | stuck | lapsed => Some (depth - 1)%nat
  | empty => None
  end.

(** Positions that were handed out at some point. *)
Definition handed_out (l : lease) : bool := negb (l_state l =? STATE_HELD).

Lemma lease_ok_held p depth : (p < depth)%nat -> (depth <= 495 * QUEUE_SEG_SLOTS)%nat ->
  lease_ok (held_until_future p) /\ lease_ok (finished p).
Proof.
  unfold QUEUE_SEG_SLOTS, lease_ok, held_until_future, finished, STATE_CLAIMED, STATE_ACKED, FUTURE, NOW.
  intros. cbn [l_state l_until l_token]. repeat split; lia.
Qed.

Lemma free_slot_ok : lease_ok free_slot.
Proof. unfold lease_ok. vm_compute. repeat split; congruence. Qed.

Lemma reset_shape_holds hardware st depth : fresh_queue st depth ->
  holds (reset_shape hardware st depth) depth (fun _ => free_slot).
Proof.
  intros Hfq. unfold reset_shape. apply holds_seal_all, holds_set_claim.
  assert (H : exists f, holds st depth f).
  { exists (fun p => default free_slot (lease_at st p)). split; [done|]. intros p Hp.
    destruct (lease_at_live st 0 depth (fq_wf _ _ Hfq) p ltac:(lia)) as (l & -> & _). done. }
  destruct H as [f H].
  pose proof (holds_loop st depth f 0 depth (fun _ => free_slot) H ltac:(lia)
    ltac:(intros; apply free_slot_ok)) as Hl.
  eapply holds_ext; [exact Hl|]. intros p Hp. cbv beta.
  by rewrite (proj2 (Nat.ltb_lt p (0 + depth))) by lia.
Qed.

Section shape_bodies.
Context (st : store) (depth : nat) (Hd : (2 <= depth)%nat).
Context (Hst : holds st depth (fun _ => free_slot)).

Let Hmax : (depth <= 495 * QUEUE_SEG_SLOTS)%nat := fq_depth _ _ (proj1 Hst).

Lemma loop_held n : (n <= depth)%nat ->
  holds (for_loop n (fun p st => set_state st p STATE_CLAIMED FUTURE (Z.of_nat p + 1)) st) depth
    (fun p => if (p <? n)%nat then held_until_future p else free_slot).
Proof using Hd Hst Hmax.
  intros Hn. apply (holds_loop st depth (fun _ => free_slot) 0 n held_until_future Hst); [done|].
  intros p Hp. apply (lease_ok_held p depth); [lia|done].
Qed.

Lemma loop_finished :
  holds (for_loop (depth - 2) (fun p st => set_state st (S p) STATE_ACKED 0 (Z.of_nat (S p) + 1))
           (set_state st 0 STATE_CLAIMED FUTURE 1)) depth (shape_lease stuck depth).
Proof using Hd Hst Hmax.
  assert (H0 : holds (set_state st 0 STATE_CLAIMED FUTURE 1) depth
    (update (fun _ => free_slot) 0 (held_until_future 0))).
  { apply (holds_set_state _ _ _ 0 (held_until_future 0) Hst); [lia|].
    apply (lease_ok_held 0 depth); [lia|done]. }
  eapply holds_ext; [apply (holds_loop _ depth _ 1 (depth - 2) finished H0); [lia|]|].
  - intros p Hp. apply (lease_ok_held p depth); [lia|done].
  - intros p Hp. unfold update, shape_lease. cbv beta.
    destruct (1 <=? p)%nat eqn:E1, (p <? 1 + (depth - 2))%nat eqn:E2, (p =? 0)%nat eqn:E3,
      (p =? depth - 1)%nat eqn:E4; bool_to_prop; try done; lia.
Qed.

Lemma shape_body_holds name :
  holds (match name with
         | front => st
         | live => for_loop (depth - 1) (fun p st =>
             set_state st p STATE_CLAIMED FUTURE (Z.of_nat p + 1)) st
         | stuck => for_loop (depth - 2) (fun p st =>
             set_state st (S p) STATE_ACKED 0 (Z.of_nat (S p) + 1))
             (set_state st 0 STATE_CLAIMED FUTURE 1)
         | lapsed => set_state (for_loop (depth - 2) (fun p st =>
             set_state st (S p) STATE_ACKED 0 (Z.of_nat (S p) + 1))
             (set_state st 0 STATE_CLAIMED FUTURE 1)) (depth - 1) STATE_CLAIMED PAST 7
         | empty => for_loop depth (fun p st =>
             set_state st p STATE_CLAIMED FUTURE (Z.of_nat p + 1)) st
         end) depth (shape_lease name depth).
Proof using Hd Hst Hmax.
  destruct name; [exact Hst| |exact loop_finished| |].
  - eapply holds_ext; [apply loop_held; lia|]. intros p Hp. unfold shape_lease.
    destruct (p <? depth - 1)%nat eqn:E1, (p =? depth - 1)%nat eqn:E2; bool_to_prop; try done; lia.
  - eapply holds_ext.
    + apply (holds_set_state _ _ _ (depth - 1) (mk_lease STATE_CLAIMED PAST 7) loop_finished); [lia|].
      vm_compute. repeat split; congruence.
    + intros p Hp. unfold update, shape_lease.
      destruct (p =? 0)%nat eqn:E1, (p =? depth - 1)%nat eqn:E2; bool_to_prop; try done; lia.
  - eapply holds_ext; [by apply loop_held|]. intros p Hp. unfold shape_lease.
    by rewrite (proj2 (Nat.ltb_lt p depth)).
Qed.
End shape_bodies.

(** The cursor each shape leaves. *)
Definition shape_claim (name : scenario) (depth : nat) : nat :=
  match name with front => 0 | live | stuck => depth - 1 | lapsed | empty => depth end.

Lemma shape_alt hardware st name depth : (2 <= depth)%nat -> fresh_queue st depth ->
  exists st1, holds st1 depth (shape_lease name depth) /\
    shape hardware st name depth =
    seal_all (set_claim hardware st1 (Z.of_nat (shape_claim name depth))) depth.
Proof.
  intros Hd Hfq. pose proof (reset_shape_holds hardware st depth Hfq) as H0.
  eexists. split; [apply (shape_body_holds _ _ Hd H0 name)|]. unfold shape.
  assert (Hu : forall x, 0 <= x <= Z.of_nat depth -> u64 x = x).
  { intros x Hx. apply u64_small. pose proof (fq_depth _ _ Hfq). unfold QUEUE_SEG_SLOTS in *. lia. }
  destruct name; cbn [shape_claim]; rewrite Hu by lia; do 2 f_equal; lia.
Qed.

Lemma set_claim_cursor hardware st claim : page_ok (qpage st) -> 0 <= claim < 2 ^ 64 ->
  get64 (qpage (set_claim hardware st claim)) Q_CLAIM_OFF = claim.
Proof.
  intros [Hl Hb] Hc. unfold set_claim, db_catalog_seal. cbn [qpage].
  assert (Hq : (Q_CLAIM_OFF + 8 <= length (qpage st))%nat)
    by (rewrite Hl; unfold Q_CLAIM_OFF, PAGE_SIZE; lia).
  rewrite get64_put32_ne.
  - by apply get64_put64.
  - rewrite length_put64, Hl by done. unfold CAT_CRC, PAGE_SIZE. lia.
  - left. unfold Q_CLAIM_OFF, CAT_CRC. lia.
Qed.

Lemma seal_all_qpage st depth : qpage (seal_all st depth) = qpage st.
Proof.
  unfold seal_all. apply (for_loop_ind (fun _ st' => qpage st' = qpage st)); [done|].
  intros i st1 _ E. by destruct (seg_pages st1 !! _).
Qed.

(** What a claim finds, from what the slots hold. *)
Lemma first_claimable_ext view f now depth : (forall p, (p < depth)%nat -> view p = Some (f p)) ->
  first_claimable view now 0 depth = first_from (fun p => claimable now (f p)) 0 depth.
Proof.
  intros H. unfold first_claimable. rewrite Nat.sub_0_r. apply first_from_ext.
  intros p Hp. unfold claimable_at. by rewrite H by lia.
Qed.

Lemma shape_answer_ok name depth : (2 <= depth)%nat ->
  first_from (fun p => claimable NOW (shape_lease name depth p)) 0 depth = shape_answer name depth.
Proof.
  intros Hd. destruct name; cbn [shape_answer].
  1: by destruct depth; [lia|].
  4: by apply first_from_none_intro.
  all: apply first_from_intro; [lia| |intros k Hk]; unfold shape_lease.
  all: destruct (depth - 1 =? 0)%nat eqn:E0; bool_to_prop; [lia|]; try by rewrite Nat.eqb_refl.
  all: destruct (k =? depth - 1)%nat eqn:E1, (k =? 0)%nat eqn:E2; bool_to_prop; try done; lia.
Qed.

(** The shapes are the queues their comments describe.  On a fresh queue of
    at least two messages, whichever [crc32c] the engine picks, [shape] leaves
    every slot as [shape_lease] says; a claim at [NOW] would find the head in
    [front], the last message in [live], [stuck] and [lapsed], and nothing in
    [empty]; the cursor is one past the highest position ever handed out; and
    every segment page is sealed with the summary of its slots and the CRC of
    its bytes. *)
Theorem shape_as_described hardware st name depth :
  (2 <= depth)%nat -> fresh_queue st depth ->
  let st' := shape hardware st name depth in
  (forall p, (p < depth)%nat -> lease_at st' p = Some (shape_lease name depth p)) /\
  first_claimable (lease_at st') NOW 0 depth = shape_answer name depth /\
  (exists claim, get64 (qpage st') Q_CLAIM_OFF = Z.of_nat claim /\
     forall p, (p < depth)%nat -> handed_out (shape_lease name depth p) = (p <? claim)%nat) /\
  sealed_upto st' depth (shape_lease name depth) (segs_of depth) /\
  fresh_queue st' depth.
Proof.
  intros Hd Hfq st'. destruct (shape_alt hardware st name depth Hd Hfq) as (st1 & Hst1 & E).
  pose proof (holds_seal_all _ _ _ (holds_set_claim hardware _ _ _
    (Z.of_nat (shape_claim name depth)) Hst1)) as [[Hfq' Hf] Hs].
  subst st'. rewrite E. split_and!; [done| | |done..].
  - rewrite (first_claimable_ext _ (shape_lease name depth)) by done. by apply shape_answer_ok.
  - exists (shape_claim name depth). rewrite seal_all_qpage. split.
    + apply set_claim_cursor; [apply Hst1|]. pose proof (fq_depth _ _ Hfq).
      unfold QUEUE_SEG_SLOTS in *. destruct name; cbn [shape_claim]; lia.
    + intros p Hp. destruct name; unfold shape_lease, shape_claim;
        destruct (p =? 0)%nat eqn:E1, (p =? depth - 1)%nat eqn:E2; bool_to_prop;
        repeat match goal with |- context [(p <? ?c)%nat] =>
          destruct (p <? c)%nat eqn:?; bool_to_prop end; try done; lia.
Qed.

(** A fresh queue of 100 messages in two segments. *)
Definition fresh_100 : store :=
  mk_store (put64 (put64 (put64 blank_page Q_TAIL_OFF 100) Q_ENTRIES_OFF 7) (Q_ENTRIES_OFF + 8) 9)
           (<[7 := blank_page]> (<[9 := blank_page]> ∅)).

Lemma fresh_100_addr p : (p < 124)%nat ->
  fst (slot_addr fresh_100 p) = if (p / QUEUE_SEG_SLOTS =? 0)%nat then 7 else 9.
Proof.
  intros Hp. assert (H : (p / QUEUE_SEG_SLOTS = 0 \/ p / QUEUE_SEG_SLOTS = 1)%nat)
    by (unfold QUEUE_SEG_SLOTS; lia).
  unfold slot_addr. cbv zeta. cbn [fst].
  destruct H as [-> | ->]; vm_compute; reflexivity.
Qed.

Lemma fresh_100_ok : fresh_queue fresh_100 100.
Proof.
  split; [split|split| | | |unfold QUEUE_SEG_SLOTS; lia].
  - apply map_Forall_insert_2; [exact blank_page_ok|].
    apply map_Forall_insert_2; [exact blank_page_ok|apply map_Forall_empty].
  - intros p Hp. rewrite slot_at_alt, fmap_is_Some, fresh_100_addr by lia.
    case_if; eexists; reflexivity.
  - intros p q Hp Hq Hne. rewrite !fresh_100_addr by lia.
    unfold QUEUE_SEG_SLOTS in *. repeat case_if; lia.
  - vm_compute. reflexivity.
  - unfold fresh_100, put64. cbn [qpage]. repeat apply bytes_memcpy; auto with word.
    apply blank_page_ok.
  - vm_compute. reflexivity.
  - vm_compute. reflexivity.
  - vm_compute. reflexivity.
Qed.

Lemma shape_as_described_witness :
  first_claimable (lease_at (shape true fresh_100 lapsed 100)) NOW 0 100 = Some 99%nat.
Proof.
  destruct (shape_as_described true fresh_100 lapsed 100) as (_ & E & _).
  - lia.
  - exact fresh_100_ok.
  - exact E.
Defined.

(** ** The report *)

Lemma fits_depth depth : (0 < depth)%nat -> (depth <= 495 * QUEUE_SEG_SLOTS)%nat -> fits 0 depth.
Proof.
  intros H1 H2. split; [done|]. unfold last_seg, first_seg, QUEUE_SEG_SLOTS, TREE_LEAVES in *. lia.
Qed.

Lemma shape_lease_legal name depth p : (p < depth)%nat -> (depth <= 495 * QUEUE_SEG_SLOTS)%nat ->
  let l := shape_lease name depth p in
  0 <= l_until l < 2 ^ 64 /\ (l_state l = STATE_HELD -> l_until l = 0).
Proof.
  intros Hp Hd. cbv zeta. unfold shape_lease.
  destruct name; repeat case_if; cbn [free_slot held_until_future finished l_until l_state];
    (split; [unfold FUTURE, PAST, NOW; lia|try done]).
Qed.

(** The probe as the measured loops find it. *)
Lemma start_inv hardware st name depth m : (2 <= depth)%nat -> fresh_queue st depth ->
  (maint_nodes_max m <= 3)%nat -> (maint_slots_max m <= QUEUE_SEG_SLOTS)%nat ->
  let pr := start hardware st name depth m in
  fresh_queue (p_store pr) depth /\ probe_inv pr 0 depth.
Proof.
  intros Hd Hfq Hn Hs. destruct (shape_alt hardware st name depth Hd Hfq) as (st1 & Hst1 & E).
  pose proof (holds_seal_all _ _ _ (holds_set_claim hardware _ _ _
    (Z.of_nat (shape_claim name depth)) Hst1)) as [[Hfq' Hf] _].
  unfold start. cbv zeta. rewrite E. set (st' := seal_all _ _) in *.
  split; [done|]. split; cbn [p_store p_tree p_maint]; [apply Hfq'| | |done|done].
  - intros p Hp. rewrite Hf by lia. eexists. split; [done|].
    apply shape_lease_legal; [lia|apply Hfq].
  - by rewrite (fq_head _ _ Hfq'), (fq_tail _ _ Hfq').
Qed.

(** The operations never touch the queue page. *)
Lemma run_op_qpage pr o pos head tail : qpage (p_store (run_op pr o pos head tail)) = qpage (p_store pr).
Proof.
  destruct o; cbn [run_op]; unfold op_enqueue_like, op_claim, op_nack, op_ack; cbv zeta.
  all: repeat match goal with |- context [let '(_, _) := ?e in _] => destruct e end.
  all: apply set_state_qpage.
Qed.

Lemma measure_verb_qpage head tail n k s :
  qpage (p_store (fst (measure_verb head tail n k s))) = qpage (p_store (fst s)).
Proof.
  destruct s as [pr cs]. unfold measure_verb. cbv zeta. cbn [fst]. rewrite run_op_qpage. cbn [p_store].
  case_if; [apply (run_op_qpage pr OpClaim)|done].
Qed.

Lemma worker_cycle_qpage pr head tail :
  qpage (p_store (fst (fst (worker_cycle pr head tail)))) = qpage (p_store pr).
Proof.
  unfold worker_cycle.
  apply (for_loop_ind (fun _ s => qpage (p_store (fst (fst s))) = qpage (p_store pr))); [done|].
  intros i [[pr1 cs1] count1] _ E. cbn [fst] in E.
  assert (H : qpage (p_store (fst (for_loop 4 (measure_verb head tail (head + i)) (pr1, cs1))))
    = qpage (p_store pr)).
  { apply (for_loop_ind (fun _ s => qpage (p_store (fst s)) = qpage (p_store pr))); [done|].
    intros k s _ E'. by rewrite measure_verb_qpage. }
  by destruct (for_loop 4 _ _) as [pr2 cs2].
Qed.

Lemma fresh_same_qpage st st' depth : fresh_queue st depth -> qpage st' = qpage st ->
  store_wf st' 0 depth -> fresh_queue st' depth.
Proof.
  intros [] E Hwf. unfold q_head, q_tail in *. split; unfold q_head, q_tail; by rewrite ?E.
Qed.

(** What the probe reports of keeping the summary.  From a fresh queue, over
    the whole cycle (each message enqueued, claimed, handed back, claimed again
    and acknowledged) every line of the report is within its bound: enqueueing
    and handing back re-read no slot and no sibling leaf, claiming and
    acknowledging at most one segment's 62 slots and 8 sibling leaves, no verb
    writes more than 3 nodes, and the totals are within the bound times the
    messages.  Even where all claims share one deadline an acknowledgement
    re-reads at most its own segment. *)
Theorem maintenance_report_bounds hardware st depth m :
  (2 <= depth)%nat -> fresh_queue st depth ->
  (maint_nodes_max m <= 3)%nat -> (maint_slots_max m <= QUEUE_SEG_SLOTS)%nat ->
  let '(cs, count, (s_total, s_max, ops)) := maintenance_report hardware st depth m in
  count = depth /\ length cs = 4%nat /\ (forall k, (k < 4)%nat -> cost_ok k count (cs !!! k)) /\
  ops = (depth - 1)%nat /\ (s_max <= QUEUE_SEG_SLOTS)%nat /\ (s_total <= QUEUE_SEG_SLOTS * ops)%nat.
Proof.
  intros Hd Hfq Hn Hs. unfold maintenance_report. cbv zeta.
  pose proof (fits_depth depth ltac:(lia) (fq_depth _ _ Hfq)) as Hfit.
  destruct (start_inv hardware st front depth m Hd Hfq Hn Hs) as [Hfq1 Hinv1].
  set (pr1 := start _ _ _ _ _) in *. clearbody pr1. rewrite (fq_head _ _ Hfq1), (fq_tail _ _ Hfq1).
  pose proof (worker_cycle_costs pr1 0 depth Hfit Hinv1) as H1.
  pose proof (worker_cycle_qpage pr1 0 depth) as Hq.
  destruct (worker_cycle pr1 0 depth) as [[pr2 cs] count]. destruct H1 as (-> & H2 & H3 & H4).
  assert (Hfq2 : fresh_queue (p_store pr2) depth) 
    by (apply (fresh_same_qpage (p_store pr1)); [done|exact Hq|apply H4]).
  destruct (start_inv hardware (p_store pr2) live depth (p_maint pr2) Hd Hfq2) as [Hfq3 Hinv3];
    [apply H4..|]. set (pr3 := start _ _ _ _ _) in *. clearbody pr3.
  rewrite (fq_head _ _ Hfq3), (fq_tail _ _ Hfq3).
  pose proof (shared_deadline_costs pr3 0 depth Hfit Hinv3) as H5.
  destruct (shared_deadline pr3 0 depth) as [[[pr4 s_total] s_max] ops].
  destruct H5 as (-> & H6 & H7 & _). rewrite !Nat.sub_0_r in *. done.
Qed.

Lemma maintenance_report_bounds_witness :
  let '(cs, count, (s_total, s_max, ops)) :=
    maintenance_report true fresh_100 100 (mk_maint 0 0 0 0 0 0) in
  count = 100%nat /\ (forall k, (k < 4)%nat -> cost_ok k count (cs !!! k)) /\
  (s_max <= QUEUE_SEG_SLOTS)%nat.
Proof.
  pose proof (maintenance_report_bounds true fresh_100 100 (mk_maint 0 0 0 0 0 0)) as H.
  destruct (maintenance_report _ _ _ _) as [[cs count] [[s_total s_max] ops]].
  destruct H as (H1 & _ & H3 & _ & H5 & _).
  - lia.
  - exact fresh_100_ok.
  - simpl. lia.
  - simpl. lia.
  - split; [exact H1|]. split; [exact H3|exact H5].
Defined.
