(* ===== verification/Harness.v ===== *)
(** * Harness: the result consumers of the three benchmark harnesses

    [benchmarks/c_api_harness.c] (64-row batches with a selection mask),
    [benchmarks/sqlite_harness.c] (row by row) and
    [benchmarks/duckdb_harness.c] (chunks of typed vectors): how each folds its
    result set into a row count and a checksum, and the measured loops around
    them.  The engines are outside: what they hand over (batches, rows, chunks)
    is an argument. *)

From Stdlib Require Import Permutation String.
From S2P Require Import Prelude.

(** ** The tagged FNV-1a fold *)

Definition FNV_OFFSET_BASIS : Z := 14695981039346656037.
Definition FNV_PRIME : Z := 1099511628211.
Definition TAG_NULL : Z := 0xBF.
Definition TAG_VALUE : Z := 0x5A.

(** [h ^= x; h *= FNV_PRIME]. *)
Definition fnv (h x : Z) : Z := u64 ((h .^ x) * FNV_PRIME).

(** ** [c_api_harness.c] *)

(** A borrowed column: [values_ptr], [null_mask] and [width]. *)
Record colview := mk_colview { values : list Z; null_mask : Z; width : Z }.

(** [((const T * )values_ptr)[row]] at the width of the column. *)
Definition load (p : list Z) (w row : nat) : Z := le_val (take w (drop (row * w) p)).

Definition col_value (v : colview) (row : nat) : Z :=
  if width v =? 8 then load (values v) 8 row
  else if width v =? 1 then load (values v) 1 row
  else load (values v) 4 row.

(** The fields of [record[]] the consumer writes: [record[3]], [record[4]] and
    [record[5]]. *)
Record bench := mk_bench { batches : Z; selected : Z; checksum : Z }.

(** [__builtin_ctzll], for a mask that is not zero. *)
Definition ctz (mask : Z) : nat :=
  match first_from (fun i => Z.testbit mask (Z.of_nat i)) 0 64 with Some i => i | None => 64 end.

(** One column of one row. *)
Definition consume_cell (row : nat) (hash : Z) (v : colview) : Z :=
  if (null_mask v .>> Z.of_nat row) .& 1 =? 0
  then fnv (fnv hash TAG_VALUE) (col_value v row)
  else fnv hash TAG_NULL.

(** [while (mask) { row = ctz(mask); mask &= mask - 1; ... }]: a 64-bit mask
    runs out in 64 iterations. *)
Definition consume_rows (cols : list colview) (mask sel hash : Z) : Z * Z * Z :=
  while_loop 64 (fun '(mask, _, _) => negb (mask =? 0))
    (fun '(mask, sel, hash) =>
       let row := ctz mask in
       let mask := mask .& (mask - 1) in
       (mask, u64 (sel + 1), fold_left (consume_cell row) cols hash)) (mask, sel, hash).

Definition consume (materialize : bool) (cols : list colview) (mask : Z) (c : bench) : bench :=
  let hash := checksum c in
  let nb := u64 (batches c + 1) in
  if negb materialize then
    let count := match cols with v :: _ => load (values v) 8 0 | [] => 0 end in
    mk_bench nb (u64 (selected c + count)) (fnv hash count)
  else
    let '(_, sel, hash) := consume_rows cols mask (selected c) hash in
    mk_bench nb sel hash.

#[global] Instance colview_inhabited : Inhabited colview := populate (mk_colview [] 0 0).

(** [callback]: the internal engine pushes its physical columns and the
    projection that picks them; the indices are those of slots the batch has. *)
Definition callback (materialize : bool) (c : bench) (batch : list colview) (projection : list nat)
    (mask : Z) : bench :=
  consume materialize (map (fun i => batch !!! i) projection) mask c.

(** What the engine answers an execution with: [cyboudb_reset]'s code, the
    batches [cyboudb_step_batch] gives in turn, and its final code. *)
Record cursor (B : Type) := mk_cursor { reset_rc : Z; rows_of : list (B * Z); last_rc : Z }.
Arguments mk_cursor {B}. Arguments reset_rc {B}. Arguments rows_of {B}. Arguments last_rc {B}.

Section public.
Context {B : Type} (batch_column : B -> nat -> option colview).

Fixpoint public_loop (materialize : bool) (n : nat) (bs : list (B * Z)) (rc : Z) (c : bench)
    : Z * bench :=
  match bs with
  | [] => (if rc =? CybouDB_DONE then 0 else rc, c)
  | (batch, mask) :: bs' =>
      match mapM (batch_column batch) (seq 0 n) with
      | None => (CybouDB_ERROR, c)
      | Some cols => public_loop materialize n bs' rc (consume materialize cols mask c)
      end
  end.

(** The code [public_once] returns, and the consumer. *)
Definition public_once (materialize : bool) (n : nat) (cur : cursor B) (c : bench) : Z * bench :=
  if negb (reset_rc cur =? 0) then (reset_rc cur, c)
  else public_loop materialize n (rows_of cur) (last_rc cur) c.
End public.

(** The internal backend: [sql_execute_batch] calls [callback] for each batch
    it produces, then returns its code. *)
Definition internal_once (materialize : bool) (projection : list nat) (bs : list (list colview * Z))
    (rc : Z) (c : bench) : Z * bench :=
  (rc, fold_left (fun c '(batch, mask) => callback materialize c batch projection mask) bs c).

(** The loop of [main]: the record starts afresh after the warm-up, and an
    error ends it. [once i] is one execution. *)
Fixpoint c_api_loop (once : nat -> bench -> Z * bench) (warmup n i : nat) (c : bench) : Z * bench :=
  match n with
  | O => (0, c)
  | S n' =>
      let c := if (i =? warmup)%nat then mk_bench 0 0 FNV_OFFSET_BASIS else c in
      let '(rc, c) := once i c in
      if negb (rc =? 0) then (rc, c) else c_api_loop once warmup n' (S i) c
  end.

Definition c_api_main (once : nat -> bench -> Z * bench) (warmup iterations : nat) : Z * bench :=
  c_api_loop once warmup (warmup + iterations) 0 (mk_bench 0 0 0).

(** ** [sqlite_harness.c] *)

(** A cell as SQLite's accessors give it: [column_type], [column_int64] (its 64
    bits) and [column_double] (its 64 bits). *)
Record sqlite_cell := mk_sqlite_cell { s_type : Z; s_int64 : Z; s_double : Z }.

Definition SQLITE_NULL : Z := 5.

(** [col_kinds[c]] from the column's name. *)
Definition sqlite_kind (name : option string) : Z :=
  match name with
  | None => 8
  | Some n =>
      if (n =? "active")%string then 1
      else if ((n =? "category") || (n =? "score") || (n =? "tag"))%string then 4
      else if (n =? "weight")%string then 2
      else 8
  end.

Section floats.
(** [(float)d] followed by [memcpy] to a [uint32_t]: the bits of a float from
    the bits of a double. *)
Context (to_float : Z -> Z).

Definition sqlite_value (kind : Z) (s : sqlite_cell) : Z :=
  if kind =? 2 then to_float (s_double s)
  else if kind =? 1 then u8 (s_int64 s)
  else if kind =? 4 then u32 (s_int64 s)
  else s_int64 s.

Definition sqlite_step (hash : Z) (kc : Z * sqlite_cell) : Z :=
  let '(kind, s) := kc in
  if s_type s =? SQLITE_NULL then fnv hash TAG_NULL
  else fnv (fnv hash TAG_VALUE) (sqlite_value kind s).

(** One execution in materialize mode: [total_selected] and [checksum]. *)
Definition sqlite_rows (kinds : list Z) (rows : list (list sqlite_cell)) (st : Z * Z) : Z * Z :=
  fold_left (fun '(total, hash) row =>
    (u64 (total + 1), fold_left sqlite_step (zip kinds row) hash)) rows st.

(** The measured region, by mode. *)
Definition sqlite_measure (mode : Z) (kinds : list Z) (rows : nat -> list (list sqlite_cell))
    (iterations : nat) : Z * Z :=
  let start := (0, FNV_OFFSET_BASIS) in
  if mode =? 0 then
    for_loop iterations (fun i st => fold_left (fun '(t, h) _ => (u64 (t + 1), h)) (rows i) st) start
  else if mode =? 2 then
    for_loop iterations (fun i st => fold_left (fun '(t, h) row =>
      (u64 (t + match row with s :: _ => s_int64 s | [] => 0 end), h)) (rows i) st) start
  else for_loop iterations (fun i st => sqlite_rows kinds (rows i) st) start.

(** ** [duckdb_harness.c] *)

Record vector := mk_vector { data : list Z; validity : option (list Z) }.
Record chunk := mk_chunk { chunk_size : nat; vectors : list vector }.

Definition DUCKDB_TYPE_BOOLEAN : Z := 1.
Definition DUCKDB_TYPE_INTEGER : Z := 4.
Definition DUCKDB_TYPE_FLOAT : Z := 10.
Definition DUCKDB_TYPE_DOUBLE : Z := 11.

Definition row_is_valid (validity : option (list Z)) (row : nat) : bool :=
  match validity with
  | None => true
  | Some ws => negb ((ws !!! (row / 64)%nat) .& (1 .<< Z.of_nat (row mod 64)) =? 0)
  end.

Definition duckdb_value (type : Z) (v : vector) (r : nat) : Z :=
  if type =? DUCKDB_TYPE_BOOLEAN then load (data v) 1 r
  else if type =? DUCKDB_TYPE_INTEGER then load (data v) 4 r
  else if type =? DUCKDB_TYPE_FLOAT then load (data v) 4 r
  else if type =? DUCKDB_TYPE_DOUBLE then to_float (load (data v) 8 r)
  else load (data v) 8 r.

(** One cell, folded into [*checksum] and into [row_hash]. *)
Definition duckdb_cell (r : nat) (st : Z * Z) (tv : Z * vector) : Z * Z :=
  let '(sum, row_hash) := st in
  let '(type, v) := tv in
  if negb (row_is_valid (validity v) r) then (fnv sum TAG_NULL, fnv row_hash TAG_NULL)
  else
    let val := duckdb_value type v r in
    (fnv (fnv sum TAG_VALUE) val, fnv (fnv row_hash TAG_VALUE) val).

(** [*selected], [*checksum] and [*unordered]. *)
Definition duckdb_chunk (mode : Z) (types : list Z) (st : Z * Z * Z) (ch : chunk) : Z * Z * Z :=
  let '(sel, sum, un) := st in
  if mode =? 0 then (u64 (sel + Z.of_nat (chunk_size ch)), sum, un)
  else if mode =? 2 then
    let v := match vectors ch with v :: _ => v | [] => mk_vector [] None end in
    (for_loop (chunk_size ch) (fun r sel => u64 (sel + load (data v) 8 r)) sel, sum, un)
  else
    let '(sum, un) := for_loop (chunk_size ch) (fun r '(sum, un) =>
      let '(sum, row_hash) := fold_left (duckdb_cell r) (zip types (vectors ch))
                                (sum, FNV_OFFSET_BASIS) in
      (sum, u64 (un + row_hash))) (sum, un) in
    (u64 (sel + Z.of_nat (chunk_size ch)), sum, un).

Definition consume_result (mode : Z) (types : list Z) (chunks : list chunk) (st : Z * Z * Z)
    : Z * Z * Z :=
  fold_left (duckdb_chunk mode types) chunks st.

(** The measured loop: [None] where [execute_streaming] fails, which ends it
    with [failed]. *)
Fixpoint duckdb_measure (mode : Z) (types : list Z) (exec : nat -> option (list chunk))
    (n i : nat) (st : Z * Z * Z) : bool * (Z * Z * Z) :=
  match n with
  | O => (false, st)
  | S n' =>
      match exec i with
      | None => (true, st)
      | Some chunks => duckdb_measure mode types exec n' (S i) (consume_result mode types chunks st)
      end
  end.
End floats.

(** ** The common meaning: a result set is rows of cells, [None] for NULL *)

Definition fold_cell (hash : Z) (cell : option Z) : Z :=
  match cell with
  | None => fnv hash TAG_NULL
  | Some v => fnv (fnv hash TAG_VALUE) v
  end.

Definition fold_row (hash : Z) (row : list (option Z)) : Z := fold_left fold_cell row hash.
Definition fold_rows (hash : Z) (rows : list (list (option Z))) : Z := fold_left fold_row rows hash.

(** The rows a batch selects. *)
Definition active (mask : Z) : list nat :=
  List.filter (fun i => Z.testbit mask (Z.of_nat i)) (seq 0 64).

Definition batch_cell (row : nat) (v : colview) : option Z :=
  if (null_mask v .>> Z.of_nat row) .& 1 =? 0 then Some (col_value v row) else None.

Definition batch_rows (bm : list colview * Z) : list (list (option Z)) :=
  let '(cols, mask) := bm in map (fun row => map (batch_cell row) cols) (active mask).

Definition sqlite_cells (to_float : Z -> Z) (kinds : list Z) (row : list sqlite_cell) : list (option Z) :=
  map (fun '(kind, s) => if s_type s =? SQLITE_NULL then None else Some (sqlite_value to_float kind s))
      (zip kinds row).

Definition chunk_rows (to_float : Z -> Z) (types : list Z) (ch : chunk) : list (list (option Z)) :=
  map (fun r => map (fun '(type, v) =>
         if row_is_valid (validity v) r then Some (duckdb_value to_float type v r) else None)
       (zip types (vectors ch))) (seq 0 (chunk_size ch)).

(** ** Selection masks *)

(** [mask & (mask - 1)] clears the lowest set bit and nothing else. *)
Lemma clear_lowest m k : 0 <= k -> 0 <= m -> Z.testbit m k = true ->
  (forall i, 0 <= i < k -> Z.testbit m i = false) ->
  forall i, 0 <= i -> Z.testbit (m .& (m - 1)) i = Z.testbit m i && negb (i =? k).
Proof.
  intros Hk Hm Hbit Hlow i Hi.
  assert (Hmod : m mod 2 ^ k = 0).
  { apply Z.bits_inj'. intros j Hj. rewrite Z.bits_0. destruct (Z.lt_ge_cases j k).
    - rewrite Z.mod_pow2_bits_low by lia. apply Hlow. lia.
    - apply Z.mod_pow2_bits_high. lia. }
  set (q := m / 2 ^ (k + 1)).
  assert (Em : m = 2 ^ k + q * 2 ^ (k + 1)).
  { pose proof (Z.testbit_spec' m k Hk) as Hs. rewrite Hbit in Hs. simpl Z.b2z in Hs.
    pose proof (Z.div_mod m (2 ^ k) ltac:(apply Z.pow_nonzero; lia)) as Hd.
    unfold q. rewrite Z.pow_add_r, Z.pow_1_r, <- Z.div_div by (try apply Z.pow_pos_nonneg; lia).
    set (x := m / 2 ^ k) in *. assert (x = 2 * (x / 2) + 1) by lia. nia. }
  assert (Hpow : 2 ^ (k + 1) = 2 * 2 ^ k) by (rewrite Z.pow_add_r by lia; lia).
  assert (0 < 2 ^ k) by (apply Z.pow_pos_nonneg; lia).
  replace (m - 1) with ((2 ^ k - 1) + q * 2 ^ (k + 1)) by lia.
  rewrite land_split by lia. rewrite land_mask, Hmod by lia. fold q.
  rewrite Z.land_diag, Z.add_0_l, Z.mul_pow2_bits by lia.
  destruct (Z.lt_trichotomy i k) as [H1|[->|H1]].
  - rewrite (Z.testbit_neg_r q) by lia. rewrite Hlow by lia. done.
  - rewrite (Z.testbit_neg_r q) by lia. by rewrite Z.eqb_refl, andb_false_r.
  - rewrite (proj2 (Z.eqb_neq i k)) by lia. rewrite andb_true_r. unfold q.
    rewrite Z.div_pow2_bits by lia. f_equal. lia.
Qed.

(** The bits from [j] on. *)
Definition active_from (mask : Z) (j : nat) : list nat :=
  List.filter (fun i => Z.testbit mask (Z.of_nat i)) (seq j (64 - j)).

Lemma active_from_app mask j k : (j <= k <= 64)%nat ->
  active_from mask j = List.filter (fun i => Z.testbit mask (Z.of_nat i)) (seq j (k - j)) ++ active_from mask k.
Proof.
  intros Hk. unfold active_from. rewrite <- List.filter_app.
  replace (seq k (64 - k)) with (seq (j + (k - j)) (64 - k)) by (f_equal; lia).
  rewrite <- seq_app. do 2 f_equal. lia.
Qed.

Lemma filter_none {A} (p : A -> bool) l : (forall x, In x l -> p x = false) -> List.filter p l = [].
Proof.
  induction l as [|x l IH]; intros H; [done|]. simpl. rewrite H by (by left).
  apply IH. intros y Hy. apply H. by right.
Qed.

(** A mask's next row is its lowest bit. *)
Lemma ctz_spec mask j : 0 < mask < 2 ^ 64 ->
  (forall i, (i < j)%nat -> Z.testbit mask (Z.of_nat i) = false) ->
  let k := ctz mask in
  (j <= k < 64)%nat /\ Z.testbit mask (Z.of_nat k) = true /\
  (forall i, (i < k)%nat -> Z.testbit mask (Z.of_nat i) = false).
Proof.
  intros Hm Hlow. unfold ctz. destruct (first_from _ 0 64) as [k|] eqn:E.
  - apply first_from_Some in E as (Hk & Hb & Hl). cbv zeta. split_and!; [|lia|done|].
    + destruct (decide (j <= k)%nat); [done|]. rewrite Hlow in Hb by lia. done.
    + intros i Hi. apply Hl. lia.
  - exfalso. pose proof (first_from_None _ _ _ E) as H. cbv beta in H.
    assert (mask = 0); [|lia]. apply Z.bits_inj'. intros i Hi. rewrite Z.bits_0.
    destruct (Z.lt_ge_cases i 64).
    + rewrite <- (Z2Nat.id i) by lia. apply H. lia.
    + apply (testbit_above mask 64); lia.
Qed.

Lemma active_from_none mask j : (forall i, (j <= i < 64)%nat -> Z.testbit mask (Z.of_nat i) = false) ->
  active_from mask j = [].
Proof.
  intros H. apply filter_none. intros x Hx. apply in_seq in Hx. apply H. lia.
Qed.

(** Taking the lowest bit off. *)
Lemma active_from_cons mask j : 0 < mask < 2 ^ 64 -> (j <= 64)%nat ->
  (forall i, (i < j)%nat -> Z.testbit mask (Z.of_nat i) = false) ->
  let k := ctz mask in let mask' := mask .& (mask - 1) in
  active_from mask j = k :: active_from mask' (S k) /\ 0 <= mask' < 2 ^ 64 /\ (j <= k < 64)%nat /\
  (forall i, (i < S k)%nat -> Z.testbit mask' (Z.of_nat i) = false).
Proof.
  intros Hm Hj Hlow. cbv zeta. destruct (ctz_spec mask j Hm Hlow) as (Hk & Hb & Hl).
  set (k := ctz mask) in *. clearbody k.
  pose proof (clear_lowest mask (Z.of_nat k) ltac:(lia) ltac:(lia) Hb) as Hclear.
  assert (Hlow' : forall i, 0 <= i < Z.of_nat k -> Z.testbit mask i = false).
  { intros i Hi. rewrite <- (Z2Nat.id i) by lia. apply Hl. lia. }
  specialize (Hclear Hlow').
  pose proof (land_range mask (mask - 1) 64 ltac:(lia) ltac:(lia)) as Hr.
  split_and!; [|tauto|tauto|lia|lia|].
  - rewrite (active_from_app mask j k) by lia. rewrite filter_none.
    2: { intros x Hx. apply in_seq in Hx. apply Hl. lia. }
    rewrite app_nil_l, (active_from_app mask k (S k)) by lia.
    replace (S k - k)%nat with 1%nat by lia. cbn [seq List.filter]. rewrite Hb. cbn [app]. f_equal.
    unfold active_from. apply filter_ext_in. intros x Hx. apply in_seq in Hx.
    rewrite Hclear by lia. rewrite (proj2 (Z.eqb_neq _ _)) by lia. by rewrite andb_true_r.
  - intros i Hi. rewrite Hclear by lia. destruct (decide (i = k)) as [->|].
    + by rewrite Z.eqb_refl, andb_false_r.
    + by rewrite Hl by lia.
Qed.

Lemma u64_add_l a b : u64 (u64 a + b) = u64 (a + b).
Proof. unfold u64. apply Zplus_mod_idemp_l. Qed.

Lemma consume_loop fuel cols mask sel hash j : 0 <= mask < 2 ^ 64 -> (j <= 64)%nat ->
  (forall i, (i < j)%nat -> Z.testbit mask (Z.of_nat i) = false) -> (64 - j <= fuel)%nat ->
  0 <= sel < 2 ^ 64 ->
  while_loop fuel (fun '(mask, _, _) => negb (mask =? 0))
    (fun '(mask, sel, hash) => (mask .& (mask - 1), u64 (sel + 1),
       fold_left (consume_cell (ctz mask)) cols hash)) (mask, sel, hash)
  = (0, u64 (sel + Z.of_nat (length (active_from mask j))),
     fold_left (fun h row => fold_left (consume_cell row) cols h) (active_from mask j) hash).
Proof.
  revert mask sel hash j. induction fuel as [|fuel IH]; intros mask sel hash j Hm Hj Hlow Hf Hs.
  all: destruct (decide (mask = 0)) as [->|Hne].
  1, 3: cbn [while_loop]; rewrite ?Z.eqb_refl; cbn [negb];
    rewrite active_from_none by (intros; apply Z.testbit_0_l); simpl length; simpl fold_left;
    rewrite Z.add_0_r, u64_small by done; done.
  - exfalso. destruct (ctz_spec mask j ltac:(lia) Hlow) as [Hk _]. lia.
  - cbn [while_loop]. rewrite (proj2 (Z.eqb_neq mask 0)) by done. cbn [negb].
    destruct (active_from_cons mask j ltac:(lia) Hj Hlow) as (-> & Hm' & Hk & Hlow').
    rewrite (IH _ _ _ (S (ctz mask)) Hm' ltac:(lia) Hlow' ltac:(lia) ltac:(apply u64_range)).
    cbn [length fold_left]. f_equal. f_equal. rewrite u64_add_l. f_equal. lia.
Qed.

Lemma fold_left_map {A B C} (f : A -> B -> A) (g : C -> B) l a :
  fold_left f (map g l) a = fold_left (fun a x => f a (g x)) l a.
Proof. revert a. induction l; intros; simpl; auto. Qed.

Lemma fold_left_eq {A B} (f g : A -> B -> A) l a : (forall a x, f a x = g a x) ->
  fold_left f l a = fold_left g l a.
Proof. intros H. revert a. induction l; intros; simpl; [done|]. rewrite H. auto. Qed.

Lemma consume_cell_fold row cols hash :
  fold_left (consume_cell row) cols hash = fold_row hash (map (batch_cell row) cols).
Proof.
  unfold fold_row. rewrite fold_left_map. apply fold_left_eq. intros h v.
  unfold consume_cell, batch_cell. by case_if.
Qed.

Lemma active_0 mask : active mask = active_from mask 0.
Proof. unfold active, active_from. rewrite Nat.sub_0_r. reflexivity. Qed.

(** What one batch adds. *)
Lemma consume_rows_spec cols mask sel hash : 0 <= mask < 2 ^ 64 -> 0 <= sel < 2 ^ 64 ->
  consume_rows cols mask sel hash
  = (0, u64 (sel + Z.of_nat (length (batch_rows (cols, mask)))), fold_rows hash (batch_rows (cols, mask))).
Proof.
  intros Hm Hs. unfold batch_rows, fold_rows. rewrite length_map, fold_left_map, active_0.
  pose proof (consume_loop 64 cols mask sel hash 0 Hm ltac:(lia) ltac:(lia) ltac:(lia) Hs) as E.
  unfold consume_rows. cbv zeta. rewrite E. f_equal.
  apply fold_left_eq. intros. apply consume_cell_fold.
Qed.

(** From here on the rows of a batch are reasoned about, never computed. *)
#[local] Opaque active consume_rows.

(** ** What one execution delivers *)

Definition bench_ok (c : bench) : Prop := 0 <= selected c < 2 ^ 64.

(** [c'] is [c] with the rows counted and folded. *)
Definition delivered (c : bench) (rows : list (list (option Z))) (c' : bench) : Prop :=
  selected c' = u64 (selected c + Z.of_nat (length rows)) /\ checksum c' = fold_rows (checksum c) rows.

Lemma delivered_ok c rows c' : delivered c rows c' -> bench_ok c'.
Proof. intros [E _]. unfold bench_ok. rewrite E. apply u64_range. Qed.

Lemma fold_rows_app h r1 r2 : fold_rows h (r1 ++ r2) = fold_rows (fold_rows h r1) r2.
Proof. apply fold_left_app. Qed.

Lemma delivered_app c r1 c1 r2 c2 : delivered c r1 c1 -> delivered c1 r2 c2 -> delivered c (r1 ++ r2) c2.
Proof.
  intros [E1 E2] [E3 E4]. split.
  - rewrite E3, E1, u64_add_l, length_app. f_equal. lia.
  - by rewrite E4, E2, fold_rows_app.
Qed.

Lemma delivered_nil c : bench_ok c -> delivered c [] c.
Proof. intros H. split; [|done]. simpl. by rewrite Z.add_0_r, u64_small. Qed.

Definition masks_ok {B} (bs : list (B * Z)) : Prop := Forall (fun bm => 0 <= snd bm < 2 ^ 64) bs.

Lemma consume_delivered cols mask c : 0 <= mask < 2 ^ 64 -> bench_ok c ->
  delivered c (batch_rows (cols, mask)) (consume true cols mask c).
Proof.
  intros Hm Hc. unfold consume. cbn [negb]. rewrite consume_rows_spec by done. done.
Qed.

(** The rows an execution of a cursor gives, through the columns it resolves. *)
Fixpoint public_rows {B} (batch_column : B -> nat -> option colview) (n : nat) (bs : list (B * Z))
    : option (list (list (option Z))) :=
  match bs with
  | [] => Some []
  | (b, m) :: bs' =>
      match mapM (batch_column b) (seq 0 n), public_rows batch_column n bs' with
      | Some cols, Some rs => Some (batch_rows (cols, m) ++ rs)
      | _, _ => None
      end
  end.

Lemma public_loop_delivered {B} (batch_column : B -> nat -> option colview) n bs rows c :
  masks_ok bs -> bench_ok c -> public_rows batch_column n bs = Some rows ->
  let '(rc, c') := public_loop batch_column true n bs CybouDB_DONE c in
  rc = 0 /\ delivered c rows c'.
Proof.
  revert rows c. induction bs as [|[b m] bs IH]; intros rows c Hm Hc; cbn [public_rows public_loop].
  { intros E. apply (inj Some) in E as <-. split; [done|by apply delivered_nil]. }
  apply list.Forall_cons in Hm as [Hm0 Hm]. cbn [snd] in Hm0.
  destruct (mapM (batch_column b) (seq 0 n)) as [cols|]; [|done].
  destruct (public_rows batch_column n bs) as [rs|]; [|done].
  intros E. apply (inj Some) in E as <-.
  pose proof (consume_delivered cols m c Hm0 Hc) as Hd.
  specialize (IH rs (consume true cols m c) Hm (delivered_ok _ _ _ Hd) eq_refl).
  destruct (public_loop _ _ _ _ _ _) as [rc c']. destruct IH as [-> IH]. split; [done|].
  by eapply delivered_app.
Qed.

Definition internal_rows (projection : list nat) (bs : list (list colview * Z)) : list (list (option Z)) :=
  flat_map (fun '(batch, m) => batch_rows (map (fun i => batch !!! i) projection, m)) bs.

Lemma fold_delivered {X} (step : bench -> X -> bench) (rows : X -> list (list (option Z)))
    (P : X -> Prop) xs c :
  (forall c x, P x -> bench_ok c -> delivered c (rows x) (step c x)) ->
  Forall P xs -> bench_ok c -> delivered c (flat_map rows xs) (fold_left step xs c).
Proof.
  intros Hstep Hxs. revert c. induction Hxs as [|x xs Hx Hxs IH]; intros c Hc.
  - by apply delivered_nil.
  - simpl. eapply delivered_app; [by apply Hstep|]. apply IH. by eapply delivered_ok, Hstep.
Qed.

Lemma callback_delivered projection batch m c : 0 <= m < 2 ^ 64 -> bench_ok c ->
  delivered c (batch_rows (map (fun i => batch !!! i) projection, m)) (callback true c batch projection m).
Proof. intros. unfold callback. by apply consume_delivered. Qed.

Lemma internal_once_delivered projection bs c : masks_ok bs -> bench_ok c ->
  delivered c (internal_rows projection bs) (snd (internal_once true projection bs 0 c)).
Proof.
  intros Hm Hc. unfold internal_once, internal_rows. cbn [snd].
  apply (fold_delivered _ _ (fun bm => 0 <= snd bm < 2 ^ 64)); [|done|done].
  intros c' [b m] Hm' Hc'. by apply callback_delivered.
Qed.

(** ** The measured loops *)

(** The result set, [n] times over. *)
Definition times (n : nat) (rows : list (list (option Z))) : list (list (option Z)) :=
  concat (replicate n rows).

Lemma times_S n rows : times (S n) rows = times n rows ++ rows.
Proof. unfold times. rewrite replicate_S_end, concat_app. simpl. by rewrite app_nil_r. Qed.

Lemma times_S_l n rows : times (S n) rows = rows ++ times n rows.
Proof. done. Qed.

Section c_api.
Context (once : nat -> bench -> Z * bench) (rows : list (list (option Z))) (warmup : nat).
Context (Honce : forall i c, bench_ok c -> let '(rc, c') := once i c in rc = 0 /\ delivered c rows c').

Lemma c_api_measured n i c : (warmup < i)%nat -> bench_ok c ->
  let '(rc, c') := c_api_loop once warmup n i c in rc = 0 /\ delivered c (times n rows) c'.
Proof using Honce.
  revert i c. induction n as [|n IH]; intros i c Hi Hc; simpl.
  { split; [done|by apply delivered_nil]. }
  rewrite (proj2 (Nat.eqb_neq i warmup)) by lia. pose proof (Honce i c Hc) as H.
  destruct (once i c) as [rc c1]. destruct H as [-> H]. simpl.
  specialize (IH (S i) c1 ltac:(lia) (delivered_ok _ _ _ H)).
  destruct (c_api_loop once warmup n (S i) c1) as [rc c']. destruct IH as [-> IH]. split; [done|].
  rewrite times_S_l. by eapply delivered_app.
Qed.

Lemma c_api_warming iterations k i c : (i + k = warmup)%nat -> (0 < iterations)%nat -> bench_ok c ->
  let '(rc, c') := c_api_loop once warmup (k + iterations) i c in
  rc = 0 /\ delivered (mk_bench 0 0 FNV_OFFSET_BASIS) (times iterations rows) c'.
Proof using Honce.
  intros Hi Hit. revert i c Hi. induction k as [|k IH]; intros i c Hi Hc.
  - destruct iterations as [|n]; [lia|]. simpl. rewrite (proj2 (Nat.eqb_eq i warmup)) by lia.
    set (c0 := mk_bench 0 0 FNV_OFFSET_BASIS). assert (Hc0 : bench_ok c0) by (red; simpl; lia).
    pose proof (Honce i c0 Hc0) as H. destruct (once i c0) as [rc c1]. destruct H as [-> H]. simpl.
    pose proof (c_api_measured n (S i) c1 ltac:(lia) (delivered_ok _ _ _ H)) as H'.
    destruct (c_api_loop once warmup n (S i) c1) as [rc c']. destruct H' as [-> H']. split; [done|].
    rewrite times_S_l. by eapply delivered_app.
  - simpl. rewrite (proj2 (Nat.eqb_neq i warmup)) by lia. pose proof (Honce i c Hc) as H.
    destruct (once i c) as [rc c1]. destruct H as [-> H]. simpl.
    apply IH; [lia|by eapply delivered_ok].
Qed.

Lemma c_api_main_delivered iterations : (0 < iterations)%nat ->
  let '(rc, c') := c_api_main once warmup iterations in
  rc = 0 /\ delivered (mk_bench 0 0 FNV_OFFSET_BASIS) (times iterations rows) c'.
Proof using Honce. intros. apply c_api_warming; [lia|done|red; simpl; lia]. Qed.
End c_api.

Section row_engines.
Context (to_float : Z -> Z).

Lemma sqlite_rows_spec kinds rows t h : 0 <= t < 2 ^ 64 ->
  sqlite_rows to_float kinds rows (t, h)
  = (u64 (t + Z.of_nat (length rows)), fold_rows h (map (sqlite_cells to_float kinds) rows)).
Proof.
  revert t h. induction rows as [|row rows IH]; intros t h Ht.
  { simpl. by rewrite Z.add_0_r, u64_small. }
  change (sqlite_rows to_float kinds (row :: rows) (t, h)) with (sqlite_rows to_float kinds rows
    (u64 (t + 1), fold_left (sqlite_step to_float) (zip kinds row) h)).
  rewrite IH by apply u64_range. cbn [length map]. f_equal.
  - rewrite u64_add_l. f_equal. lia.
  - unfold fold_rows. cbn [fold_left]. f_equal. unfold fold_row, sqlite_cells. rewrite fold_left_map. apply fold_left_eq.
    intros a [kind s]. simpl. by case_if.
Qed.

Lemma sqlite_measured kinds srows rows iterations :
  (forall i, map (sqlite_cells to_float kinds) (srows i) = rows) ->
  sqlite_measure to_float 1 kinds srows iterations
  = (u64 (Z.of_nat (length (times iterations rows))), fold_rows FNV_OFFSET_BASIS (times iterations rows)).
Proof.
  intros Hrows. change (sqlite_measure to_float 1 kinds srows iterations) with
    (for_loop iterations (fun i st => sqlite_rows to_float kinds (srows i) st) (0, FNV_OFFSET_BASIS)).
  induction iterations as [|n IH]; [done|]. rewrite for_loop_S, IH, sqlite_rows_spec by apply u64_range.
  rewrite Hrows, times_S, fold_rows_app, length_app, u64_add_l. do 2 f_equal.
  rewrite <- (Hrows n), length_map. lia.
Qed.

(** The order-independent accumulator, before reduction. *)
Definition row_hash (row : list (option Z)) : Z := fold_row FNV_OFFSET_BASIS row.
Definition hash_sum (rows : list (list (option Z))) : Z := foldr (fun r acc => row_hash r + acc) 0 rows.

Lemma hash_sum_app r1 r2 : hash_sum (r1 ++ r2) = hash_sum r1 + hash_sum r2.
Proof. induction r1; simpl; lia. Qed.

Lemma duckdb_cells types vs r sum h :
  fold_left (duckdb_cell to_float r) (zip types vs) (sum, h)
  = (fold_row sum (map (fun '(type, v) =>
       if row_is_valid (validity v) r then Some (duckdb_value to_float type v r) else None) (zip types vs)),
     fold_row h (map (fun '(type, v) =>
       if row_is_valid (validity v) r then Some (duckdb_value to_float type v r) else None) (zip types vs))).
Proof.
  unfold fold_row. revert sum h. induction (zip types vs) as [|[type v] l IH]; intros sum h; [done|].
  cbn [fold_left map]. rewrite <- IH. f_equal. unfold duckdb_cell.
  by destruct (row_is_valid (validity v) r).
Qed.

Definition duckdb_acc (st : Z * Z * Z) (rows : list (list (option Z))) : Z * Z * Z :=
  let '(sel, sum, un) := st in
  (u64 (sel + Z.of_nat (length rows)), fold_rows sum rows, u64 (un + hash_sum rows)).

Lemma duckdb_acc_app st r1 r2 : duckdb_acc st (r1 ++ r2) = duckdb_acc (duckdb_acc st r1) r2.
Proof.
  destruct st as [[sel sum] un]. unfold duckdb_acc.
  rewrite fold_rows_app, !u64_add_l, length_app, hash_sum_app.
  by rewrite Nat2Z.inj_add, !Z.add_assoc.
Qed.

Definition acc_ok (st : Z * Z * Z) : Prop :=
  let '(sel, _, un) := st in 0 <= sel < 2 ^ 64 /\ 0 <= un < 2 ^ 64.

Lemma duckdb_acc_ok st rows : acc_ok (duckdb_acc st rows).
Proof. destruct st as [[sel sum] un]. split; apply u64_range. Qed.

Lemma duckdb_acc_nil st : acc_ok st -> duckdb_acc st [] = st.
Proof.
  destruct st as [[sel sum] un]. intros [H1 H2]. unfold duckdb_acc. simpl.
  by rewrite !Z.add_0_r, !u64_small.
Qed.

Lemma duckdb_chunk_spec types ch st : acc_ok st ->
  duckdb_chunk to_float 1 types st ch = duckdb_acc st (chunk_rows to_float types ch).
Proof.
  destruct st as [[sel sum] un]. intros [_ Hun]. unfold duckdb_chunk, chunk_rows, duckdb_acc. cbn [Z.eqb Pos.eqb].
  rewrite length_map, length_seq. unfold for_loop, fold_rows. cbv beta.
  set (rowf := fun r => map _ (zip types (vectors ch))).
  assert (H : forall rs sum un, 0 <= un < 2 ^ 64 ->
    fold_left (fun s r => let '(sum, un) := s in
      let '(sum, row_hash) := fold_left (duckdb_cell to_float r) (zip types (vectors ch))
                                (sum, FNV_OFFSET_BASIS) in (sum, u64 (un + row_hash))) rs (sum, un)
    = (fold_left fold_row (map rowf rs) sum, u64 (un + hash_sum (map rowf rs)))).
  { induction rs as [|r rs IH]; intros sum' un' Hun'; cbn [fold_left map].
    - simpl. by rewrite Z.add_0_r, u64_small.
    - rewrite duckdb_cells. rewrite IH by apply u64_range. f_equal.
      rewrite u64_add_l. f_equal. simpl. unfold row_hash, rowf. lia. }
  rewrite H by done. done.
Qed.

Lemma consume_result_spec types chunks st : acc_ok st ->
  consume_result to_float 1 types chunks st
  = duckdb_acc st (flat_map (chunk_rows to_float types) chunks).
Proof.
  revert st. induction chunks as [|ch chunks IH]; intros st Hst.
  - by rewrite duckdb_acc_nil.
  - cbn [flat_map]. rewrite duckdb_acc_app, <- IH by apply duckdb_acc_ok.
    unfold consume_result. cbn [fold_left]. by rewrite duckdb_chunk_spec.
Qed.

Lemma duckdb_measured types chunks rows n i st : acc_ok st ->
  (forall i, flat_map (chunk_rows to_float types) (chunks i) = rows) ->
  duckdb_measure to_float 1 types (fun i => Some (chunks i)) n i st
  = (false, duckdb_acc st (times n rows)).
Proof.
  intros Hst Hrows. revert i st Hst. induction n as [|n IH]; intros i st Hst; cbn [duckdb_measure].
  - by rewrite duckdb_acc_nil.
  - rewrite consume_result_spec, Hrows by done. rewrite IH by apply duckdb_acc_ok.
    by rewrite times_S_l, duckdb_acc_app.
Qed.
End row_engines.

(** What the engine behind the public API promises of one execution: the reset
    succeeds, every projected column resolves, the selected rows of its batches
    are the result set, and the end is [CybouDB_DONE]. *)
Record public_answers {B} (batch_column : B -> nat -> option colview) (n : nat) (cur : cursor B)
    (rows : list (list (option Z))) : Prop := {
  pa_reset : reset_rc cur = 0;
  pa_last : last_rc cur = CybouDB_DONE;
  pa_masks : masks_ok (rows_of cur);
  pa_rows : public_rows batch_column n (rows_of cur) = Some rows;
}.

Lemma public_once_delivered {B} (batch_column : B -> nat -> option colview) n cur rows c :
  public_answers batch_column n cur rows -> bench_ok c ->
  let '(rc, c') := public_once batch_column true n cur c in rc = 0 /\ delivered c rows c'.
Proof.
  intros [E1 E2 Hm Hr] Hc. unfold public_once. rewrite E1, E2. cbn [Z.eqb negb].
  by apply public_loop_delivered.
Qed.

Lemma c_api_result once rows warmup iterations : (0 < iterations)%nat ->
  (forall i c, bench_ok c -> let '(rc, c') := once i c in rc = 0 /\ delivered c rows c') ->
  let r := c_api_main once warmup iterations in
  fst r = 0 /\ selected (snd r) = u64 (Z.of_nat (length (times iterations rows))) /\
  checksum (snd r) = fold_rows FNV_OFFSET_BASIS (times iterations rows).
Proof.
  intros Hit Honce. pose proof (c_api_main_delivered once rows warmup Honce iterations Hit) as H.
  cbv zeta. destruct (c_api_main _ _ _) as [rc c]. destruct H as [-> [H1 H2]]. done.
Qed.

Lemma length_times n rows : length (times n rows) = (n * length rows)%nat.
Proof. induction n as [|n IH]; [done|]. rewrite times_S_l, length_app, IH. lia. Qed.

(** The three harnesses answer the same question bit for bit.  Whenever the
    engines deliver the same rows at each execution (CybouDB in masked batches
    through either of its APIs, SQLite row by row, DuckDB in chunks, cut as they
    like), all four measured loops end without error with the same
    BENCH_SELECTED and the same BENCH_CHECKSUM: the count and the tagged FNV-1a
    fold of the rows, [iterations] times over, whatever the warm-up did. *)
Theorem harnesses_agree {B} to_float rows warmup iterations
    (batch_column : B -> nat -> option colview) n cur projection pushed kinds srows types chunks :
  (0 < iterations)%nat ->
  (forall i, public_answers batch_column n (cur i) rows) ->
  (forall i, masks_ok (pushed i) /\ internal_rows projection (pushed i) = rows) ->
  (forall i, map (sqlite_cells to_float kinds) (srows i) = rows) ->
  (forall i, flat_map (chunk_rows to_float types) (chunks i) = rows) ->
  let public := c_api_main (fun i => public_once batch_column true n (cur i)) warmup iterations in
  let internal := c_api_main (fun i => internal_once true projection (pushed i) 0) warmup iterations in
  let sqlite := sqlite_measure to_float 1 kinds srows iterations in
  let duckdb := duckdb_measure to_float 1 types (fun i => Some (chunks i)) iterations 0
                  (0, FNV_OFFSET_BASIS, 0) in
  let sel := u64 (Z.of_nat (iterations * length rows)) in
  let sum := fold_rows FNV_OFFSET_BASIS (times iterations rows) in
  (fst public = 0 /\ selected (snd public) = sel /\ checksum (snd public) = sum) /\
  (fst internal = 0 /\ selected (snd internal) = sel /\ checksum (snd internal) = sum) /\
  sqlite = (sel, sum) /\
  fst duckdb = false /\ fst (snd duckdb) = (sel, sum).
Proof.
  intros Hit Hpub Hint Hsql Hduck. cbv zeta.
  rewrite <- length_times.
  rewrite (duckdb_measured to_float types chunks rows) by (done || (split; lia)).
  split; [|split; [|split; [by apply sqlite_measured|done]]].
  - apply c_api_result; [done|]. intros i c Hc. by apply public_once_delivered.
  - apply c_api_result; [done|]. intros i c Hc. destruct (Hint i) as [Hm <-].
    split; [done|]. by apply internal_once_delivered.
Qed.

Lemma harnesses_agree_witness :
  let col0 := mk_colview (le_bytes 4 7 ++ le_bytes 4 5) 0 4 in
  let col1 := mk_colview (le_bytes 8 1 ++ le_bytes 8 2) 2 8 in
  let public := c_api_main (fun _ => public_once (fun (b : list colview) i => b !! i) true 2
                  (mk_cursor 0 [([col0; col1], 2)] CybouDB_DONE)) 3 2 in
  let sqlite := sqlite_measure id 1 [4; 8] (fun _ => [[mk_sqlite_cell 1 5 0; mk_sqlite_cell 5 0 0]]) 2 in
  (selected (snd public), checksum (snd public)) = sqlite.
Proof.
  intros col0 col1.
  destruct (harnesses_agree id [[Some 5; None]] 3 2 (fun (b : list colview) i => b !! i) 2
    (fun _ => mk_cursor 0 [([col0; col1], 2)] CybouDB_DONE) [1; 0]%nat
    (fun _ => [([col1; col0], 2)]) [4; 8] (fun _ => [[mk_sqlite_cell 1 5 0; mk_sqlite_cell 5 0 0]])
    [4; 5] (fun _ => [mk_chunk 1 [mk_vector (le_bytes 4 5) None; mk_vector (le_bytes 8 0) (Some [0])]]))
    as ((_ & E1 & E2) & _ & E3 & _).
  - lia.
  - intros i. split; [reflexivity|reflexivity| |vm_compute; reflexivity].
    repeat (apply list.Forall_cons; split; [simpl; lia|]). constructor.
  - intros i. split; [|vm_compute; reflexivity].
    repeat (apply list.Forall_cons; split; [simpl; lia|]). constructor.
  - intros i. vm_compute. reflexivity.
  - intros i. vm_compute. reflexivity.
  - cbv zeta. rewrite E1, E2. symmetry. exact E3.
Defined.

Lemma hash_sum_perm r1 r2 : Permutation r1 r2 -> hash_sum r1 = hash_sum r2.
Proof. induction 1; simpl; lia. Qed.

(** DuckDB's second checksum does what it is kept for.  Two results with the
    same rows in any order, cut into any chunks, leave the same BENCH_SELECTED
    and the same order-independent accumulator. *)
Theorem unordered_checksum_order_independent to_float types chunks1 chunks2 sel sum un :
  0 <= sel < 2 ^ 64 -> 0 <= un < 2 ^ 64 ->
  Permutation (flat_map (chunk_rows to_float types) chunks1) (flat_map (chunk_rows to_float types) chunks2) ->
  let '(sel1, _, un1) := consume_result to_float 1 types chunks1 (sel, sum, un) in
  let '(sel2, _, un2) := consume_result to_float 1 types chunks2 (sel, sum, un) in
  sel1 = sel2 /\ un1 = un2.
Proof.
  intros Hs Hu Hp. rewrite !consume_result_spec by done. unfold duckdb_acc.
  by rewrite (hash_sum_perm _ _ Hp), (Permutation_length Hp).
Qed.

Lemma unordered_checksum_order_independent_witness :
  let v l := mk_vector (concat (map (le_bytes 4) l)) None in
  let '(sel1, _, un1) := consume_result id 1 [4] [mk_chunk 2 [v [1; 2]]; mk_chunk 1 [v [3]]] (0, 0, 0) in
  let '(sel2, _, un2) := consume_result id 1 [4] [mk_chunk 3 [v [3; 2; 1]]] (0, 0, 0) in
  sel1 = sel2 /\ un1 = un2.
Proof.
  apply (unordered_checksum_order_independent id [4]
    [mk_chunk 2 [mk_vector (concat (map (le_bytes 4) [1; 2])) None];
     mk_chunk 1 [mk_vector (concat (map (le_bytes 4) [3])) None]]
    [mk_chunk 3 [mk_vector (concat (map (le_bytes 4) [3; 2; 1])) None]] 0 0 0).
  - lia.
  - lia.
  - vm_compute. apply (Permutation_rev [[Some 1]; [Some 2]; [Some 3]]).
Defined.
