(* ===== verification/Engine.v ===== *)
(** * Engine: the C interface as the examples use it

    The calls of [include/cyboudb.h] that [examples/worker.c] and
    [examples/leased_worker.c] make, as an interface ([Engine]) that the two
    programs are written against, and the C strings they build their SQL with.
    What the programs rely on is a class of laws beside each program. *)

From Stdlib Require Export String Ascii.
From Stdlib Require Import DecimalString DecimalN.
From S2P Require Import Prelude.

(** ** The interface *)

Definition CybouDB_BUSY : Z := -2.
Definition CybouDB_MISUSE : Z := -3.
Definition CybouDB_NOMEM : Z := -4.

Definition CybouDB_CREATE_QUEUE_LEASES : Z := 0x0001.

Record cyboudb_create_options := mk_options {
  struct_size : Z;
  flags : Z;
}.

(** [S] is what a connection is and has done, [H] a statement handle.  A call
    that writes through a pointer returns what it wrote; no options is a NULL
    pointer. *)
Class Engine (S H : Type) := {
  cyboudb_create_with_options : string -> Z -> option cyboudb_create_options -> S * Z;
  cyboudb_close : S -> S * Z;
  cyboudb_errmsg : S -> string;
  cyboudb_exec : S -> string -> S * Z;
  cyboudb_prepare : S -> string -> S * Z * H;
  cyboudb_step : S -> H -> S * Z;
  cyboudb_message : S -> H -> nat -> Z * string;
  cyboudb_claim_ticket : S -> H -> Z * (N * N);
  cyboudb_finalize : S -> H -> S;
  (** The clock moves by at least this many milliseconds. *)
  elapse : S -> N -> S;
}.

(** No options is exactly [cyboudb_create]. *)
Definition cyboudb_create {S H} `{Engine S H} (path : string) (pages : Z) : S * Z :=
  cyboudb_create_with_options path pages None.

(** A chain of [cyboudb_exec(..) != CybouDB_OK ||]: the first failure stops it. *)
Fixpoint exec_all {S H} `{Engine S H} (s : S) (sqls : list string) : S * bool :=
  match sqls with
  | [] => (s, true)
  | sql :: rest =>
      let '(s, rc) := cyboudb_exec s sql in
      if negb (rc =? CybouDB_OK) then (s, false) else exec_all s rest
  end.

(** What a program prints, and where. *)
Inductive line := Out (text : string) | Err (text : string).

(** ** C strings *)

(** [snprintf(buf, cap, "%s", s)]: at most [cap - 1] characters. *)
Definition snprintf (cap : nat) (s : string) : string := substring 0 (cap - 1) s.

(** What [%s] prints of a buffer: up to its first NUL. *)
Fixpoint c_str (s : string) : string :=
  match s with
  | EmptyString => EmptyString
  | String c s' => if (c =? "000")%char then EmptyString else String c (c_str s')
  end.

(** [%PRIu64]. *)
Definition dec (n : N) : string := NilEmpty.string_of_uint (N.to_uint n).

(** A payload that SQL text and C strings carry unchanged: no quote, no NUL. *)
Fixpoint plain (s : string) : bool :=
  match s with
  | EmptyString => true
  | String c s' => negb (c =? "'")%char && negb (c =? "000")%char && plain s'
  end.

(** ** Reading the text back *)

Fixpoint strip (p s : string) : option string :=
  match p, s with
  | EmptyString, _ => Some s
  | String c p', String d s' => if (c =? d)%char then strip p' s' else None
  | String _ _, EmptyString => None
  end.

Definition is_digit (c : ascii) : bool :=
  let n := nat_of_ascii c in ((48 <=? n) && (n <=? 57))%nat.

Fixpoint span_digits (s : string) : string * string :=
  match s with
  | EmptyString => (EmptyString, EmptyString)
  | String c s' =>
      if is_digit c then let '(d, r) := span_digits s' in (String c d, r) else (EmptyString, s)
  end.

(** A number at the front of a text. *)
Definition number (s : string) : option (N * string) :=
  let '(d, r) := span_digits s in
  match NilEmpty.uint_of_string d with
  | Some u => Some (N.of_uint u, r)
  | None => None
  end.

(** The text up to a closing quote, and what follows it. *)
Fixpoint quoted (s : string) : option (string * string) :=
  match s with
  | EmptyString => None
  | String c s' =>
      if (c =? "'")%char then Some (EmptyString, s')
      else match quoted s' with Some (t, r) => Some (String c t, r) | None => None end
  end.

Lemma strip_app p s : strip p (p ++ s) = Some s.
Proof. induction p as [|c p IH]; simpl; [done|]. by rewrite Ascii.eqb_refl. Qed.

Fixpoint all_digits (s : string) : bool :=
  match s with EmptyString => true | String c s' => is_digit c && all_digits s' end.

Lemma string_of_uint_digits u : all_digits (NilEmpty.string_of_uint u) = true.
Proof. by induction u. Qed.

Lemma span_digits_app d r : all_digits d = true ->
  match r with EmptyString => true | String c _ => negb (is_digit c) end = true ->
  span_digits (d ++ r) = (d, r).
Proof.
  intros Hd Hr. induction d as [|c d IH]; simpl in *.
  - destruct r as [|c r]; simpl; [done|]. by destruct (is_digit c).
  - bool_to_prop. destruct (is_digit c); [|done]. by rewrite IH.
Qed.

(** What [%PRIu64] printed is read back. *)
Lemma number_dec n r :
  match r with EmptyString => true | String c _ => negb (is_digit c) end = true ->
  number (dec n ++ r) = Some (n, r).
Proof.
  intros Hr. unfold number, dec. rewrite span_digits_app; [|apply string_of_uint_digits|done].
  by rewrite NilEmpty.usu, DecimalN.Unsigned.of_to.
Qed.

Lemma quoted_plain t r : plain t = true -> quoted (t ++ String "'" r) = Some (t, r).
Proof.
  induction t as [|c t IH]; simpl; [done|]. intros H. bool_to_prop.
  destruct (c =? "'")%char; [done|]. by rewrite IH.
Qed.

(** ** Texts that fit *)

Lemma substring_all n s : (String.length s <= n)%nat -> substring 0 n s = s.
Proof.
  revert n. induction s as [|c s IH]; intros [|n] H; simpl in *; try done; [lia|].
  f_equal. apply IH. lia.
Qed.

Lemma plain_c_str s : plain s = true -> c_str s = s.
Proof.
  induction s as [|c s IH]; simpl; [done|]. intros H. bool_to_prop.
  destruct (c =? "000")%char; [done|]. by rewrite IH.
Qed.

(** The length of a payload that fits its buffer has at most three digits. *)
Lemma dec_short n : (n <= 255)%nat -> (String.length (dec (N.of_nat n)) <= 3)%nat.
Proof.
  intros Hn.
  assert (H : forallb (fun n => String.length (dec (N.of_nat n)) <=? 3)%nat (seq 0 256) = true)
    by (vm_compute; reflexivity).
  rewrite forallb_forall in H. apply Nat.leb_le, H, in_seq. lia.
Qed.

Lemma length_string_app s t : String.length (s ++ t)%string = (String.length s + String.length t)%nat.
Proof. induction s; simpl; auto. Qed.
