(* ===== verification/Worker.v ===== *)
(** * Worker: a worker loop over the transactional interface

    [examples/worker.c]: [process_one] takes a message, records a row and an
    audit line and commits, or leaves the queue as it was; [main] makes the
    database, queues three jobs, calls [process_one] until the queue is drained
    and reads the audit stream back.

    The program is written against [Engine].  [WorkerLaws] is what
    [docs/TRANSACTIONS.md], [docs/SQL.md], [docs/STREAM.md] and the comments of
    [cyboudb.h] promise of the engine; any call may fail.  [ref_engine], which
    reads the worker's SQL and fails when told to, satisfies the laws. *)

From Stdlib Require Import String Ascii.
From S2P Require Import Prelude Engine.
#[local] Open Scope string_scope.
#[local] Open Scope Z_scope.
#[local] Open Scope list_scope.
#[local] Infix "+++" := String.append (at level 60, right associativity).

(** ** What the worker sees of a database *)

(** The queue [inbox], the table [results (size INT64, note TEXT)], the stream
    [audit] and the next position the cursor [reporting] reads of it. *)
Record world := mk_world {
  inbox : list string;
  results : list (N * string);
  audit : list string;
  reporting : nat;
}.

Definition empty_world : world := mk_world [] [] [] 0.

Definition insert_text (len : N) (note : string) : string :=
  "INSERT INTO results VALUES (" +++ dec len +++ ", '" +++ note +++ "')".
Definition append_text (note : string) : string := "APPEND TO audit VALUES ('done: " +++ note +++ "')".
Definition enqueue_text (m : string) : string := "ENQUEUE INTO inbox VALUES ('" +++ m +++ "')".

(** The statements [main] makes the schema with. *)
Definition schema : list string :=
  ["CREATE TABLE results (size INT64, note TEXT)"; "CREATE QUEUE inbox"; "CREATE STREAM audit";
   "CREATE CURSOR reporting ON audit"].

(** ** What the worker relies on *)

(** [committed s] is the generation the handle holds published (after a failed
    sync the disk itself is undecided until the file is reopened), [staged s]
    the open transaction if there is one, [taken s h] the message the last step
    of [h] took. *)
Class WorkerLaws (S H : Type) `{Engine S H} := {
  committed : S -> world;
  staged : S -> option world;
  dequeues : H -> Prop;
  reads : H -> Prop;
  taken : S -> H -> option string;

  (** A created database is empty, in no transaction. *)
  create_law path pages s : cyboudb_create path pages = (s, CybouDB_OK) ->
    committed s = empty_world /\ staged s = None;
  (** Making an object adds nothing to the others. *)
  schema_law sql s s' : In sql schema -> staged s = None -> cyboudb_exec s sql = (s', CybouDB_OK) ->
    committed s' = committed s /\ staged s' = None;
  (** Outside a transaction a statement commits by itself. *)
  enqueue_law m s s' : staged s = None -> plain m = true ->
    cyboudb_exec s (enqueue_text m) = (s', CybouDB_OK) -> staged s' = None /\
    let w := committed s in
    committed s' = mk_world (inbox w ++ [m]) (results w) (audit w) (reporting w);
  (** A transaction starts from the published state, or does not start. *)
  begin_law s s' rc : staged s = None -> cyboudb_exec s "BEGIN" = (s', rc) ->
    committed s' = committed s /\
    staged s' = if rc =? CybouDB_OK then Some (committed s) else None;
  (** Rolling back discards what was staged. *)
  rollback_law s s' rc : is_Some (staged s) -> cyboudb_exec s "ROLLBACK" = (s', rc) ->
    committed s' = committed s /\ staged s' = None;
  (** A commit publishes the staged state; a refused one rolls back first. *)
  commit_law s s' rc w : staged s = Some w -> cyboudb_exec s "COMMIT" = (s', rc) ->
    committed s' = (if rc =? CybouDB_OK then w else committed s) /\ staged s' = None;
  (** Preparing executes nothing. *)
  prepare_law s s' rc h : cyboudb_prepare s "DEQUEUE FROM inbox" = (s', rc, h) ->
    committed s' = committed s /\ staged s' = staged s /\ (rc = CybouDB_OK -> dequeues h);
  prepare_read_law s s' rc h : cyboudb_prepare s "READ FROM audit AS reporting" = (s', rc, h) ->
    committed s' = committed s /\ staged s' = staged s /\ (rc = CybouDB_OK -> reads h);
  (** A step inside a transaction stages: it takes the first message, or finds
      none, or fails. *)
  step_law s s' rc h w : dequeues h -> staged s = Some w -> cyboudb_step s h = (s', rc) ->
    committed s' = committed s /\
    if rc =? CybouDB_ROW then
      exists m rest, inbox w = m :: rest /\ taken s' h = Some m /\
        staged s' = Some (mk_world rest (results w) (audit w) (reporting w))
    else if rc =? CybouDB_DONE then inbox w = [] /\ staged s' = Some w
    else is_Some (staged s');
  (** A read hands over the record at the cursor and moves the cursor past it;
      a cursor at the end has read everything. *)
  read_law s s' rc h : reads h -> staged s = None -> cyboudb_step s h = (s', rc) ->
    staged s' = None /\ let w := committed s in
    if rc =? CybouDB_ROW then
      exists r, audit w !! reporting w = Some r /\ taken s' h = Some r /\
        committed s' = mk_world (inbox w) (results w) (audit w) (Datatypes.S (reporting w))
    else committed s' = w /\ (rc = CybouDB_DONE -> (List.length (audit w) <= reporting w)%nat);
  (** The bytes of the message, when they fit. *)
  message_law s h m cap rc bytes : taken s h = Some m -> cyboudb_message s h cap = (rc, bytes) ->
    rc = CybouDB_OK -> bytes = m /\ (String.length m <= cap)%nat;
  finalize_law s h : committed (cyboudb_finalize s h) = committed s /\
    staged (cyboudb_finalize s h) = staged s;
  (** A statement inside a transaction stages its change or fails. *)
  insert_law s s' rc w n note : staged s = Some w -> plain note = true ->
    cyboudb_exec s (insert_text n note) = (s', rc) ->
    committed s' = committed s /\
    if rc =? CybouDB_OK
    then staged s' = Some (mk_world (inbox w) (results w ++ [(n, note)]) (audit w) (reporting w))
    else is_Some (staged s');
  append_law s s' rc w note : staged s = Some w -> plain note = true ->
    cyboudb_exec s (append_text note) = (s', rc) ->
    committed s' = committed s /\
    if rc =? CybouDB_OK
    then staged s' = Some (mk_world (inbox w) (results w) (audit w ++ ["done: " +++ note]) (reporting w))
    else is_Some (staged s');
  (** Closing publishes nothing. *)
  close_law s s' rc : cyboudb_close s = (s', rc) -> committed s' = committed s;
}.

(** ** The worker *)

(** The exit code, and what is printed. *)
Definition fail (what : string) : Z * list line := (1, [Err ("worker: " +++ what +++ " failed")]).

Definition DB_PATH : string := "build/worker_example.cdb".

Section worker.
Context {S H : Type} `{Engine S H}.

Definition rollback (s : S) : S := fst (cyboudb_exec s "ROLLBACK").

(** The code [process_one] returns, [*did_work], and what it prints. *)
Definition process_one (s : S) : S * (Z * list line) * bool :=
  let '(s, rc) := cyboudb_exec s "BEGIN" in
  if negb (rc =? CybouDB_OK) then (s, fail "BEGIN", false) else
  let '(s, rc, take) := cyboudb_prepare s "DEQUEUE FROM inbox" in
  if negb (rc =? CybouDB_OK) then (rollback s, fail "prepare DEQUEUE", false) else
  let '(s, rc) := cyboudb_step s take in
  if rc =? CybouDB_DONE then (rollback (cyboudb_finalize s take), (0, []), false) else
  if negb (rc =? CybouDB_ROW) then (rollback (cyboudb_finalize s take), fail "DEQUEUE", false) else
  let '(mrc, payload) := cyboudb_message s take 255 in
  if negb (mrc =? CybouDB_OK) then (rollback (cyboudb_finalize s take), fail "DEQUEUE", false) else
  let s := cyboudb_finalize s take in
  let len := N.of_nat (String.length payload) in
  let '(s, rc) := cyboudb_exec s (snprintf 512 (insert_text len (c_str payload))) in
  if negb (rc =? CybouDB_OK) then (rollback s, fail "INSERT", false) else
  let '(s, rc) := cyboudb_exec s (snprintf 512 (append_text (c_str payload))) in
  if negb (rc =? CybouDB_OK) then (rollback s, fail "APPEND", false) else
  let '(s, rc) := cyboudb_exec s "COMMIT" in
  if negb (rc =? CybouDB_OK) then (s, fail "COMMIT", false)
  else (s, (0, [Out ("  processed " +++ c_str payload)]), true).

(** [main]'s loop: what was printed, the exit code ([None] where the loop is
    left by [break]) and [processed]; no answer when the fuel runs out. *)
Fixpoint work (fuel : nat) (s : S) (processed : nat) : option (S * list line * option Z * nat) :=
  match fuel with
  | O => None
  | Datatypes.S fuel' =>
      let '(s, (rc, out), did_work) := process_one s in
      if negb (rc =? 0) then Some (s, out, Some 1, processed)
      else if negb did_work then Some (s, out, None, processed)
      else match work fuel' s (Datatypes.S processed) with
           | Some (s, out', code, n) => Some (s, out ++ out', code, n)
           | None => None
           end
  end.

(** [main]'s second loop: any result but [CybouDB_ROW] ends it; the code is
    [Some 1] where a message does not come out. *)
Fixpoint report (fuel : nat) (s : S) (st : H) : option (S * list line * option Z) :=
  match fuel with
  | O => None
  | Datatypes.S fuel' =>
      let '(s, rc) := cyboudb_step s st in
      if negb (rc =? CybouDB_ROW) then Some (s, [], None) else
      let '(mrc, record) := cyboudb_message s st 255 in
      if negb (mrc =? CybouDB_OK) then Some (s, snd (fail "message"), Some 1) else
      match report fuel' s st with
      | Some (s, out, code) => Some (s, Out ("  " +++ c_str record) :: out, code)
      | None => None
      end
  end.

(** The program: the final state, the exit code and what was printed. *)
Definition main (fuel : nat) : option (S * (Z * list line)) :=
  let '(s, rc) := cyboudb_create DB_PATH 4000 in
  if negb (rc =? CybouDB_OK) then Some (s, fail "create") else
  let '(s, ok) := exec_all s schema in
  if negb ok then Some (s, fail "schema") else
  let '(s, ok) := exec_all s (map enqueue_text ["alpha"; "beta"; "gamma"]) in
  if negb ok then Some (s, (1, Out "queueing three jobs" :: snd (fail "enqueue"))) else
  match work fuel s 0 with
  | None => None
  | Some (s, out1, Some code, _) => Some (s, (code, [Out "queueing three jobs"; Out "working"] ++ out1))
  | Some (s, out1, None, processed) =>
      let out := ([Out "queueing three jobs"; Out "working"] ++ out1 ++
        [Out ("queue drained after " +++ dec (N.of_nat processed) +++ " jobs");
         Out "what the reporting reader sees"]) in
      let '(s, rc, st) := cyboudb_prepare s "READ FROM audit AS reporting" in
      if negb (rc =? CybouDB_OK) then Some (s, (1, out ++ snd (fail "prepare READ"))) else
      match report fuel s st with
      | None => None
      | Some (s, out2, Some code) => Some (s, (code, out ++ out2))
      | Some (s, out2, None) =>
          let s := cyboudb_finalize s st in
          let '(s, rc) := cyboudb_close s in
          if negb (rc =? CybouDB_OK) then Some (s, (1, out ++ out2 ++ snd (fail "close")))
          else Some (s, (if (processed =? 3)%nat then 0 else 1, out ++ out2 ++ [Out "ok"]))
      end
  end.
End worker.

(** ** Texts that fit *)

Lemma insert_fits m : plain m = true -> (String.length m <= 255)%nat ->
  snprintf 512 (insert_text (N.of_nat (String.length m)) (c_str m))
  = insert_text (N.of_nat (String.length m)) m.
Proof.
  intros Hp Hl. rewrite plain_c_str by done. apply substring_all. unfold insert_text.
  rewrite !length_string_app. pose proof (dec_short _ Hl). simpl. lia.
Qed.

Lemma append_fits m : plain m = true -> (String.length m <= 255)%nat ->
  snprintf 512 (append_text (c_str m)) = append_text m.
Proof.
  intros Hp Hl. rewrite plain_c_str by done. apply substring_all. unfold append_text.
  rewrite !length_string_app. simpl. lia.
Qed.

(** ** One job *)

(** The world after the first message was processed. *)
Definition job_done (m : string) (rest : list string) (w : world) : world :=
  mk_world rest (results w ++ [(N.of_nat (String.length m), m)])
    (audit w ++ ["done: " +++ m]) (reporting w).

Section laws.
Context {S H : Type} `{WorkerLaws S H}.

Lemma rollback_ok s : is_Some (staged s) ->
  committed (rollback s) = committed s /\ staged (rollback s) = None.
Proof.
  intros Hs. unfold rollback. destruct (cyboudb_exec s "ROLLBACK") as [s' rc] eqn:E.
  by apply (rollback_law s s' rc).
Qed.

Lemma finalized_rollback s h : is_Some (staged s) ->
  committed (rollback (cyboudb_finalize s h)) = committed s /\
  staged (rollback (cyboudb_finalize s h)) = None.
Proof.
  intros Hs. destruct (finalize_law s h) as [E1 E2]. rewrite <- E1. apply rollback_ok. by rewrite E2.
Qed.

(** The three outcomes: the job is done and said so, the queue is empty and
    nothing changed, or the program failed and nothing changed. *)
Inductive outcome (w w' : world) : Z * list line -> bool -> Prop :=
  | processed m rest : inbox w = m :: rest -> w' = job_done m rest w ->
      outcome w w' (0, [Out ("  processed " +++ m)]) true
  | drained : inbox w = [] -> w' = w -> outcome w w' (0, []) false
  | untouched what : w' = w -> outcome w w' (fail what) false.

(** Recording the message taken, from inside the transaction. *)
Lemma record_ok s w m rest : staged s = Some (mk_world rest (results w) (audit w) (reporting w)) ->
  inbox w = m :: rest -> committed s = w -> plain m = true -> (String.length m <= 255)%nat ->
  let '(s', rc, did) :=
    let '(s, rc) := cyboudb_exec s (insert_text (N.of_nat (String.length m)) m) in
    if negb (rc =? CybouDB_OK) then (rollback s, fail "INSERT", false) else
    let '(s, rc) := cyboudb_exec s (append_text m) in
    if negb (rc =? CybouDB_OK) then (rollback s, fail "APPEND", false) else
    let '(s, rc) := cyboudb_exec s "COMMIT" in
    if negb (rc =? CybouDB_OK) then (s, fail "COMMIT", false)
    else (s, (0, [Out ("  processed " +++ m)]), true) in
  staged s' = None /\ outcome w (committed s') rc did.
Proof.
  intros Hs Hin Hw Hp Hl. destruct (cyboudb_exec s (insert_text _ _)) as [s1 rc1] eqn:E1.
  apply insert_law with (w := mk_world rest (results w) (audit w) (reporting w)) in E1 as [C1 S1]; [|done..].
  destruct (rc1 =? CybouDB_OK); cbn [negb].
  2: { destruct (rollback_ok s1 S1) as [C St]. split; [done|]. apply untouched. congruence. }
  destruct (cyboudb_exec s1 (append_text m)) as [s2 rc2] eqn:E2.
  eapply append_law in E2 as [C2 S2]; [|exact S1|done].
  destruct (rc2 =? CybouDB_OK); cbn [negb].
  2: { destruct (rollback_ok s2 S2) as [C St]. split; [done|]. apply untouched. congruence. }
  destruct (cyboudb_exec s2 "COMMIT") as [s3 rc3] eqn:E3.
  eapply commit_law in E3 as [C3 S3]; [|exact S2].
  destruct (rc3 =? CybouDB_OK); cbn [negb]; (split; [done|]).
  - by apply (processed _ _ m rest).
  - apply untouched. congruence.
Qed.

Lemma process_one_outcome s : staged s = None -> forallb plain (inbox (committed s)) = true ->
  let '(s', rc, did) := process_one s in
  staged s' = None /\ outcome (committed s) (committed s') rc did.
Proof.
  intros Hs Hp. unfold process_one. destruct (cyboudb_exec s "BEGIN") as [s1 rc1] eqn:E1.
  apply begin_law in E1 as [C1 S1]; [|done].
  destruct (rc1 =? CybouDB_OK); cbn [negb]; [|split; [done|by apply untouched]].
  destruct (cyboudb_prepare s1 "DEQUEUE FROM inbox") as [[s2 rc2] h] eqn:E2.
  apply prepare_law in E2 as (C2 & S2 & Hh). rewrite S1 in S2.
  destruct (rc2 =? CybouDB_OK) eqn:R2; cbn [negb]; bool_to_prop.
  2: { destruct (rollback_ok s2) as [C St]; [by eexists|]. split; [done|]. apply untouched. congruence. }
  destruct (cyboudb_step s2 h) as [s3 rc3] eqn:E3.
  eapply step_law in E3 as [C3 S3]; [|by apply Hh|exact S2].
  assert (C : committed s3 = committed s) by congruence.
  destruct (rc3 =? CybouDB_ROW) eqn:R3; bool_to_prop.
  - subst rc3. cbn [Z.eqb CybouDB_ROW CybouDB_DONE Pos.eqb negb].
    destruct S3 as (m & rest & Hin & Ht & S3).
    destruct (cyboudb_message s3 h 255) as [mrc payload] eqn:Em.
    destruct (mrc =? CybouDB_OK) eqn:Rm; cbn [negb]; bool_to_prop.
    2: { destruct (finalized_rollback s3 h) as [C' St]; [by eexists|]. split; [done|].
         apply untouched. congruence. }
    apply (message_law s3 h m) in Em as [-> Hl]; [|done..].
    destruct (finalize_law s3 h) as [C4 S4]. rewrite S3 in S4.
    rewrite Hin in Hp. cbn [forallb] in Hp. apply andb_true_iff in Hp as [Hpm _].
    rewrite insert_fits, append_fits, plain_c_str by done. apply (record_ok _ _ m rest); congruence.
  - destruct (rc3 =? CybouDB_DONE) eqn:R4; cbn [negb].
    + destruct S3 as [Hin S3]. destruct (finalized_rollback s3 h) as [C' St]; [by eexists|].
      split; [done|]. apply drained; congruence.
    + destruct (finalized_rollback s3 h S3) as [C' St]. split; [done|]. apply untouched. congruence.
Qed.

(** ** The loop *)

(** The first [n] messages processed, in order. *)
Definition moved (n : nat) (w : world) : world :=
  mk_world (drop n (inbox w))
    (results w ++ map (fun m => (N.of_nat (String.length m), m)) (take n (inbox w)))
    (audit w ++ map (fun m => "done: " +++ m) (take n (inbox w))) (reporting w).

Definition said (m : string) : line := Out ("  processed " +++ m).

Lemma moved_0 w : moved 0 w = w.
Proof. destruct w. unfold moved. simpl. by rewrite !app_nil_r. Qed.

Lemma moved_S n w m rest : inbox w = m :: rest -> moved n (job_done m rest w) = moved (Datatypes.S n) w.
Proof. intros E. unfold moved, job_done. simpl. rewrite E. simpl. by rewrite <- !app_assoc. Qed.

Lemma work_moves fuel : forall s p, staged s = None -> forallb plain (inbox (committed s)) = true ->
  (List.length (inbox (committed s)) < fuel)%nat ->
  exists s' out code n, work fuel s p = Some (s', out, code, (p + n)%nat) /\ staged s' = None /\
    (n <= List.length (inbox (committed s)))%nat /\ committed s' = moved n (committed s) /\
    match code with
    | None => n = List.length (inbox (committed s)) /\ out = map said (inbox (committed s))
    | Some c => c = 1
    end.
Proof.
  induction fuel as [|fuel IH]; intros s p Hs Hp Hf; [lia|]. cbn [work].
  pose proof (process_one_outcome s Hs Hp) as Ho.
  destruct (process_one s) as [[s1 [rc out]] did]. destruct Ho as [Hs1 Ho].
  inversion Ho as [m rest Hin Hw| Hin Hw| what Hw]; subst; cbn [Z.eqb negb fail] in *.
  - destruct (IH s1 (Datatypes.S p) Hs1) as (s' & out' & code & n & -> & Hs' & Hn & Hc & Hx);
      rewrite Hw in *; cbn [job_done inbox] in *.
    { rewrite Hin in Hp. cbn [forallb] in Hp. by apply andb_true_iff in Hp as [_ ?]. }
    { rewrite Hin in Hf. simpl in Hf. lia. }
    exists s', ([Out ("  processed " +++ m)] ++ out'), code, (Datatypes.S n).
    rewrite Hin, Hc, (moved_S _ _ _ _ Hin). simpl. split; [do 2 f_equal; lia|].
    split; [done|]. split; [lia|]. split; [done|]. destruct code; [done|].
    destruct Hx as [-> ->]. done.
  - exists s1, [], None, 0%nat. rewrite Hw, Hin, moved_0. repeat split; try done; simpl; try lia.
    do 2 f_equal. lia.
  - eexists s1, _, (Some 1), 0%nat. rewrite Hw, moved_0. repeat split; try done; try lia.
    do 2 f_equal. lia.
Qed.

(** ** The report *)

Definition told (r : string) : line := Out ("  " +++ r).

Definition cursor_at (k : nat) (w : world) : world := mk_world (inbox w) (results w) (audit w) k.

Lemma report_reads fuel : forall s st, reads st -> staged s = None ->
  forallb plain (audit (committed s)) = true ->
  (List.length (audit (committed s)) - reporting (committed s) < fuel)%nat ->
  exists s' out code k, report fuel s st = Some (s', out, code) /\ staged s' = None /\
    committed s' = cursor_at (reporting (committed s) + k) (committed s) /\
    (k <= List.length (audit (committed s)) - reporting (committed s))%nat /\
    match code with
    | None => out = map told (take k (drop (reporting (committed s)) (audit (committed s))))
    | Some c => c = 1
    end.
Proof.
  induction fuel as [|fuel IH]; intros s st Hr Hs Hp Hf; [lia|]. cbn [report].
  destruct (cyboudb_step s st) as [s1 rc] eqn:E. apply read_law in E as [Hs1 E]; [|done..].
  destruct (rc =? CybouDB_ROW) eqn:R; cbn [negb].
  2: { destruct E as [E _]. exists s1, [], None, 0%nat. rewrite E, Nat.add_0_r.
       split; [done|]. split; [done|]. split; [by destruct (committed s)|]. split; [lia|done]. }
  destruct E as (r & Hat & Ht & E). assert (Hl := lookup_lt_Some _ _ _ Hat).
  destruct (cyboudb_message s1 st 255) as [mrc record] eqn:M.
  destruct (mrc =? CybouDB_OK) eqn:Rm; cbn [negb]; bool_to_prop.
  2: { eexists s1, _, (Some 1), 1%nat. rewrite E, Nat.add_1_r. repeat split; try done. lia. }
  apply (message_law s1 st r) in M as [-> _]; [|done..].
  destruct (IH s1 st Hr Hs1) as (s' & out & code & k & -> & Hs' & Hc & Hk & Hx);
    rewrite E in *; cbn [audit reporting inbox results cursor_at] in *; [done|lia|].
  exists s', (told (c_str r) :: out), code, (Datatypes.S k).
  rewrite Hc. split; [done|]. split; [done|]. split; [unfold cursor_at; simpl; f_equal; lia|].
  split; [lia|].
  destruct code; [done|]. rewrite Hx, (drop_S _ _ _ Hat). simpl. f_equal.
  unfold told. rewrite plain_c_str; [done|].
  rewrite forallb_forall in Hp. by apply Hp, list_elem_of_In, list_elem_of_lookup_2 with (reporting (committed s)).
Qed.

(** ** The program *)

Lemma exec_all_schema sqls : forall s s', incl sqls schema -> staged s = None ->
  exec_all s sqls = (s', true) -> committed s' = committed s /\ staged s' = None.
Proof.
  induction sqls as [|sql sqls IH]; intros s s' Hi Hs; cbn [exec_all]; [by intros [= <-]|].
  destruct (cyboudb_exec s sql) as [s1 rc] eqn:E.
  destruct (rc =? CybouDB_OK) eqn:R; cbn [negb]; [|done]. bool_to_prop. subst rc.
  apply schema_law in E as [C1 S1]; [|by apply Hi; left|done].
  intros E2. apply IH in E2 as [C2 S2]; [split; congruence| |done].
  intros x Hx. apply Hi. by right.
Qed.

Lemma exec_all_enqueue ms : forall s s', forallb plain ms = true -> staged s = None ->
  exec_all s (map enqueue_text ms) = (s', true) -> staged s' = None /\
  let w := committed s in committed s' = mk_world (inbox w ++ ms) (results w) (audit w) (reporting w).
Proof.
  induction ms as [|m ms IH]; intros s s' Hp Hs; cbn [exec_all map].
  { intros [= <-]. split; [done|]. simpl. rewrite app_nil_r. by destruct (committed s). }
  destruct (cyboudb_exec s (enqueue_text m)) as [s1 rc] eqn:E.
  destruct (rc =? CybouDB_OK) eqn:R; cbn [negb]; [|done]. bool_to_prop. subst rc.
  cbn [forallb] in Hp. apply andb_true_iff in Hp as [Hm Hp].
  apply enqueue_law in E as [S1 C1]; [|done..].
  intros E2. apply IH in E2 as [S2 C2]; [|done..]. split; [done|].
  rewrite C1 in C2. simpl in *. by rewrite C2, <- app_assoc.
Qed.

(** What the database holds when all three jobs are done and the reader has
    seen the first [k] records. *)
Definition final_world (k : nat) : world :=
  mk_world [] [(5%N, "alpha"); (4%N, "beta"); (5%N, "gamma")]
    ["done: alpha"; "done: beta"; "done: gamma"] k.

(** What the program prints then. *)
Definition transcript (k : nat) : list line :=
  [Out "queueing three jobs"; Out "working"; Out "  processed alpha"; Out "  processed beta";
   Out "  processed gamma"; Out "queue drained after 3 jobs"; Out "what the reporting reader sees"] ++
  map told (take k (audit (final_world k))) ++ [Out "ok"].

Lemma main_tail s fuel out1 p : staged s = None -> committed s = final_world 0 -> (4 <= fuel)%nat ->
  exists s' code out,
    (let '(s, rc, st) := cyboudb_prepare s "READ FROM audit AS reporting" in
     if negb (rc =? CybouDB_OK) then Some (s, (1, out1 ++ snd (fail "prepare READ"))) else
     match report fuel s st with
     | None => None
     | Some (s, out2, Some code) => Some (s, (code, out1 ++ out2))
     | Some (s, out2, None) =>
         let s := cyboudb_finalize s st in
         let '(s, rc) := cyboudb_close s in
         if negb (rc =? CybouDB_OK) then Some (s, (1, out1 ++ out2 ++ snd (fail "close")))
         else Some (s, (if (p =? 3)%nat then 0 else 1, out1 ++ out2 ++ [Out "ok"]))
     end) = Some (s', (code, out)) /\ (code = 0 \/ code = 1) /\
    exists k, (k <= 3)%nat /\ committed s' = final_world k /\
      (code = 0 -> out = out1 ++ map told (take k (audit (final_world k))) ++ [Out "ok"]).
Proof.
  intros Hs Hc Hf. destruct (cyboudb_prepare s _) as [[s1 rc] st] eqn:E.
  apply prepare_read_law in E as (C1 & S1 & Hr).
  destruct (rc =? CybouDB_OK) eqn:R; cbn [negb]; bool_to_prop.
  2: { do 3 eexists. split; [done|]. split; [by right|]. exists 0%nat. rewrite C1, Hc. repeat split; lia || done. }
  destruct (report_reads fuel s1 st) as (s2 & out2 & code & k & -> & S2 & C2 & Hk & Hx);
    [by apply Hr|congruence|by rewrite C1, Hc|rewrite C1, Hc; simpl; lia|].
  rewrite C1, Hc in *. cbn in C2, Hk.
  destruct code as [c|].
  { do 3 eexists. split; [done|]. subst c. split; [by right|]. exists k. repeat split; done || lia. }
  destruct (cyboudb_close _) as [s3 rc3] eqn:E3. apply close_law in E3.
  destruct (finalize_law s2 st) as [C3 _].
  destruct (rc3 =? CybouDB_OK); cbn [negb].
  - do 3 eexists. split; [done|]. split; [destruct (p =? 3)%nat; auto|]. exists k.
    split; [lia|]. rewrite E3, C3, C2. split; [done|]. intros _. by rewrite Hx.
  - do 3 eexists. split; [done|]. split; [by right|]. exists k. rewrite E3, C3, C2.
    repeat split; lia || done.
Qed.

(** A way out of [main] with the exit code 1. *)
#[local] Ltac stopped := do 3 eexists; split; [reflexivity|]; split; [right; reflexivity|intros [=]].


(** The loop of [main] ends, for every queue, however its calls fail: after
    some number of jobs the first that many messages, in their order, have each
    been recorded once and left the queue, and nothing else happened.  If it
    ended by [break] that is the whole queue, and each message was announced. *)
Theorem work_drains s p fuel : staged s = None -> forallb plain (inbox (committed s)) = true ->
  (List.length (inbox (committed s)) < fuel)%nat ->
  exists s' out code n, work fuel s p = Some (s', out, code, (p + n)%nat) /\ staged s' = None /\
    (n <= List.length (inbox (committed s)))%nat /\ committed s' = moved n (committed s) /\
    match code with
    | None => inbox (committed s') = [] /\ out = map said (inbox (committed s))
    | Some c => c = 1
    end.
Proof.
  intros Hs Hp Hf. destruct (work_moves fuel s p Hs Hp Hf) as (s' & out & code & n & E & Hs' & Hn & Hc & Hx).
  exists s', out, code, n. repeat split; try done. destruct code; [done|].
  destruct Hx as [-> ->]. rewrite Hc. cbn. by rewrite drop_all.
Qed.

End laws.

(** ** A reference engine *)

(** It reads the worker's statements, and each call fails when the next of
    [faults] says so. *)
Record ref := mk_ref {
  r_world : world;
  r_staged : option world;
  r_taken : option string;
  r_faults : list bool;
}.

Inductive ref_stmt := RefDequeue | RefRead | RefNone.

Definition next_fault (s : ref) : bool * ref :=
  match r_faults s with
  | [] => (false, s)
  | f :: rest => (f, mk_ref (r_world s) (r_staged s) (r_taken s) rest)
  end.

Definition set_staged (s : ref) (w : option world) : ref :=
  mk_ref (r_world s) w (r_taken s) (r_faults s).

(** A change inside a transaction is staged; outside it is published. *)
Definition ref_apply (s : ref) (f : world -> world) : ref :=
  match r_staged s with
  | Some w => set_staged s (Some (f w))
  | None => mk_ref (f (r_world s)) None (r_taken s) (r_faults s)
  end.

Definition parse_insert (sql : string) : option (N * string) :=
  match strip "INSERT INTO results VALUES (" sql with
  | Some r =>
      match number r with
      | Some (n, r) =>
          match strip ", '" r with
          | Some r => match quoted r with Some (t, ")") => Some (n, t) | _ => None end
          | None => None
          end
      | None => None
      end
  | None => None
  end.

Definition parse_value (prefix sql : string) : option string :=
  match strip prefix sql with
  | Some r => match quoted r with Some (t, ")") => Some t | _ => None end
  | None => None
  end.

(** The change a statement makes. *)
Definition ref_effect (sql : string) : option (world -> world) :=
  match parse_insert sql with
  | Some (n, t) => Some (fun w => mk_world (inbox w) (results w ++ [(n, t)]) (audit w) (reporting w))
  | None =>
  match parse_value "APPEND TO audit VALUES ('" sql with
  | Some t => Some (fun w => mk_world (inbox w) (results w) (audit w ++ [t]) (reporting w))
  | None =>
  match parse_value "ENQUEUE INTO inbox VALUES ('" sql with
  | Some t => Some (fun w => mk_world (inbox w ++ [t]) (results w) (audit w) (reporting w))
  | None => if existsb (String.eqb sql) schema then Some (fun w => w) else None
  end end end.

Definition ref_exec (s : ref) (sql : string) : ref * Z :=
  let '(fault, s) := next_fault s in
  if String.eqb sql "BEGIN" then
    match r_staged s with
    | None => if fault then (s, CybouDB_ERROR) else (set_staged s (Some (r_world s)), CybouDB_OK)
    | Some _ => (s, CybouDB_ERROR)
    end
  else if String.eqb sql "ROLLBACK" then (set_staged s None, if fault then CybouDB_ERROR else CybouDB_OK)
  else if String.eqb sql "COMMIT" then
    match r_staged s with
    | Some w => if fault then (set_staged s None, CybouDB_ERROR)
                else (mk_ref w None (r_taken s) (r_faults s), CybouDB_OK)
    | None => (s, CybouDB_ERROR)
    end
  else match ref_effect sql with
       | Some f => if fault then (s, CybouDB_ERROR) else (ref_apply s f, CybouDB_OK)
       | None => (s, CybouDB_ERROR)
       end.

Definition ref_prepare (s : ref) (sql : string) : ref * Z * ref_stmt :=
  let '(fault, s) := next_fault s in
  if fault then (s, CybouDB_ERROR, RefNone)
  else if String.eqb sql "DEQUEUE FROM inbox" then (s, CybouDB_OK, RefDequeue)
  else if String.eqb sql "READ FROM audit AS reporting" then (s, CybouDB_OK, RefRead)
  else (s, CybouDB_ERROR, RefNone).

Definition ref_take (s : ref) (w : world) (m : string) : ref :=
  match r_staged s with
  | Some _ => mk_ref (r_world s) (Some w) (Some m) (r_faults s)
  | None => mk_ref w None (Some m) (r_faults s)
  end.

Definition ref_step (s : ref) (h : ref_stmt) : ref * Z :=
  let '(fault, s) := next_fault s in
  let w := default (r_world s) (r_staged s) in
  if fault then (s, CybouDB_ERROR) else
  match h with
  | RefDequeue =>
      match inbox w with
      | [] => (s, CybouDB_DONE)
      | m :: rest => (ref_take s (mk_world rest (results w) (audit w) (reporting w)) m, CybouDB_ROW)
      end
  | RefRead =>
      match audit w !! reporting w with
      | None => (s, CybouDB_DONE)
      | Some r => (ref_take s (cursor_at (Datatypes.S (reporting w)) w) r, CybouDB_ROW)
      end
  | RefNone => (s, CybouDB_ERROR)
  end.

Definition ref_message (s : ref) (h : ref_stmt) (cap : nat) : Z * string :=
  match r_taken s with
  | Some m => if (String.length m <=? cap)%nat then (CybouDB_OK, m) else (CybouDB_MISUSE, EmptyString)
  | None => (CybouDB_MISUSE, EmptyString)
  end.

(** [faults] of the calls after [cyboudb_create]. *)
#[local] Instance ref_engine (faults : list bool) : Engine ref ref_stmt := {|
  cyboudb_create_with_options path pages options := (mk_ref empty_world None None faults, CybouDB_OK);
  cyboudb_close s := let '(fault, s) := next_fault s in (s, if fault then CybouDB_ERROR else CybouDB_OK);
  cyboudb_errmsg s := "ok";
  cyboudb_exec := ref_exec;
  cyboudb_prepare := ref_prepare;
  cyboudb_step := ref_step;
  cyboudb_message := ref_message;
  cyboudb_claim_ticket s h := (CybouDB_MISUSE, (0%N, 0%N));
  cyboudb_finalize s h := s;
  elapse s ms := s;
|}.

Lemma parse_insert_text n t : plain t = true -> parse_insert (insert_text n t) = Some (n, t).
Proof.
  intros Hp. unfold parse_insert, insert_text. rewrite strip_app, number_dec by done.
  rewrite strip_app. by rewrite quoted_plain.
Qed.

Lemma parse_value_text p t : plain t = true -> parse_value p (p +++ t +++ "')") = Some t.
Proof. intros Hp. unfold parse_value. by rewrite strip_app, quoted_plain. Qed.

(** The statements of the worker, as the reference engine understands them. *)
Lemma ref_insert n t : plain t = true -> ref_effect (insert_text n t) =
  Some (fun w => mk_world (inbox w) (results w ++ [(n, t)]) (audit w) (reporting w)).
Proof. intros Hp. unfold ref_effect. by rewrite parse_insert_text. Qed.

Lemma ref_append t : plain t = true -> ref_effect (append_text t) =
  Some (fun w => mk_world (inbox w) (results w) (audit w ++ ["done: " +++ t]) (reporting w)).
Proof.
  intros Hp. unfold ref_effect.
  change (append_text t) with ("APPEND TO audit VALUES ('" +++ ("done: " +++ t) +++ "')").
  by rewrite parse_value_text.
Qed.

Lemma ref_enqueue t : plain t = true -> ref_effect (enqueue_text t) =
  Some (fun w => mk_world (inbox w ++ [t]) (results w) (audit w) (reporting w)).
Proof.
  intros Hp. unfold ref_effect, enqueue_text.
  by rewrite (parse_value_text "ENQUEUE INTO inbox VALUES ('").
Qed.

(** A statement that is not a transaction statement. *)
Lemma ref_exec_effect s sql f : ref_effect sql = Some f ->
  String.eqb sql "BEGIN" = false -> String.eqb sql "ROLLBACK" = false -> String.eqb sql "COMMIT" = false ->
  ref_exec s sql =
    let '(fault, s) := next_fault s in if fault then (s, CybouDB_ERROR) else (ref_apply s f, CybouDB_OK).
Proof. intros E H1 H2 H3. unfold ref_exec. by rewrite H1, H2, H3, E. Qed.

#[local] Ltac ref_cases := unfold next_fault, ref_apply, ref_take, set_staged, is_Some in *;
  repeat match goal with s : ref |- _ => destruct s as [? ? ? [|[|] ?]] end;
  simpl in *; destruct_and?; simplify_eq; simpl in *; simplify_eq; eauto 8.

#[local] Instance ref_laws faults : @WorkerLaws ref ref_stmt (ref_engine faults).
Proof.
  refine (@Build_WorkerLaws ref ref_stmt (ref_engine faults) r_world r_staged (fun h => h = RefDequeue)
    (fun h => h = RefRead) (fun s _ => r_taken s) _ _ _ _ _ _ _ _ _ _ _ _ _ _ _); simpl.
  - intros path pages s [= <-]. done.
  - intros sql s s' Hin Hs E.
    assert (ref_effect sql = Some (fun w => w)) by (by repeat destruct Hin as [<-|Hin]).
    erewrite ref_exec_effect in E; [|done|by repeat destruct Hin as [<-|Hin]..]. ref_cases.
  - intros m s s' Hs Hp E. erewrite ref_exec_effect in E; [|by apply ref_enqueue|done..]. ref_cases.
  - intros s s' rc Hs E. unfold ref_exec in E. ref_cases.
  - intros s s' rc Hs E. unfold ref_exec in E. ref_cases.
  - intros s s' rc w Hs E. unfold ref_exec in E. ref_cases.
  - intros s s' rc h E. unfold ref_prepare in E. ref_cases; repeat split; by intros [=].
  - intros s s' rc h E. unfold ref_prepare in E. ref_cases; repeat split; by intros [=].
  - intros s s' rc h [[|m rest] res a k] -> Hs E; unfold ref_step in E; ref_cases; split; cbn; eauto 8.
  - intros [[i res a k] st t f] s' rc h -> Hs E. unfold ref_step in E. simpl in Hs. subst st.
    destruct f as [|[|] f]; simpl in *; [|by simplify_eq|];
      (destruct (a !! k) eqn:Hi; simplify_eq/=; (split; [done|]); cbn; eauto 8 using lookup_ge_None_1).
  - intros s h m cap rc bytes Ht E Hrc. unfold ref_message in E. rewrite Ht in E.
    destruct (_ <=? _)%nat eqn:Hl; simplify_eq. by bool_to_prop.
  - done.
  - intros s s' rc w n note Hs Hp E. erewrite ref_exec_effect in E; [|by apply ref_insert|done..]. ref_cases.
  - intros s s' rc w note Hs Hp E. erewrite ref_exec_effect in E; [|by apply ref_append|done..]. ref_cases.
  - intros s s' rc E. ref_cases.
Defined.

(** A connection with two jobs queued and a commit that fails the first time. *)
Definition two_jobs : ref :=
  mk_ref (mk_world ["alpha"; "beta"] [] [] 0) None None [false; false; false; false; false; true].


(** The failed commit ends the loop with both jobs still queued. *)
Example failed_commit :
  (let '(s', rc, did) := @process_one _ _ (ref_engine []) two_jobs in (r_world s', rc, did))
  = (mk_world ["alpha"; "beta"] [] [] 0, fail "COMMIT", false).
Proof. vm_compute. reflexivity. Qed.

Lemma work_drains_witness : exists s' out code n,
  @work _ _ (ref_engine []) 3 two_jobs 0 = Some (s', out, code, n) /\ r_world s' = moved n (r_world two_jobs).
Proof.
  destruct (@work_drains _ _ (ref_engine []) (ref_laws []) two_jobs 0 3) as (s' & out & code & n & E & _ & _ & Hc & _).
  - reflexivity.
  - reflexivity.
  - simpl. lia.
  - exists s', out, code, n. split; [exact E|exact Hc].
Defined.


(** With no fault the program exits with 0 and prints all of it. *)
Example main_runs : match @main _ _ (ref_engine []) 4 with
  | Some (s', r) => (r_world s', r) = (final_world 3, (0, transcript 3))
  | None => False
  end.
Proof. vm_compute. reflexivity. Qed.

(** A read that fails ends the report early, and the exit code is still 0. *)
Example report_cut_short : match @main _ _ (ref_engine (repeat false 31 ++ [true])) 4 with
  | Some (s', (code, out)) => code = 0 /\ reporting (r_world s') = 1%nat /\ out = transcript 1
  | None => False
  end.
Proof. vm_compute. done. Qed.
