(* ===== verification/LeaseQueue.v ===== *)
(** * LeaseQueue: the lease operations of the engine

    [src/core/queue.asm]: a queue page with its segments of 62 slots, and the
    operations [CLAIM], [ACK], [NACK], [RENEW] and [ENQUEUE] on them, with the
    search they share, the summaries that let the search skip a segment, the
    advance of the head and the validation every commit runs.

    A page is its fields and a flag saying whether it carries the stamp and the
    checksum of its own content ([q_sealed], [s_sealed]); payload bytes are a
    string, however the engine stores them, and the counters that only measure
    are left out.  Positions are [nat] (64-bit counters that are never reused),
    times and tokens [Z] in 64 bits. *)

From Stdlib Require Import String.
From S2P Require Import Prelude.

(** ** Data *)

Definition CybouDB_E_FULL : Z := 15.
Definition CybouDB_E_STATE : Z := 22.
Definition CybouDB_E_NOTFOUND : Z := 28.
Definition CybouDB_E_VALUE : Z := 32.
Definition CybouDB_E_LEASE : Z := 37.

Definition QMSG_STATE_HELD : Z := 0.
Definition QMSG_STATE_CLAIMED : Z := 1.
Definition QMSG_STATE_ACKED : Z := 2.

Definition SEG_SLOTS : nat := 62.
Definition Q_MAX_SEGMENTS : nat := Z.to_nat 495.

Record slot := mk_slot {
  m_state : Z;
  m_until : Z;
  m_token : Z;
  m_payload : string;
}.

(** A page of zeros. *)
Definition zero_slot : slot := mk_slot 0 0 0 EmptyString.

Record segment := mk_segment {
  ready_at : Z;
  s_slots : list slot;
  s_sealed : bool;
}.

Definition zero_segment : segment := mk_segment 0 (replicate SEG_SLOTS zero_slot) false.

Record queue := mk_queue {
  head : nat;
  tail : nat;
  claim : nat;
  first_seg : nat;
  time_floor : Z;
  segs : list segment;
  q_sealed : bool;
}.

(** A queue as it is created. *)
Definition new_queue : queue := mk_queue 0 0 0 0 0 [] true.

(** What the rest of the engine answers: whether the database has leases, and
    what editing the catalog page and copying or allocating a segment page
    return. *)
Record ctx := mk_ctx {
  db_leases : bool;
  db_catalog_edit : Z;
  db_page_copy : Z;
}.

(** ** Where a message lives *)

Definition seg_of (pos : nat) : nat := pos / SEG_SLOTS.
Definition slot_in (pos : nat) : nat := pos mod SEG_SLOTS.
#[global] Arguments seg_of : simpl never.
#[global] Arguments slot_in : simpl never.

Definition seg_at (q : queue) (pos : nat) : option segment :=
  if (seg_of pos <? first_seg q)%nat then None else segs q !! (seg_of pos - first_seg q)%nat.

(** [queue_slot_at] *)
Definition queue_slot_at (q : queue) (pos : nat) : option slot :=
  seg_at q pos ≫= fun sg => s_slots sg !! slot_in pos.

(** Read-only: where a refusal is decided. *)
Definition lease_find_slot (q : queue) (pos : nat) : option slot :=
  if ((pos <? head q) || (tail q <=? pos))%nat then None else queue_slot_at q pos.

Definition set_segs (q : queue) (sgs : list segment) : queue :=
  mk_queue (head q) (tail q) (claim q) (first_seg q) (time_floor q) sgs (q_sealed q).

(** A write to the segment page of a position. *)
Definition edit_seg (q : queue) (pos : nat) (f : segment -> segment) : queue :=
  set_segs q (alter f (seg_of pos - first_seg q)%nat (segs q)).

Definition edit_slot (q : queue) (pos : nat) (f : slot -> slot) : queue :=
  edit_seg q pos (fun sg => mk_segment (ready_at sg) (alter f (slot_in pos) (s_slots sg)) (s_sealed sg)).

Definition unseal_page (q : queue) : queue :=
  mk_queue (head q) (tail q) (claim q) (first_seg q) (time_floor q) (segs q) false.
Definition db_catalog_seal (q : queue) : queue :=
  mk_queue (head q) (tail q) (claim q) (first_seg q) (time_floor q) (segs q) true.
Definition queue_seg_seal (q : queue) (pos : nat) : queue :=
  edit_seg q pos (fun sg => mk_segment (ready_at sg) (s_slots sg) true).
Definition unseal_seg (q : queue) (pos : nat) : queue :=
  edit_seg q pos (fun sg => mk_segment (ready_at sg) (s_slots sg) false).

(** The pages of a position made writable: stamped, so not sealed any more. *)
Definition lease_edit_slot (c : ctx) (q : queue) (pos : nat) : Z * queue :=
  if negb (db_catalog_edit c =? 0) then (db_catalog_edit c, q) else
  let q := unseal_page q in
  match lease_find_slot q pos with
  | None => (CybouDB_E_VALUE, q)
  | Some _ =>
      if negb (db_page_copy c =? 0) then (db_page_copy c, q) else (0, unseal_seg q pos)
  end.

(** ** Summaries *)

(** The loop of [lease_seg_refresh] and of [lease_summaries_valid]: the least
    deadline among [n] positions from [pos], zero as soon as one is free. *)
Fixpoint least_deadline (q : queue) (n pos : nat) (best : Z) : Z :=
  match n with
  | O => best
  | S n' =>
      match queue_slot_at q pos with
      | None => least_deadline q n' (S pos) best
      | Some m =>
          if m_state m =? QMSG_STATE_HELD then 0
          else if negb (m_state m =? QMSG_STATE_CLAIMED) then least_deadline q n' (S pos) best
          else least_deadline q n' (S pos) (if m_until m <? best then m_until m else best)
      end
  end.

(** Over the live positions of segment [seg]. *)
Definition seg_summary (q : queue) (seg : nat) : Z :=
  let lo := Nat.max (seg * SEG_SLOTS) (head q) in
  let hi := Nat.min (seg * SEG_SLOTS + SEG_SLOTS) (tail q) in
  least_deadline q (hi - lo) lo UINT64_MAX.

Definition lease_seg_refresh (c : ctx) (q : queue) (pos : nat) : queue :=
  if negb (db_leases c) then q else
  let best := seg_summary q (seg_of pos) in
  edit_seg q pos (fun sg => mk_segment best (s_slots sg) (s_sealed sg)).

Definition lease_summaries_valid (c : ctx) (q : queue) : bool :=
  negb (db_leases c) ||
  forallb (fun '(i, sg) => ready_at sg <=? seg_summary q (i + first_seg q)%nat)
    (imap pair (segs q)).

(** ** Searching *)

Definition claimable (now : Z) (m : slot) : bool :=
  (m_state m =? QMSG_STATE_HELD) || ((m_state m =? QMSG_STATE_CLAIMED) && (m_until m <=? now)).

(** From [pos], having entered segment [cur]: the positions of a segment whose
    summary is still ahead are stepped over when the walk enters it. *)
Fixpoint scan_from (q : queue) (now : Z) (fuel pos : nat) (cur : option nat) : option nat :=
  match fuel with
  | O => None
  | S fuel' =>
      if (tail q <=? pos)%nat then None else
      let entering := negb (bool_decide (cur = Some (seg_of pos))) in
      let sg := default zero_segment (seg_at q pos) in
      if entering && (now <? ready_at sg) then
        scan_from q now fuel' (S (seg_of pos) * SEG_SLOTS)%nat (Some (seg_of pos))
      else if claimable now (default zero_slot (queue_slot_at q pos)) then Some pos
      else scan_from q now fuel' (S pos) (Some (seg_of pos))
  end.

Definition db_queue_scan_claimable (c : ctx) (q : queue) (now : Z) : option nat :=
  if negb (db_leases c) then None else scan_from q now (S (tail q - head q)) (head q) None.

(** ** The operations *)

(** The queue's clock never runs backwards. *)
Definition lease_now (c : ctx) (q : queue) (now : Z) : Z * Z :=
  if negb (db_leases c) then (CybouDB_E_STATE, 0)
  else (0, if time_floor q <=? now then now else time_floor q).

(** The result code, the queue, the position and the token. *)
Definition db_queue_claim (c : ctx) (q : queue) (now duration : Z) : Z * queue * nat * Z :=
  if duration =? 0 then (CybouDB_E_VALUE, q, 0%nat, 0) else
  let '(rc, qnow) := lease_now c q now in
  if negb (rc =? 0) then (rc, q, 0%nat, 0) else
  match db_queue_scan_claimable c q qnow with
  | None => (CybouDB_E_NOTFOUND, q, 0%nat, 0)
  | Some pos =>
      match lease_find_slot q pos with
      | None => (CybouDB_E_VALUE, q, 0%nat, 0)
      | Some m =>
          if m_token m =? UINT64_MAX then (CybouDB_E_VALUE, q, 0%nat, 0) else
          let '(rc, q) := lease_edit_slot c q pos in
          if negb (rc =? 0) then (rc, q, 0%nat, 0) else
          let token := u64 (m_token m + 1) in
          let q := edit_slot q pos (fun m => mk_slot (m_state m) (m_until m) token (m_payload m)) in
          if UINT64_MAX <? qnow + duration then (CybouDB_E_VALUE, q, 0%nat, 0) else
          let q := edit_slot q pos (fun m =>
                     mk_slot QMSG_STATE_CLAIMED (qnow + duration) (m_token m) (m_payload m)) in
          let q := lease_seg_refresh c q pos in
          let q := queue_seg_seal q pos in
          let cursor := if (claim q <? S pos)%nat then S pos else claim q in
          let q := mk_queue (head q) (tail q) cursor (first_seg q) qnow (segs q) (q_sealed q) in
          (0, db_catalog_seal q, pos, token)
      end
  end.

(** The slot, writable, and the proof that the caller holds it. *)
Definition lease_hold (c : ctx) (q : queue) (pos : nat) (token : Z) : Z * queue :=
  if negb (db_leases c) then (CybouDB_E_STATE, q) else
  match lease_find_slot q pos with
  | None => (CybouDB_E_LEASE, q)
  | Some m =>
      if negb (m_state m =? QMSG_STATE_CLAIMED) then (CybouDB_E_LEASE, q)
      else if negb (m_token m =? token) then (CybouDB_E_LEASE, q)
      else lease_edit_slot c q pos
  end.

(** The run of finished messages from [pos]. *)
Fixpoint acked_run (q : queue) (n pos : nat) : nat :=
  match n with
  | O => pos
  | S n' =>
      match queue_slot_at q pos with
      | Some m => if m_state m =? QMSG_STATE_ACKED then acked_run q n' (S pos) else pos
      | None => pos
      end
  end.

(** The head moves over the finished run at the front and the segments left
    behind are retired. *)
Definition lease_advance_head (q : queue) : queue :=
  let h := acked_run q (tail q - head q) (head q) in
  if (h =? head q)%nat then q else
  let behind := if (h =? tail q)%nat then length (segs q) else (seg_of h - first_seg q)%nat in
  mk_queue h (tail q) (claim q) (seg_of h) (time_floor q) (drop behind (segs q)) (q_sealed q).

Definition db_queue_ack (c : ctx) (q : queue) (pos : nat) (token : Z) : Z * queue :=
  let '(rc, q) := lease_hold c q pos token in
  if negb (rc =? 0) then (rc, q) else
  let q := edit_slot q pos (fun m => mk_slot QMSG_STATE_ACKED 0 (m_token m) (m_payload m)) in
  let q := lease_seg_refresh c q pos in
  let q := queue_seg_seal q pos in
  let q := lease_advance_head q in
  (0, db_catalog_seal q).

Definition db_queue_nack (c : ctx) (q : queue) (pos : nat) (token : Z) : Z * queue :=
  match lease_find_slot q pos with
  | None => (CybouDB_E_LEASE, q)
  | Some m =>
      if m_token m =? UINT64_MAX then (CybouDB_E_VALUE, q) else
      let '(rc, q) := lease_hold c q pos token in
      if negb (rc =? 0) then (rc, q) else
      let q := edit_slot q pos (fun m => mk_slot QMSG_STATE_HELD 0 (u64 (m_token m + 1)) (m_payload m)) in
      let q := lease_seg_refresh c q pos in
      (0, db_catalog_seal (queue_seg_seal q pos))
  end.

Definition db_queue_renew (c : ctx) (q : queue) (pos : nat) (token now duration : Z) : Z * queue :=
  if duration =? 0 then (CybouDB_E_VALUE, q) else
  let '(rc, qnow) := lease_now c q now in
  if negb (rc =? 0) then (rc, q) else
  let '(rc, q) := lease_hold c q pos token in
  if negb (rc =? 0) then (rc, q) else
  if UINT64_MAX <? qnow + duration then (CybouDB_E_VALUE, q) else
  let q := edit_slot q pos (fun m => mk_slot (m_state m) (qnow + duration) (m_token m) (m_payload m)) in
  let q := lease_seg_refresh c q pos in
  let q := queue_seg_seal q pos in
  let q := mk_queue (head q) (tail q) (claim q) (first_seg q) qnow (segs q) (q_sealed q) in
  (0, db_catalog_seal q).

(** What the two kinds of page that name segments differ in. *)
Inductive cat_type := CAT_QUEUE | CAT_STREAM.

Definition S_MAX_SEGMENTS : nat := Z.to_nat 463.

Definition max_segments (t : cat_type) : nat :=
  match t with CAT_QUEUE => Q_MAX_SEGMENTS | CAT_STREAM => S_MAX_SEGMENTS end.

(** A message at the tail.  The cursor follows the head; a stream has none, and
    the field stays as the stamp left it. *)
Definition queue_push_common (t : cat_type) (c : ctx) (q : queue) (payload : string) : Z * queue :=
  if 2 ^ 32 <=? Z.of_nat (String.length payload) then (CybouDB_E_VALUE, q) else
  let pos := tail q in
  let first := if (length (segs q) =? 0)%nat then seg_of pos else first_seg q in
  let entry := (seg_of pos - first)%nat in
  let fresh := negb (entry <? length (segs q))%nat in
  if fresh && (max_segments t <=? entry)%nat then (CybouDB_E_FULL, q) else
  if negb (db_catalog_edit c =? 0) then (db_catalog_edit c, q) else
  if negb (db_page_copy c =? 0) then (db_page_copy c, unseal_page q) else
  let sgs := if fresh then segs q ++ [zero_segment] else segs q in
  let q := mk_queue (head q) (tail q) (claim q) first (time_floor q) sgs false in
  let q := edit_slot q pos (fun _ => mk_slot QMSG_STATE_HELD 0 0 payload) in
  let q := queue_seg_seal q pos in
  let cursor := match t with CAT_QUEUE => head q | CAT_STREAM => 0%nat end in
  (0, mk_queue (head q) (S pos) cursor (first_seg q) (time_floor q) (segs q) true).

Definition db_queue_push : ctx -> queue -> string -> Z * queue := queue_push_common CAT_QUEUE.

(** ** Validation *)

(** What a commit and an open check of a queue with leases. *)
Definition queue_page_valid (c : ctx) (q : queue) : bool :=
  (if db_leases c then ((head q <=? claim q) && (claim q <=? tail q))%nat
   else (head q =? claim q)%nat && (time_floor q =? 0)) &&
  (head q <=? tail q)%nat && (length (segs q) <=? Q_MAX_SEGMENTS)%nat &&
  (first_seg q =? seg_of (head q))%nat &&
  (if (head q =? tail q)%nat then (length (segs q) =? 0)%nat
   else (length (segs q) =? S (seg_of (pred (tail q)) - first_seg q))%nat) &&
  q_sealed q && forallb s_sealed (segs q) &&
  (db_leases c || forallb (fun sg => ready_at sg =? 0) (segs q)) &&
  lease_summaries_valid c q.

(** What the deep pass checks of a slot. *)
Definition slot_valid (m : slot) : bool :=
  if m_state m =? QMSG_STATE_HELD then m_until m =? 0
  else if m_state m =? QMSG_STATE_CLAIMED then negb (m_until m =? 0) && negb (m_token m =? 0)
  else (m_state m =? QMSG_STATE_ACKED) && (m_until m =? 0) && negb (m_token m =? 0).

(** ** Positions and pages *)

Lemma seg_slot_inj p p' : seg_of p = seg_of p' -> slot_in p = slot_in p' -> p = p'.
Proof. unfold seg_of, slot_in, SEG_SLOTS. lia. Qed.

Lemma seg_of_mono p p' : (p <= p')%nat -> (seg_of p <= seg_of p')%nat.
Proof. unfold seg_of, SEG_SLOTS. lia. Qed.

Lemma slot_in_lt p : (slot_in p < SEG_SLOTS)%nat.
Proof. unfold slot_in, SEG_SLOTS. lia. Qed.

(** What the directory promises: it names the segments of the live positions,
    each with its 62 slots. *)
Record shaped (q : queue) : Prop := {
  sh_order : (head q <= tail q)%nat;
  sh_first : first_seg q = seg_of (head q);
  sh_len : length (segs q) = if (head q =? tail q)%nat then 0%nat
           else S (seg_of (pred (tail q)) - first_seg q);
  sh_slots : Forall (fun sg => length (s_slots sg) = SEG_SLOTS) (segs q);
}.

Definition live (q : queue) (pos : nat) : Prop := (head q <= pos < tail q)%nat.

Lemma shaped_seg q pos : shaped q -> live q pos ->
  exists sg, seg_at q pos = Some sg /\ length (s_slots sg) = SEG_SLOTS.
Proof.
  intros [Ho Hf Hl Hs] [H1 H2]. unfold seg_at.
  pose proof (seg_of_mono _ _ H1). destruct (seg_of pos <? first_seg q)%nat eqn:E; bool_to_prop; [lia|].
  destruct (head q =? tail q)%nat eqn:E2; bool_to_prop; [lia|].
  assert (seg_of pos <= seg_of (pred (tail q)))%nat by (apply seg_of_mono; lia).
  destruct (lookup_lt_is_Some_2 (segs q) (seg_of pos - first_seg q)) as [sg Hsg]; [lia|].
  exists sg. split; [done|]. by apply (Forall_lookup_1 _ _ _ _ Hs Hsg).
Qed.

Lemma shaped_slot q pos : shaped q -> live q pos -> exists m, queue_slot_at q pos = Some m.
Proof.
  intros Hq Hp. destruct (shaped_seg q pos Hq Hp) as (sg & E & Hl). unfold queue_slot_at. rewrite E.
  apply lookup_lt_is_Some_2. rewrite Hl. apply slot_in_lt.
Qed.

Lemma find_slot_live q pos m : lease_find_slot q pos = Some m <-> live q pos /\ queue_slot_at q pos = Some m.
Proof.
  unfold lease_find_slot, live. destruct (_ || _)%nat eqn:E; split; try done.
  - intros [? _]. apply orb_true_iff in E as [E|E]; bool_to_prop; lia.
  - intros H. apply orb_false_iff in E as [E1 E2]. bool_to_prop. split; [lia|done].
  - by intros [_ ?].
Qed.

(** An edit of the segment of [pos] reaches the positions of that segment. *)
Lemma seg_at_edit q pos f p : (first_seg q <= seg_of pos)%nat ->
  seg_at (edit_seg q pos f) p = if (seg_of p =? seg_of pos)%nat then f <$> seg_at q p else seg_at q p.
Proof.
  intros Hp. unfold seg_at, edit_seg, set_segs. simpl.
  destruct (seg_of p <? first_seg q)%nat eqn:E; bool_to_prop.
  { destruct (_ =? _)%nat eqn:E2; bool_to_prop; [lia|done]. }
  destruct (seg_of p =? seg_of pos)%nat eqn:E2; bool_to_prop.
  - rewrite E2. apply list_lookup_alter_eq.
  - apply list_lookup_alter_ne. lia.
Qed.

Lemma slot_at_seal q pos p : (first_seg q <= seg_of pos)%nat ->
  queue_slot_at (queue_seg_seal q pos) p = queue_slot_at q p.
Proof.
  intros Hp. unfold queue_slot_at, queue_seg_seal. rewrite seg_at_edit by done.
  destruct (_ =? _)%nat; [|done]. by destruct (seg_at q p).
Qed.

Lemma slot_at_unseal q pos p : (first_seg q <= seg_of pos)%nat ->
  queue_slot_at (unseal_seg q pos) p = queue_slot_at q p.
Proof.
  intros Hp. unfold queue_slot_at, unseal_seg. rewrite seg_at_edit by done.
  destruct (_ =? _)%nat; [|done]. by destruct (seg_at q p).
Qed.

Lemma slot_at_refresh c q pos p : (first_seg q <= seg_of pos)%nat ->
  queue_slot_at (lease_seg_refresh c q pos) p = queue_slot_at q p.
Proof.
  intros Hp. unfold lease_seg_refresh. destruct (negb (db_leases c)); [done|].
  unfold queue_slot_at. rewrite seg_at_edit by done.
  destruct (_ =? _)%nat; [|done]. by destruct (seg_at q p).
Qed.

Lemma slot_at_edit q pos f p : (first_seg q <= seg_of pos)%nat ->
  queue_slot_at (edit_slot q pos f) p =
    if (p =? pos)%nat then f <$> queue_slot_at q p else queue_slot_at q p.
Proof.
  intros Hp. unfold queue_slot_at, edit_slot. rewrite seg_at_edit by done.
  destruct (seg_of p =? seg_of pos)%nat eqn:E; bool_to_prop.
  - destruct (p =? pos)%nat eqn:E2; bool_to_prop.
    + subst p. destruct (seg_at q pos); [|done]. simpl. apply list_lookup_alter_eq.
    + destruct (seg_at q p); [|done]. simpl. apply list_lookup_alter_ne.
      intros E3. by apply E2, seg_slot_inj.
  - destruct (p =? pos)%nat eqn:E2; bool_to_prop; [by subst|done].
Qed.

(** Rewriting one slot, refreshing the summary of its segment and sealing it:
    what every operation does to a segment page. *)
Definition touched (c : ctx) (q : queue) (pos : nat) (f : slot -> slot) : queue :=
  queue_seg_seal (lease_seg_refresh c (edit_slot q pos f) pos) pos.

Lemma first_refresh c q pos : first_seg (lease_seg_refresh c q pos) = first_seg q.
Proof. unfold lease_seg_refresh. by destruct (negb (db_leases c)). Qed.

Lemma slot_at_touched c q pos f p : (first_seg q <= seg_of pos)%nat ->
  queue_slot_at (touched c q pos f) p =
    if (p =? pos)%nat then f <$> queue_slot_at q p else queue_slot_at q p.
Proof.
  intros Hp. unfold touched. rewrite slot_at_seal by (by rewrite first_refresh).
  rewrite slot_at_refresh by done. by apply slot_at_edit.
Qed.

Lemma shaped_edit_seg q pos f : shaped q -> (forall sg, length (s_slots (f sg)) = length (s_slots sg)) ->
  shaped (edit_seg q pos f).
Proof.
  intros [Ho Hf Hl Hs] Hlen. constructor; simpl; try done.
  - by rewrite length_alter.
  - apply Forall_alter; [done|]. intros sg _ E. by rewrite Hlen.
Qed.

Lemma shaped_edit_slot q pos f : shaped q -> shaped (edit_slot q pos f).
Proof. intros Hq. apply shaped_edit_seg; [done|]. intros sg. simpl. by rewrite length_alter. Qed.

Lemma shaped_touched c q pos f : shaped q -> shaped (touched c q pos f).
Proof.
  intros Hq. unfold touched, queue_seg_seal, lease_seg_refresh.
  destruct (negb (db_leases c)); repeat (apply shaped_edit_seg; [|done]); by apply shaped_edit_slot.
Qed.

Lemma touched_fields c q pos f : let q' := touched c q pos f in
  head q' = head q /\ tail q' = tail q /\ claim q' = claim q /\ first_seg q' = first_seg q /\
  time_floor q' = time_floor q /\ q_sealed q' = q_sealed q.
Proof. unfold touched, lease_seg_refresh. by destruct (negb (db_leases c)). Qed.

(** ** What a successful operation did *)

(** The pages of [pos] made writable. *)
Definition writable (q : queue) (pos : nat) : queue := unseal_seg (unseal_page q) pos.

Lemma edit_slot_ok c q pos q' : lease_edit_slot c q pos = (0, q') -> live q pos /\ q' = writable q pos.
Proof.
  unfold lease_edit_slot. destruct (db_catalog_edit c =? 0) eqn:E; cbn [negb]; bool_to_prop.
  2: { intros [= ? ?]. congruence. }
  destruct (lease_find_slot _ pos) as [m|] eqn:Em; [|intros [=]].
  apply find_slot_live in Em as [Hl _]. destruct (db_page_copy c =? 0) eqn:E2; cbn [negb]; bool_to_prop.
  - intros [= <-]. done.
  - intros [= ? ?]. congruence.
Qed.

Lemma hold_ok c q pos token q' : lease_hold c q pos token = (0, q') ->
  live q pos /\ db_leases c = true /\ q' = writable q pos /\
  exists m, queue_slot_at q pos = Some m /\ m_state m = QMSG_STATE_CLAIMED /\ m_token m = token.
Proof.
  unfold lease_hold. destruct (db_leases c) eqn:El; cbn [negb]; [|intros [=]].
  destruct (lease_find_slot q pos) as [m|] eqn:Em; [|intros [=]]. apply find_slot_live in Em as [Hl Em].
  destruct (m_state m =? _) eqn:E1; cbn [negb]; [|intros [=]].
  destruct (m_token m =? token) eqn:E2; cbn [negb]; [|intros [=]]. bool_to_prop.
  intros [_ ->]%edit_slot_ok. repeat split; try apply Hl. by exists m.
Qed.

Lemma edit_slot_twice q pos f g : edit_slot (edit_slot q pos f) pos g = edit_slot q pos (fun m => g (f m)).
Proof.
  unfold edit_slot, edit_seg, set_segs. simpl. f_equal. rewrite list_alter_alter_eq.
  apply list_alter_ext; [|done]. intros sg _. unfold compose. simpl.
  by rewrite list_alter_alter_eq.
Qed.

(** The fields an operation leaves and the slot it changes. *)
Definition with_cursor (q : queue) (cursor : nat) (floor : Z) : queue :=
  mk_queue (head q) (tail q) cursor (first_seg q) floor (segs q) true.

Definition take_lease (until token : Z) (m : slot) : slot :=
  mk_slot QMSG_STATE_CLAIMED until token (m_payload m).
Definition finish (m : slot) : slot := mk_slot QMSG_STATE_ACKED 0 (m_token m) (m_payload m).
Definition give_back (m : slot) : slot :=
  mk_slot QMSG_STATE_HELD 0 (u64 (m_token m + 1)) (m_payload m).
Definition extend (until : Z) (m : slot) : slot := mk_slot (m_state m) until (m_token m) (m_payload m).

Definition q_now (q : queue) (now : Z) : Z := if time_floor q <=? now then now else time_floor q.

Lemma claim_ok c q now duration q' pos t : db_queue_claim c q now duration = (0, q', pos, t) ->
  db_leases c = true /\ db_queue_scan_claimable c q (q_now q now) = Some pos /\ live q pos /\
  q_now q now + duration <= UINT64_MAX /\
  exists m, queue_slot_at q pos = Some m /\ m_token m <> UINT64_MAX /\ t = u64 (m_token m + 1) /\
    q' = with_cursor (touched c (writable q pos) pos (take_lease (q_now q now + duration) t))
           (Nat.max (S pos) (claim q)) (q_now q now).
Proof.
  unfold db_queue_claim. destruct (duration =? 0); [by intros [=]|].
  unfold lease_now. destruct (db_leases c) eqn:El; cbn [negb Z.eqb]; [|by intros [=]].
  fold (q_now q now). destruct (db_queue_scan_claimable c q _) as [p|] eqn:Es; [|by intros [=]].
  destruct (lease_find_slot q p) as [m|] eqn:Em; [|by intros [=]]. apply find_slot_live in Em as [Hl Em].
  destruct (m_token m =? UINT64_MAX) eqn:Et; [by intros [=]|].
  destruct (lease_edit_slot c q p) as [rc q1] eqn:Ee. destruct (rc =? 0) eqn:Er; cbn [negb]; bool_to_prop.
  2: { intros [= ? ? ? ?]. congruence. }
  subst rc. apply edit_slot_ok in Ee as [_ ->].
  destruct (UINT64_MAX <? q_now q now + duration) eqn:Eo; [by intros [=]|]. bool_to_prop.
  rewrite edit_slot_twice. cbn [m_token m_payload].
  intros E. injection E as E1 E2 E3. subst p t. split; [done|]. split; [done|]. split; [done|]. split; [done|].
  exists m. split; [done|]. split; [done|]. split; [done|]. rewrite <- E1.
  unfold with_cursor, db_catalog_seal, touched, lease_seg_refresh. rewrite El. simpl.
  f_equal. destruct (claim q <? S pos)%nat eqn:Ec; bool_to_prop; lia.
Qed.

Lemma ack_ok c q pos token q' : db_queue_ack c q pos token = (0, q') ->
  live q pos /\ db_leases c = true /\
  (exists m, queue_slot_at q pos = Some m /\ m_state m = QMSG_STATE_CLAIMED /\ m_token m = token) /\
  q' = db_catalog_seal (lease_advance_head (touched c (writable q pos) pos finish)).
Proof.
  unfold db_queue_ack. destruct (lease_hold c q pos token) as [rc q1] eqn:Eh.
  destruct (rc =? 0) eqn:Er; cbn [negb]; bool_to_prop.
  2: { intros [= ? ?]. congruence. }
  subst rc. apply hold_ok in Eh as (Hl & Hd & -> & Hm). intros E. injection E as E. by subst.
Qed.

Lemma nack_ok c q pos token q' : db_queue_nack c q pos token = (0, q') ->
  live q pos /\ db_leases c = true /\ token <> UINT64_MAX /\
  (exists m, queue_slot_at q pos = Some m /\ m_state m = QMSG_STATE_CLAIMED /\ m_token m = token) /\
  q' = db_catalog_seal (touched c (writable q pos) pos give_back).
Proof.
  unfold db_queue_nack. destruct (lease_find_slot q pos) as [m|] eqn:Em; [|by intros [=]].
  apply find_slot_live in Em as [Hl Em].
  destruct (m_token m =? UINT64_MAX) eqn:Et; [by intros [=]|]. bool_to_prop.
  destruct (lease_hold c q pos token) as [rc q1] eqn:Eh.
  destruct (rc =? 0) eqn:Er; cbn [negb]; bool_to_prop.
  2: { intros [= ? ?]. congruence. }
  subst rc. apply hold_ok in Eh as (_ & Hd & -> & (m' & Em' & Hs & Ht)). simplify_eq.
  intros E. injection E as E. subst. repeat split; try done; try apply Hl. by eexists.
Qed.

Lemma renew_ok c q pos token now duration q' : db_queue_renew c q pos token now duration = (0, q') ->
  live q pos /\ db_leases c = true /\ q_now q now + duration <= UINT64_MAX /\
  (exists m, queue_slot_at q pos = Some m /\ m_state m = QMSG_STATE_CLAIMED /\ m_token m = token) /\
  q' = with_cursor (touched c (writable q pos) pos (extend (q_now q now + duration)))
         (claim q) (q_now q now).
Proof.
  unfold db_queue_renew. destruct (duration =? 0); [by intros [=]|].
  unfold lease_now. destruct (db_leases c) eqn:El; cbn [negb Z.eqb]; [|by intros [=]].
  fold (q_now q now). destruct (lease_hold c q pos token) as [rc q1] eqn:Eh.
  destruct (rc =? 0) eqn:Er; cbn [negb]; bool_to_prop.
  2: { intros [= ? ?]. congruence. }
  subst rc. apply hold_ok in Eh as (Hl & _ & -> & Hm).
  destruct (UINT64_MAX <? q_now q now + duration) eqn:Eo; [by intros [=]|]. bool_to_prop.
  intros E. injection E as E. subst q'. repeat split; try done; try apply Hl.
  unfold with_cursor, db_catalog_seal, touched, lease_seg_refresh. by rewrite El.
Qed.

(** The view of an operation's result, through the pages it made writable. *)
Lemma slot_at_writable q pos p : shaped q -> live q pos ->
  queue_slot_at (writable q pos) p = queue_slot_at q p.
Proof.
  intros Hq Hl. unfold writable. rewrite slot_at_unseal; [done|].
  destruct Hq as [_ Hf _ _]. simpl. rewrite Hf. apply seg_of_mono, Hl.
Qed.

Lemma shaped_writable q pos : shaped q -> shaped (writable q pos).
Proof. intros Hq. apply shaped_edit_seg; [|done]. by destruct Hq; constructor. Qed.

Lemma slot_at_op c q pos f p : shaped q -> live q pos ->
  queue_slot_at (touched c (writable q pos) pos f) p =
    if (p =? pos)%nat then f <$> queue_slot_at q p else queue_slot_at q p.
Proof.
  intros Hq Hl. rewrite slot_at_touched.
  - by rewrite slot_at_writable.
  - destruct Hq as [_ Hf _ _]. simpl. rewrite Hf. apply seg_of_mono, Hl.
Qed.

Lemma op_fields c q pos f : let q' := touched c (writable q pos) pos f in
  head q' = head q /\ tail q' = tail q /\ claim q' = claim q /\ first_seg q' = first_seg q /\
  time_floor q' = time_floor q.
Proof. unfold touched, lease_seg_refresh. by destruct (negb (db_leases c)). Qed.

Lemma shaped_op c q pos f cursor floor : shaped q ->
  shaped (with_cursor (touched c (writable q pos) pos f) cursor floor).
Proof.
  intros Hq. assert (H : shaped (touched c (writable q pos) pos f)) by (by apply shaped_touched, shaped_writable).
  by destruct H; constructor.
Qed.

Lemma op_view c q pos f cursor floor : shaped q -> live q pos ->
  let q' := with_cursor (touched c (writable q pos) pos f) cursor floor in
  shaped q' /\ tail q' = tail q /\ (head q <= head q')%nat /\
  forall p, live q' p -> queue_slot_at q' p = if (p =? pos)%nat then f <$> queue_slot_at q p else queue_slot_at q p.
Proof.
  intros Hq Hl. destruct (op_fields c q pos f) as (E1 & E2 & _).
  split; [by apply shaped_op|]. cbn [with_cursor head tail]. rewrite E1, E2. split; [done|]. split; [done|].
  intros p _. by apply (slot_at_op c q pos f p).
Qed.

(** ** The advance of the head *)

Lemma acked_run_range q n pos : (pos <= acked_run q n pos <= pos + n)%nat.
Proof.
  revert pos. induction n as [|n IH]; intros pos; cbn [acked_run]; [lia|].
  destruct (queue_slot_at q pos) as [m|]; [|lia]. destruct (_ =? _); [|lia]. specialize (IH (S pos)). lia.
Qed.

Lemma acked_run_passed q n pos p : (pos <= p < acked_run q n pos)%nat ->
  exists m, queue_slot_at q p = Some m /\ m_state m = QMSG_STATE_ACKED.
Proof.
  revert pos. induction n as [|n IH]; intros pos; cbn [acked_run]; [lia|].
  destruct (queue_slot_at q pos) as [m|] eqn:E; [|lia]. destruct (_ =? _) eqn:Es; [|lia]. bool_to_prop.
  intros Hp. destruct (decide (p = pos)) as [->|]; [by exists m|]. apply (IH (S pos)). lia.
Qed.

(** It stops at the first message that is not finished. *)
Lemma acked_run_stops q n pos m : (acked_run q n pos < pos + n)%nat ->
  queue_slot_at q (acked_run q n pos) = Some m -> m_state m <> QMSG_STATE_ACKED.
Proof.
  revert pos. induction n as [|n IH]; intros pos; cbn [acked_run]; [lia|].
  destruct (queue_slot_at q pos) as [m'|] eqn:E; [|by rewrite E].
  destruct (_ =? _) eqn:Es; bool_to_prop; [|by rewrite E; intros _ [= <-]].
  intros Hl. apply (IH (S pos)). lia.
Qed.

Definition new_head (q : queue) : nat := acked_run q (tail q - head q) (head q).

(** The low end moved to [h]: the segments wholly behind it leave the
    directory, all of them when nothing is left. *)
Definition move_head (q : queue) (h : nat) : queue :=
  let behind := if (h =? tail q)%nat then length (segs q) else (seg_of h - first_seg q)%nat in
  mk_queue h (tail q) (claim q) (seg_of h) (time_floor q) (drop behind (segs q)) (q_sealed q).

Lemma shaped_move q h : shaped q -> (head q <= h <= tail q)%nat -> shaped (move_head q h).
Proof.
  intros [Ho Hf Hl Hs] Hh. constructor; cbn.
  - lia.
  - done.
  - rewrite length_drop, Hl.
    pose proof (seg_of_mono (head q) h). pose proof (seg_of_mono h (pred (tail q))).
    destruct (head q =? tail q)%nat eqn:E2; destruct (h =? tail q)%nat eqn:E3; bool_to_prop; lia.
  - by apply Forall_drop.
Qed.

Lemma seg_at_move q h p : shaped q -> (head q <= h)%nat -> (h <= p < tail q)%nat ->
  seg_at (move_head q h) p = seg_at q p.
Proof.
  intros [Ho Hf Hl Hs] Hh Hp. unfold seg_at, move_head. cbn [first_seg segs].
  pose proof (seg_of_mono (head q) h). pose proof (seg_of_mono h p).
  destruct (seg_of p <? seg_of h)%nat eqn:E1; destruct (seg_of p <? first_seg q)%nat eqn:E2;
    bool_to_prop; try lia.
  destruct (h =? tail q)%nat eqn:E3; bool_to_prop; [lia|].
  rewrite lookup_drop. f_equal. lia.
Qed.

Lemma slot_at_move q h p : shaped q -> (head q <= h)%nat -> (h <= p < tail q)%nat ->
  queue_slot_at (move_head q h) p = queue_slot_at q p.
Proof. intros. unfold queue_slot_at. by rewrite seg_at_move. Qed.

Lemma advance_move q : shaped q ->
  lease_advance_head q = q /\ new_head q = head q \/
  lease_advance_head q = move_head q (new_head q) /\ (head q < new_head q <= tail q)%nat.
Proof.
  intros Hq. unfold lease_advance_head. fold (new_head q).
  pose proof (acked_run_range q (tail q - head q) (head q)) as Hr. fold (new_head q) in Hr.
  destruct (new_head q =? head q)%nat eqn:E; bool_to_prop; [by left|right].
  split; [done|]. destruct Hq. lia.
Qed.

Lemma advance_head q : shaped q -> let q' := lease_advance_head q in
  head q' = new_head q /\ tail q' = tail q /\ claim q' = claim q /\ q_sealed q' = q_sealed q /\
  shaped q' /\ exists k, segs q' = drop k (segs q).
Proof.
  intros Hq. destruct (advance_move q Hq) as [[-> E]|[-> Hr]]; cbn zeta.
  - rewrite E. do 4 (split; [done|]). split; [done|]. by exists 0%nat.
  - do 4 (split; [done|]). split; [apply shaped_move; [done|lia]|]. by eexists.
Qed.

Lemma seg_at_advance q p : shaped q -> (new_head q <= p < tail q)%nat ->
  seg_at (lease_advance_head q) p = seg_at q p.
Proof.
  intros Hq Hp. destruct (advance_move q Hq) as [[-> E]|[-> Hr]]; [done|]. by apply seg_at_move; [|lia|].
Qed.

Lemma slot_at_advance q p : shaped q -> (new_head q <= p < tail q)%nat ->
  queue_slot_at (lease_advance_head q) p = queue_slot_at q p.
Proof. intros. unfold queue_slot_at. by rewrite seg_at_advance. Qed.

(** ** Summaries that hide nothing *)

(** When a message can next be claimed. *)
Definition due (m : slot) : Z :=
  if m_state m =? QMSG_STATE_HELD then 0
  else if m_state m =? QMSG_STATE_CLAIMED then m_until m else UINT64_MAX.

Definition in_range (m : slot) : Prop := 0 <= m_until m <= UINT64_MAX /\ 0 <= m_token m <= UINT64_MAX.

Lemma due_range m : in_range m -> 0 <= due m <= UINT64_MAX.
Proof. intros [H _]. unfold due. repeat destruct (_ =? _); unfold UINT64_MAX in *; lia. Qed.

Lemma claimable_due now m : 0 <= now -> claimable now m = true -> due m <= now.
Proof.
  unfold claimable, due. intros H0. destruct (m_state m =? QMSG_STATE_HELD); [lia|]. simpl.
  destruct (m_state m =? QMSG_STATE_CLAIMED); simpl; [lia|done].
Qed.

Lemma least_deadline_spec q n pos best v :
  (forall p m, (pos <= p < pos + n)%nat -> queue_slot_at q p = Some m -> in_range m) ->
  0 <= best <= UINT64_MAX ->
  v <= least_deadline q n pos best <->
  v <= best /\ forall p m, (pos <= p < pos + n)%nat -> queue_slot_at q p = Some m -> v <= due m.
Proof.
  revert pos best. induction n as [|n IH]; intros pos best Hr Hb; cbn [least_deadline].
  { split; [|by intros [? _]]. intros H. split; [done|]. intros p m Hp. lia. }
  destruct (queue_slot_at q pos) as [m|] eqn:Em.
  2: { rewrite IH; [|intros; eapply Hr; [|done]; lia|done]. split; intros [H1 H2]; (split; [done|]); intros p m' Hp E.
       - apply (H2 p); [|done]. destruct (decide (p = pos)); [congruence|lia].
       - apply (H2 p); [lia|done]. }
  assert (Hm : in_range m) by (apply (Hr pos); [lia|done]).
  assert (Hrest : forall b, 0 <= b <= UINT64_MAX -> v <= least_deadline q n (S pos) b <->
    v <= b /\ forall p m', (S pos <= p < S pos + n)%nat -> queue_slot_at q p = Some m' -> v <= due m').
  { intros b ?. apply IH; [|done]. intros p m' Hp E. apply (Hr p); [lia|done]. }
  assert (Hsplit : (forall p m', (pos <= p < pos + S n)%nat -> queue_slot_at q p = Some m' -> v <= due m') <->
    v <= due m /\ forall p m', (S pos <= p < S pos + n)%nat -> queue_slot_at q p = Some m' -> v <= due m').
  { split.
    - intros H. split; [apply (H pos); [lia|done]|]. intros p m' Hp E. apply (H p); [lia|done].
    - intros [H1 H2] p m' Hp E. destruct (decide (p = pos)) as [->|]; [congruence|]. apply (H2 p); [lia|done]. }
  rewrite Hsplit. unfold due at 1.
  destruct (m_state m =? QMSG_STATE_HELD) eqn:E1.
  { split; [|tauto]. intros Hv. split; [lia|]. split; [done|]. intros p m' Hp E.
    pose proof (due_range m' ltac:(apply (Hr p); [lia|done])). lia. }
  destruct (m_state m =? QMSG_STATE_CLAIMED) eqn:E2; cbn [negb]; destruct Hm as [Hu _]; rewrite Hrest by
    (try destruct (_ <? _); lia).
  - destruct (m_until m <? best) eqn:E3; bool_to_prop; intuition lia.
  - intuition lia.
Qed.

Lemma seg_of_range p seg : seg_of p = seg <-> (seg * SEG_SLOTS <= p < seg * SEG_SLOTS + SEG_SLOTS)%nat.
Proof. unfold seg_of, SEG_SLOTS. lia. Qed.

Definition slots_in_range (q : queue) : Prop :=
  forall p m, live q p -> queue_slot_at q p = Some m -> in_range m.

(** A segment's summary is the earliest any of its live messages is due. *)
Lemma seg_summary_spec q seg v : slots_in_range q ->
  v <= seg_summary q seg <->
  v <= UINT64_MAX /\
  forall p m, live q p -> seg_of p = seg -> queue_slot_at q p = Some m -> v <= due m.
Proof.
  intros Hr. unfold seg_summary. rewrite least_deadline_spec.
  - split; intros [H1 H2]; (split; [done|]).
    + intros p m [Hp1 Hp2] Hs%seg_of_range E. apply (H2 p); [lia|done].
    + intros p m Hp E. apply (H2 p m); [|apply seg_of_range|done]; unfold live; lia.
  - intros p m Hp E. apply (Hr p m); [unfold live; lia|done].
  - unfold UINT64_MAX. lia.
Qed.

(** What the search relies on. *)
Definition summaries_ok (q : queue) : Prop :=
  (forall i sg, segs q !! i = Some sg -> ready_at sg <= UINT64_MAX) /\
  forall p sg m, live q p -> seg_at q p = Some sg -> queue_slot_at q p = Some m -> ready_at sg <= due m.

Lemma summaries_valid_spec c q : db_leases c = true -> shaped q -> slots_in_range q ->
  lease_summaries_valid c q = true <-> summaries_ok q.
Proof.
  intros Hc Hq Hr. unfold lease_summaries_valid. rewrite Hc. cbn [negb orb]. rewrite forallb_forall.
  split.
  - intros H.
    assert (Hi : forall i sg, segs q !! i = Some sg -> ready_at sg <= seg_summary q (i + first_seg q)%nat).
    { intros i sg E. apply Z.leb_le, (H (i, sg)), list_elem_of_In, elem_of_lookup_imap. by exists i, sg. }
    split.
    + intros i sg E. by apply (seg_summary_spec q (i + first_seg q)%nat), Hi.
    + intros p sg m Hp Hs Em. unfold seg_at in Hs. destruct (_ <? _)%nat eqn:E; [done|]. bool_to_prop.
      apply Hi, seg_summary_spec in Hs as [_ Hs]; [|done]. apply (Hs p); [done|lia|done].
  - intros [H1 H2] [i sg] (i' & sg' & [= <- <-] & E)%list_elem_of_In%elem_of_lookup_imap.
    apply Z.leb_le, seg_summary_spec; [done|]. split; [by apply (H1 i)|].
    intros p m Hp Hs Em. apply (H2 p); [done| |done]. unfold seg_at.
    destruct (_ <? _)%nat eqn:E2; bool_to_prop; [lia|]. rewrite <- E. f_equal. lia.
Qed.

(** An operation leaves summaries that hide nothing. *)
Lemma summaries_touched c q pos f : db_leases c = true -> shaped q -> live q pos ->
  slots_in_range (edit_slot q pos f) -> summaries_ok q -> summaries_ok (touched c q pos f).
Proof.
  intros Hc Hq Hl Hr [H1 H2].
  assert (Hf : (first_seg q <= seg_of pos)%nat) by (rewrite (sh_first _ Hq); apply seg_of_mono, Hl).
  assert (Hbest : forall v, v <= seg_summary (edit_slot q pos f) (seg_of pos) -> v <= UINT64_MAX /\
    forall p m, live q p -> seg_of p = seg_of pos -> queue_slot_at (touched c q pos f) p = Some m -> v <= due m).
  { intros v Hv. apply seg_summary_spec in Hv as [Hv1 Hv2]; [|done]. split; [done|].
    intros p m Hp Hs E. apply (Hv2 p m); try done. rewrite slot_at_touched in E by done. by rewrite slot_at_edit. }
  assert (Hview := fun p => slot_at_touched c q pos f p Hf).
  unfold touched, lease_seg_refresh, queue_seg_seal in *. rewrite Hc in *. cbn [negb] in *.
  set (best := seg_summary _ _) in *. destruct (Hbest best ltac:(lia)) as [Hb1 Hb2].
  split.
  - intros i sg E. unfold edit_slot, edit_seg, set_segs in E. simpl in E. rewrite !list_alter_alter_eq in E.
    destruct (decide (i = seg_of pos - first_seg q)%nat) as [->|Hi].
    + rewrite list_lookup_alter_eq in E. apply fmap_Some in E as (sg' & E & ->). done.
    + rewrite list_lookup_alter_ne in E by done. by apply (H1 i).
  - intros p sg m Hp Hs Em. unfold edit_slot in Hs. rewrite !seg_at_edit in Hs by done.
    destruct (seg_of p =? seg_of pos)%nat eqn:E; bool_to_prop.
    + destruct (seg_at q p) as [sg'|]; [|done]. simpl in Hs. injection Hs as <-. by apply (Hb2 p m).
    + rewrite Hview in Em. destruct (p =? pos)%nat eqn:E2; bool_to_prop; [by subst|]. by apply (H2 p).
Qed.

(** ** The invariant *)

(** What every commit checks, the shape of every live message (the deep pass),
    and that nothing past the cursor has been handed out. *)
Record accepted (c : ctx) (q : queue) : Prop := {
  a_leases : db_leases c = true;
  a_valid : queue_page_valid c q = true;
  a_slots : Forall (fun sg => length (s_slots sg) = SEG_SLOTS) (segs q);
  a_range : slots_in_range q;
  a_deep : forall p m, live q p -> queue_slot_at q p = Some m -> slot_valid m = true;
  a_fresh : forall p m, (claim q <= p < tail q)%nat -> queue_slot_at q p = Some m ->
            m_state m = QMSG_STATE_HELD;
  a_floor : 0 <= time_floor q;
}.

(** The same, with the validator's checks as propositions. *)
Record good (c : ctx) (q : queue) : Prop := {
  g_leases : db_leases c = true;
  g_shape : shaped q;
  g_cursor : (head q <= claim q <= tail q)%nat;
  g_max : (length (segs q) <= Q_MAX_SEGMENTS)%nat;
  g_page : q_sealed q = true;
  g_sealed : Forall (fun sg => s_sealed sg = true) (segs q);
  g_ready : summaries_ok q;
  g_range : slots_in_range q;
  g_deep : forall p m, live q p -> queue_slot_at q p = Some m -> slot_valid m = true;
  g_fresh : forall p m, (claim q <= p < tail q)%nat -> queue_slot_at q p = Some m ->
            m_state m = QMSG_STATE_HELD;
  g_floor : 0 <= time_floor q;
}.

Lemma accepted_good c q : accepted c q <-> good c q.
Proof.
  split.
  - intros [Hc Hv Hs Hr Hd Hf Ht]. unfold queue_page_valid in Hv. rewrite Hc in Hv.
    rewrite !andb_true_iff in Hv. destruct Hv as ((((((((Hcur & Ho) & Hm) & Hfs) & Hl) & Hp) & Hse) & _) & Hsum).
    destruct Hcur as [Hc1 Hc2]. bool_to_prop.
    assert (Hq : shaped q).
    { constructor; try done. destruct (head q =? tail q)%nat; by bool_to_prop. }
    constructor; try done; [|by apply (summaries_valid_spec c)].
    apply Forall_forall. intros sg Hsg. rewrite forallb_forall in Hse. by apply Hse.
  - intros [Hc Hq Hcur Hm Hp Hse Hsum Hr Hd Hf Ht]. constructor; try done; [|apply Hq].
    assert (Hs' : lease_summaries_valid c q = true) by (by apply (summaries_valid_spec c q Hc Hq Hr)).
    unfold queue_page_valid. rewrite Hc. destruct Hq as [Ho Hfs Hl Hsl].
    rewrite Hs', Hp. assert (Hb : forallb s_sealed (segs q) = true).
    { apply forallb_forall. intros sg Hsg. by rewrite Forall_forall in Hse; apply Hse. }
    rewrite Hb. rewrite !andb_true_iff, !Nat.leb_le, Nat.eqb_eq. repeat split; try lia; try done.
    destruct (head q =? tail q)%nat; by apply Nat.eqb_eq.
Qed.

Lemma summaries_writable q pos : shaped q -> live q pos -> summaries_ok q -> summaries_ok (writable q pos).
Proof.
  intros Hq Hl [H1 H2]. assert (Hv := fun p => slot_at_writable q pos p Hq Hl).
  assert (Hf : (first_seg q <= seg_of pos)%nat) by (rewrite (sh_first _ Hq); apply seg_of_mono, Hl).
  split.
  - intros i sg E. unfold writable, unseal_seg, edit_seg, set_segs in E. simpl in E.
    destruct (decide (i = seg_of pos - first_seg q)%nat) as [->|Hi].
    + rewrite list_lookup_alter_eq in E. apply fmap_Some in E as (sg' & E & ->). by apply (H1 _ _ E).
    + rewrite list_lookup_alter_ne in E by done. by apply (H1 i).
  - intros p sg m Hp Hs Em. rewrite Hv in Em. unfold writable, unseal_seg in Hs. rewrite seg_at_edit in Hs by done.
    change (seg_at (unseal_page q) p) with (seg_at q p) in Hs.
    destruct (_ =? _)%nat; [|by apply (H2 p)].
    destruct (seg_at q p) as [sg'|] eqn:E; [|done]. injection Hs as <-. by apply (H2 p sg').
Qed.

Lemma sealed_op c q pos f : Forall (fun sg => s_sealed sg = true) (segs q) ->
  Forall (fun sg => s_sealed sg = true) (segs (touched c (writable q pos) pos f)).
Proof.
  intros H. unfold touched, lease_seg_refresh, queue_seg_seal, writable, unseal_seg, edit_slot, edit_seg, set_segs.
  destruct (negb (db_leases c)); simpl; rewrite !list_alter_alter_eq; by apply Forall_alter.
Qed.

Lemma length_op c q pos f : length (segs (touched c (writable q pos) pos f)) = length (segs q).
Proof.
  unfold touched, lease_seg_refresh, queue_seg_seal, writable, unseal_seg, edit_slot, edit_seg, set_segs.
  destruct (negb (db_leases c)); simpl; by rewrite !length_alter.
Qed.

(** Rewriting one message well keeps everything but the cursor. *)
Lemma good_op c q pos f m : good c q -> live q pos -> queue_slot_at q pos = Some m ->
  in_range (f m) -> slot_valid (f m) = true ->
  let q' := touched c (writable q pos) pos f in
  shaped q' /\ (length (segs q') <= Q_MAX_SEGMENTS)%nat /\
  Forall (fun sg => s_sealed sg = true) (segs q') /\ summaries_ok q' /\ slots_in_range q' /\
  forall p m, live q' p -> queue_slot_at q' p = Some m -> slot_valid m = true.
Proof.
  intros G Hl Em Hf1 Hf2. destruct (op_fields c q pos f) as (E1 & E2 & E3 & E4 & E5).
  assert (Hall : forall p m', live q p ->
    queue_slot_at (touched c (writable q pos) pos f) p = Some m' -> in_range m' /\ slot_valid m' = true).
  { intros p m' Hp E. rewrite slot_at_op in E by (apply G || done).
    destruct (p =? pos)%nat eqn:Ep; bool_to_prop.
    - subst p. rewrite Em in E. injection E as <-. done.
    - split; [by apply (g_range _ _ G p)|by apply (g_deep _ _ G p)]. }
  assert (Hlive : forall p, live (touched c (writable q pos) pos f) p <-> live q p)
    by (intros p; unfold live; rewrite E1, E2; done).
  assert (Hr : slots_in_range (edit_slot (writable q pos) pos f)).
  { intros p m' Hp E. apply (Hall p); [done|]. unfold touched. rewrite slot_at_seal, slot_at_refresh; [done|..];
      rewrite ?first_refresh; simpl; rewrite (sh_first _ (g_shape _ _ G)); apply seg_of_mono, Hl. }
  split; [by apply shaped_touched, shaped_writable, G|]. split; [rewrite length_op; apply G|].
  split; [apply sealed_op, G|]. split.
  { apply summaries_touched; [apply G|by apply shaped_writable, G|done|done|].
    by apply summaries_writable; try apply G. }
  split; intros p m' Hp%Hlive E; by apply (Hall p).
Qed.

Lemma u64_succ t : 0 <= t <= UINT64_MAX -> t <> UINT64_MAX -> u64 (t + 1) = t + 1.
Proof. unfold UINT64_MAX. intros. apply u64_small. lia. Qed.

Lemma claim_good c q now duration q' pos t : good c q -> 0 <= now -> 0 <= duration ->
  db_queue_claim c q now duration = (0, q', pos, t) -> duration <> 0 -> good c q'.
Proof.
  intros G Hn Hd (Hc & _ & Hl & Ho & m & Em & Ht & -> & ->)%claim_ok Hd0.
  assert (Hnow : 0 <= q_now q now) by (unfold q_now; destruct (_ <=? _); [lia|apply G]).
  destruct (g_range _ _ G pos m Hl Em) as [_ Hmt]. rewrite u64_succ by done.
  set (f := take_lease (q_now q now + duration) (m_token m + 1)).
  destruct (op_fields c q pos f) as (E1 & E2 & E3 & E4 & E5).
  destruct (good_op c q pos f m G Hl Em) as (Q1 & Q2 & Q3 & Q4 & Q5 & Q6).
  { unfold in_range, f, UINT64_MAX in *. simpl. lia. }
  { unfold slot_valid, f. simpl. destruct (_ =? 0) eqn:Z1; destruct (m_token m + 1 =? 0) eqn:Z2; bool_to_prop; done || lia. }
  constructor; try done; unfold with_cursor; cbn [head tail claim].
  - by destruct Q1; constructor.
  - rewrite E1, E2. destruct (g_cursor _ _ G), Hl. lia.
  - intros p m' Hp Em'. rewrite E2 in Hp. change (queue_slot_at (touched c (writable q pos) pos f) p = Some m') in Em'.
    rewrite slot_at_op in Em' by (apply G || done).
    destruct (p =? pos)%nat eqn:Ep; bool_to_prop; [lia|]. apply (g_fresh _ _ G p); [lia|done].
Qed.

(** A message somebody holds, rewritten, behind the cursor. *)
Lemma good_held c q pos f m floor : good c q -> live q pos -> queue_slot_at q pos = Some m ->
  m_state m = QMSG_STATE_CLAIMED -> in_range (f m) -> slot_valid (f m) = true -> 0 <= floor ->
  good c (with_cursor (touched c (writable q pos) pos f) (claim q) floor).
Proof.
  intros G Hl Em Hs Hf1 Hf2 Hfl. destruct (op_fields c q pos f) as (E1 & E2 & E3 & E4 & E5).
  destruct (good_op c q pos f m G Hl Em Hf1 Hf2) as (Q1 & Q2 & Q3 & Q4 & Q5 & Q6).
  assert (Hlt : (pos < claim q)%nat).
  { destruct (decide (pos < claim q)%nat); [done|]. exfalso.
    assert (Hx : m_state m = QMSG_STATE_HELD) by (apply (g_fresh _ _ G pos m); [destruct Hl; lia|done]).
    by rewrite Hs in Hx. }
  constructor; try done; unfold with_cursor; cbn [head tail claim].
  - apply G.
  - by destruct Q1; constructor.
  - rewrite E1, E2. apply G.
  - intros p m' Hp Em'. rewrite E2 in Hp. change (queue_slot_at (touched c (writable q pos) pos f) p = Some m') in Em'.
    rewrite slot_at_op in Em' by (apply G || done).
    destruct (p =? pos)%nat eqn:Ep; bool_to_prop; [lia|]. by apply (g_fresh _ _ G p).
Qed.

Lemma seal_with_cursor c q pos f : db_catalog_seal (touched c (writable q pos) pos f) =
  with_cursor (touched c (writable q pos) pos f) (claim q) (time_floor q).
Proof. destruct (op_fields c q pos f) as (E1 & E2 & E3 & E4 & E5). unfold db_catalog_seal, with_cursor. by rewrite E3, E5. Qed.

Lemma acked_run_ext q q' n pos : (forall p, queue_slot_at q p = queue_slot_at q' p) ->
  acked_run q n pos = acked_run q' n pos.
Proof. intros H. revert pos. induction n as [|n IH]; intros pos; cbn [acked_run]; [done|]. by rewrite H, IH. Qed.

Lemma seal_advance q : db_catalog_seal (lease_advance_head q) = lease_advance_head (db_catalog_seal q).
Proof.
  unfold lease_advance_head. rewrite (acked_run_ext (db_catalog_seal q) q) by done.
  unfold db_catalog_seal. cbn [head tail claim first_seg segs time_floor q_sealed].
  by destruct (_ =? head q)%nat.
Qed.

Lemma good_advance c q : good c q -> good c (lease_advance_head q).
Proof.
  intros G. destruct (advance_head q (g_shape _ _ G)) as (E1 & E2 & E3 & E4 & Hsh & k & E5).
  pose proof (acked_run_range q (tail q - head q) (head q)) as Hr. fold (new_head q) in Hr.
  destruct (g_cursor _ _ G) as [Hc1 Hc2].
  assert (Hcur : (new_head q <= claim q)%nat).
  { destruct (decide (new_head q <= claim q)%nat); [done|]. exfalso.
    destruct (acked_run_passed q (tail q - head q) (head q) (claim q)) as (m & Em & Hm); [unfold new_head in *; lia|].
    assert (Hx : m_state m = QMSG_STATE_HELD) by (apply (g_fresh _ _ G (claim q)); [lia|done]).
    by rewrite Hm in Hx. }
  assert (Hlive : forall p, live (lease_advance_head q) p -> (new_head q <= p < tail q)%nat /\ live q p)
    by (intros p; unfold live; rewrite E1, E2; lia).
  constructor; try done; try apply G.
  - rewrite E1, E2, E3. lia.
  - rewrite E5, length_drop. pose proof (g_max _ _ G). lia.
  - rewrite E4. apply G.
  - rewrite E5. apply Forall_drop, G.
  - destruct (g_ready _ _ G) as [R1 R2]. split.
    + intros i sg E. rewrite E5, lookup_drop in E. by apply (R1 _ _ E).
    + intros p sg m [Hp1 Hp2]%Hlive. rewrite seg_at_advance, slot_at_advance by (apply G || done). by apply R2.
  - intros p m [Hp1 Hp2]%Hlive. rewrite slot_at_advance by (apply G || done). by apply G.
  - intros p m [Hp1 Hp2]%Hlive. rewrite slot_at_advance by (apply G || done). by apply G.
  - intros p m. rewrite E2, E3. intros Hp. rewrite slot_at_advance by (apply G || lia). by apply G.
  - unfold lease_advance_head. destruct (_ =? _)%nat; apply G.
Qed.

Lemma held_slot c q pos m : good c q -> live q pos -> queue_slot_at q pos = Some m ->
  m_state m = QMSG_STATE_CLAIMED -> in_range m /\ 0 < m_token m /\ 0 < m_until m.
Proof.
  intros G Hl Em Hs. pose proof (g_range _ _ G pos m Hl Em) as Hr.
  pose proof (g_deep _ _ G pos m Hl Em) as Hd. unfold slot_valid in Hd. rewrite Hs in Hd.
  cbn in Hd. destruct (m_until m =? 0) eqn:Z1; [done|]. destruct (m_token m =? 0) eqn:Z2; [done|].
  bool_to_prop. destruct Hr. split; [done|]. lia.
Qed.

Lemma ack_good c q pos token q' : good c q -> db_queue_ack c q pos token = (0, q') -> good c q'.
Proof.
  intros G (Hl & Hc & (m & Em & Hs & <-) & ->)%ack_ok.
  rewrite seal_advance, seal_with_cursor. apply good_advance.
  destruct (held_slot c q pos m G Hl Em Hs) as ([Hu Ht] & Htp & Hup).
  apply (good_held c q pos finish m); try done; [|apply G].
  unfold slot_valid, finish. simpl. by destruct (m_token m =? 0) eqn:Z; bool_to_prop; [lia|].
Qed.

Lemma nack_good c q pos token q' : good c q -> db_queue_nack c q pos token = (0, q') -> good c q'.
Proof.
  intros G (Hl & Hc & Hmax & (m & Em & Hs & <-) & ->)%nack_ok. rewrite seal_with_cursor.
  destruct (held_slot c q pos m G Hl Em Hs) as ([Hu Ht] & Htp & Hup).
  apply (good_held c q pos give_back m); try done; [|apply G].
  unfold in_range, give_back. simpl. rewrite u64_succ by done. unfold UINT64_MAX in *. lia.
Qed.

Lemma renew_good c q pos token now duration q' : good c q -> 0 <= now -> 0 < duration ->
  db_queue_renew c q pos token now duration = (0, q') -> good c q'.
Proof.
  intros G Hn Hd (Hl & Hc & Ho & (m & Em & Hs & <-) & ->)%renew_ok.
  assert (Hnow : 0 <= q_now q now) by (unfold q_now; destruct (_ <=? _); [lia|apply G]).
  destruct (held_slot c q pos m G Hl Em Hs) as ([Hu Ht] & Htp & Hup).
  apply (good_held c q pos (extend _) m); try done.
  - unfold in_range, extend. simpl. lia.
  - unfold slot_valid, extend. simpl. rewrite Hs. cbn.
    destruct (_ =? 0) eqn:Z1; destruct (m_token m =? 0) eqn:Z2; bool_to_prop; done || lia.
Qed.

(** ** The search *)

Definition claimable_at (q : queue) (now : Z) (p : nat) : bool :=
  claimable now (default zero_slot (queue_slot_at q p)).

(** Skipping a segment whose summary is ahead skips nothing claimable. *)
Lemma skip_segment q now pos sg p : shaped q -> summaries_ok q -> 0 <= now -> live q pos ->
  seg_at q pos = Some sg -> now < ready_at sg -> live q p -> seg_of p = seg_of pos ->
  claimable_at q now p = false.
Proof.
  intros Hq [_ Hs] Hn Hl Esg Hr Hp Eseg. unfold claimable_at.
  destruct (shaped_slot q p Hq Hp) as [m Em]. rewrite Em. simpl.
  assert (Hd : ready_at sg <= due m).
  { apply (Hs p); try done. unfold seg_at in *. by rewrite Eseg. }
  destruct (claimable now m) eqn:Ec; [|done]. apply claimable_due in Ec; [lia|done].
Qed.

Lemma scan_from_spec q now fuel pos cur : shaped q -> summaries_ok q -> 0 <= now ->
  (head q <= pos)%nat -> (tail q - pos < fuel)%nat ->
  scan_from q now fuel pos cur = first_from (claimable_at q now) pos (tail q - pos).
Proof.
  intros Hq Hs Hn. revert pos cur. induction fuel as [|fuel IH]; intros pos cur Hh Hf; [lia|].
  cbn [scan_from]. destruct (tail q <=? pos)%nat eqn:E; bool_to_prop.
  { by replace (tail q - pos)%nat with 0%nat by lia. }
  assert (Hl : live q pos) by (unfold live; lia).
  destruct (shaped_seg q pos Hq Hl) as (sg & Esg & _). rewrite Esg. cbn [default].
  destruct (negb _ && (now <? _)) eqn:Ek.
  - apply andb_true_iff in Ek as [_ Ek]. bool_to_prop. change (default zero_segment (Some sg)) with sg in Ek.
    set (nxt := (S (seg_of pos) * SEG_SLOTS)%nat).
    assert (Hnx : (pos < nxt)%nat) by (unfold nxt, seg_of, SEG_SLOTS; lia).
    assert (Hskip : forall p, (pos <= p < nxt)%nat -> (p < tail q)%nat -> claimable_at q now p = false).
    { intros p Hp Hpt. apply (skip_segment q now pos sg); try done; [unfold live; lia|].
      unfold nxt, seg_of, SEG_SLOTS in *. lia. }
    rewrite IH by lia.
    destruct (decide (nxt <= tail q)%nat).
    + replace (tail q - pos)%nat with ((nxt - pos) + (tail q - nxt))%nat by lia.
      rewrite first_from_app, (first_from_none_intro _ pos); [|intros p Hp; apply Hskip; lia].
      by replace (pos + (nxt - pos))%nat with nxt by lia.
    + replace (tail q - nxt)%nat with 0%nat by lia. symmetry. apply first_from_none_intro.
      intros p Hp. apply Hskip; lia.
  - fold (claimable_at q now pos). replace (tail q - pos)%nat with (S (tail q - S pos))%nat by lia.
    cbn [first_from]. destruct (claimable_at q now pos); [done|]. apply IH; lia.
Qed.

(** ** A message at the tail *)

Lemma seg_of_S p : (seg_of (S p) <= S (seg_of p))%nat.
Proof. unfold seg_of, SEG_SLOTS. lia. Qed.

(** The directory with room for the tail. *)
Definition grown (q : queue) : queue :=
  let first := if (length (segs q) =? 0)%nat then seg_of (tail q) else first_seg q in
  let fresh := negb (seg_of (tail q) - first <? length (segs q))%nat in
  mk_queue (head q) (tail q) (claim q) first (time_floor q)
    (if fresh then segs q ++ [zero_segment] else segs q) false.

Lemma grown_shape q : shaped q ->
  first_seg (grown q) = seg_of (head q) /\
  length (segs (grown q)) = S (seg_of (tail q) - seg_of (head q)) /\
  Forall (fun sg => length (s_slots sg) = SEG_SLOTS) (segs (grown q)) /\
  forall p, live q p -> queue_slot_at (grown q) p = queue_slot_at q p.
Proof.
  intros [Ho Hf Hl Hs]. unfold grown. cbn [first_seg segs].
  assert (Hfirst : (if (length (segs q) =? 0)%nat then seg_of (tail q) else first_seg q) = seg_of (head q)).
  { destruct (length (segs q) =? 0)%nat eqn:E; bool_to_prop; [|done].
    destruct (head q =? tail q)%nat eqn:E2; bool_to_prop; [by rewrite E2|lia]. }
  rewrite Hfirst.
  assert (Hlen : length (if negb (seg_of (tail q) - seg_of (head q) <? length (segs q))%nat
                         then segs q ++ [zero_segment] else segs q) = S (seg_of (tail q) - seg_of (head q))).
  { pose proof (seg_of_mono _ _ Ho) as Hm1. destruct (tail q) as [|t] eqn:Et.
    - replace (head q) with 0%nat in * by lia. cbn in Hl. rewrite Hl. cbn. by rewrite length_app, Hl.
    - pose proof (seg_of_S t). pose proof (seg_of_mono t (S t)). pose proof (seg_of_mono (head q) t).
      rewrite Hf in Hl. cbn [Nat.pred pred] in Hl. destruct (head q =? S t)%nat eqn:E2; bool_to_prop.
      + rewrite E2 in *. destruct (_ <? _)%nat eqn:E3; bool_to_prop; cbn [negb]; rewrite ?length_app; simpl; lia.
      + destruct (_ <? _)%nat eqn:E3; bool_to_prop; cbn [negb]; rewrite ?length_app; simpl; lia. }
  split; [done|]. split; [done|]. split.
  - destruct (negb _); [|done]. apply Forall_app. split; [done|]. by repeat constructor.
  - intros p Hp. unfold queue_slot_at, seg_at. cbn [first_seg segs]. rewrite Hf.
    destruct (_ <? seg_of (head q))%nat; [done|]. destruct (negb _); [|done].
    destruct (segs q !! (seg_of p - seg_of (head q))%nat) as [sg|] eqn:E.
    + by rewrite (lookup_app_l_Some _ _ _ _ E).
    + destruct (shaped_seg q p ltac:(by constructor) Hp) as (sg & Esg & _). unfold seg_at in Esg.
      rewrite Hf in Esg. destruct (_ <? _)%nat; [done|]. congruence.
Qed.

Lemma push_ok t c q payload q' : shaped q -> queue_push_common t c q payload = (0, q') ->
  shaped q' /\ head q' = head q /\ tail q' = S (tail q) /\
  queue_slot_at q' (tail q) = Some (mk_slot QMSG_STATE_HELD 0 0 payload) /\
  forall p, live q p -> queue_slot_at q' p = queue_slot_at q p.
Proof.
  intros Hq. unfold queue_push_common. destruct (_ <=? Z.of_nat _); [by intros [=]|].
  destruct (_ && _); [by intros [=]|].
  destruct (db_catalog_edit c =? 0) eqn:E1; cbn [negb]; bool_to_prop; [|intros [= ? ?]; congruence].
  destruct (db_page_copy c =? 0) eqn:E2; cbn [negb]; bool_to_prop; [|intros [= ? ?]; congruence].
  fold (grown q). destruct (grown_shape q Hq) as (Gf & Gl & Gs & Gv).
  set (f := fun _ => mk_slot _ _ _ payload). set (q1 := queue_seg_seal (edit_slot (grown q) (tail q) f) (tail q)).
  assert (Hfst : (first_seg (grown q) <= seg_of (tail q))%nat) by (rewrite Gf; apply seg_of_mono, Hq).
  assert (Hview : forall p, queue_slot_at q1 p =
    if (p =? tail q)%nat then f <$> queue_slot_at (grown q) p else queue_slot_at (grown q) p).
  { intros p. unfold q1. rewrite slot_at_seal by done. by apply slot_at_edit. }
  assert (Hslots : Forall (fun sg => length (s_slots sg) = SEG_SLOTS) (segs q1)).
  { unfold q1, queue_seg_seal, edit_slot, edit_seg, set_segs. simpl segs. rewrite list_alter_alter_eq.
    apply Forall_alter; [done|]. intros sg _ H. unfold compose. simpl. by rewrite length_alter. }
  assert (Hlen : length (segs q1) = S (seg_of (tail q) - seg_of (head q))).
  { rewrite <- Gl. unfold q1, queue_seg_seal, edit_slot, edit_seg, set_segs. simpl segs. by rewrite !length_alter. }
  assert (Hf1 : first_seg q1 = seg_of (head q)) by exact Gf.
  assert (Hh1 : head q1 = head q) by done.
  pose proof (sh_order _ Hq) as Ho. clearbody q1.
  intros E. injection E as <-. rewrite Hh1. cbn [tail].
  split; [|split; [done|split; [done|]]].
  - constructor; cbn [head tail first_seg segs]; [lia|done|..|done].
    rewrite Hf1, Hlen. by destruct (head q =? S (tail q))%nat eqn:Ex; bool_to_prop; [lia|].
  - split.
    + change (queue_slot_at q1 (tail q) = Some (f zero_slot)). rewrite Hview, Nat.eqb_refl.
      destruct (queue_slot_at (grown q) (tail q)) as [m|] eqn:Em; [done|]. exfalso.
      unfold queue_slot_at, seg_at in Em. rewrite Gf in Em. pose proof (seg_of_mono _ _ Ho).
      destruct (_ <? _)%nat eqn:Ex in Em; bool_to_prop; [lia|].
      destruct (lookup_lt_is_Some_2 (segs (grown q)) (seg_of (tail q) - seg_of (head q))) as [sg Esg]; [lia|].
      rewrite Esg in Em. cbn in Em. apply lookup_ge_None_1 in Em.
      rewrite (Forall_lookup_1 _ _ _ _ Gs Esg) in Em. pose proof (slot_in_lt (tail q)). lia.
    + intros p Hp. change (queue_slot_at q1 p = queue_slot_at q p). rewrite Hview, Gv by done.
      destruct (p =? tail q)%nat eqn:Ex; bool_to_prop; [destruct Hp; lia|done].
Qed.

(** ** Histories *)

Inductive event :=
  | Pushed (pos : nat)
  | Claimed (pos : nat) (token : Z)
  | Acked (pos : nat) (token : Z)
  | Nacked (pos : nat) (token : Z)
  | Renewed (pos : nat) (token : Z).

(** One operation that was honoured; the engine's answers may differ from one
    to the next. *)
Inductive step : queue -> event -> queue -> Prop :=
  | step_push c q payload q' : db_queue_push c q payload = (0, q') -> step q (Pushed (tail q)) q'
  | step_claim c q now duration q' pos t :
      db_queue_claim c q now duration = (0, q', pos, t) -> step q (Claimed pos t) q'
  | step_ack c q pos t q' : db_queue_ack c q pos t = (0, q') -> step q (Acked pos t) q'
  | step_nack c q pos t q' : db_queue_nack c q pos t = (0, q') -> step q (Nacked pos t) q'
  | step_renew c q pos t now duration q' :
      db_queue_renew c q pos t now duration = (0, q') -> step q (Renewed pos t) q'.

Inductive run (q0 : queue) : list event -> queue -> Prop :=
  | run_nil : run q0 [] q0
  | run_snoc evs q e q' : run q0 evs q -> step q e q' -> run q0 (evs ++ [e]) q'.

(** Who holds a message: the token of the last claim nothing ended. *)
Definition hold (pos : nat) (h : option Z) (e : event) : option Z :=
  match e with
  | Claimed p t => if (p =? pos)%nat then Some t else h
  | Acked p _ | Nacked p _ => if (p =? pos)%nat then None else h
  | Pushed _ | Renewed _ _ => h
  end.
Definition holder (pos : nat) (evs : list event) : option Z := fold_left (hold pos) evs None.

Definition claims (evs : list event) : list (nat * Z) :=
  omap (fun e => match e with Claimed p t => Some (p, t) | _ => None end) evs.
Definition acks (evs : list event) : list nat :=
  omap (fun e => match e with Acked p _ => Some p | _ => None end) evs.

Lemma holder_snoc pos evs e : holder pos (evs ++ [e]) = hold pos (holder pos evs) e.
Proof. unfold holder. by rewrite fold_left_app. Qed.

Lemma claims_snoc evs e : claims (evs ++ [e]) =
  claims evs ++ match e with Claimed p t => [(p, t)] | _ => [] end.
Proof. unfold claims. rewrite omap_app. by destruct e. Qed.

Lemma acks_snoc evs e : acks (evs ++ [e]) = acks evs ++ match e with Acked p _ => [p] | _ => [] end.
Proof. unfold acks. rewrite omap_app. by destruct e. Qed.

(** What the history says of the queue. *)
Record traced (evs : list event) (q : queue) : Prop := {
  t_shape : shaped q;
  t_token : forall p m, live q p -> queue_slot_at q p = Some m -> 0 <= m_token m <= UINT64_MAX;
  t_holder : forall p m, live q p -> queue_slot_at q p = Some m ->
    m_state m = QMSG_STATE_CLAIMED -> holder p evs = Some (m_token m);
  t_raised : forall p m t, live q p -> queue_slot_at q p = Some m -> (p, t) ∈ claims evs -> t <= m_token m;
  t_placed : forall p t, (p, t) ∈ claims evs -> (p < tail q)%nat;
  t_done : forall p, p ∈ acks evs -> (p < head q)%nat \/
    exists m, live q p /\ queue_slot_at q p = Some m /\ m_state m = QMSG_STATE_ACKED;
  t_claims : NoDup (claims evs);
  t_acks : NoDup (acks evs);
}.

(** A step that rewrites the message at [pos] and moves the head at most over
    finished messages. *)
Lemma traced_op evs q q' e pos f m : traced evs q -> live q pos -> queue_slot_at q pos = Some m ->
  m_state m <> QMSG_STATE_ACKED -> shaped q' -> tail q' = tail q -> (head q <= head q')%nat ->
  (forall p, live q' p -> queue_slot_at q' p = if (p =? pos)%nat then f <$> queue_slot_at q p else queue_slot_at q p) ->
  0 <= m_token (f m) <= UINT64_MAX -> m_token m <= m_token (f m) ->
  (m_state (f m) = QMSG_STATE_CLAIMED -> hold pos (holder pos evs) e = Some (m_token (f m))) ->
  (forall p h, p <> pos -> hold p h e = h) ->
  match e with
  | Claimed p t => p = pos /\ t = m_token (f m) /\ m_token m < t
  | Acked p _ => p = pos /\ ((pos < head q')%nat \/ live q' pos /\ m_state (f m) = QMSG_STATE_ACKED)
  | _ => True
  end -> traced (evs ++ [e]) q'.
Proof.
  intros T Hl Em Hna Hsh Ht Hh Hv Hf1 Hf2 Hf3 He Hx.
  assert (Hlive : forall p, live q' p -> live q p) by (intros p; unfold live; rewrite Ht; lia).
  assert (Hcase : forall p m', live q' p -> queue_slot_at q' p = Some m' ->
    (p = pos /\ m' = f m) \/ (p <> pos /\ queue_slot_at q p = Some m')).
  { intros p m' Hp E. rewrite Hv in E by done. destruct (p =? pos)%nat eqn:Ep; bool_to_prop; [|by right].
    subst p. rewrite Em in E. injection E as <-. by left. }
  constructor; try done.
  - intros p m' Hp E. destruct (Hcase p m' Hp E) as [[-> ->]|[_ E']]; [done|]. by apply (t_token _ _ T p); [apply Hlive|].
  - intros p m' Hp E Hs. rewrite holder_snoc. destruct (Hcase p m' Hp E) as [[-> ->]|[Hne E']]; [by apply Hf3|].
    rewrite He by done. by apply (t_holder _ _ T p); [apply Hlive|..].
  - intros p m' t Hp E. rewrite claims_snoc, elem_of_app. intros [Hin|Hin].
    + destruct (Hcase p m' Hp E) as [[-> ->]|[_ E']].
      * pose proof (t_raised _ _ T pos m t Hl Em Hin). lia.
      * by apply (t_raised _ _ T p m'); [apply Hlive|..].
    + destruct e; try by apply elem_of_nil in Hin. apply list_elem_of_singleton in Hin. simplify_eq.
      destruct Hx as (-> & -> & _). destruct (Hcase _ m' Hp E) as [[_ ->]|[Hne _]]; [lia|done].
  - intros p t. rewrite claims_snoc, elem_of_app, Ht. intros [Hin|Hin]; [by apply (t_placed _ _ T p t)|].
    destruct e; try by apply elem_of_nil in Hin. apply list_elem_of_singleton in Hin. simplify_eq.
    destruct Hx as (-> & _). apply Hl.
  - intros p. rewrite acks_snoc, elem_of_app. intros [Hin|Hin].
    + destruct (t_done _ _ T p Hin) as [Hp|(m' & Hp & E & Hs)]; [left; lia|].
      destruct (decide (p < head q')%nat); [by left|]. right. exists m'.
      assert (live q' p) by (unfold live in *; lia). split; [done|]. split; [|done]. rewrite Hv by done.
      destruct (p =? pos)%nat eqn:Ep; bool_to_prop; [|done]. subst p. congruence.
    + destruct e; try by apply elem_of_nil in Hin. apply list_elem_of_singleton in Hin. subst p.
      destruct Hx as [-> [Hx|[Hx Hs]]]; [by left|]. right. exists (f m). split; [done|]. split; [|done].
      by rewrite Hv, Nat.eqb_refl, Em by done.
  - rewrite claims_snoc. apply list.NoDup_app. split; [apply T|]. split.
    + intros [p t] Hin Hin'. destruct e; try by apply elem_of_nil in Hin'.
      apply list_elem_of_singleton in Hin'. simplify_eq. destruct Hx as (-> & -> & Hlt).
      pose proof (t_raised _ _ T pos m _ Hl Em Hin). lia.
    + destruct e; try constructor; try apply not_elem_of_nil; constructor.
  - rewrite acks_snoc. apply list.NoDup_app. split; [apply T|]. split.
    + intros p Hin Hin'. destruct e; try by apply elem_of_nil in Hin'.
      apply list_elem_of_singleton in Hin'. subst p. destruct Hx as [-> _].
      destruct (t_done _ _ T pos Hin) as [Hp|(m' & Hp & E & Hs)]; [unfold live in Hl; lia|]. congruence.
    + destruct e; try constructor; try apply not_elem_of_nil; constructor.
Qed.

Lemma hold_other e p pos h : match e with
  | Claimed p' _ | Acked p' _ | Nacked p' _ => p' = pos
  | _ => True end -> p <> pos -> hold p h e = h.
Proof. destruct e; cbn; intros Hp Hne; try subst; try (destruct (_ =? _)%nat eqn:E; bool_to_prop); congruence. Qed.

Lemma traced_push evs c q payload q' : traced evs q -> db_queue_push c q payload = (0, q') ->
  traced (evs ++ [Pushed (tail q)]) q'.
Proof.
  intros T E. destruct (push_ok CAT_QUEUE c q payload q' (t_shape _ _ T) E) as (Hsh & Hh & Ht & Hnew & Hv).
  assert (Hlive : forall p, live q' p -> live q p \/ p = tail q) by (intros p; unfold live; rewrite Hh, Ht; lia).
  constructor; rewrite ?claims_snoc, ?acks_snoc, ?app_nil_r; try apply T; try done.
  - intros p m Hp Em. destruct (Hlive p Hp) as [Hp'| ->].
    + rewrite Hv in Em by done. by apply (t_token _ _ T p).
    + rewrite Hnew in Em. injection Em as <-. unfold UINT64_MAX. simpl. lia.
  - intros p m Hp Em Hs. rewrite holder_snoc. cbn [hold]. destruct (Hlive p Hp) as [Hp'| ->].
    + rewrite Hv in Em by done. by apply (t_holder _ _ T p).
    + rewrite Hnew in Em. by injection Em as <-.
  - intros p m t Hp Em Hin. destruct (Hlive p Hp) as [Hp'| ->].
    + rewrite Hv in Em by done. by apply (t_raised _ _ T p m).
    + pose proof (t_placed _ _ T _ _ Hin). lia.
  - intros p t Hin. pose proof (t_placed _ _ T _ _ Hin). lia.
  - intros p Hin. destruct (t_done _ _ T p Hin) as [Hp|(m & Hp & Em & Hs)]; [left; lia|right].
    exists m. rewrite Hv by done. split; [unfold live in *; lia|done].
Qed.

Lemma scan_claims c q now p m : shaped q -> db_queue_scan_claimable c q now = Some p ->
  queue_slot_at q p = Some m -> m_state m <> QMSG_STATE_ACKED.
Proof.
  intros Hq. unfold db_queue_scan_claimable. destruct (negb _); [done|].
  generalize (S (tail q - head q)) as fuel. generalize (head q), (@None nat). intros pos cur fuel. revert pos cur.
  induction fuel as [|fuel IH]; intros pos cur; cbn [scan_from]; [done|].
  destruct (tail q <=? pos)%nat; [done|]. destruct (_ && _); [apply IH|].
  destruct (claimable now _) eqn:Ec; [|apply IH].
  intros [= <-] Em Hs. rewrite Em in Ec. unfold claimable in Ec.
  simpl in Ec. rewrite Hs in Ec. discriminate Ec.
Qed.

(** The head after the finished message at [pos]. *)
Lemma ack_view c q pos m : shaped q -> live q pos -> queue_slot_at q pos = Some m ->
  let q' := db_catalog_seal (lease_advance_head (touched c (writable q pos) pos finish)) in
  shaped q' /\ tail q' = tail q /\ (head q <= head q')%nat /\
  forall p, live q' p -> queue_slot_at q' p = if (p =? pos)%nat then finish <$> queue_slot_at q p else queue_slot_at q p.
Proof.
  intros Hq Hl Em. set (q1 := touched c (writable q pos) pos finish).
  assert (H1 : shaped q1) by (by apply shaped_touched, shaped_writable).
  destruct (op_fields c q pos finish) as (E1 & E2 & _). fold q1 in E1, E2.
  destruct (advance_head q1 H1) as (A1 & A2 & _ & _ & A5 & _).
  pose proof (acked_run_range q1 (tail q1 - head q1) (head q1)) as Hr. fold (new_head q1) in Hr.
  split; [by destruct A5; constructor|]. cbn [db_catalog_seal tail head]. split; [congruence|]. split; [rewrite A1; lia|].
  intros p Hp. change (queue_slot_at (lease_advance_head q1) p =
    if (p =? pos)%nat then finish <$> queue_slot_at q p else queue_slot_at q p).
  unfold live in Hp. cbn [db_catalog_seal tail head] in Hp.
  rewrite slot_at_advance by (done || rewrite A1, A2 in Hp; lia). by apply slot_at_op.
Qed.

Lemma traced_step evs q e q' : traced evs q -> step q e q' ->
  traced (evs ++ [e]) q' /\ match e with Acked p t => holder p evs = Some t | _ => True end.
Proof.
  intros T Hs. pose proof (t_shape _ _ T) as Hq.
  destruct Hs as [c q pl q' E|c q now d q' pos t E|c q pos t q' E|c q pos t q' E|c q pos t now d q' E].
  - split; [by apply (traced_push _ c q pl)|done].
  - apply claim_ok in E as (Hc & Hscan & Hl & _ & m & Em & Hmax & -> & ->). split; [|done].
    pose proof (t_token _ _ T pos m Hl Em). rewrite u64_succ by done.
    destruct (op_view c q pos (take_lease (q_now q now + d) (m_token m + 1)) (Nat.max (S pos) (claim q))
      (q_now q now) Hq Hl) as (V1 & V2 & V3 & V4).
    eapply (traced_op evs q _ _ pos _ m); try done; simpl.
    + by apply (scan_claims c q (q_now q now) pos).
    + unfold UINT64_MAX in *. lia.
    + lia.
    + by rewrite Nat.eqb_refl.
    + intros p h. by apply (hold_other (Claimed pos (m_token m + 1))).
    + split; [done|]. split; [done|lia].
  - apply ack_ok in E as (Hl & Hc & (m & Em & Hst & Htok) & ->).
    split; [|rewrite <- Htok; by apply (t_holder _ _ T pos)].
    destruct (ack_view c q pos m Hq Hl Em) as (V1 & V2 & V3 & V4).
    apply (traced_op evs q _ _ pos finish m); try done.
    + by rewrite Hst.
    + by apply (t_token _ _ T pos m).
    + intros p h. by apply (hold_other (Acked pos t)).
    + split; [done|]. unfold live. rewrite V2. destruct Hl.
      destruct (decide (pos < head (db_catalog_seal (lease_advance_head (touched c (writable q pos) pos finish))))%nat);
        [by left|right; split; [lia|done]].
  - apply nack_ok in E as (Hl & Hc & Hmax & (m & Em & Hst & Htok) & ->). split; [|done].
    pose proof (t_token _ _ T pos m Hl Em). rewrite seal_with_cursor.
    destruct (op_view c q pos give_back (claim q) (time_floor q) Hq Hl) as (V1 & V2 & V3 & V4).
    apply (traced_op evs q _ _ pos give_back m); try done.
    + by rewrite Hst.
    + unfold give_back. cbn [m_token]. rewrite u64_succ by (done || congruence). unfold UINT64_MAX in *. lia.
    + unfold give_back. cbn [m_token]. rewrite u64_succ by (done || congruence). lia.
    + intros p h. by apply (hold_other (Nacked pos t)).
  - apply renew_ok in E as (Hl & Hc & _ & (m & Em & Hst & Htok) & ->). split; [|done].
    destruct (op_view c q pos (extend (q_now q now + d)) (claim q) (q_now q now) Hq Hl) as (V1 & V2 & V3 & V4).
    eapply (traced_op evs q _ _ pos _ m); try done.
    + by rewrite Hst.
    + by apply (t_token _ _ T pos m).
    + intros _. change (holder pos evs = Some (m_token m)). by apply (t_holder _ _ T pos).
Qed.

Lemma traced_new : traced [] new_queue.
Proof.
  constructor; try done; try (intros ? ? [? ?]; simpl in *; lia).
  - intros p t Hin. by apply elem_of_nil in Hin.
  - intros p Hin. by apply elem_of_nil in Hin.
  - constructor.
  - constructor.
Qed.

Lemma run_traced evs q : run new_queue evs q -> traced evs q.
Proof.
  induction 1 as [|evs q e q' _ IH Hs]; [apply traced_new|]. by apply (traced_step evs q e q').
Qed.

(** ** Properties *)

(** The search reads past no claimable message.  On a queue the validator
    accepts, [db_queue_scan_claimable] - which steps over every segment whose
    summary is ahead - finds the first position, from the head, whose message is
    free or whose lease has lapsed, and says there is none exactly when there is
    none. *)
Theorem scan_claimable_first c q now : accepted c q -> 0 <= now ->
  db_queue_scan_claimable c q now = first_from (claimable_at q now) (head q) (tail q - head q).
Proof.
  intros G%accepted_good Hn. unfold db_queue_scan_claimable. rewrite (g_leases _ _ G). cbn [negb].
  apply scan_from_spec; try apply G; lia.
Qed.


(** C19: a ticket is honoured at most once, and only for the worker that holds
    the message.  Along any sequence of operations from a new queue: no position
    is handed out twice with the same token, no message is acknowledged twice,
    and an acknowledgement that was honoured carried the token of the latest
    claim of its message, with no acknowledgement or return since. *)
Theorem ticket_honoured_once evs q : run new_queue evs q ->
  NoDup (claims evs) /\ NoDup (acks evs) /\
  forall e1 pos t e2, evs = e1 ++ Acked pos t :: e2 -> holder pos e1 = Some t.
Proof.
  intros H. split; [apply (run_traced _ _ H)|]. split; [apply (run_traced _ _ H)|].
  induction H as [|evs q e q' Hrun IH Hs]; intros e1 pos t e2 E; [by destruct e1|].
  destruct (decide (e2 = [])) as [->|Hne].
  - apply app_inj_tail in E as [-> ->]. by destruct (traced_step _ _ _ _ (run_traced _ _ Hrun) Hs).
  - destruct (exists_last Hne) as (e2' & e' & ->).
    replace (e1 ++ Acked pos t :: e2' ++ [e']) with ((e1 ++ Acked pos t :: e2') ++ [e']) in E
      by (by rewrite <- app_assoc).
    apply app_inj_tail in E as [E _]. by apply (IH e1 pos t e2').
Qed.

(** Tickets and the messages they are for. *)
Definition lease_ctx : ctx := mk_ctx true 0 0.
Definition with_jobs (payloads : list string) : queue :=
  fold_left (fun q p => snd (db_queue_push lease_ctx q p)) payloads new_queue.

Definition in_range_b (m : slot) : bool :=
  (0 <=? m_until m) && (m_until m <=? UINT64_MAX) && (0 <=? m_token m) && (m_token m <=? UINT64_MAX).

(** The invariant, decided. *)
Definition accepted_b (c : ctx) (q : queue) : bool :=
  db_leases c && queue_page_valid c q &&
  forallb (fun sg => (length (s_slots sg) =? SEG_SLOTS)%nat) (segs q) && (0 <=? time_floor q) &&
  forallb (fun p =>
      match queue_slot_at q p with
      | None => true
      | Some m => in_range_b m && slot_valid m &&
                  ((p <? claim q)%nat || (m_state m =? QMSG_STATE_HELD))
      end) (seq (head q) (tail q - head q)).

Lemma accepted_b_spec c q : accepted_b c q = true -> accepted c q.
Proof.
  unfold accepted_b. rewrite !andb_true_iff. intros ((((Hc & Hv) & Hs) & Hf) & Hp).
  rewrite forallb_forall in Hp, Hs.
  assert (Hat : forall p m, live q p -> queue_slot_at q p = Some m ->
    in_range_b m = true /\ slot_valid m = true /\ ((p < claim q)%nat \/ m_state m = QMSG_STATE_HELD)).
  { intros p m Hl E. specialize (Hp p ltac:(apply in_seq; unfold live in Hl; lia)). rewrite E in Hp.
    rewrite !andb_true_iff, orb_true_iff in Hp. destruct Hp as ((? & ?) & [?|?]); bool_to_prop; auto. }
  constructor; try done.
  - apply Forall_forall. intros sg Hin. specialize (Hs sg Hin). by bool_to_prop.
  - intros p m Hl E. destruct (Hat p m Hl E) as (H & _). unfold in_range_b in H. rewrite !andb_true_iff in H.
    destruct H as (((? & ?) & ?) & ?). bool_to_prop. unfold in_range. lia.
  - intros p m Hl E. by destruct (Hat p m Hl E) as (_ & ? & _).
  - intros p m Hp' E.
    unfold queue_page_valid in Hv. rewrite Hc, !andb_true_iff in Hv. destruct Hv as (((((((((Hcur & _) & _) & _) & _) & _) & _) & _) & _) & _).
    destruct (Hat p m) as (_ & _ & [?|?]); try done; [|lia].
    bool_to_prop. unfold live. lia.
  - by bool_to_prop.
Qed.

Lemma scan_claimable_first_witness :
  db_queue_scan_claimable lease_ctx (with_jobs ["a"%string; "b"%string]) 1000 = Some 0%nat.
Proof.
  rewrite (scan_claimable_first lease_ctx (with_jobs ["a"%string; "b"%string]) 1000).
  - vm_compute. reflexivity.
  - apply accepted_b_spec. vm_compute. reflexivity.
  - lia.
Defined.

(** Two jobs, the first claimed at 1000 for 30 milliseconds. *)
Definition one_claimed : queue := snd (fst (fst (db_queue_claim lease_ctx (with_jobs ["a"%string; "b"%string]) 1000 30))).


(** Claimed, returned, claimed again by another worker, acknowledged. *)
Definition handed_on : list event :=
  [Pushed 0; Claimed 0 1; Nacked 0 1; Claimed 0 3; Renewed 0 3; Acked 0 3].

Lemma handed_on_runs : exists q, run new_queue handed_on q.
Proof.
  pose (q1 := with_jobs ["a"%string]).
  pose (q2 := snd (fst (fst (db_queue_claim lease_ctx q1 1000 30)))).
  pose (q3 := snd (db_queue_nack lease_ctx q2 0 1)).
  pose (q4 := snd (fst (fst (db_queue_claim lease_ctx q3 1000 30)))).
  pose (q5 := snd (db_queue_renew lease_ctx q4 0 3 2000 30)).
  pose (q6 := snd (db_queue_ack lease_ctx q5 0 3)).
  exists q6. change handed_on with (((((([] ++ [Pushed 0]) ++ [Claimed 0 1]) ++ [Nacked 0 1]) ++ [Claimed 0 3])
    ++ [Renewed 0 3]) ++ [Acked 0 3]).
  eapply run_snoc; [eapply run_snoc; [eapply run_snoc; [eapply run_snoc; [eapply run_snoc; [eapply run_snoc;
    [apply run_nil|apply (step_push lease_ctx new_queue "a" q1)]|apply (step_claim lease_ctx q1 1000 30 q2)]
    |apply (step_nack lease_ctx q2 0 1 q3)]|apply (step_claim lease_ctx q3 1000 30 q4)]
    |apply (step_renew lease_ctx q4 0 3 2000 30 q5)]|apply (step_ack lease_ctx q5 0 3 q6)];
    vm_compute; reflexivity.
Qed.

Lemma ticket_honoured_once_witness : NoDup (claims handed_on) /\ holder 0 (take 5 handed_on) = Some 3.
Proof.
  destruct handed_on_runs as [q Hrun]. destruct (ticket_honoured_once handed_on q Hrun) as (H1 & _ & H3).
  split; [exact H1|]. apply (H3 _ 0%nat 3 []). reflexivity.
Defined.

(** ** Enqueueing into a queue with live leases *)

Lemma push_fields c q payload q' : db_queue_push c q payload = (0, q') ->
  claim q' = head q /\
  db_catalog_edit c = 0 /\ db_page_copy c = 0 /\
  forall sg, shaped q -> seg_at q (tail q) = Some sg ->
    exists sg', seg_at q' (tail q) = Some sg' /\ ready_at sg' = ready_at sg.
Proof.
  unfold db_queue_push, queue_push_common. destruct (_ <=? Z.of_nat _); [by intros [=]|]. destruct (_ && _); [by intros [=]|].
  destruct (db_catalog_edit c =? 0) eqn:E1; cbn [negb]; bool_to_prop; [|intros [= ? ?]; congruence].
  destruct (db_page_copy c =? 0) eqn:E2; cbn [negb]; bool_to_prop; [|intros [= ? ?]; congruence].
  fold (grown q). intros E. injection E as <-. split; [done|]. split; [done|]. split; [done|].
  intros sg Hq Esg. set (f := fun _ => mk_slot _ _ _ payload).
  destruct (grown_shape q Hq) as (Gf & _ & _ & _).
  assert (Hfst : (first_seg (grown q) <= seg_of (tail q))%nat) by (rewrite Gf; apply seg_of_mono, Hq).
  change (exists sg', seg_at (queue_seg_seal (edit_slot (grown q) (tail q) f) (tail q)) (tail q) = Some sg' /\
    ready_at sg' = ready_at sg).
  unfold queue_seg_seal, edit_slot. rewrite !seg_at_edit, Nat.eqb_refl by done.
  assert (Eg : seg_at (grown q) (tail q) = Some sg).
  { unfold seg_at. rewrite Gf. rewrite <- (sh_first _ Hq). unfold seg_at in Esg.
    destruct (_ <? _)%nat; [done|]. pose proof (lookup_lt_Some _ _ _ Esg). unfold grown. cbn [segs].
    destruct (length (segs q) =? 0)%nat eqn:El; bool_to_prop; [lia|].
    destruct (_ <? length _)%nat eqn:Ex; bool_to_prop; [done|lia]. }
  rewrite Eg. by eexists.
Qed.

Lemma hold_live c q pos m : db_leases c = true -> db_catalog_edit c = 0 -> db_page_copy c = 0 ->
  live q pos -> queue_slot_at q pos = Some m -> m_state m = QMSG_STATE_CLAIMED ->
  lease_hold c q pos (m_token m) = (0, writable q pos).
Proof.
  intros Hc He Hp Hl Em Hs. unfold lease_hold. rewrite Hc. cbn [negb].
  assert (Hf : lease_find_slot q pos = Some m) by (by apply find_slot_live).
  rewrite Hf, Hs, !Z.eqb_refl. cbn [negb]. unfold lease_edit_slot. rewrite He, Hp. cbn [Z.eqb negb].
  change (lease_find_slot (unseal_page q) pos) with (lease_find_slot q pos). by rewrite Hf.
Qed.

(** An [ENQUEUE] does not keep what the leases rely on.  It leaves the
    summary of the segment it writes into and puts the cursor back at the head.
    So when every message of that segment is held or finished (its summary is
    ahead), the queue it leaves is refused by the validator; and when the oldest
    message is held, the acknowledgement of that message afterwards - honoured
    by [db_queue_ack] - leaves a queue the validator refuses, because the head
    has passed the cursor. *)
Theorem push_breaks_leases c q payload q' : accepted c q -> db_queue_push c q payload = (0, q') ->
  (forall sg, seg_at q (tail q) = Some sg -> 0 < ready_at sg -> queue_page_valid c q' = false) /\
  (forall m, (head q < tail q)%nat -> queue_slot_at q (head q) = Some m -> m_state m = QMSG_STATE_CLAIMED ->
     exists q'', db_queue_ack c q' (head q) (m_token m) = (0, q'') /\ queue_page_valid c q'' = false).
Proof.
  intros G%accepted_good E. pose proof (g_shape _ _ G) as Hq. pose proof (g_leases _ _ G) as Hc.
  destruct (push_ok CAT_QUEUE c q payload q' Hq E) as (Hsh & Hh & Ht & Hnew & Hv).
  destruct (push_fields c q payload q' E) as (Hcl & He & Hp & Hseg).
  pose proof (sh_order _ Hq) as Ho. split.
  - intros sg Esg Hr. destruct (queue_page_valid c q') eqn:Ev; [|done]. exfalso.
    unfold queue_page_valid in Ev. rewrite !andb_true_iff in Ev. destruct Ev as [_ Ev].
    apply summaries_valid_spec in Ev as [_ Ev]; [|done|done|].
    + destruct (Hseg sg Hq Esg) as (sg' & Esg' & Er).
      assert (ready_at sg' <= due (mk_slot QMSG_STATE_HELD 0 0 payload)) by
        (apply (Ev (tail q)); [unfold live; lia|done|done]).
      unfold due in *. simpl in *. lia.
    + intros p m Hl Em. destruct (decide (p = tail q)) as [->|].
      * rewrite Hnew in Em. injection Em as <-. unfold in_range, UINT64_MAX. simpl. lia.
      * assert (live q p) by (unfold live in *; lia). rewrite Hv in Em by done. by apply (g_range _ _ G p).
  - intros m Hlt Em Hs. rewrite <- Hh.
    assert (Hl' : live q' (head q')) by (unfold live; lia).
    assert (Em' : queue_slot_at q' (head q') = Some m) by (rewrite Hh, Hv; [done|unfold live; lia]).
    assert (Hack : exists q'', db_queue_ack c q' (head q') (m_token m) = (0, q''))
      by (unfold db_queue_ack; rewrite (hold_live c q' (head q') m) by done; by eexists).
    destruct Hack as [q'' Hack]. exists q''. split; [done|]. apply ack_ok in Hack as (_ & _ & _ & ->).
    set (q1 := touched c (writable q' (head q')) (head q') finish).
    assert (H1 : shaped q1) by (by apply shaped_touched, shaped_writable).
    destruct (op_fields c q' (head q') finish) as (E1 & E2 & E3 & _). fold q1 in E1, E2, E3.
    destruct (advance_head q1 H1) as (A1 & _ & A3 & _).
    assert (Hpass : (head q < new_head q1)%nat).
    { unfold new_head. rewrite E1, E2. destruct (tail q' - head q')%nat eqn:Et; [unfold live in Hl'; lia|].
      cbn [acked_run]. unfold q1 at 1. rewrite slot_at_op, Nat.eqb_refl, Em' by done. cbn.
      pose proof (acked_run_range q1 n (S (head q'))). lia. }
    unfold queue_page_valid. cbn [db_catalog_seal head claim]. rewrite Hc, A1, A3, E3, Hcl.
    destruct (new_head q1 <=? head q)%nat eqn:Ex; bool_to_prop; [lia|done].
Qed.

(** The second half, on two jobs: the first is claimed, a third is queued. *)
Lemma push_breaks_leases_witness : exists q'',
  db_queue_ack lease_ctx (snd (db_queue_push lease_ctx one_claimed "c")) 0 1 = (0, q'') /\
  queue_page_valid lease_ctx q'' = false.
Proof.
  destruct (push_breaks_leases lease_ctx one_claimed "c" (snd (db_queue_push lease_ctx one_claimed "c"))) as [_ H].
  - apply accepted_b_spec. vm_compute. reflexivity.
  - vm_compute. reflexivity.
  - apply (H (mk_slot QMSG_STATE_CLAIMED 1030 1 "a")); [vm_compute; lia|vm_compute; reflexivity..].
Defined.

(** The first half, on one: the message queued while the only other one is held
    is not found, and the queue is refused. *)
Example enqueue_hidden :
  let q := snd (fst (fst (db_queue_claim lease_ctx (with_jobs ["a"%string]) 1000 30))) in
  let q' := snd (db_queue_push lease_ctx q "b") in
  (db_queue_scan_claimable lease_ctx q' 1000, claimable_at q' 1000 1, queue_page_valid lease_ctx q')
  = (None, true, false).
Proof. vm_compute. reflexivity. Qed.

(** A claim whose deadline would pass the end of the clock is refused too
    late.  By then the pages have been made writable and the token raised, so the
    refusal leaves a queue whose pages are not sealed and which the validator
    refuses, whatever else the transaction did. *)
Theorem refused_claim_leaves_damage c q now duration pos m : accepted c q -> 0 <= now -> duration <> 0 ->
  db_catalog_edit c = 0 -> db_page_copy c = 0 ->
  db_queue_scan_claimable c q (q_now q now) = Some pos -> queue_slot_at q pos = Some m ->
  m_token m <> UINT64_MAX -> UINT64_MAX < q_now q now + duration ->
  exists q', db_queue_claim c q now duration = (CybouDB_E_VALUE, q', 0%nat, 0) /\
    (exists m', queue_slot_at q' pos = Some m' /\ m_token m' = m_token m + 1) /\
    q_sealed q' = false /\ queue_page_valid c q' = false.
Proof.
  intros G%accepted_good Hn Hd He Hp Hscan Em Hmax Hov. pose proof (g_shape _ _ G) as Hq.
  assert (Hnow : 0 <= q_now q now) by (unfold q_now; destruct (_ <=? _); [lia|apply G]).
  assert (Hl : live q pos).
  { assert (Hs := Hscan). unfold db_queue_scan_claimable in Hs. rewrite (g_leases _ _ G) in Hs. cbn [negb] in Hs.
    rewrite scan_from_spec in Hs by (try apply G; lia). apply first_from_Some in Hs as (Hs & _). unfold live. lia. }
  assert (Hf : lease_find_slot q pos = Some m) by (by apply find_slot_live).
  unfold db_queue_claim. destruct (duration =? 0) eqn:Ed; bool_to_prop; [lia|].
  unfold lease_now. rewrite (g_leases _ _ G). cbn [negb Z.eqb]. fold (q_now q now). rewrite Hscan, Hf.
  destruct (m_token m =? UINT64_MAX) eqn:Et; bool_to_prop; [lia|].
  unfold lease_edit_slot. rewrite He, Hp. cbn [Z.eqb negb].
  change (lease_find_slot (unseal_page q) pos) with (lease_find_slot q pos). rewrite Hf. cbn [Z.eqb negb].
  fold (writable q pos). destruct (UINT64_MAX <? q_now q now + duration) eqn:Eo; bool_to_prop; [|lia].
  eexists. split; [done|]. split.
  - rewrite slot_at_edit, Nat.eqb_refl, slot_at_writable, Em by
      (try done; simpl; rewrite (sh_first _ Hq); apply seg_of_mono, Hl).
    eexists. split; [done|]. cbn. apply u64_succ; [|done]. apply (g_range _ _ G pos m); done.
  - split; [done|]. unfold queue_page_valid. cbn [edit_slot edit_seg set_segs q_sealed writable unseal_seg unseal_page].
    rewrite !andb_false_r. done.
Qed.

Lemma refused_claim_leaves_damage_witness : exists q',
  db_queue_claim lease_ctx (with_jobs ["a"%string]) 1000 UINT64_MAX = (CybouDB_E_VALUE, q', 0%nat, 0) /\
  q_sealed q' = false.
Proof.
  destruct (refused_claim_leaves_damage lease_ctx (with_jobs ["a"%string]) 1000 UINT64_MAX 0
    (mk_slot QMSG_STATE_HELD 0 0 "a")) as (q' & E & _ & Hs & _).
  - apply accepted_b_spec. vm_compute. reflexivity.
  - lia.
  - discriminate.
  - reflexivity.
  - reflexivity.
  - vm_compute. reflexivity.
  - vm_compute. reflexivity.
  - discriminate.
  - vm_compute. reflexivity.
  - exists q'. split; [exact E|exact Hs].
Defined.
