(* ===== verification/Dequeue.v ===== *)
(** * Dequeue: taking a message off a queue

    [src/core/queue.asm]: the copy out of a slot, [db_queue_depth],
    [db_queue_peek] and [db_queue_pop], and with the ENQUEUE of [LeaseQueue]
    the queue of a database without leases as a first-in first-out list.

    A payload is a string, so the flag of a slot that names an extent chain is
    that its payload is longer than the 32 bytes a slot holds; what reading such
    a chain answers is an argument ([read_chain]).  Retiring pages is the
    bitmap's business and leaves no trace here. *)

From Stdlib Require Import String.
From S2P Require Import Prelude LeaseQueue.

(** ** Operations *)

Definition QMSG_INLINE_MAX : Z := 32.

Definition payload_length (m : slot) : Z := Z.of_nat (String.length (m_payload m)).

(** The payload of a slot, from the slot or from the chain it names. *)
Definition queue_slot_copy (read_chain : string -> Z) (m : slot) : Z * string :=
  if payload_length m <=? QMSG_INLINE_MAX then (0, m_payload m)
  else let rc := read_chain (m_payload m) in
       if negb (rc =? 0) then (rc, EmptyString) else (0, m_payload m).

Definition db_queue_depth (q : queue) : Z := u64 (Z.of_nat (tail q) - Z.of_nat (head q)).

(** The result code and how many bytes the next take needs. *)
Definition db_queue_peek (q : queue) : Z * Z :=
  if (head q =? tail q)%nat then (CybouDB_E_NOTFOUND, 0)
  else (0, payload_length (default zero_slot (queue_slot_at q (head q)))).

(** The result code, the queue and the message.  The bytes are copied before
    anything moves; the segments left behind leave the directory, all of them
    when the queue has run dry; the cursor follows the head. *)
Definition db_queue_pop (c : ctx) (read_chain : string -> Z) (q : queue) : Z * queue * string :=
  if (head q =? tail q)%nat then (CybouDB_E_NOTFOUND, q, EmptyString) else
  match queue_slot_at q (head q) with
  | None => (CybouDB_E_STATE, q, EmptyString)
  | Some m =>
      let '(rc, bytes) := queue_slot_copy read_chain m in
      if negb (rc =? 0) then (rc, q, EmptyString) else
      let h := S (head q) in
      let behind := if (h =? tail q)%nat then length (segs q) else (seg_of h - first_seg q)%nat in
      if negb (db_catalog_edit c =? 0) then (db_catalog_edit c, q, EmptyString) else
      let q := unseal_page q in
      let q := mk_queue h (tail q) h (seg_of h) (time_floor q) (drop behind (segs q)) (q_sealed q) in
      (0, db_catalog_seal q, bytes)
  end.

(** ** What a take leaves *)

Definition with_claim (q : queue) (n : nat) : queue :=
  mk_queue (head q) (tail q) n (first_seg q) (time_floor q) (segs q) (q_sealed q).

Definition popped (q : queue) : queue :=
  db_catalog_seal (with_claim (move_head q (S (head q))) (S (head q))).

Lemma pop_ok c rd q m : (head q < tail q)%nat -> queue_slot_at q (head q) = Some m ->
  queue_slot_copy rd m = (0, m_payload m) -> db_catalog_edit c = 0 ->
  db_queue_pop c rd q = (0, popped q, m_payload m).
Proof.
  intros Hlt Em Hcp He. unfold db_queue_pop. destruct (head q =? tail q)%nat eqn:E; bool_to_prop; [lia|].
  by rewrite Em, Hcp, He.
Qed.

Lemma popped_slot q p : shaped q -> (S (head q) <= p < tail q)%nat ->
  queue_slot_at (popped q) p = queue_slot_at q p.
Proof. intros Hq Hp. rewrite <- (slot_at_move q (S (head q)) p) by (done || lia). done. Qed.

Lemma popped_seg q p : shaped q -> (S (head q) <= p < tail q)%nat ->
  seg_at (popped q) p = seg_at q p.
Proof. intros Hq Hp. rewrite <- (seg_at_move q (S (head q)) p) by (done || lia). done. Qed.

Lemma popped_shaped q : shaped q -> (head q < tail q)%nat -> shaped (popped q).
Proof. intros Hq Hlt. by destruct (shaped_move q (S (head q)) Hq ltac:(lia)). Qed.

Lemma popped_segs q : exists k, segs (popped q) = drop k (segs q).
Proof. by eexists. Qed.

(** ** A queue without leases *)

(** What the validator checks of one, as propositions. *)
Record fifo_ok (c : ctx) (q : queue) : Prop := {
  f_leases : db_leases c = false;
  f_shape : shaped q;
  f_claim : claim q = head q;
  f_floor : time_floor q = 0;
  f_max : (length (segs q) <= Q_MAX_SEGMENTS)%nat;
  f_page : q_sealed q = true;
  f_sealed : Forall (fun sg => s_sealed sg = true /\ ready_at sg = 0) (segs q);
}.

Lemma fifo_valid c q : db_leases c = false -> Forall (fun sg => length (s_slots sg) = SEG_SLOTS) (segs q) ->
  fifo_ok c q <-> queue_page_valid c q = true.
Proof.
  intros Hc Hs. unfold queue_page_valid, lease_summaries_valid. rewrite Hc. cbn [negb orb].
  rewrite !andb_true_iff, !forallb_forall, !Nat.leb_le, !Nat.eqb_eq, Z.eqb_eq. split.
  - intros [_ [Ho Hf Hl _] Hcl Hfl Hm Hp Hse]. rewrite Forall_forall in Hse. repeat split; try done.
    + by destruct (head q =? tail q)%nat; apply Nat.eqb_eq.
    + intros sg Hin. by apply Hse.
    + intros sg Hin. by apply Z.eqb_eq, Hse.
  - intros (((((((((Hcl & Hfl) & Ho) & Hm) & Hf) & Hl) & Hp) & Hse) & Hr) & _).
    constructor; try done; [|apply Forall_forall; intros sg Hin; split; [by apply Hse|by apply Z.eqb_eq, Hr]].
    constructor; try done. destruct (head q =? tail q)%nat; by apply Nat.eqb_eq in Hl.
Qed.

(** What the queue holds, oldest first. *)
Definition contents (q : queue) : list string :=
  map (fun p => m_payload (default zero_slot (queue_slot_at q p))) (seq (head q) (tail q - head q)).

Lemma length_contents q : length (contents q) = (tail q - head q)%nat.
Proof. unfold contents. by rewrite length_map, length_seq. Qed.

Lemma contents_cons q : (head q < tail q)%nat ->
  contents q = m_payload (default zero_slot (queue_slot_at q (head q))) ::
    map (fun p => m_payload (default zero_slot (queue_slot_at q p))) (seq (S (head q)) (tail q - S (head q))).
Proof.
  intros Hlt. unfold contents. by replace (tail q - head q)%nat with (S (tail q - S (head q))) by lia.
Qed.

Lemma contents_nil q : (tail q <= head q)%nat -> contents q = [].
Proof. intros H. unfold contents. by replace (tail q - head q)%nat with 0%nat by lia. Qed.

Lemma contents_lookup q i m : queue_slot_at q (head q + i) = Some m -> (head q + i < tail q)%nat ->
  contents q !! i = Some (m_payload m).
Proof.
  intros Em Hlt. unfold contents. rewrite list_lookup_fmap, lookup_seq_lt by lia. simpl. by rewrite Em.
Qed.

Lemma contents_move q h : shaped q -> (head q <= h <= tail q)%nat ->
  contents (move_head q h) = drop (h - head q) (contents q).
Proof.
  intros Hq Hh. unfold contents. cbn [move_head head tail].
  rewrite <- fmap_drop, drop_seq. replace (head q + (h - head q))%nat with h by lia.
  replace (tail q - head q - (h - head q))%nat with (tail q - h)%nat by lia.
  apply map_ext_in. intros p Hp%in_seq. by rewrite slot_at_move by (done || lia).
Qed.

Lemma contents_popped q : shaped q -> (head q < tail q)%nat -> contents (popped q) = drop 1 (contents q).
Proof.
  intros Hq Hlt. change (contents (popped q)) with (contents (move_head q (S (head q)))).
  rewrite contents_move by (done || lia). by replace (S (head q) - head q)%nat with 1%nat by lia.
Qed.

Lemma contents_push t c q payload q' : shaped q -> queue_push_common t c q payload = (0, q') ->
  contents q' = contents q ++ [payload].
Proof.
  intros Hq E. destruct (push_ok t c q payload q' Hq E) as (_ & Hh & Ht & Hnew & Hold).
  pose proof (sh_order _ Hq). unfold contents. rewrite Hh, Ht.
  replace (S (tail q) - head q)%nat with (tail q - head q + 1)%nat by lia.
  rewrite seq_app, map_app. replace (head q + (tail q - head q))%nat with (tail q) by lia. f_equal.
  - apply map_ext_in. intros p Hp%in_seq. by rewrite Hold by (unfold live; lia).
  - simpl. by rewrite Hnew.
Qed.

(** ** ENQUEUE *)

(** The directory has no room for the segment of the tail. *)
Definition full (t : cat_type) (q : queue) : bool :=
  (max_segments t <=? seg_of (tail q) - seg_of (head q))%nat.

Definition pushed (t : cat_type) (q : queue) (payload : string) : queue :=
  let q1 := queue_seg_seal (edit_slot (grown q) (tail q) (fun _ => mk_slot QMSG_STATE_HELD 0 0 payload)) (tail q) in
  mk_queue (head q) (S (tail q)) (match t with CAT_QUEUE => head q | CAT_STREAM => 0%nat end)
    (first_seg q1) (time_floor q) (segs q1) true.

Lemma push_answers t c q payload : shaped q -> (length (segs q) <= max_segments t)%nat ->
  db_catalog_edit c = 0 -> db_page_copy c = 0 ->
  queue_push_common t c q payload =
    if 2 ^ 32 <=? Z.of_nat (String.length payload) then (CybouDB_E_VALUE, q)
    else if full t q then (CybouDB_E_FULL, q) else (0, pushed t q payload).
Proof.
  intros Hq Hmax He Hp. unfold queue_push_common. destruct (_ <=? Z.of_nat _); [done|].
  rewrite He, Hp. cbn [Z.eqb negb].
  assert (Hf : (if (length (segs q) =? 0)%nat then seg_of (tail q) else first_seg q) = seg_of (head q))
    by (destruct (grown_shape q Hq) as [G _]; exact G).
  rewrite Hf. destruct (full t q) eqn:Ef; unfold full in Ef; bool_to_prop.
  - destruct (_ <? length _)%nat eqn:E2; bool_to_prop; [lia|].
    destruct (max_segments t <=? _)%nat eqn:E3; bool_to_prop; [done|lia].
  - destruct (max_segments t <=? _)%nat eqn:E3; bool_to_prop; [lia|].
    rewrite andb_false_r. rewrite <- Hf. fold (grown q). done.
Qed.

Lemma grown_lookup q i sg : shaped q -> segs (grown q) !! i = Some sg ->
  segs q !! i = Some sg \/ sg = zero_segment /\ i = (seg_of (tail q) - seg_of (head q))%nat.
Proof.
  intros Hq. destruct (grown_shape q Hq) as (_ & Hl & _). revert Hl. unfold grown. cbn [segs].
  destruct (negb _); [|by left]. rewrite length_app. intros Hl E. simpl in Hl.
  apply lookup_app_Some in E as [E|[Hge E]]; [by left|right].
  apply list_lookup_singleton_Some in E as [Ei <-]. split; [done|lia].
Qed.

Lemma pushed_sealed t q payload : shaped q ->
  Forall (fun sg => s_sealed sg = true /\ ready_at sg = 0) (segs q) ->
  Forall (fun sg => s_sealed sg = true /\ ready_at sg = 0) (segs (pushed t q payload)).
Proof.
  intros Hq Hs. unfold pushed, queue_seg_seal, edit_slot, edit_seg, set_segs. cbn [segs first_seg].
  rewrite list_alter_alter_eq. destruct (grown_shape q Hq) as (-> & _).
  apply Forall_lookup_2. intros i sg E. rewrite Forall_lookup in Hs.
  destruct (decide (i = seg_of (tail q) - seg_of (head q))%nat) as [->|Hne].
  - rewrite list_lookup_alter_eq in E. apply fmap_Some in E as (sg0 & E & ->). split; [done|]. cbn.
    by apply (grown_lookup q _ _ Hq) in E as [E|[-> _]]; [apply (Hs _ _ E)|].
  - rewrite list_lookup_alter_ne in E by done.
    by apply (grown_lookup q _ _ Hq) in E as [E|[_ ?]]; [apply (Hs _ _ E)|].
Qed.

Lemma length_pushed t q payload : shaped q ->
  length (segs (pushed t q payload)) = S (seg_of (tail q) - seg_of (head q)).
Proof.
  intros Hq. unfold pushed, queue_seg_seal, edit_slot, edit_seg, set_segs. cbn [segs].
  rewrite !length_alter. apply (grown_shape q Hq).
Qed.

Lemma fifo_pushed c q payload : fifo_ok c q -> db_catalog_edit c = 0 -> db_page_copy c = 0 ->
  Z.of_nat (String.length payload) < 2 ^ 32 -> full CAT_QUEUE q = false ->
  db_queue_push c q payload = (0, pushed CAT_QUEUE q payload) /\ fifo_ok c (pushed CAT_QUEUE q payload) /\
  contents (pushed CAT_QUEUE q payload) = contents q ++ [payload].
Proof.
  intros F He Hp Hl Hfull. pose proof (f_shape _ _ F) as Hq.
  assert (E : db_queue_push c q payload = (0, pushed CAT_QUEUE q payload)).
  { unfold db_queue_push. rewrite push_answers; try done; [|apply F].
    destruct (_ <=? _) eqn:El; bool_to_prop; [lia|]. by rewrite Hfull. }
  destruct (push_ok CAT_QUEUE c q payload _ Hq E) as (Hsh & _).
  split; [done|]. split; [|by apply (contents_push CAT_QUEUE c)].
  constructor; try done; try apply F; [|apply pushed_sealed; [done|apply F]].
  rewrite length_pushed by done. unfold full in Hfull. bool_to_prop. simpl in *. lia.
Qed.

Lemma fifo_popped c q : fifo_ok c q -> (head q < tail q)%nat -> fifo_ok c (popped q).
Proof.
  intros F Hlt. pose proof (f_shape _ _ F) as Hq. destruct (popped_segs q) as [k Ek].
  constructor; try done; try apply F.
  - by apply popped_shaped.
  - rewrite Ek, length_drop. pose proof (f_max _ _ F). lia.
  - rewrite Ek. apply Forall_drop, F.
Qed.

(** ** The queue is a first-in first-out list *)

(** What a program does with a queue, and what it is answered. *)
Inductive qevent :=
  | Enqueued (payload : string)
  | Refused (payload : string) (rc : Z)
  | Dequeued (payload : string)
  | Empty.

Inductive qstep (c : ctx) (rd : string -> Z) : queue -> qevent -> queue -> Prop :=
  | q_push q payload q' : db_queue_push c q payload = (0, q') -> qstep c rd q (Enqueued payload) q'
  | q_full q payload rc q' : db_queue_push c q payload = (rc, q') -> rc <> 0 -> qstep c rd q (Refused payload rc) q'
  | q_pop q payload q' : db_queue_pop c rd q = (0, q', payload) -> qstep c rd q (Dequeued payload) q'
  | q_empty q q' payload : db_queue_pop c rd q = (CybouDB_E_NOTFOUND, q', payload) -> qstep c rd q Empty q'.

Inductive qrun (c : ctx) (rd : string -> Z) : list qevent -> queue -> Prop :=
  | qrun_nil : qrun c rd [] new_queue
  | qrun_snoc evs e q q' : qrun c rd evs q -> qstep c rd q e q' -> qrun c rd (evs ++ [e]) q'.

Definition enqueued (evs : list qevent) : list string :=
  omap (fun e => match e with Enqueued x => Some x | _ => None end) evs.
Definition dequeued (evs : list qevent) : list string :=
  omap (fun e => match e with Dequeued x => Some x | _ => None end) evs.

Section fifo.
Context (c : ctx) (rd : string -> Z).
Context (Hno : db_leases c = false) (Hedit : db_catalog_edit c = 0) (Hcopy : db_page_copy c = 0).
Context (Hchain : forall x, rd x = 0).

Lemma slot_copy_ok m : queue_slot_copy rd m = (0, m_payload m).
Proof using Hchain. unfold queue_slot_copy. rewrite Hchain. by destruct (_ <=? _). Qed.

Lemma fifo_pop q : fifo_ok c q ->
  db_queue_pop c rd q = match contents q with
                        | [] => (CybouDB_E_NOTFOUND, q, EmptyString)
                        | x :: _ => (0, popped q, x)
                        end.
Proof using Hedit Hchain.
  intros F. pose proof (f_shape _ _ F) as Hq. pose proof (sh_order _ Hq).
  destruct (decide (head q = tail q)) as [E|Hne].
  - rewrite contents_nil by lia. unfold db_queue_pop. by rewrite E, Nat.eqb_refl.
  - destruct (shaped_slot q (head q) Hq) as [m Em]; [unfold live; lia|].
    rewrite contents_cons by lia. rewrite Em. apply pop_ok; try done; [lia|apply slot_copy_ok].
Qed.

Lemma fifo_step q e q' : fifo_ok c q -> qstep c rd q e q' ->
  fifo_ok c q' /\ match e with
    | Enqueued x => contents q' = contents q ++ [x]
    | Refused x rc => q' = q /\ (rc = CybouDB_E_VALUE /\ 2 ^ 32 <= Z.of_nat (String.length x) \/
                                rc = CybouDB_E_FULL /\ full CAT_QUEUE q = true)
    | Dequeued x => contents q = x :: contents q'
    | Empty => q' = q /\ contents q = []
    end.
Proof using Hno Hedit Hcopy Hchain.
  intros F. pose proof (f_shape _ _ F) as Hq.
  assert (Hpush : forall payload, db_queue_push c q payload = _) by
    (intros payload; unfold db_queue_push; apply push_answers; try done; apply F).
  destruct 1 as [q payload q' E|q payload rc q' E Hrc|q payload q' E|q q' payload E].
  - pose proof E as E'. rewrite Hpush in E'. destruct (_ <=? _) eqn:El; [done|].
    destruct (full CAT_QUEUE q) eqn:Ef; [done|]. bool_to_prop. injection E' as <-.
    by destruct (fifo_pushed c q payload) as (_ & ? & ?).
  - rewrite Hpush in E. destruct (_ <=? _) eqn:El; bool_to_prop.
    { injection E as <- <-. by split; [|split; [|left]]. }
    destruct (full CAT_QUEUE q) eqn:Ef; injection E as <- <-; [|done]. by split; [|split; [|right]].
  - rewrite fifo_pop in E by done. destruct (contents q) as [|x l] eqn:Ec; [done|]. injection E as <- <-.
    assert (Hlt : (head q < tail q)%nat) by (pose proof (length_contents q) as Hl; rewrite Ec in Hl; simpl in Hl; lia).
    split; [by apply fifo_popped|]. by rewrite contents_popped, Ec.
  - rewrite fifo_pop in E by done. destruct (contents q) as [|x l] eqn:Ec; [|done]. by injection E as <- <-.
Qed.

Lemma new_queue_fifo : fifo_ok c new_queue.
Proof using Hno. by repeat constructor. Qed.

Lemma fifo_run evs q : qrun c rd evs q -> fifo_ok c q /\ enqueued evs = dequeued evs ++ contents q.
Proof using Hno Hedit Hcopy Hchain.
  induction 1 as [|evs e q q' R (F & IH) St]; [by split; [apply new_queue_fifo|]|].
  destruct (fifo_step q e q' F St) as (F' & H). split; [done|].
  unfold enqueued, dequeued in *. rewrite !omap_app, IH.
  destruct e as [x|x rc|x|]; simpl; rewrite ?app_nil_r.
  - by rewrite H, app_assoc.
  - by destruct H as [-> _].
  - by rewrite <- app_assoc, H.
  - by destruct H as [-> _].
Qed.

End fifo.

Lemma fifo_length c q : fifo_ok c q -> Z.of_nat (length (contents q)) <= 495 * 62.
Proof.
  intros F. destruct (f_shape _ _ F) as [Ho Hf Hl _]. pose proof (f_max _ _ F) as Hm.
  rewrite length_contents. change Q_MAX_SEGMENTS with (Z.to_nat 495) in Hm.
  destruct (head q =? tail q)%nat eqn:E; bool_to_prop; [lia|].
  revert Hl Hm. rewrite Hf. unfold seg_of, SEG_SLOTS. lia.
Qed.

(** Whatever is enqueued and dequeued, in whatever order, on a database
    without leases whose pages can be written: the messages handed out are the
    messages accepted, in the order they were accepted, each of them once, and
    what is still to come is what the queue holds.  The queue the run leaves is
    one the validator accepts, its depth is the number of messages it holds, a
    peek announces the size of the oldest and a take hands it over. *)
Theorem queue_is_fifo c rd evs q : db_leases c = false -> db_catalog_edit c = 0 -> db_page_copy c = 0 ->
  (forall x, rd x = 0) -> qrun c rd evs q ->
  enqueued evs = dequeued evs ++ contents q /\
  queue_page_valid c q = true /\
  db_queue_depth q = Z.of_nat (length (contents q)) /\
  match contents q with
  | [] => db_queue_peek q = (CybouDB_E_NOTFOUND, 0) /\
          db_queue_pop c rd q = (CybouDB_E_NOTFOUND, q, EmptyString)
  | x :: l => db_queue_peek q = (0, Z.of_nat (String.length x)) /\
              exists q', db_queue_pop c rd q = (0, q', x) /\ contents q' = l
  end.
Proof.
  intros Hno He Hp Hrd R. destruct (fifo_run c rd Hno He Hp Hrd evs q R) as (F & Hall).
  pose proof (f_shape _ _ F) as Hq. pose proof (sh_order _ Hq). pose proof (fifo_length c q F) as Hlen.
  split; [done|]. split; [apply fifo_valid; [done|apply Hq|done]|]. rewrite fifo_pop by done. split.
  - rewrite length_contents in *. unfold db_queue_depth, u64. rewrite Z.mod_small; lia.
  - unfold db_queue_peek. destruct (contents q) as [|x l] eqn:Ec.
    + destruct (head q =? tail q)%nat eqn:E; bool_to_prop; [done|].
      pose proof (length_contents q) as Hl. rewrite Ec in Hl. simpl in Hl. lia.
    + assert (Hlt : (head q < tail q)%nat) by (pose proof (length_contents q) as Hl; rewrite Ec in Hl; simpl in Hl; lia).
      destruct (head q =? tail q)%nat eqn:E; bool_to_prop; [lia|]. split.
      * rewrite contents_cons in Ec by done. injection Ec as <- _. done.
      * exists (popped q). split; [done|]. by rewrite contents_popped, Ec.
Qed.

Definition plain_ctx : ctx := mk_ctx false 0 0.

(** Two messages in, one out, one in. *)
Lemma queue_is_fifo_witness : exists q,
  qrun plain_ctx (fun _ => 0) [Enqueued "a"; Enqueued "b"; Dequeued "a"; Enqueued "c"] q /\ contents q = ["b"; "c"]%string.
Proof.
  set (step := fun q p => snd (db_queue_push plain_ctx q p)).
  set (q2 := step (step new_queue "a"%string) "b"%string).
  set (q3 := snd (fst (db_queue_pop plain_ctx (fun _ => 0) q2))). exists (step q3 "c"%string).
  assert (R : qrun plain_ctx (fun _ => 0) [Enqueued "a"; Enqueued "b"; Dequeued "a"; Enqueued "c"] (step q3 "c"%string)).
  { change ([Enqueued "a"; Enqueued "b"; Dequeued "a"; Enqueued "c"])
      with (((([] ++ [Enqueued "a"]) ++ [Enqueued "b"]) ++ [Dequeued "a"]) ++ [Enqueued "c"]).
    eapply qrun_snoc; [eapply qrun_snoc; [eapply qrun_snoc; [eapply qrun_snoc; [apply qrun_nil|]|]|]|].
    - apply (q_push _ _ new_queue "a"%string (step new_queue "a"%string)). vm_compute. reflexivity.
    - apply (q_push _ _ _ "b"%string q2). vm_compute. reflexivity.
    - apply (q_pop _ _ _ "a"%string q3). vm_compute. reflexivity.
    - apply q_push. vm_compute. reflexivity. }
  split; [exact R|].
  destruct (queue_is_fifo plain_ctx (fun _ => 0) _ _ eq_refl eq_refl eq_refl (fun _ => eq_refl) R) as (H & _).
  apply (f_equal (drop 1)) in H. symmetry. exact H.
Defined.

(** ** Taking from a queue with leases *)

Lemma popped_accepted c q : accepted c q -> (head q < tail q)%nat -> queue_page_valid c (popped q) = true.
Proof.
  intros G%accepted_good Hlt. pose proof (g_shape _ _ G) as Hq. pose proof (g_leases _ _ G) as Hc.
  destruct (popped_segs q) as [k Ek].
  assert (Hl : forall p, live (popped q) p -> (S (head q) <= p < tail q)%nat /\ live q p)
    by (intros p; unfold live; cbn; lia).
  assert (Hlen : (length (segs (popped q)) <= Q_MAX_SEGMENTS)%nat)
    by (rewrite Ek, length_drop; pose proof (g_max _ _ G); lia).
  assert (Hse : forallb s_sealed (segs (popped q)) = true).
  { apply forallb_forall, List.Forall_forall. rewrite Ek. apply Forall_drop, G. }
  assert (Hsum : lease_summaries_valid c (popped q) = true).
  { apply summaries_valid_spec; [done|by apply popped_shaped|..].
    - intros p m [Hp Hp']%Hl. rewrite popped_slot by done. by apply G.
    - destruct (g_ready _ _ G) as [R1 R2]. split.
      + intros i sg E. rewrite Ek, lookup_drop in E. by apply (R1 _ _ E).
      + intros p sg m [Hp Hp']%Hl. rewrite popped_seg, popped_slot by done. by apply R2. }
  destruct (popped_shaped q Hq Hlt) as [Ho Hf Hsl _].
  unfold queue_page_valid. rewrite Hc, Hsum, Hse. cbn [popped db_catalog_seal with_claim move_head head tail claim first_seg q_sealed].
  rewrite !andb_true_iff, !Nat.leb_le, Nat.eqb_eq. repeat split; try lia; try done.
  change (head (popped q) =? tail (popped q))%nat with (S (head q) =? tail q)%nat in Hsl.
  by destruct (S (head q) =? tail q)%nat; apply Nat.eqb_eq.
Qed.

(** [DEQUEUE] does not look at leases.  On a queue of a database that has
    them it hands over the oldest message even while somebody holds it, and the
    next one even when it has been acknowledged already; both takes leave pages
    the validator accepts, and the ticket of the one that was held is refused
    from then on. *)
Theorem dequeue_ignores_leases c rd q m m' : accepted c q -> db_catalog_edit c = 0 -> (forall x, rd x = 0) ->
  (S (head q) < tail q)%nat ->
  queue_slot_at q (head q) = Some m -> m_state m = QMSG_STATE_CLAIMED ->
  queue_slot_at q (S (head q)) = Some m' -> m_state m' = QMSG_STATE_ACKED ->
  exists q' q'', db_queue_pop c rd q = (0, q', m_payload m) /\ queue_page_valid c q' = true /\
    db_queue_pop c rd q' = (0, q'', m_payload m') /\
    db_queue_ack c q' (head q) (m_token m) = (CybouDB_E_LEASE, q').
Proof.
  intros Ha He Hrd Hlt Em Hm Em' Hm'. pose proof Ha as G%accepted_good. pose proof (g_shape _ _ G) as Hq.
  exists (popped q), (popped (popped q)). split; [apply pop_ok; try done; [lia|by apply slot_copy_ok]|].
  split; [apply popped_accepted; [done|lia]|]. split.
  - apply pop_ok; try done; [|by apply slot_copy_ok].
    change (head (popped q)) with (S (head q)). rewrite popped_slot by (done || lia). done.
  - unfold db_queue_ack, lease_hold. rewrite (g_leases _ _ G). cbn [negb].
    replace (lease_find_slot (popped q) (head q)) with (@None slot); [done|].
    unfold lease_find_slot. cbn [popped db_catalog_seal with_claim move_head head].
    by destruct (head q <? S (head q))%nat eqn:E; bool_to_prop; [|lia].
Qed.

(** Two messages claimed, the second acknowledged: the two takes that follow
    hand out both. *)
Definition second_acked : queue :=
  let q := snd (fst (fst (db_queue_claim lease_ctx one_claimed 1000 30))) in
  snd (db_queue_ack lease_ctx q 1 1).

Lemma dequeue_ignores_leases_witness : exists q' q'',
  db_queue_pop lease_ctx (fun _ => 0) second_acked = (0, q', "a"%string) /\
  db_queue_pop lease_ctx (fun _ => 0) q' = (0, q'', "b"%string).
Proof.
  destruct (dequeue_ignores_leases lease_ctx (fun _ => 0) second_acked
    (mk_slot QMSG_STATE_CLAIMED 1030 1 "a") (mk_slot QMSG_STATE_ACKED 0 1 "b")) as (q' & q'' & H & _ & H' & _).
  - apply accepted_b_spec. vm_compute. reflexivity.
  - reflexivity.
  - reflexivity.
  - vm_compute. lia.
  - vm_compute. reflexivity.
  - reflexivity.
  - vm_compute. reflexivity.
  - reflexivity.
  - exists q', q''. split; [exact H|exact H'].
Defined.
