(* ===== verification/Stream.v ===== *)
(** * Stream: append-only streams and their readers

    [src/core/stream.asm] with the append of [src/core/queue.asm]: the catalog
    page of a stream, the table of named cursors in it, and the operations
    behind APPEND, READ, TRIM, CREATE CURSOR and DROP CURSOR, with the
    validation a commit runs.

    A stream's page is a queue's page with the two positions renamed and its
    records live in a queue's segments, so the page is [LeaseQueue.queue]
    ([S_FIRST] is [head], [S_END] is [tail], the reserved fields at the offsets
    of the claim cursor and the time floor are [claim] and [time_floor]) with the
    cursor table beside it.  Cursor names are the 24 bytes the table holds.  The
    contract is [astream]: the position the kept records begin at, the records,
    and a map from reader to position. *)

From Stdlib Require Import String.
From stdpp Require Import gmap.
From S2P Require Import Prelude LeaseQueue Dequeue.

Open Scope Z_scope.

(** ** Data *)

Definition S_MAX_CURSORS : nat := 8.
Definition SCUR_NAME_MAX : nat := 23.
Definition CybouDB_E_SCHEMA : Z := 27.
Definition CybouDB_E_CURSOR : Z := 34.
Definition CybouDB_E_RETAINED : Z := 35.

Record cursor := mk_cursor {
  scur_name : list Z;
  scur_position : nat;
}.

Definition zero_cursor : cursor := mk_cursor (replicate (S SCUR_NAME_MAX) 0) 0.

Record stream := mk_stream {
  s_name : string;
  s_page : queue;
  s_cursors : nat;
  s_table : list cursor;
}.

(** The page CREATE STREAM publishes. *)
Definition new_stream (name : string) : stream :=
  mk_stream name new_queue 0 (replicate S_MAX_CURSORS zero_cursor).

(** What the rest of the engine answers: the storage ([LeaseQueue.ctx]), whether
    the database has streams, and reading an extent chain. *)
Record sctx := mk_sctx {
  store : ctx;
  db_stream : bool;
  read_chain : string -> Z;
}.

Definition s_first (s : stream) : nat := head (s_page s).
Definition s_end (s : stream) : nat := tail (s_page s).

Definition set_page (s : stream) (q : queue) : stream := mk_stream (s_name s) q (s_cursors s) (s_table s).

(** [db_catalog_edit] on success: a copy whose stamp cleared the span of the
    three positions and which is not sealed. *)
Definition stamp (s : stream) : stream :=
  let q := s_page s in
  set_page s (mk_queue 0 0 0 (first_seg q) (time_floor q) (segs q) false).

(** The two positions, back in their places. *)
Definition put_positions (s : stream) (first last : nat) : stream :=
  let q := s_page s in
  set_page s (mk_queue first last (claim q) (first_seg q) (time_floor q) (segs q) (q_sealed q)).

Definition seal (s : stream) : stream := set_page s (db_catalog_seal (s_page s)).

(** ** Cursors *)

Definition stream_cursor_slot (s : stream) (i : nat) : cursor := nth i (s_table s) zero_cursor.

(** The loop over the bytes of the name looked for, and the check that the
    stored name ends there. *)
Fixpoint name_bytes_match (stored name : list Z) : bool :=
  match name with
  | [] => true
  | b :: name' => (b =? hd 0 stored) && name_bytes_match (tl stored) name'
  end.

Definition cursor_named (name : list Z) (cur : cursor) : bool :=
  name_bytes_match (scur_name cur) name &&
  ((SCUR_NAME_MAX <=? length name)%nat || (nth (length name) (scur_name cur) 0 =? 0)).

Definition db_stream_cursor_find (s : stream) (name : list Z) : option nat :=
  first_from (fun i => cursor_named name (stream_cursor_slot s i)) 0 (s_cursors s).

(** The name with the zeroes behind it. *)
Definition padded (name : list Z) : list Z := name ++ replicate (S SCUR_NAME_MAX - length name) 0.

Definition db_stream_cursor_add (c : sctx) (s : stream) (name : list Z) : Z * stream :=
  if negb (db_stream c) then (CybouDB_E_STATE, s) else
  if (length name =? 0)%nat then (CybouDB_E_VALUE, s) else
  if (SCUR_NAME_MAX <? length name)%nat then (CybouDB_E_VALUE, s) else
  match db_stream_cursor_find s name with
  | Some _ => (CybouDB_E_SCHEMA, s)
  | None =>
      if (S_MAX_CURSORS <=? s_cursors s)%nat then (CybouDB_E_FULL, s) else
      let first := s_first s in
      let last := s_end s in
      if negb (db_catalog_edit (store c) =? 0) then (db_catalog_edit (store c), s) else
      let s := put_positions (stamp s) first last in
      let s := mk_stream (s_name s) (s_page s) (S (s_cursors s))
                 (<[s_cursors s := mk_cursor (padded name) first]> (s_table s)) in
      (0, seal s)
  end.

(** The last cursor moves into the hole and the slot it left is zeroed. *)
Definition db_stream_cursor_drop (c : sctx) (s : stream) (name : list Z) : Z * stream :=
  if negb (db_stream c) then (CybouDB_E_STATE, s) else
  match db_stream_cursor_find s name with
  | None => (CybouDB_E_CURSOR, s)
  | Some i =>
      let first := s_first s in
      let last := s_end s in
      if negb (db_catalog_edit (store c) =? 0) then (db_catalog_edit (store c), s) else
      let s := put_positions (stamp s) first last in
      let n := pred (s_cursors s) in
      let table := if (n =? i)%nat then s_table s else <[i := stream_cursor_slot s n]> (s_table s) in
      let table := <[n := zero_cursor]> table in
      (0, seal (mk_stream (s_name s) (s_page s) n table))
  end.

(** ** Reading *)

(** The result code, the length of the next record and the cursor. *)
Definition db_stream_peek (c : sctx) (s : stream) (name : list Z) : Z * Z * nat :=
  if negb (db_stream c) then (CybouDB_E_STATE, 0, 0%nat) else
  match db_stream_cursor_find s name with
  | None => (CybouDB_E_CURSOR, 0, 0%nat)
  | Some i =>
      let pos := scur_position (stream_cursor_slot s i) in
      if (s_end s <=? pos)%nat then (CybouDB_E_NOTFOUND, 0, i) else
      match queue_slot_at (s_page s) pos with
      | None => (CybouDB_E_STATE, 0, i)
      | Some m => (0, payload_length m, i)
      end
  end.

(** The result code, the stream and the record. *)
Definition db_stream_read (c : sctx) (s : stream) (i : nat) : Z * stream * string :=
  if negb (db_stream c) then (CybouDB_E_STATE, s, EmptyString) else
  if (s_cursors s <=? i)%nat then (CybouDB_E_STATE, s, EmptyString) else
  let pos := scur_position (stream_cursor_slot s i) in
  if (s_end s <=? pos)%nat then (CybouDB_E_NOTFOUND, s, EmptyString) else
  let first := s_first s in
  let last := s_end s in
  match queue_slot_at (s_page s) pos with
  | None => (CybouDB_E_STATE, s, EmptyString)
  | Some m =>
      let '(rc, bytes) := queue_slot_copy (read_chain c) m in
      if negb (rc =? 0) then (rc, s, EmptyString) else
      if negb (db_catalog_edit (store c) =? 0) then (db_catalog_edit (store c), s, EmptyString) else
      let s := put_positions (stamp s) first last in
      let s := mk_stream (s_name s) (s_page s) (s_cursors s)
                 (alter (fun cur => mk_cursor (scur_name cur) (S pos)) i (s_table s)) in
      (0, seal s, bytes)
  end.

(** ** Appending and trimming *)

Definition db_stream_append (c : sctx) (s : stream) (payload : string) : Z * stream :=
  let '(rc, q) := queue_push_common CAT_STREAM (store c) (s_page s) payload in
  (rc, set_page s q).

(** No reader left behind. *)
Definition none_behind (s : stream) (pos : nat) : bool :=
  forallb (fun i => negb (scur_position (stream_cursor_slot s i) <? pos)%nat) (seq 0 (s_cursors s)).

(** The walk over the records being dropped, for the chains they name. *)
Fixpoint records_reached (q : queue) (n pos : nat) : bool :=
  match n with
  | O => true
  | S n' => match queue_slot_at q pos with None => false | Some _ => records_reached q n' (S pos) end
  end.

Definition db_stream_trim (c : sctx) (s : stream) (pos : nat) : Z * stream :=
  if negb (db_stream c) then (CybouDB_E_STATE, s) else
  let first := s_first s in
  let last := s_end s in
  if (last <? pos)%nat then (CybouDB_E_VALUE, s) else
  if (pos <=? first)%nat then (0, s) else
  if negb (none_behind s pos) then (CybouDB_E_RETAINED, s) else
  if negb (db_catalog_edit (store c) =? 0) then (db_catalog_edit (store c), s) else
  let s := put_positions (stamp s) first last in
  if negb (records_reached (s_page s) (pos - first) first) then (CybouDB_E_STATE, s) else
  let q := s_page s in
  let dropped := if (pos =? last)%nat then length (segs q) else (seg_of pos - first_seg q)%nat in
  let q := mk_queue pos last (claim q) (seg_of pos) (time_floor q) (drop dropped (segs q)) (q_sealed q) in
  (0, seal (set_page s q)).

(** ** Validation *)

(** The comparison of two stored names, byte by byte up to the end of both or
    the full width. *)
Fixpoint names_equal (n : nat) (a b : list Z) : bool :=
  match n with
  | O => true
  | S n' => (hd 0 a =? hd 0 b) && ((hd 0 a =? 0) || names_equal n' (tl a) (tl b))
  end.

Definition cursor_valid (s : stream) (i : nat) : bool :=
  let cur := stream_cursor_slot s i in
  negb (hd 0 (scur_name cur) =? 0) &&
  (s_first s <=? scur_position cur)%nat && (scur_position cur <=? s_end s)%nat &&
  forallb (fun j => negb (names_equal SCUR_NAME_MAX (scur_name (stream_cursor_slot s j)) (scur_name cur))) (seq 0 i).

(** A slot no cursor is using holds nothing. *)
Definition slots_clean (s : stream) : bool :=
  forallb (fun cur => forallb (Z.eqb 0) (scur_name cur) && (scur_position cur =? 0)%nat) (drop (s_cursors s) (s_table s)).

(** The walk over the segments that queues and streams share. *)
Definition db_queue_segments_valid (leases : bool) (max : nat) (q : queue) : bool :=
  (head q <=? tail q)%nat && (length (segs q) <=? max)%nat &&
  (first_seg q =? seg_of (head q))%nat &&
  (if (head q =? tail q)%nat then (length (segs q) =? 0)%nat
   else (length (segs q) =? S (seg_of (pred (tail q)) - first_seg q))%nat) &&
  forallb s_sealed (segs q) && (leases || forallb (fun sg => ready_at sg =? 0) (segs q)).

(** The page's own checksum is the catalog's check, before this one. *)
Definition stream_page_valid (c : sctx) (s : stream) : bool :=
  db_stream c && negb (s_name s =? "")%string &&
  (claim (s_page s) =? 0)%nat && (time_floor (s_page s) =? 0) &&
  (s_cursors s <=? S_MAX_CURSORS)%nat &&
  forallb (cursor_valid s) (seq 0 (s_cursors s)) && slots_clean s &&
  db_queue_segments_valid (db_leases (store c)) S_MAX_SEGMENTS (s_page s) &&
  q_sealed (s_page s).

(** ** Names *)

Fixpoint unpad (bytes : list Z) : list Z :=
  match bytes with
  | [] => []
  | b :: bytes' => if b =? 0 then [] else b :: unpad bytes'
  end.

(** What the SQL front end calls a reader's name. *)
Definition name_ok (name : list Z) : Prop :=
  name <> [] /\ (length name <= SCUR_NAME_MAX)%nat /\ Forall (fun b => b <> 0) name.

Lemma unpad_app name n : Forall (fun b => b <> 0) name -> unpad (name ++ replicate n 0) = name.
Proof.
  induction 1 as [|b name Hb _ IH]; simpl; [by destruct n|].
  destruct (b =? 0) eqn:E; bool_to_prop; [done|]. by rewrite IH.
Qed.

Lemma unpad_padded name : name_ok name -> unpad (padded name) = name.
Proof. intros (_ & _ & H). by apply unpad_app. Qed.

(** A match of all the bytes is that the stored name begins with them. *)
Lemma name_match_app name stored n : Forall (fun b => b <> 0) name -> Forall (fun b => b <> 0) stored ->
  name_bytes_match (stored ++ replicate n 0) name = true <-> exists rest, stored = name ++ rest.
Proof.
  intros Hn. revert stored. induction Hn as [|b name Hb Hn IH]; intros stored Hs; simpl.
  - split; [by exists stored|done].
  - rewrite andb_true_iff, Z.eqb_eq. destruct Hs as [|b' stored Hb' Hs]; simpl.
    + split; [|by intros [rest ?]]. destruct n; simpl; intros [? _]; lia.
    + rewrite (IH stored Hs). split.
      * intros (-> & rest & ->). by exists rest.
      * intros [rest [= -> ->]]. split; [done|by exists rest].
Qed.

Lemma nth_padded name k : (length name <= k)%nat -> nth k (padded name) 0 = 0.
Proof.
  intros H. unfold padded. rewrite app_nth2, nth_lookup by lia.
  destruct (_ !! _) as [b|] eqn:E; [|done]. by apply lookup_replicate in E as [-> _].
Qed.

Lemma cursor_named_padded name name' p : name_ok name -> name_ok name' ->
  cursor_named name (mk_cursor (padded name') p) = bool_decide (name = name').
Proof.
  intros (H0 & Hl & Hn) (H0' & Hl' & Hn'). apply eq_true_iff_eq. rewrite bool_decide_eq_true.
  unfold cursor_named. cbn [scur_name]. rewrite andb_true_iff, orb_true_iff, Nat.leb_le, Z.eqb_eq.
  change (padded name') with (name' ++ replicate (S SCUR_NAME_MAX - length name') 0) at 1.
  rewrite name_match_app by done. split.
  - intros [[rest ->] H]. destruct rest as [|b rest]; [by rewrite app_nil_r|].
    rewrite length_app in Hl'. simpl in Hl'. destruct H as [H|H]; [unfold SCUR_NAME_MAX in *; lia|].
    exfalso. unfold padded in H. rewrite <- app_assoc, app_nth2, Nat.sub_diag in H by lia. simpl in H.
    apply Forall_app in Hn' as [_ Hb]. by inversion Hb.
  - intros ->. split; [exists []; by rewrite app_nil_r|]. right. by apply nth_padded.
Qed.

Lemma names_equal_padded n a b x y : Forall (fun b => b <> 0) a -> Forall (fun b => b <> 0) b ->
  (length a < x)%nat -> (length b < y)%nat -> (length a <= n)%nat -> (length b <= n)%nat ->
  names_equal n (a ++ replicate (x - length a) 0) (b ++ replicate (y - length b) 0) = true -> a = b.
Proof.
  intros Ha. revert n b x y. induction Ha as [|u a Hu Ha IH]; intros n b x y Hb Hx Hy Hna Hnb; simpl in *.
  - destruct Hb as [|v b Hv Hb]; [done|]. simpl in Hnb. destruct n as [|n]; [lia|]. destruct x; [lia|].
    cbn [names_equal hd tl replicate app Nat.sub]. rewrite andb_true_iff, Z.eqb_eq. intros [? _]. by subst v.
  - destruct n as [|n]; [lia|]. destruct x as [|x]; [lia|].
    destruct Hb as [|v b Hv Hb]; simpl in Hy, Hnb |- *.
    + destruct y; [lia|]. cbn [hd replicate]. rewrite andb_true_iff, Z.eqb_eq. by intros [? _].
    + destruct y as [|y]; [lia|]. simpl. rewrite andb_true_iff, orb_true_iff, !Z.eqb_eq.
      intros [-> [?|H]]; [done|]. f_equal. apply (IH n b x y); try done; lia.
Qed.

(** ** The contract *)

(** The position the kept records begin at, the records, and where each reader
    is. *)
Record astream := mk_astream {
  a_first : nat;
  a_records : list string;
  a_readers : gmap (list Z) nat;
}.

Definition a_end (a : astream) : nat := (a_first a + length (a_records a))%nat.

(** 463 segments is what a stream keeps at once. *)
Definition a_full (a : astream) : bool := (S_MAX_SEGMENTS <=? seg_of (a_end a) - seg_of (a_first a))%nat.

Definition a_append (a : astream) (x : string) : Z * astream :=
  if 2 ^ 32 <=? Z.of_nat (String.length x) then (CybouDB_E_VALUE, a)
  else if a_full a then (CybouDB_E_FULL, a)
  else (0, mk_astream (a_first a) (a_records a ++ [x]) (a_readers a)).

(** A new reader stands where the stream begins. *)
Definition a_add (a : astream) (name : list Z) : Z * astream :=
  match a_readers a !! name with
  | Some _ => (CybouDB_E_SCHEMA, a)
  | None => if (S_MAX_CURSORS <=? size (a_readers a))%nat then (CybouDB_E_FULL, a)
            else (0, mk_astream (a_first a) (a_records a) (<[name := a_first a]> (a_readers a)))
  end.

Definition a_drop (a : astream) (name : list Z) : Z * astream :=
  match a_readers a !! name with
  | None => (CybouDB_E_CURSOR, a)
  | Some _ => (0, mk_astream (a_first a) (a_records a) (delete name (a_readers a)))
  end.

(** The next record for a reader, and then the reader has seen it. *)
Definition a_read (a : astream) (name : list Z) : Z * astream * string :=
  match a_readers a !! name with
  | None => (CybouDB_E_CURSOR, a, EmptyString)
  | Some pos =>
      match a_records a !! (pos - a_first a)%nat with
      | None => (CybouDB_E_NOTFOUND, a, EmptyString)
      | Some x => (0, mk_astream (a_first a) (a_records a) (<[name := S pos]> (a_readers a)), x)
      end
  end.

(** Everything before [pos] stops being kept, unless a reader needs it. *)
Definition a_trim (a : astream) (pos : nat) : Z * astream :=
  if (a_end a <? pos)%nat then (CybouDB_E_VALUE, a)
  else if (pos <=? a_first a)%nat then (0, a)
  else if bool_decide (map_Forall (fun _ p => (pos <= p)%nat) (a_readers a))
  then (0, mk_astream pos (drop (pos - a_first a) (a_records a)) (a_readers a))
  else (CybouDB_E_RETAINED, a).

(** ** The invariant *)

Definition cell (r : list Z * nat) : cursor := mk_cursor (padded r.1) r.2.

(** The readers of the table, in its order. *)
Definition readers (s : stream) : list (list Z * nat) :=
  map (fun cur => (unpad (scur_name cur), scur_position cur)) (take (s_cursors s) (s_table s)).

Definition abs (s : stream) : astream :=
  mk_astream (s_first s) (contents (s_page s)) (list_to_map (readers s)).

Record stream_ok (c : sctx) (s : stream) : Prop := {
  so_feature : db_stream c = true;
  so_named : s_name s <> ""%string;
  so_shape : shaped (s_page s);
  so_claim : claim (s_page s) = 0%nat;
  so_floor : time_floor (s_page s) = 0;
  so_max : (length (segs (s_page s)) <= S_MAX_SEGMENTS)%nat;
  so_page : q_sealed (s_page s) = true;
  so_sealed : Forall (fun sg => s_sealed sg = true /\ ready_at sg = 0) (segs (s_page s));
  so_count : length (readers s) = s_cursors s;
  so_room : (s_cursors s <= S_MAX_CURSORS)%nat;
  so_table : s_table s = map cell (readers s) ++ replicate (S_MAX_CURSORS - s_cursors s) zero_cursor;
  so_names : NoDup (readers s).*1;
  so_readers : Forall (fun r => name_ok r.1 /\ (s_first s <= r.2 <= s_end s)%nat) (readers s);
}.

(** The table of a list of readers. *)
Definition table_of (rs : list (list Z * nat)) : list cursor :=
  map cell rs ++ replicate (S_MAX_CURSORS - length rs) zero_cursor.

Lemma readers_table name page rs : Forall (fun r => name_ok r.1) rs ->
  readers (mk_stream name page (length rs) (table_of rs)) = rs.
Proof.
  intros H. unfold readers, table_of. cbn [s_cursors s_table]. rewrite take_app_length' by (by rewrite length_map).
  rewrite map_map. rewrite <- (map_id rs) at 2. apply map_ext_in. intros [n p] Hin. rewrite List.Forall_forall in H.
  unfold cell. cbn [scur_name scur_position fst snd]. by rewrite unpad_padded by (by apply (H (n, p))).
Qed.

Lemma table_readers c s : stream_ok c s -> s_table s = table_of (readers s).
Proof. intros O. rewrite (so_table _ _ O). unfold table_of. by rewrite (so_count _ _ O). Qed.

(** What the operations on cursors establish. *)
Lemma stream_ok_readers c s rs : stream_ok c s -> (length rs <= S_MAX_CURSORS)%nat -> NoDup rs.*1 ->
  Forall (fun r => name_ok r.1 /\ (s_first s <= r.2 <= s_end s)%nat) rs ->
  let s' := mk_stream (s_name s) (s_page s) (length rs) (table_of rs) in stream_ok c s' /\ readers s' = rs.
Proof.
  intros O Hl Hnd Hrs. cbn zeta. set (s' := mk_stream _ _ _ _).
  assert (E : readers s' = rs) by (apply readers_table; revert Hrs; apply Forall_impl; by intros ? []).
  split; [|done]. constructor; try apply O; rewrite ?E; done.
Qed.

Lemma table_lookup rs i r : rs !! i = Some r -> nth i (table_of rs) zero_cursor = cell r.
Proof.
  intros E. rewrite nth_lookup. unfold table_of.
  rewrite lookup_app_l by (rewrite length_map; by eapply lookup_lt_Some). by rewrite list_lookup_fmap, E.
Qed.

(** Finding a reader. *)
Lemma find_spec c s name : stream_ok c s -> name_ok name ->
  match db_stream_cursor_find s name with
  | Some i => exists p, readers s !! i = Some (name, p) /\ list_to_map (M := gmap (list Z) nat) (readers s) !! name = Some p
  | None => list_to_map (M := gmap (list Z) nat) (readers s) !! name = None
  end.
Proof.
  intros O Hn. pose proof (so_readers _ _ O) as Hrs. rewrite Forall_lookup in Hrs.
  assert (Hat : forall i n p, readers s !! i = Some (n, p) ->
    cursor_named name (stream_cursor_slot s i) = bool_decide (name = n)).
  { intros i n p E. unfold stream_cursor_slot. rewrite (table_readers _ _ O), (table_lookup _ _ _ E).
    apply cursor_named_padded; [done|]. by apply (Hrs _ _ E). }
  unfold db_stream_cursor_find. destruct (first_from _ _ _) as [i|] eqn:E.
  - apply first_from_Some in E as (Hi & Hb & _). rewrite <- (so_count _ _ O) in Hi.
    destruct (lookup_lt_is_Some_2 (readers s) i) as [[n p] Er]; [lia|].
    rewrite (Hat _ _ _ Er), bool_decide_eq_true in Hb. subst n. exists p. split; [done|].
    apply elem_of_list_to_map_1; [apply O|]. by eapply list_elem_of_lookup_2.
  - apply not_elem_of_list_to_map_1. intros (i & Hin)%list_elem_of_lookup_1.
    apply list_lookup_fmap_Some in Hin as ([n p] & -> & Er). simpl in *.
    pose proof (lookup_lt_Some _ _ _ Er) as Hlt. rewrite (so_count _ _ O) in Hlt.
    pose proof (first_from_None _ _ _ E i ltac:(lia)) as Hf. simpl in Hf.
    rewrite (Hat _ _ _ Er), bool_decide_eq_false in Hf. done.
Qed.

(** ** The operations implement the contract *)

(** A page edited, its positions put back and sealed is the page it was. *)
Lemma page_restored c s : stream_ok c s ->
  db_catalog_seal (s_page (put_positions (stamp s) (s_first s) (s_end s))) = s_page s.
Proof.
  intros O. pose proof (so_claim _ _ O). pose proof (so_page _ _ O).
  destruct s as [nm [h t cl fs tf sg se] n tb]. cbn in *. by subst.
Qed.

(** The last one moved into the hole, and its own place cleared. *)
Lemma hole_filled (l : list (list Z * nat)) y i x : (l ++ [y]) !! i = Some x ->
  (length l < S_MAX_CURSORS)%nat ->
  let T := table_of (l ++ [y]) in
  let n := length l in
  exists rs, length rs = n /\ l ++ [y] ≡ₚ x :: rs /\
    <[n := zero_cursor]> (if (n =? i)%nat then T else <[i := nth n T zero_cursor]> T) = table_of rs.
Proof.
  intros E Hl T n.
  assert (Hclear : forall rs z, length rs = n ->
    <[n := zero_cursor]> (map cell rs ++ cell z :: replicate (S_MAX_CURSORS - S n) zero_cursor) = table_of rs).
  { intros rs z Hrs. rewrite insert_app_r_alt by (rewrite length_map; lia). unfold table_of.
    rewrite length_map, Hrs, Nat.sub_diag. f_equal. cbn [insert list_insert].
    by replace (S_MAX_CURSORS - n)%nat with (S (S_MAX_CURSORS - S n)) by lia. }
  assert (ET : T = map cell l ++ cell y :: replicate (S_MAX_CURSORS - S n) zero_cursor).
  { unfold T, table_of. rewrite map_app, length_app, <- app_assoc. simpl. by rewrite Nat.add_1_r. }
  destruct (n =? i)%nat eqn:Ei; bool_to_prop.
  - subst i. exists l. rewrite lookup_app_r, Nat.sub_diag in E by done. injection E as <-.
    split; [done|]. split; [solve_Permutation|]. rewrite ET. by apply Hclear.
  - pose proof (lookup_lt_Some _ _ _ E) as Hi. rewrite length_app in Hi. simpl in Hi.
    rewrite lookup_app_l in E by lia. exists (<[i := y]> l). rewrite length_insert. split; [done|]. split.
    + rewrite insert_take_drop by lia. rewrite <- (take_drop_middle _ _ _ E) at 1. solve_Permutation.
    + unfold T at 1. rewrite (table_lookup _ _ y) by (by rewrite lookup_app_r, Nat.sub_diag).
      rewrite ET, insert_app_l by (rewrite length_map; lia).
      rewrite <- (Hclear (<[i := y]> l) y) by (by rewrite length_insert).
      by rewrite <- list_fmap_insert.
Qed.

Section contract.
Context (c : sctx) (Hedit : db_catalog_edit (store c) = 0) (Hcopy : db_page_copy (store c) = 0).
Context (Hchain : forall x, read_chain c x = 0).
Context (s : stream) (O : stream_ok c s).

Lemma a_end_abs : a_end (abs s) = s_end s.
Proof using O.
  unfold a_end, abs, s_end, s_first. cbn. rewrite length_contents. pose proof (sh_order _ (so_shape _ _ O)). lia.
Qed.

Lemma size_readers : size (a_readers (abs s)) = s_cursors s.
Proof using O.
  rewrite <- (so_count _ _ O). cbn [abs a_readers]. rewrite <- (length_map fst (readers s)).
  rewrite <- (size_list_to_set (C := gset (list Z))) by apply O.
  rewrite <- size_dom. f_equal. apply leibniz_equiv, dom_list_to_map.
Qed.

Lemma abs_readers rs : Forall (fun r => name_ok r.1) rs ->
  abs (mk_stream (s_name s) (s_page s) (length rs) (table_of rs)) =
  mk_astream (a_first (abs s)) (a_records (abs s)) (list_to_map rs).
Proof using. intros H. unfold abs. cbn [s_first s_page]. by rewrite readers_table. Qed.

Lemma append_spec x : let '(rc, s') := db_stream_append c s x in
  stream_ok c s' /\ (rc, abs s') = a_append (abs s) x.
Proof using O Hedit Hcopy.
  pose proof (so_shape _ _ O) as Hq. unfold db_stream_append.
  rewrite push_answers by (try done; apply O). unfold a_append.
  assert (Ef : a_full (abs s) = full CAT_STREAM (s_page s)) by (unfold a_full, full; by rewrite a_end_abs).
  assert (Eid : set_page s (s_page s) = s) by (by destruct s).
  destruct (_ <=? _) eqn:El; [by rewrite Eid|]. rewrite Ef. bool_to_prop.
  destruct (full CAT_STREAM (s_page s)) eqn:E; [by rewrite Eid|].
  assert (Hp : queue_push_common CAT_STREAM (store c) (s_page s) x = (0, pushed CAT_STREAM (s_page s) x)).
  { rewrite push_answers by (try done; apply O). destruct (_ <=? _) eqn:El'; bool_to_prop; [lia|]. by rewrite E. }
  destruct (push_ok CAT_STREAM (store c) (s_page s) x _ Hq Hp) as (Hsh & Hh & Ht & _).
  split.
  - constructor; try apply O; try done.
    + cbn [set_page s_page]. rewrite length_pushed by done. unfold full in E. bool_to_prop. simpl in *. lia.
    + apply pushed_sealed; [done|apply O].
    + eapply Forall_impl; [|apply O]. cbn. intros r [? ?]. split; [done|]. unfold s_end, s_first in *. cbn. lia.
  - f_equal. unfold abs, s_first. cbn [set_page s_page]. f_equal; try done.
    by apply (contents_push CAT_STREAM (store c)).
Qed.

Lemma add_spec name : name_ok name -> let '(rc, s') := db_stream_cursor_add c s name in
  stream_ok c s' /\ (rc, abs s') = a_add (abs s) name.
Proof using O Hedit.
  intros Hn. unfold db_stream_cursor_add, a_add. rewrite (so_feature _ _ O), Hedit, size_readers. cbn [negb Z.eqb].
  pose proof (find_spec c s name O Hn) as Hf. pose proof Hn as (H0 & Hl & _).
  destruct (length name =? 0)%nat eqn:E0; bool_to_prop; [by destruct name|].
  destruct (SCUR_NAME_MAX <? length name)%nat eqn:E1; bool_to_prop; [lia|].
  cbn [abs a_readers]. destruct (db_stream_cursor_find s name) as [i|].
  { destruct Hf as (p & _ & ->). done. }
  rewrite Hf. destruct (S_MAX_CURSORS <=? s_cursors s)%nat eqn:E2; bool_to_prop; [done|].
  set (rs := readers s ++ [(name, s_first s)]).
  assert (Hrs : Forall (fun r => name_ok r.1 /\ (s_first s <= r.2 <= s_end s)%nat) rs).
  { apply Forall_app. split; [apply O|]. constructor; [|constructor]. split; [done|].
    pose proof (sh_order _ (so_shape _ _ O)). unfold s_first, s_end. cbn. lia. }
  assert (Hlen : length rs = S (s_cursors s)) by (unfold rs; rewrite length_app, (so_count _ _ O); simpl; lia).
  assert (Et : <[s_cursors s := mk_cursor (padded name) (s_first s)]> (s_table s) = table_of rs).
  { rewrite (so_table _ _ O). rewrite insert_app_r_alt by (rewrite length_map, (so_count _ _ O); lia).
    rewrite length_map, (so_count _ _ O), Nat.sub_diag. unfold table_of. rewrite Hlen. unfold rs.
    rewrite map_app, <- app_assoc. f_equal.
    by replace (S_MAX_CURSORS - s_cursors s)%nat with (S (S_MAX_CURSORS - S (s_cursors s))) by lia. }
  assert (Hnd : NoDup rs.*1).
  { unfold rs. rewrite fmap_app. apply list.NoDup_app. split; [apply O|]. split; [|apply NoDup_singleton].
    cbn. intros n Hin ->%list_elem_of_singleton. by apply not_elem_of_list_to_map_2 in Hf. }
  destruct (stream_ok_readers c s rs O ltac:(lia) Hnd Hrs) as (O' & _).
  unfold seal, set_page. cbn [s_name s_page s_cursors s_table]. rewrite (page_restored c) by done.
  cbn [put_positions stamp set_page s_cursors s_table s_name]. rewrite Et, <- Hlen. split; [done|].
  rewrite abs_readers by (revert Hrs; apply Forall_impl; by intros ? []). cbn [a_first a_records abs]. f_equal. f_equal.
  unfold rs. rewrite list_to_map_snoc; [done|]. by apply not_elem_of_list_to_map_2.
Qed.

Lemma drop_spec name : name_ok name -> let '(rc, s') := db_stream_cursor_drop c s name in
  stream_ok c s' /\ (rc, abs s') = a_drop (abs s) name.
Proof using O Hedit.
  intros Hn. unfold db_stream_cursor_drop, a_drop. rewrite (so_feature _ _ O), Hedit. cbn [negb Z.eqb abs a_readers].
  pose proof (find_spec c s name O Hn) as Hf. destruct (db_stream_cursor_find s name) as [i|]; [|by rewrite Hf].
  destruct Hf as (p & Er & ->). pose proof (lookup_lt_Some _ _ _ Er) as Hi.
  destruct (@exists_last _ (readers s)) as (l & y & E0); [by intros E; rewrite E in Er|]. rewrite E0 in Er, Hi |- *.
  assert (Hc : s_cursors s = S (length l)) by (rewrite <- (so_count _ _ O), E0, length_app; simpl; lia).
  pose proof (so_room _ _ O) as Hroom.
  destruct (hole_filled l y i (name, p) Er ltac:(lia)) as (rs & Hlen & Hperm & Et).
  pose proof (so_readers _ _ O) as Hrs. rewrite E0, Hperm in Hrs. apply list.Forall_cons in Hrs as [_ Hrs].
  pose proof (so_names _ _ O) as Hnd. rewrite E0, Hperm in Hnd. cbn in Hnd. apply list.NoDup_cons in Hnd as [Hnin Hnd].
  destruct (stream_ok_readers c s rs O ltac:(lia) Hnd Hrs) as (O' & _).
  unfold seal, set_page. cbn [s_name s_page s_cursors s_table]. rewrite (page_restored c) by done.
  cbn [put_positions stamp set_page s_cursors s_table s_name]. unfold stream_cursor_slot.
  change (s_table (put_positions (stamp s) (s_first s) (s_end s))) with (s_table s). rewrite Hc, (table_readers _ _ O), E0. cbn [pred].
  rewrite Et, <- Hlen. split; [done|].
  rewrite abs_readers by (revert Hrs; apply Forall_impl; by intros ? []). cbn [a_first a_records abs]. f_equal. f_equal.
  rewrite (list_to_map_proper (l ++ [y]) ((name, p) :: rs)); [|by rewrite <- E0; apply O|done].
  cbn. rewrite delete_insert_id; [done|]. by apply not_elem_of_list_to_map_1.
Qed.

Lemma peek_spec name : name_ok name ->
  match a_read (abs s) name with
  | (0, _, x) => exists i p, db_stream_peek c s name = (0, Z.of_nat (String.length x), i) /\
                  readers s !! i = Some (name, p)
  | (rc, _, _) => exists i, db_stream_peek c s name = (rc, 0, i)
  end.
Proof using O.
  intros Hn. unfold db_stream_peek, a_read. rewrite (so_feature _ _ O). cbn [negb abs a_readers a_records a_first].
  pose proof (find_spec c s name O Hn) as Hf. destruct (db_stream_cursor_find s name) as [i|].
  - destruct Hf as (p & Er & ->). unfold stream_cursor_slot.
    rewrite (table_readers _ _ O), (table_lookup _ _ _ Er). cbn [cell scur_position snd].
    pose proof (so_readers _ _ O) as Hrs. rewrite Forall_lookup in Hrs. destruct (Hrs _ _ Er) as [_ Hp]. simpl in Hp.
    pose proof (length_contents (s_page s)) as Hl.
    destruct (s_end s <=? p)%nat eqn:E; bool_to_prop.
    + rewrite (lookup_ge_None_2 (contents (s_page s))) by (unfold s_first, s_end in *; lia). by exists i.
    + destruct (shaped_slot (s_page s) p (so_shape _ _ O)) as [m Em]; [unfold live, s_first, s_end in *; lia|].
      rewrite Em. rewrite (contents_lookup _ _ m).
      * by exists i, p.
      * unfold s_first in *. by replace (head (s_page s) + (p - head (s_page s)))%nat with p by lia.
      * unfold s_first, s_end in *. lia.
  - rewrite Hf. by exists 0%nat.
Qed.

Lemma read_spec name i p : name_ok name -> readers s !! i = Some (name, p) ->
  let '(rc, s', x) := db_stream_read c s i in
  stream_ok c s' /\ (rc, abs s', x) = a_read (abs s) name.
Proof using O Hedit Hchain.
  intros Hn Er. unfold db_stream_read, a_read. rewrite (so_feature _ _ O), Hedit. cbn [negb Z.eqb abs a_readers a_records a_first].
  pose proof (lookup_lt_Some _ _ _ Er) as Hi. rewrite (so_count _ _ O) in Hi.
  destruct (s_cursors s <=? i)%nat eqn:E0; bool_to_prop; [lia|].
  unfold stream_cursor_slot. rewrite (table_readers _ _ O), (table_lookup _ _ _ Er). cbn [cell scur_position snd].
  assert (Em : list_to_map (M := gmap (list Z) nat) (readers s) !! name = Some p)
    by (apply elem_of_list_to_map_1; [apply O|by eapply list_elem_of_lookup_2]).
  rewrite Em. pose proof (so_readers _ _ O) as Hrs. pose proof (proj1 (Forall_lookup _ _) Hrs _ _ Er) as [_ Hp].
  simpl in Hp. pose proof (length_contents (s_page s)) as Hl.
  destruct (s_end s <=? p)%nat eqn:E; bool_to_prop.
  { rewrite (lookup_ge_None_2 (contents (s_page s))) by (unfold s_first, s_end in *; lia). done. }
  destruct (shaped_slot (s_page s) p (so_shape _ _ O)) as [m Es]; [unfold live, s_first, s_end in *; lia|].
  rewrite Es. rewrite (contents_lookup _ _ m); cycle 1.
  { unfold s_first in *. by replace (head (s_page s) + (p - head (s_page s)))%nat with p by lia. }
  { unfold s_first, s_end in *. lia. }
  rewrite (slot_copy_ok (read_chain c) Hchain). cbn [Z.eqb negb].
  set (rs := <[i := (name, S p)]> (readers s)).
  assert (Hlen : length rs = s_cursors s) by (unfold rs; by rewrite length_insert, (so_count _ _ O)).
  assert (Hf : rs.*1 = (readers s).*1).
  { unfold rs. rewrite list_fmap_insert, list_insert_id; [done|]. by rewrite list_lookup_fmap, Er. }
  assert (Hrs' : Forall (fun r => name_ok r.1 /\ (s_first s <= r.2 <= s_end s)%nat) rs).
  { apply Forall_insert; [done|]. split; [done|]. simpl. lia. }
  assert (Et : alter (fun cur => mk_cursor (scur_name cur) (S p)) i (table_of (readers s)) = table_of rs).
  { unfold table_of. rewrite Hlen, (so_count _ _ O), alter_app_l by (rewrite length_map, (so_count _ _ O); lia).
    f_equal. unfold rs. rewrite list_fmap_insert. apply list_eq. intros j.
    destruct (decide (j = i)) as [->|Hj].
    - rewrite list_lookup_alter_eq, list_lookup_insert_eq by (rewrite length_map, (so_count _ _ O); lia).
      by rewrite list_lookup_fmap, Er.
    - by rewrite list_lookup_alter_ne, list_lookup_insert_ne. }
  destruct (stream_ok_readers c s rs O ltac:(rewrite Hlen; apply O) ltac:(rewrite Hf; apply O) Hrs') as (O' & _).
  unfold seal, set_page. cbn [s_name s_page s_cursors s_table]. rewrite (page_restored c) by done.
  cbn [put_positions stamp set_page s_cursors s_table s_name]. rewrite (table_readers _ _ O), Et, <- Hlen. split; [done|].
  rewrite abs_readers by (revert Hrs'; apply Forall_impl; by intros ? []). cbn [a_first a_records abs]. f_equal. f_equal. f_equal.
  apply map_eq. intros n. destruct (decide (n = name)) as [->|Hne].
  - rewrite lookup_insert_eq. apply elem_of_list_to_map_1; [by rewrite Hf; apply O|].
    eapply list_elem_of_lookup_2, list_lookup_insert_eq. by rewrite (so_count _ _ O).
  - rewrite lookup_insert_ne by done. symmetry. apply option_eq. intros v.
    rewrite <- !elem_of_list_to_map by (rewrite ?Hf; apply O).
    rewrite !list_elem_of_lookup. apply exist_proper. intros j. unfold rs.
    destruct (decide (j = i)) as [->|Hj]; [|by rewrite list_lookup_insert_ne].
    rewrite list_lookup_insert_eq, Er by (by rewrite (so_count _ _ O)). by split; intros [= -> _].
Qed.

Lemma none_behind_spec pos :
  none_behind s pos = bool_decide (map_Forall (fun _ p => (pos <= p)%nat) (a_readers (abs s))).
Proof using O.
  apply eq_true_iff_eq. rewrite bool_decide_eq_true. unfold none_behind. rewrite forallb_forall.
  cbn [abs a_readers].
  assert (Hat : forall i n p, readers s !! i = Some (n, p) -> scur_position (stream_cursor_slot s i) = p).
  { intros i n p E. unfold stream_cursor_slot. by rewrite (table_readers _ _ O), (table_lookup _ _ _ E). }
  split.
  - intros H n p E. apply elem_of_list_to_map_2, list_elem_of_lookup_1 in E as [i E].
    pose proof (lookup_lt_Some _ _ _ E) as Hi. rewrite (so_count _ _ O) in Hi.
    specialize (H i ltac:(apply in_seq; lia)). rewrite (Hat _ _ _ E) in H.
    destruct (p <? pos)%nat eqn:Ep; [done|]. by bool_to_prop.
  - intros H i Hi%in_seq. destruct (lookup_lt_is_Some_2 (readers s) i) as [[n p] E]; [rewrite (so_count _ _ O); lia|].
    rewrite (Hat _ _ _ E). assert (pos <= p)%nat.
    { apply (H n). apply elem_of_list_to_map_1; [apply O|]. by eapply list_elem_of_lookup_2. }
    destruct (p <? pos)%nat eqn:Ep; bool_to_prop; [lia|done].
Qed.

Lemma reached_ok q n pos : (forall p, (pos <= p < pos + n)%nat -> is_Some (queue_slot_at q p)) ->
  records_reached q n pos = true.
Proof using.
  revert pos. induction n as [|n IH]; intros pos H; simpl; [done|].
  destruct (H pos ltac:(lia)) as [m ->]. apply IH. intros p Hp. apply H. lia.
Qed.

Lemma trim_spec pos : let '(rc, s') := db_stream_trim c s pos in
  stream_ok c s' /\ (rc, abs s') = a_trim (abs s) pos.
Proof using O Hedit.
  pose proof (so_shape _ _ O) as Hq. unfold db_stream_trim, a_trim. rewrite a_end_abs, <- none_behind_spec.
  rewrite (so_feature _ _ O), Hedit. cbn [negb Z.eqb]. change (a_first (abs s)) with (s_first s).
  destruct (s_end s <? pos)%nat eqn:E1; bool_to_prop; [done|].
  destruct (pos <=? s_first s)%nat eqn:E2; bool_to_prop; [done|].
  destruct (none_behind s pos) eqn:E3; [|done]. cbn [negb].
  set (s1 := put_positions (stamp s) (s_first s) (s_end s)).
  assert (E4 : records_reached (s_page s1) (pos - s_first s) (s_first s) = true).
  { apply reached_ok. intros p Hp. apply (shaped_slot (s_page s) p Hq). unfold live, s_first, s_end in *. lia. }
  rewrite E4. cbn [negb].
  assert (Ep : db_catalog_seal (mk_queue pos (s_end s) (claim (s_page s1)) (seg_of pos) (time_floor (s_page s1))
    (drop (if (pos =? s_end s)%nat then length (segs (s_page s1)) else (seg_of pos - first_seg (s_page s1))%nat)
       (segs (s_page s1))) (q_sealed (s_page s1))) = move_head (s_page s) pos).
  { unfold move_head, db_catalog_seal. cbn. rewrite (so_claim _ _ O), (so_page _ _ O). done. }
  unfold seal. cbn [set_page s_page s_name s_cursors s_table]. rewrite Ep.
  change (mk_stream (s_name s1) (move_head (s_page s) pos) (s_cursors s1) (s_table s1)) with (set_page s (move_head (s_page s) pos)).
  assert (Hmv : shaped (move_head (s_page s) pos)) by (apply shaped_move; [done|unfold s_first, s_end in *; lia]).
  split.
  - constructor; try apply O; try done.
    + cbn [set_page s_page move_head segs]. rewrite length_drop. pose proof (so_max _ _ O). lia.
    + cbn [set_page s_page move_head segs]. apply Forall_drop, O.
    + rewrite none_behind_spec, bool_decide_eq_true in E3. apply Forall_lookup_2. intros i [n p] E.
      change (readers (set_page s (move_head (s_page s) pos))) with (readers s) in E.
      destruct (proj1 (Forall_lookup _ _) (so_readers _ _ O) _ _ E) as [Hn Hp]. split; [done|].
      split; [|apply Hp]. apply (E3 n). apply elem_of_list_to_map_1; [apply O|]. by eapply list_elem_of_lookup_2.
  - f_equal. unfold abs. f_equal. cbn [set_page s_page a_records]. apply contents_move; [done|unfold s_first, s_end in *; lia].
Qed.

(** What the commit's validation asks of a stream. *)
Lemma stream_ok_valid : stream_page_valid c s = true.
Proof using O.
  pose proof (so_shape _ _ O) as [Ho Hf Hl Hs]. pose proof (so_readers _ _ O) as Hrs. rewrite Forall_lookup in Hrs.
  assert (Hat : forall i, (i < s_cursors s)%nat -> exists n p, readers s !! i = Some (n, p) /\ name_ok n /\
    (s_first s <= p <= s_end s)%nat /\ stream_cursor_slot s i = cell (n, p)).
  { intros i Hi. destruct (lookup_lt_is_Some_2 (readers s) i) as [[n p] E]; [by rewrite (so_count _ _ O)|].
    exists n, p. unfold stream_cursor_slot. rewrite (table_readers _ _ O), (table_lookup _ _ _ E).
    destruct (Hrs _ _ E) as [? ?]. by do 3 (split; [done|]). }
  unfold stream_page_valid, db_queue_segments_valid.
  rewrite (so_feature _ _ O), (so_claim _ _ O), (so_floor _ _ O), (so_page _ _ O).
  rewrite !andb_true_iff, !Nat.leb_le, !forallb_forall, !Nat.eqb_eq. split_and!; try done; try apply O.
  - apply negb_true_iff, String.eqb_neq, O.
  - intros i Hi%in_seq. destruct (Hat i ltac:(lia)) as (n & p & E & Hn & Hp & Hc). unfold cursor_valid.
    rewrite Hc. cbn [cell scur_name scur_position fst snd]. rewrite !andb_true_iff, !Nat.leb_le, forallb_forall.
    split_and!; [|lia|lia|].
    + destruct Hn as (H0 & _ & Hb). destruct Hb as [|b n Hb _]; [done|]. cbn. by destruct (b =? 0) eqn:Eb; bool_to_prop.
    + intros j Hj%in_seq. destruct (Hat j ltac:(lia)) as (n' & p' & E' & Hn' & _ & ->). cbn [cell scur_name fst].
      apply negb_true_iff. destruct (names_equal _ _ _) eqn:En; [|done]. exfalso.
      destruct Hn as (_ & Hl1 & Hb1), Hn' as (_ & Hl2 & Hb2).
      apply names_equal_padded in En as ->; try done; [|lia..].
      assert (j = i); [|lia]. eapply NoDup_lookup; [apply (so_names _ _ O)|..]; by rewrite list_lookup_fmap, ?E, ?E'.
  - unfold slots_clean. rewrite (so_table _ _ O), drop_app_length' by (by rewrite length_map, (so_count _ _ O)).
    apply forallb_forall. intros cur [-> _]%list_elem_of_In%elem_of_replicate. done.
  - by destruct (_ =? _)%nat; apply Nat.eqb_eq.
  - intros sg Hsg. pose proof (so_sealed _ _ O) as H. rewrite List.Forall_forall in H. by apply H.
  - apply orb_true_iff. right. apply forallb_forall. intros sg Hsg. pose proof (so_sealed _ _ O) as H.
    rewrite List.Forall_forall in H. by apply Z.eqb_eq, H.
Qed.

End contract.

Lemma new_stream_ok c name : db_stream c = true -> name <> ""%string -> stream_ok c (new_stream name).
Proof. intros Hc Hn. repeat constructor; try done. Qed.

(** C10: the pages implement the contract.  On a stream that holds the invariant
    - which the page CREATE STREAM publishes does, and which the validator of
    every commit accepts - with pages that can be written and chains that can be
    read, every operation answers what the contract answers, leaves what the
    contract leaves and keeps the invariant, refusals included. *)
Theorem stream_implements_contract c s : stream_ok c s ->
  db_catalog_edit (store c) = 0 -> db_page_copy (store c) = 0 -> (forall x, read_chain c x = 0) ->
  stream_page_valid c s = true /\
  (forall x, let '(rc, s') := db_stream_append c s x in stream_ok c s' /\ (rc, abs s') = a_append (abs s) x) /\
  (forall pos, let '(rc, s') := db_stream_trim c s pos in stream_ok c s' /\ (rc, abs s') = a_trim (abs s) pos) /\
  forall name, name_ok name ->
    (let '(rc, s') := db_stream_cursor_add c s name in stream_ok c s' /\ (rc, abs s') = a_add (abs s) name) /\
    (let '(rc, s') := db_stream_cursor_drop c s name in stream_ok c s' /\ (rc, abs s') = a_drop (abs s) name) /\
    (let '(rc, len, i) := db_stream_peek c s name in
     if rc =? 0 then let '(rc', s', x) := db_stream_read c s i in
       stream_ok c s' /\ rc' = 0 /\ len = Z.of_nat (String.length x) /\ (0, abs s', x) = a_read (abs s) name
     else a_read (abs s) name = (rc, abs s, EmptyString)).
Proof.
  intros O He Hp Hr. split; [by apply stream_ok_valid|]. split; [by intros; apply append_spec|].
  split; [by intros; apply trim_spec|]. intros name Hn. split; [by apply add_spec|]. split; [by apply drop_spec|].
  pose proof (peek_spec c s O name Hn) as Hk.
  destruct (a_read (abs s) name) as [[rc a] x] eqn:Ea. destruct (decide (rc = 0)) as [->|Hne].
  - destruct Hk as (i & p & -> & Er). cbn [Z.eqb].
    pose proof (read_spec c He Hr s O name i p Hn Er) as H. destruct (db_stream_read c s i) as [[rc' s'] x'].
    destruct H as (O' & H). rewrite Ea in H. by injection H as -> <- ->.
  - assert (Hk' : exists i, db_stream_peek c s name = (rc, 0, i)) by (by destruct rc).
    destruct Hk' as (i & ->). destruct (rc =? 0) eqn:E; bool_to_prop; [done|].
    unfold a_read in Ea. destruct (_ !! name); [destruct (_ !! _)|]; by injection Ea as <- <- <-.
Qed.

Definition plain_sctx : sctx := mk_sctx plain_ctx true (fun _ => 0).

(** A new stream's first reader has nothing to read. *)
Lemma stream_implements_contract_witness :
  let s := snd (db_stream_cursor_add plain_sctx (new_stream "log") [97]) in
  stream_ok plain_sctx s /\ abs s = mk_astream 0 [] {[ [97] := 0%nat ]}.
Proof.
  cbn zeta. destruct (stream_implements_contract plain_sctx (new_stream "log")) as (_ & _ & _ & H).
  - by apply new_stream_ok.
  - reflexivity.
  - reflexivity.
  - reflexivity.
  - destruct (H [97]) as (Ha & _).
    + split; [done|]. split; [vm_compute; lia|]. by repeat constructor.
    + destruct (db_stream_cursor_add plain_sctx (new_stream "log") [97]) as [rc s'].
      destruct Ha as (O' & Ha). split; [exact O'|].
      assert (E : a_add (abs (new_stream "log")) [97] = (0, mk_astream 0 [] {[ [97] := 0%nat ]})) by (vm_compute; reflexivity).
      rewrite E in Ha. exact (f_equal snd Ha).
Defined.

(** ** Histories *)

(** What was done to a stream; a refusal is [Declined]. *)
Inductive sevent :=
  | Appended (x : string)
  | Joined (name : list Z)
  | Left (name : list Z)
  | ReadBy (name : list Z) (x : string)
  | Trimmed (pos : nat)
  | Declined.

Inductive sstep (c : sctx) : stream -> sevent -> stream -> Prop :=
  | s_append s x rc s' : db_stream_append c s x = (rc, s') ->
      sstep c s (if rc =? 0 then Appended x else Declined) s'
  | s_join s name rc s' : name_ok name -> db_stream_cursor_add c s name = (rc, s') ->
      sstep c s (if rc =? 0 then Joined name else Declined) s'
  | s_leave s name rc s' : name_ok name -> db_stream_cursor_drop c s name = (rc, s') ->
      sstep c s (if rc =? 0 then Left name else Declined) s'
  | s_read s name len i rc s' x : name_ok name -> db_stream_peek c s name = (0, len, i) ->
      db_stream_read c s i = (rc, s', x) -> sstep c s (if rc =? 0 then ReadBy name x else Declined) s'
  | s_trim s pos rc s' : db_stream_trim c s pos = (rc, s') ->
      sstep c s (if rc =? 0 then Trimmed pos else Declined) s'.

Inductive srun (c : sctx) (name : string) : list sevent -> stream -> Prop :=
  | srun_nil : srun c name [] (new_stream name)
  | srun_snoc evs e s s' : srun c name evs s -> sstep c s e s' -> srun c name (evs ++ [e]) s'.

(** Every record ever appended, the position trimmed to, and for each reader
    where it began and what it has been handed since. *)
Record journal := mk_journal {
  j_all : list string;
  j_first : nat;
  j_readers : gmap (list Z) (nat * list string);
}.

Definition note (j : journal) (e : sevent) : journal :=
  match e with
  | Appended x => mk_journal (j_all j ++ [x]) (j_first j) (j_readers j)
  | Joined name => mk_journal (j_all j) (j_first j) (<[name := (j_first j, [])]> (j_readers j))
  | Left name => mk_journal (j_all j) (j_first j) (delete name (j_readers j))
  | ReadBy name x => mk_journal (j_all j) (j_first j) (alter (fun r => (r.1, r.2 ++ [x])) name (j_readers j))
  | Trimmed pos => mk_journal (j_all j) (Nat.max (j_first j) pos) (j_readers j)
  | Declined => j
  end.

Definition journal_of (evs : list sevent) : journal := fold_left note evs (mk_journal [] 0 ∅).

(** The contract's state tells the journal. *)
Record tells (a : astream) (j : journal) : Prop := {
  t_first : a_first a = j_first j;
  t_kept : a_records a = drop (a_first a) (j_all j);
  t_end : a_end a = length (j_all j);
  t_where : a_readers a = (fun r => r.1 + length r.2)%nat <$> j_readers j;
  t_inside : map_Forall (fun _ p => (a_first a <= p <= a_end a)%nat) (a_readers a);
  t_seen : map_Forall (fun _ r => r.2 = take (length r.2) (drop r.1 (j_all j))) (j_readers j);
}.

Lemma seen_grows start seen (l : list string) x : seen = take (length seen) (drop start l) ->
  seen = take (length seen) (drop start (l ++ [x])).
Proof.
  intros E. pose proof (f_equal length E) as El. rewrite length_take, length_drop in El.
  destruct (decide (start <= length l)%nat).
  - rewrite drop_app_le by done. rewrite take_app_le by (rewrite length_drop; lia). done.
  - destruct seen; [done|]. cbn [length] in El. lia.
Qed.

Lemma tells_append a j x a' : tells a j -> a_append a x = (0, a') -> tells a' (note j (Appended x)).
Proof.
  intros [Hf Hk He Hw Hi Hs]. unfold a_append. destruct (_ <=? _); [done|]. destruct (a_full a); [done|].
  intros [= <-]. constructor; unfold a_end in *; cbn; rewrite ?length_app; cbn.
  - done.
  - rewrite drop_app_le by lia. by rewrite <- Hk.
  - lia.
  - done.
  - eapply map_Forall_impl; [exact Hi|]. cbn. lia.
  - eapply map_Forall_impl; [exact Hs|]. cbn. intros _ [st se] H. by apply seen_grows.
Qed.

Lemma tells_read a j name x a' : tells a j -> a_read a name = (0, a', x) -> tells a' (note j (ReadBy name x)).
Proof.
  intros [Hf Hk He Hw Hi Hs]. unfold a_read. destruct (a_readers a !! name) as [p|] eqn:Ep; [|done].
  destruct (a_records a !! (p - a_first a)%nat) as [y|] eqn:Ey; [|done]. intros [= <- ->].
  pose proof (Hi _ _ Ep) as Hp. pose proof (lookup_lt_Some _ _ _ Ey) as Hlt. unfold a_end in *.
  pose proof Ep as Ej. rewrite Hw, lookup_fmap in Ej. apply fmap_Some in Ej as ([st se] & Ej & ->). cbn in *.
  assert (Ex : j_all j !! (st + length se)%nat = Some x).
  { rewrite Hk, lookup_drop in Ey. rewrite <- Ey. f_equal. lia. }
  constructor; cbn; try done.
  - rewrite Hw. apply map_eq. intros n. rewrite lookup_fmap. destruct (decide (n = name)) as [->|Hn].
    + rewrite lookup_insert_eq, lookup_alter_eq, Ej. cbn. rewrite length_app. cbn. f_equal. lia.
    + by rewrite lookup_insert_ne, lookup_alter_ne, lookup_fmap by done.
  - apply map_Forall_insert_2; [cbn; lia|done].
  - intros n [st' se']. destruct (decide (n = name)) as [->|Hn].
    + rewrite lookup_alter_eq, Ej. cbn. intros [= <- <-]. rewrite length_app. cbn. rewrite Nat.add_1_r.
      rewrite (take_S_r _ _ x) by (by rewrite lookup_drop). f_equal. apply (Hs _ _ Ej).
    + rewrite lookup_alter_ne by done. apply Hs.
Qed.

Lemma tells_join a j name a' : tells a j -> a_add a name = (0, a') -> tells a' (note j (Joined name)).
Proof.
  intros [Hf Hk He Hw Hi Hs]. unfold a_add. destruct (a_readers a !! name); [done|].
  destruct (_ <=? _)%nat; [done|]. intros [= <-]. constructor; unfold a_end in *; cbn; try done.
  - rewrite fmap_insert, Hw, Hf. cbn. by rewrite Nat.add_0_r.
  - apply map_Forall_insert_2; [lia|done].
  - by apply map_Forall_insert_2.
Qed.

Lemma tells_leave a j name a' : tells a j -> a_drop a name = (0, a') -> tells a' (note j (Left name)).
Proof.
  intros [Hf Hk He Hw Hi Hs]. unfold a_drop. destruct (a_readers a !! name); [|done].
  intros [= <-]. constructor; cbn; try done.
  - by rewrite fmap_delete, Hw.
  - by apply map_Forall_delete.
  - by apply map_Forall_delete.
Qed.

Lemma tells_trim a j pos a' : tells a j -> a_trim a pos = (0, a') -> tells a' (note j (Trimmed pos)).
Proof.
  intros [Hf Hk He Hw Hi Hs]. unfold a_trim. destruct (a_end a <? pos)%nat eqn:E1; [done|].
  destruct (pos <=? a_first a)%nat eqn:E2; bool_to_prop.
  - intros [= <-]. constructor; cbn; try done. lia.
  - case_bool_decide as Hall; [|done]. intros [= <-]. unfold a_end in *.
    constructor; unfold a_end; cbn; rewrite ?length_drop; try done; try lia.
    + rewrite Hk, drop_drop. f_equal. lia.
    + intros n p Hp. specialize (Hi n p Hp). specialize (Hall n p Hp). cbn in *. lia.
Qed.

Section runs.
Context (c : sctx) (name : string) (Hfeature : db_stream c = true) (Hname : name <> ""%string).
Context (Hedit : db_catalog_edit (store c) = 0) (Hcopy : db_page_copy (store c) = 0).
Context (Hchain : forall x, read_chain c x = 0).

(** A refusal leaves what there was. *)
Lemma declined_same a e1 e2 e3 e4 (a' : astream) rc : rc <> 0 ->
  (rc, a') = a_append a e1 \/ (rc, a') = a_add a e2 \/ (rc, a') = a_drop a e3 \/ (rc, a') = a_trim a e4 -> a' = a.
Proof using.
  intros Hrc H. unfold a_append, a_add, a_drop, a_trim in H.
  destruct H as [H|[H|[H|H]]]; repeat case_match; congruence.
Qed.

Lemma step_tells s e s' j : stream_ok c s -> tells (abs s) j -> sstep c s e s' ->
  stream_ok c s' /\ tells (abs s') (note j e).
Proof using Hedit Hcopy Hchain.
  intros O T. destruct 1 as [s x rc s' E|s n rc s' Hn E|s n rc s' Hn E|s n len i rc s' x Hn Ep E|s pos rc s' E].
  - pose proof (append_spec c Hedit Hcopy s O x) as H. rewrite E in H. destruct H as (O' & H). split; [done|].
    destruct (rc =? 0) eqn:Er; bool_to_prop; [subst rc; by eapply tells_append|].
    rewrite (declined_same (abs s) x [] [] 0%nat (abs s') rc) by auto. done.
  - pose proof (add_spec c Hedit s O n Hn) as H. rewrite E in H. destruct H as (O' & H). split; [done|].
    destruct (rc =? 0) eqn:Er; bool_to_prop; [subst rc; by eapply tells_join|].
    rewrite (declined_same (abs s) "" n [] 0%nat (abs s') rc) by auto. done.
  - pose proof (drop_spec c Hedit s O n Hn) as H. rewrite E in H. destruct H as (O' & H). split; [done|].
    destruct (rc =? 0) eqn:Er; bool_to_prop; [subst rc; by eapply tells_leave|].
    rewrite (declined_same (abs s) "" [] n 0%nat (abs s') rc) by auto. done.
  - pose proof (peek_spec c s O n Hn) as Hk. destruct (a_read (abs s) n) as [[r a] y] eqn:Ea.
    destruct (decide (r = 0)) as [->|Hne]; cycle 1.
    { assert (Hk' : exists i, db_stream_peek c s n = (r, 0, i)) by (by destruct r). destruct Hk'. congruence. }
    destruct Hk as (i' & p & Ep' & Er). rewrite Ep in Ep'. injection Ep' as -> <-.
    pose proof (read_spec c Hedit Hchain s O n i p Hn Er) as H. rewrite E in H. destruct H as (O' & H).
    rewrite Ea in H. injection H as -> <- ->. split; [done|]. by eapply tells_read.
  - pose proof (trim_spec c Hedit s O pos) as H. rewrite E in H. destruct H as (O' & H). split; [done|].
    destruct (rc =? 0) eqn:Er; bool_to_prop; [subst rc; by eapply tells_trim|].
    rewrite (declined_same (abs s) "" [] [] pos (abs s') rc) by auto. done.
Qed.

Lemma run_tells evs s : srun c name evs s -> stream_ok c s /\ tells (abs s) (journal_of evs).
Proof using Hfeature Hname Hedit Hcopy Hchain.
  induction 1 as [|evs e s s' R (O & T) St].
  - split; [by apply new_stream_ok|]. by constructor.
  - unfold journal_of. rewrite fold_left_app. by eapply step_tells.
Qed.

End runs.

(** C22: whatever is done to a stream, every reader is handed every record, once
    and in order.  What a reader has been handed since it was created is the
    run of appended records from the position the stream began at then up to its
    own position; its position is between the oldest kept record and the end, so
    the record it needs next is still there whatever was trimmed; and what the
    stream holds is every record ever appended less the trimmed ones. *)
Theorem readers_see_every_record c name evs s : db_stream c = true -> name <> ""%string ->
  db_catalog_edit (store c) = 0 -> db_page_copy (store c) = 0 -> (forall x, read_chain c x = 0) ->
  srun c name evs s ->
  let j := journal_of evs in
  stream_page_valid c s = true /\
  s_first s = j_first j /\ s_end s = length (j_all j) /\
  contents (s_page s) = drop (j_first j) (j_all j) /\
  dom (a_readers (abs s)) = dom (j_readers j) /\
  forall who start seen, j_readers j !! who = Some (start, seen) ->
    let pos := (start + length seen)%nat in
    a_readers (abs s) !! who = Some pos /\
    seen = take (length seen) (drop start (j_all j)) /\
    (s_first s <= pos <= s_end s)%nat /\
    (pos = s_end s \/ exists x, j_all j !! pos = Some x /\ a_read (abs s) who =
       (0, mk_astream (s_first s) (contents (s_page s)) (<[who := S pos]> (a_readers (abs s))), x)).
Proof.
  intros Hc Hn He Hp Hr R. destruct (run_tells c name Hc Hn He Hp Hr evs s R) as (O & [Hf Hk Hend Hw Hi Hs]).
  cbn zeta. rewrite (a_end_abs c s O) in Hend. split; [by apply stream_ok_valid|]. split; [done|]. split; [done|].
  split; [by rewrite <- Hf|]. split; [by rewrite Hw, dom_fmap_L|].
  intros who start seen Ej. assert (Ea : a_readers (abs s) !! who = Some (start + length seen)%nat)
    by (by rewrite Hw, lookup_fmap, Ej).
  pose proof (Hi _ _ Ea) as Hpos. cbn beta in Hpos. rewrite (a_end_abs c s O) in Hpos.
  split; [done|]. split; [exact (Hs _ _ Ej)|]. split; [done|].
  destruct (decide (start + length seen = s_end s)%nat) as [|Hne]; [by left|right].
  destruct (lookup_lt_is_Some_2 (j_all (journal_of evs)) (start + length seen)%nat) as [x Ex]; [lia|].
  exists x. split; [done|]. unfold a_read. rewrite Ea.
  replace (a_records (abs s) !! (start + length seen - a_first (abs s))%nat) with (Some x); [done|].
  rewrite Hk, lookup_drop, <- Ex. f_equal. cbn in *. lia.
Qed.

(** Two records, a reader that has seen one, the trim that follows it and the one
    that would pass it. *)
Definition told : list sevent :=
  [Appended "a"; Joined [97]; Appended "b"; ReadBy [97] "a"; Trimmed 1; Declined].

Definition told_stream : stream :=
  let s := snd (db_stream_append plain_sctx (new_stream "log") "a") in
  let s := snd (db_stream_cursor_add plain_sctx s [97]) in
  let s := snd (db_stream_append plain_sctx s "b") in
  let s := snd (fst (db_stream_read plain_sctx s 0)) in
  snd (db_stream_trim plain_sctx s 1).

Lemma told_runs : srun plain_sctx "log" told told_stream.
Proof.
  assert (Hn : name_ok [97]) by (split; [done|split; [vm_compute; lia|by repeat constructor]]).
  change told with (((((([] ++ [Appended "a"]) ++ [Joined [97]]) ++ [Appended "b"]) ++ [ReadBy [97] "a"]) ++ [Trimmed 1]) ++ [Declined]).
  set (s1 := snd (db_stream_append plain_sctx (new_stream "log") "a")).
  set (s2 := snd (db_stream_cursor_add plain_sctx s1 [97])).
  set (s3 := snd (db_stream_append plain_sctx s2 "b")).
  set (s4 := snd (fst (db_stream_read plain_sctx s3 0))).
  eapply srun_snoc; [eapply srun_snoc; [eapply srun_snoc; [eapply srun_snoc; [eapply srun_snoc; [eapply srun_snoc; [apply srun_nil|]|]|]|]|]|].
  - apply (s_append _ _ "a"%string 0 s1). vm_compute. reflexivity.
  - apply (s_join _ _ [97] 0 s2 Hn). vm_compute. reflexivity.
  - apply (s_append _ _ "b"%string 0 s3). vm_compute. reflexivity.
  - apply (s_read _ _ [97] 1 0 0 s4 "a"%string Hn); vm_compute; reflexivity.
  - apply (s_trim _ _ 1 0 told_stream). vm_compute. reflexivity.
  - apply (s_trim _ _ 2 CybouDB_E_RETAINED told_stream). vm_compute. reflexivity.
Qed.

Lemma readers_see_every_record_witness :
  contents (s_page told_stream) = ["b"%string] /\ a_readers (abs told_stream) !! [97] = Some 1%nat.
Proof.
  destruct (readers_see_every_record plain_sctx "log" told told_stream) as (_ & _ & _ & Hk & _ & H).
  - reflexivity.
  - discriminate.
  - reflexivity.
  - reflexivity.
  - reflexivity.
  - exact told_runs.
  - split; [exact Hk|]. destruct (H [97] 0%nat ["a"%string]) as (Ha & _); [vm_compute; reflexivity|exact Ha].
Defined.
