(* ===== verification/LeasedWorker.v ===== *)
(** * LeasedWorker: a worker that holds a job across a commit

    [examples/leased_worker.c] over the interface [Engine], with the contract of
    the lease statements of [cyboudb.h] ([cyboudb_claim_ticket]) and
    [docs/QUEUE.md] as a specification: [contract_claim], [contract_ack],
    [contract_nack], [contract_renew] on the list of every message a queue has
    held, a message's position being its index.

    [LeaseLaws] says that the engine does what the contract says or, when a call
    fails for a reason of its own, changes nothing and is [faulted] from then
    on.  [contract_engine] is the contract made into an engine; that the
    engine's own queue does what the contract says is [LeaseRefine]. *)

From Stdlib Require Import String Ascii.
From S2P Require Import Prelude Engine.
#[local] Open Scope string_scope.
#[local] Open Scope Z_scope.
#[local] Open Scope list_scope.
#[local] Infix "+++" := String.append (at level 60, right associativity).

(** ** The contract of the lease statements *)

Inductive lease := Free | Leased (until : N) | Finished.

Record job := mk_job {
  payload : string;
  token : N;
  state : lease;
}.

(** The queue [inbox] and the table [results (note TEXT)]. *)
Record desk := mk_desk {
  jobs : list job;
  notes : list string;
}.

Definition empty_desk : desk := mk_desk [] [].

(** The deadline decides when a message becomes claimable again. *)
Definition may_claim (now : N) (j : job) : bool :=
  match state j with
  | Free => true
  | Leased until => (until <=? now)%N
  | Finished => false
  end.

Fixpoint first_claimable (now : N) (l : list job) : option (nat * job) :=
  match l with
  | [] => None
  | j :: l' =>
      if may_claim now j then Some (0%nat, j)
      else match first_claimable now l' with Some (i, j') => Some (S i, j') | None => None end
  end.

(** [CLAIM]: the first claimable message, with a deadline and a raised token. *)
Definition contract_claim (now ms : N) (l : list job) : option (nat * job * list job) :=
  match first_claimable now l with
  | Some (i, j) =>
      let j' := mk_job (payload j) (token j + 1) (Leased (now + ms)) in Some (i, j', <[i := j']> l)
  | None => None
  end.

(** The token decides whose acknowledgement counts. *)
Definition holds (t : N) (j : job) : bool :=
  match state j with Leased _ => (token j =? t)%N | _ => false end.

(** A ticketed statement: what the holder may do to the message. *)
Definition with_ticket (pos : N) (t : N) (f : job -> job) (l : list job) : option (list job) :=
  match l !! N.to_nat pos with
  | Some j => if holds t j then Some (<[N.to_nat pos := f j]> l) else None
  | None => None
  end.

Definition contract_ack (pos t : N) : list job -> option (list job) :=
  with_ticket pos t (fun j => mk_job (payload j) (token j) Finished).
(** Handing back raises the token. *)
Definition contract_nack (pos t : N) : list job -> option (list job) :=
  with_ticket pos t (fun j => mk_job (payload j) (token j + 1) Free).
Definition contract_renew (now ms pos t : N) : list job -> option (list job) :=
  with_ticket pos t (fun j => mk_job (payload j) (token j) (Leased (now + ms))).

(** ** The texts of the statements *)

Definition claim_text (ms : N) : string := "CLAIM FROM inbox FOR " +++ dec ms.
Definition ticket_text (verb : string) (pos t : N) : string :=
  verb +++ " FROM inbox AT " +++ dec pos +++ " TOKEN " +++ dec t.
Definition ack_text (pos t : N) : string := ticket_text "ACK" pos t.
Definition nack_text (pos t : N) : string := ticket_text "NACK" pos t.
Definition renew_text (pos t ms : N) : string := ticket_text "RENEW" pos t +++ " FOR " +++ dec ms.
Definition note_text (note : string) : string := "INSERT INTO results VALUES ('" +++ note +++ "')".
Definition enqueue_text (m : string) : string := "ENQUEUE INTO inbox VALUES ('" +++ m +++ "')".

Definition schema : list string := ["CREATE TABLE results (note TEXT)"; "CREATE QUEUE inbox"].

(** ** The program *)

Definition DB_PATH : string := "build/leased_worker_example.cdb".

(** The options [main] asks for: [sizeof opts] is 8. *)
Definition opts : cyboudb_create_options := mk_options 8 CybouDB_CREATE_QUEUE_LEASES.

Definition fail_line (why what : string) : line := Err ("leased worker: " +++ what +++ " failed: " +++ why).

Section program.
Context {S H : Type} `{Engine S H}.

(** A piece of [main]: the connection, what is printed, and the value it goes
    on with or the exit code of a [return]. *)
Definition M (A : Type) : Type := S -> S * list line * (A + Z).

#[global] Instance M_ret : MRet M := fun A x s => (s, [], inl x).
#[global] Instance M_bind : MBind M := fun A B k m s =>
  match m s with
  | (s, out, inl x) => let '(s, out', r) := k x s in (s, out ++ out', r)
  | (s, out, inr code) => (s, out, inr code)
  end.
Definition printf (text : string) : M unit := fun s => (s, [Out text], inl tt).
Definition fail {A} (what : string) : M A := fun s => (s, [fail_line (cyboudb_errmsg s) what], inr 1).
Definition print_errmsg (text : string) : M unit := fun s => (s, [Out (text +++ cyboudb_errmsg s)], inl tt).
(** A busy wait, in milliseconds. *)
Definition spin (ms : N) : M unit := fun s => (elapse s ms, [], inl tt).

Definition exec (sql : string) : M Z := fun s => let '(s, rc) := cyboudb_exec s sql in (s, [], inl rc).


(** [if (cyboudb_exec(db, sql) != CybouDB_OK) return fail(db, what);] *)
Definition must (sql what : string) : M unit :=
  rc ← exec sql; if negb (rc =? CybouDB_OK) then fail what else mret tt.
(** [if (cyboudb_exec(db, sql) == CybouDB_OK) return fail(db, what);] *)
Definition must_refuse (sql what : string) : M unit :=
  rc ← exec sql; if rc =? CybouDB_OK then fail what else mret tt.
Definition must_all (sqls : list string) (what : string) : M unit := fun s =>
  let '(s, ok) := exec_all s sqls in if ok then (s, [], inl tt) else fail what s.

(** The payload, the position, the token; nothing when nothing was claimable. *)
Definition claim_one (sql : string) (cap : nat) : M (option (string * N * N)) := fun s =>
  let '(s, rc, st) := cyboudb_prepare s sql in
  if negb (rc =? CybouDB_OK) then fail "prepare CLAIM" s else
  let '(s, rc) := cyboudb_step s st in
  if rc =? CybouDB_DONE then (cyboudb_finalize s st, [], inl None) else
  if negb (rc =? CybouDB_ROW) then fail "CLAIM" (cyboudb_finalize s st) else
  let '(mrc, payload) := cyboudb_message s st (cap - 1) in
  if negb (mrc =? CybouDB_OK) then fail "CLAIM" (cyboudb_finalize s st) else
  let '(trc, (position, token)) := cyboudb_claim_ticket s st in
  if negb (trc =? CybouDB_OK) then fail "CLAIM" (cyboudb_finalize s st) else
  (cyboudb_finalize s st, [], inl (Some (payload, position, token))).

Definition took (r : option (string * N * N)) (what : string) : M (string * N * N) :=
  match r with Some t => mret t | None => fail what end.

(** Claimed, worked on, acknowledged with its result in one transaction. *)
Definition ordinary_path : M unit :=
  r ← claim_one (claim_text 30000) 256;
  '(payload, position, token) ← took r "expected a message";
  printf ("claimed '" +++ c_str payload +++ "' at " +++ dec position +++ " with token " +++ dec token) ;;
  spin 50 ;;
  must "BEGIN" "BEGIN" ;;
  must (snprintf 512 (note_text (c_str payload))) "INSERT" ;;
  must (snprintf 512 (ack_text position token)) "ACK" ;;
  must "COMMIT" "COMMIT" ;;
  printf ("acknowledged '" +++ c_str payload +++ "'").

(** Claimed and handed back. *)
Definition handed_back : M unit :=
  r ← claim_one (claim_text 30000) 256;
  '(payload, position, token) ← took r "expected a second message";
  printf ("claimed '" +++ c_str payload +++ "', and it cannot be processed") ;;
  must (snprintf 512 (nack_text position token)) "NACK" ;;
  printf "handed back - claimable again immediately, not after a timeout" ;;
  must_refuse (snprintf 512 (ack_text position token)) "a returned message should not accept its old ticket" ;;
  print_errmsg "and its old ticket is refused: ".

(** Acknowledged after the deadline, with nobody else about. *)
Definition acknowledged_late : M unit :=
  r ← claim_one (claim_text 30) 256;
  '(payload, position, token) ← took r "expected a third message";
  printf ("claimed '" +++ c_str payload +++ "' for 30ms, then took longer") ;;
  spin 200 ;;
  must (snprintf 512 (ack_text position token)) "a lapsed lease nobody reclaimed should still finish" ;;
  printf "acknowledged late, because nobody had taken it".

(** Reclaimed by a second worker after the deadline. *)
Definition reclaimed : M unit :=
  r ← claim_one (claim_text 30) 256;
  '(payload, position, token) ← took r "expected the last message";
  printf ("claimed '" +++ c_str payload +++ "' for 30ms, and this time somebody else got there") ;;
  spin 200 ;;
  r ← claim_one (claim_text 30000) 256;
  '(stolen_position, stolen_token) ←
    match r with
    | Some (_, p, t) =>
        if (p =? position)%N then mret (p, t) else fail "the lapsed message should have been claimable"
    | None => fail "the lapsed message should have been claimable"
    end;
  printf ("a second worker claimed it with token " +++ dec stolen_token) ;;
  must_refuse (snprintf 512 (ack_text position token)) "the first worker should not be able to finish it" ;;
  print_errmsg "the first worker's ACK is refused: " ;;
  must (snprintf 512 (renew_text stolen_position stolen_token 30000)) "RENEW" ;;
  must (snprintf 512 (ack_text stolen_position stolen_token)) "second ACK" ;;
  printf "renewed, then finished by the worker that actually held it".

(** [done] is raised at the end of the first, third and fourth part. *)
Definition body : M Z :=
  must_all schema "schema" ;;
  must_all (map enqueue_text ["alpha"; "beta"; "gamma"]) "enqueue" ;;
  printf "three jobs queued" ;;
  ordinary_path ;;
  let done := 1%N in
  handed_back ;;
  acknowledged_late ;;
  let done := (done + 1)%N in
  reclaimed ;;
  let done := (done + 1)%N in
  (fun s => let '(s, rc) := cyboudb_close s in
     if negb (rc =? CybouDB_OK) then (s, [fail_line "no handle" "close"], inr 1) else (s, [], inl tt)) ;;
  printf (dec done +++ " jobs finished, each exactly once") ;;
  mret (if (done =? 3)%N then 0 else 1).

Definition main : S * list line * Z :=
  let '(s, rc) := cyboudb_create_with_options DB_PATH 4000 (Some opts) in
  if negb (rc =? CybouDB_OK) then (s, [fail_line "no handle" "create"], 1) else
  match body s with
  | (s, out, inl code) => (s, out, code)
  | (s, out, inr code) => (s, out, code)
  end.
End program.

(** ** What the program relies on *)

(** [desk_of s] is what is committed, [open_tx s] the open transaction,
    [clock s] the queue's clock in milliseconds, [claims h] the duration of a
    prepared [CLAIM], [got s h] what its last step took. *)
Class LeaseLaws (S H : Type) `{Engine S H} := {
  desk_of : S -> desk;
  open_tx : S -> option desk;
  clock : S -> N;
  faulted : S -> bool;
  claims : H -> option N;
  got : S -> H -> option (string * N * N);

  (** Leases are decided when the file is made. *)
  create_law path pages s rc : cyboudb_create_with_options path pages (Some opts) = (s, rc) ->
    if rc =? CybouDB_OK then desk_of s = empty_desk /\ open_tx s = None else faulted s = true;
  schema_law sql s s' rc : In sql schema -> open_tx s = None -> cyboudb_exec s sql = (s', rc) ->
    if rc =? CybouDB_OK then desk_of s' = desk_of s /\ open_tx s' = None else faulted s' = true;
  enqueue_law m s s' rc : open_tx s = None -> plain m = true -> cyboudb_exec s (enqueue_text m) = (s', rc) ->
    if rc =? CybouDB_OK
    then desk_of s' = mk_desk (jobs (desk_of s) ++ [mk_job m 0 Free]) (notes (desk_of s)) /\ open_tx s' = None
    else faulted s' = true;
  begin_law s s' rc : open_tx s = None -> cyboudb_exec s "BEGIN" = (s', rc) ->
    if rc =? CybouDB_OK then desk_of s' = desk_of s /\ open_tx s' = Some (desk_of s) else faulted s' = true;
  note_law note s s' rc d : open_tx s = Some d -> plain note = true -> cyboudb_exec s (note_text note) = (s', rc) ->
    if rc =? CybouDB_OK
    then desk_of s' = desk_of s /\ open_tx s' = Some (mk_desk (jobs d) (notes d ++ [note]))
    else faulted s' = true;
  commit_law s s' rc d : open_tx s = Some d -> cyboudb_exec s "COMMIT" = (s', rc) ->
    if rc =? CybouDB_OK then desk_of s' = d /\ open_tx s' = None else faulted s' = true;
  (** In a transaction the acknowledgement is staged with the result. *)
  staged_ack_law pos t s s' rc d l : open_tx s = Some d -> contract_ack pos t (jobs d) = Some l ->
    cyboudb_exec s (ack_text pos t) = (s', rc) ->
    if rc =? CybouDB_OK then desk_of s' = desk_of s /\ open_tx s' = Some (mk_desk l (notes d)) else faulted s' = true;
  (** Outside, a ticketed statement commits by itself; a ticket that is not the
      holder's is refused and changes nothing. *)
  ack_law pos t s s' rc : open_tx s = None -> cyboudb_exec s (ack_text pos t) = (s', rc) -> (clock s <= clock s')%N /\
    match contract_ack pos t (jobs (desk_of s)) with
    | Some l => if rc =? CybouDB_OK then desk_of s' = mk_desk l (notes (desk_of s)) /\ open_tx s' = None
                else faulted s' = true
    | None => rc <> CybouDB_OK /\ desk_of s' = desk_of s /\ open_tx s' = None
    end;
  nack_law pos t s s' rc : open_tx s = None -> cyboudb_exec s (nack_text pos t) = (s', rc) ->
    match contract_nack pos t (jobs (desk_of s)) with
    | Some l => if rc =? CybouDB_OK then desk_of s' = mk_desk l (notes (desk_of s)) /\ open_tx s' = None
                else faulted s' = true
    | None => rc <> CybouDB_OK /\ desk_of s' = desk_of s /\ open_tx s' = None
    end;
  renew_law pos t ms s s' rc : open_tx s = None -> cyboudb_exec s (renew_text pos t ms) = (s', rc) ->
    exists now, (clock s <= now <= clock s')%N /\
    match contract_renew now ms pos t (jobs (desk_of s)) with
    | Some l => if rc =? CybouDB_OK then desk_of s' = mk_desk l (notes (desk_of s)) /\ open_tx s' = None
                else faulted s' = true
    | None => rc <> CybouDB_OK /\ desk_of s' = desk_of s /\ open_tx s' = None
    end;
  prepare_law ms s s' rc h : cyboudb_prepare s (claim_text ms) = (s', rc, h) ->
    if rc =? CybouDB_OK
    then desk_of s' = desk_of s /\ open_tx s' = open_tx s /\ (clock s <= clock s')%N /\ claims h = Some ms
    else faulted s' = true;
  (** A claim commits on its own, at some moment of the call. *)
  step_law h ms s s' rc : claims h = Some ms -> open_tx s = None -> cyboudb_step s h = (s', rc) ->
    exists now, (clock s <= now <= clock s')%N /\
    match contract_claim now ms (jobs (desk_of s)) with
    | Some (i, j, l) =>
        if rc =? CybouDB_ROW
        then desk_of s' = mk_desk l (notes (desk_of s)) /\ open_tx s' = None /\
             got s' h = Some (payload j, N.of_nat i, token j)
        else rc <> CybouDB_DONE /\ faulted s' = true
    | None => rc <> CybouDB_ROW /\ desk_of s' = desk_of s /\ open_tx s' = None
    end;
  message_law s h p i t cap : got s h = Some (p, i, t) -> (String.length p <= cap)%nat ->
    cyboudb_message s h cap = (CybouDB_OK, p);
  ticket_law s h p i t : got s h = Some (p, i, t) -> cyboudb_claim_ticket s h = (CybouDB_OK, (i, t));
  finalize_law s h : let s' := cyboudb_finalize s h in
    desk_of s' = desk_of s /\ open_tx s' = open_tx s /\ (clock s <= clock s')%N /\ faulted s' = faulted s;
  elapse_law s ms : let s' := elapse s ms in
    desk_of s' = desk_of s /\ open_tx s' = open_tx s /\ (clock s + ms <= clock s')%N;
  close_law s s' rc : cyboudb_close s = (s', rc) ->
    if rc =? CybouDB_OK then desk_of s' = desk_of s else faulted s' = true;
}.

(** ** Reasoning about the program *)

Section logic.
Context {S H : Type} `{LeaseLaws S H}.

(** From a state in [P], [m] goes on with a value and a state in [Q], or returns
    1 because the engine failed for a reason of its own. *)
Definition triple {A} (P : S -> Prop) (m : M (S := S) A) (Q : A -> S -> Prop) : Prop :=
  forall s, P s ->
  match m s with
  | (s', _, inl x) => Q x s'
  | (s', _, inr code) => code = 1 /\ faulted s' = true
  end.

Lemma triple_bind {A B} P (m : M A) Q (k : A -> M B) R :
  triple P m Q -> (forall x, triple (Q x) (k x) R) -> triple P (mbind k m) R.
Proof.
  intros Hm Hk s Hs. specialize (Hm s Hs). unfold mbind, M_bind.
  destruct (m s) as [[s1 out1] [x|code]]; [|done].
  specialize (Hk x s1 Hm). destruct (k x s1) as [[s2 out2] r]. by destruct r.
Qed.

Lemma triple_ret {A} P (x : A) (Q : A -> S -> Prop) : (forall s, P s -> Q x s) -> triple P (mret x) Q.
Proof. intros HQ s Hs. by apply HQ. Qed.

Lemma triple_print P text : triple P (printf text) (fun _ => P).
Proof. by intros s Hs. Qed.

Lemma triple_errmsg P text : triple P (print_errmsg text) (fun _ => P).
Proof. by intros s Hs. Qed.

Lemma triple_pre {A} (P P' : S -> Prop) (m : M A) Q : (forall s, P s -> P' s) -> triple P' m Q -> triple P m Q.
Proof. intros HP Hm s Hs. apply Hm. by apply HP. Qed.

(** Outside a transaction, with these jobs and notes committed, the clock at
    [from] or later. *)
Definition at_desk (d : desk) (from : N) (s : S) : Prop :=
  open_tx s = None /\ desk_of s = d /\ (from <= clock s)%N.

(** A statement that must succeed, by what its law says of success. *)
Lemma triple_must P sql what Q :
  (forall s s' rc, P s -> cyboudb_exec s sql = (s', rc) -> if rc =? CybouDB_OK then Q s' else faulted s' = true) ->
  triple P (must sql what) (fun _ => Q).
Proof.
  intros HQ s Hs. unfold must, exec, mbind, M_bind. destruct (cyboudb_exec s sql) as [s' rc] eqn:E.
  specialize (HQ s s' rc Hs E). by destruct (rc =? CybouDB_OK).
Qed.

Lemma triple_must_refuse P sql what Q :
  (forall s s' rc, P s -> cyboudb_exec s sql = (s', rc) -> rc <> CybouDB_OK /\ Q s') ->
  triple P (must_refuse sql what) (fun _ => Q).
Proof.
  intros HQ s Hs. unfold must_refuse, exec, mbind, M_bind. destruct (cyboudb_exec s sql) as [s' rc] eqn:E.
  destruct (HQ s s' rc Hs E) as [Hrc Hq]. destruct (rc =? CybouDB_OK) eqn:R; bool_to_prop; [done|]. done.
Qed.

Lemma triple_spin d from ms : triple (at_desk d from) (spin ms) (fun _ => at_desk d (from + ms)).
Proof. intros s (K1 & K2 & K3). destruct (elapse_law s ms) as (E1 & E2 & E3). split; [congruence|]. split; [congruence|lia]. Qed.

(** A claim that must find message [i]: the new deadline is [ms] after some
    moment past [from]. *)
Lemma triple_claim d from ms i (j : job) :
  (forall now, (from <= now)%N -> first_claimable now (jobs d) = Some (i, j)) ->
  (String.length (payload j) <= 255)%nat ->
  triple (at_desk d from) (claim_one (claim_text ms) 256)
    (fun r s => r = Some (payload j, N.of_nat i, (token j + 1)%N) /\ exists now, (from <= now)%N /\
       at_desk (mk_desk (<[i := mk_job (payload j) (token j + 1) (Leased (now + ms))]> (jobs d)) (notes d)) now s).
Proof.
  intros Hfirst Hlen s (K1 & K2 & K3). unfold claim_one.
  destruct (cyboudb_prepare s (claim_text ms)) as [[s1 rc1] h] eqn:E1. apply prepare_law in E1.
  destruct (rc1 =? CybouDB_OK) eqn:R1; cbn [negb]; [|done]. destruct E1 as (P1 & P2 & P3 & P4).
  destruct (cyboudb_step s1 h) as [s2 rc2] eqn:E2.
  apply (step_law h ms) in E2 as (now & Hnow & E2); [|done|congruence].
  rewrite P1, K2 in E2. unfold contract_claim in E2. rewrite Hfirst in E2 by lia.
  destruct (rc2 =? CybouDB_ROW) eqn:R2; bool_to_prop.
  - destruct E2 as (Q1 & Q2 & Q3). subst rc2. cbn [Z.eqb CybouDB_ROW CybouDB_DONE Pos.eqb negb].
    cbn [payload token] in Q3. change (256 - 1)%nat with 255%nat.
    rewrite (message_law s2 h _ _ _ 255 Q3) by done. cbn [Z.eqb CybouDB_OK negb].
    rewrite (ticket_law s2 h _ _ _ Q3). cbn [Z.eqb CybouDB_OK negb].
    destruct (finalize_law s2 h) as (F1 & F2 & F3 & _).
    split; [done|]. exists now. split; [lia|]. split; [congruence|]. split; [congruence|lia].
  - destruct E2 as [E2 E3]. destruct (rc2 =? CybouDB_DONE) eqn:R3; bool_to_prop; [done|]. cbn [negb].
    destruct (finalize_law s2 h) as (_ & _ & _ & F4). unfold fail. split; congruence.
Qed.

Lemma triple_ack d from pos t what l : contract_ack pos t (jobs d) = Some l ->
  triple (at_desk d from) (must (ack_text pos t) what) (fun _ => at_desk (mk_desk l (notes d)) from).
Proof.
  intros Hl. apply triple_must. intros s s' rc (K1 & K2 & K3) E. apply ack_law in E as [Hc E]; [|done].
  rewrite K2, Hl in E. destruct (rc =? CybouDB_OK); [|done]. destruct E. split; [done|]. split; [done|lia].
Qed.

Lemma triple_stale d from pos t what : contract_ack pos t (jobs d) = None ->
  triple (at_desk d from) (must_refuse (ack_text pos t) what) (fun _ => at_desk d from).
Proof.
  intros Hl. apply triple_must_refuse. intros s s' rc (K1 & K2 & K3) E. apply ack_law in E as [Hc E]; [|done].
  rewrite K2, Hl in E. destruct E as (E1 & E2 & E3). split; [done|]. split; [done|]. split; [congruence|lia].
Qed.

Lemma triple_pure {A} (phi : Prop) P (m : M A) Q : (phi -> triple P m Q) -> triple (fun s => phi /\ P s) m Q.
Proof. intros Hm s [Hphi Hs]. by apply Hm. Qed.

Lemma triple_exists {A B} (P : B -> S -> Prop) (m : M A) Q :
  (forall x, triple (P x) m Q) -> triple (fun s => exists x, P x s) m Q.
Proof. intros Hm s [x Hs]. by apply (Hm x). Qed.

(** Claiming message [i] and going on with its ticket. *)
Lemma triple_claimed {B} d from ms i (j : job) what (k : string * N * N -> M B) R :
  (forall now, (from <= now)%N -> first_claimable now (jobs d) = Some (i, j)) ->
  (String.length (payload j) <= 255)%nat ->
  (forall now, (from <= now)%N -> triple
     (at_desk (mk_desk (<[i := mk_job (payload j) (token j + 1) (Leased (now + ms))]> (jobs d)) (notes d)) now)
     (k (payload j, N.of_nat i, (token j + 1)%N)) R) ->
  triple (at_desk d from) (r ← claim_one (claim_text ms) 256; t ← took r what; k t) R.
Proof.
  intros Hfirst Hlen Hk. eapply triple_bind; [by apply (triple_claim d from ms i j)|].
  intros r. apply triple_pure. intros ->. apply triple_exists. intros now. apply triple_pure. intros Hnow.
  eapply (triple_bind _ _ (fun t s => t = (payload j, N.of_nat i, (token j + 1)%N) /\ _)).
  - apply triple_ret. intros s Hs. split; [done|exact Hs].
  - intros t. apply triple_pure. intros ->. by apply Hk.
Qed.

(** Inside a transaction: [d] is committed, [d'] staged. *)
Definition in_tx (d d' : desk) (s : S) : Prop := desk_of s = d /\ open_tx s = Some d'.

(** Outside a transaction, at some time. *)
Definition somewhen (d : desk) (s : S) : Prop := exists from, at_desk d from s.

Lemma triple_begin d from what : triple (at_desk d from) (must "BEGIN" what) (fun _ => in_tx d d).
Proof.
  apply triple_must. intros s s' rc (K1 & K2 & K3) E. apply begin_law in E; [|done]. rewrite K2 in E.
  by destruct (rc =? CybouDB_OK).
Qed.

Lemma triple_note d d' note what : plain note = true ->
  triple (in_tx d d') (must (note_text note) what) (fun _ => in_tx d (mk_desk (jobs d') (notes d' ++ [note]))).
Proof.
  intros Hp. apply triple_must. intros s s' rc (K1 & K2) E. eapply note_law in E; [|exact K2|done].
  rewrite K1 in E. by destruct (rc =? CybouDB_OK).
Qed.

Lemma triple_staged_ack d d' pos t l what : contract_ack pos t (jobs d') = Some l ->
  triple (in_tx d d') (must (ack_text pos t) what) (fun _ => in_tx d (mk_desk l (notes d'))).
Proof.
  intros Hl. apply triple_must. intros s s' rc (K1 & K2) E. eapply staged_ack_law in E; [|exact K2|exact Hl].
  rewrite K1 in E. by destruct (rc =? CybouDB_OK).
Qed.

Lemma triple_commit d d' what : triple (in_tx d d') (must "COMMIT" what) (fun _ => somewhen d').
Proof.
  apply triple_must. intros s s' rc (K1 & K2) E. eapply commit_law in E; [|exact K2].
  destruct (rc =? CybouDB_OK); [|done]. exists (clock s'). split; [apply E|]. split; [apply E|lia].
Qed.

Lemma triple_nack d from pos t what l : contract_nack pos t (jobs d) = Some l ->
  triple (at_desk d from) (must (nack_text pos t) what) (fun _ => at_desk (mk_desk l (notes d)) 0).
Proof.
  intros Hl. apply triple_must. intros s s' rc (K1 & K2 & K3) E. apply nack_law in E; [|done].
  rewrite K2, Hl in E. destruct (rc =? CybouDB_OK); [|done]. split; [apply E|]. split; [apply E|lia].
Qed.

Lemma triple_renew d from pos t ms what :
  (forall now, contract_renew now ms pos t (jobs d) <> None) ->
  triple (at_desk d from) (must (renew_text pos t ms) what) (fun _ s => exists now l,
    contract_renew now ms pos t (jobs d) = Some l /\ at_desk (mk_desk l (notes d)) from s).
Proof.
  intros Hl. apply triple_must. intros s s' rc (K1 & K2 & K3) E. apply renew_law in E as (now & Hnow & E); [|done].
  rewrite K2 in E. specialize (Hl now). destruct (contract_renew now ms pos t (jobs d)) as [l|] eqn:El; [|done].
  destruct (rc =? CybouDB_OK); [|done]. exists now, l. split; [done|]. split; [apply E|]. split; [apply E|lia].
Qed.

Lemma triple_later {A} d from (m : M A) Q : triple (somewhen d) m Q -> triple (at_desk d from) m Q.
Proof. apply triple_pre. intros s Hs. by exists from. Qed.

(** The next statement of a program. *)
#[local] Tactic Notation "next" uconstr(lem) :=
  eapply triple_bind; [eapply lem; try reflexivity|let x := fresh in intros x; cbv beta; clear x].

(** The three jobs, as they are after each part. *)
Definition queued : desk := mk_desk [mk_job "alpha" 0 Free; mk_job "beta" 0 Free; mk_job "gamma" 0 Free] [].
Definition one_done : desk :=
  mk_desk [mk_job "alpha" 1 Finished; mk_job "beta" 0 Free; mk_job "gamma" 0 Free] ["alpha"].
Definition returned : desk :=
  mk_desk [mk_job "alpha" 1 Finished; mk_job "beta" 2 Free; mk_job "gamma" 0 Free] ["alpha"].
Definition two_done : desk :=
  mk_desk [mk_job "alpha" 1 Finished; mk_job "beta" 3 Finished; mk_job "gamma" 0 Free] ["alpha"].
Definition all_done : desk :=
  mk_desk [mk_job "alpha" 1 Finished; mk_job "beta" 3 Finished; mk_job "gamma" 2 Finished] ["alpha"].

Lemma ordinary_path_ok : triple (somewhen queued) ordinary_path (fun _ => somewhen one_done).
Proof.
  apply triple_exists. intros from. apply (triple_claimed queued from 30000 0 (mk_job "alpha" 0 Free)); [done|simpl; lia|].
  intros now Hnow. cbn [payload token jobs notes queued].
  next triple_print. next triple_spin. next triple_begin.
  next (triple_note _ _ "alpha"). next (triple_staged_ack _ _ 0 1). next triple_commit. apply triple_print.
Qed.

Lemma handed_back_ok : triple (somewhen one_done) handed_back (fun _ => somewhen returned).
Proof.
  apply triple_exists. intros from. apply (triple_claimed one_done from 30000 1 (mk_job "beta" 0 Free)); [done|simpl; lia|].
  intros now Hnow. cbn [payload token jobs notes one_done].
  next triple_print. next (triple_nack _ _ 1 1). next triple_print. next (triple_stale _ _ 1 1).
  apply triple_later, triple_errmsg.
Qed.

Lemma acknowledged_late_ok : triple (somewhen returned) acknowledged_late (fun _ => somewhen two_done).
Proof.
  apply triple_exists. intros from. apply (triple_claimed returned from 30 1 (mk_job "beta" 2 Free)); [done|simpl; lia|].
  intros now Hnow. cbn [payload token jobs notes returned].
  next triple_print. next triple_spin. next (triple_ack _ _ 1 3). apply triple_later, triple_print.
Qed.

Lemma reclaimed_ok : triple (somewhen two_done) reclaimed (fun _ => somewhen all_done).
Proof.
  apply triple_exists. intros from. apply (triple_claimed two_done from 30 2 (mk_job "gamma" 0 Free)); [done|simpl; lia|].
  intros now Hnow. cbn [payload token jobs notes two_done].
  next triple_print. next triple_spin.
  eapply triple_bind; [eapply (triple_claim _ _ 30000 2 (mk_job "gamma" 1 (Leased (now + 30))))|].
  { intros t Ht. cbn. by destruct (now + 30 <=? t)%N eqn:E; [|lia]. }
  { simpl. lia. }
  intros r. apply triple_pure. intros ->. apply triple_exists. intros now'. apply triple_pure. intros Hnow'.
  cbn [payload token jobs notes].
  eapply (triple_bind _ _ (fun t s => t = (2%N, 2%N) /\ _)).
  { apply triple_ret. intros s Hs. split; [reflexivity|exact Hs]. }
  intros t. apply triple_pure. intros ->.
  next triple_print. next (triple_stale _ _ 2 1). next triple_errmsg.
  next (triple_renew _ _ 2 2 30000); [done|].
  apply triple_exists. intros t'. apply triple_exists. intros l. apply triple_pure. intros [= <-].
  next (triple_ack _ _ 2 2). apply triple_later, triple_print.
Qed.

Lemma triple_schema d what : triple (fun s => open_tx s = None /\ desk_of s = d) (must_all schema what)
  (fun _ s => open_tx s = None /\ desk_of s = d).
Proof.
  unfold must_all. assert (Hin : incl schema schema) by apply incl_refl. revert Hin. generalize schema at 1 3.
  intros sqls. induction sqls as [|sql sqls IH]; intros Hin s (K1 & K2); cbn [exec_all]; [done|].
  destruct (cyboudb_exec s sql) as [s1 rc] eqn:E. apply schema_law in E; [|by apply Hin; left|done].
  destruct (rc =? CybouDB_OK); cbn [negb]; [|done]. apply IH; [|split; [apply E|rewrite <- K2; apply E]].
  intros x Hx. apply Hin. by right.
Qed.

Lemma triple_enqueue ms d what : forallb plain ms = true ->
  triple (fun s => open_tx s = None /\ desk_of s = d) (must_all (map enqueue_text ms) what)
    (fun _ s => open_tx s = None /\ desk_of s = mk_desk (jobs d ++ map (fun m => mk_job m 0 Free) ms) (notes d)).
Proof.
  unfold must_all. revert d. induction ms as [|m ms IH]; intros d Hp s (K1 & K2); cbn [exec_all map].
  { rewrite app_nil_r. by destruct d. }
  cbn [forallb] in Hp. apply andb_true_iff in Hp as [Hm Hp].
  destruct (cyboudb_exec s (enqueue_text m)) as [s1 rc] eqn:E. apply enqueue_law in E; [|done..].
  destruct (rc =? CybouDB_OK); cbn [negb]; [|done]. destruct E as [E1 E2].
  pose proof (IH (mk_desk (jobs d ++ [mk_job m 0 Free]) (notes d)) Hp s1) as IH'. cbn [jobs notes] in IH'.
  rewrite <- app_assoc in IH'. apply IH'. split; [done|]. by rewrite E1, K2.
Qed.

Lemma body_ok : triple (fun s => open_tx s = None /\ desk_of s = empty_desk) body
  (fun code s => code = 0 /\ desk_of s = all_done).
Proof.
  unfold body. next (triple_schema empty_desk).
  next (triple_enqueue ["alpha"; "beta"; "gamma"] empty_desk). next triple_print.
  eapply (triple_pre _ (somewhen queued)); [intros s (K1 & K2); exists (clock s); split; [done|]; split; [done|lia]|].
  next ordinary_path_ok. next handed_back_ok. next acknowledged_late_ok. next reclaimed_ok.
  eapply triple_bind.
  { instantiate (1 := fun _ s => desk_of s = all_done). intros s (from & K1 & K2 & K3).
    destruct (cyboudb_close s) as [s' rc] eqn:E. apply close_law in E.
    destruct (rc =? CybouDB_OK); cbn [negb]; [congruence|done]. }
  intros x. cbv beta. clear x. next triple_print. by apply triple_ret.
Qed.

(** C17: the program finishes every job exactly once.  On any engine that keeps
    the contract of the lease statements it either exits with 0, the three
    messages finished - the second by the late acknowledgement after it was
    handed back, the third by the worker that reclaimed it - and the first one's
    result recorded; or it exits with 1 because a call failed for a reason of
    the engine's own.  No refusal or acceptance the contract decides can make it
    fail: an old ticket is never accepted and a current one never refused. *)
Theorem leased_worker_finishes : let '(s', out, code) := main in
  (code = 0 /\ desk_of s' = all_done) \/ (code = 1 /\ faulted s' = true).
Proof.
  unfold main. destruct (cyboudb_create_with_options DB_PATH 4000 (Some opts)) as [s rc] eqn:E.
  apply create_law in E. destruct (rc =? CybouDB_OK); cbn [negb]; [|by right].
  destruct E as [E1 E2]. pose proof (body_ok s (conj E2 E1)) as Hb.
  destruct (body s) as [[s' out] [code|code]]; [by left|by right].
Qed.
End logic.

(** ** The contract as an engine *)

(** It fails when the next of [k_faults] says so; each call takes a
    millisecond. *)
Record desk_engine := mk_desk_engine {
  k_desk : desk;
  k_tx : option desk;
  k_clock : N;
  k_got : option (string * N * N);
  k_faults : list bool;
  k_faulted : bool;
}.

Definition k_set (s : desk_engine) (d : desk) : desk_engine :=
  match k_tx s with
  | Some _ => mk_desk_engine (k_desk s) (Some d) (k_clock s) (k_got s) (k_faults s) (k_faulted s)
  | None => mk_desk_engine d None (k_clock s) (k_got s) (k_faults s) (k_faulted s)
  end.

(** The fault of a call, and the millisecond it takes. *)
Definition k_tick (s : desk_engine) : bool * desk_engine :=
  let f := default false (List.head (k_faults s)) in
  (f, mk_desk_engine (k_desk s) (k_tx s) (k_clock s + 1) (k_got s) (List.tl (k_faults s)) (k_faulted s || f)).

Definition k_now (s : desk_engine) : desk := default (k_desk s) (k_tx s).

(** The ticket of a statement [verb FROM inbox AT p TOKEN t], and what follows. *)
Definition parse_ticket (verb sql : string) : option (N * N * string) :=
  match strip (verb +++ " FROM inbox AT ") sql with
  | Some r =>
      match number r with
      | Some (p, r) =>
          match strip " TOKEN " r with
          | Some r => match number r with Some (t, r) => Some (p, t, r) | None => None end
          | None => None
          end
      | None => None
      end
  | None => None
  end.

Definition parse_value (prefix sql : string) : option string :=
  match strip prefix sql with
  | Some r => match quoted r with Some (t, ")") => Some t | _ => None end
  | None => None
  end.

(** What a statement makes of the desk; [None] where it is refused. *)
Definition k_effect (now : N) (sql : string) (d : desk) : option desk :=
  let on_jobs o := match o with Some l => Some (mk_desk l (notes d)) | None => None end in
  match parse_ticket "ACK" sql with
  | Some (p, t, EmptyString) => on_jobs (contract_ack p t (jobs d))
  | _ =>
  match parse_ticket "NACK" sql with
  | Some (p, t, EmptyString) => on_jobs (contract_nack p t (jobs d))
  | _ =>
  match parse_ticket "RENEW" sql with
  | Some (p, t, r) =>
      match strip " FOR " r with
      | Some r => match number r with
                  | Some (ms, EmptyString) => on_jobs (contract_renew now ms p t (jobs d))
                  | _ => None
                  end
      | None => None
      end
  | None =>
  match parse_value "INSERT INTO results VALUES ('" sql with
  | Some note => Some (mk_desk (jobs d) (notes d ++ [note]))
  | None =>
  match parse_value "ENQUEUE INTO inbox VALUES ('" sql with
  | Some m => Some (mk_desk (jobs d ++ [mk_job m 0 Free]) (notes d))
  | None => if existsb (String.eqb sql) schema then Some d else None
  end end end end end.

Definition k_exec (s : desk_engine) (sql : string) : desk_engine * Z :=
  let '(f, s) := k_tick s in
  if f then (s, CybouDB_ERROR) else
  if String.eqb sql "BEGIN" then
    match k_tx s with
    | None => (mk_desk_engine (k_desk s) (Some (k_desk s)) (k_clock s) (k_got s) (k_faults s) (k_faulted s), CybouDB_OK)
    | Some _ => (s, CybouDB_ERROR)
    end
  else if String.eqb sql "COMMIT" then
    match k_tx s with
    | Some d => (mk_desk_engine d None (k_clock s) (k_got s) (k_faults s) (k_faulted s), CybouDB_OK)
    | None => (s, CybouDB_ERROR)
    end
  else match k_effect (k_clock s) sql (k_now s) with
       | Some d => (k_set s d, CybouDB_OK)
       | None => (s, CybouDB_ERROR)
       end.

Definition k_prepare (s : desk_engine) (sql : string) : desk_engine * Z * option N :=
  let '(f, s) := k_tick s in
  if f then (s, CybouDB_ERROR, None) else
  match strip "CLAIM FROM inbox FOR " sql with
  | Some r => match number r with
              | Some (ms, EmptyString) => (s, CybouDB_OK, Some ms)
              | _ => (s, CybouDB_ERROR, None)
              end
  | None => (s, CybouDB_ERROR, None)
  end.

Definition k_step (s : desk_engine) (h : option N) : desk_engine * Z :=
  let '(f, s) := k_tick s in
  if f then (s, CybouDB_ERROR) else
  match h with
  | None => (s, CybouDB_ERROR)
  | Some ms =>
      match contract_claim (k_clock s) ms (jobs (k_now s)) with
      | None => (s, CybouDB_DONE)
      | Some (i, j, l) =>
          let s := k_set s (mk_desk l (notes (k_now s))) in
          (mk_desk_engine (k_desk s) (k_tx s) (k_clock s) (Some (payload j, N.of_nat i, token j)) (k_faults s) (k_faulted s),
           CybouDB_ROW)
      end
  end.

#[local] Instance contract_engine (faults : list bool) : Engine desk_engine (option N) := {|
  cyboudb_create_with_options path pages options :=
    (mk_desk_engine empty_desk None 1000 None faults false, CybouDB_OK);
  cyboudb_close s := let '(f, s) := k_tick s in (s, if f then CybouDB_ERROR else CybouDB_OK);
  cyboudb_errmsg s := "ok";
  cyboudb_exec := k_exec;
  cyboudb_prepare := k_prepare;
  cyboudb_step := k_step;
  cyboudb_message s h cap :=
    match k_got s with
    | Some (p, _, _) => if (String.length p <=? cap)%nat then (CybouDB_OK, p) else (CybouDB_MISUSE, EmptyString)
    | None => (CybouDB_MISUSE, EmptyString)
    end;
  cyboudb_claim_ticket s h :=
    match k_got s with Some (_, p, t) => (CybouDB_OK, (p, t)) | None => (CybouDB_MISUSE, (0%N, 0%N)) end;
  cyboudb_finalize s h := s;
  elapse s ms := mk_desk_engine (k_desk s) (k_tx s) (k_clock s + ms) (k_got s) (k_faults s) (k_faulted s);
|}.

(** The statements are read back. *)
Lemma append_assoc a b c : (a +++ b) +++ c = a +++ b +++ c.
Proof. induction a; simpl; [done|]. by f_equal. Qed.

Lemma append_nil a : a +++ EmptyString = a.
Proof. induction a; simpl; [done|]. by f_equal. Qed.

Lemma parse_ticket_text verb p t r :
  match r with EmptyString => true | String c _ => negb (is_digit c) end = true ->
  parse_ticket verb (ticket_text verb p t +++ r) = Some (p, t, r).
Proof.
  intros Hr. unfold parse_ticket, ticket_text. rewrite !append_assoc.
  rewrite <- (append_assoc verb " FROM inbox AT "), strip_app, number_dec by done.
  by rewrite strip_app, number_dec.
Qed.

Lemma k_ack now p t d : k_effect now (ack_text p t) d =
  match contract_ack p t (jobs d) with Some l => Some (mk_desk l (notes d)) | None => None end.
Proof. unfold k_effect, ack_text. rewrite <- (append_nil (ticket_text "ACK" p t)). by rewrite parse_ticket_text. Qed.

Lemma k_nack now p t d : k_effect now (nack_text p t) d =
  match contract_nack p t (jobs d) with Some l => Some (mk_desk l (notes d)) | None => None end.
Proof.
  unfold k_effect, nack_text. change (parse_ticket "ACK" (ticket_text "NACK" p t)) with (@None (N * N * string)).
  rewrite <- (append_nil (ticket_text "NACK" p t)). by rewrite parse_ticket_text.
Qed.

Lemma k_renew now p t ms d : k_effect now (renew_text p t ms) d =
  match contract_renew now ms p t (jobs d) with Some l => Some (mk_desk l (notes d)) | None => None end.
Proof.
  unfold k_effect, renew_text.
  change (parse_ticket "ACK" (ticket_text "RENEW" p t +++ " FOR " +++ dec ms)) with (@None (N * N * string)).
  change (parse_ticket "NACK" (ticket_text "RENEW" p t +++ " FOR " +++ dec ms)) with (@None (N * N * string)).
  rewrite parse_ticket_text by done. rewrite strip_app.
  rewrite <- (append_nil (dec ms)), number_dec by done. done.
Qed.

Lemma lease_value_text p t : plain t = true -> parse_value p (p +++ t +++ "')") = Some t.
Proof. intros Hp. unfold parse_value. by rewrite strip_app, quoted_plain. Qed.

Lemma k_note now note d : plain note = true ->
  k_effect now (note_text note) d = Some (mk_desk (jobs d) (notes d ++ [note])).
Proof.
  intros Hp. unfold k_effect. change (parse_ticket "ACK" (note_text note)) with (@None (N * N * string)).
  change (parse_ticket "NACK" (note_text note)) with (@None (N * N * string)).
  change (parse_ticket "RENEW" (note_text note)) with (@None (N * N * string)).
  unfold note_text. by rewrite lease_value_text.
Qed.

Lemma k_enqueue now m d : plain m = true ->
  k_effect now (enqueue_text m) d = Some (mk_desk (jobs d ++ [mk_job m 0 Free]) (notes d)).
Proof.
  intros Hp. unfold k_effect. change (parse_ticket "ACK" (enqueue_text m)) with (@None (N * N * string)).
  change (parse_ticket "NACK" (enqueue_text m)) with (@None (N * N * string)).
  change (parse_ticket "RENEW" (enqueue_text m)) with (@None (N * N * string)).
  change (parse_value "INSERT INTO results VALUES ('" (enqueue_text m)) with (@None string).
  unfold enqueue_text. by rewrite lease_value_text.
Qed.

(** A call: it fails, or does what it does a millisecond later. *)
Lemma k_exec_effect s s' rc sql : String.eqb sql "BEGIN" = false -> String.eqb sql "COMMIT" = false ->
  k_exec s sql = (s', rc) -> (k_clock s <= k_clock s')%N /\
  ((rc = CybouDB_ERROR /\ k_faulted s' = true /\ k_desk s' = k_desk s /\ k_tx s' = k_tx s) \/
   match k_effect (k_clock s + 1) sql (k_now s) with
   | Some d => rc = CybouDB_OK /\ k_desk s' = match k_tx s with Some _ => k_desk s | None => d end /\
               k_tx s' = match k_tx s with Some _ => Some d | None => None end
   | None => rc = CybouDB_ERROR /\ k_desk s' = k_desk s /\ k_tx s' = k_tx s
   end) /\ (k_clock s + 1 <= k_clock s')%N.
Proof.
  intros E1 E2. unfold k_exec, k_tick. destruct (default false _); simpl.
  { intros [= <- <-]. simpl. split; [lia|]. split; [left|lia]. by rewrite orb_true_r. }
  rewrite E1, E2. change (k_now (mk_desk_engine _ _ _ _ _ _)) with (k_now s).
  destruct (k_effect _ sql (k_now s)) as [d|]; intros [= <- <-].
  - unfold k_set. simpl. destruct (k_tx s); simpl; (split; [lia|]); (split; [right|lia]); done.
  - simpl. split; [lia|]. split; [right|lia]. done.
Qed.

(** Closes a law of a statement with the effect [lem]. *)
#[local] Ltac by_effect E lem :=
  apply k_exec_effect in E as (Hc & E & Hc'); [|done..]; rewrite lem in E by done.

#[local] Instance contract_laws faults : @LeaseLaws desk_engine (option N) (contract_engine faults).
Proof.
  refine (@Build_LeaseLaws desk_engine (option N) (contract_engine faults) k_desk k_tx k_clock k_faulted
    (fun h => h) (fun s _ => k_got s) _ _ _ _ _ _ _ _ _ _ _ _ _ _ _ _ _); simpl.
  - intros path pages s rc [= <- <-]. done.
  - intros sql s s' rc Hin Hs E.
    assert (Hk : forall now d, k_effect now sql d = Some d) by (intros; by repeat destruct Hin as [<-|Hin]).
    apply k_exec_effect in E as (Hc & E & Hc'); [|by repeat destruct Hin as [<-|Hin]..].
    rewrite Hk, Hs in E. unfold k_now in E. rewrite Hs in E. destruct E as [(-> & ? & _)|(-> & ? & ?)]; done.
  - intros m s s' rc Hs Hp E. by_effect E k_enqueue. unfold k_now in E. rewrite Hs in E.
    destruct E as [(-> & ? & _)|(-> & ? & ?)]; done.
  - intros s s' rc Hs E. unfold k_exec, k_tick in E. destruct (default false _) in E; simpl in E.
    + injection E as <- <-. simpl. by rewrite orb_true_r.
    + rewrite Hs in E. by injection E as <- <-.
  - intros note s s' rc d Hs Hp E. by_effect E k_note. unfold k_now in E. rewrite Hs in E.
    destruct E as [(-> & ? & _)|(-> & ? & ?)]; done.
  - intros s s' rc d Hs E. unfold k_exec, k_tick in E. destruct (default false _) in E; simpl in E.
    + injection E as <- <-. simpl. by rewrite orb_true_r.
    + rewrite Hs in E. by injection E as <- <-.
  - intros pos t s s' rc d l Hs Hl E. by_effect E k_ack. unfold k_now in E. rewrite Hs in E. cbn [from_option id] in E.
    rewrite Hl in E. destruct E as [(-> & ? & _)|(-> & ? & ?)]; done.
  - intros pos t s s' rc Hs E. by_effect E k_ack. unfold k_now in E. rewrite Hs in E. cbn [from_option id] in E.
    split; [done|]. destruct (contract_ack pos t (jobs (k_desk s)));
      destruct E as [(-> & ? & ? & ?)|(-> & ? & ?)]; done.
  - intros pos t s s' rc Hs E. by_effect E k_nack. unfold k_now in E. rewrite Hs in E. cbn [from_option id] in E.
    destruct (contract_nack pos t (jobs (k_desk s)));
      destruct E as [(-> & ? & ? & ?)|(-> & ? & ?)]; done.
  - intros pos t ms s s' rc Hs E. by_effect E k_renew. unfold k_now in E. rewrite Hs in E. cbn [from_option id] in E.
    exists (k_clock s + 1)%N. split; [lia|]. destruct (contract_renew _ ms pos t (jobs (k_desk s)));
      destruct E as [(-> & ? & ? & ?)|(-> & ? & ?)]; done.
  - intros ms s s' rc h E. unfold k_prepare, k_tick, claim_text in E.
    rewrite (strip_app "CLAIM FROM inbox FOR "), <- (append_nil (dec ms)), number_dec in E by done.
    destruct (default false _) in E; injection E as <- <- <-; simpl.
    + by rewrite orb_true_r.
    + repeat split; done || lia.
  - intros h ms s s' rc -> Hs E. unfold k_step, k_tick in E. destruct (default false _) in E; simpl in E.
    + injection E as <- <-. simpl. exists (k_clock s + 1)%N. split; [lia|].
      destruct (contract_claim _ ms _) as [[[i j] l]|]; rewrite ?orb_true_r; done.
    + unfold k_now in E. simpl in E. rewrite Hs in E. simpl in E. exists (k_clock s + 1)%N.
      destruct (contract_claim _ ms (jobs (k_desk s))) as [[[i j] l]|]; unfold k_set in E; simpl in E;
        rewrite ?Hs in E; injection E as <- <-; simpl; (split; [lia|]); done.
  - intros s h p i t cap -> Hl. by destruct (_ <=? _)%nat eqn:Ex; bool_to_prop; [|lia].
  - intros s h p i t ->. done.
  - intros s h. repeat split; lia || done.
  - intros s ms. repeat split; lia || done.
  - intros s s' rc E. unfold k_tick in E. destruct (default false _) in E; simpl in E; injection E as <- <-; simpl;
      by rewrite ?orb_true_r.
Defined.

Lemma leased_worker_finishes_witness : let '(s', out, code) := @main _ _ (contract_engine []) in
  (code = 0 /\ k_desk s' = all_done) \/ (code = 1 /\ k_faulted s' = true).
Proof. apply (@leased_worker_finishes _ _ (contract_engine []) (contract_laws [])). Defined.

(** With no fault it prints what the run of the example shows. *)
Example leased_worker_runs : let '(s', out, code) := @main _ _ (contract_engine []) in
  code = 0 /\ nth 1 out (Err "") = Out "claimed 'alpha' at 0 with token 1" /\
  List.last out (Err "") = Out "3 jobs finished, each exactly once".
Proof. vm_compute. done. Qed.
