(* ===== verification/LeaseRefine.v ===== *)
(** * LeaseRefine: the engine's lease queue implements the contract

    The operations of [LeaseQueue] ([src/core/queue.asm]) on a queue the
    validator accepts do what the contract of [LeasedWorker] (the lease
    statements of [cyboudb.h]) says, refusals included: a simulation between
    the pages and the list of every message the queue has held. *)

From Stdlib Require Import String.
From S2P Require Import Prelude LeaseQueue LeasedWorker.

(** The message in a slot. *)
Definition job_of (m : slot) : job :=
  mk_job (m_payload m) (Z.to_N (m_token m))
    (if m_state m =? QMSG_STATE_HELD then Free
     else if m_state m =? QMSG_STATE_CLAIMED then Leased (Z.to_N (m_until m)) else Finished).

(** The pages hold the live part of the history; what is behind the head is
    finished. *)
Record holds_jobs (q : queue) (l : list job) : Prop := {
  hj_length : length l = tail q;
  hj_live : forall p m, live q p -> queue_slot_at q p = Some m -> l !! p = Some (job_of m);
  hj_behind : forall p j, (p < head q)%nat -> l !! p = Some j -> state j = Finished;
}.

(** ** The first claimable message *)

Lemma first_claimable_intro now l i j : l !! i = Some j -> may_claim now j = true ->
  (forall k j', (k < i)%nat -> l !! k = Some j' -> may_claim now j' = false) ->
  first_claimable now l = Some (i, j).
Proof.
  revert i. induction l as [|x l IH]; intros [|i] Hj Hm Hk; simpl in *; try done.
  - injection Hj as ->. by rewrite Hm.
  - rewrite (Hk 0%nat x) by (done || lia). rewrite (IH i); try done.
    intros k j' Hlt E. apply (Hk (S k)); [lia|done].
Qed.

Lemma first_claimable_none now l : (forall k j, l !! k = Some j -> may_claim now j = false) ->
  first_claimable now l = None.
Proof.
  induction l as [|x l IH]; intros Hk; simpl; [done|]. rewrite (Hk 0%nat x) by done.
  rewrite IH; [done|]. intros k j E. by apply (Hk (S k)).
Qed.

Lemma may_claim_job now m : 0 <= now -> in_range m -> slot_valid m = true ->
  may_claim (Z.to_N now) (job_of m) = claimable now m.
Proof.
  intros Hn [Hu _] Hv. unfold may_claim, job_of, claimable. cbn [state].
  destruct (m_state m =? QMSG_STATE_HELD); [done|]. destruct (m_state m =? QMSG_STATE_CLAIMED); [|done].
  cbn. destruct (m_until m <=? now) eqn:E; bool_to_prop; lia.
Qed.

Lemma scan_first_claimable c q l now : good c q -> holds_jobs q l -> 0 <= now ->
  match db_queue_scan_claimable c q now with
  | Some p => exists m, live q p /\ queue_slot_at q p = Some m /\
                first_claimable (Z.to_N now) l = Some (p, job_of m)
  | None => first_claimable (Z.to_N now) l = None
  end.
Proof.
  intros G Hj Hn. unfold db_queue_scan_claimable. rewrite (g_leases _ _ G). cbn [negb].
  rewrite scan_from_spec by (try apply G; lia).
  assert (Hall : forall k j, l !! k = Some j -> (live q k -> claimable_at q now k = false) ->
    may_claim (Z.to_N now) j = false).
  { intros k j E Hf. pose proof (lookup_lt_Some _ _ _ E) as Hlt. rewrite (hj_length _ _ Hj) in Hlt.
    destruct (decide (k < head q)%nat) as [Hk|Hk].
    - unfold may_claim. by rewrite (hj_behind _ _ Hj k j).
    - assert (Hl : live q k) by (unfold live; lia). destruct (shaped_slot q k (g_shape _ _ G) Hl) as [m Em].
      rewrite (hj_live _ _ Hj k m) in E by done. injection E as <-.
      rewrite may_claim_job; [|done|by apply (g_range _ _ G k)|by apply (g_deep _ _ G k)].
      specialize (Hf Hl). unfold claimable_at in Hf. by rewrite Em in Hf. }
  destruct (first_from _ _ _) as [p|] eqn:E.
  - apply first_from_Some in E as (Hp & Hc & Hk). assert (Hl : live q p) by (unfold live; lia).
    destruct (shaped_slot q p (g_shape _ _ G) Hl) as [m Em]. exists m. split; [done|]. split; [done|].
    apply first_claimable_intro.
    + by apply (hj_live _ _ Hj).
    + rewrite may_claim_job; [|done|by apply (g_range _ _ G p)|by apply (g_deep _ _ G p)].
      unfold claimable_at in Hc. by rewrite Em in Hc.
    + intros k j Hlt Ej. apply (Hall k j Ej). intros [? ?]. apply Hk. lia.
  - apply first_claimable_none. intros k j Ej. apply (Hall k j Ej). intros [? ?].
    apply (first_from_None _ _ _ E). lia.
Qed.

(** ** One message rewritten *)

Lemma holds_jobs_op q q' l pos f m : holds_jobs q l -> live q pos -> queue_slot_at q pos = Some m ->
  tail q' = tail q -> (head q <= head q')%nat ->
  (forall p, live q' p -> queue_slot_at q' p = if (p =? pos)%nat then f <$> queue_slot_at q p else queue_slot_at q p) ->
  (forall p j, (head q <= p < head q')%nat -> <[pos := job_of (f m)]> l !! p = Some j -> state j = Finished) ->
  holds_jobs q' (<[pos := job_of (f m)]> l).
Proof.
  intros Hj Hl Em Ht Hh Hv Hdone. constructor.
  - by rewrite length_insert, Ht, (hj_length _ _ Hj).
  - intros p m' Hp E. assert (Hlq : live q p) by (unfold live in *; lia). rewrite Hv in E by done.
    destruct (p =? pos)%nat eqn:Ep; bool_to_prop.
    + subst p. rewrite Em in E. injection E as <-. apply list_lookup_insert_eq.
      rewrite (hj_length _ _ Hj). apply Hl.
    + rewrite list_lookup_insert_ne by done. by apply (hj_live _ _ Hj).
  - intros p j Hp E. destruct (decide (p < head q)%nat).
    + rewrite list_lookup_insert_ne in E by (destruct Hl; lia). by apply (hj_behind _ _ Hj p).
    + apply (Hdone p); [lia|done].
Qed.

(** What [with_ticket] decides is what [lease_hold] decides. *)
Lemma ticket_of_slot q l pos t m : holds_jobs q l -> live q pos -> queue_slot_at q pos = Some m -> in_range m ->
  0 <= t -> holds (Z.to_N t) (job_of m) = (m_state m =? QMSG_STATE_CLAIMED) && (m_token m =? t).
Proof.
  intros Hj Hl Em [_ Hr] Ht. unfold holds, job_of. cbn [state token].
  destruct (m_state m =? QMSG_STATE_HELD) eqn:E1; bool_to_prop.
  - by rewrite E1.
  - destruct (m_state m =? QMSG_STATE_CLAIMED); [|done]. cbn.
    destruct (m_token m =? t) eqn:E2; bool_to_prop; lia.
Qed.

Lemma with_ticket_live c q l pos t f : good c q -> holds_jobs q l -> 0 <= t ->
  match lease_find_slot q pos with
  | Some m => with_ticket (N.of_nat pos) (Z.to_N t) f l =
      if (m_state m =? QMSG_STATE_CLAIMED) && (m_token m =? t) then Some (<[pos := f (job_of m)]> l) else None
  | None => with_ticket (N.of_nat pos) (Z.to_N t) f l = None
  end.
Proof.
  intros G Hj Ht. unfold with_ticket. rewrite Nat2N.id. destruct (lease_find_slot q pos) as [m|] eqn:Ef.
  - apply find_slot_live in Ef as [Hl Em]. rewrite (hj_live _ _ Hj pos m) by done.
    rewrite (ticket_of_slot q l pos t m) by (try done; by apply (g_range _ _ G pos)). done.
  - destruct (l !! pos) as [j|] eqn:E; [|done]. pose proof (lookup_lt_Some _ _ _ E) as Hlt.
    rewrite (hj_length _ _ Hj) in Hlt. destruct (decide (pos < head q)%nat).
    + unfold holds. by rewrite (hj_behind _ _ Hj pos j).
    + assert (Hl : live q pos) by (unfold live; lia). destruct (shaped_slot q pos (g_shape _ _ G) Hl) as [m Em].
      assert (lease_find_slot q pos = Some m) by (by apply find_slot_live). congruence.
Qed.

(** ** The operations *)

Section operations.
Context (c : ctx) (q : queue) (l : list job).
Context (G : good c q) (Hj : holds_jobs q l) (Hedit : db_catalog_edit c = 0) (Hcopy : db_page_copy c = 0).

Lemma hold_refused pos t m : lease_find_slot q pos = Some m ->
  (m_state m =? QMSG_STATE_CLAIMED) && (m_token m =? t) = false -> lease_hold c q pos t = (CybouDB_E_LEASE, q).
Proof using G.
  intros Ef Eb. unfold lease_hold. rewrite (g_leases _ _ G), Ef. cbn [negb].
  destruct (m_state m =? QMSG_STATE_CLAIMED); [|done]. simpl in Eb. by rewrite Eb.
Qed.

Lemma hold_missing pos t : lease_find_slot q pos = None -> lease_hold c q pos t = (CybouDB_E_LEASE, q).
Proof using G. intros Ef. unfold lease_hold. by rewrite (g_leases _ _ G), Ef. Qed.

Lemma hold_granted pos t m : lease_find_slot q pos = Some m ->
  (m_state m =? QMSG_STATE_CLAIMED) && (m_token m =? t) = true -> lease_hold c q pos t = (0, writable q pos).
Proof using G Hedit Hcopy.
  intros Ef Eb. apply find_slot_live in Ef as [Hl Em]. apply andb_true_iff in Eb as [E1 E2]. bool_to_prop.
  subst t. apply hold_live; try done. apply G.
Qed.

Lemma claim_refines now d : 0 <= now -> 0 < d -> q_now q now + d <= UINT64_MAX ->
  match contract_claim (Z.to_N (q_now q now)) (Z.to_N d) l with
  | None => db_queue_claim c q now d = (CybouDB_E_NOTFOUND, q, 0%nat, 0)
  | Some (i, j, l') =>
      (token j = 2 ^ 64)%N /\ db_queue_claim c q now d = (CybouDB_E_VALUE, q, 0%nat, 0) \/
      exists q', db_queue_claim c q now d = (0, q', i, Z.of_N (token j)) /\ holds_jobs q' l'
  end.
Proof using G Hj Hedit Hcopy.
  intros Hn Hd Ho. assert (Hnow : 0 <= q_now q now) by (unfold q_now; destruct (_ <=? _); [lia|apply G]).
  pose proof (scan_first_claimable c q l (q_now q now) G Hj Hnow) as Hs. unfold contract_claim.
  assert (Hhead : db_queue_claim c q now d = match db_queue_scan_claimable c q (q_now q now) with
    | None => (CybouDB_E_NOTFOUND, q, 0%nat, 0) | Some _ => db_queue_claim c q now d end).
  { unfold db_queue_claim, lease_now. rewrite (g_leases _ _ G). fold (q_now q now).
    destruct (d =? 0) eqn:Ed; bool_to_prop; [lia|]. cbn [negb Z.eqb]. by destruct (db_queue_scan_claimable _ _ _). }
  destruct (db_queue_scan_claimable c q (q_now q now)) as [p|] eqn:Escan; [|by rewrite Hs, Hhead].
  destruct Hs as (m & Hl & Em & ->). cbn [token].
  assert (Hf : lease_find_slot q p = Some m) by (by apply find_slot_live).
  destruct (g_range _ _ G p m Hl Em) as [_ Ht].
  destruct (decide (m_token m = UINT64_MAX)) as [Hmax|Hmax].
  { left. split; [unfold job_of; cbn [token]; rewrite Hmax; done|].
    unfold db_queue_claim, lease_now. rewrite (g_leases _ _ G). fold (q_now q now).
    destruct (d =? 0) eqn:Ed; bool_to_prop; [lia|]. cbn [negb Z.eqb]. rewrite Escan, Hf.
    destruct (m_token m =? UINT64_MAX) eqn:E; bool_to_prop; done. }
  right. assert (Hex : exists q' t, db_queue_claim c q now d = (0, q', p, t)).
  { unfold db_queue_claim, lease_now. rewrite (g_leases _ _ G). fold (q_now q now).
    destruct (d =? 0) eqn:Ed; bool_to_prop; [lia|]. cbn [negb Z.eqb]. rewrite Escan, Hf.
    destruct (m_token m =? UINT64_MAX) eqn:E; bool_to_prop; [done|].
    unfold lease_edit_slot. rewrite Hedit, Hcopy. cbn [Z.eqb negb].
    change (lease_find_slot (unseal_page q) p) with (lease_find_slot q p). rewrite Hf. cbn [Z.eqb negb].
    destruct (UINT64_MAX <? _) eqn:E2; bool_to_prop; [lia|]. by do 2 eexists. }
  destruct Hex as (q' & t & E). exists q'. assert (E' := E).
  apply claim_ok in E' as (_ & _ & _ & _ & m' & Em' & _ & -> & ->). rewrite Em in Em'. injection Em' as <-.
  rewrite u64_succ in E |- * by done. rewrite E.
  split; [unfold job_of; cbn [token]; do 2 f_equal; lia|].
  destruct (op_view c q p (take_lease (q_now q now + d) (m_token m + 1)) (Nat.max (S p) (claim q)) (q_now q now)
    (g_shape _ _ G) Hl) as (_ & V2 & V3 & V4).
  replace (mk_job _ _ _) with (job_of (take_lease (q_now q now + d) (m_token m + 1) m)).
  - eapply (holds_jobs_op q _ l p _ m); try done. intros p' j' Hp'. unfold with_cursor in Hp'. cbn [head] in Hp'.
    destruct (op_fields c q p (take_lease (q_now q now + d) (m_token m + 1))) as (E1 & _). rewrite E1 in Hp'. lia.
  - unfold job_of, take_lease. cbn. f_equal; [lia|f_equal; lia].
Qed.

Lemma ack_refines pos t : 0 <= t ->
  match contract_ack (N.of_nat pos) (Z.to_N t) l with
  | Some l' => exists q', db_queue_ack c q pos t = (0, q') /\ holds_jobs q' l'
  | None => db_queue_ack c q pos t = (CybouDB_E_LEASE, q)
  end.
Proof using G Hj Hedit Hcopy.
  intros Ht. unfold contract_ack.
  pose proof (with_ticket_live c q l pos t (fun j => mk_job (payload j) (token j) Finished) G Hj Ht) as Hw.
  destruct (lease_find_slot q pos) as [m|] eqn:Ef; rewrite Hw.
  2: { unfold db_queue_ack. by rewrite hold_missing. }
  destruct (_ && _) eqn:Eb.
  2: { unfold db_queue_ack. by rewrite (hold_refused pos t m). }
  assert (Hex : exists q', db_queue_ack c q pos t = (0, q'))
    by (unfold db_queue_ack; rewrite (hold_granted pos t m) by done; by eexists).
  destruct Hex as [q' E]. exists q'. split; [done|]. apply find_slot_live in Ef as [Hl Em].
  apply ack_ok in E as (_ & _ & _ & ->).
  destruct (ack_view c q pos m (g_shape _ _ G) Hl Em) as (_ & V2 & V3 & V4).
  change (mk_job _ _ Finished) with (job_of (finish m)).
  eapply (holds_jobs_op q _ l pos _ m); try done.
  intros p j Hp E. set (q1 := touched c (writable q pos) pos finish) in *.
  assert (H1 : shaped q1) by (by apply shaped_touched, shaped_writable, G).
  destruct (advance_head q1 H1) as (A1 & _). cbn [db_catalog_seal head] in Hp. rewrite A1 in Hp.
  destruct (op_fields c q pos finish) as (E1 & E2 & _). fold q1 in E1, E2.
  pose proof (acked_run_range q1 (tail q1 - head q1) (head q1)) as Hr. fold (new_head q1) in Hr.
  pose proof (sh_order _ (g_shape _ _ G)).
  destruct (acked_run_passed q1 (tail q1 - head q1) (head q1) p) as (m' & Em' & Hs); [unfold new_head in *; lia|].
  unfold q1 in Em'. rewrite slot_at_op in Em' by (apply G || done).
  destruct (p =? pos)%nat eqn:Ep; bool_to_prop.
  - subst p. rewrite list_lookup_insert_eq in E by (rewrite (hj_length _ _ Hj); apply Hl). by injection E as <-.
  - rewrite list_lookup_insert_ne, (hj_live _ _ Hj p m') in E by (done || unfold live; lia).
    injection E as <-. unfold job_of. cbn [state]. by rewrite Hs.
Qed.

Lemma nack_refines pos t : 0 <= t ->
  match contract_nack (N.of_nat pos) (Z.to_N t) l with
  | Some l' => t = UINT64_MAX /\ db_queue_nack c q pos t = (CybouDB_E_VALUE, q) \/
               exists q', db_queue_nack c q pos t = (0, q') /\ holds_jobs q' l'
  | None => exists rc, rc <> 0 /\ db_queue_nack c q pos t = (rc, q)
  end.
Proof using G Hj Hedit Hcopy.
  intros Ht. unfold contract_nack.
  pose proof (with_ticket_live c q l pos t (fun j => mk_job (payload j) (token j + 1) Free) G Hj Ht) as Hw.
  destruct (lease_find_slot q pos) as [m|] eqn:Ef; rewrite Hw.
  2: { unfold db_queue_nack. rewrite Ef. by exists CybouDB_E_LEASE. }
  assert (Ef' := Ef). apply find_slot_live in Ef' as [Hl Em]. destruct (g_range _ _ G pos m Hl Em) as [_ Htok].
  destruct (_ && _) eqn:Eb.
  2: { unfold db_queue_nack. rewrite Ef. destruct (m_token m =? UINT64_MAX); [by exists CybouDB_E_VALUE|].
    rewrite (hold_refused pos t m) by done. by exists CybouDB_E_LEASE. }
  assert (Emt : m_token m = t) by (apply andb_true_iff in Eb as [_ Eb]; by bool_to_prop).
  destruct (Z.eqb_spec (m_token m) UINT64_MAX) as [Emax|Emax].
  { left. split; [congruence|]. unfold db_queue_nack. by rewrite Ef, Emax. }
  right. assert (Hex : exists q', db_queue_nack c q pos t = (0, q')).
  { unfold db_queue_nack. rewrite Ef. destruct (Z.eqb_spec (m_token m) UINT64_MAX); [done|].
    rewrite (hold_granted pos t m) by done. by eexists. }
  destruct Hex as [q' E]. exists q'. split; [done|]. apply nack_ok in E as (_ & _ & _ & _ & ->).
  rewrite seal_with_cursor.
  destruct (op_view c q pos give_back (claim q) (time_floor q) (g_shape _ _ G) Hl) as (_ & V2 & V3 & V4).
  replace (mk_job _ _ _) with (job_of (give_back m)).
  - eapply (holds_jobs_op q _ l pos _ m); try done. intros p' j' Hp'. cbn [with_cursor head] in Hp'.
    destruct (op_fields c q pos give_back) as (E1 & _). rewrite E1 in Hp'. lia.
  - unfold job_of, give_back. cbn. f_equal. rewrite u64_succ by done. lia.
Qed.

Lemma renew_refines pos t now d : 0 <= t -> 0 <= now -> 0 < d -> q_now q now + d <= UINT64_MAX ->
  match contract_renew (Z.to_N (q_now q now)) (Z.to_N d) (N.of_nat pos) (Z.to_N t) l with
  | Some l' => exists q', db_queue_renew c q pos t now d = (0, q') /\ holds_jobs q' l'
  | None => db_queue_renew c q pos t now d = (CybouDB_E_LEASE, q)
  end.
Proof using G Hj Hedit Hcopy.
  intros Ht Hn Hd Ho. assert (Hnow : 0 <= q_now q now) by (unfold q_now; destruct (_ <=? _); [lia|apply G]).
  unfold contract_renew. set (f := fun j => mk_job _ _ _).
  pose proof (with_ticket_live c q l pos t f G Hj Ht) as Hw.
  assert (Hhead : db_queue_renew c q pos t now d = let '(rc, q1) := lease_hold c q pos t in
    if negb (rc =? 0) then (rc, q1) else db_queue_renew c q pos t now d).
  { unfold db_queue_renew, lease_now. rewrite (g_leases _ _ G).
    destruct (d =? 0) eqn:Ed; bool_to_prop; [lia|]. cbn [negb Z.eqb].
    destruct (lease_hold c q pos t) as [rc q1]. by destruct (negb (rc =? 0)). }
  destruct (lease_find_slot q pos) as [m|] eqn:Ef; rewrite Hw.
  2: { rewrite Hhead. by rewrite hold_missing. }
  destruct (_ && _) eqn:Eb.
  2: { rewrite Hhead. by rewrite (hold_refused pos t m). }
  assert (Hex : exists q', db_queue_renew c q pos t now d = (0, q')).
  { unfold db_queue_renew, lease_now. rewrite (g_leases _ _ G). fold (q_now q now).
    destruct (Z.eqb_spec d 0); [lia|]. cbn [negb Z.eqb]. rewrite (hold_granted pos t m) by done. cbn [Z.eqb negb].
    destruct (Z.ltb_spec UINT64_MAX (q_now q now + d)); [lia|]. by eexists. }
  destruct Hex as [q' E]. exists q'. split; [done|]. apply renew_ok in E as (_ & _ & _ & _ & ->).
  apply find_slot_live in Ef as [Hl Em].
  assert (Hst : m_state m = QMSG_STATE_CLAIMED) by (apply andb_true_iff in Eb as [Eb _]; by bool_to_prop).
  destruct (op_view c q pos (extend (q_now q now + d)) (claim q) (q_now q now) (g_shape _ _ G) Hl) as (_ & V2 & V3 & V4).
  replace (f (job_of m)) with (job_of (extend (q_now q now + d) m)).
  - eapply (holds_jobs_op q _ l pos _ m); try done. intros p' j' Hp'. cbn [with_cursor head] in Hp'.
    destruct (op_fields c q pos (extend (q_now q now + d))) as (E1 & _). rewrite E1 in Hp'. lia.
  - unfold job_of, extend, f. cbn. rewrite Hst. cbn. do 2 f_equal. lia.
Qed.
End operations.

(** C5: the lease operations of the engine implement the contract.  On a queue
    the validator accepts that holds the messages of [l], with room for the pages
    an operation copies, each of the four operations succeeds exactly when the
    contract says so (at the end of the token's range aside, where it refuses),
    hands out the position and the token the contract names, and leaves a queue
    that holds the messages the contract leaves; a refusal changes nothing. *)
Theorem lease_queue_implements_contract c q l :
  accepted c q -> holds_jobs q l -> db_catalog_edit c = 0 -> db_page_copy c = 0 ->
  (forall now d, 0 <= now -> 0 < d -> q_now q now + d <= UINT64_MAX ->
   match contract_claim (Z.to_N (q_now q now)) (Z.to_N d) l with
   | None => db_queue_claim c q now d = (CybouDB_E_NOTFOUND, q, 0%nat, 0)
   | Some (i, j, l') =>
       (token j = 2 ^ 64)%N /\ db_queue_claim c q now d = (CybouDB_E_VALUE, q, 0%nat, 0) \/
       exists q', db_queue_claim c q now d = (0, q', i, Z.of_N (token j)) /\ holds_jobs q' l'
   end) /\
  (forall pos t, 0 <= t ->
   match contract_ack (N.of_nat pos) (Z.to_N t) l with
   | Some l' => exists q', db_queue_ack c q pos t = (0, q') /\ holds_jobs q' l'
   | None => db_queue_ack c q pos t = (CybouDB_E_LEASE, q)
   end) /\
  (forall pos t, 0 <= t ->
   match contract_nack (N.of_nat pos) (Z.to_N t) l with
   | Some l' => t = UINT64_MAX /\ db_queue_nack c q pos t = (CybouDB_E_VALUE, q) \/
                exists q', db_queue_nack c q pos t = (0, q') /\ holds_jobs q' l'
   | None => exists rc, rc <> 0 /\ db_queue_nack c q pos t = (rc, q)
   end) /\
  (forall pos t now d, 0 <= t -> 0 <= now -> 0 < d -> q_now q now + d <= UINT64_MAX ->
   match contract_renew (Z.to_N (q_now q now)) (Z.to_N d) (N.of_nat pos) (Z.to_N t) l with
   | Some l' => exists q', db_queue_renew c q pos t now d = (0, q') /\ holds_jobs q' l'
   | None => db_queue_renew c q pos t now d = (CybouDB_E_LEASE, q)
   end).
Proof.
  intros G%accepted_good Hj He Hc. split; [intros; by apply claim_refines|].
  split; [intros; by apply ack_refines|]. split; [intros; by apply nack_refines|].
  intros. by apply renew_refines.
Qed.

(** Two jobs, the first claimed once. *)
Lemma lease_queue_implements_contract_witness :
  match contract_ack 0 1 [mk_job "a" 1 (Leased 1030); mk_job "b" 0 Free] with
  | Some l' => exists q', db_queue_ack lease_ctx one_claimed 0 1 = (0, q') /\ holds_jobs q' l'
  | None => False
  end.
Proof.
  apply (lease_queue_implements_contract lease_ctx one_claimed [mk_job "a" 1 (Leased 1030); mk_job "b" 0 Free])
    with (pos := 0%nat) (t := 1).
  - apply accepted_b_spec. vm_compute. reflexivity.
  - constructor.
    + vm_compute. reflexivity.
    + intros p m [Hp1 Hp2] E. vm_compute in Hp2. destruct p as [|[|p]]; [..|lia];
        vm_compute in E; injection E as <-; reflexivity.
    + intros p j Hp. vm_compute in Hp. lia.
  - reflexivity.
  - reflexivity.
  - lia.
Defined.
