(* ===== verification/Float32.v ===== *)
(** * Float32: the memory and the FLOAT32 kernels of the vector runtime

    [src/sql/vector_kernels_scalar.asm] and [src/sql/vector_kernels_avx2.asm].
    A float is its 32 bits; arithmetic is IEEE 754 binary32 with rounding to
    nearest even, through the Standard Library's [SpecFloat] at precision 24 and
    exponent bound 128.  The result of an invalid operation is one quiet NaN:
    its sign and payload are not modelled, and no kernel looks at them.

    The caller's memory is a store of floats and a store of [uint64_t] objects,
    both by byte address; a float pointer is four-byte aligned, as the C
    interface requires, so that two float objects are the same or disjoint. *)

From Stdlib Require Import SpecFloat.
From stdpp Require Import list sorting.
From S2P Require Import Prelude.

(** ** Binary32 *)

Definition decode (b : Z) : spec_float :=
  let s := Z.testbit b 31 in
  let e := (b .>> 23) .& 0xff in
  let m := b .& 0x7fffff in
  if e =? 0xff then if m =? 0 then S754_infinity s else S754_nan
  else if e =? 0 then if m =? 0 then S754_zero s else S754_finite s (Z.to_pos m) (-149)
  else S754_finite s (Z.to_pos (m + 2 ^ 23)) (e - 150).

Definition sign_bit (s : bool) : Z := if s then 0x80000000 else 0.

Definition encode (f : spec_float) : Z :=
  match f with
  | S754_zero s => sign_bit s
  | S754_infinity s => sign_bit s + 0x7f800000
  | S754_nan => 0x7fc00000
  | S754_finite s m e =>
      if Z.pos m <? 2 ^ 23 then sign_bit s + Z.pos m
      else sign_bit s + (e + 150) * 2 ^ 23 + (Z.pos m - 2 ^ 23)
  end.

(** [addss], [subss], [mulss], [divss] and [sqrtss], and each lane of their
    packed forms. *)
Definition addss (x y : Z) : Z := encode (SFadd 24 128 (decode x) (decode y)).
Definition subss (x y : Z) : Z := encode (SFsub 24 128 (decode x) (decode y)).
Definition mulss (x y : Z) : Z := encode (SFmul 24 128 (decode x) (decode y)).
Definition divss (x y : Z) : Z := encode (SFdiv 24 128 (decode x) (decode y)).
Definition sqrtss (x : Z) : Z := encode (SFsqrt 24 128 (decode x)).

(** The jumps after [ucomiss x, y]: an unordered comparison sets the carry, the
    zero and the parity flag. *)
Definition ucomiss_p (x y : Z) : bool :=
  match SFcompare (decode x) (decode y) with None => true | _ => false end.
Definition ucomiss_a (x y : Z) : bool :=
  match SFcompare (decode x) (decode y) with Some Gt => true | _ => false end.
Definition ucomiss_b (x y : Z) : bool :=
  match SFcompare (decode x) (decode y) with Some Lt | None => true | _ => false end.

(** The test every loop makes of a lane or a score. *)
Definition nonfinite (x : Z) : bool := ucomiss_p x x || (x .& 0x7f800000 =? 0x7f800000).

(** ** Memory *)

Record mem := mk_mem { f32s : Z -> Z; u64s : Z -> Z }.

Definition ld (m : mem) (p : Z) : Z := f32s m (u64 p).
Definition st (m : mem) (p v : Z) : mem :=
  mk_mem (fun a => if a =? u64 p then v else f32s m a) (u64s m).
Definition ld64 (m : mem) (p : Z) : Z := u64s m (u64 p).
Definition st64 (m : mem) (p v : Z) : mem :=
  mk_mem (f32s m) (fun a => if a =? u64 p then v else u64s m a).

(** [p[i]] of a float array. *)
Definition at4 (p : Z) (i : nat) : Z := p + 4 * Z.of_nat i.
Definition floats (m : mem) (p : Z) (n : nat) : list Z := map (fun i => ld m (at4 p i)) (seq 0 n).

(** ** Address arithmetic *)

(** The carry of a 64-bit addition, and [mul]'s high half. *)
Definition carry (x y : Z) : bool := 2 ^ 64 <=? x + y.
Definition high (x y : Z) : bool := negb (x * y / 2 ^ 64 =? 0).

Definition max_dimensions : Z := 0x3fffffffffffffff.

(** ** Kernels *)

Definition CybouDB_VECTOR_ABI_VERSION : Z := 2.

Definition VECTOR_OK : Z := 0.
Definition VECTOR_INVALID : Z := -1.
Definition VECTOR_NONFINITE : Z := -2.
Definition VECTOR_FULL : Z := -3.

(** The scalar loop: lanes [i] to [i + n - 1] added one after the other. *)
Fixpoint accumulate (lane : nat -> Z) (i n : nat) (xmm0 : Z) : Z :=
  match n with
  | O => xmm0
  | S n' => accumulate lane (S i) n' (addss xmm0 (lane i))
  end.

(** The AVX2 loop: while eight lanes are left they are computed together, spilled
    and added in lane order; the rest is the scalar tail.  The fuel bounds the
    chunks. *)
Fixpoint accumulate8 (fuel : nat) (lane : nat -> Z) (i n : nat) (xmm0 : Z) : Z :=
  match fuel with
  | O => xmm0
  | S fuel' =>
      if (n - i <? 8)%nat then accumulate lane i (n - i) xmm0
      else
        let ymm1 := map lane (seq i 8) in
        accumulate8 fuel' lane (i + 8) n (fold_left addss ymm1 xmm0)
  end.

Definition dot_lane (m : mem) (a b : Z) (i : nat) : Z := mulss (ld m (at4 a i)) (ld m (at4 b i)).
Definition l2_lane (m : mem) (a b : Z) (i : nat) : Z :=
  let d := subss (ld m (at4 a i)) (ld m (at4 b i)) in mulss d d.
Definition square_lane (m : mem) (a : Z) (i : nat) : Z := mulss (ld m (at4 a i)) (ld m (at4 a i)).

Definition vector_dot_f32_scalar (m : mem) (a b dimensions : Z) : Z :=
  accumulate (dot_lane m a b) 0 (Z.to_nat dimensions) 0.
Definition vector_l2sq_f32_scalar (m : mem) (a b dimensions : Z) : Z :=
  accumulate (l2_lane m a b) 0 (Z.to_nat dimensions) 0.
Definition vector_dot_f32_avx2 (m : mem) (a b dimensions : Z) : Z :=
  accumulate8 (S (Z.to_nat dimensions)) (dot_lane m a b) 0 (Z.to_nat dimensions) 0.
Definition vector_l2sq_f32_avx2 (m : mem) (a b dimensions : Z) : Z :=
  accumulate8 (S (Z.to_nat dimensions)) (l2_lane m a b) 0 (Z.to_nat dimensions) 0.

(** The scalar normalization checks and sums each lane in one loop. *)
Fixpoint norm_sum (m : mem) (a : Z) (i n : nat) (xmm0 : Z) : option Z :=
  match n with
  | O => Some xmm0
  | S n' =>
      if nonfinite (ld m (at4 a i)) then None
      else norm_sum m a (S i) n' (addss xmm0 (square_lane m a i))
  end.

(** What is decided on the sum before the output is touched. *)
Definition norm_ready (xmm0 : Z) : Z + Z :=
  if ucomiss_p xmm0 xmm0 then inl VECTOR_NONFINITE
  else if xmm0 .& 0x7fffffff =? 0 then inl VECTOR_INVALID
  else if 0x7f800000 <=? xmm0 .& 0x7fffffff then inl VECTOR_NONFINITE
  else inr (sqrtss xmm0).

(** A loop that reads a lane, computes and writes it, one lane after the other. *)
Fixpoint lane_loop (f : Z -> Z) (m : mem) (a out : Z) (i n : nat) : mem :=
  match n with
  | O => m
  | S n' => lane_loop f (st m (at4 out i) (f (ld m (at4 a i)))) a out (S i) n'
  end.

Definition normalize_loop (m : mem) (a out norm : Z) : nat -> nat -> mem :=
  lane_loop (fun x => divss x norm) m a out.

Definition vector_normalize_f32_scalar (m : mem) (input output dimensions : Z) : Z * mem :=
  if (input =? 0) || (output =? 0) || (dimensions =? 0) then (VECTOR_INVALID, m) else
  match norm_sum m input 0 (Z.to_nat dimensions) 0 with
  | None => (VECTOR_NONFINITE, m)
  | Some sum =>
      match norm_ready sum with
      | inl status => (status, m)
      | inr norm => (VECTOR_OK, normalize_loop m input output norm 0 (Z.to_nat dimensions))
      end
  end.

(** AVX2: a loop of checks, a loop of sums, then eight quotients at a time, read
    before any of them is written. *)
Fixpoint store_lanes (m : mem) (out : Z) (i : nat) (ymm : list Z) : mem :=
  match ymm with
  | [] => m
  | v :: ymm' => store_lanes (st m (at4 out i) v) out (S i) ymm'
  end.

Fixpoint normalize_chunks (fuel : nat) (m : mem) (a out norm : Z) (i n : nat) : mem :=
  match fuel with
  | O => m
  | S fuel' =>
      if (n - i <? 8)%nat then normalize_loop m a out norm i (n - i)
      else
        let ymm1 := map (fun j => divss (ld m (at4 a j)) norm) (seq i 8) in
        normalize_chunks fuel' (store_lanes m out i ymm1) a out norm (i + 8) n
  end.

Definition vector_normalize_f32_avx2 (m : mem) (input output dimensions : Z) : Z * mem :=
  if (input =? 0) || (output =? 0) || (dimensions =? 0) then (VECTOR_INVALID, m) else
  let n := Z.to_nat dimensions in
  if existsb (fun i => nonfinite (ld m (at4 input i))) (seq 0 n) then (VECTOR_NONFINITE, m) else
  match norm_ready (accumulate8 (S n) (square_lane m input) 0 n 0) with
  | inl status => (status, m)
  | inr norm => (VECTOR_OK, normalize_chunks (S n) m input output norm 0 n)
  end.

(** ** Dispatch *)

(** What the resolvers look at. *)
Record machine := mk_machine { sql_kernel_force_scalar : Z; cpu_has_avx2 : bool }.

Definition resolve {A} (h : machine) (avx2 scalar : A) : A :=
  if negb (sql_kernel_force_scalar h =? 0) then scalar else if cpu_has_avx2 h then avx2 else scalar.

Definition vector_dot_f32_resolve (h : machine) := resolve h vector_dot_f32_avx2 vector_dot_f32_scalar.
Definition vector_l2sq_f32_resolve (h : machine) := resolve h vector_l2sq_f32_avx2 vector_l2sq_f32_scalar.
Definition vector_normalize_f32_resolve (h : machine) :=
  resolve h vector_normalize_f32_avx2 vector_normalize_f32_scalar.
Definition vector_cosine_normalized_f32_resolve := vector_dot_f32_resolve.

Definition cyboudb_vector_dot_f32 (h : machine) (m : mem) (left right dimensions : Z) : Z :=
  vector_dot_f32_resolve h m left right dimensions.
Definition cyboudb_vector_l2sq_f32 (h : machine) (m : mem) (left right dimensions : Z) : Z :=
  vector_l2sq_f32_resolve h m left right dimensions.
Definition cyboudb_vector_normalize_f32 (h : machine) (m : mem) (input output dimensions : Z) : Z * mem :=
  vector_normalize_f32_resolve h m input output dimensions.

#[global] Arguments nonfinite : simpl never.
#[global] Arguments ld : simpl never.
#[global] Arguments at4 : simpl never.
#[global] Arguments u64 : simpl never.
#[global] Arguments addss : simpl never.
#[global] Arguments subss : simpl never.
#[global] Arguments mulss : simpl never.
#[global] Arguments divss : simpl never.
#[global] Arguments sqrtss : simpl never.
#[global] Arguments ucomiss_p : simpl never.
#[global] Arguments ucomiss_a : simpl never.
#[global] Arguments ucomiss_b : simpl never.

(** ** Arithmetic of the checks *)

Lemma carry_false x y : x + y < 2 ^ 64 -> carry x y = false.
Proof. unfold carry. lia. Qed.

Lemma high_false x y : 0 <= x * y < 2 ^ 64 -> high x y = false.
Proof. intros H. unfold high. by rewrite Z.div_small. Qed.

Lemma shiftl_2 d : d .<< 2 = 4 * d.
Proof. rewrite Z.shiftl_mul_pow2 by lia. lia. Qed.

(** ** The order of the finite floats *)

Definition finite (x : Z) : Prop := nonfinite x = false.

(** Sign, exponent and significand, in the order a comparison reads them. *)
Definition float_key (f : spec_float) : Z * Z * Z :=
  match f with
  | S754_zero _ | S754_infinity _ | S754_nan => (0, 0, 0)
  | S754_finite false m e => (1, e, Z.pos m)
  | S754_finite true m e => (-1, - e, - Z.pos m)
  end.

Definition key (x : Z) : Z * Z * Z := float_key (decode x).

Definition key_lt (a b : Z * Z * Z) : Prop :=
  let '(s1, e1, m1) := a in let '(s2, e2, m2) := b in
  s1 < s2 \/ s1 = s2 /\ (e1 < e2 \/ e1 = e2 /\ m1 < m2).

Lemma key_lt_total a b : key_lt a b \/ a = b \/ key_lt b a.
Proof.
  destruct a as [[s1 e1] m1], b as [[s2 e2] m2]. unfold key_lt.
  destruct (Z.lt_trichotomy s1 s2) as [?|[->|?]]; [tauto| |tauto].
  destruct (Z.lt_trichotomy e1 e2) as [?|[->|?]]; [tauto| |tauto].
  destruct (Z.lt_trichotomy m1 m2) as [?|[->|?]]; tauto.
Qed.

Lemma key_lt_irrefl a : ~ key_lt a a.
Proof. destruct a as [[s e] m]. unfold key_lt. lia. Qed.

Lemma key_lt_trans a b c : key_lt a b -> key_lt b c -> key_lt a c.
Proof. destruct a as [[s1 e1] m1], b as [[s2 e2] m2], c as [[s3 e3] m3]. unfold key_lt. lia. Qed.

Definition is_finite (f : spec_float) : bool :=
  match f with S754_zero _ | S754_finite _ _ _ => true | _ => false end.

Lemma exponent_mask x : (x .& 0x7f800000 =? 0x7f800000) = ((x .>> 23) .& 0xff =? 0xff).
Proof.
  pose proof (land_split x 0 0xff 23) as H. rewrite Z.land_0_r in H. rewrite Z.shiftr_div_pow2 by lia.
  replace 0x7f800000 with (0 + 0xff * 2 ^ 23) by reflexivity. rewrite H by lia.
  destruct (Z.eqb_spec (Z.land (x / 2 ^ 23) 0xff) 0xff) as [->|]; [done|]. apply Z.eqb_neq. lia.
Qed.

Lemma nonfinite_spec x : nonfinite x = negb (is_finite (decode x)).
Proof.
  unfold nonfinite. rewrite exponent_mask. unfold ucomiss_p, decode.
  destruct (_ =? 0xff); [by destruct (_ =? 0)|].
  destruct (_ =? 0); [destruct (_ =? 0)|]; simpl; try done;
    destruct (Z.testbit x 31); by rewrite ?Z.compare_refl, ?Pos.compare_cont_refl.
Qed.

Lemma finite_decode x : finite x -> is_finite (decode x) = true.
Proof. unfold finite. rewrite nonfinite_spec. by destruct (is_finite _). Qed.

Lemma compare_key f g : is_finite f = true -> is_finite g = true ->
  match SFcompare f g with
  | Some Lt => key_lt (float_key f) (float_key g)
  | Some Eq => float_key f = float_key g
  | Some Gt => key_lt (float_key g) (float_key f)
  | None => False
  end.
Proof.
  destruct f as [s1| | |s1 m1 e1], g as [s2| | |s2 m2 e2]; try discriminate; intros _ _; simpl; try done.
  - destruct s2; simpl; lia.
  - destruct s1; simpl; lia.
  - change (Pos.compare_cont Eq m1 m2) with (Pos.compare m1 m2).
    destruct s1, s2; simpl; try lia; destruct (Z.compare_spec e1 e2) as [->|?|?];
      try (destruct (Pos.compare_spec m1 m2) as [->|?|?]); simpl; try done; lia.
Qed.

Lemma compare_gt f g : is_finite f = true -> is_finite g = true ->
  SFcompare f g = Some Gt <-> key_lt (float_key g) (float_key f).
Proof.
  intros Hf Hg. pose proof (compare_key f g Hf Hg) as H. destruct (SFcompare f g) as [[]|];
    split; intros H'; try congruence; try tauto; exfalso.
  - rewrite H in H'. by apply key_lt_irrefl in H'.
  - apply (key_lt_irrefl (float_key f)). by eapply key_lt_trans.
Qed.

Lemma compare_lt f g : is_finite f = true -> is_finite g = true ->
  SFcompare f g = Some Lt <-> key_lt (float_key f) (float_key g).
Proof.
  intros Hf Hg. pose proof (compare_key f g Hf Hg) as H. destruct (SFcompare f g) as [[]|];
    split; intros H'; try congruence; try tauto; exfalso.
  - rewrite H in H'. by apply key_lt_irrefl in H'.
  - apply (key_lt_irrefl (float_key f)). by eapply key_lt_trans.
Qed.

Lemma ucomiss_a_key x y : finite x -> finite y -> ucomiss_a x y = true <-> key_lt (key y) (key x).
Proof.
  intros Hx%finite_decode Hy%finite_decode. unfold key. rewrite <- compare_gt by assumption. unfold ucomiss_a.
  destruct (SFcompare _ _) as [[]|]; intuition congruence.
Qed.

Lemma ucomiss_b_key x y : finite x -> finite y -> ucomiss_b x y = true <-> key_lt (key x) (key y).
Proof.
  intros Hx%finite_decode Hy%finite_decode. unfold key. rewrite <- compare_lt by assumption. unfold ucomiss_b.
  pose proof (compare_key _ _ Hx Hy). destruct (SFcompare _ _) as [[]|]; intuition congruence.
Qed.

(** ** The sums *)

Lemma accumulate_app lane i n k x : accumulate lane i (n + k) x = accumulate lane (i + n) k (accumulate lane i n x).
Proof.
  revert i x. induction n as [|n IH]; intros i x; simpl; [by rewrite Nat.add_0_r|].
  rewrite IH. by rewrite Nat.add_succ_r.
Qed.

Lemma accumulate_fold lane i n x : accumulate lane i n x = fold_left addss (map lane (seq i n)) x.
Proof. revert i x. induction n as [|n IH]; intros i x; simpl; [done|]. apply IH. Qed.

(** Adding the spilled lanes in their order is the scalar loop. *)
Lemma accumulate8_scalar fuel lane i n x : (n - i < fuel)%nat ->
  accumulate8 fuel lane i n x = accumulate lane i (n - i) x.
Proof.
  revert i x. induction fuel as [|fuel IH]; intros i x Hf; [lia|]. cbn [accumulate8].
  destruct (Nat.ltb_spec (n - i) 8); [done|]. rewrite IH by lia. cbv zeta. rewrite <- accumulate_fold.
  replace (n - i)%nat with (8 + (n - (i + 8)))%nat by lia. by rewrite accumulate_app.
Qed.

Lemma norm_sum_spec m a i n x : norm_sum m a i n x =
  if existsb (fun i => nonfinite (ld m (at4 a i))) (seq i n) then None else Some (accumulate (square_lane m a) i n x).
Proof.
  revert i x. induction n as [|n IH]; intros i x; [done|]. cbn [norm_sum seq existsb accumulate].
  destruct (nonfinite _); [done|]. apply IH.
Qed.

(** ** Stores *)

Definition disjoint4 (p : Z) (n : nat) (q : Z) (k : nat) : Prop :=
  p + 4 * Z.of_nat n <= q \/ q + 4 * Z.of_nat k <= p.

(** An array that does not wrap around the address space. *)
Definition array4 (p : Z) (n : nat) : Prop := 0 <= p /\ p + 4 * Z.of_nat n < 2 ^ 64.

Lemma at4_small p n i : array4 p n -> (i < n)%nat -> u64 (at4 p i) = at4 p i.
Proof. unfold array4, at4. intros ? ?. apply u64_small. lia. Qed.

Lemma ld_st m p q v : ld (st m p v) q = if u64 q =? u64 p then v else ld m q.
Proof. done. Qed.

Lemma u64s_lane_loop f m a out i n : u64s (lane_loop f m a out i n) = u64s m.
Proof. revert m i. induction n as [|n IH]; intros m i; simpl; [done|]. by rewrite IH. Qed.

(** The loop where the output is not ahead of the input within its range: each
    lane is the quotient of the lane there was, and nothing else moves. *)
Definition no_feedback (a out : Z) (n : nat) : Prop := out <= a \/ a + 4 * Z.of_nat n <= out.

Lemma lane_loop_frame f m a out i n q : array4 out (i + n) ->
  (forall j, (i <= j < i + n)%nat -> q <> at4 out j) -> f32s (lane_loop f m a out i n) q = f32s m q.
Proof.
  revert m i. induction n as [|n IH]; intros m i Ho Hq; simpl; [done|]. rewrite IH.
  - simpl. destruct (Z.eqb_spec q (u64 (at4 out i))) as [E|]; [|done].
    rewrite (at4_small out (i + S n)) in E by (done || lia). by destruct (Hq i); [lia|].
  - by rewrite Nat.add_succ_comm.
  - intros j Hj. apply Hq. lia.
Qed.

Lemma lane_loop_lane f m a out n0 i n j : array4 a (i + n) -> array4 out (i + n) -> no_feedback a out n0 ->
  (i + n <= n0)%nat -> (i <= j < i + n)%nat ->
  ld (lane_loop f m a out i n) (at4 out j) = f (ld m (at4 a j)).
Proof.
  revert m i. induction n as [|n IH]; intros m i Ha Ho Hnf Hn Hj; [lia|]. cbn [lane_loop].
  destruct (decide (j = i)) as [->|].
  - unfold ld at 1. rewrite lane_loop_frame.
    + simpl. by rewrite Z.eqb_refl.
    + by rewrite Nat.add_succ_comm.
    + intros k Hk E. rewrite (at4_small out (i + S n)) in E by (done || lia). unfold at4 in E. lia.
  - rewrite IH; try lia; try done; try (by rewrite Nat.add_succ_comm). f_equal. rewrite ld_st.
    rewrite (at4_small a (i + S n)), (at4_small out (i + S n)) by (done || lia).
    destruct (Z.eqb_spec (at4 a j) (at4 out i)) as [E|]; [|done]. exfalso. unfold at4, no_feedback in *. lia.
Qed.

Lemma lane_loop_spec f m a out n : array4 a n -> array4 out n -> no_feedback a out n ->
  let m' := lane_loop f m a out 0 n in
  floats m' out n = map f (floats m a n) /\ u64s m' = u64s m /\
  forall q, (forall j, (j < n)%nat -> q <> at4 out j) -> f32s m' q = f32s m q.
Proof.
  intros Ha Ho Hf. cbv zeta. split; [|split].
  - unfold floats. rewrite List.map_map. apply map_ext_in. intros j Hj%in_seq.
    by rewrite (lane_loop_lane _ _ _ _ n) by (done || lia).
  - apply u64s_lane_loop.
  - intros q Hq. apply lane_loop_frame; [done|]. intros j Hj. apply Hq. lia.
Qed.

(** A whole array stored. *)
Lemma store_lanes_frame m p i vs q : array4 p (i + length vs) ->
  (forall j, (i <= j < i + length vs)%nat -> q <> at4 p j) -> f32s (store_lanes m p i vs) q = f32s m q.
Proof.
  revert m i. induction vs as [|v vs IH]; intros m i Hp Hq; [done|]. cbn [store_lanes length] in *. rewrite IH.
  - cbn [st f32s]. rewrite (at4_small p (i + S (length vs))) by (done || lia).
    destruct (Z.eqb_spec q (at4 p i)); [|done]. by destruct (Hq i); [lia|].
  - by rewrite Nat.add_succ_comm.
  - intros j Hj. apply Hq. lia.
Qed.

Lemma store_lanes_floats m p i vs : array4 p (i + length vs) ->
  map (fun j => ld (store_lanes m p i vs) (at4 p j)) (seq i (length vs)) = vs.
Proof.
  revert m i. induction vs as [|v vs IH]; intros m i Hp; [done|]. cbn [store_lanes length seq map] in *. f_equal.
  - unfold ld. rewrite (at4_small p (i + S (length vs))) by (done || lia). rewrite store_lanes_frame.
    + cbn [st f32s]. rewrite (at4_small p (i + S (length vs))) by (done || lia). by rewrite Z.eqb_refl.
    + by rewrite Nat.add_succ_comm.
    + intros j Hj. unfold at4. lia.
  - apply IH. by rewrite Nat.add_succ_comm.
Qed.

Lemma u64s_store_lanes m p i vs : u64s (store_lanes m p i vs) = u64s m.
Proof. revert m i. induction vs as [|v vs IH]; intros m i; [done|]. cbn [store_lanes]. by rewrite IH. Qed.

(** A part of an array read as an array of its own. *)
Lemma floats_part m p n i k : (i + k <= n)%nat -> floats m (at4 p i) k = take k (drop i (floats m p n)).
Proof.
  intros H. unfold floats. rewrite skipn_map, firstn_map.
  replace (take k (drop i (seq 0 n))) with (seq i k).
  - pose proof (fmap_add_seq i 0 k) as E. rewrite Nat.add_0_r in E. rewrite <- E. change (Nat.add i <$> seq 0 k) with
      (map (Nat.add i) (seq 0 k)). rewrite List.map_map. apply map_ext. intros j. f_equal. unfold at4. lia.
  - replace n with (i + (k + (n - i - k)))%nat by lia. rewrite !seq_app, drop_app_length' by (by rewrite length_seq).
    by rewrite take_app_length' by (by rewrite length_seq).
Qed.

(** Eight lanes read together and then written are the scalar loop, as long as no
    store of the chunk lands on a lane the chunk has yet to read. *)
Lemma store_lanes_loop f m a out i n :
  (forall j k, (i <= j < k)%nat -> (k < i + n)%nat -> u64 (at4 out j) <> u64 (at4 a k)) ->
  store_lanes m out i (map (fun j => f (ld m (at4 a j))) (seq i n)) = lane_loop f m a out i n.
Proof.
  revert m i. induction n as [|n IH]; intros m i Hd; [done|]. cbn [seq map store_lanes lane_loop].
  rewrite <- IH by (intros j k ? ?; apply Hd; lia). f_equal. apply map_ext_in. intros j Hj%in_seq. f_equal.
  rewrite ld_st. destruct (Z.eqb_spec (u64 (at4 a j)) (u64 (at4 out i))) as [E|]; [|done].
  exfalso. apply (Hd i j); [lia..|done].
Qed.

Lemma lane_loop_app f m a out i n k :
  lane_loop f m a out i (n + k) = lane_loop f (lane_loop f m a out i n) a out (i + n) k.
Proof.
  revert m i. induction n as [|n IH]; intros m i; cbn [lane_loop Nat.add]; [by rewrite Nat.add_0_r|].
  rewrite IH. by rewrite Nat.add_succ_r.
Qed.

(** An output that starts inside the next seven lanes of the input is the one
    placement the chunks do not follow the scalar loop on. *)
Definition chunk_safe (a out : Z) (n : nat) : Prop := out <= a \/ a + 32 <= out \/ (n < 8)%nat.

Lemma no_feedback_chunk_safe a out n : no_feedback a out n -> chunk_safe a out n.
Proof. unfold no_feedback, chunk_safe. lia. Qed.

Lemma normalize_chunks_scalar fuel m a out norm i n : array4 a n -> array4 out n -> chunk_safe a out n ->
  (n - i < fuel)%nat -> normalize_chunks fuel m a out norm i n = normalize_loop m a out norm i (n - i).
Proof.
  intros Ha Ho Hs. revert m i. induction fuel as [|fuel IH]; intros m i Hf; [lia|]. cbn [normalize_chunks].
  destruct (Nat.ltb_spec (n - i) 8); [done|]. cbv zeta. rewrite IH by lia.
  rewrite (store_lanes_loop (fun x => divss x norm)).
  - replace (n - i)%nat with (8 + (n - (i + 8)))%nat by lia. unfold normalize_loop. by rewrite lane_loop_app.
  - intros j k ? ?. rewrite (at4_small out n), (at4_small a n) by (done || lia). unfold at4, chunk_safe in *. lia.
Qed.

(** ** What the interface promises of the kernels *)

Definition dot_f32 (left right : list Z) : Z := fold_left addss (zip_with mulss left right) 0.

Definition l2sq_f32 (left right : list Z) : Z :=
  fold_left addss (zip_with (fun x y => mulss (subss x y) (subss x y)) left right) 0.

(** The status, or the normalized lanes. *)
Definition normalize_f32 (v : list Z) : Z + list Z :=
  if existsb nonfinite v then inl VECTOR_NONFINITE else
  match norm_ready (fold_left addss (map (fun x => mulss x x) v) 0) with
  | inl status => inl status
  | inr norm => inr (map (fun x => divss x norm) v)
  end.

Lemma normalize_f32_status v status : normalize_f32 v = inl status -> status = VECTOR_INVALID \/ status = VECTOR_NONFINITE.
Proof.
  unfold normalize_f32. destruct (existsb nonfinite v); [intros [= <-]; by right|]. unfold norm_ready.
  destruct (ucomiss_p _ _); [intros [= <-]; by right|]. destruct (_ =? 0); [intros [= <-]; by left|].
  destruct (_ <=? _); [intros [= <-]; by right|discriminate].
Qed.

Lemma zip_with_map {A B C D} (f : A -> B -> C) (g : D -> A) (h : D -> B) (l : list D) :
  zip_with f (map g l) (map h l) = map (fun x => f (g x) (h x)) l.
Proof. induction l as [|x l IH]; simpl; [done|]. by rewrite IH. Qed.

Lemma scalar_dot_spec m a b n : vector_dot_f32_scalar m a b n = dot_f32 (floats m a (Z.to_nat n)) (floats m b (Z.to_nat n)).
Proof. unfold vector_dot_f32_scalar, dot_f32, floats. by rewrite accumulate_fold, zip_with_map. Qed.

Lemma scalar_l2sq_spec m a b n : vector_l2sq_f32_scalar m a b n = l2sq_f32 (floats m a (Z.to_nat n)) (floats m b (Z.to_nat n)).
Proof. unfold vector_l2sq_f32_scalar, l2sq_f32, floats. by rewrite accumulate_fold, zip_with_map. Qed.

Lemma dot_resolve_spec h m a b n :
  vector_dot_f32_resolve h m a b n = dot_f32 (floats m a (Z.to_nat n)) (floats m b (Z.to_nat n)).
Proof.
  rewrite <- scalar_dot_spec. unfold vector_dot_f32_resolve, resolve. destruct (negb _), (cpu_has_avx2 h); try done.
  unfold vector_dot_f32_avx2. rewrite accumulate8_scalar by lia. by rewrite Nat.sub_0_r.
Qed.

Lemma l2sq_resolve_spec h m a b n :
  vector_l2sq_f32_resolve h m a b n = l2sq_f32 (floats m a (Z.to_nat n)) (floats m b (Z.to_nat n)).
Proof.
  rewrite <- scalar_l2sq_spec. unfold vector_l2sq_f32_resolve, resolve. destruct (negb _), (cpu_has_avx2 h); try done.
  unfold vector_l2sq_f32_avx2. rewrite accumulate8_scalar by lia. by rewrite Nat.sub_0_r.
Qed.

Lemma existsb_map {A B} (f : A -> B) p l : existsb p (map f l) = existsb (fun x => p (f x)) l.
Proof. induction l as [|x l IH]; simpl; [done|]. by rewrite IH. Qed.

Lemma normalize_resolve_scalar h m a out n : array4 a (Z.to_nat n) -> array4 out (Z.to_nat n) ->
  chunk_safe a out (Z.to_nat n) ->
  vector_normalize_f32_resolve h m a out n = vector_normalize_f32_scalar m a out n.
Proof.
  intros Ha Ho Hs. unfold vector_normalize_f32_resolve, resolve. destruct (negb _), (cpu_has_avx2 h); try done.
  unfold vector_normalize_f32_avx2, vector_normalize_f32_scalar. destruct (_ || _); [done|]. cbv zeta.
  rewrite norm_sum_spec. destruct (existsb _ _); [done|].
  rewrite accumulate8_scalar by lia. rewrite Nat.sub_0_r. destruct (norm_ready _) as [|norm]; [done|].
  rewrite normalize_chunks_scalar by (done || lia). by rewrite Nat.sub_0_r.
Qed.

Lemma normalize_scalar_spec m a out n : a <> 0 -> out <> 0 -> 0 < n ->
  array4 a (Z.to_nat n) -> array4 out (Z.to_nat n) -> no_feedback a out (Z.to_nat n) ->
  match normalize_f32 (floats m a (Z.to_nat n)) with
  | inl status => vector_normalize_f32_scalar m a out n = (status, m)
  | inr v => exists m', vector_normalize_f32_scalar m a out n = (VECTOR_OK, m') /\
      floats m' out (Z.to_nat n) = v /\ u64s m' = u64s m /\
      forall q, (forall j, (j < Z.to_nat n)%nat -> q <> at4 out j) -> f32s m' q = f32s m q
  end.
Proof.
  intros Ha0 Ho0 Hn Ha Ho Hf. unfold vector_normalize_f32_scalar, normalize_f32.
  destruct (Z.eqb_spec a 0); [lia|]. destruct (Z.eqb_spec out 0); [lia|]. destruct (Z.eqb_spec n 0); [lia|].
  cbn [orb]. rewrite norm_sum_spec. unfold floats at 1. rewrite existsb_map.
  destruct (existsb _ _); [done|]. unfold floats at 1. rewrite List.map_map, accumulate_fold. unfold square_lane.
  destruct (norm_ready _) as [|norm]; [done|]. eexists. split; [done|].
  by apply lane_loop_spec.
Qed.

(** ** The encoding *)

Lemma decode_fields s e m : 0 <= e < 256 -> 0 <= m < 2 ^ 23 ->
  decode (sign_bit s + e * 2 ^ 23 + m) =
    if e =? 0xff then if m =? 0 then S754_infinity s else S754_nan
    else if e =? 0 then if m =? 0 then S754_zero s else S754_finite s (Z.to_pos m) (-149)
    else S754_finite s (Z.to_pos (m + 2 ^ 23)) (e - 150).
Proof.
  intros He Hm. set (b := sign_bit s + e * 2 ^ 23 + m). unfold decode.
  assert (Hs : Z.testbit b 31 = s).
  { rewrite Z.testbit_odd, Z.shiftr_div_pow2 by lia.
    assert (b / 2 ^ 31 = Z.b2z s) as -> by (subst b; destruct s; simpl; lia). by destruct s. }
  assert (HE : (b .>> 23) .& 0xff = e).
  { rewrite Z.shiftr_div_pow2 by lia. pose proof (land_mask (b / 2 ^ 23) 8) as H. change (2 ^ 8 - 1) with 0xff in H.
    rewrite H by lia. subst b. destruct s; simpl; lia. }
  assert (HM : b .& 0x7fffff = m).
  { pose proof (land_mask b 23) as H. change (2 ^ 23 - 1) with 0x7fffff in H. rewrite H by lia.
    subst b. destruct s; simpl; lia. }
  by rewrite Hs, HE, HM.
Qed.

Lemma digits2_bounds m : 2 ^ (Z.pos (digits2_pos m) - 1) <= Z.pos m < 2 ^ Z.pos (digits2_pos m).
Proof.
  induction m as [m IH|m IH|]; cbn [digits2_pos]; [| |simpl; lia];
    rewrite Pos2Z.inj_succ; replace (Z.succ (Z.pos (digits2_pos m)) - 1) with (Z.succ (Z.pos (digits2_pos m) - 1)) by lia;
    rewrite !Z.pow_succ_r by lia; lia.
Qed.

(** The canonical significands: 24 digits, or fewer at the least exponent. *)
Lemma bounded_spec m e : bounded 24 128 m e = true ->
  Z.pos m < 2 ^ 24 /\ -149 <= e <= 104 /\ (Z.pos m < 2 ^ 23 -> e = -149).
Proof.
  unfold bounded, canonical_mantissa, fexp, emin. intros [H1%Z.eqb_eq H2%Z.leb_le]%andb_true_iff.
  pose proof (digits2_bounds m) as Hd. set (d := Z.pos (digits2_pos m)) in *.
  assert (Hd24 : d <= 24) by lia. split; [|split; [lia|]].
  - pose proof (Z.pow_le_mono_r 2 d 24). lia.
  - intros Hm. destruct (Z.le_gt_cases d 23); [lia|]. exfalso. pose proof (Z.pow_le_mono_r 2 23 (d - 1)). lia.
Qed.

(** Every binary32 value has its bits. *)
Lemma decode_encode f : valid_binary 24 128 f = true -> decode (encode f) = f.
Proof.
  destruct f as [s|s| |s m e]; simpl valid_binary; intros Hv; [by destruct s..|done|].
  apply bounded_spec in Hv as (H1 & H2 & H3). unfold encode. destruct (Z.ltb_spec (Z.pos m) (2 ^ 23)).
  - pose proof (decode_fields s 0 (Z.pos m) ltac:(lia) ltac:(lia)) as E. rewrite Z.mul_0_l, Z.add_0_r in E. rewrite E.
    rewrite H3 by done. done.
  - rewrite decode_fields by lia. destruct (Z.eqb_spec (e + 150) 255); [lia|]. destruct (Z.eqb_spec (e + 150) 0); [lia|].
    f_equal; [|lia]. rewrite Z.sub_add. done.
Qed.

(** ** Properties *)

(** C30: the kernels the machine selects compute what the interface promises,
    whether they are the AVX2 or the scalar ones.  The dot product and the squared
    distance are the sums of the rounded lane products in lane order, bit for bit,
    and 0.0 at dimension zero.  Normalization refuses a lane or a norm that is not
    finite and a norm of zero without touching memory, and otherwise divides every
    lane by the norm and changes nothing outside the output; the input may be the
    output, or lie above it, or be clear of it. *)
Theorem vector_kernels_agree h m a b out n : 0 <= n ->
  cyboudb_vector_dot_f32 h m a b n = dot_f32 (floats m a (Z.to_nat n)) (floats m b (Z.to_nat n)) /\
  cyboudb_vector_l2sq_f32 h m a b n = l2sq_f32 (floats m a (Z.to_nat n)) (floats m b (Z.to_nat n)) /\
  (a = 0 \/ out = 0 \/ n = 0 -> cyboudb_vector_normalize_f32 h m a out n = (VECTOR_INVALID, m)) /\
  (a <> 0 -> out <> 0 -> n <> 0 -> array4 a (Z.to_nat n) -> array4 out (Z.to_nat n) ->
   no_feedback a out (Z.to_nat n) ->
   match normalize_f32 (floats m a (Z.to_nat n)) with
   | inl status => cyboudb_vector_normalize_f32 h m a out n = (status, m)
   | inr v => exists m', cyboudb_vector_normalize_f32 h m a out n = (VECTOR_OK, m') /\
       floats m' out (Z.to_nat n) = v /\ u64s m' = u64s m /\
       forall q, (forall j, (j < Z.to_nat n)%nat -> q <> at4 out j) -> f32s m' q = f32s m q
   end).
Proof.
  intros Hn. split; [apply dot_resolve_spec|]. split; [apply l2sq_resolve_spec|]. split.
  - intros H. unfold cyboudb_vector_normalize_f32, vector_normalize_f32_resolve, resolve.
    assert (E : (a =? 0) || (out =? 0) || (n =? 0) = true) by lia.
    destruct (negb _), (cpu_has_avx2 h); unfold vector_normalize_f32_avx2, vector_normalize_f32_scalar; by rewrite E.
  - intros. unfold cyboudb_vector_normalize_f32.
    rewrite normalize_resolve_scalar by (try done; by apply no_feedback_chunk_safe).
    apply normalize_scalar_spec; (done || lia).
Qed.

(** A memory with the nine floats 1.0, 2.0, ..., 9.0 at address 4096. *)
Definition nine : mem :=
  mk_mem (fun p => nth (Z.to_nat ((p - 4096) / 4))
            (map (fun k => encode (binary_normalize 24 128 k 0 false)) [1; 2; 3; 4; 5; 6; 7; 8; 9]) 0) (fun _ => 0).

Lemma nine_normalized : normalize_f32 (floats nine 4096 (Z.to_nat 9)) =
  inr [1030922312; 1039310920; 1043724342; 1047699528; 1050125357; 1052112950; 1054100543; 1056088136; 1057520169].
Proof. vm_compute. reflexivity. Qed.

(** In place, on a machine with AVX2. *)
Lemma vector_kernels_agree_witness :
  exists m', cyboudb_vector_normalize_f32 (mk_machine 0 true) nine 4096 4096 9 = (VECTOR_OK, m') /\
    floats m' 4096 (Z.to_nat 9) =
      [1030922312; 1039310920; 1043724342; 1047699528; 1050125357; 1052112950; 1054100543; 1056088136; 1057520169].
Proof.
  destruct (vector_kernels_agree (mk_machine 0 true) nine 4096 4096 4096 9 ltac:(lia)) as (_ & _ & _ & H).
  rewrite nine_normalized in H.
  destruct H as (m' & H1 & H2 & _); [discriminate..|split; reflexivity || discriminate|split; reflexivity || discriminate|left; discriminate|].
  exists m'. split; [exact H1|exact H2].
Defined.

(** An output that starts one lane into the input: the scalar loop divides lanes
    it has already written, the chunk does not, and the result depends on the
    machine. *)
Example overlap_depends_on_machine :
  floats (snd (cyboudb_vector_normalize_f32 (mk_machine 0 true) nine 4096 4100 8)) 4100 3 =
    [1032807297; 1041195905; 1045894465] /\
  floats (snd (cyboudb_vector_normalize_f32 (mk_machine 0 false) nine 4096 4100 8)) 4100 3 =
    [1032807297; 1000382625; 968093777].
Proof. vm_compute. split; reflexivity. Qed.

(** A vector whose squares all round to zero is refused as a zero vector. *)
Example tiny_vector_refused : normalize_f32 [encode (S754_finite false (2 ^ 23) (-103))] = inl VECTOR_INVALID.
Proof. vm_compute. reflexivity. Qed.
