(* ===== verification/Tokenizer.v ===== *)
(** * Tokenizer: the SQL lexer

    [src/sql/tokenizer.asm]: [sql_tok_init], [sql_tok_next] and [sql_tok_peek]
    over the bytes of a statement, with the keyword table.  The text is a list of
    characters; the lexer works on what is left of it, so that every loop of the
    source is a structural recursion, and the offsets are counted beside it.
    Line and column are 32-bit counters. *)

From Stdlib Require Export String Ascii.
From S2P Require Import Prelude.

(** ** Tokens *)

Inductive tok_type :=
  | TOK_EOF | TOK_ERROR | TOK_IDENT | TOK_INT_LIT | TOK_FLOAT_LIT | TOK_STRING_LIT
  | TOK_BLOB_LIT | TOK_CREATE | TOK_TABLE | TOK_INSERT | TOK_INTO | TOK_VALUES | TOK_SELECT
  | TOK_FROM | TOK_WHERE | TOK_NULL | TOK_TRUE | TOK_FALSE | TOK_IS | TOK_NOT | TOK_AND
  | TOK_OR | TOK_COUNT | TOK_UPDATE | TOK_SET | TOK_DELETE | TOK_JOIN | TOK_INNER
  | TOK_LEFT | TOK_ON | TOK_AS | TOK_ORDER | TOK_BY | TOK_LIMIT | TOK_OFFSET_KW
  | TOK_VECTOR | TOK_ASC | TOK_DESC | TOK_DROP | TOK_LBRACKET | TOK_RBRACKET
  | TOK_L2_DISTANCE | TOK_COSINE_DISTANCE | TOK_L2_OP | TOK_COSINE_OP | TOK_BEGIN
  | TOK_TRANSACTION | TOK_COMMIT | TOK_ROLLBACK | TOK_INDEX | TOK_UNIQUE | TOK_QUEUE
  | TOK_ENQUEUE | TOK_DEQUEUE | TOK_STREAM | TOK_APPEND | TOK_TO | TOK_CURSOR | TOK_READ
  | TOK_TRIM | TOK_BEFORE | TOK_PARAM | TOK_CLAIM | TOK_ACK | TOK_NACK | TOK_RENEW
  | TOK_FOR | TOK_AT | TOK_TOKEN | TOK_TYPE_INT32 | TOK_TYPE_INT64 | TOK_TYPE_FLOAT32
  | TOK_TYPE_BOOL | TOK_TYPE_TEXT | TOK_TYPE_BLOB | TOK_TYPE_VECTOR | TOK_COMMA
  | TOK_SEMICOLON | TOK_LPAREN | TOK_RPAREN | TOK_STAR | TOK_EQ | TOK_NEQ | TOK_LT
  | TOK_LTE | TOK_GT | TOK_GTE | TOK_PLUS | TOK_MINUS | TOK_DOT.

#[global] Instance tok_type_eq_dec : EqDecision tok_type.
Proof. solve_decision. Defined.

(** The keywords, in the order they are tried. *)
Definition kw_table_entries : list (string * tok_type) :=
  [("create", TOK_CREATE); ("table", TOK_TABLE); ("insert", TOK_INSERT);
   ("into", TOK_INTO); ("values", TOK_VALUES); ("select", TOK_SELECT); ("from", TOK_FROM);
   ("where", TOK_WHERE); ("null", TOK_NULL); ("true", TOK_TRUE); ("false", TOK_FALSE);
   ("is", TOK_IS); ("not", TOK_NOT); ("and", TOK_AND); ("or", TOK_OR);
   ("count", TOK_COUNT); ("int32", TOK_TYPE_INT32); ("int64", TOK_TYPE_INT64);
   ("float32", TOK_TYPE_FLOAT32); ("bool", TOK_TYPE_BOOL); ("text", TOK_TYPE_TEXT);
   ("blob", TOK_TYPE_BLOB); ("integer", TOK_TYPE_INT32); ("bigint", TOK_TYPE_INT64);
   ("real", TOK_TYPE_FLOAT32); ("boolean", TOK_TYPE_BOOL); ("update", TOK_UPDATE);
   ("set", TOK_SET); ("delete", TOK_DELETE); ("join", TOK_JOIN); ("inner", TOK_INNER);
   ("left", TOK_LEFT); ("on", TOK_ON); ("as", TOK_AS); ("order", TOK_ORDER);
   ("by", TOK_BY); ("limit", TOK_LIMIT); ("offset", TOK_OFFSET_KW); ("vector", TOK_VECTOR);
   ("asc", TOK_ASC); ("desc", TOK_DESC); ("drop", TOK_DROP);
   ("l2_distance", TOK_L2_DISTANCE); ("cosine_distance", TOK_COSINE_DISTANCE);
   ("begin", TOK_BEGIN); ("transaction", TOK_TRANSACTION); ("work", TOK_TRANSACTION);
   ("commit", TOK_COMMIT); ("rollback", TOK_ROLLBACK); ("index", TOK_INDEX);
   ("unique", TOK_UNIQUE); ("queue", TOK_QUEUE); ("enqueue", TOK_ENQUEUE);
   ("dequeue", TOK_DEQUEUE); ("stream", TOK_STREAM); ("append", TOK_APPEND);
   ("to", TOK_TO); ("cursor", TOK_CURSOR); ("read", TOK_READ); ("trim", TOK_TRIM);
   ("before", TOK_BEFORE); ("claim", TOK_CLAIM); ("ack", TOK_ACK); ("nack", TOK_NACK);
   ("renew", TOK_RENEW); ("for", TOK_FOR); ("at", TOK_AT); ("token", TOK_TOKEN)]%string.

Record token := mk_token {
  tok : tok_type;
  tok_offset : nat;
  tok_len : nat;
  tok_line : Z;
  tok_col : Z;
}.

(** [TOKZ_PEEKED] and [TOKZ_PEEK_TOK] are [tokz_peek]. *)
Record tokenizer := mk_tokenizer {
  tokz_src : list ascii;
  tokz_pos : nat;
  tokz_line : Z;
  tokz_col : Z;
  tokz_peek : option token;
}.

Definition sql_tok_init (src : list ascii) : tokenizer := mk_tokenizer src 0 1 1 None.

(** ** Characters *)

Definition code (c : ascii) : Z := Z.of_nat (nat_of_ascii c).

Definition between (lo hi : ascii) (c : ascii) : bool := (code lo <=? code c) && (code c <=? code hi).
Definition digit (c : ascii) : bool := between "0" "9" c.
Definition letter (c : ascii) : bool := between "A" "Z" c || between "a" "z" c.
Definition ident_char (c : ascii) : bool := (c =? "_")%char || letter c || digit c.

Definition TAB : ascii := "009".
Definition LF : ascii := "010".
Definition CR : ascii := "013".
Definition blank (c : ascii) : bool := ((c =? " ") || (c =? TAB) || (c =? CR))%char.

(** The longest front of [l] whose characters all satisfy [p]. *)
Fixpoint span (p : ascii -> bool) (l : list ascii) : nat :=
  match l with
  | [] => 0
  | c :: l' => if p c then S (span p l') else 0
  end.

Definition lower (c : ascii) : ascii :=
  if between "A" "Z" c then ascii_of_nat (nat_of_ascii c + 32) else c.

(** ** White space and comments *)

(** [.skip_ws] and, inside a comment, [.comment_loop]: how many characters are
    passed over, and the line and column reached. *)
Fixpoint skip (comment : bool) (l : list ascii) (line col : Z) : nat * Z * Z :=
  match l with
  | [] => (0%nat, line, col)
  | c :: l' =>
      let step r := let '(n, line, col) := r in (S n, line, col) in
      if (c =? LF)%char then step (skip false l' (u32 (line + 1)) 1)
      else if comment then step (skip true l' line (u32 (col + 1)))
      else if blank c then step (skip false l' line (u32 (col + 1)))
      else if (c =? "-")%char then
        match l' with
        | d :: l'' =>
            if (d =? "-")%char then
              let '(n, line, col) := skip true l'' line (u32 (col + 2)) in (S (S n), line, col)
            else (0%nat, line, col)
        | [] => (0%nat, line, col)
        end
      else (0%nat, line, col)
  end.

(** ** One token *)

(** [.str_loop], from behind the opening quote: whether the literal ends, how
    many characters it takes, and the line and column reached. *)
Fixpoint lex_string (l : list ascii) (line col : Z) : bool * nat * Z * Z :=
  match l with
  | [] => (false, 0%nat, line, col)
  | c :: l' =>
      if (c =? "'")%char then
        match l' with
        | d :: l'' =>
            if (d =? "'")%char then
              let '(ok, n, line, col) := lex_string l'' line (u32 (col + 2)) in (ok, S (S n), line, col)
            else (true, 1%nat, line, u32 (col + 1))
        | [] => (true, 1%nat, line, u32 (col + 1))
        end
      else
        let '(line, col) := if (c =? LF)%char then (u32 (line + 1), 0) else (line, col) in
        let '(ok, n, line, col) := lex_string l' line (u32 (col + 1)) in (ok, S n, line, col)
  end.

(** [.ident_done]: the first entry of the same length that matches without
    regard to case. *)
Definition keyword (word : list ascii) : tok_type :=
  match find (fun '(kw, _) => (string_of_list_ascii (map lower word) =? kw)%string) kw_table_entries with
  | Some (_, t) => t
  | None => TOK_IDENT
  end.

(** [.lex_number] behind the first digit. *)
Definition lex_number (l : list ascii) : tok_type * nat :=
  let n := span digit l in
  match drop n l with
  | c :: d :: l' =>
      if (c =? ".")%char && digit d then (TOK_FLOAT_LIT, n + 2 + span digit l')%nat else (TOK_INT_LIT, n)
  | _ => (TOK_INT_LIT, n)
  end.

(** The single characters. *)
Definition punctuation (c : ascii) : option tok_type :=
  (if c =? "," then Some TOK_COMMA
   else if c =? "?" then Some TOK_PARAM
   else if c =? ";" then Some TOK_SEMICOLON
   else if c =? "[" then Some TOK_LBRACKET
   else if c =? "]" then Some TOK_RBRACKET
   else if c =? "(" then Some TOK_LPAREN
   else if c =? ")" then Some TOK_RPAREN
   else if c =? "*" then Some TOK_STAR
   else if c =? "+" then Some TOK_PLUS
   else if c =? "." then Some TOK_DOT
   else if c =? "=" then Some TOK_EQ
   else None)%char.

(** Operators of one, two or three characters, by what follows the first. *)
Definition lex_excl (l : list ascii) : tok_type * nat :=
  match l with
  | c :: _ => if (c =? "=")%char then (TOK_NEQ, 2%nat) else (TOK_ERROR, 1%nat)
  | [] => (TOK_ERROR, 1%nat)
  end.

Definition lex_lt (l : list ascii) : tok_type * nat :=
  match l with
  | [] => (TOK_LT, 1%nat)
  | c :: l' =>
      let gt := match l' with d :: _ => (d =? ">")%char | [] => false end in
      if (c =? "-")%char then (if gt then (TOK_L2_OP, 3%nat) else (TOK_LT, 1%nat))
      else if (c =? "=")%char then (if gt then (TOK_COSINE_OP, 3%nat) else (TOK_LTE, 2%nat))
      else if (c =? ">")%char then (TOK_NEQ, 2%nat)
      else (TOK_LT, 1%nat)
  end.

Definition lex_gt (l : list ascii) : tok_type * nat :=
  match l with
  | c :: _ => if (c =? "=")%char then (TOK_GTE, 2%nat) else (TOK_GT, 1%nat)
  | [] => (TOK_GT, 1%nat)
  end.

(** [.start_token] on a text that begins with [c]: the type, the length, and the
    line and column behind the token. *)
Definition lex_token (c : ascii) (l : list ascii) (line col : Z) : tok_type * nat * Z * Z :=
  let plain '(t, n) := (t, n, line, u32 (col + Z.of_nat n)) in
  let literal (t : tok_type) (quote : nat) (body : list ascii) :=
    let '(ok, n, line, col) := lex_string body line (u32 (col + Z.of_nat quote)) in
    (if ok then t else TOK_ERROR, (quote + n)%nat, line, col) in
  let ident := let n := S (span ident_char l) in plain (keyword (take n (c :: l)), n) in
  match punctuation c with
  | Some t => plain (t, 1%nat)
  | None =>
      if (c =? "!")%char then plain (lex_excl l)
      else if (c =? "<")%char then plain (lex_lt l)
      else if (c =? ">")%char then plain (lex_gt l)
      else if (c =? "-")%char then plain (TOK_MINUS, 1%nat)
      else if ((c =? "X") || (c =? "x"))%char then
        match l with
        | d :: l' => if (d =? "'")%char then literal TOK_BLOB_LIT 2%nat l' else ident
        | [] => ident
        end
      else if (c =? "_")%char || letter c then ident
      else if digit c then let '(t, n) := lex_number l in plain (t, S n)
      else if (c =? "'")%char then literal TOK_STRING_LIT 1%nat l
      else plain (TOK_ERROR, 1%nat)
  end.

(** ** The interface *)

Definition rest (t : tokenizer) : list ascii := drop (tokz_pos t) (tokz_src t).

(** [.lex_fresh] *)
Definition lex_fresh (t : tokenizer) : token * tokenizer :=
  let '(n, line, col) := skip false (rest t) (tokz_line t) (tokz_col t) in
  let start := (tokz_pos t + n)%nat in
  match drop n (rest t) with
  | [] => (mk_token TOK_EOF start 0 line col, mk_tokenizer (tokz_src t) start line col None)
  | c :: l =>
      let '(ty, len, line', col') := lex_token c l line col in
      (mk_token ty start len line col, mk_tokenizer (tokz_src t) (start + len) line' col' None)
  end.

Definition sql_tok_next (t : tokenizer) : token * tokenizer :=
  match tokz_peek t with
  | Some k => (k, mk_tokenizer (tokz_src t) (tokz_pos t) (tokz_line t) (tokz_col t) None)
  | None => lex_fresh t
  end.

Definition sql_tok_peek (t : tokenizer) : token * tokenizer :=
  match tokz_peek t with
  | Some k => (k, t)
  | None => let '(k, t) := lex_fresh t in
            (k, mk_tokenizer (tokz_src t) (tokz_pos t) (tokz_line t) (tokz_col t) (Some k))
  end.

(** The bytes a token stands for. *)
Definition token_text (src : list ascii) (k : token) : list ascii := take (tok_len k) (drop (tok_offset k) src).

(** The text read to the end, and the tokens seen on the way: [fuel] tokens at
    most. *)
Fixpoint tokens (fuel : nat) (t : tokenizer) : option (list token) :=
  match fuel with
  | O => None
  | S fuel' =>
      let '(k, t) := sql_tok_next t in
      if decide (tok k = TOK_EOF) then Some [k] else (fun ks => k :: ks) <$> tokens fuel' t
  end.

Example lex_claim :
  (map tok <$> tokens 9 (sql_tok_init (list_ascii_of_string "claim FROM inbox FOR 30000 -- now")))
  = Some [TOK_CLAIM; TOK_FROM; TOK_IDENT; TOK_FOR; TOK_INT_LIT; TOK_EOF].
Proof. vm_compute. reflexivity. Qed.

(** ** The tokens cover the text *)

Lemma span_le p l : (span p l <= length l)%nat.
Proof. induction l as [|c l IH]; simpl; [lia|]. destruct (p c); lia. Qed.

Lemma span_all p l : forallb p (take (span p l) l) = true.
Proof. induction l as [|c l IH]; simpl; [done|]. destruct (p c) eqn:E; simpl; [|done]. by rewrite E. Qed.

(** White space and comments. *)
Inductive gap : list ascii -> Prop :=
  | gap_nil : gap []
  | gap_char c l : (c = LF \/ blank c = true) -> gap l -> gap (c :: l)
  | gap_line body l : LF ∉ body -> gap l -> gap ("-"%char :: "-"%char :: body ++ LF :: l)
  | gap_last body : LF ∉ body -> gap ("-"%char :: "-"%char :: body).

(** The rest of a comment, with what is skipped behind its line. *)
Inductive tail_gap : list ascii -> Prop :=
  | tg_line body l : LF ∉ body -> gap l -> tail_gap (body ++ LF :: l)
  | tg_last body : LF ∉ body -> tail_gap body.

Lemma tail_gap_char c l : c <> LF -> tail_gap l -> tail_gap (c :: l).
Proof.
  intros Hc [body l' Hb Hl|body Hb].
  - change (c :: body ++ LF :: l') with ((c :: body) ++ LF :: l'). apply tg_line; [|done].
    by apply not_elem_of_cons.
  - apply tg_last. by apply not_elem_of_cons.
Qed.

Lemma comment_gap l : tail_gap l -> gap ("-"%char :: "-"%char :: l).
Proof. intros [body l' Hb Hl|body Hb]; [by apply gap_line|by apply gap_last]. Qed.

Lemma skip_gap l : forall comment line col, let '(n, _, _) := skip comment l line col in
  (n <= length l)%nat /\ if comment then tail_gap (take n l) else gap (take n l).
Proof.
  induction l as [l IH] using (induction_ltof1 _ (@length ascii)). unfold ltof in IH. intros comment line col.
  destruct l as [|c l]; simpl.
  { split; [done|]. destruct comment; [apply tg_last, not_elem_of_nil|constructor]. }
  destruct (c =? LF)%char eqn:Ec.
  { apply Ascii.eqb_eq in Ec as ->. pose proof (IH l ltac:(simpl; lia) false (u32 (line + 1)) 1) as H.
    destruct (skip false l _ _) as [[n ?] ?]. destruct H as [Hn H]. split; [lia|].
    destruct comment; simpl; [by apply (tg_line [] _); [apply not_elem_of_nil|]|apply gap_char; auto]. }
  apply Ascii.eqb_neq in Ec. destruct comment.
  { pose proof (IH l ltac:(simpl; lia) true line (u32 (col + 1))) as H.
    destruct (skip true l _ _) as [[n ?] ?]. destruct H as [Hn H]. split; [lia|]. by apply tail_gap_char. }
  destruct (blank c) eqn:Eb.
  { pose proof (IH l ltac:(simpl; lia) false line (u32 (col + 1))) as H.
    destruct (skip false l _ _) as [[n ?] ?]. destruct H as [Hn H]. split; [lia|]. apply gap_char; auto. }
  destruct (c =? "-")%char eqn:Ed; [|by split; [lia|constructor]]. apply Ascii.eqb_eq in Ed as ->.
  destruct l as [|d l]; [by split; [lia|constructor]|].
  destruct (d =? "-")%char eqn:Ed; [|by split; [lia|constructor]]. apply Ascii.eqb_eq in Ed as ->.
  pose proof (IH l ltac:(simpl; lia) true line (u32 (col + 2))) as H.
  destruct (skip true l _ _) as [[n ?] ?]. destruct H as [Hn H]. split; [simpl; lia|]. by apply comment_gap.
Qed.

Lemma lex_string_len l : forall line col, let '(ok, n, _, _) := lex_string l line col in
  (n <= length l)%nat /\ (ok = true -> (0 < n)%nat).
Proof.
  induction l as [l IH] using (induction_ltof1 _ (@length ascii)). unfold ltof in IH. intros line col.
  destruct l as [|c l]; simpl; [done|]. destruct (c =? "'")%char.
  - destruct l as [|d l]; [simpl; lia|]. destruct (d =? "'")%char; [|simpl; lia].
    pose proof (IH l ltac:(simpl; lia) line (u32 (col + 2))) as H.
    destruct (lex_string l _ _) as [[[ok n] ?] ?]. simpl. lia.
  - destruct (if (c =? LF)%char then _ else _) as [line' col'].
    pose proof (IH l ltac:(simpl; lia) line' (u32 (col' + 1))) as H.
    destruct (lex_string l _ _) as [[[ok n] ?] ?]. lia.
Qed.

Lemma lex_number_len l : let '(_, n) := lex_number l in (n <= length l)%nat.
Proof.
  unfold lex_number. pose proof (span_le digit l) as Hs. destruct (drop (span digit l) l) as [|c [|d l']] eqn:E; try done.
  apply (f_equal length) in E. rewrite length_drop in E. simpl in E.
  destruct (_ && _); [|done]. pose proof (span_le digit l'). lia.
Qed.

Lemma lex_token_len c l line col : let '(t, n, _, _) := lex_token c l line col in
  (0 < n <= S (length l))%nat /\ t <> TOK_EOF.
Proof.
  unfold lex_token.
  assert (Hk : forall w, keyword w <> TOK_EOF).
  { intros w. unfold keyword. destruct (find _ _) as [[kw t]|] eqn:E; [|done]. apply find_some in E as [Hin _].
    assert (Hall : forallb (fun '(_, t) => negb (bool_decide (t = TOK_EOF))) kw_table_entries = true) by (vm_compute; reflexivity).
    rewrite forallb_forall in Hall. specialize (Hall _ Hin). simpl in Hall. by case_bool_decide. }
  destruct (punctuation c) eqn:Ep.
  { split; [lia|]. intros ->. revert Ep. unfold punctuation. by repeat (destruct (_ =? _)%char; [done|]). }
  destruct (c =? "!")%char; [by unfold lex_excl; destruct l; [|destruct (_ =? _)%char]; simpl; split; try lia|].
  destruct (c =? "<")%char; [by unfold lex_lt; destruct l as [|? [|? ?]]; repeat (destruct (_ =? _)%char); simpl; split; try lia|].
  destruct (c =? ">")%char; [by unfold lex_gt; destruct l; [|destruct (_ =? _)%char]; simpl; split; try lia|].
  destruct (c =? "-")%char; [split; [lia|done]|].
  pose proof (span_le ident_char l) as Hs.
  assert (Hid : (0 < S (span ident_char l) <= S (length l))%nat /\ keyword (take (S (span ident_char l)) (c :: l)) <> TOK_EOF)
    by (split; [lia|apply Hk]).
  destruct ((c =? "X") || (c =? "x"))%char.
  { destruct l as [|d l]; [exact Hid|]. destruct (d =? "'")%char; [|exact Hid].
    pose proof (lex_string_len l line (u32 (col + 2))) as H. simpl. change (Z.of_nat 2) with 2.
    destruct (lex_string l _ _) as [[[ok n] ?] ?]. split; [lia|]. by destruct ok. }
  destruct ((c =? "_")%char || letter c); [exact Hid|]. destruct (digit c).
  { pose proof (lex_number_len l) as H. destruct (lex_number l) as [t n] eqn:El. split; [lia|].
    intros ->. revert El. unfold lex_number. destruct (drop _ _) as [|? [|? ?]]; try done. by destruct (_ && _). }
  destruct (c =? "'")%char; [|split; [lia|done]].
  pose proof (lex_string_len l line (u32 (col + Z.of_nat 1))) as H.
  destruct (lex_string l _ _) as [[[ok n] ?] ?]. split; [lia|]. by destruct ok.
Qed.

Lemma lex_fresh_spec t k t' : (tokz_pos t <= length (tokz_src t))%nat -> lex_fresh t = (k, t') ->
  tokz_src t' = tokz_src t /\ tokz_peek t' = None /\ tokz_pos t' = (tok_offset k + tok_len k)%nat /\
  (tokz_pos t <= tok_offset k)%nat /\ (tokz_pos t' <= length (tokz_src t))%nat /\
  gap (take (tok_offset k - tokz_pos t) (rest t)) /\
  (if decide (tok k = TOK_EOF) then tok_offset k = length (tokz_src t) /\ tok_len k = 0%nat else (0 < tok_len k)%nat).
Proof.
  intros Hp. unfold lex_fresh. pose proof (skip_gap (rest t) false (tokz_line t) (tokz_col t)) as Hs.
  destruct (skip false _ _ _) as [[n line] col]. destruct Hs as [Hn Hg].
  assert (Hr : length (rest t) = (length (tokz_src t) - tokz_pos t)%nat) by (unfold rest; by rewrite length_drop).
  destruct (drop n (rest t)) as [|c l] eqn:Ed; apply (f_equal length) in Ed; rewrite length_drop in Ed; simpl in Ed.
  - intros [= <- <-]. cbn [tok tok_offset tok_len tokz_src tokz_pos tokz_peek].
    replace (tokz_pos t + n - tokz_pos t)%nat with n by lia.
    destruct (decide (TOK_EOF = TOK_EOF)); [|done]. split_and!; try done; lia.
  - pose proof (lex_token_len c l line col) as Hl. destruct (lex_token c l line col) as [[[ty len] l'] c'].
    destruct Hl as [Hl Hty]. intros [= <- <-]. cbn [tok tok_offset tok_len tokz_src tokz_pos tokz_peek].
    replace (tokz_pos t + n - tokz_pos t)%nat with n by lia.
    destruct (decide (ty = TOK_EOF)); [done|]. split_and!; try done; lia.
Qed.

(** From [pos] on, the text is white space and comments between the tokens, and
    nothing else. *)
Fixpoint covers (src : list ascii) (pos : nat) (ks : list token) : Prop :=
  match ks with
  | [] => False
  | k :: ks' =>
      (pos <= tok_offset k <= length src)%nat /\ gap (take (tok_offset k - pos) (drop pos src)) /\
      if decide (tok k = TOK_EOF) then ks' = [] /\ tok_offset k = length src /\ tok_len k = 0%nat
      else (0 < tok_len k)%nat /\ (tok_offset k + tok_len k <= length src)%nat /\
           covers src (tok_offset k + tok_len k) ks'
  end.

Lemma tokens_cover fuel t : tokz_peek t = None -> (tokz_pos t <= length (tokz_src t))%nat ->
  (length (tokz_src t) - tokz_pos t < fuel)%nat ->
  exists ks, tokens fuel t = Some ks /\ covers (tokz_src t) (tokz_pos t) ks /\
    (length ks <= S (length (tokz_src t) - tokz_pos t))%nat.
Proof.
  revert t. induction fuel as [|fuel IH]; intros t Hpk Hp Hf; [lia|]. simpl. unfold sql_tok_next. rewrite Hpk.
  destruct (lex_fresh t) as [k t'] eqn:E. apply lex_fresh_spec in E as (Es & Ek & Et & Ho & Hle & Hg & Hk); [|done].
  destruct (decide (tok k = TOK_EOF)) as [He|He].
  - exists [k]. simpl. destruct (decide (tok k = TOK_EOF)); [|done]. destruct Hk. split_and!; try done; lia.
  - destruct (IH t') as (ks & E & Hc & Hl); [done|rewrite Es; lia|rewrite Es; lia|].
    exists (k :: ks). rewrite E. split; [done|]. rewrite Es, Et in *. split; [|simpl; lia]. simpl.
    destruct (decide (tok k = TOK_EOF)); [done|]. split_and!; try done; lia.
Qed.

(** C36: every text is read to its end.  The lexer never looks behind the last
    character, every token but the last takes at least one, so that after at most
    one token more than there are characters it has answered the end; and the
    tokens are the text in order, with nothing between them but white space and
    comments. *)
Theorem lexer_covers_the_text src : exists ks, tokens (S (length src)) (sql_tok_init src) = Some ks /\
  covers src 0 ks /\ (length ks <= S (length src))%nat.
Proof.
  destruct (tokens_cover (S (length src)) (sql_tok_init src)) as (ks & E & Hc & Hl); [done|simpl; lia|simpl; lia|].
  exists ks. rewrite Nat.sub_0_r in Hl. done.
Qed.
