(* ===== verification/DecimalFloat.v ===== *)
(** * DecimalFloat: decimal literals to FLOAT32

    [parse_number] of [src/sql/parser.asm] on a token with a decimal point.  The
    literal is an exact fraction of two 512-bit integers; the fraction is scaled
    into [1, 2), its significant bits come out of a long division, and the last
    one is rounded by what is left of the numerator.  An 8-limb integer is one
    number below 2^512, and the limb loops are its multiplication by ten,
    doubling, comparison and subtraction. *)

From S2P Require Import Tokenizer Prelude.

Open Scope Z_scope.

Definition u512 (x : Z) : Z := x mod 2 ^ 512.

Definition SQL_FLOAT_MAX_DIGITS : nat := 128.

(** [.big_mul10] with the digit as the first carry, and [.big_shl]. *)
Definition big_mul10 (x d : Z) : Z := u512 (10 * x + d).
Definition big_shl (x : Z) : Z := u512 (2 * x).
Definition big_subtract (x y : Z) : Z := u512 (x - y).

(** [.flt_digits]: numerator and denominator, or nothing for what is not a
    number. *)
Fixpoint flt_digits (l : list ascii) (dot : bool) (num den : Z) : option (Z * Z) :=
  match l with
  | [] => Some (num, den)
  | c :: l' =>
      if (c =? ".")%char then if dot then None else flt_digits l' true num den
      else if negb (digit c) then None
      else flt_digits l' dot (big_mul10 num (code c - code "0")) (if dot then big_mul10 den 0 else den)
  end.

(** [.flt_scale_denominator]: doublings of the denominator until it exceeds the
    numerator, with the last one undone. *)
Fixpoint flt_scale_denominator (fuel : nat) (num den e : Z) : Z * Z :=
  match fuel with
  | O => (den, e)
  | S fuel' =>
      let den2 := big_shl den in
      if num <? den2 then (den2 / 2, e + 1 - 1) else flt_scale_denominator fuel' num den2 (e + 1)
  end.

(** [.flt_scale_numerator] *)
Fixpoint flt_scale_numerator (fuel : nat) (num den e : Z) : Z * Z :=
  match fuel with
  | O => (num, e)
  | S fuel' =>
      let num2 := big_shl num in
      if num2 <? den then flt_scale_numerator fuel' num2 den (e - 1) else (num2, e - 1)
  end.

(** [.flt_bit]: [n] bits of the quotient behind the bits so far. *)
Fixpoint flt_bit (n : nat) (num den bits : Z) : Z * Z :=
  match n with
  | O => (num, bits)
  | S n' =>
      let num := big_shl num in
      let bits := 2 * bits in
      if num <? den then flt_bit n' num den bits
      else flt_bit n' (big_subtract num den) den (bits + 1)
  end.

(** [.flt_round], on what the division left. *)
Definition flt_round (num den bits : Z) : Z :=
  let num := big_shl num in
  if num <? den then bits
  else if den <? num then bits + 1
  else if Z.odd bits then bits + 1 else bits.

(** [.flt_encode]: no value when the exponent is too large. *)
Definition flt_encode (bits e : Z) : option Z :=
  if e <? -126 then Some bits else
  let '(bits, e) := if bits =? 0x1000000 then (bits / 2, e + 1) else (bits, e) in
  if 127 <? e then None else Some (Z.lor (Z.land bits 0x7fffff) (Z.shiftl (e + 127) 23)).

(** [.flt_normalized]: the bits of [num / den * 2 ^ e]. *)
Definition flt_normalized (num den e : Z) : option Z :=
  if 127 <? e then None
  else if e <? -150 then Some 0
  else if e =? -150 then Some (if den <? num then 1 else 0)
  else
    let precision := if -126 <=? e then 23%nat else Z.to_nat (e + 149) in
    let '(num, bits) := flt_bit precision (big_subtract num den) den 1 in
    flt_encode (flt_round num den bits) e.

(** The bits of the fraction.  A fraction of 128 digits is scaled in fewer than
    512 steps. *)
Definition flt_bits (num den : Z) : option Z :=
  if num =? 0 then Some 0
  else if num <? den then
    let '(num, e) := flt_scale_numerator 512 num den 0 in flt_normalized num den e
  else
    let '(den, e) := flt_scale_denominator 512 num den 0 in flt_normalized num den e.

(** [.parse_float]: the bits, or 0 for a malformed literal and -2 for one that
    is too long or too large.  The sign bit of a negated zero is kept. *)
Definition parse_float (l : list ascii) (neg : bool) : Z + Z :=
  if (SQL_FLOAT_MAX_DIGITS + 1 <? length l)%nat then inl (-2) else
  match flt_digits l false 0 1 with
  | None => inl 0
  | Some (num, den) =>
      match flt_bits num den with
      | None => inl (-2)
      | Some bits => inr (if neg then Z.lxor bits 0x80000000 else bits)
      end
  end.

Example parse_tenth : parse_float (list_ascii_of_string "0.1") false = inr 0x3dcccccd.
Proof. vm_compute. reflexivity. Qed.
Example parse_max : parse_float (list_ascii_of_string "340282346638528859811704183484516925440.0") true = inr 0xff7fffff.
Proof. vm_compute. reflexivity. Qed.
Example parse_over : parse_float (list_ascii_of_string "340282356779733661637539395458142568448.0") false = inl (-2).
Proof. vm_compute. reflexivity. Qed.
Example parse_under : parse_float (list_ascii_of_string "340282356779733661637539395458142568447.9") false = inr 0x7f7fffff.
Proof. vm_compute. reflexivity. Qed.

(** ** The value of a literal *)

Definition digits_value (l : list ascii) : Z := fold_left (fun x c => 10 * x + (code c - code "0")) l 0.

(** A non-negative float, by its bits, in units of 2^-149. *)
Definition units (b : Z) : Z :=
  if b <? 2 ^ 24 then b else (b mod 2 ^ 23 + 2 ^ 23) * 2 ^ (b / 2 ^ 23 - 1).

(** The bits of the float nearest to [num / den]: of two at the same distance,
    the even one. *)
Definition nearest (num den b : Z) : Prop :=
  0 <= b < 0x7f800000 /\
  forall b', 0 <= b' < 0x7f800000 -> b' <> b ->
    Z.abs (num * 2 ^ 149 - units b * den) < Z.abs (num * 2 ^ 149 - units b' * den) \/
    Z.abs (num * 2 ^ 149 - units b * den) = Z.abs (num * 2 ^ 149 - units b' * den) /\ Z.even b = true.

(** Half a unit in the last place beyond the largest float. *)
Definition too_large (num den : Z) : Prop := (2 ^ 25 - 1) * 2 ^ 103 * den <= num.

(** *** Digits *)

Lemma digit_range c : digit c = true -> 0 <= code c - code "0" <= 9.
Proof.
  unfold digit, Tokenizer.between. rewrite andb_true_iff, !Z.leb_le. change (code "0") with 48. change (code "9") with 57. lia.
Qed.

Lemma u512_small x : 0 <= x < 2 ^ 512 -> u512 x = x.
Proof. apply Z.mod_small. Qed.

Lemma pow10_512 n : (n <= 129)%nat -> 10 ^ Z.of_nat n < 2 ^ 500.
Proof.
  intros Hn. apply Z.le_lt_trans with (10 ^ 129); [apply Z.pow_le_mono_r; lia|].
  vm_compute. reflexivity.
Qed.

(** What [.flt_digits] reads, as long as nothing wraps. *)
Lemma flt_digits_run l dot num den : forallb digit l = true ->
  0 <= num < 10 ^ (129 - Z.of_nat (length l)) -> 0 <= den <= 10 ^ (129 - Z.of_nat (length l)) -> (length l <= 129)%nat ->
  flt_digits l dot num den =
    Some (fold_left (fun x c => 10 * x + (code c - code "0")) l num,
          if dot then den * 10 ^ Z.of_nat (length l) else den).
Proof.
  revert num den. induction l as [|c l IH]; intros num den Hd Hn Hden Hl; simpl in *.
  { destruct dot; by rewrite ?Z.mul_1_r. }
  apply andb_true_iff in Hd as [Hc Hd]. pose proof (digit_range _ Hc) as Hr.
  destruct (c =? ".")%char eqn:E; [apply Ascii.eqb_eq in E as ->; discriminate|]. rewrite Hc. simpl.
  assert (Hp : 10 ^ (129 - Z.of_nat (length l)) = 10 * 10 ^ (129 - Z.of_nat (S (length l)))).
  { rewrite <- Z.pow_succ_r by lia. f_equal. lia. }
  pose proof (pow10_512 (129 - length l) ltac:(lia)) as Hb.
  replace (Z.of_nat (129 - length l)) with (129 - Z.of_nat (length l)) in Hb by lia.
  assert (2 ^ 500 < 2 ^ 512) by (vm_compute; reflexivity).
  unfold big_mul10. rewrite u512_small by lia.
  rewrite IH by (first [done | lia | destruct dot; [rewrite u512_small by lia|]; lia]).
  f_equal. f_equal. destruct dot; [|done]. rewrite u512_small by lia.
  rewrite Nat2Z.inj_succ, Z.pow_succ_r by lia. lia.
Qed.

Lemma flt_digits_app a b dot num den : forallb digit a = true -> (forall c, c ∈ a -> c <> "."%char) ->
  flt_digits (a ++ b) dot num den =
    match flt_digits a dot num den with Some (num, den) => flt_digits b dot num den | None => None end.
Proof.
  revert num den. induction a as [|c a IH]; intros num den Hd Hn; simpl in *; [done|].
  apply andb_true_iff in Hd as [Hc Hd].
  destruct (c =? ".")%char eqn:E; [apply Ascii.eqb_eq in E as ->; discriminate|]. rewrite Hc. simpl.
  apply IH; [done|]. intros. apply Hn. by right.
Qed.

Lemma digits_value_bound l num : forallb digit l = true -> 0 <= num ->
  0 <= fold_left (fun x c => 10 * x + (code c - code "0")) l num < (num + 1) * 10 ^ Z.of_nat (length l).
Proof.
  revert num. induction l as [|c l IH]; intros num Hd Hn; simpl in *; [lia|].
  apply andb_true_iff in Hd as [Hc Hd]. pose proof (digit_range _ Hc) as Hr.
  destruct (IH (10 * num + (code c - code "0")) Hd ltac:(lia)) as [H1 H2]. split; [done|].
  eapply Z.lt_le_trans; [exact H2|]. rewrite Nat2Z.inj_succ, Z.pow_succ_r by lia.
  pose proof (Z.pow_pos_nonneg 10 (Z.of_nat (length l)) ltac:(lia) ltac:(lia)). nia.
Qed.

(** A literal is its digits over a power of ten. *)
Lemma flt_digits_literal a b : forallb digit (a ++ b) = true -> (length a + length b <= 128)%nat ->
  flt_digits (a ++ "."%char :: b) false 0 1 = Some (digits_value (a ++ b), 10 ^ Z.of_nat (length b)).
Proof.
  intros Hd Hl. rewrite forallb_app in Hd. apply andb_true_iff in Hd as [Ha Hb].
  rewrite flt_digits_app; [|done|intros c Hc ->; apply list_elem_of_In in Hc; rewrite forallb_forall in Ha; by specialize (Ha _ Hc)].
  assert (Hp : forall n, (n <= 129)%nat -> 0 < 10 ^ (129 - Z.of_nat n)) by (intros; apply Z.pow_pos_nonneg; lia).
  rewrite flt_digits_run by (first [done | pose proof (Hp (length a) ltac:(lia)); lia]). simpl.
  unfold digits_value. rewrite fold_left_app.
  pose proof (digits_value_bound a 0 Ha ltac:(lia)) as Hn. rewrite Z.mul_1_l in Hn.
  assert (10 ^ Z.of_nat (length a) <= 10 ^ (129 - Z.of_nat (length b))) by (apply Z.pow_le_mono_r; lia).
  rewrite flt_digits_run by (first [done | pose proof (Hp (length b) ltac:(lia)); lia]).
  by rewrite Z.mul_1_l.
Qed.

(** *** Scaling and division *)

Lemma big_shl_small x : 0 <= x < 2 ^ 511 -> big_shl x = 2 * x.
Proof. intros H. unfold big_shl. apply u512_small. change (2 ^ 512) with (2 * 2 ^ 511). lia. Qed.

Lemma scale_numerator_spec fuel num den e : 0 < num < den -> den < 2 ^ 500 -> den <= 2 ^ Z.of_nat fuel * num ->
  exists k, 0 < k <= Z.of_nat fuel /\ flt_scale_numerator fuel num den e = (num * 2 ^ k, e - k) /\
    den <= num * 2 ^ k < 2 * den.
Proof.
  assert (H500 : 2 ^ 500 < 2 ^ 511) by (vm_compute; reflexivity).
  revert num e. induction fuel as [|fuel IH]; intros num e Hn Hd Hf.
  { change (2 ^ Z.of_nat 0) with 1 in Hf. lia. }
  cbn [flt_scale_numerator]. rewrite big_shl_small by lia. destruct (2 * num <? den) eqn:E.
  - apply Z.ltb_lt in E. destruct (IH (2 * num) (e - 1)) as (k & Hk & Er & Hb); [lia|done| |].
    { rewrite Nat2Z.inj_succ, Z.pow_succ_r in Hf by lia. lia. }
    exists (k + 1). rewrite Er, Z.pow_add_r, Z.pow_1_r by lia. split; [lia|].
    split; [f_equal; [ring|lia]|]. replace (num * (2 ^ k * 2)) with (2 * num * 2 ^ k) by ring. done.
  - apply Z.ltb_ge in E. exists 1. rewrite Z.pow_1_r. split; [lia|]. split; [f_equal; ring|lia].
Qed.

Lemma scale_denominator_spec fuel num den e : 0 < den <= num -> num < 2 ^ 500 -> num < 2 ^ Z.of_nat fuel * den ->
  exists k, 0 <= k <= Z.of_nat fuel /\ flt_scale_denominator fuel num den e = (den * 2 ^ k, e + k) /\
    den * 2 ^ k <= num < 2 * (den * 2 ^ k).
Proof.
  assert (H500 : 2 ^ 500 < 2 ^ 511) by (vm_compute; reflexivity).
  revert den e. induction fuel as [|fuel IH]; intros den e Hn Hd Hf.
  { change (2 ^ Z.of_nat 0) with 1 in Hf. lia. }
  cbn [flt_scale_denominator]. rewrite big_shl_small by lia. destruct (num <? 2 * den) eqn:E.
  - apply Z.ltb_lt in E. exists 0. rewrite Z.pow_0_r. split; [lia|].
    split; [f_equal; [|lia]|lia]. rewrite Z.mul_comm, Z.div_mul by lia. lia.
  - apply Z.ltb_ge in E. destruct (IH (2 * den) (e + 1)) as (k & Hk & Er & Hb); [lia|done| |].
    { rewrite Nat2Z.inj_succ, Z.pow_succ_r in Hf by lia. lia. }
    exists (k + 1). rewrite Er, Z.pow_add_r, Z.pow_1_r by lia. split; [lia|].
    split; [f_equal; [ring|lia]|]. replace (den * (2 ^ k * 2)) with (2 * den * 2 ^ k) by ring. lia.
Qed.

Lemma flt_bit_spec n num den bits : 0 <= num < den -> den < 2 ^ 500 ->
  let '(r, q) := flt_bit n num den bits in
  (num + bits * den) * 2 ^ Z.of_nat n = q * den + r /\ 0 <= r < den.
Proof.
  assert (H500 : 2 * 2 ^ 500 < 2 ^ 511) by (vm_compute; reflexivity).
  revert num bits. induction n as [|n IH]; intros num bits Hn Hd; cbn [flt_bit].
  { change (2 ^ Z.of_nat 0) with 1. lia. }
  rewrite Nat2Z.inj_succ, Z.pow_succ_r by lia. rewrite big_shl_small by lia. destruct (2 * num <? den) eqn:E.
  - apply Z.ltb_lt in E. specialize (IH (2 * num) (2 * bits) ltac:(lia) Hd).
    destruct (flt_bit n _ _ _) as [r q]. destruct IH as [IH Hr]. split; [|done]. rewrite <- IH. ring.
  - apply Z.ltb_ge in E. unfold big_subtract. rewrite u512_small by (change (2 ^ 512) with (2 * 2 ^ 511); lia).
    specialize (IH (2 * num - den) (2 * bits + 1) ltac:(lia) Hd).
    destruct (flt_bit n _ _ _) as [r q]. destruct IH as [IH Hr]. split; [|done]. rewrite <- IH. ring.
Qed.

(** [q + r / den] to the nearest integer: the distance is at most a half, and a
    half only when the answer is even. *)
Lemma flt_round_spec r den q : 0 <= r < den -> den < 2 ^ 500 ->
  let q' := flt_round r den q in
  (q' = q /\ 2 * r <= den \/ q' = q + 1 /\ den <= 2 * r) /\ (2 * r = den -> Z.even q' = true).
Proof.
  assert (H500 : 2 * 2 ^ 500 < 2 ^ 511) by (vm_compute; reflexivity).
  intros Hr Hd. unfold flt_round. rewrite big_shl_small by lia.
  destruct (2 * r <? den) eqn:E1; [lia|]. destruct (den <? 2 * r) eqn:E2; [lia|]. apply Z.ltb_ge in E1, E2.
  destruct (Z.odd q) eqn:Eo.
  - split; [lia|]. intros _. by rewrite Z.even_add, <- Z.negb_odd, Eo.
  - split; [lia|]. intros _. by rewrite <- Z.negb_odd, Eo.
Qed.

(** *** The grid of floats *)

(** The float of significand [q] in the binade [s]; subnormal floats and the
    first normal ones are the binade 0. *)
Definition on_grid (s q : Z) : Prop := 0 <= s /\ q <= 2 ^ 24 /\ (2 ^ 23 <= q \/ s = 0 /\ 0 <= q).

Lemma units_grid s q : on_grid s q -> units (s * 2 ^ 23 + q) = q * 2 ^ s.
Proof.
  intros (Hs & Hq & Hlow). unfold units. destruct (s * 2 ^ 23 + q <? 2 ^ 24) eqn:E.
  - apply Z.ltb_lt in E. assert (s = 0) as -> by lia. rewrite Z.pow_0_r. lia.
  - apply Z.ltb_ge in E. destruct (Z.eq_dec q (2 ^ 24)) as [->|Hn].
    + replace (s * 2 ^ 23 + 2 ^ 24) with ((s + 2) * 2 ^ 23) by (change (2 ^ 24) with (2 * 2 ^ 23); ring).
      rewrite Z.mod_mul, Z.div_mul by lia. replace (s + 2 - 1) with (1 + s) by lia.
      rewrite Z.pow_add_r by lia. change (2 ^ 24) with (2 ^ 23 * 2 ^ 1). ring.
    + assert (Hq23 : 2 ^ 23 <= q) by lia.
      replace (s * 2 ^ 23 + q) with ((q - 2 ^ 23) + (s + 1) * 2 ^ 23) by ring.
      rewrite Z_mod_plus_full, Z.div_add by lia.
      rewrite Z.mod_small, Z.div_small by lia. f_equal; [|f_equal]; lia.
Qed.

Lemma units_step b : 0 <= b -> units b < units (b + 1).
Proof.
  intros Hb. destruct (Z_lt_le_dec b (2 ^ 24)).
  - pose proof (units_grid 0 b ltac:(unfold on_grid; lia)) as H0. rewrite Z.mul_0_l, Z.add_0_l, Z.pow_0_r in H0. rewrite H0.
    destruct (Z.eq_dec b (2 ^ 24 - 1)) as [->|].
    + vm_compute. reflexivity.
    + pose proof (units_grid 0 (b + 1) ltac:(unfold on_grid; lia)) as H1. rewrite Z.mul_0_l, Z.add_0_l, Z.pow_0_r in H1. lia.
  - set (s := b / 2 ^ 23 - 1). set (q := b mod 2 ^ 23 + 2 ^ 23).
    pose proof (Z.div_mod b (2 ^ 23) ltac:(lia)) as Hdm. pose proof (Z.mod_pos_bound b (2 ^ 23) ltac:(lia)) as Hm.
    assert (2 <= b / 2 ^ 23) by (apply Z.div_le_lower_bound; lia).
    assert (Hbq : b = s * 2 ^ 23 + q) by (subst s q; lia).
    rewrite Hbq at 1. replace (b + 1) with (s * 2 ^ 23 + (q + 1)) by lia.
    rewrite !units_grid by (unfold on_grid; subst s q; lia).
    pose proof (Z.pow_pos_nonneg 2 s ltac:(lia) ltac:(subst s; lia)). lia.
Qed.

Lemma units_mono a b : 0 <= a -> a < b -> units a < units b.
Proof.
  intros Ha Hab. replace b with (a + 1 + Z.of_nat (Z.to_nat (b - a - 1))) by lia.
  induction (Z.to_nat (b - a - 1)) as [|n IH].
  - rewrite Z.add_0_r. by apply units_step.
  - rewrite Nat2Z.inj_succ, <- Z.add_1_r, Z.add_assoc. etransitivity; [exact IH|]. apply units_step. lia.
Qed.

(** *** Rounding *)

(** [n / d], in units, is no farther from [b] than halfway to its neighbours, and
    halfway only from an even [b]. *)
Definition rounded (n d b : Z) : Prop :=
  2 * n <= (units b + units (b + 1)) * d /\ (2 * n = (units b + units (b + 1)) * d -> Z.even b = true) /\
  (0 < b -> (units (b - 1) + units b) * d <= 2 * n /\ (2 * n = (units (b - 1) + units b) * d -> Z.even b = true)).

Lemma rounded_scale c n d b : 0 < c -> rounded (c * n) (c * d) b <-> rounded n d b.
Proof.
  intros Hc. unfold rounded.
  assert (Hx : forall z, z * (c * d) = c * (z * d)) by (intros; ring).
  assert (Hn : 2 * (c * n) = c * (2 * n)) by ring. rewrite !Hx, Hn.
  rewrite <- !Z.mul_le_mono_pos_l, !Z.mul_cancel_l by lia. done.
Qed.

Lemma rounded_nearest num den b : 0 < den -> 0 <= b < 0x7f800000 -> rounded (num * 2 ^ 149) den b -> nearest num den b.
Proof.
  intros Hd Hb (H1 & H2 & H3). split; [done|]. intros b' Hb' Hne. set (n := num * 2 ^ 149) in *.
  assert (Hm : forall x y, 0 <= x -> x < y -> units x * den < units y * den)
    by (intros; apply Z.mul_lt_mono_pos_r; [done|]; by apply units_mono).
  rewrite Z.mul_add_distr_r in H1, H2. destruct (Z_lt_le_dec b b').
  - pose proof (Hm b b' ltac:(lia) ltac:(lia)).
    assert (units (b + 1) * den <= units b' * den).
    { destruct (Z.eq_dec b' (b + 1)) as [->|]; [lia|]. pose proof (Hm (b + 1) b' ltac:(lia) ltac:(lia)). lia. }
    destruct (Z.eq_dec (2 * n) (units b * den + units (b + 1) * den)); [|left; lia].
    pose proof (H2 ltac:(done)). destruct (Z.eq_dec b' (b + 1)) as [->|]; [right; split; [lia|done]|].
    pose proof (Hm (b + 1) b' ltac:(lia) ltac:(lia)). left. lia.
  - destruct (H3 ltac:(lia)) as [H4 H5]. rewrite Z.mul_add_distr_r in H4, H5.
    pose proof (Hm b' b ltac:(lia) ltac:(lia)).
    assert (units b' * den <= units (b - 1) * den).
    { destruct (Z.eq_dec b' (b - 1)) as [->|]; [lia|]. pose proof (Hm b' (b - 1) ltac:(lia) ltac:(lia)). lia. }
    destruct (Z.eq_dec (2 * n) (units (b - 1) * den + units b * den)); [|left; lia].
    pose proof (H5 ltac:(done)). destruct (Z.eq_dec b' (b - 1)) as [->|]; [right; split; [lia|done]|].
    pose proof (Hm b' (b - 1) ltac:(lia) ltac:(lia)). left. lia.
Qed.

(** Rounding the significand rounds the number. *)
Lemma grid_rounded s q q' r den : on_grid s q' -> (2 ^ 23 <= q \/ s = 0) -> q < 2 ^ 24 -> 0 <= r < den ->
  (q' = q /\ 2 * r <= den \/ q' = q + 1 /\ den <= 2 * r) -> (2 * r = den -> Z.even q' = true) ->
  rounded ((q * den + r) * 2 ^ s) den (s * 2 ^ 23 + q').
Proof.
  intros Hg Hlow Hq Hr Hround Htie. pose proof Hg as (Hs & Hq' & Hq0).
  assert (Heven : Z.even (s * 2 ^ 23 + q') = Z.even q').
  { rewrite Z.even_add, Z.even_mul. change (Z.even (2 ^ 23)) with true. rewrite orb_true_r. by destruct (Z.even q'). }
  pose proof (units_grid s q' Hg) as Hu. set (b := s * 2 ^ 23 + q') in *.
  assert (Hb0 : 0 <= b) by (subst b; lia).
  pose proof (units_step b Hb0) as Hstep.
  pose proof (Z.pow_pos_nonneg 2 s ltac:(lia) Hs) as HT. set (T := 2 ^ s) in *.
  assert (Hup : q' < 2 ^ 24 -> units (b + 1) = (q' + 1) * T).
  { intros. replace (b + 1) with (s * 2 ^ 23 + (q' + 1)) by (subst b; lia). apply units_grid. unfold on_grid. lia. }
  assert (Hdown : 0 < b -> 2 ^ 23 < q' \/ s = 0 -> units (b - 1) = (q' - 1) * T).
  { intros H0 H1. replace (b - 1) with (s * 2 ^ 23 + (q' - 1)) by (subst b; lia). apply units_grid. unfold on_grid.
    destruct H1; subst; [lia|]. subst b. lia. }
  unfold rounded. rewrite Hu, Heven.
  assert (Hdist : forall x y, (x * T + y * T) * den = (x + y) * den * T) by (intros; ring).
  assert (H2n : 2 * ((q * den + r) * T) = (2 * q * den + 2 * r) * T) by ring. rewrite H2n. clear H2n.
  assert (Hle : forall x y, x <= y -> x * T <= y * T) by (intros; nia).
  assert (Hinj : forall x y, x * T = y * T -> x = y) by (intros; nia).
  assert (Hlt : forall x y, x < y -> x * den < y * den) by (intros; nia).
  split_and!.
  - destruct (Z_lt_le_dec q' (2 ^ 24)) as [?|Hge].
    + rewrite (Hup ltac:(done)), Hdist. apply Hle. destruct Hround as [[-> ?]|[-> ?]]; nia.
    + assert (q' = q + 1) as -> by lia. transitivity ((q + 1 + (q + 1)) * den * T); [apply Hle; nia|].
      rewrite <- Hdist. apply Z.lt_le_incl, Hlt. lia.
  - intros E. destruct (Z_lt_le_dec q' (2 ^ 24)) as [?|Hge].
    + rewrite (Hup ltac:(done)), Hdist in E. apply Hinj in E. destruct Hround as [[-> ?]|[-> ?]]; [apply Htie; nia|nia].
    + assert (q' = q + 1) as -> by lia. exfalso.
      assert (Hx : (2 * q * den + 2 * r) * T <= (q + 1 + (q + 1)) * den * T) by (apply Hle; nia).
      rewrite <- Hdist in Hx. pose proof (Hlt ((q + 1) * T + (q + 1) * T) ((q + 1) * T + units (b + 1)) ltac:(lia)). lia.
  - intros Hpos. destruct (decide (2 ^ 23 < q' \/ s = 0)) as [Hc|Hc].
    + rewrite (Hdown Hpos Hc), Hdist. split; [apply Hle; destruct Hround as [[-> ?]|[-> ?]]; nia|].
      intros E. apply Hinj in E. destruct Hround as [[-> ?]|[-> ?]]; [nia|apply Htie; nia].
    + assert (q' = q) as -> by lia. pose proof (units_step (b - 1) ltac:(lia)) as Hst.
      replace (b - 1 + 1) with b in Hst by lia. rewrite Hu in Hst.
      assert ((q * T + q * T) * den <= (2 * q * den + 2 * r) * T) by (rewrite Hdist; apply Hle; nia).
      pose proof (Hlt (units (b - 1) + q * T) (q * T + q * T) ltac:(lia)). lia.
Qed.

(** *** The encoding *)

Lemma flt_encode_grid e q : -149 <= e <= 127 -> (-126 <= e -> 2 ^ 23 <= q) -> 0 <= q <= 2 ^ 24 ->
  flt_encode q e =
    (if (e =? 127) && (q =? 2 ^ 24) then None else Some ((if -126 <=? e then e + 126 else 0) * 2 ^ 23 + q)).
Proof.
  intros He Hlow Hq. unfold flt_encode. destruct (e <? -126) eqn:E; destruct (-126 <=? e) eqn:E'; try lia.
  { destruct (e =? 127) eqn:E2; [lia|]. done. }
  apply Z.leb_le in E'. specialize (Hlow E'). change 0x1000000 with (2 ^ 24). change 0x7fffff with (Z.ones 23).
  destruct (q =? 2 ^ 24) eqn:Eq.
  - apply Z.eqb_eq in Eq as ->. rewrite andb_true_r. destruct (127 <? e + 1) eqn:E3; destruct (e =? 127) eqn:E4; try lia; [done|].
    change (Z.land (2 ^ 24 / 2) (Z.ones 23)) with 0. rewrite lor_add_shift by lia. f_equal. lia.
  - apply Z.eqb_neq in Eq. rewrite andb_false_r. destruct (127 <? e) eqn:E3; [lia|].
    rewrite Z.land_ones by lia.
    rewrite lor_add_shift by (first [lia | apply Z.mod_pos_bound; lia]).
    replace q with (q - 2 ^ 23 + 1 * 2 ^ 23) at 1 by lia. rewrite Z_mod_plus_full, Z.mod_small by lia. f_equal. lia.
Qed.

(** A fraction scaled into [1, 2), times 2^e. *)
Lemma flt_normalized_spec num den e : 0 < den <= num -> num < 2 * den -> den < 2 ^ 500 -> -512 <= e ->
  match flt_normalized num den e with
  | Some b => 0 <= b < 0x7f800000 /\ rounded (num * 2 ^ (e + 661)) (den * 2 ^ 512) b
  | None => (2 ^ 25 - 1) * 2 ^ 253 * (den * 2 ^ 512) <= 2 * (num * 2 ^ (e + 661))
  end.
Proof.
  intros Hd Hn Hb He. unfold flt_normalized. destruct (127 <? e) eqn:E1.
  { apply Z.ltb_lt in E1. assert (2 ^ 789 <= 2 ^ (e + 661)) by (apply Z.pow_le_mono_r; lia).
    transitivity (2 * (den * 2 ^ 789)); [|nia].
    change (2 ^ 789) with (2 ^ 24 * 2 ^ 253 * 2 ^ 512). assert (0 < 2 ^ 253 * 2 ^ 512) by lia. nia. }
  apply Z.ltb_ge in E1. destruct (e <? -150) eqn:E2.
  { apply Z.ltb_lt in E2. split; [lia|]. assert (H : 2 ^ (e + 661) <= 2 ^ 510) by (apply Z.pow_le_mono_r; lia).
    assert (2 * (num * 2 ^ (e + 661)) < den * 2 ^ 512).
    { change (2 ^ 512) with (4 * 2 ^ 510). apply Z.le_lt_trans with (2 * (num * 2 ^ 510)); [|lia].
      apply Z.mul_le_mono_nonneg_l; [lia|]. apply Z.mul_le_mono_nonneg_l; lia. }
    unfold rounded. change (units 0 + units (0 + 1)) with 1. split_and!; [lia|done|lia]. }
  apply Z.ltb_ge in E2. destruct (e =? -150) eqn:E3.
  { apply Z.eqb_eq in E3 as ->. change (-150 + 661) with 511. change (2 ^ 512) with (2 * 2 ^ 511).
    assert (0 < 2 ^ 511) by lia. set (c := 2 ^ 511) in *. destruct (den <? num) eqn:E3.
    - apply Z.ltb_lt in E3. split; [lia|]. unfold rounded.
      change (units 1 + units (1 + 1)) with 3. change (units (1 - 1) + units 1) with 1. split_and!; [nia|nia|]. split; nia.
    - apply Z.ltb_ge in E3. assert (num = den) as -> by lia. split; [lia|]. unfold rounded.
      change (units 0 + units (0 + 1)) with 1. split_and!; [lia|done|lia]. }
  apply Z.eqb_neq in E3. set (p := if -126 <=? e then 23%nat else Z.to_nat (e + 149)).
  assert (Hp : Z.of_nat p = if -126 <=? e then 23 else e + 149) by (subst p; destruct (-126 <=? e) eqn:?; lia).
  assert (H500 : 2 ^ 500 < 2 ^ 512) by (vm_compute; reflexivity).
  unfold big_subtract. rewrite u512_small by lia.
  pose proof (flt_bit_spec p (num - den) den 1 ltac:(lia) ltac:(lia)) as Hbit.
  destruct (flt_bit p (num - den) den 1) as [r q]. destruct Hbit as [Hq Hr].
  replace (num - den + 1 * den) with num in Hq by ring.
  pose proof (flt_round_spec r den q Hr ltac:(lia)) as [Hround Htie]. set (q' := flt_round r den q) in *.
  assert (Hp2 : 0 < 2 ^ Z.of_nat p) by (apply Z.pow_pos_nonneg; lia).
  assert (Hqlow : 2 ^ Z.of_nat p <= q) by nia. assert (Hqup : q < 2 * 2 ^ Z.of_nat p) by nia.
  assert (Hp23 : 2 ^ Z.of_nat p <= 2 ^ 23) by (apply Z.pow_le_mono_r; [lia|]; destruct (-126 <=? e) eqn:?; lia).
  assert (Hnorm : -126 <= e -> 2 ^ Z.of_nat p = 2 ^ 23).
  { intros. rewrite Hp. destruct (-126 <=? e) eqn:?; [done|lia]. }
  set (s := if -126 <=? e then e + 126 else 0).
  assert (Hes : e + 661 = Z.of_nat p + s + 512) by (subst s; rewrite Hp; destruct (-126 <=? e) eqn:?; lia).
  assert (Hs : 0 <= s /\ (s <> 0 -> -126 <= e)) by (subst s; destruct (-126 <=? e) eqn:?; lia).
  assert (Hg : on_grid s q') by (unfold on_grid; lia).
  rewrite flt_encode_grid by lia. fold s.
  assert (HN : num * 2 ^ (e + 661) = 2 ^ 512 * ((q * den + r) * 2 ^ s)).
  { rewrite Hes, !Z.pow_add_r by lia. rewrite <- Hq. ring. }
  rewrite HN, (Z.mul_comm den). destruct ((e =? 127) && (q' =? 2 ^ 24)) eqn:E4.
  - apply andb_true_iff in E4 as [E4 E5]. apply Z.eqb_eq in E4, E5. assert (Hs253 : s = 253) by (subst s e; reflexivity).
    rewrite Hs253. assert (Hc : 0 < 2 ^ 512 * 2 ^ 253) by lia. assert (Hq24 : q = 2 ^ 24 - 1) by lia.
    transitivity (2 ^ 512 * 2 ^ 253 * ((2 ^ 25 - 1) * den)); [lia|].
    transitivity (2 ^ 512 * 2 ^ 253 * (2 * (q * den + r))); [|lia]. apply Z.mul_le_mono_nonneg_l; [lia|]. rewrite Hq24. lia.
  - split.
    + apply andb_false_iff in E4. rewrite !Z.eqb_neq in E4. unfold on_grid in Hg. subst s.
      destruct (-126 <=? e) eqn:Ee; lia.
    + apply rounded_scale; [lia|]. apply grid_rounded; try done; lia.
Qed.

Lemma flt_bits_spec num den : 0 <= num < 2 ^ 500 -> 0 < den < 2 ^ 500 ->
  match flt_bits num den with Some b => nearest num den b | None => too_large num den end.
Proof.
  assert (H500 : 2 ^ 500 < 2 ^ 512) by (vm_compute; reflexivity).
  intros Hn Hd. unfold flt_bits. destruct (num =? 0) eqn:E0.
  { apply Z.eqb_eq in E0 as ->. split; [lia|]. intros b' Hb' Hne. left.
    pose proof (units_mono 0 b' ltac:(lia) ltac:(lia)). change (units 0) with 0 in *. nia. }
  apply Z.eqb_neq in E0. destruct (num <? den) eqn:E.
  - apply Z.ltb_lt in E.
    destruct (scale_numerator_spec 512 num den 0) as (k & Hk & -> & Hb); [lia|lia|nia|].
    pose proof (flt_normalized_spec (num * 2 ^ k) den (0 - k) ltac:(lia) ltac:(lia) ltac:(lia) ltac:(lia)) as H.
    replace (num * 2 ^ k * 2 ^ (0 - k + 661)) with (2 ^ 512 * (num * 2 ^ 149)) in H
      by (rewrite <- Z.mul_assoc, <- Z.pow_add_r by lia; replace (k + (0 - k + 661)) with (512 + 149) by lia;
          rewrite Z.pow_add_r by lia; ring).
    rewrite (Z.mul_comm den) in H. destruct (flt_normalized _ _ _) as [b|].
    + destruct H as [Hb0 H]. apply rounded_scale in H; [|lia]. apply rounded_nearest; done || lia.
    + unfold too_large. change (2 ^ 253) with (2 ^ 103 * 2 ^ 150) in H.
      replace (2 * (2 ^ 512 * (num * 2 ^ 149))) with (2 ^ 512 * 2 ^ 150 * num) in H by (change (2 ^ 150) with (2 * 2 ^ 149); ring).
      assert (0 < 2 ^ 512 * 2 ^ 150) by lia. nia.
  - apply Z.ltb_ge in E.
    destruct (scale_denominator_spec 512 num den 0) as (k & Hk & -> & Hb); [lia|lia|nia|].
    assert (Hpk : 0 < 2 ^ k) by (apply Z.pow_pos_nonneg; lia).
    pose proof (flt_normalized_spec num (den * 2 ^ k) (0 + k) ltac:(lia) ltac:(lia) ltac:(lia) ltac:(lia)) as H.
    replace (num * 2 ^ (0 + k + 661)) with (2 ^ k * 2 ^ 512 * (num * 2 ^ 149)) in H
      by (replace (0 + k + 661) with (k + 512 + 149) by lia; rewrite !Z.pow_add_r by lia; ring).
    replace (den * 2 ^ k * 2 ^ 512) with (2 ^ k * 2 ^ 512 * den) in H by ring.
    destruct (flt_normalized _ _ _) as [b|].
    + destruct H as [Hb0 H]. apply rounded_scale in H; [|lia]. apply rounded_nearest; done || lia.
    + unfold too_large. change (2 ^ 253) with (2 ^ 103 * 2 ^ 150) in H.
      replace (2 * (2 ^ k * 2 ^ 512 * (num * 2 ^ 149))) with (2 ^ k * 2 ^ 512 * 2 ^ 150 * num) in H
        by (change (2 ^ 150) with (2 * 2 ^ 149); ring).
      assert (0 < 2 ^ k * 2 ^ 512 * 2 ^ 150) by lia. nia.
Qed.

(** C16: a decimal literal means the FLOAT32 nearest to it.  For every literal of
    at most 128 digits the parser's answer is the float, of all finite ones, whose
    distance from the exact decimal is least, the even one of two at the same
    distance, with the sign in front; a literal is refused for its size only when
    it lies half a unit in the last place or more beyond the largest float. *)
Theorem decimal_literal_nearest a b neg : forallb digit (a ++ b) = true -> (length a + length b <= 128)%nat ->
  let num := digits_value (a ++ b) in
  let den := 10 ^ Z.of_nat (length b) in
  match parse_float (a ++ "."%char :: b) neg with
  | inr bits => exists m, nearest num den m /\ bits = (if neg then m + 0x80000000 else m)
  | inl e => e = -2 /\ too_large num den
  end.
Proof.
  intros Hd Hl num den. unfold parse_float. rewrite length_app. simpl length.
  destruct (_ <? _)%nat eqn:E; [apply Nat.ltb_lt in E; unfold SQL_FLOAT_MAX_DIGITS in E; lia|].
  rewrite flt_digits_literal by done. fold num den.
  pose proof (digits_value_bound (a ++ b) 0 Hd ltac:(lia)) as Hn. fold (digits_value (a ++ b)) in Hn. fold num in Hn.
  pose proof (pow10_512 (length (a ++ b))) as H1. pose proof (pow10_512 (length b)) as H2. rewrite length_app in H1, Hn.
  assert (Hden : 0 < den) by (apply Z.pow_pos_nonneg; lia).
  pose proof (flt_bits_spec num den ltac:(lia) ltac:(subst den; lia)) as H.
  destruct (flt_bits num den) as [m|]; [|done]. exists m. split; [done|]. destruct neg; [|done].
  destruct H as [Hm _]. change 0x80000000 with (1 * 2 ^ 31). rewrite Z.lxor_comm.
  rewrite <- Z.add_nocarry_lxor; [lia|]. rewrite Z.land_comm. apply Z.bits_inj'. intros i Hi.
  rewrite Z.land_spec, Z.bits_0. destruct (Z_lt_le_dec i 31).
  - rewrite <- Z.shiftl_mul_pow2, Z.shiftl_spec_low by lia. by rewrite andb_false_r.
  - rewrite (Z.bits_above_log2 m i); [done|lia|]. destruct (Z.eq_dec m 0) as [->|]; [simpl; lia|].
    apply Z.log2_lt_pow2; [lia|]. assert (2 ^ 31 <= 2 ^ i) by (apply Z.pow_le_mono_r; lia). lia.
Qed.

Lemma decimal_literal_nearest_witness :
  exists m, nearest 1 10 m /\ 0xbdcccccd = m + 0x80000000.
Proof.
  exact (decimal_literal_nearest ["0"%char] ["1"%char] true ltac:(vm_compute; reflexivity) ltac:(vm_compute; lia)).
Defined.
