(* ===== verification/Parser.v ===== *)
(** * Parser: from SQL text to a statement

    [src/sql/parser.asm]: the arena the front end allocates from, literals,
    [parse_primary] and [parse_expr_prec] with their depth limit, and [sql_parse]
    for every statement of the language.  A name is the characters of its token;
    the token offsets an expression keeps for the binder's messages are left out.

    The recursive definitions take fuel, and running out of it is [Hangs].  The
    expression grammar needs no more of it than three times the characters of the
    text; the loop over an INSERT's column list ends only at a closing
    parenthesis. *)

From S2P Require Import Float32 Tokenizer DecimalFloat Prelude.

Open Scope Z_scope.

(** ** The arena *)

Record arena := mk_arena {
  arena_used : Z;
  arena_cap : Z;
  arena_failed : bool;
}.

Definition sql_arena_init (cap : Z) : arena := mk_arena 0 cap false.

(** Sizes round up to eight bytes; neither addition may carry.  What an
    allocation hands back is zeroed. *)
Definition sql_arena_alloc (a : arena) (size : Z) : bool * arena :=
  let oom := (false, mk_arena (arena_used a) (arena_cap a) true) in
  if 2 ^ 64 <=? size + 7 then oom else
  let rounded := 8 * ((size + 7) / 8) in
  let top := arena_used a + rounded in
  if 2 ^ 64 <=? top then oom else
  if arena_cap a <? top then oom
  else (true, mk_arena top (arena_cap a) (arena_failed a)).

Definition AST_STMT_SIZE : Z := 24.
Definition AST_STMT_PAYLOAD_SIZE : Z := 104.
Definition AST_EXPR_SIZE : Z := 64.
Definition AST_COLDEF_SIZE : Z := 24.
Definition AST_NAME_SIZE : Z := 32.
Definition AST_JOIN_SIZE : Z := 48.

(** ** Statements *)

Definition name : Type := list ascii.

Inductive literal :=
  | L_INT64 (v : Z)
  | L_FLOAT32 (bits : Z)
  | L_TEXT (bytes : list ascii)
  | L_BLOB (bytes : list ascii)
  | L_BOOL (b : bool)
  | L_NULL
  | L_VECTOR (bits : list Z).

Inductive unop := OP_NOT | OP_IS_NULL | OP_IS_NOT_NULL.
Inductive binop :=
  | OP_OR | OP_AND | OP_EQ | OP_NEQ | OP_LT | OP_LTE | OP_GT | OP_GTE
  | OP_L2_DISTANCE | OP_COSINE_DISTANCE.

Inductive expr :=
  | E_LITERAL (l : literal)
  | E_COLUMN (qualifier : option name) (column : name)
  | E_PARAM (index : nat)
  | E_UNARY (op : unop) (e : expr)
  | E_BINARY (op : binop) (l r : expr).

Inductive cat_column := CAT_INT32 | CAT_INT64 | CAT_FLOAT32 | CAT_BOOL | CAT_TEXT | CAT_BLOB | CAT_VECTOR.
Definition CAT_NULLABLE : Z := 1.

Record coldef := mk_coldef {
  col_name : name;
  col_type : cat_column;
  col_flags : Z;
}.

(** A column name, with the table in front of it. *)
Definition qualified : Type := option name * name.

Inductive projection :=
  | PROJ_STAR
  | PROJ_COUNT_STAR
  | PROJ_COLUMNS (l : list qualified).

Inductive join_type := JOIN_INNER | JOIN_LEFT.

Record join := mk_join {
  join_type_of : join_type;
  join_table : name;
  join_alias : option name;
  join_on : expr;
}.

Inductive order_key :=
  | ORDER_NAME (c : qualified)
  | ORDER_EXPR (e : expr).

(** No LIMIT is -1. *)
Record select := mk_select {
  sel_proj : projection;
  sel_table : name;
  sel_alias : option name;
  sel_join : option join;
  sel_where : option expr;
  sel_order : option (order_key * bool);
  sel_limit : Z;
  sel_offset : Z;
}.

Inductive ast :=
  | A_CREATE_TABLE (n : name) (cols : list coldef)
  | A_CREATE_INDEX (unique : bool) (n table column : name)
  | A_CREATE_QUEUE (n : name)
  | A_CREATE_STREAM (n : name)
  | A_CREATE_CURSOR (reader n : name)
  | A_DROP_TABLE (n : name)
  | A_DROP_INDEX (n : name)
  | A_DROP_QUEUE (n : name)
  | A_DROP_STREAM (n : name)
  | A_DROP_CURSOR (reader n : name)
  | A_INSERT (n : name) (col_count : nat) (rows : list (list expr))
  | A_ENQUEUE (n : name) (value : expr)
  | A_APPEND (n : name) (value : expr)
  | A_DEQUEUE (n : name)
  | A_READ (n reader : name)
  | A_TRIM (n : name) (position : Z)
  | A_CLAIM (n : name) (duration : Z)
  | A_ACK (n : name) (position token : Z)
  | A_NACK (n : name) (position token : Z)
  | A_RENEW (n : name) (position token duration : Z)
  | A_BEGIN
  | A_COMMIT
  | A_ROLLBACK
  | A_SELECT (q : select)
  | A_UPDATE (n column : name) (value where_ : expr)
  | A_DELETE (n : name) (where_ : option expr).

(** ** Errors and the parser's state *)

Definition SQL_ERR_SYNTAX : Z := 1.
Definition SQL_ERR_NO_STORAGE : Z := 10.
Definition SQL_ERR_EXPR_DEPTH : Z := 12.

Record sql_error := mk_error {
  err_code : Z;
  err_offset : nat;
  err_line : Z;
  err_col : Z;
  err_msg : string;
}.

(** [set_error], at a token. *)
Definition set_error (k : token) (code : Z) (msg : string) : sql_error :=
  mk_error code (tok_offset k) (tok_line k) (tok_col k) msg.

(** A result, a refusal with the code returned, or a loop that does not end. *)
Inductive outcome (A : Type) :=
  | Parsed (x : A)
  | Rejected (rc : Z) (e : sql_error)
  | Hangs.
Arguments Parsed {A}.
Arguments Rejected {A}.
Arguments Hangs {A}.

(** The tokenizer, the arena, the placeholders and the nesting of expressions so
    far ([param_count], [expr_depth]), and the token buffer of [sql_parse]. *)
Record pstate := mk_pstate {
  p_tokz : tokenizer;
  p_arena : arena;
  p_params : nat;
  p_depth : nat;
  p_last : token;
}.

Definition P (A : Type) : Type := pstate -> outcome A * pstate.

#[global] Instance P_ret : MRet P := fun A x s => (Parsed x, s).
#[global] Instance P_bind : MBind P := fun A B k m s =>
  match m s with
  | (Parsed x, s) => k x s
  | (Rejected rc e, s) => (Rejected rc e, s)
  | (Hangs, s) => (Hangs, s)
  end.

Definition reject {A} (k : token) (code : Z) (msg : string) (rc : Z) : P A :=
  fun s => (Rejected rc (set_error k code msg), s).

Definition set_tokz (s : pstate) (t : tokenizer) : pstate := mk_pstate t (p_arena s) (p_params s) (p_depth s) (p_last s).

Definition next : P token := fun s =>
  let '(k, t) := sql_tok_next (p_tokz s) in (Parsed k, set_tokz s t).
Definition peek : P token := fun s =>
  let '(k, t) := sql_tok_peek (p_tokz s) in (Parsed k, set_tokz s t).

(** An allocation, refused at token [k]. *)
Definition alloc (k : token) (size rc : Z) : P unit := fun s =>
  let '(ok, a) := sql_arena_alloc (p_arena s) size in
  let s := mk_pstate (p_tokz s) a (p_params s) (p_depth s) (p_last s) in
  if ok then (Parsed tt, s)
  else (Rejected rc (set_error k SQL_ERR_NO_STORAGE "memory arena capacity exceeded"), s).

(** ** Numbers *)

(** [.int_loop] and what follows it: the value as 64 bits signed, or 0 for a
    malformed literal and -1 for an overflow. *)
Fixpoint int_loop (acc : Z) (l : list ascii) : Z + Z :=
  match l with
  | [] => inr acc
  | c :: l' =>
      if negb (digit c) then inl 0 else
      if 2 ^ 64 <=? acc * 10 then inl (-1) else
      let acc := acc * 10 + (code c - code "0") in
      if 2 ^ 64 <=? acc then inl (-1) else int_loop acc l'
  end.

Definition int_signed (neg : bool) (l : list ascii) : Z + Z :=
  match l with
  | [] => inl 0
  | _ =>
      match int_loop 0 l with
      | inl e => inl e
      | inr v =>
          if neg then (if 2 ^ 63 <? v then inl (-1) else inr (- v))
          else if 2 ^ 63 <=? v then inl (-1) else inr v
      end
  end.

Definition parse_integer (l : list ascii) (neg : bool) : Z + Z :=
  match l with
  | c :: l' => if (c =? "-")%char then int_signed true l' else if (c =? "+")%char then int_signed neg l'
               else int_signed neg l
  | [] => inl 0
  end.

(** ** Strings and blobs *)

(** A doubled quote is one. *)
Fixpoint string_decode (l : list ascii) : list ascii :=
  match l with
  | [] => []
  | c :: l' =>
      if (c =? "'")%char then c :: match l' with _ :: l'' => string_decode l'' | [] => [] end
      else c :: string_decode l'
  end.

Definition hex_nibble (c : ascii) : option Z :=
  if digit c then Some (code c - code "0")
  else let l := Z.lor (code c) 32 in
       if (97 <=? l) && (l <=? 102) then Some (l - 87) else None.

Fixpoint blob_decode (l : list ascii) : option (list ascii) :=
  match l with
  | [] => Some []
  | hi :: lo :: l' =>
      h ← hex_nibble hi; d ← hex_nibble lo; bytes ← blob_decode l';
      Some (ascii_of_nat (Z.to_nat (Z.lor (Z.shiftl h 4) d)) :: bytes)
  | _ :: [] => None
  end.

(** What stands between the quotes of a literal token of [skip] characters of
    prefix. *)
Definition literal_body (src : list ascii) (k : token) (prefix : nat) : list ascii :=
  take (tok_len k - prefix - 1) (drop (tok_offset k + prefix) src).

(** ** Expressions *)

Definition SQL_MAX_PARAMS : nat := 64.

(** A signed 64-bit integer to FLOAT32. *)
Definition cvtsi2ss (v : Z) : Z := encode (SpecFloat.binary_normalize 24 128 v 0 false).

Section parser.
Context (src : list ascii).

(** [parse_number] *)
Definition parse_number (k : token) (neg : bool) : Z + (cat_column * Z) :=
  let text := token_text src k in
  if decide (tok k = TOK_FLOAT_LIT) then
    match parse_float text neg with inr bits => inr (CAT_FLOAT32, bits) | inl e => inl e end
  else
    match parse_integer text neg with inr v => inr (CAT_INT64, v) | inl e => inl e end.

(** A refusal inside an expression makes [sql_parse] return the syntax error,
    whatever the error says. *)
Definition reject_expr {A} (k : token) (code : Z) (msg : string) : P A := reject k code msg SQL_ERR_SYNTAX.

Definition alloc_expr (k : token) (size : Z) : P unit := alloc k size SQL_ERR_SYNTAX.

Definition is_num (k : token) (neg : bool) : P expr :=
  alloc_expr k AST_EXPR_SIZE ;;
  match parse_number k neg with
  | inr (CAT_FLOAT32, bits) => mret (E_LITERAL (L_FLOAT32 bits))
  | inr (_, v) => mret (E_LITERAL (L_INT64 v))
  | inl e => if e =? -2 then reject_expr k SQL_ERR_SYNTAX "FLOAT32 literal exceeds range or 128 digits"
             else if e =? -1 then reject_expr k SQL_ERR_SYNTAX "integer literal overflow"
             else reject_expr k SQL_ERR_SYNTAX "malformed numeric literal"
  end.

Definition is_string (k : token) : P expr :=
  alloc_expr k AST_EXPR_SIZE ;;
  alloc_expr k (Z.of_nat (tok_len k) - 2 + 1) ;;
  mret (E_LITERAL (L_TEXT (string_decode (literal_body src k 1)))).

Definition is_blob (k : token) : P expr :=
  let bad := reject_expr k SQL_ERR_SYNTAX "BLOB literal must contain only an even number of hex digits" in
  if negb (Z.even (Z.of_nat (tok_len k) - 3)) then bad else
  alloc_expr k AST_EXPR_SIZE ;;
  alloc_expr k ((Z.of_nat (tok_len k) - 3) / 2 + 1) ;;
  match blob_decode (literal_body src k 2) with
  | Some bytes => mret (E_LITERAL (L_BLOB bytes))
  | None => bad
  end.

Definition is_ident (k : token) : P expr :=
  let first := token_text src k in
  dot ← peek;
  if decide (tok dot = TOK_DOT) then
    _ ← next; col ← next;
    if decide (tok col = TOK_IDENT) then
      alloc_expr col AST_EXPR_SIZE ;; mret (E_COLUMN (Some first) (token_text src col))
    else reject_expr col SQL_ERR_SYNTAX "expected expression"
  else alloc_expr dot AST_EXPR_SIZE ;; mret (E_COLUMN None first).

(** The next placeholder. *)
Definition fresh_param : P expr := fun s =>
  (Parsed (E_PARAM (p_params s)), mk_pstate (p_tokz s) (p_arena s) (S (p_params s)) (p_depth s) (p_last s)).

Definition params_seen : P nat := fun s => (Parsed (p_params s), s).

Definition is_param (k : token) : P expr :=
  n ← params_seen;
  if (SQL_MAX_PARAMS <=? n)%nat
  then reject_expr k SQL_ERR_SYNTAX "more parameters than a statement may hold"
  else alloc_expr k AST_EXPR_SIZE ;; fresh_param.

Definition is_simple (k : token) (l : literal) : P expr :=
  alloc_expr k AST_EXPR_SIZE ;; mret (E_LITERAL l).

Definition is_signed (neg : bool) : P expr :=
  _ ← next; k ← peek;
  match tok k with
  | TOK_INT_LIT | TOK_FLOAT_LIT => k ← next; is_num k neg
  | _ => reject_expr k SQL_ERR_SYNTAX "expected expression"
  end.

(** An element of a vector literal: its bits. *)
Definition vec_value (k : token) (neg : bool) : P Z :=
  let bad := reject_expr k SQL_ERR_SYNTAX "syntax error near token" in
  match tok k with
  | TOK_INT_LIT | TOK_FLOAT_LIT =>
      match parse_number k neg with
      | inl _ => bad
      | inr (ty, v) =>
          let bits := match ty with CAT_FLOAT32 => v | _ => cvtsi2ss v end in
          if Z.land bits 0x7f800000 =? 0x7f800000 then bad else mret bits
      end
  | _ => bad
  end.

(** [.vec_lit_loop], with room for [room] elements. *)
Fixpoint vec_lit_loop (room : nat) (last : token) : P (list Z) :=
  match room with
  | O => reject_expr last SQL_ERR_SYNTAX "syntax error near token"
  | S room' =>
      k ← peek;
      neg ← match tok k with
            | TOK_MINUS => _ ← next; mret true
            | TOK_PLUS => _ ← next; mret false
            | _ => mret false
            end;
      k ← next;
      v ← vec_value k neg;
      k ← next;
      match tok k with
      | TOK_COMMA => vs ← vec_lit_loop room' k; mret (v :: vs)
      | TOK_RBRACKET => alloc_expr k AST_EXPR_SIZE ;; mret [v]
      | _ => reject_expr k SQL_ERR_SYNTAX "syntax error near token"
      end
  end.

Definition is_vector_lit (k : token) : P expr :=
  alloc_expr k (4096 * 4) ;;
  vs ← vec_lit_loop 4096 k;
  mret (E_LITERAL (L_VECTOR vs)).

(** [EXPR_DEPTH_ENTER] and [EXPR_DEPTH_LEAVE] around an operand. *)
Definition SQL_MAX_EXPR_DEPTH : nat := 64.

Definition enter (k : token) : P unit := fun s =>
  let s := mk_pstate (p_tokz s) (p_arena s) (p_params s) (S (p_depth s)) (p_last s) in
  if (SQL_MAX_EXPR_DEPTH <? p_depth s)%nat
  then reject_expr k SQL_ERR_EXPR_DEPTH "expression nesting exceeds maximum of 64" s
  else (Parsed tt, s).

Definition leave : P unit := fun s =>
  (Parsed tt, mk_pstate (p_tokz s) (p_arena s) (p_params s) (p_depth s - 1) (p_last s)).

Definition nested {A} (k : token) (m : P A) : P A := enter k ;; x ← m; leave ;; mret x.

Definition hang {A} : P A := fun s => (Hangs, s).

Definition expect_in (t : tok_type) (msg : string) : P token :=
  k ← next; if decide (tok k = t) then mret k else reject_expr k SQL_ERR_SYNTAX msg.

Definition infix (t : tok_type) : option (binop * nat) :=
  match t with
  | TOK_OR => Some (OP_OR, 1%nat)
  | TOK_AND => Some (OP_AND, 2%nat)
  | TOK_EQ => Some (OP_EQ, 3%nat)
  | TOK_NEQ => Some (OP_NEQ, 3%nat)
  | TOK_LT => Some (OP_LT, 3%nat)
  | TOK_LTE => Some (OP_LTE, 3%nat)
  | TOK_GT => Some (OP_GT, 3%nat)
  | TOK_GTE => Some (OP_GTE, 3%nat)
  | _ => None
  end.

(** [.handle_is] behind the IS: which test, and the token that ends it. *)
Definition is_test : P (unop * token) :=
  k ← peek;
  match tok k with
  | TOK_NOT => _ ← next; k ← expect_in TOK_NULL "syntax error near token"; mret (OP_IS_NOT_NULL, k)
  | TOK_NULL => k ← next; mret (OP_IS_NULL, k)
  | _ => reject_expr k SQL_ERR_SYNTAX "syntax error near token"
  end.

Fixpoint parse_primary (fuel : nat) : P expr :=
  match fuel with
  | O => hang
  | S fuel' =>
      k ← peek;
      match tok k with
      | TOK_PLUS => is_signed false
      | TOK_MINUS => is_signed true
      | TOK_IDENT => k ← next; is_ident k
      | TOK_INT_LIT | TOK_FLOAT_LIT => k ← next; is_num k false
      | TOK_STRING_LIT => k ← next; is_string k
      | TOK_BLOB_LIT => k ← next; is_blob k
      | TOK_TRUE => k ← next; is_simple k (L_BOOL true)
      | TOK_FALSE => k ← next; is_simple k (L_BOOL false)
      | TOK_NULL => k ← next; is_simple k L_NULL
      | TOK_PARAM => k ← next; is_param k
      | TOK_LPAREN =>
          k ← next;
          e ← nested k (parse_expr_prec fuel' 1);
          _ ← expect_in TOK_RPAREN "expected ')'";
          mret e
      | TOK_NOT =>
          k ← next;
          e ← nested k (parse_expr_prec fuel' 3);
          alloc_expr k AST_EXPR_SIZE ;;
          mret (E_UNARY OP_NOT e)
      | TOK_LBRACKET => k ← next; is_vector_lit k
      | TOK_L2_DISTANCE | TOK_COSINE_DISTANCE =>
          f ← next;
          k ← expect_in TOK_LPAREN "expected '('";
          l ← nested k (parse_expr_prec fuel' 1);
          k ← expect_in TOK_COMMA "expected ','";
          r ← nested k (parse_expr_prec fuel' 1);
          k ← expect_in TOK_RPAREN "expected ')'";
          alloc_expr k AST_EXPR_SIZE ;;
          mret (E_BINARY (if decide (tok f = TOK_L2_DISTANCE) then OP_L2_DISTANCE else OP_COSINE_DISTANCE) l r)
      | _ => reject_expr k SQL_ERR_SYNTAX "expected expression"
      end
  end
with parse_expr_prec (fuel : nat) (min_prec : nat) : P expr :=
  match fuel with
  | O => hang
  | S fuel' => e ← parse_primary fuel'; expr_loop fuel' min_prec e
  end
with expr_loop (fuel : nat) (min_prec : nat) (left : expr) : P expr :=
  match fuel with
  | O => hang
  | S fuel' =>
      k ← peek;
      if decide (tok k = TOK_IS) then
        if (4 <? min_prec)%nat then mret left else
        _ ← next;
        '(op, k) ← is_test;
        alloc_expr k AST_EXPR_SIZE ;;
        expr_loop fuel' min_prec (E_UNARY op left)
      else
        match infix (tok k) with
        | None => mret left
        | Some (op, prec) =>
            if (prec <? min_prec)%nat then mret left else
            k ← next;
            right ← nested k (parse_expr_prec fuel' (S prec));
            alloc_expr k AST_EXPR_SIZE ;;
            expr_loop fuel' min_prec (E_BINARY op left right)
        end
  end.

(** ** The statement *)

(** The next token, into the buffer of [sql_parse]. *)
Definition keep (k : token) : P token := fun s =>
  (Parsed k, mk_pstate (p_tokz s) (p_arena s) (p_params s) (p_depth s) k).
Definition take_token : P token := k ← next; keep k.
Definition look_token : P token := k ← peek; keep k.

(** The error handlers: a refusal at the token in the buffer. *)
Definition bad {A} (msg : string) : P A := fun s => reject (p_last s) SQL_ERR_SYNTAX msg SQL_ERR_SYNTAX s.
Definition bad_syntax {A} : P A := bad "syntax error near token".

Definition alloc_stmt (size : Z) : P unit := fun s => alloc (p_last s) size SQL_ERR_NO_STORAGE s.

Definition expect (t : tok_type) (msg : string) : P unit :=
  k ← take_token; if decide (tok k = t) then mret tt else bad msg.
Definition expect_syntax (t : tok_type) : P unit := expect t "syntax error near token".

Definition ident (msg : string) : P name :=
  k ← take_token; if decide (tok k = TOK_IDENT) then mret (token_text src k) else bad msg.
Definition table_name : P name := ident "expected table name".

(** [.check_eof] *)
Definition check_eof {A} (x : A) : P A :=
  k ← look_token;
  (if decide (tok k = TOK_SEMICOLON) then _ ← take_token; mret tt else mret tt) ;;
  k ← take_token;
  if decide (tok k = TOK_EOF) then mret x else bad "unexpected token".

(** A literal where a number has to stand: its 64 bits, unsigned. *)
Definition number_literal (fuel : nat) : P Z :=
  e ← parse_primary fuel;
  match e with
  | E_LITERAL (L_INT64 v) => mret (u64 v)
  | _ => bad_syntax
  end.

(** *** CREATE TABLE *)

(** [parse_vector_type_def]'s loop keeps its sum in 32 bits. *)
Fixpoint vector_dim (acc : Z) (l : list ascii) : option Z :=
  match l with
  | [] => Some acc
  | c :: l' => if digit c then vector_dim (u32 (u32 (acc * 10) + (code c - code "0"))) l' else None
  end.

Definition parse_vector_type_def : P (option Z) :=
  k ← take_token;
  if negb (bool_decide (tok k = TOK_LPAREN)) then mret None else
  k ← look_token;
  sep ← (if decide (tok k = TOK_TYPE_FLOAT32) then
           _ ← take_token; k ← take_token; mret (bool_decide (tok k = TOK_COMMA))
         else mret true);
  if negb sep then mret None else
  k ← take_token;
  if negb (bool_decide (tok k = TOK_INT_LIT)) then mret None else
  match vector_dim 0 (token_text src k) with
  | None => mret None
  | Some dim =>
      if (dim =? 0) || (4096 <? dim) then mret None else
      k ← take_token;
      if decide (tok k = TOK_RPAREN) then mret (Some dim) else mret None
  end.

(** The type of a column and the flags it starts with. *)
Definition column_type : P (cat_column * Z) :=
  k ← take_token;
  match tok k with
  | TOK_TYPE_INT32 => mret (CAT_INT32, CAT_NULLABLE)
  | TOK_TYPE_INT64 => mret (CAT_INT64, CAT_NULLABLE)
  | TOK_TYPE_FLOAT32 => mret (CAT_FLOAT32, CAT_NULLABLE)
  | TOK_TYPE_BOOL => mret (CAT_BOOL, CAT_NULLABLE)
  | TOK_TYPE_TEXT => mret (CAT_TEXT, CAT_NULLABLE)
  | TOK_TYPE_BLOB => mret (CAT_BLOB, CAT_NULLABLE)
  | TOK_VECTOR =>
      d ← parse_vector_type_def;
      match d with
      | Some dim => mret (CAT_VECTOR, Z.lor (Z.shiftl dim 16) CAT_NULLABLE)
      | None => bad_syntax
      end
  | _ => bad "expected column data type (INT32, INT64, FLOAT32, BOOL)"
  end.

Definition nullability (flags : Z) : P Z :=
  k ← look_token;
  if decide (tok k = TOK_NULL) then _ ← take_token; mret flags
  else if decide (tok k = TOK_NOT) then
    _ ← take_token; k ← take_token;
    if decide (tok k = TOK_NULL) then mret (Z.land flags (Z.lnot CAT_NULLABLE)) else bad_syntax
  else mret flags.

(** [.col_loop], with room for [room] columns. *)
Fixpoint col_loop (room : nat) : P (list coldef) :=
  match room with
  | O => bad "column count exceeds maximum of 64"
  | S room' =>
      n ← ident "expected column name";
      '(ty, flags) ← column_type;
      flags ← nullability flags;
      k ← take_token;
      match tok k with
      | TOK_COMMA => cols ← col_loop room'; mret (mk_coldef n ty flags :: cols)
      | TOK_RPAREN => mret [mk_coldef n ty flags]
      | _ => bad "expected ','"
      end
  end.

Definition parse_create_table : P ast :=
  n ← table_name;
  expect TOK_LPAREN "expected '('" ;;
  alloc_stmt (64 * AST_COLDEF_SIZE) ;;
  cols ← col_loop 64;
  check_eof (A_CREATE_TABLE n cols).

(** *** INSERT *)

(** [.insert_skip_cols]: tokens up to a closing parenthesis.  The end of the text
    is a token like any other. *)
Fixpoint insert_skip_cols (fuel : nat) : P unit :=
  match fuel with
  | O => hang
  | S fuel' => k ← take_token; if decide (tok k = TOK_RPAREN) then mret tt else insert_skip_cols fuel'
  end.

(** [.val_loop], with room for [room] values. *)
Fixpoint val_loop (fuel room : nat) : P (list expr) :=
  match room with
  | O => bad "column count exceeds maximum of 64"
  | S room' =>
      e ← parse_primary fuel;
      k ← take_token;
      match tok k with
      | TOK_COMMA => es ← val_loop fuel room'; mret (e :: es)
      | TOK_RPAREN => mret [e]
      | _ => bad "expected ')'"
      end
  end.

(** [.row_loop] *)
Fixpoint row_loop (fuel room : nat) : P (list (list expr)) :=
  match room with
  | O => bad "row count exceeds maximum of 256"
  | S room' =>
      expect TOK_LPAREN "expected '('" ;;
      alloc_stmt (64 * 8) ;;
      row ← val_loop fuel 64;
      k ← look_token;
      if decide (tok k = TOK_COMMA) then _ ← take_token; rows ← row_loop fuel room'; mret (row :: rows)
      else mret [row]
  end.

(** The column count is that of the first row. *)
Definition parse_insert (fuel : nat) : P ast :=
  expect_syntax TOK_INTO ;;
  n ← table_name;
  k ← look_token;
  (if decide (tok k = TOK_LPAREN) then _ ← take_token; insert_skip_cols fuel else mret tt) ;;
  expect TOK_VALUES "expected VALUES keyword" ;;
  alloc_stmt (256 * 8) ;;
  rows ← row_loop fuel 256;
  check_eof (A_INSERT n (match rows with row :: _ => length row | [] => 0 end) rows).

(** *** UPDATE and DELETE *)

Definition parse_update (fuel : nat) : P ast :=
  n ← table_name;
  expect_syntax TOK_SET ;;
  c ← ident "expected column name";
  expect_syntax TOK_EQ ;;
  v ← parse_primary fuel;
  match v with
  | E_LITERAL _ | E_PARAM _ =>
      expect_syntax TOK_WHERE ;;
      w ← parse_expr_prec fuel 1;
      check_eof (A_UPDATE n c v w)
  | _ => bad_syntax
  end.

Definition where_clause (fuel : nat) : P (option expr) :=
  k ← look_token;
  if decide (tok k = TOK_WHERE) then _ ← take_token; w ← parse_expr_prec fuel 1; mret (Some w) else mret None.

Definition parse_delete (fuel : nat) : P ast :=
  expect_syntax TOK_FROM ;;
  n ← table_name;
  w ← where_clause fuel;
  check_eof (A_DELETE n w).

(** *** SELECT *)

(** A column with an optional table in front, the first name read already. *)
Definition qualify (first : name) : P qualified :=
  k ← look_token;
  if decide (tok k = TOK_DOT) then
    _ ← take_token; c ← ident "expected column name"; mret (Some first, c)
  else mret (None, first).

(** [.proj_loop] *)
Fixpoint proj_loop (room : nat) : P (list qualified) :=
  match room with
  | O => bad "projection count exceeds maximum of 64"
  | S room' =>
      first ← ident "expected column name";
      c ← qualify first;
      k ← look_token;
      if decide (tok k = TOK_COMMA) then _ ← take_token; cs ← proj_loop room'; mret (c :: cs)
      else mret [c]
  end.

Definition select_projection : P projection :=
  k ← look_token;
  match tok k with
  | TOK_STAR => _ ← take_token; mret PROJ_STAR
  | TOK_COUNT =>
      _ ← take_token;
      expect_syntax TOK_LPAREN ;; expect_syntax TOK_STAR ;; expect_syntax TOK_RPAREN ;;
      k ← look_token;
      if decide (tok k = TOK_COMMA) then bad_syntax else mret PROJ_COUNT_STAR
  | _ => alloc_stmt (64 * AST_NAME_SIZE) ;; cs ← proj_loop 64; mret (PROJ_COLUMNS cs)
  end.

(** An alias with or without AS. *)
Definition alias : P (option name) :=
  k ← look_token;
  match tok k with
  | TOK_AS => _ ← take_token; n ← table_name; alloc_stmt AST_NAME_SIZE ;; mret (Some n)
  | TOK_IDENT => k ← take_token; alloc_stmt AST_NAME_SIZE ;; mret (Some (token_text src k))
  | _ => mret None
  end.

Definition select_join_table (fuel : nat) (ty : join_type) : P (option join) :=
  alloc_stmt AST_JOIN_SIZE ;;
  n ← table_name;
  a ← alias;
  expect_syntax TOK_ON ;;
  e ← parse_expr_prec fuel 1;
  mret (Some (mk_join ty n a e)).

Definition select_join (fuel : nat) : P (option join) :=
  k ← look_token;
  match tok k with
  | TOK_JOIN => _ ← take_token; select_join_table fuel JOIN_INNER
  | TOK_INNER => _ ← take_token; expect_syntax TOK_JOIN ;; select_join_table fuel JOIN_INNER
  | TOK_LEFT => _ ← take_token; expect_syntax TOK_JOIN ;; select_join_table fuel JOIN_LEFT
  | _ => mret None
  end.

(** ORDER BY a distance written with an operator, the column read already. *)
Definition order_dist_op (fuel : nat) (op : binop) (column : name) : P order_key :=
  _ ← take_token;
  alloc_stmt AST_EXPR_SIZE ;;
  e ← parse_primary fuel;
  alloc_stmt AST_EXPR_SIZE ;;
  mret (ORDER_EXPR (E_BINARY op (E_COLUMN None column) e)).

Definition order_by (fuel : nat) : P order_key :=
  k ← look_token;
  match tok k with
  | TOK_L2_DISTANCE | TOK_COSINE_DISTANCE => e ← parse_primary fuel; mret (ORDER_EXPR e)
  | TOK_IDENT =>
      k ← take_token;
      let first := token_text src k in
      k ← look_token;
      match tok k with
      | TOK_L2_OP => order_dist_op fuel OP_L2_DISTANCE first
      | TOK_COSINE_OP => order_dist_op fuel OP_COSINE_DISTANCE first
      | _ => alloc_stmt AST_NAME_SIZE ;; c ← qualify first; mret (ORDER_NAME c)
      end
  | _ => bad "expected column name"
  end.

Definition order_clause (fuel : nat) : P (option (order_key * bool)) :=
  k ← look_token;
  if decide (tok k = TOK_ORDER) then
    _ ← take_token;
    expect_syntax TOK_BY ;;
    key ← order_by fuel;
    k ← look_token;
    match tok k with
    | TOK_ASC => _ ← take_token; mret (Some (key, false))
    | TOK_DESC => _ ← take_token; mret (Some (key, true))
    | _ => mret (Some (key, false))
    end
  else mret None.

Definition limit_literal : P Z :=
  k ← take_token;
  if decide (tok k = TOK_INT_LIT) then
    match parse_number k false with inr (_, v) => mret v | inl _ => bad_syntax end
  else bad_syntax.

Definition limit_clause : P (Z * Z) :=
  k ← look_token;
  if decide (tok k = TOK_LIMIT) then
    _ ← take_token; l ← limit_literal; k ← look_token;
    if decide (tok k = TOK_OFFSET_KW) then _ ← take_token; o ← limit_literal; mret (l, o) else mret (l, 0)
  else mret (-1, 0).

Definition parse_select (fuel : nat) : P ast :=
  proj ← select_projection;
  expect TOK_FROM "expected FROM keyword" ;;
  n ← table_name;
  a ← alias;
  j ← select_join fuel;
  w ← where_clause fuel;
  o ← order_clause fuel;
  '(l, off) ← limit_clause;
  check_eof (A_SELECT (mk_select proj n a j w o l off)).

(** *** Indexes, queues, streams and cursors *)

Definition parse_create_index (unique : bool) : P ast :=
  (if unique then expect_syntax TOK_INDEX else mret tt) ;;
  n ← table_name;
  expect_syntax TOK_ON ;;
  t ← table_name;
  expect TOK_LPAREN "expected '('" ;;
  c ← ident "syntax error near token";
  expect_syntax TOK_RPAREN ;;
  check_eof (A_CREATE_INDEX unique n t c).

(** A statement that ends with the one name it needs. *)
Definition parse_named (mk : name -> ast) : P ast := n ← table_name; check_eof (mk n).

Definition parse_cursor_names (mk : name -> name -> ast) : P ast :=
  reader ← table_name;
  expect_syntax TOK_ON ;;
  n ← table_name;
  check_eof (mk reader n).

Definition parse_create : P ast :=
  k ← take_token;
  match tok k with
  | TOK_INDEX => parse_create_index false
  | TOK_UNIQUE => parse_create_index true
  | TOK_QUEUE => parse_named A_CREATE_QUEUE
  | TOK_STREAM => parse_named A_CREATE_STREAM
  | TOK_CURSOR => parse_cursor_names A_CREATE_CURSOR
  | TOK_TABLE => parse_create_table
  | _ => bad_syntax
  end.

Definition parse_drop : P ast :=
  k ← take_token;
  match tok k with
  | TOK_INDEX => parse_named A_DROP_INDEX
  | TOK_QUEUE => parse_named A_DROP_QUEUE
  | TOK_STREAM => parse_named A_DROP_STREAM
  | TOK_CURSOR => parse_cursor_names A_DROP_CURSOR
  | TOK_TABLE => parse_named A_DROP_TABLE
  | _ => bad_syntax
  end.

(** [.parse_payload_target] *)
Definition parse_payload_target (fuel : nat) (mk : name -> expr -> ast) : P ast :=
  n ← table_name;
  expect_syntax TOK_VALUES ;;
  expect_syntax TOK_LPAREN ;;
  e ← parse_primary fuel;
  match e with
  | E_LITERAL _ => expect_syntax TOK_RPAREN ;; check_eof (mk n e)
  | _ => bad_syntax
  end.

Definition parse_enqueue (fuel : nat) : P ast := expect_syntax TOK_INTO ;; parse_payload_target fuel A_ENQUEUE.
Definition parse_append (fuel : nat) : P ast := expect_syntax TOK_TO ;; parse_payload_target fuel A_APPEND.
Definition parse_dequeue : P ast := expect_syntax TOK_FROM ;; parse_named A_DEQUEUE.

Definition parse_read : P ast :=
  expect_syntax TOK_FROM ;;
  n ← table_name;
  expect_syntax TOK_AS ;;
  reader ← table_name;
  check_eof (A_READ n reader).

Definition parse_trim (fuel : nat) : P ast :=
  expect_syntax TOK_STREAM ;;
  n ← table_name;
  expect_syntax TOK_BEFORE ;;
  v ← number_literal fuel;
  check_eof (A_TRIM n v).

Definition parse_claim (fuel : nat) : P ast :=
  expect_syntax TOK_FROM ;;
  n ← table_name;
  expect_syntax TOK_FOR ;;
  v ← number_literal fuel;
  check_eof (A_CLAIM n v).

(** [.parse_ticket] *)
Definition parse_ticket (fuel : nat) : P (name * Z * Z) :=
  expect_syntax TOK_FROM ;;
  n ← table_name;
  expect_syntax TOK_AT ;;
  position ← number_literal fuel;
  expect_syntax TOK_TOKEN ;;
  t ← number_literal fuel;
  mret (n, position, t).

Definition parse_ack (fuel : nat) : P ast := '(n, position, t) ← parse_ticket fuel; check_eof (A_ACK n position t).
Definition parse_nack (fuel : nat) : P ast := '(n, position, t) ← parse_ticket fuel; check_eof (A_NACK n position t).
Definition parse_renew (fuel : nat) : P ast :=
  '(n, position, t) ← parse_ticket fuel;
  expect_syntax TOK_FOR ;;
  d ← number_literal fuel;
  check_eof (A_RENEW n position t d).

(** BEGIN, COMMIT and ROLLBACK, with an optional TRANSACTION or WORK. *)
Definition parse_transaction (x : ast) : P ast :=
  k ← look_token;
  (if decide (tok k = TOK_TRANSACTION) then _ ← take_token; mret tt else mret tt) ;;
  check_eof x.

(** *** The dispatch *)

Definition dispatch (fuel : nat) (k : token) : P ast :=
  match tok k with
  | TOK_CREATE => parse_create
  | TOK_INSERT => parse_insert fuel
  | TOK_SELECT => parse_select fuel
  | TOK_UPDATE => parse_update fuel
  | TOK_DROP => parse_drop
  | TOK_DELETE => parse_delete fuel
  | TOK_BEGIN => parse_transaction A_BEGIN
  | TOK_COMMIT => parse_transaction A_COMMIT
  | TOK_ROLLBACK => parse_transaction A_ROLLBACK
  | TOK_ENQUEUE => parse_enqueue fuel
  | TOK_APPEND => parse_append fuel
  | TOK_READ => parse_read
  | TOK_TRIM => parse_trim fuel
  | TOK_DEQUEUE => parse_dequeue
  | TOK_CLAIM => parse_claim fuel
  | TOK_ACK => parse_ack fuel
  | TOK_NACK => parse_nack fuel
  | TOK_RENEW => parse_renew fuel
  | _ => bad_syntax
  end.

Definition parse_statement (fuel : nat) : P ast :=
  alloc_stmt AST_STMT_SIZE ;;
  alloc_stmt AST_STMT_PAYLOAD_SIZE ;;
  k ← take_token;
  dispatch fuel k.

End parser.

(** The statement and its number of placeholders.  [k0] is what the token buffer
    holds before the first token. *)
Definition sql_parse (fuel : nat) (src : list ascii) (a : arena) (k0 : token) : outcome (ast * nat) * arena :=
  let '(r, s) := parse_statement src fuel (mk_pstate (sql_tok_init src) a 0 0 k0) in
  (match r with
   | Parsed x => Parsed (x, p_params s)
   | Rejected rc e => Rejected rc e
   | Hangs => Hangs
   end, p_arena s).

(** Any token: what the buffer holds does not matter once a token was read. *)
Definition no_token : token := mk_token TOK_EOF 0 0 0 0.

Definition parse_string (fuel : nat) (sql : string) : outcome (ast * nat) :=
  fst (sql_parse fuel (list_ascii_of_string sql) (sql_arena_init 65536) no_token).

Example parse_claim_text : parse_string 100 "CLAIM FROM inbox FOR 30000;" =
  Parsed (A_CLAIM (list_ascii_of_string "inbox") 30000, 0%nat).
Proof. vm_compute. reflexivity. Qed.

Example parse_precedence : parse_string 100 "DELETE FROM t WHERE NOT a = ? OR b IS NULL AND c < 0.5" =
  let c s := E_COLUMN None (list_ascii_of_string s) in
  Parsed (A_DELETE (list_ascii_of_string "t")
    (Some (E_BINARY OP_OR (E_UNARY OP_NOT (E_BINARY OP_EQ (c "a") (E_PARAM 0)))
                          (E_BINARY OP_AND (E_UNARY OP_IS_NULL (c "b")) (E_BINARY OP_LT (c "c") (E_LITERAL (L_FLOAT32 0x3f000000))))))%string, 1%nat).
Proof. vm_compute. reflexivity. Qed.
