(* ===== verification/ParserTotal.v ===== *)
(** * ParserTotal: the parser always answers, but for one loop

    Every token read but the end of the text takes characters away, so that the
    recursions of [Parser] end: a weakest-precondition calculus over the parser's
    monad counts the characters left.  The one loop that does not is the column
    list of an INSERT without a closing parenthesis. *)

From S2P Require Import Tokenizer Parser Prelude.

Section total.
Context (src : list ascii).

(** ** What is left to read *)

Definition whole (k : token) : Prop :=
  if decide (tok k = TOK_EOF) then tok_offset k = length src /\ tok_len k = 0%nat else (0 < tok_len k)%nat.

(** A tokenizer over [src], with what a peek left in it. *)
Definition live (t : tokenizer) : Prop :=
  tokz_src t = src /\ (tokz_pos t <= length src)%nat /\
  forall k, tokz_peek t = Some k -> (tok_offset k + tok_len k = tokz_pos t)%nat /\ whole k.

Definition left_of (t : tokenizer) : nat :=
  (length src - match tokz_peek t with Some k => tok_offset k | None => tokz_pos t end)%nat.

Lemma live_next t k t' : live t -> sql_tok_next t = (k, t') ->
  live t' /\ tokz_peek t' = None /\ whole k /\ (left_of t' <= left_of t)%nat /\
  (tok k <> TOK_EOF -> (left_of t' < left_of t)%nat) /\ (tok k = TOK_EOF -> left_of t' = 0%nat).
Proof.
  intros (Hs & Hp & Hk). unfold sql_tok_next, live, left_of. destruct (tokz_peek t) as [k0|] eqn:E.
  - intros [= <- <-]. cbn [tokz_src tokz_pos tokz_peek]. destruct (Hk k0 ltac:(done)) as [Hw1 Hw2].
    split_and!; try done; try lia; intros Hne; unfold whole in Hw2; destruct (decide _); try done; lia.
  - intros El. apply lex_fresh_spec in El as (E1 & E2 & E3 & E4 & E5 & _ & E6); [|by rewrite Hs].
    rewrite Hs in *. split_and!; try done; try congruence; try lia; rewrite ?E2; try lia.
    + intros Hne. rewrite decide_False in E6 by done. lia.
    + intros He. rewrite decide_True in E6 by done. lia.
Qed.

Lemma live_peek t k t' : live t -> sql_tok_peek t = (k, t') ->
  live t' /\ tokz_peek t' = Some k /\ whole k /\ (left_of t' <= left_of t)%nat /\ sql_tok_next t' = sql_tok_next t.
Proof.
  intros Hl. pose proof Hl as (Hs & Hp & Hk). unfold sql_tok_peek, sql_tok_next, live, left_of.
  destruct (tokz_peek t) as [k0|] eqn:E.
  - intros [= <- <-]. rewrite E. destruct (Hk k0 ltac:(done)). by split_and!.
  - destruct (lex_fresh t) as [k1 t1] eqn:El. intros [= <- <-]. cbn [tokz_src tokz_pos tokz_peek tokz_line tokz_col].
    pose proof El as El'. apply lex_fresh_spec in El' as (E1 & E2 & E3 & E4 & E5 & _ & E6); [|by rewrite Hs].
    rewrite Hs in *. split_and!; try done; try congruence; try lia.
    + intros ? [= <-]. done.
    + destruct t1; simpl in *. by subst.
Qed.

(** ** The calculus *)

Definition wp {A} (m : P A) (Q : A -> pstate -> Prop) (s : pstate) : Prop :=
  match m s with
  | (Parsed x, s') => Q x s'
  | (Rejected _ _, _) => True
  | (Hangs, _) => False
  end.

Lemma wp_bind {A B} (m : P A) (f : A -> P B) Q s : wp m (fun x => wp (f x) Q) s -> wp (m ≫= f) Q s.
Proof. unfold wp, mbind, P_bind. by destruct (m s) as [[x|rc e|] s']. Qed.

Lemma wp_mono {A} (m : P A) (Q Q' : A -> pstate -> Prop) s :
  (forall x s', Q x s' -> Q' x s') -> wp m Q s -> wp m Q' s.
Proof. unfold wp. intros H. destruct (m s) as [[x|rc e|] s']; eauto. Qed.

Definition alive (s : pstate) : Prop := live (p_tokz s).
Definition left_in (s : pstate) : nat := left_of (p_tokz s).

(** It reads on from where it starts, and ends. *)
Definition safe {A} (m : P A) : Prop :=
  forall s, alive s -> wp m (fun _ s' => alive s' /\ (left_in s' <= left_in s)%nat) s.

Lemma safe_ret {A} (x : A) : safe (mret x).
Proof. intros s Hs. by split. Qed.

Lemma safe_bind {A B} (m : P A) (f : A -> P B) : safe m -> (forall x, safe (f x)) -> safe (m ≫= f).
Proof.
  intros Hm Hf s Hs. apply wp_bind. eapply wp_mono; [|by apply Hm]. intros x s' [Hs' Hl].
  eapply wp_mono; [|by apply Hf]. intros y s'' [? ?]. split; [done|lia].
Qed.

Lemma safe_reject {A} k code msg rc : safe (reject (A:=A) k code msg rc).
Proof. by intros s Hs. Qed.

Lemma safe_bad {A} msg : safe (bad (A:=A) msg).
Proof. by intros s Hs. Qed.

Lemma safe_alloc k size rc : safe (alloc k size rc).
Proof. intros s Hs. unfold wp, alloc. by destruct (sql_arena_alloc _ _) as [[] a]. Qed.

Lemma safe_alloc_stmt size : safe (alloc_stmt size).
Proof. intros s Hs. by apply safe_alloc. Qed.

Lemma wp_next Q s : alive s ->
  (forall k t, sql_tok_next (p_tokz s) = (k, t) -> live t -> (left_of t <= left_in s)%nat ->
     (tok k <> TOK_EOF -> (left_of t < left_in s)%nat) -> Q k (set_tokz s t)) ->
  wp next Q s.
Proof.
  intros Hs HQ. unfold wp, next. destruct (sql_tok_next (p_tokz s)) as [k t] eqn:E.
  destruct (live_next _ _ _ Hs E) as (H1 & H2 & H3 & H4 & H5 & H6). by apply HQ.
Qed.

Lemma wp_peek Q s : alive s ->
  (forall k t, live t -> tokz_peek t = Some k -> (left_of t <= left_in s)%nat -> Q k (set_tokz s t)) -> wp peek Q s.
Proof.
  intros Hs HQ. unfold wp, peek. destruct (sql_tok_peek (p_tokz s)) as [k t] eqn:E.
  destruct (live_peek _ _ _ Hs E) as (H1 & H2 & H3 & H4 & H5). by apply HQ.
Qed.

Lemma safe_next : safe next.
Proof. intros s Hs. apply wp_next; [done|]. by intros. Qed.

Lemma safe_peek : safe peek.
Proof. intros s Hs. apply wp_peek; [done|]. by intros. Qed.

Lemma safe_keep k : safe (keep k).
Proof. by intros s Hs. Qed.

Lemma safe_params_seen : safe params_seen.
Proof. by intros s Hs. Qed.
Lemma safe_fresh_param : safe fresh_param.
Proof. by intros s Hs. Qed.
Lemma safe_leave : safe leave.
Proof. by intros s Hs. Qed.
Lemma safe_enter k : safe (enter k).
Proof. intros s Hs. unfold wp, enter. by destruct (_ <? _)%nat. Qed.

Create HintDb safe.
#[local] Hint Resolve safe_ret safe_reject safe_bad safe_alloc safe_alloc_stmt safe_next safe_peek safe_keep
  safe_params_seen safe_fresh_param safe_leave safe_enter : safe.

Ltac safe_go := repeat first
  [ progress intros
  | solve [eauto with safe]
  | apply safe_bind
  | match goal with |- safe (match ?x with _ => _ end) => destruct x end
  | match goal with |- context [let '(_, _) := ?x in _] => destruct x end ].

(** ** Expressions *)

Lemma safe_is_num k neg : safe (is_num src k neg).
Proof. unfold is_num, alloc_expr, reject_expr. safe_go. Qed.
Lemma safe_is_string k : safe (is_string src k).
Proof. unfold is_string, alloc_expr. safe_go. Qed.
Lemma safe_is_blob k : safe (is_blob src k).
Proof. unfold is_blob, alloc_expr, reject_expr. safe_go. Qed.
Lemma safe_is_ident k : safe (is_ident src k).
Proof. unfold is_ident, alloc_expr, reject_expr. safe_go. Qed.
Lemma safe_is_param k : safe (is_param k).
Proof. unfold is_param, alloc_expr, reject_expr. safe_go. Qed.
Lemma safe_is_simple k l : safe (is_simple k l).
Proof. unfold is_simple, alloc_expr. safe_go. Qed.
Lemma safe_expect_in t msg : safe (expect_in t msg).
Proof. unfold expect_in, reject_expr. safe_go. Qed.
Lemma safe_is_test : safe is_test.
Proof. unfold is_test, reject_expr. pose proof safe_expect_in. safe_go. Qed.
Lemma safe_vec_lit_loop room k : safe (vec_lit_loop src room k).
Proof.
  revert k. induction room as [|room IH]; intros k; cbn [vec_lit_loop]; unfold vec_value, alloc_expr, reject_expr; safe_go.
Qed.
Lemma safe_is_vector_lit k : safe (is_vector_lit src k).
Proof. unfold is_vector_lit, alloc_expr. pose proof safe_vec_lit_loop. safe_go. Qed.
#[local] Hint Resolve safe_is_num safe_is_string safe_is_blob safe_is_ident safe_is_param safe_is_simple
  safe_expect_in safe_is_test safe_is_vector_lit : safe.

(** It ends with fewer than [n] characters left. *)
Definition below {A} (n : nat) (x : A) (s : pstate) : Prop := alive s /\ (left_in s < n)%nat.

Lemma wp_safe {A} (m : P A) s n : safe m -> alive s -> (left_in s < n)%nat -> wp m (below n) s.
Proof. intros Hm Hs Hn. eapply wp_mono; [|by apply Hm]. intros x s' [? ?]. split; [done|lia]. Qed.

Lemma wp_seq {A B} n (m : P A) (f : A -> P B) Q s : wp m (below n) s ->
  (forall x s', alive s' -> (left_in s' < n)%nat -> wp (f x) Q s') -> wp (m ≫= f) Q s.
Proof. intros Hm Hf. apply wp_bind. eapply wp_mono; [|exact Hm]. intros x s' [? ?]. by apply Hf. Qed.

(** The token a peek has seen is read and not the end. *)
Lemma wp_taken {A} (f : token -> P A) Q s k : alive s -> tokz_peek (p_tokz s) = Some k -> tok k <> TOK_EOF ->
  (forall s', alive s' -> (left_in s' < left_in s)%nat -> wp (f k) Q s') -> wp (next ≫= f) Q s.
Proof.
  intros Hs Hk Hne Hf. apply wp_bind, wp_next; [done|]. intros k' t E Ht Hl Hlt. unfold sql_tok_next in E. rewrite Hk in E.
  injection E as <- <-. apply Hf; [done|]. by apply Hlt.
Qed.

Lemma wp_nested {A} (m : P A) k n s : alive s ->
  (forall s', alive s' -> left_in s' = left_in s -> wp m (below n) s') -> wp (nested k m) (below n) s.
Proof.
  intros Hs Hm. unfold nested. apply wp_bind. unfold wp at 1. unfold enter. destruct (_ <? _)%nat; [done|].
  apply wp_bind. eapply wp_mono; [|by apply Hm]. intros x s' [? ?]. by apply wp_safe; [safe_go| |].
Qed.

Lemma wp_is_signed k neg s : alive s -> tokz_peek (p_tokz s) = Some k -> tok k <> TOK_EOF ->
  wp (is_signed src neg) (below (left_in s)) s.
Proof.
  intros Hs Hk Hne. unfold is_signed. eapply wp_taken; try done. intros s' Hs' Hl.
  apply wp_safe; [|done|done]. unfold reject_expr. safe_go.
Qed.

(** An expression takes at least a character, and its recursion three steps of
    fuel a character. *)
Lemma expressions_end fuel :
  (forall s, alive s -> (3 * left_in s + 1 <= fuel)%nat -> wp (parse_primary src fuel) (below (left_in s)) s) /\
  (forall p s, alive s -> (3 * left_in s + 2 <= fuel)%nat -> wp (parse_expr_prec src fuel p) (below (left_in s)) s) /\
  (forall p e s, alive s -> (3 * left_in s + 1 <= fuel)%nat -> wp (expr_loop src fuel p e) (below (S (left_in s))) s).
Proof.
  induction fuel as [|fuel (IHprim & IHprec & IHloop)]; [split_and!; intros; lia|].
  assert (Hbelow : forall A (m : P A) n n' s, (n <= n')%nat -> wp m (below n) s -> wp m (below n') s).
  { intros A m n n' s Hn. apply wp_mono. intros x s' [? ?]. split; [done|lia]. }
  assert (Hprec : forall k p n s, alive s -> (left_in s < n)%nat -> (3 * n <= fuel + 1)%nat ->
    wp (nested k (parse_expr_prec src fuel p)) (below n) s).
  { intros k p n s Hs Hn Hf. apply wp_nested; [done|]. intros s' Hs' E. eapply Hbelow; [|apply IHprec; [done|]]; lia. }
  assert (Hdist : forall (g : expr -> expr -> expr) n s, alive s -> (left_in s < n)%nat -> (3 * n <= fuel + 1)%nat ->
    wp (k ← expect_in TOK_LPAREN "expected '('"; l ← nested k (parse_expr_prec src fuel 1);
        k ← expect_in TOK_COMMA "expected ','"; r ← nested k (parse_expr_prec src fuel 1);
        k ← expect_in TOK_RPAREN "expected ')'"; alloc_expr k AST_EXPR_SIZE ;; mret (g l r)) (below n) s).
  { intros g n s Hs Hn Hf.
    apply (wp_seq n); [apply wp_safe; [safe_go|done|done]|]. intros k1 s1 Hs1 Hl1.
    apply (wp_seq n); [by apply Hprec|]. intros l s2 Hs2 Hl2.
    apply (wp_seq n); [apply wp_safe; [safe_go|done|done]|]. intros k2 s3 Hs3 Hl3.
    apply (wp_seq n); [by apply Hprec|]. intros r s4 Hs4 Hl4.
    apply wp_safe; [unfold alloc_expr; safe_go|done|done]. }
  split_and!.
  - intros s0 Hs0 Hf. cbn [parse_primary]. apply wp_bind, wp_peek; [done|]. intros k t Ht Hk Hl.
    set (s := set_tokz s0 t). assert (Hs : alive s) by done. change (left_of t) with (left_in s) in Hl.
    change (tokz_peek (p_tokz s) = Some k) in Hk.
    assert (Hleaf : forall (f : token -> P expr), tok k <> TOK_EOF -> safe (f k) -> wp (next ≫= f) (below (left_in s0)) s).
    { intros f Hne Hm. eapply wp_taken; try done. intros s' Hs' Hl'. apply wp_safe; [done|done|lia]. }
    destruct (tok k) eqn:Ek;
      try (apply Hleaf; [done|]; solve [safe_go]); try exact I;
      try (eapply Hbelow; [|eapply wp_is_signed; [done|exact Hk|by rewrite Ek]]; lia).
    + eapply wp_taken; [done|exact Hk|by rewrite Ek|]. intros s1 Hs1 Hl1.
      apply (wp_seq (left_in s0)); [apply Hprec; done || lia|]. intros e s2 Hs2 Hl2.
      apply wp_safe; [unfold alloc_expr; safe_go|done|done].
    + eapply wp_taken; [done|exact Hk|by rewrite Ek|]. intros s1 Hs1 Hl1. apply Hdist; done || lia.
    + eapply wp_taken; [done|exact Hk|by rewrite Ek|]. intros s1 Hs1 Hl1. apply Hdist; done || lia.
    + eapply wp_taken; [done|exact Hk|by rewrite Ek|]. intros s1 Hs1 Hl1.
      apply (wp_seq (left_in s0)); [apply Hprec; done || lia|]. intros e s2 Hs2 Hl2.
      apply wp_safe; [safe_go|done|done].
  - intros p s Hs Hf. cbn [parse_expr_prec]. apply (wp_seq (left_in s)); [apply IHprim; done || lia|].
    intros e s' Hs' Hl. eapply Hbelow; [|apply IHloop; [done|]]; lia.
  - intros p e s0 Hs0 Hf. cbn [expr_loop]. apply wp_bind, wp_peek; [done|]. intros k t Ht Hk Hl.
    set (s := set_tokz s0 t). assert (Hs : alive s) by done. change (left_of t) with (left_in s) in Hl.
    change (tokz_peek (p_tokz s) = Some k) in Hk.
    assert (Hstop : wp (mret e) (below (S (left_in s0))) s) by (split; [done|lia]).
    destruct (decide (tok k = TOK_IS)) as [Ek|].
    + destruct (4 <? p)%nat; [done|]. eapply wp_taken; [done|exact Hk|by rewrite Ek|]. intros s1 Hs1 Hl1.
      apply (wp_seq (left_in s0)); [apply wp_safe; [safe_go|done|lia]|]. intros [op k2] s2 Hs2 Hl2.
      apply (wp_seq (left_in s0)); [apply wp_safe; [unfold alloc_expr; safe_go|done|lia]|]. intros _ s3 Hs3 Hl3.
      eapply Hbelow; [|apply IHloop; [done|]]; lia.
    + destruct (infix (tok k)) as [[op prec]|] eqn:Ei; [|done]. destruct (prec <? p)%nat; [done|].
      eapply wp_taken; [done|exact Hk|by intros E; rewrite E in Ei|]. intros s1 Hs1 Hl1.
      apply (wp_seq (left_in s0)); [apply Hprec; done || lia|]. intros r s2 Hs2 Hl2.
      apply (wp_seq (left_in s0)); [apply wp_safe; [unfold alloc_expr; safe_go|done|lia]|]. intros _ s3 Hs3 Hl3.
      eapply Hbelow; [|apply IHloop; [done|]]; lia.
Qed.

(** ** Statements *)

Section statements.
Context (fuel : nat) (Hfuel : (3 * length src + 2 <= fuel)%nat).

Lemma left_in_le s : (left_in s <= length src)%nat.
Proof. unfold left_in, left_of. destruct (tokz_peek _); lia. Qed.

Lemma safe_below {A} (m : P A) : (forall s, alive s -> wp m (below (left_in s)) s) -> safe m.
Proof. intros H s Hs. eapply wp_mono; [|by apply H]. intros x s' [? ?]. split; [done|lia]. Qed.

Lemma safe_primary : safe (parse_primary src fuel).
Proof.
  apply safe_below. intros s Hs. apply expressions_end; [done|]. pose proof (left_in_le s). lia.
Qed.

Lemma safe_expr p : safe (parse_expr_prec src fuel p).
Proof.
  apply safe_below. intros s Hs. apply expressions_end; [done|]. pose proof (left_in_le s). lia.
Qed.
#[local] Hint Resolve safe_primary safe_expr : safe.

Lemma safe_take : safe take_token.
Proof. unfold take_token. safe_go. Qed.
Lemma safe_look : safe look_token.
Proof. unfold look_token. safe_go. Qed.
#[local] Hint Resolve safe_take safe_look : safe.

Lemma safe_expect t msg : safe (expect t msg).
Proof. unfold expect. safe_go. Qed.
Lemma safe_ident msg : safe (ident src msg).
Proof. unfold ident. safe_go. Qed.
Lemma safe_check_eof {A} (x : A) : safe (check_eof x).
Proof. unfold check_eof. safe_go. Qed.
Lemma safe_bad_syntax {A} : safe (bad_syntax (A:=A)).
Proof. apply safe_bad. Qed.
#[local] Hint Resolve safe_expect safe_ident safe_check_eof safe_bad_syntax : safe.
#[local] Hint Unfold expect_syntax table_name : safe.

Lemma safe_number : safe (number_literal src fuel).
Proof. unfold number_literal. safe_go. Qed.
#[local] Hint Resolve safe_number : safe.

Lemma safe_col_loop room : safe (col_loop src room).
Proof.
  induction room as [|room IH]; cbn [col_loop]; [safe_go|].
  unfold column_type, parse_vector_type_def, nullability. safe_go.
Qed.
Lemma safe_val_loop room : safe (val_loop src fuel room).
Proof. induction room as [|room IH]; cbn [val_loop]; safe_go. Qed.
#[local] Hint Resolve safe_val_loop safe_col_loop : safe.
Lemma safe_row_loop room : safe (row_loop src fuel room).
Proof. induction room as [|room IH]; cbn [row_loop]; safe_go. Qed.
Lemma safe_qualify n : safe (qualify src n).
Proof. unfold qualify. safe_go. Qed.
#[local] Hint Resolve safe_row_loop safe_qualify : safe.
Lemma safe_proj_loop room : safe (proj_loop src room).
Proof. induction room as [|room IH]; cbn [proj_loop]; safe_go. Qed.
Lemma safe_where : safe (where_clause src fuel).
Proof. unfold where_clause. safe_go. Qed.
Lemma safe_alias : safe (alias src).
Proof. unfold alias, table_name. safe_go. Qed.
#[local] Hint Resolve safe_proj_loop safe_where safe_alias : safe.
Lemma safe_projection : safe (select_projection src).
Proof. unfold select_projection, expect_syntax. safe_go. Qed.
Lemma safe_join : safe (select_join src fuel).
Proof. unfold select_join, select_join_table, expect_syntax, table_name. safe_go. Qed.
Lemma safe_order_by : safe (order_by src fuel).
Proof. unfold order_by, order_dist_op. safe_go. Qed.
#[local] Hint Resolve safe_projection safe_join safe_order_by : safe.
Lemma safe_order : safe (order_clause src fuel).
Proof. unfold order_clause, expect_syntax. safe_go. Qed.
Lemma safe_limit : safe (limit_clause src).
Proof. unfold limit_clause, limit_literal. safe_go. Qed.
#[local] Hint Resolve safe_order safe_limit : safe.

Ltac safe_statement := unfold expect_syntax, table_name; safe_go.

Lemma safe_select : safe (parse_select src fuel).
Proof. unfold parse_select. safe_statement. Qed.
Lemma safe_update : safe (parse_update src fuel).
Proof. unfold parse_update. safe_statement. Qed.
Lemma safe_delete : safe (parse_delete src fuel).
Proof. unfold parse_delete. safe_statement. Qed.
Lemma safe_create : safe (parse_create src).
Proof. unfold parse_create, parse_create_index, parse_named, parse_cursor_names, parse_create_table. safe_statement. Qed.
Lemma safe_drop : safe (parse_drop src).
Proof. unfold parse_drop, parse_named, parse_cursor_names. safe_statement. Qed.
Lemma safe_payload mk : safe (parse_payload_target src fuel mk).
Proof. unfold parse_payload_target. safe_statement. Qed.
Lemma safe_ticket : safe (parse_ticket src fuel).
Proof. unfold parse_ticket. safe_statement. Qed.
#[local] Hint Resolve safe_payload safe_ticket : safe.

Lemma safe_dispatch k : tok k <> TOK_INSERT -> safe (dispatch src fuel k).
Proof.
  intros Hne. unfold dispatch. pose proof safe_create. pose proof safe_drop. pose proof safe_select.
  pose proof safe_update. pose proof safe_delete.
  destruct (tok k); try done; try (by apply safe_bad);
    unfold parse_transaction, parse_enqueue, parse_append, parse_read, parse_trim, parse_dequeue, parse_named,
      parse_claim, parse_ack, parse_nack, parse_renew; safe_statement.
Qed.

Lemma safe_insert_values n : safe (
  expect TOK_VALUES "expected VALUES keyword" ;;
  alloc_stmt (256 * 8) ;;
  rows ← row_loop src fuel 256;
  check_eof (A_INSERT n (match rows with row :: _ => length row | [] => 0%nat end) rows)).
Proof. safe_go. Qed.

(** ** The column list *)

(** The tokens [t] will give, up to the end. *)
Fixpoint reads (t : tokenizer) (ks : list token) : Prop :=
  match ks with
  | [] => False
  | k :: ks' => exists t', sql_tok_next t = (k, t') /\ if decide (tok k = TOK_EOF) then ks' = [] else reads t' ks'
  end.

Lemma tokens_reads n t ks : tokens n t = Some ks -> reads t ks.
Proof.
  revert t ks. induction n as [|n IH]; intros t ks; [done|]. simpl. destruct (sql_tok_next t) as [k t'] eqn:E.
  destruct (decide (tok k = TOK_EOF)) as [He|He].
  - intros [= <-]. simpl. exists t'. by destruct (decide _).
  - destruct (tokens n t') as [ks'|] eqn:Et; [|done]. intros [= <-]. simpl. exists t'. split; [done|].
    destruct (decide _); [done|]. by apply IH.
Qed.

Lemma skip_hangs f s ks : alive s -> (reads (p_tokz s) ks /\ TOK_RPAREN ∉ map tok ks \/ left_in s = 0%nat) ->
  fst (insert_skip_cols f s) = Hangs.
Proof.
  revert s ks. induction f as [|f IH]; intros s ks Hs H; [done|].
  simpl. unfold take_token, next, keep, mbind, P_bind.
  destruct (sql_tok_next (p_tokz s)) as [k t] eqn:E. cbn [fst].
  destruct (live_next _ _ _ Hs E) as (H1 & H2 & H3 & H4 & H5 & H6).
  assert (Hend : left_in s = 0%nat -> tok k = TOK_EOF).
  { intros Hz. destruct (decide (tok k = TOK_EOF)) as [|Hne]; [done|]. specialize (H5 Hne). unfold left_in in Hz. lia. }
  destruct (decide (tok k = TOK_EOF)) as [He|He].
  - rewrite decide_False by (by rewrite He). apply (IH _ []); [done|]. right. by apply H6.
  - destruct H as [[Hr Hn]|Hz]; [|by specialize (Hend Hz)].
    destruct ks as [|k' ks]; [done|]. destruct Hr as (t' & E' & Hr). rewrite E in E'. injection E' as <- <-.
    rewrite decide_False in Hr by done. simpl in Hn. apply not_elem_of_cons in Hn as [Hn1 Hn2].
    rewrite decide_False by done. apply (IH _ ks); [done|]. by left.
Qed.

Lemma skip_ends f s ks : alive s -> reads (p_tokz s) ks -> TOK_RPAREN ∈ map tok ks -> (left_in s < f)%nat ->
  wp (insert_skip_cols f) (fun _ s' => alive s') s.
Proof.
  revert s ks. induction f as [|f IH]; intros s ks Hs Hr Hin Hf; [lia|].
  destruct ks as [|k ks]; [done|]. destruct Hr as (t & E & Hr).
  destruct (live_next _ _ _ Hs E) as (H1 & H2 & H3 & H4 & H5 & H6).
  simpl. apply wp_bind. unfold wp at 1. unfold take_token, next, keep, mbind, P_bind. rewrite E.
  destruct (decide (tok k = TOK_RPAREN)) as [Ek|Ek]; [done|].
  simpl in Hin. apply elem_of_cons in Hin as [Hin|Hin]; [done|].
  destruct (decide (tok k = TOK_EOF)) as [He|He]; [by subst; inversion Hin|].
  apply (IH _ ks); [done|done|done|]. specialize (H5 He).
  change (left_of t < f)%nat. unfold left_in in Hf. lia.
Qed.

(** INSERT INTO name ( without a closing parenthesis behind. *)
Definition unclosed (ks : list token) : bool :=
  match map tok ks with
  | TOK_INSERT :: TOK_INTO :: TOK_IDENT :: TOK_LPAREN :: ts => negb (bool_decide (TOK_RPAREN ∈ ts))
  | _ => false
  end.

Definition hangs_iff {A} (m : P A) (s : pstate) (b : bool) : Prop := fst (m s) = Hangs <-> b = true.

Lemma hangs_safe {A} (m : P A) s : safe m -> alive s -> hangs_iff m s false.
Proof.
  intros Hm Hs. specialize (Hm s Hs). unfold hangs_iff. split; [|done]. unfold wp in Hm.
  by destruct (m s) as [[x|rc e|] s'].
Qed.

(** The state behind a token read or looked at. *)
Definition behind (s : pstate) (k : token) (t : tokenizer) : pstate :=
  mk_pstate t (p_arena s) (p_params s) (p_depth s) k.

Lemma hangs_expect {A} ty msg (f : unit -> P A) s k t b : sql_tok_next (p_tokz s) = (k, t) ->
  (tok k = ty -> hangs_iff (f tt) (behind s k t) b) -> (tok k <> ty -> b = false) ->
  hangs_iff (expect ty msg ≫= f) s b.
Proof.
  unfold hangs_iff, expect, take_token, next, keep, mbind, P_bind. intros -> H1 H2.
  destruct (decide (tok k = ty)) as [E|E]; [by apply H1|]. rewrite (H2 E). done.
Qed.

Lemma hangs_ident {A} msg (f : name -> P A) s k t b : sql_tok_next (p_tokz s) = (k, t) ->
  (tok k = TOK_IDENT -> hangs_iff (f (token_text src k)) (behind s k t) b) -> (tok k <> TOK_IDENT -> b = false) ->
  hangs_iff (ident src msg ≫= f) s b.
Proof.
  unfold hangs_iff, ident, take_token, next, keep, mbind, P_bind. intros -> H1 H2.
  destruct (decide (tok k = TOK_IDENT)) as [E|E]; [by apply H1|]. rewrite (H2 E). done.
Qed.

Lemma hangs_look {A} (f : token -> P A) s k t b : sql_tok_peek (p_tokz s) = (k, t) ->
  hangs_iff (f k) (behind s k t) b -> hangs_iff (look_token ≫= f) s b.
Proof. unfold hangs_iff, look_token, peek, keep, mbind, P_bind. by intros ->. Qed.

(** The list, read up to what [f] goes on with. *)
Lemma hangs_columns {A} (f : unit -> P A) s k t ks : (forall x, safe (f x)) -> alive s ->
  sql_tok_next (p_tokz s) = (k, t) -> reads t ks ->
  hangs_iff (x ← (_ ← take_token; insert_skip_cols fuel); f x) s (negb (bool_decide (TOK_RPAREN ∈ map tok ks))).
Proof.
  intros Hf Hs E Hr. destruct (live_next _ _ _ Hs E) as (Hl & _).
  unfold hangs_iff. unfold take_token, next, keep, mbind, P_bind. rewrite E. cbn [fst].
  set (s' := mk_pstate _ _ _ _ k). assert (Hs' : alive s') by done. pose proof (left_in_le s') as Hle.
  case_bool_decide as Hin; simpl.
  - pose proof (skip_ends fuel s' ks Hs' Hr Hin ltac:(lia)) as H. unfold wp in H.
    destruct (insert_skip_cols fuel s') as [[x|rc e|] s'']; try done. exact (hangs_safe _ _ (Hf x) H).
  - pose proof (skip_hangs fuel s' ks Hs' ltac:(by left)) as H.
    destruct (insert_skip_cols fuel s') as [[x|rc e|] s'']; done.
Qed.

Lemma insert_hangs s k1 ks : alive s -> reads (p_tokz s) ks -> tok k1 = TOK_INSERT ->
  hangs_iff (parse_insert src fuel) s (unclosed (k1 :: ks)).
Proof.
  intros Hs Hr Hk1. unfold unclosed. simpl map. rewrite Hk1.
  destruct ks as [|k2 ks]; [done|]. destruct Hr as (t2 & E2 & Hr). simpl map.
  destruct (live_next _ _ _ Hs E2) as (Hl2 & _).
  apply (hangs_expect _ _ _ _ k2 t2); [done| |by intros Hne; destruct (tok k2)].
  intros Hk2. rewrite Hk2 in *. simpl in Hr. destruct ks as [|k3 ks]; [done|]. destruct Hr as (t3 & E3 & Hr). simpl map.
  destruct (live_next _ _ _ Hl2 E3) as (Hl3 & _).
  apply (hangs_ident _ _ _ k3 t3); [done| |by intros Hne; destruct (tok k3)].
  intros Hk3. rewrite Hk3 in *. simpl in Hr. destruct ks as [|k4 ks]; [done|]. destruct Hr as (t4 & E4 & Hr). simpl map.
  destruct (sql_tok_peek t3) as [k tp] eqn:Ep. destruct (live_peek _ _ _ Hl3 Ep) as (Hlp & Hpk & _ & _ & En).
  assert (k = k4) as ->. { rewrite E4 in En. unfold sql_tok_next in En. rewrite Hpk in En. by injection En. }
  apply (hangs_look _ _ k4 tp); [done|]. destruct (decide (tok k4 = TOK_LPAREN)) as [Hk4|Hk4].
  - rewrite Hk4 in *. simpl in Hr. apply (hangs_columns _ _ k4 t4); [intros; apply safe_insert_values|done|by rewrite <- E4|done].
  - replace (match tok k4 with TOK_LPAREN => _ | _ => false end) with false by (by destruct (tok k4)).
    apply hangs_safe; [|done]. apply (safe_insert_values (token_text src k3)).
Qed.

End statements.

(** C25: the parser answers every text but one kind.  Given fuel for three steps a
    character, and an arena that holds the statement header, [sql_parse] comes to
    a statement or a refusal on every text, except on one whose tokens begin
    INSERT INTO name ( and have no closing parenthesis behind: there the loop over
    the column list does not stop at the end of the text, and never ends. *)
Theorem parser_answers fuel a k0 ks : (3 * length src + 2 <= fuel)%nat -> 0 <= arena_used a -> arena_cap a < 2 ^ 64 ->
  tokens (S (length src)) (sql_tok_init src) = Some ks ->
  fst (sql_parse fuel src a k0) = Hangs <-> arena_used a + 128 <= arena_cap a /\ unclosed ks = true.
Proof.
  intros Hf Hu Hc Hk. apply tokens_reads in Hk. unfold sql_parse.
  transitivity (fst (parse_statement src fuel (mk_pstate (sql_tok_init src) a 0 0 k0)) = Hangs).
  { destruct (parse_statement _ _ _) as [[x|rc e|] s']; done. }
  unfold parse_statement, alloc_stmt, alloc. unfold mbind at 1 2, P_bind at 1 2. cbn [p_arena p_last p_tokz p_params p_depth].
  assert (Halloc : forall b n, 0 <= arena_used b -> arena_cap b < 2 ^ 64 -> (n = 24 \/ n = 104) ->
    sql_arena_alloc b n = if decide (arena_used b + n <= arena_cap b)
      then (true, mk_arena (arena_used b + n) (arena_cap b) (arena_failed b))
      else (false, mk_arena (arena_used b) (arena_cap b) true)).
  { intros b n Hb1 Hb2 Hn. unfold sql_arena_alloc.
    replace (8 * ((n + 7) / 8)) with n by (by destruct Hn as [-> | ->]).
    replace (2 ^ 64 <=? n + 7) with false by (by destruct Hn as [-> | ->]).
    destruct (decide _); destruct (2 ^ 64 <=? arena_used b + n) eqn:E1; destruct (arena_cap b <? arena_used b + n) eqn:E2; done || lia. }
  unfold AST_STMT_SIZE, AST_STMT_PAYLOAD_SIZE. rewrite Halloc by auto.
  destruct (decide (arena_used a + 24 <= arena_cap a)) as [H1|H1]; [|split; [done|lia]]. cbn [p_arena p_last p_tokz p_params p_depth].
  rewrite Halloc by (simpl; auto; lia). cbn [arena_used arena_cap arena_failed].
  destruct (decide (arena_used a + 24 + 104 <= arena_cap a)) as [H2|H2]; [|split; [done|lia]].
  transitivity (unclosed ks = true); [|split; [split; [lia|done]|tauto]].
  set (s := mk_pstate _ _ _ _ _).
  assert (Hs : alive s) by (split_and!; [done|simpl; lia|done]).
  destruct ks as [|k1 ks]; [done|]. destruct Hk as (t1 & E1 & Hr). destruct (live_next _ _ _ Hs E1) as (Hl1 & _).
  unfold take_token, next, keep, mbind, P_bind. change (p_tokz s) with (sql_tok_init src). rewrite E1.
  set (s' := mk_pstate _ _ _ _ k1). destruct (decide (tok k1 = TOK_INSERT)) as [Hi|Hi].
  - unfold dispatch. rewrite Hi in *. by apply insert_hangs.
  - replace (unclosed (k1 :: ks)) with false by (unfold unclosed; simpl map; by destruct (tok k1)).
    by apply hangs_safe; [apply safe_dispatch|].
Qed.

End total.

Lemma parser_answers_witness :
  let sql := list_ascii_of_string "INSERT INTO t (a, b VALUES (1, 2;" in
  fst (sql_parse 101 sql (sql_arena_init 65536) no_token) = Hangs /\
  exists ks, tokens 34 (sql_tok_init sql) = Some ks /\ unclosed ks = true.
Proof.
  split; [|eexists; split; [vm_compute; reflexivity|vm_compute; reflexivity]].
  eapply (parser_answers (list_ascii_of_string "INSERT INTO t (a, b VALUES (1, 2;") 101 (sql_arena_init 65536));
    [vm_compute; lia|vm_compute; discriminate|vm_compute; reflexivity|vm_compute; reflexivity|].
  split; [vm_compute; discriminate|vm_compute; reflexivity].
Defined.
