(* ===== verification/SqlPrint.v ===== *)
(** * SqlPrint: what the parser reads is what was written

    A printer for statements and the proof that [Parser.sql_parse] reads its text
    back: every kind of statement, expressions with the parentheses their
    precedence asks for and no others, strings with quotes in them, blobs,
    numbers, placeholders.  Every word of the text is followed by a space.
    FLOAT32 and vector literals are left to [DecimalFloat]. *)

From S2P Require Import Tokenizer DecimalFloat Parser Prelude.

Open Scope Z_scope.

(** ** Words *)

(** A token to be: its type and its characters. *)
Definition item : Type := tok_type * list ascii.

Definition chars (s : string) : list ascii := list_ascii_of_string s.

Definition text (its : list item) : list ascii := flat_map (fun '(_, w) => w ++ [" "%char]) its.

(** The first character starts a token, and the token ends at the space. *)
Definition lexes (i : item) : Prop :=
  match i with
  | (ty, c :: l) => (ty <> TOK_ERROR /\ c <> LF /\ blank c = false /\ (c = "-"%char -> l = [])) /\
      forall tl line col, exists line' col',
        lex_token c (l ++ " "%char :: tl) line col = (ty, S (length l), line', col')
  | (_, []) => False
  end.

Lemma span_app p l c tl : forallb p l = true -> p c = false -> span p (l ++ c :: tl) = length l.
Proof. intros Hl Hc. induction l as [|d l IH]; simpl in *; [by rewrite Hc|]. apply andb_true_iff in Hl as [-> Hl]. by rewrite IH. Qed.

(** A property of characters, by looking at all of them. *)
Definition every_char (p : ascii -> bool) : bool :=
  forallb (fun n => p (ascii_of_nat n)) (seq 0 256).

Lemma every_char_spec p c : every_char p = true -> p c = true.
Proof.
  unfold every_char. rewrite forallb_forall. intros H. rewrite <- (ascii_nat_embedding c). apply H, in_seq.
  pose proof (nat_ascii_bounded c). lia.
Qed.

Definition ident_start (c : ascii) : bool := (c =? "_")%char || letter c.

(** What starts a name starts nothing else. *)
Lemma ident_start_spec c : ident_start c = true ->
  punctuation c = None /\ (c =? "!")%char = false /\ (c =? "<")%char = false /\ (c =? ">")%char = false /\
  (c =? "-")%char = false /\ (c =? LF)%char = false /\ blank c = false.
Proof.
  intros Hc.
  pose proof (every_char_spec (fun c => implb (ident_start c)
    (match punctuation c with None => true | _ => false end && negb ((c =? "!") || (c =? "<") || (c =? ">") || (c =? "-") || (c =? LF))%char
     && negb (blank c))) c ltac:(vm_compute; reflexivity)) as H.
  cbv beta in H. rewrite Hc in H. simpl in H. apply andb_true_iff in H as [H Hb]. apply andb_true_iff in H as [Hp H].
  rewrite negb_true_iff in H, Hb. rewrite !orb_false_iff in H. destruct (punctuation c); [done|]. tauto.
Qed.

Lemma digit_spec c : digit c = true ->
  punctuation c = None /\ (c =? "!")%char = false /\ (c =? "<")%char = false /\ (c =? ">")%char = false /\
  (c =? "-")%char = false /\ (c =? LF)%char = false /\ blank c = false /\
  ((c =? "X") || (c =? "x"))%char = false /\ ident_start c = false.
Proof.
  intros Hc.
  pose proof (every_char_spec (fun c => implb (digit c)
    (match punctuation c with None => true | _ => false end
     && negb ((c =? "!") || (c =? "<") || (c =? ">") || (c =? "-") || (c =? LF))%char
     && negb (blank c) && negb ((c =? "X") || (c =? "x"))%char && negb (ident_start c))) c ltac:(vm_compute; reflexivity)) as H.
  cbv beta in H. rewrite Hc in H. simpl in H. rewrite !andb_true_iff, !negb_true_iff, !orb_false_iff in H.
  destruct (punctuation c); [by destruct H as [[[[? ?] ?] ?] ?]|]. rewrite orb_false_iff. tauto.
Qed.

Lemma not_quote_ident c : ident_char c = true -> (c =? "'")%char = false.
Proof.
  intros Hc. pose proof (every_char_spec (fun c => implb (ident_char c) (negb (c =? "'")%char)) c ltac:(vm_compute; reflexivity)) as H.
  cbv beta in H. rewrite Hc in H. simpl in H. by apply negb_true_iff in H.
Qed.

(** Names and keywords. *)
Definition wordlike (w : list ascii) : bool :=
  match w with c :: l => ident_start c && forallb ident_char l | [] => false end.

Lemma keyword_type w : In (keyword w) (TOK_IDENT :: map snd kw_table_entries).
Proof.
  unfold keyword. destruct (find _ _) as [[kw t]|] eqn:E; [|by left]. right. apply find_some in E as [E _].
  by apply (in_map snd) in E.
Qed.

Lemma keyword_no_error w : keyword w <> TOK_ERROR.
Proof. intros E. pose proof (keyword_type w) as Hk. rewrite E in Hk. revert Hk. vm_compute. intuition discriminate. Qed.

Lemma lexes_word w : wordlike w = true -> lexes (keyword w, w).
Proof.
  destruct w as [|c l]; [done|]. cbn [wordlike lexes]. intros H. apply andb_true_iff in H as [Hc Hl].
  destruct (ident_start_spec c Hc) as (Hp & H1 & H2 & H3 & H4 & H5 & H6). split.
  { split_and!; [apply keyword_no_error|by intros ->|done|intros ->; done]. }
  intros tl line col. unfold lex_token. rewrite Hp, H1, H2, H3, H4.
  rewrite (span_app ident_char l " "%char tl) by done.
  assert (Ht : take (S (length l)) (c :: l ++ " "%char :: tl) = c :: l) by (simpl; by rewrite take_app_length).
  assert (Hid : ident_char " " = false) by done.
  unfold ident_start in Hc. rewrite Hc.
  destruct ((c =? "X") || (c =? "x"))%char; [|rewrite Ht; eauto].
  destruct (l ++ " "%char :: tl) as [|d l'] eqn:E; [by destruct l|]. rewrite Ht.
  destruct (d =? "'")%char eqn:Ed; [|eauto]. apply Ascii.eqb_eq in Ed as ->. exfalso.
  destruct l as [|e l]; simpl in E; injection E as E1 E2; [done|]. subst e. done.
Qed.

Lemma lexes_digits w : w <> [] -> forallb digit w = true -> lexes (TOK_INT_LIT, w).
Proof.
  destruct w as [|c l]; [done|]. intros _ H. simpl in H. apply andb_true_iff in H as [Hc Hl].
  destruct (digit_spec c Hc) as (Hp & H1 & H2 & H3 & H4 & H5 & H6 & H7 & H8). split.
  { split_and!; [done|by intros ->|done|intros ->; done]. }
  intros tl line col. unfold lex_token. rewrite Hp, H1, H2, H3, H4, H7. unfold ident_start in H8. rewrite H8, Hc.
  unfold lex_number. rewrite (span_app digit l " "%char tl) by done. rewrite drop_app_length.
  assert (E : (" " =? ".")%char = false) by done. destruct tl as [|d tl]; [eauto|]. rewrite E. simpl. eauto.
Qed.

(** A quote inside a string is written twice. *)
Fixpoint escape (l : list ascii) : list ascii :=
  match l with
  | [] => []
  | c :: l' => if (c =? "'")%char then c :: c :: escape l' else c :: escape l'
  end.

Lemma lex_escaped l tl line col : exists line' col',
  lex_string (escape l ++ "'"%char :: " "%char :: tl) line col = (true, S (length (escape l)), line', col').
Proof.
  revert line col. induction l as [|c l IH]; intros line col; [simpl; eauto|]. simpl.
  destruct (c =? "'")%char eqn:E; simpl; rewrite E.
  - destruct (IH line (u32 (col + 2))) as (l' & c' & ->). eauto.
  - destruct (if (c =? LF)%char then _ else _) as [l0 c0]. destruct (IH l0 (u32 (c0 + 1))) as (l' & c' & ->). eauto.
Qed.

Lemma escape_none l : forallb (fun c => negb (c =? "'")%char) l = true -> escape l = l.
Proof.
  induction l as [|c l IH]; [done|]. simpl. intros H. apply andb_true_iff in H as [Hc Hl].
  apply negb_true_iff in Hc. by rewrite Hc, IH.
Qed.

Definition quoted (l : list ascii) : list ascii := "'"%char :: escape l ++ ["'"%char].

Lemma lexes_string l : lexes (TOK_STRING_LIT, quoted l).
Proof.
  unfold quoted. split; [done|]. intros tl line col. rewrite <- app_assoc. simpl app.
  change (lex_token "'" ?x line col) with
    (let '(ok, n, line, col) := lex_string x line (u32 (col + Z.of_nat 1)) in
     (if ok then TOK_STRING_LIT else TOK_ERROR, (1 + n)%nat, line, col)).
  destruct (lex_escaped l tl line (u32 (col + Z.of_nat 1))) as (l' & c' & ->).
  rewrite length_app. simpl. rewrite Nat.add_1_r. eauto.
Qed.

Definition hex_digit (n : Z) : ascii :=
  nth (Z.to_nat n) (list_ascii_of_string "0123456789abcdef") "0"%char.

Definition hex (l : list ascii) : list ascii :=
  flat_map (fun c => [hex_digit (code c / 16); hex_digit (code c mod 16)]) l.

Definition hexed (l : list ascii) : list ascii := "x"%char :: "'"%char :: hex l ++ ["'"%char].

Definition hex_ok (c : ascii) : bool :=
  bool_decide (hex_nibble (hex_digit (code c / 16)) = Some (code c / 16)) &&
  bool_decide (hex_nibble (hex_digit (code c mod 16)) = Some (code c mod 16)) &&
  negb ((hex_digit (code c / 16) =? "'")%char || (hex_digit (code c mod 16) =? "'")%char) &&
  (ascii_of_nat (Z.to_nat (Z.lor (Z.shiftl (code c / 16) 4) (code c mod 16))) =? c)%char.

Lemma hex_byte c :
  (hex_nibble (hex_digit (code c / 16)) = Some (code c / 16) /\ hex_nibble (hex_digit (code c mod 16)) = Some (code c mod 16)) /\
  ((hex_digit (code c / 16) =? "'")%char = false /\ (hex_digit (code c mod 16) =? "'")%char = false) /\
  ascii_of_nat (Z.to_nat (Z.lor (Z.shiftl (code c / 16) 4) (code c mod 16))) = c.
Proof.
  pose proof (every_char_spec hex_ok c ltac:(vm_compute; reflexivity)) as H.
  unfold hex_ok in H. rewrite !andb_true_iff, negb_true_iff, orb_false_iff, !bool_decide_eq_true, Ascii.eqb_eq in H. tauto.
Qed.

Lemma blob_decode_hex l : blob_decode (hex l) = Some l.
Proof.
  induction l as [|c l IH]; [done|]. simpl. destruct (hex_byte c) as ((-> & ->) & _ & Hc). simpl.
  fold (hex l). rewrite IH. simpl. by rewrite Hc.
Qed.

Lemma hex_no_quote l : escape (hex l) = hex l.
Proof.
  apply escape_none. induction l as [|c l IH]; [done|]. simpl. destruct (hex_byte c) as (_ & (-> & ->) & _). exact IH.
Qed.

Lemma length_hex l : length (hex l) = (2 * length l)%nat.
Proof. induction l as [|c l IH]; [done|]. simpl. fold (hex l). lia. Qed.

Lemma lexes_blob l : lexes (TOK_BLOB_LIT, hexed l).
Proof.
  unfold hexed. split; [done|]. intros tl line col. simpl app. rewrite <- app_assoc. simpl app.
  change (lex_token "x" ("'"%char :: ?x) line col) with
    (let '(ok, n, line, col) := lex_string x line (u32 (col + Z.of_nat 2)) in
     (if ok then TOK_BLOB_LIT else TOK_ERROR, (2 + n)%nat, line, col)).
  destruct (lex_escaped (hex l) tl line (u32 (col + Z.of_nat 2))) as (l' & c' & E). rewrite hex_no_quote in E. rewrite E.
  simpl. rewrite length_app. simpl. rewrite Nat.add_1_r. eauto.
Qed.

Lemma string_decode_escape l : string_decode (escape l) = l.
Proof. induction l as [|c l IH]; [done|]. simpl. destruct (c =? "'")%char eqn:E; simpl; rewrite E; by rewrite IH. Qed.

(** *** Numbers *)

Fixpoint decimal (fuel : nat) (v : Z) : list ascii :=
  match fuel with
  | O => []
  | S fuel' => (if v <? 10 then [] else decimal fuel' (v / 10)) ++ [ascii_of_nat (Z.to_nat (48 + v mod 10))]
  end.

Definition show (v : Z) : list ascii := decimal 20 v.

Lemma show_digit d : 0 <= d < 10 -> digit (ascii_of_nat (Z.to_nat (48 + d))) = true /\
  code (ascii_of_nat (Z.to_nat (48 + d))) - code "0" = d.
Proof.
  intros Hd. assert (H : d = 0 \/ d = 1 \/ d = 2 \/ d = 3 \/ d = 4 \/ d = 5 \/ d = 6 \/ d = 7 \/ d = 8 \/ d = 9) by lia.
  by repeat destruct H as [->|H]; [..|subst].
Qed.

Lemma decimal_spec fuel v : (0 < fuel)%nat -> 0 <= v < 10 ^ Z.of_nat fuel ->
  decimal fuel v <> [] /\ forallb digit (decimal fuel v) = true /\ digits_value (decimal fuel v) = v.
Proof.
  revert v. induction fuel as [|fuel IH]; intros v Hf Hv; [lia|]. cbn [decimal].
  assert (Hm : 0 <= v mod 10 < 10) by (apply Z.mod_pos_bound; lia).
  destruct (show_digit _ Hm) as [Hd Hc]. split; [by destruct (if _ <? _ then _ else _)|].
  unfold digits_value. rewrite forallb_app, fold_left_app. cbn [forallb fold_left]. rewrite Hd, Hc.
  destruct (v <? 10) eqn:E.
  - apply Z.ltb_lt in E. simpl. rewrite Z.mod_small by lia. done.
  - apply Z.ltb_ge in E. rewrite Nat2Z.inj_succ, Z.pow_succ_r in Hv by lia.
    assert (Hdiv : 1 <= v / 10 < 10 ^ Z.of_nat fuel).
    { split; [apply Z.div_le_lower_bound; lia|apply Z.div_lt_upper_bound; lia]. }
    destruct (IH (v / 10)) as (_ & H1 & H2); [|lia|].
    { destruct fuel; [simpl in Hdiv; lia|lia]. }
    unfold digits_value in H2. rewrite H1, H2. split; [done|]. pose proof (Z.div_mod v 10 ltac:(lia)). lia.
Qed.

Lemma show_spec v : 0 <= v < 2 ^ 64 -> show v <> [] /\ forallb digit (show v) = true /\ digits_value (show v) = v.
Proof.
  intros Hv. apply decimal_spec; [lia|]. split; [lia|]. eapply Z.lt_le_trans; [apply Hv|]. vm_compute. discriminate.
Qed.

Lemma fold_digits_ge l x : forallb digit l = true -> 0 <= x ->
  x <= fold_left (fun x c => 10 * x + (code c - code "0")) l x.
Proof.
  revert x. induction l as [|d l IH]; intros x Hl Hx; [simpl; lia|]. simpl in *. apply andb_true_iff in Hl as [Hd Hl].
  pose proof (digit_range _ Hd). etransitivity; [|apply IH; [done|lia]]. lia.
Qed.

Lemma int_loop_value l acc : forallb digit l = true -> 0 <= acc ->
  fold_left (fun x c => 10 * x + (code c - code "0")) l acc < 2 ^ 64 ->
  int_loop acc l = inr (fold_left (fun x c => 10 * x + (code c - code "0")) l acc).
Proof.
  revert acc. induction l as [|c l IH]; intros acc Hl Ha Hv; [done|]. simpl in *. apply andb_true_iff in Hl as [Hc Hl].
  rewrite Hc. simpl. pose proof (digit_range _ Hc) as Hr.
  pose proof (fold_digits_ge l (10 * acc + (code c - code "0")) Hl ltac:(lia)) as Hm.
  replace (acc * 10) with (10 * acc) by lia.
  destruct (2 ^ 64 <=? 10 * acc) eqn:E1; [lia|].
  destruct (2 ^ 64 <=? 10 * acc + (code c - code "0")) eqn:E2; [lia|]. apply IH; [done|lia|done].
Qed.

(** A number, its sign apart, is read back, with leading zeros or without. *)
Lemma parse_integer_digits w neg : w <> [] -> forallb digit w = true ->
  digits_value w < 2 ^ 63 \/ neg = true /\ digits_value w = 2 ^ 63 ->
  parse_integer w neg = inr (if neg then - digits_value w else digits_value w).
Proof.
  intros Hne Hd Hb. set (v := digits_value w) in *.
  assert (Hl : int_loop 0 w = inr v).
  { rewrite int_loop_value; [done|done|lia|]. fold (digits_value w). lia. }
  unfold parse_integer. destruct w as [|c l]; [done|].
  simpl in Hd. apply andb_true_iff in Hd as [Hc _].
  destruct (c =? "-")%char eqn:E1; [apply Ascii.eqb_eq in E1 as ->; done|].
  destruct (c =? "+")%char eqn:E2; [apply Ascii.eqb_eq in E2 as ->; done|].
  unfold int_signed. rewrite Hl. destruct neg.
  - destruct (2 ^ 63 <? v) eqn:E3; [lia|done].
  - destruct (2 ^ 63 <=? v) eqn:E3; [lia|done].
Qed.

(** ** Printing expressions *)

Definition tk (ty : tok_type) (s : string) : item := (ty, chars s).

Definition number_items (v : Z) : list item :=
  if v <? 0 then [tk TOK_MINUS "-"; (TOK_INT_LIT, show (- v))] else [(TOK_INT_LIT, show v)].

Definition literal_items (l : literal) : list item :=
  match l with
  | L_INT64 v => number_items v
  | L_TEXT b => [(TOK_STRING_LIT, quoted b)]
  | L_BLOB b => [(TOK_BLOB_LIT, hexed b)]
  | L_BOOL true => [tk TOK_TRUE "TRUE"]
  | L_BOOL false => [tk TOK_FALSE "FALSE"]
  | L_NULL => [tk TOK_NULL "NULL"]
  | L_FLOAT32 _ | L_VECTOR _ => []
  end.

Definition qualified_items (c : qualified) : list item :=
  match c with
  | (None, c) => [(TOK_IDENT, c)]
  | (Some q, c) => [(TOK_IDENT, q); tk TOK_DOT "."; (TOK_IDENT, c)]
  end.

(** An operator's precedence, if it stands between its operands, and its word. *)
Definition precedence (op : binop) : option nat :=
  match op with
  | OP_OR => Some 1%nat
  | OP_AND => Some 2%nat
  | OP_EQ | OP_NEQ | OP_LT | OP_LTE | OP_GT | OP_GTE => Some 3%nat
  | OP_L2_DISTANCE | OP_COSINE_DISTANCE => None
  end.

Definition op_item (op : binop) : item :=
  match op with
  | OP_OR => tk TOK_OR "OR"
  | OP_AND => tk TOK_AND "AND"
  | OP_EQ => tk TOK_EQ "="
  | OP_NEQ => tk TOK_NEQ "<>"
  | OP_LT => tk TOK_LT "<"
  | OP_LTE => tk TOK_LTE "<="
  | OP_GT => tk TOK_GT ">"
  | OP_GTE => tk TOK_GTE ">="
  | OP_L2_DISTANCE => tk TOK_L2_DISTANCE "L2_DISTANCE"
  | OP_COSINE_DISTANCE => tk TOK_COSINE_DISTANCE "COSINE_DISTANCE"
  end.

(** How tightly an expression holds together: 5 is a primary.  A NOT reaches to
    the next AND or OR. *)
Definition level (e : expr) : nat :=
  match e with
  | E_UNARY OP_NOT _ => 2
  | E_UNARY _ _ => 4
  | E_BINARY op _ _ => match precedence op with Some q => q | None => 5 end
  | _ => 5
  end.

Definition parens (b : bool) (its : list item) : list item :=
  if b then tk TOK_LPAREN "(" :: its ++ [tk TOK_RPAREN ")"] else its.

Fixpoint body (e : expr) : list item :=
  match e with
  | E_LITERAL l => literal_items l
  | E_COLUMN q c => qualified_items (q, c)
  | E_PARAM _ => [tk TOK_PARAM "?"]
  | E_UNARY OP_NOT e => tk TOK_NOT "NOT" :: parens (level e <? 3)%nat (body e)
  | E_UNARY OP_IS_NULL e => parens (level e <? 4)%nat (body e) ++ [tk TOK_IS "IS"; tk TOK_NULL "NULL"]
  | E_UNARY OP_IS_NOT_NULL e =>
      parens (level e <? 4)%nat (body e) ++ [tk TOK_IS "IS"; tk TOK_NOT "NOT"; tk TOK_NULL "NULL"]
  | E_BINARY op l r =>
      match precedence op with
      | Some q => parens (level l <? q)%nat (body l) ++ op_item op :: parens (level r <? S q)%nat (body r)
      | None => op_item op :: tk TOK_LPAREN "(" :: body l ++ tk TOK_COMMA "," :: body r ++ [tk TOK_RPAREN ")"]
      end
  end.

(** The words of [e] where an expression of level [p] is needed. *)
Definition at_level (p : nat) (e : expr) : list item := parens (level e <? p)%nat (body e).

Definition is_name (w : name) : Prop := wordlike w = true /\ keyword w = TOK_IDENT.

Definition printable_literal (l : literal) : Prop :=
  match l with
  | L_INT64 v => - 2 ^ 63 <= v < 2 ^ 63
  | L_FLOAT32 _ | L_VECTOR _ => False
  | _ => True
  end.

Definition printable_name (c : qualified) : Prop :=
  match fst c with Some q => is_name q | None => True end /\ is_name (snd c).

(** Placeholders count from [n]. *)
Fixpoint params (e : expr) : nat :=
  match e with
  | E_PARAM _ => 1
  | E_UNARY _ e => params e
  | E_BINARY _ l r => params l + params r
  | _ => 0
  end.

Fixpoint printable (n : nat) (e : expr) : Prop :=
  match e with
  | E_LITERAL l => printable_literal l
  | E_COLUMN q c => printable_name (q, c)
  | E_PARAM i => i = n /\ (n < 64)%nat
  | E_UNARY _ e => printable n e
  | E_BINARY _ l r => printable n l /\ printable (n + params l) r
  end.

(** The nesting, the bytes of the arena and the fuel an expression takes. *)
Definition parens_nest (b : bool) (d : nat) : nat := if b then S d else d.

Fixpoint nest (e : expr) : nat :=
  match e with
  | E_UNARY OP_NOT e => S (parens_nest (level e <? 3)%nat (nest e))
  | E_UNARY _ e => parens_nest (level e <? 4)%nat (nest e)
  | E_BINARY op l r =>
      match precedence op with
      | Some q => Nat.max (parens_nest (level l <? q)%nat (nest l)) (S (parens_nest (level r <? S q)%nat (nest r)))
      | None => S (Nat.max (nest l) (nest r))
      end
  | _ => 0
  end.

Definition round8 (size : Z) : Z := 8 * ((size + 7) / 8).

Fixpoint expr_bytes (e : expr) : Z :=
  match e with
  | E_LITERAL (L_TEXT b) => 64 + round8 (Z.of_nat (length (escape b)) + 1)
  | E_LITERAL (L_BLOB b) => 64 + round8 (Z.of_nat (length b) + 1)
  | E_UNARY _ e => expr_bytes e + 64
  | E_BINARY _ l r => expr_bytes l + expr_bytes r + 64
  | _ => 64
  end.

Fixpoint steps (e : expr) : nat :=
  match e with
  | E_UNARY _ e => steps e + 6
  | E_BINARY _ l r => steps l + steps r + 9
  | _ => 2
  end.

Lemma round8_bounds size : size <= round8 size < size + 8.
Proof. unfold round8. pose proof (Z.div_mod (size + 7) 8 ltac:(lia)). pose proof (Z.mod_pos_bound (size + 7) 8 ltac:(lia)). lia. Qed.

Lemma bytes_pos e : 64 <= expr_bytes e.
Proof.
  induction e as [l| | |op e IH|op l IHl r IHr]; simpl; try lia.
  destruct l as [| |b|b| | |]; try lia; pose proof (round8_bounds (Z.of_nat (length (escape b)) + 1));
    pose proof (round8_bounds (Z.of_nat (length b) + 1)); lia.
Qed.

Lemma level_pos e : (1 <= level e <= 5)%nat.
Proof. destruct e as [| | |[] ?|[] ? ?]; simpl; lia. Qed.

(** ** The lexer delivers the words *)

(** A word written [w'] where [w] is meant: names and literals are themselves, a
    number may have leading zeros, and of a keyword or a sign only the type counts. *)
Definition reads_as (ty : tok_type) (w w' : list ascii) : Prop :=
  match ty with
  | TOK_IDENT | TOK_STRING_LIT | TOK_BLOB_LIT | TOK_FLOAT_LIT => w' = w
  | TOK_INT_LIT => (w' <> [] /\ forallb digit w' = true) /\ digits_value w' = digits_value w
  | _ => True
  end.

Section deliver.
Context (src : list ascii).

(** The token [k] is the word [i]; without a word it is the end. *)
Definition stands_for (k : token) (its : list item) : Prop :=
  match its with
  | [] => tok k = TOK_EOF
  | (ty, w) :: _ => tok k = ty /\ reads_as ty w (token_text src k) /\ tok_len k = length (token_text src k)
  end.

(** The words to come are [its], and then the text ends. *)
Fixpoint delivers (t : tokenizer) (its : list item) : Prop :=
  tokz_src t = src /\
  match its with
  | [] => drop (skip false (rest t) (tokz_line t) (tokz_col t)).1.1 (rest t) = []
  | _ :: its' => stands_for (lex_fresh t).1 its /\ delivers (lex_fresh t).2 its'
  end.

Definition ready (t : tokenizer) (its : list item) : Prop :=
  match tokz_peek t with
  | None => delivers t its
  | Some k => stands_for k its /\ delivers (mk_tokenizer (tokz_src t) (tokz_pos t) (tokz_line t) (tokz_col t) None) (tail its)
  end.

Lemma lex_fresh_frame t : tokz_src (lex_fresh t).2 = tokz_src t /\ tokz_peek (lex_fresh t).2 = None.
Proof.
  unfold lex_fresh. destruct (skip _ _ _ _) as [[n line] col]. destruct (drop _ _) as [|c l]; [done|].
  by destruct (lex_token _ _ _ _) as [[[ty len] line'] col'].
Qed.

Lemma lex_fresh_ready t its : delivers t its -> stands_for (lex_fresh t).1 its /\ delivers (lex_fresh t).2 (tail its).
Proof.
  destruct its as [|i its]; intros [Hs H]; [|done]. unfold lex_fresh. destruct (skip _ _ _ _) as [[n line] col]. simpl in H. rewrite H.
  split; [done|]. split; [done|]. unfold rest in *. cbn [snd tokz_src tokz_pos tokz_line tokz_col].
  rewrite <- drop_drop, H. done.
Qed.

Lemma next_ready t its : ready t its ->
  exists k t', sql_tok_next t = (k, t') /\ stands_for k its /\ ready t' (tail its).
Proof.
  unfold ready at 1, sql_tok_next. destruct (tokz_peek t) as [k|] eqn:E; intros Ht.
  - destruct Ht as [Hk Ht]. by do 2 eexists.
  - destruct (lex_fresh_ready t its Ht) as [Hk Hd]. pose proof (lex_fresh_frame t) as [_ Hp].
    destruct (lex_fresh t) as [k t']. do 2 eexists. split; [done|]. split; [done|]. unfold ready. cbn in Hp. by rewrite Hp.
Qed.

Lemma peek_ready t its : ready t its ->
  exists k t', sql_tok_peek t = (k, t') /\ stands_for k its /\ ready t' its.
Proof.
  unfold ready at 1, sql_tok_peek. destruct (tokz_peek t) as [k|] eqn:E; intros Ht.
  - destruct Ht as [Hk Ht]. do 2 eexists. split; [done|]. split; [done|]. unfold ready. by rewrite E.
  - destruct (lex_fresh_ready t its Ht) as [Hk Hd]. pose proof (lex_fresh_frame t) as [_ Hp].
    destruct (lex_fresh t) as [k t']. do 2 eexists. split; [done|]. split; [done|]. split; [done|].
    destruct t'. simpl in *. by subst.
Qed.

(** ** Running the parser over words *)

Context (cap : Z) (Hcap : cap < 2 ^ 64).

(** Words to come, bytes of the arena used, placeholders and nesting. *)
Definition holds (s : pstate) (its : list item) (u : Z) (n d : nat) : Prop :=
  ready (p_tokz s) its /\ p_arena s = mk_arena u cap false /\ p_params s = n /\ p_depth s = d.

(** The parser succeeds, and what it then says of the result holds. *)
Definition runs {A} (m : P A) (its : list item) (u : Z) (n d : nat) (Q : A -> list item -> Z -> nat -> Prop) : Prop :=
  forall s, holds s its u n d ->
  exists x s' its' u' n', m s = (Parsed x, s') /\ holds s' its' u' n' d /\ Q x its' u' n'.

Lemma runs_ret {A} (x : A) its u n d (Q : A -> list item -> Z -> nat -> Prop) : Q x its u n -> runs (mret x) its u n d Q.
Proof. intros HQ s Hs. do 5 eexists. by split_and!. Qed.

Lemma runs_bind {A B} (m : P A) (f : A -> P B) its u n d Q :
  runs m its u n d (fun x its u n => runs (f x) its u n d Q) -> runs (m ≫= f) its u n d Q.
Proof.
  intros Hm s Hs. destruct (Hm s Hs) as (x & s1 & its1 & u1 & n1 & E & H1 & H2).
  destruct (H2 s1 H1) as (y & s2 & its2 & u2 & n2 & E2 & H3 & H4).
  exists y, s2, its2, u2, n2. unfold mbind, P_bind. rewrite E. done.
Qed.

Lemma runs_mono {A} (m : P A) its u n d (Q Q' : A -> list item -> Z -> nat -> Prop) :
  (forall x its u n, Q x its u n -> Q' x its u n) -> runs m its u n d Q -> runs m its u n d Q'.
Proof. intros H Hm s Hs. destruct (Hm s Hs) as (x & s1 & its1 & u1 & n1 & E & H1 & H2). do 5 eexists. eauto. Qed.

Lemma runs_next its u n d Q : (forall k, stands_for k its -> Q k (tail its) u n) -> runs next its u n d Q.
Proof.
  intros HQ s (Hr & Ha & Hn & Hd). destruct (next_ready _ _ Hr) as (k & t & E & Hk & Ht).
  unfold next. rewrite E. do 5 eexists. split; [done|]. split; [|by apply HQ]. by split_and!.
Qed.

Lemma runs_peek its u n d Q : (forall k, stands_for k its -> Q k its u n) -> runs peek its u n d Q.
Proof.
  intros HQ s (Hr & Ha & Hn & Hd). destruct (peek_ready _ _ Hr) as (k & t & E & Hk & Ht).
  unfold peek. rewrite E. do 5 eexists. split; [done|]. split; [|by apply HQ]. by split_and!.
Qed.

Lemma runs_keep k its u n d (Q : token -> list item -> Z -> nat -> Prop) : Q k its u n -> runs (keep k) its u n d Q.
Proof. intros HQ s (Hr & Ha & Hn & Hd). do 5 eexists. split; [done|]. by split_and!. Qed.

Lemma runs_take its u n d Q : (forall k, stands_for k its -> Q k (tail its) u n) -> runs take_token its u n d Q.
Proof. intros HQ. apply runs_bind, runs_next. intros k Hk. apply runs_keep. by apply HQ. Qed.

Lemma runs_look its u n d Q : (forall k, stands_for k its -> Q k its u n) -> runs look_token its u n d Q.
Proof. intros HQ. apply runs_bind, runs_peek. intros k Hk. apply runs_keep. by apply HQ. Qed.

Lemma runs_alloc k size rc its u n d (Q : unit -> list item -> Z -> nat -> Prop) : 0 <= u -> u + round8 size <= cap ->
  Q tt its (u + round8 size) n -> runs (alloc k size rc) its u n d Q.
Proof.
  intros Hu Hs HQ s (Hr & Ha & Hn & Hd). unfold alloc, sql_arena_alloc. rewrite Ha. cbn [arena_used arena_cap arena_failed].
  pose proof (round8_bounds size) as Hb. fold (round8 size). change (8 * ((size + 7) / 8)) with (round8 size).
  destruct (2 ^ 64 <=? size + 7) eqn:E1.
  { apply Z.leb_le in E1. exfalso. pose proof (Z.div_mod (size + 7) 8 ltac:(lia)). pose proof (Z.mod_pos_bound (size + 7) 8 ltac:(lia)).
    assert (2 ^ 61 <= (size + 7) / 8) by (apply Z.div_le_lower_bound; lia). unfold round8 in Hs. lia. }
  destruct (2 ^ 64 <=? u + round8 size) eqn:E2; [lia|]. destruct (cap <? u + round8 size) eqn:E3; [lia|].
  do 5 eexists. split; [done|]. by split_and!.
Qed.

Lemma runs_alloc_stmt size its u n d (Q : unit -> list item -> Z -> nat -> Prop) : 0 <= u -> u + round8 size <= cap ->
  Q tt its (u + round8 size) n -> runs (alloc_stmt size) its u n d Q.
Proof. intros Hu Hs HQ s Hh. unfold alloc_stmt. by apply (runs_alloc (p_last s) size SQL_ERR_NO_STORAGE its u n d Q). Qed.

Lemma runs_expect ty msg w its u n d (Q : unit -> list item -> Z -> nat -> Prop) :
  Q tt its u n -> runs (expect ty msg) ((ty, w) :: its) u n d Q.
Proof.
  intros HQ. apply runs_bind, runs_take. intros k (Hk & _). rewrite decide_True by done. by apply runs_ret.
Qed.

Lemma runs_ident msg w its u n d (Q : name -> list item -> Z -> nat -> Prop) :
  Q w its u n -> runs (ident src msg) ((TOK_IDENT, w) :: its) u n d Q.
Proof.
  intros HQ. apply runs_bind, runs_take. intros k (Hk & Ht & _). simpl in Ht. rewrite decide_True, Ht by done. by apply runs_ret.
Qed.

Lemma runs_check_eof {A} (x : A) u n d (Q : A -> list item -> Z -> nat -> Prop) :
  Q x [] u n -> runs (check_eof x) [] u n d Q.
Proof.
  intros HQ. apply runs_bind, runs_look. intros k Hk. simpl in Hk. rewrite decide_False by (by rewrite Hk).
  apply runs_bind, runs_ret, runs_bind, runs_take. intros k' Hk'. simpl in Hk'. rewrite decide_True by done. by apply runs_ret.
Qed.

Lemma runs_nested {A} (m : P A) k its u n d (Q : A -> list item -> Z -> nat -> Prop) : (d < 64)%nat ->
  runs m its u n (S d) Q -> runs (nested k m) its u n d Q.
Proof.
  intros Hd Hm s (Hr & Ha & Hn & Hs). unfold nested, enter, leave, mbind, P_bind. cbn [p_depth]. rewrite Hs.
  destruct (SQL_MAX_EXPR_DEPTH <? S d)%nat eqn:E; [apply Nat.ltb_lt in E; unfold SQL_MAX_EXPR_DEPTH in E; lia|].
  destruct (Hm (mk_pstate (p_tokz s) (p_arena s) (p_params s) (S d) (p_last s))) as (x & s1 & its1 & u1 & n1 & -> & H1 & H2).
  { by split_and!. }
  destruct H1 as (H3 & H4 & H5 & H6). exists x. do 4 eexists. split; [done|]. split; [|exact H2].
  split_and!; try done. simpl. lia.
Qed.

Lemma runs_expect_in ty msg w its u n d (Q : token -> list item -> Z -> nat -> Prop) :
  (forall k, Q k its u n) -> runs (expect_in ty msg) ((ty, w) :: its) u n d Q.
Proof.
  intros HQ. apply runs_bind, runs_next. intros k (Hk & _). rewrite decide_True by done. by apply runs_ret.
Qed.

(** ** Expressions are read back *)

Lemma literal_body_text k w prefix : token_text src k = w -> tok_len k = length w ->
  literal_body src k prefix = take (length w - prefix - 1) (drop prefix w).
Proof.
  intros Ht Hl. unfold literal_body, token_text in *. rewrite Hl in *. rewrite <- drop_drop. rewrite <- Ht at 3.
  rewrite skipn_firstn_comm, take_take. f_equal. lia.
Qed.

Lemma runs_alloc_expr k size its u n d (Q : unit -> list item -> Z -> nat -> Prop) : 0 <= u -> u + round8 size <= cap ->
  Q tt its (u + round8 size) n -> runs (alloc_expr k size) its u n d Q.
Proof. apply runs_alloc. Qed.

(** A literal behind its token. *)
Lemma parse_integer_token k v neg its : stands_for k ((TOK_INT_LIT, show v) :: its) -> 0 <= v ->
  v < 2 ^ 63 \/ neg = true /\ v = 2 ^ 63 -> parse_integer (token_text src k) neg = inr (if neg then - v else v).
Proof.
  intros (_ & [[Hne Hd] Hv] & _) Hp Hb. destruct (show_spec v ltac:(lia)) as (_ & _ & E). rewrite E in Hv.
  rewrite parse_integer_digits; rewrite ?Hv; done.
Qed.

Lemma runs_is_num k v neg its its' u n d (Q : expr -> list item -> Z -> nat -> Prop) :
  stands_for k ((TOK_INT_LIT, show v) :: its') -> 0 <= v -> v < 2 ^ 63 \/ neg = true /\ v = 2 ^ 63 ->
  0 <= u -> u + 64 <= cap -> Q (E_LITERAL (L_INT64 (if neg then - v else v))) its (u + 64) n ->
  runs (is_num src k neg) its u n d Q.
Proof.
  intros Hs Hv Hb Hu Hc HQ. apply runs_bind, runs_alloc_expr; [done|done|]. pose proof Hs as (Hk & _).
  unfold parse_number. rewrite decide_False by (by rewrite Hk). erewrite parse_integer_token by done. by apply runs_ret.
Qed.

Lemma runs_literal fuel l its u n d (Q : expr -> list item -> Z -> nat -> Prop) :
  printable_literal l -> 0 <= u -> u + expr_bytes (E_LITERAL l) <= cap ->
  Q (E_LITERAL l) its (u + expr_bytes (E_LITERAL l)) n ->
  runs (parse_primary src (S fuel)) (literal_items l ++ its) u n d Q.
Proof.
  intros Hl Hu Hc HQ. cbn [parse_primary]. apply runs_bind, runs_peek. intros k Hk.
  destruct l as [v| |b|b|b| |]; simpl in Hl; try done.
  - cbn [literal_items expr_bytes] in *. unfold number_items in *. destruct (v <? 0) eqn:E.
    + apply Z.ltb_lt in E. destruct Hk as (-> & _). apply runs_bind, runs_next. intros _ _. simpl.
      apply runs_bind, runs_peek. intros k2 (-> & _). apply runs_bind, runs_next. intros k3 Hk3.
      eapply (runs_is_num k3 (- v)); try done; try lia. by rewrite Z.opp_involutive.
    + apply Z.ltb_ge in E. destruct Hk as (-> & _). apply runs_bind, runs_next. intros k3 Hk3.
      eapply (runs_is_num k3 v); try done; lia.
  - destruct Hk as (-> & _). apply runs_bind, runs_next. intros k2 (_ & Ht & Hlen). simpl in Ht. rewrite Ht in Hlen. simpl tail.
    cbn [expr_bytes] in *. pose proof (round8_bounds (Z.of_nat (length (escape b)) + 1)).
    assert (Hq : length (quoted b) = (length (escape b) + 2)%nat) by (unfold quoted; simpl; rewrite length_app; simpl; lia).
    apply runs_bind, runs_alloc_expr; [done|change (round8 AST_EXPR_SIZE) with 64; lia|]. change (round8 AST_EXPR_SIZE) with 64.
    apply runs_bind. rewrite Hlen, Hq.
    replace (Z.of_nat (length (escape b) + 2) - 2 + 1) with (Z.of_nat (length (escape b)) + 1) by lia.
    apply runs_alloc_expr; [lia|lia|]. apply runs_ret.
    rewrite (literal_body_text k2 (quoted b)) by done. rewrite Hq.
    replace (length (escape b) + 2 - 1 - 1)%nat with (length (escape b)) by lia.
    change (drop 1 (quoted b)) with (escape b ++ ["'"%char]). rewrite take_app_length, string_decode_escape. by rewrite <- Z.add_assoc.
  - destruct Hk as (-> & _). apply runs_bind, runs_next. intros k2 (_ & Ht & Hlen). simpl in Ht. rewrite Ht in Hlen. simpl tail.
    cbn [expr_bytes] in *. pose proof (round8_bounds (Z.of_nat (length b) + 1)).
    assert (Hq : length (hexed b) = (2 * length b + 3)%nat) by (unfold hexed; simpl; rewrite length_app, length_hex; simpl; lia).
    unfold is_blob. rewrite Hlen, Hq.
    replace (Z.of_nat (2 * length b + 3) - 3) with (Z.of_nat (length b) * 2) by lia.
    rewrite Z.even_mul, orb_true_r. cbn [negb].
    apply runs_bind, runs_alloc_expr; [done|change (round8 AST_EXPR_SIZE) with 64; lia|]. change (round8 AST_EXPR_SIZE) with 64.
    apply runs_bind. rewrite Z.div_mul by lia. apply runs_alloc_expr; [lia|lia|].
    rewrite (literal_body_text k2 (hexed b)) by done. rewrite Hq.
    replace (2 * length b + 3 - 2 - 1)%nat with (length (hex b)) by (rewrite length_hex; lia).
    change (drop 2 (hexed b)) with (hex b ++ ["'"%char]). rewrite take_app_length, blob_decode_hex. apply runs_ret. by rewrite <- Z.add_assoc.
  - destruct b; destruct Hk as (-> & _); apply runs_bind, runs_next; intros k2 _; by apply runs_bind, runs_alloc_expr, runs_ret.
  - destruct Hk as (-> & _); apply runs_bind, runs_next; intros k2 _; by apply runs_bind, runs_alloc_expr, runs_ret.
Qed.

(** The precedence of what follows an expression: an operator, an IS, or
    nothing that goes on with it. *)
Definition head_type (its : list item) : tok_type := match its with [] => TOK_EOF | (ty, _) :: _ => ty end.

Definition follow (its : list item) : nat :=
  if decide (head_type its = TOK_IS) then 4 else match infix (head_type its) with Some (_, q) => q | None => 0 end.

Lemma stands_for_head k its : stands_for k its -> tok k = head_type its.
Proof. destruct its as [|[ty w] its]; [done|]. by intros (? & _). Qed.

(** An expression ends in front of what does not hold to it. *)
Lemma runs_stop fuel m e its u n d (Q : expr -> list item -> Z -> nat -> Prop) :
  (follow its < m)%nat -> (0 < fuel)%nat -> Q e its u n -> runs (expr_loop src fuel m e) its u n d Q.
Proof.
  intros Hf Hfuel HQ. destruct fuel as [|fuel]; [lia|]. cbn [expr_loop]. apply runs_bind, runs_peek. intros k Hk.
  apply stands_for_head in Hk. unfold follow in Hf. rewrite Hk. destruct (decide (head_type its = TOK_IS)).
  - destruct (4 <? m)%nat eqn:E; [by apply runs_ret|apply Nat.ltb_ge in E; lia].
  - destruct (infix (head_type its)) as [[op q]|]; [|by apply runs_ret].
    destruct (q <? m)%nat eqn:E; [by apply runs_ret|apply Nat.ltb_ge in E; lia].
Qed.

Definition reads_prim (e : expr) : Prop :=
  forall fuel its u n d (Q : expr -> list item -> Z -> nat -> Prop),
  printable n e -> head_type its <> TOK_DOT -> (d + nest e <= 64)%nat -> 0 <= u -> u + expr_bytes e <= cap -> (steps e <= fuel)%nat ->
  Q e its (u + expr_bytes e) (n + params e)%nat -> runs (parse_primary src fuel) (body e ++ its) u n d Q.

Definition reads_body (e : expr) : Prop :=
  forall fuel m its u n d (Q : expr -> list item -> Z -> nat -> Prop),
  printable n e -> (m <= level e)%nat -> head_type its <> TOK_DOT -> (follow its <= level e)%nat ->
  (d + nest e <= 64)%nat -> 0 <= u -> u + expr_bytes e <= cap -> (steps e < fuel)%nat ->
  (forall fuel', (fuel <= fuel' + steps e)%nat -> runs (expr_loop src fuel' m e) its (u + expr_bytes e) (n + params e) d Q) ->
  runs (parse_expr_prec src fuel m) (body e ++ its) u n d Q.

Lemma prim_body e : reads_prim e -> (2 <= steps e)%nat -> reads_body e.
Proof.
  intros He Hs fuel m its u n d Q Hp Hm Hh Hf Hd Hu Hc Hfuel Hgo. destruct fuel as [|fuel]; [lia|]. cbn [parse_expr_prec].
  apply runs_bind, He; try done; [lia|]. apply Hgo. lia.
Qed.

Lemma runs_parens e fuel its u n d (Q : expr -> list item -> Z -> nat -> Prop) : reads_body e ->
  printable n e -> (d + S (nest e) <= 64)%nat -> 0 <= u -> u + expr_bytes e <= cap -> (steps e + 2 <= fuel)%nat ->
  Q e its (u + expr_bytes e) (n + params e)%nat -> runs (parse_primary src fuel) (parens true (body e) ++ its) u n d Q.
Proof.
  intros He Hp Hd Hu Hc Hfuel HQ. destruct fuel as [|fuel]; [lia|]. cbn [parse_primary parens app].
  apply runs_bind, runs_peek. intros k (-> & _). apply runs_bind, runs_next. intros k2 _. cbn [tail].
  apply runs_bind, runs_nested; [lia|]. rewrite <- app_assoc. apply He; try done; try lia.
  - pose proof (level_pos e). lia.
  - change (follow _) with 0%nat. lia.
  - intros fuel' Hf'. apply runs_stop; [change (follow _) with 0%nat; lia|lia|]. apply runs_bind, runs_expect_in. intros _. by apply runs_ret.
Qed.

Lemma runs_at e p fuel m its u n d (Q : expr -> list item -> Z -> nat -> Prop) : reads_body e ->
  printable n e -> (m <= p)%nat -> head_type its <> TOK_DOT -> (follow its <= p)%nat ->
  (d + parens_nest (level e <? p)%nat (nest e) <= 64)%nat -> 0 <= u -> u + expr_bytes e <= cap -> (steps e + 3 < fuel)%nat ->
  (forall fuel', (fuel <= fuel' + (steps e + 3))%nat -> runs (expr_loop src fuel' m e) its (u + expr_bytes e) (n + params e) d Q) ->
  runs (parse_expr_prec src fuel m) (parens (level e <? p)%nat (body e) ++ its) u n d Q.
Proof.
  intros He Hp Hm Hh Hf Hd Hu Hc Hfuel Hgo. destruct (level e <? p)%nat eqn:E.
  - destruct fuel as [|fuel]; [lia|]. cbn [parse_expr_prec]. apply runs_bind, runs_parens; try done; [lia|]. apply Hgo. lia.
  - apply Nat.ltb_ge in E. apply He; try done; try lia. intros fuel' Hf'. apply Hgo. lia.
Qed.

(** An operand in its place: nothing behind it holds tighter. *)
Lemma runs_operand e p fuel k its u n d (Q : expr -> list item -> Z -> nat -> Prop) : reads_body e ->
  printable n e -> head_type its <> TOK_DOT -> (follow its < p)%nat ->
  (d + S (parens_nest (level e <? p)%nat (nest e)) <= 64)%nat -> 0 <= u -> u + expr_bytes e <= cap -> (steps e + 3 < fuel)%nat ->
  Q e its (u + expr_bytes e) (n + params e)%nat ->
  runs (nested k (parse_expr_prec src fuel p)) (parens (level e <? p)%nat (body e) ++ its) u n d Q.
Proof.
  intros He Hp Hh Hf Hd Hu Hc Hfuel HQ. apply runs_nested; [lia|]. apply runs_at; try done; try lia.
  intros fuel' Hf'. apply runs_stop; [done|lia|done].
Qed.

Lemma reads_column q c : reads_prim (E_COLUMN q c).
Proof.
  intros fuel its u n d Q Hp Hh Hd Hu Hc Hfuel HQ. destruct fuel as [|fuel]; [simpl in Hfuel; lia|].
  cbn [parse_primary expr_bytes params body] in *. rewrite Nat.add_0_r in HQ.
  apply runs_bind, runs_peek. intros k Hk. destruct q as [q|]; cbn [qualified_items app] in *.
  - destruct Hk as (-> & _). apply runs_bind, runs_next. intros k2 (_ & Ht & _). cbn [tail]. unfold is_ident. simpl in Ht. rewrite Ht.
    apply runs_bind, runs_peek. intros k3 (Hk3 & _). rewrite decide_True by done.
    apply runs_bind, runs_next. intros _ _. cbn [tail]. apply runs_bind, runs_next. intros k4 (Hk4 & Ht4 & _). cbn [tail].
    rewrite decide_True by done. apply runs_bind, runs_alloc_expr; [done|done|]. simpl in Ht4. rewrite Ht4. by apply runs_ret.
  - destruct Hk as (-> & _). apply runs_bind, runs_next. intros k2 (_ & Ht & _). cbn [tail]. unfold is_ident. simpl in Ht. rewrite Ht.
    apply runs_bind, runs_peek. intros k3 Hk3. apply stands_for_head in Hk3. rewrite decide_False by (by rewrite Hk3).
    apply runs_bind, runs_alloc_expr; [done|done|]. by apply runs_ret.
Qed.

Lemma reads_param i : reads_prim (E_PARAM i).
Proof.
  intros fuel its u n d Q [-> Hn] Hh Hd Hu Hc Hfuel HQ. destruct fuel as [|fuel]; [simpl in Hfuel; lia|].
  cbn [parse_primary expr_bytes params body app] in *.
  apply runs_bind, runs_peek. intros k (-> & _). apply runs_bind, runs_next. intros k2 _. cbn [tail].
  apply runs_bind. intros s Hs. exists n, s, its, u, n. split; [|split; [done|]].
  { unfold params_seen. by destruct Hs as (_ & _ & -> & _). }
  destruct (SQL_MAX_PARAMS <=? n)%nat eqn:E; [apply Nat.leb_le in E; unfold SQL_MAX_PARAMS in E; lia|].
  apply runs_bind, runs_alloc_expr; [done|done|]. intros s' (H1 & H2 & H3 & H4). unfold fresh_param. rewrite H3.
  do 5 eexists. split; [done|]. split; [by split_and!|]. by rewrite Nat.add_1_r in HQ.
Qed.

Lemma reads_not e : reads_body e -> reads_body (E_UNARY OP_NOT e).
Proof.
  intros He fuel m its u n d Q Hp Hm Hh Hf Hd Hu Hc Hfuel Hgo. cbn [printable level nest expr_bytes steps params body app] in *.
  pose proof (bytes_pos e) as Hb. destruct fuel as [|[|fuel]]; [lia|lia|]. cbn [parse_expr_prec]. apply runs_bind. cbn [parse_primary].
  apply runs_bind, runs_peek. intros k (-> & _). apply runs_bind, runs_next. intros k2 _. cbn [tail].
  apply runs_bind, runs_operand; try done; try lia.
  apply runs_bind, runs_alloc_expr; [lia|change (round8 AST_EXPR_SIZE) with 64; lia|]. apply runs_ret.
  rewrite <- Z.add_assoc. apply Hgo. lia.
Qed.

Lemma runs_is_test op its u n d (Q : unop * token -> list item -> Z -> nat -> Prop) : op <> OP_NOT ->
  (forall k, Q (op, k) its u n) ->
  runs is_test (match op with OP_IS_NOT_NULL => [tk TOK_NOT "NOT"; tk TOK_NULL "NULL"] | _ => [tk TOK_NULL "NULL"] end ++ its) u n d Q.
Proof.
  intros Hop HQ. unfold is_test. destruct op; [done| |].
  - apply runs_bind, runs_peek. intros k (-> & _). apply runs_bind, runs_next. intros k2 _. by apply runs_ret.
  - apply runs_bind, runs_peek. intros k (-> & _). apply runs_bind, runs_next. intros k2 _.
    apply runs_bind, runs_expect_in. intros k3. by apply runs_ret.
Qed.

Lemma reads_is op e : op <> OP_NOT -> reads_body e -> reads_body (E_UNARY op e).
Proof.
  intros Hop He fuel m its u n d Q Hp Hm Hh Hf Hd Hu Hc Hfuel Hgo.
  assert (Hlevel : level (E_UNARY op e) = 4%nat) by (by destruct op).
  assert (Hnest : nest (E_UNARY op e) = parens_nest (level e <? 4)%nat (nest e)) by (by destruct op).
  assert (Hbody : body (E_UNARY op e) ++ its = parens (level e <? 4)%nat (body e) ++ tk TOK_IS "IS" ::
    match op with OP_IS_NOT_NULL => [tk TOK_NOT "NOT"; tk TOK_NULL "NULL"] | _ => [tk TOK_NULL "NULL"] end ++ its).
  { destruct op; [done| |]; cbn [body]; by rewrite <- app_assoc. }
  rewrite Hlevel in *. rewrite Hnest in *. rewrite Hbody. cbn [printable expr_bytes steps params] in *.
  pose proof (bytes_pos e) as Hb. apply runs_at; try done; try lia.
  intros fuel' Hf'. destruct fuel' as [|fuel']; [lia|]. cbn [expr_loop].
  apply runs_bind, runs_peek. intros k (Hk & _). rewrite decide_True by done.
  destruct (4 <? m)%nat eqn:E; [apply Nat.ltb_lt in E; lia|].
  apply runs_bind, runs_next. intros _ _. cbn [tail]. apply runs_bind, runs_is_test; [done|]. intros k2.
  apply runs_bind, runs_alloc_expr; [lia|change (round8 AST_EXPR_SIZE) with 64; lia|].
  rewrite <- Z.add_assoc. apply Hgo. lia.
Qed.

Lemma infix_op op q : precedence op = Some q -> exists w, op_item op = (fst (op_item op), w) /\ infix (fst (op_item op)) = Some (op, q) /\ (q <= 3)%nat.
Proof. destruct op; simpl; intros [= <-]; eexists; split_and!; (reflexivity || lia). Qed.

Lemma reads_infix op q l r : precedence op = Some q -> reads_body l -> reads_body r -> reads_body (E_BINARY op l r).
Proof.
  intros Hq Hl Hr fuel m its u n d Q [Hpl Hpr] Hm Hh Hf Hd Hu Hc Hfuel Hgo.
  cbn [level nest expr_bytes steps params body] in *. rewrite Hq in *. destruct (infix_op op q Hq) as (w & Hw & Hi & Hq3).
  pose proof (bytes_pos l) as Hbl. pose proof (bytes_pos r) as Hbr. rewrite <- app_assoc. cbn [app].
  set (rest := parens (level r <? S q)%nat (body r) ++ its).
  assert (Hnis : fst (op_item op) <> TOK_IS) by (intros E; by rewrite E in Hi).
  assert (Hfol : follow (op_item op :: rest) = q).
  { unfold follow. rewrite Hw. cbn [head_type]. rewrite decide_False by done. by rewrite Hi. }
  apply runs_at; try done; try lia.
  { rewrite Hw. cbn [head_type]. intros E. by rewrite E in Hi. }
  intros fuel' Hf'. destruct fuel' as [|fuel']; [lia|]. cbn [expr_loop].
  apply runs_bind, runs_peek. intros k Hk. apply stands_for_head in Hk. rewrite Hw in Hk. cbn [head_type] in Hk.
  rewrite decide_False by (by rewrite Hk). rewrite Hk, Hi.
  destruct (q <? m)%nat eqn:E; [apply Nat.ltb_lt in E; lia|].
  apply runs_bind, runs_next. intros k2 _. cbn [tail]. apply runs_bind. subst rest. apply runs_operand; try done; try lia.
  apply runs_bind, runs_alloc_expr; [lia|change (round8 AST_EXPR_SIZE) with 64; lia|].
  replace (u + expr_bytes l + expr_bytes r + round8 AST_EXPR_SIZE) with (u + (expr_bytes l + expr_bytes r + 64)) by (change (round8 AST_EXPR_SIZE) with 64; lia).
  replace (n + params l + params r)%nat with (n + (params l + params r))%nat by lia. apply Hgo. lia.
Qed.

Lemma reads_distance op l r : precedence op = None -> reads_body l -> reads_body r -> reads_prim (E_BINARY op l r).
Proof.
  intros Hq Hl Hr fuel its u n d Q [Hpl Hpr] Hh Hd Hu Hc Hfuel HQ.
  cbn [level nest expr_bytes steps params body] in *. rewrite Hq in *. destruct fuel as [|fuel]; [lia|]. cbn [parse_primary app].
  pose proof (bytes_pos l) as Hbl. pose proof (bytes_pos r) as Hbr. pose proof (level_pos l) as Hll. pose proof (level_pos r) as Hlr.
  assert (Hone : forall e, body e = parens (level e <? 1)%nat (body e) /\ nest e = parens_nest (level e <? 1)%nat (nest e)).
  { intros e. pose proof (level_pos e). destruct (level e <? 1)%nat eqn:E; [apply Nat.ltb_lt in E; lia|done]. }
  destruct (Hone l) as [Hbl1 Hnl1]. destruct (Hone r) as [Hbr1 Hnr1].
  assert (Hfn : forall k, stands_for k (op_item op :: []) ->
    (tok k = TOK_L2_DISTANCE \/ tok k = TOK_COSINE_DISTANCE) /\ (if decide (tok k = TOK_L2_DISTANCE) then OP_L2_DISTANCE else OP_COSINE_DISTANCE) = op).
  { intros k Hk. destruct op; try done; destruct Hk as (-> & _); auto. }
  assert (Hrun : forall k, stands_for k (op_item op :: []) -> runs (
      k ← expect_in TOK_LPAREN "expected '('"; x ← nested k (parse_expr_prec src fuel 1);
      k ← expect_in TOK_COMMA "expected ','"; y ← nested k (parse_expr_prec src fuel 1);
      k ← expect_in TOK_RPAREN "expected ')'"; alloc_expr k AST_EXPR_SIZE ;;
      mret (E_BINARY op x y)) (tk TOK_LPAREN "(" :: body l ++ tk TOK_COMMA "," :: body r ++ tk TOK_RPAREN ")" :: its) u n d Q).
  { intros k Hk. apply runs_bind, runs_expect_in. intros k2. rewrite Hbl1, Hbr1.
    apply runs_bind, runs_operand; try done; try lia. { change (follow _) with 0%nat. lia. }
    apply runs_bind, runs_expect_in. intros k3.
    apply runs_bind, runs_operand; try done; try lia. { change (follow _) with 0%nat. lia. }
    apply runs_bind, runs_expect_in. intros k4.
    apply runs_bind, runs_alloc_expr; [lia|change (round8 AST_EXPR_SIZE) with 64; lia|]. apply runs_ret.
    replace (u + expr_bytes l + expr_bytes r + round8 AST_EXPR_SIZE) with (u + (expr_bytes l + expr_bytes r + 64)) by (change (round8 AST_EXPR_SIZE) with 64; lia).
    by replace (n + params l + params r)%nat with (n + (params l + params r))%nat by lia. }
  rewrite <- app_assoc. cbn [app]. rewrite <- app_assoc. cbn [app].
  apply runs_bind, runs_peek. intros k Hk. destruct (Hfn k Hk) as [Hty _].
  destruct Hty as [-> | ->]; apply runs_bind, runs_next; intros k2 Hk2; destruct (Hfn k2 Hk2) as [_ Hop]; rewrite Hop; by apply (Hrun k2).
Qed.

Lemma reads_expr e : reads_body e /\ (level e = 5%nat -> reads_prim e).
Proof.
  assert (Hprim : forall e, reads_prim e -> (2 <= steps e)%nat -> reads_body e /\ (level e = 5%nat -> reads_prim e)).
  { intros e0 He Hs. split; [by apply prim_body|done]. }
  induction e as [l|q c|i|op e [IH _]|op l [IHl _] r [IHr _]].
  - apply Hprim; [|simpl; lia]. intros fuel its u n d Q Hp Hh Hd Hu Hc Hfuel HQ. destruct fuel as [|fuel]; [simpl in Hfuel; lia|].
    apply runs_literal; try done. by rewrite Nat.add_0_r in HQ.
  - apply Hprim; [apply reads_column|simpl; lia].
  - apply Hprim; [apply reads_param|simpl; lia].
  - destruct op; [split; [by apply reads_not|done]|split; [by apply reads_is|done]|split; [by apply reads_is|done]].
  - destruct (precedence op) as [q|] eqn:E.
    + split; [by apply (reads_infix op q)|]. cbn [level]. rewrite E. intros ->. by destruct op.
    + apply Hprim; [by apply reads_distance|simpl; lia].
Qed.

(** An expression, and a value where only a primary may stand. *)
Lemma runs_expr fuel e its u n d (Q : expr -> list item -> Z -> nat -> Prop) :
  printable n e -> head_type its <> TOK_DOT -> follow its = 0%nat -> (d + nest e <= 64)%nat -> 0 <= u -> u + expr_bytes e <= cap ->
  (steps e + 3 < fuel)%nat -> Q e its (u + expr_bytes e) (n + params e)%nat ->
  runs (parse_expr_prec src fuel 1) (body e ++ its) u n d Q.
Proof.
  intros Hp Hh Hf Hd Hu Hc Hfuel HQ. pose proof (level_pos e). apply reads_expr; try done; try lia.
  intros fuel' Hf'. apply runs_stop; [lia|lia|done].
Qed.

Lemma runs_value fuel e its u n d (Q : expr -> list item -> Z -> nat -> Prop) :
  printable n e -> head_type its <> TOK_DOT -> (d + S (nest e) <= 64)%nat -> 0 <= u -> u + expr_bytes e <= cap ->
  (steps e + 3 < fuel)%nat -> Q e its (u + expr_bytes e) (n + params e)%nat ->
  runs (parse_primary src fuel) (at_level 5 e ++ its) u n d Q.
Proof.
  intros Hp Hh Hd Hu Hc Hfuel HQ. unfold at_level. destruct (level e <? 5)%nat eqn:E.
  - apply runs_parens; try done; [apply reads_expr|lia].
  - apply Nat.ltb_ge in E. pose proof (level_pos e). apply reads_expr; try done; lia.
Qed.

End deliver.
