(* ===== verification/SqlLayout.v ===== *)
(** * SqlLayout: the layout of a text does not matter

    The words of a statement can be written with any white space and comments
    between them, with none where two words do not run together, with keywords in
    any case and with leading zeros: the tokenizer delivers the same words
    ([writes_delivers]).  The texts of [SqlPrint], one space behind each word, are
    one such layout. *)

From S2P Require Import Tokenizer DecimalFloat Parser SqlPrint Prelude.

Open Scope Z_scope.

(** ** What may stand behind a word *)

(** A token of this type ends in front of [tl]. *)
Definition apart (ty : tok_type) (tl : list ascii) : bool :=
  match tl with
  | [] => true
  | c :: _ =>
      (match ty with
       | TOK_STRING_LIT | TOK_BLOB_LIT => negb (c =? "'")
       | TOK_INT_LIT | TOK_FLOAT_LIT => negb (digit c) && negb (c =? ".")
       | TOK_LT => negb ((c =? "-") || (c =? "=") || (c =? ">"))
       | TOK_LTE => negb (c =? ">")
       | TOK_GT => negb (c =? "=")
       | TOK_MINUS => negb (c =? "-")
       | TOK_COMMA | TOK_PARAM | TOK_SEMICOLON | TOK_LBRACKET | TOK_RBRACKET | TOK_LPAREN | TOK_RPAREN | TOK_STAR
       | TOK_PLUS | TOK_DOT | TOK_EQ | TOK_NEQ | TOK_GTE | TOK_L2_OP | TOK_COSINE_OP => true
       | _ => negb (ident_char c) && negb (c =? "'")
       end)%char
  end.

(** White space and comments that end with their line. *)
Inductive spacing : list ascii -> Prop :=
  | sp_nil : spacing []
  | sp_char c l : (c = LF \/ blank c = true) -> spacing l -> spacing (c :: l)
  | sp_line body l : LF ∉ body -> spacing l -> spacing ("-"%char :: "-"%char :: body ++ LF :: l).

(** [w'] is a word, and it can be written for [i]. *)
Definition spelled (i : item) (w' : list ascii) : Prop :=
  lexes (fst i, w') /\ reads_as (fst i) (snd i) w'.

(** The texts that are the words [its]. *)
Inductive writes : list item -> list ascii -> Prop :=
  | writes_end g : gap g -> writes [] g
  | writes_word g i w its tl : spacing g -> spelled i w -> apart (fst i) tl = true -> writes its tl ->
      writes (i :: its) (g ++ w ++ tl).

(** ** Words end where they end *)

Definition heads (p : ascii -> bool) (tl : list ascii) : bool := match tl with c :: _ => p c | [] => false end.

Lemma span_space p l : p " "%char = false -> span p (l ++ [" "%char]) = span p l.
Proof. intros Hp. induction l as [|c l IH]; simpl; [by rewrite Hp|]. by rewrite IH. Qed.

Lemma span_short p l tl : (span p l < length l)%nat -> span p (l ++ tl) = span p l.
Proof. induction l as [|c l IH]; simpl; [lia|]. destruct (p c); [|done]. intros H. rewrite IH; [done|lia]. Qed.

Lemma span_whole p l tl : span p l = length l -> heads p tl = false -> span p (l ++ tl) = length l.
Proof.
  intros Hl Ht. induction l as [|c l IH]; simpl in *; [by destruct tl as [|d tl]; [|simpl in *; rewrite Ht]|].
  destruct (p c); [|done]. rewrite IH; [done|lia].
Qed.

Lemma lex_string_apart tl l : heads (fun c => c =? "'")%char tl = false -> forall line col line' col',
  lex_string (l ++ [" "%char]) line col = (true, length l, line', col') -> lex_string (l ++ tl) line col = (true, length l, line', col').
Proof.
  intros Ht. induction l as [l IH] using (induction_ltof1 _ (@length ascii)). unfold ltof in IH. intros line col line' col'.
  destruct l as [|c l]; [done|]. simpl. destruct (c =? "'")%char.
  - destruct l as [|d l]; simpl.
    + destruct tl as [|d tl]; [done|]. simpl in Ht. by rewrite Ht.
    + destruct (d =? "'")%char; [|intros [=]; lia].
      destruct (lex_string (l ++ [" "%char]) line (u32 (col + 2))) as [[[ok n] line1] col1] eqn:E. intros [= -> -> -> ->].
      by rewrite (IH l ltac:(simpl; lia) _ _ _ _ E).
  - destruct (if (c =? LF)%char then _ else _) as [line0 col0].
    destruct (lex_string (l ++ [" "%char]) line0 (u32 (col0 + 1))) as [[[ok n] line1] col1] eqn:E. intros [= -> -> -> ->].
    by rewrite (IH l ltac:(simpl; lia) _ _ _ _ E).
Qed.

Lemma lex_number_apart tl l ty : heads digit tl = false -> heads (fun c => c =? ".")%char tl = false ->
  lex_number (l ++ [" "%char]) = (ty, length l) -> lex_number (l ++ tl) = (ty, length l).
Proof.
  intros Hd Hp. unfold lex_number. rewrite span_space by done. pose proof (span_le digit l) as Hle.
  rewrite drop_app_le by done. set (n := span digit l) in *.
  destruct (drop n l) as [|x [|y l']] eqn:E; simpl.
  - apply (f_equal length) in E. rewrite length_drop in E. simpl in E. intros [= <- Hn].
    rewrite span_whole by done. rewrite drop_app_length. destruct tl as [|c [|d tl]]; [done..|]. simpl in Hp. by rewrite Hp.
  - apply (f_equal length) in E. rewrite length_drop in E. simpl in E. rewrite andb_false_r. intros [= _ Hn]. lia.
  - assert (Hl : length l = (n + 2 + length l')%nat) by (apply (f_equal length) in E; rewrite length_drop in E; simpl in E; lia).
    rewrite (span_short digit l tl) by (fold n; lia). fold n. rewrite drop_app_le, E by done. simpl.
    destruct ((x =? ".")%char && digit y); [|intros [= _ Hn]; lia]. rewrite span_space by done. intros [= <- Hn].
    rewrite span_whole by (done || lia). by rewrite Hl.
Qed.

Lemma keyword_apart w tl : apart (keyword w) tl = true -> heads ident_char tl = false /\ heads (fun c => c =? "'")%char tl = false.
Proof.
  destruct tl as [|c tl]; [done|]. intros H. assert (Hc : negb (ident_char c) && negb (c =? "'")%char = true).
  { pose proof (keyword_type w) as Hk. destruct (keyword w); first [exact H | exfalso; revert Hk; vm_compute; intuition discriminate]. }
  apply andb_true_iff in Hc as [H1 H2]. rewrite negb_true_iff in H1, H2. done.
Qed.

(** Operators: what follows does not make them longer. *)
Lemma operator_apart f l tl ty : (f = lex_excl \/ f = lex_lt \/ f = lex_gt) -> ty <> TOK_ERROR -> apart ty tl = true ->
  f (l ++ [" "%char]) = (ty, S (length l)) -> f (l ++ tl) = (ty, S (length l)).
Proof.
  intros Hf Herr Hap. destruct tl as [|e tl].
  - rewrite app_nil_r. destruct Hf as [->|[->| ->]]; destruct l as [|c [|d l]]; try done; simpl; repeat case_if; naive_solver.
  - simpl in Hap. destruct Hf as [->|[->| ->]]; destruct l as [|c [|d l]]; simpl; repeat case_if; try done; intros [= <-];
      rewrite ?negb_true_iff, ?orb_false_iff in Hap; destruct_and?; repeat match goal with H : (_ =? _)%char = _ |- _ => rewrite H end; naive_solver.
Qed.

(** Names and keywords. *)
Lemma ident_apart c l tl ty n : n = S (span ident_char (l ++ [" "%char])) -> n = S (length l) ->
  keyword (take n (c :: l ++ [" "%char])) = ty -> apart ty tl = true ->
  heads (fun c => c =? "'")%char tl = false /\ S (span ident_char (l ++ tl)) = n /\ keyword (take n (c :: l ++ tl)) = ty.
Proof.
  intros Hn Hl Hty Hap. rewrite span_space in Hn by done.
  assert (Hw : forall tl, take n (c :: l ++ tl) = c :: l) by (intros tl'; rewrite Hl; cbn [take]; by rewrite take_app_length).
  rewrite !Hw in *. rewrite <- Hty in Hap. apply keyword_apart in Hap as [H1 H2]. split; [done|].
  rewrite span_whole by (done || congruence). done.
Qed.

(** Literals, from behind the quote at their start. *)
Lemma literal_apart (t ty : tok_type) q (l body tl : list ascii) line col line' col' : (t = TOK_STRING_LIT \/ t = TOK_BLOB_LIT) ->
  ty <> TOK_ERROR -> apart ty tl = true -> (q + length body)%nat = S (length l) ->
  let lit s := let '(ok, n, line, col) := lex_string s line (u32 (col + Z.of_nat q)) in
               (if ok then t else TOK_ERROR, (q + n)%nat, line, col) in
  lit (body ++ [" "%char]) = (ty, S (length l), line', col') -> lit (body ++ tl) = (ty, S (length l), line', col').
Proof.
  intros Ht Herr Hap Hq lit. unfold lit. destruct (lex_string (body ++ [" "%char]) _ _) as [[[ok n] line1] col1] eqn:E.
  intros [= Hty Hn -> ->]. destruct ok; [|congruence]. assert (n = length body) as -> by lia.
  rewrite (lex_string_apart tl body) with (line' := line') (col' := col'); [by rewrite Hty, Hq| |done].
  destruct tl as [|d tl]; [done|]. simpl in *. destruct Ht; subst t ty; by apply negb_true_iff in Hap.
Qed.

Lemma number_apart l tl ty : apart ty tl = true -> lex_number (l ++ [" "%char]) = (ty, length l) -> lex_number (l ++ tl) = (ty, length l).
Proof.
  intros Hap E. assert (Ht : ty = TOK_INT_LIT \/ ty = TOK_FLOAT_LIT)
    by (revert E; unfold lex_number; destruct (drop _ _) as [|x [|y l']]; [intros [= <- _]; auto..|]; destruct (_ && _); intros [= <- _]; auto).
  apply lex_number_apart; [..|done].
  all: destruct tl as [|d tl]; [done|]; simpl in *; destruct Ht; subst ty; apply andb_true_iff in Hap as [H1 H2];
    by rewrite negb_true_iff in H1, H2.
Qed.

(** A word is one token in front of everything that is apart from it. *)
Lemma lexes_apart ty c l tl line col : lexes (ty, c :: l) -> apart ty tl = true ->
  exists line' col', lex_token c (l ++ tl) line col = (ty, S (length l), line', col').
Proof.
  intros [(Herr & _) H] Hap. destruct (H [] line col) as (line' & col' & E). clear H. revert E. unfold lex_token.
  destruct (punctuation c) as [t|]. { intros [= -> Hl <- <-]. destruct l; [eauto|done]. }
  assert (Hop : forall f, (f = lex_excl \/ f = lex_lt \/ f = lex_gt) ->
    (let '(t, n) := f (l ++ [" "%char]) in (t, n, line, u32 (col + Z.of_nat n))) = (ty, S (length l), line', col') ->
    exists line' col', (let '(t, n) := f (l ++ tl) in (t, n, line, u32 (col + Z.of_nat n))) = (ty, S (length l), line', col')).
  { intros f Hf. destruct (f (l ++ [" "%char])) as [t n] eqn:E. intros [= -> -> _ _]. rewrite (operator_apart f l tl ty) by done. eauto. }
  destruct (c =? "!")%char; [apply Hop; auto|]. destruct (c =? "<")%char; [apply Hop; auto|]. destruct (c =? ">")%char; [apply Hop; auto|].
  destruct (c =? "-")%char. { intros [= <- Hl _ _]. destruct l; [eauto|done]. }
  destruct ((c =? "X") || (c =? "x"))%char.
  { destruct l as [|d l]; cbn [app].
    - intros [= Hty _ _]. destruct (ident_apart c [] tl ty 1) as (Hq & Hs & Hk); try done. cbn [app] in Hs, Hk.
      destruct tl as [|d tl]; [rewrite Hs, Hk; eauto|]. simpl in Hq. rewrite Hq, Hs, Hk. eauto.
    - destruct (d =? "'")%char; [intros E; apply (literal_apart _ _ _ (d :: l) l tl) in E; [eauto|auto|done|done|simpl; lia]|].
      intros [= Hty Hn _ _]. destruct (ident_apart c (d :: l) tl ty _ eq_refl) as (_ & Hs & Hk); [exact (f_equal S Hn)|exact Hty|done|].
      cbn [app] in Hs, Hk. rewrite Hs, Hk. exists line, (u32 (col + Z.of_nat (S (S (length l))))). simpl. by rewrite Hn. }
  destruct ((c =? "_")%char || letter c).
  { intros [= Hty Hn _ _]. destruct (ident_apart c l tl ty _ eq_refl) as (_ & Hs & Hk); [exact (f_equal S Hn)|exact Hty|done|].
    rewrite Hs, Hk, Hn. eauto. }
  destruct (digit c).
  { destruct (lex_number (l ++ [" "%char])) as [t n] eqn:E. intros [= -> -> _ _]. rewrite (number_apart l tl ty) by done. eauto. }
  destruct (c =? "'")%char; [|by intros [= <- _]]. intros E. apply (literal_apart _ _ _ l l tl) in E; [eauto|auto|done|done|simpl; lia].
Qed.

(** ** Gaps are passed over *)

Lemma skip_comment body l line col : LF ∉ body ->
  exists line' col', (skip true (body ++ LF :: l) line col).1.1 = (S (length body) + (skip false l line' col').1.1)%nat /\
    (skip true body line col).1.1 = length body.
Proof.
  revert line col. induction body as [|c body IH]; intros line col Hb.
  - exists (u32 (line + 1)), 1. simpl. by destruct (skip false l _ _) as [[n ?] ?].
  - apply not_elem_of_cons in Hb as [Hc Hb]. destruct (IH line (u32 (col + 1)) Hb) as (line' & col' & E1 & E2). exists line', col'.
    cbn [skip app]. assert (Hlf : (c =? LF)%char = false) by (apply Ascii.eqb_neq; congruence). rewrite Hlf.
    destruct (skip true (body ++ LF :: l) _ _) as [[n1 ?] ?], (skip true body _ _) as [[n2 ?] ?]. simpl in *. lia.
Qed.

Lemma skip_one c l line col : c = LF \/ blank c = true -> exists line' col', (skip false (c :: l) line col).1.1 = S (skip false l line' col').1.1.
Proof.
  intros Hc. simpl. destruct (c =? LF)%char eqn:E.
  - exists (u32 (line + 1)), 1. by destruct (skip false l _ _) as [[n ?] ?].
  - destruct Hc as [->|Hc]; [done|]. rewrite Hc. exists line, (u32 (col + 1)). by destruct (skip false l _ _) as [[n ?] ?].
Qed.

Lemma skip_dashes l line col : (skip false ("-"%char :: "-"%char :: l) line col).1.1 = S (S (skip true l line (u32 (col + 2))).1.1).
Proof. simpl. by destruct (skip true l _ _) as [[n ?] ?]. Qed.

Lemma skip_spacing g tl : spacing g -> (forall line col, (skip false tl line col).1.1 = 0%nat) ->
  forall line col, (skip false (g ++ tl) line col).1.1 = length g.
Proof.
  intros Hg Ht. induction Hg as [|c g Hc Hg IH|body g Hb Hg IH]; intros line col.
  - apply Ht.
  - destruct (skip_one c (g ++ tl) line col Hc) as (line' & col' & E). cbn [app]. rewrite E, IH. done.
  - cbn [app]. rewrite skip_dashes, <- app_assoc. cbn [app].
    destruct (skip_comment body (g ++ tl) line (u32 (col + 2)) Hb) as (line' & col' & -> & _). rewrite IH. simpl. rewrite length_app. simpl. lia.
Qed.

Lemma skip_all_gap g : gap g -> forall line col, (skip false g line col).1.1 = length g.
Proof.
  induction 1 as [|c g Hc Hg IH|body g Hb Hg IH|body Hb]; intros line col; [done|..].
  - destruct (skip_one c g line col Hc) as (line' & col' & E). by rewrite E, IH.
  - rewrite skip_dashes. destruct (skip_comment body g line (u32 (col + 2)) Hb) as (line' & col' & -> & _).
    rewrite IH. simpl. rewrite length_app. simpl. lia.
  - rewrite skip_dashes. by destruct (skip_comment body [] line (u32 (col + 2)) Hb) as (_ & _ & _ & ->).
Qed.

(** A word is not passed over. *)
Lemma skip_word ty c l tl line col : lexes (ty, c :: l) -> apart ty tl = true -> (skip false (c :: l ++ tl) line col).1.1 = 0%nat.
Proof.
  intros [(_ & H1 & H2 & H3) H] Hap. cbn [skip]. apply Ascii.eqb_neq in H1. rewrite H1, H2.
  destruct (c =? "-")%char eqn:E; [|done]. apply Ascii.eqb_eq in E as ->. rewrite (H3 eq_refl) in *.
  destruct (H [] 0 0) as (line' & col' & [= <- _ _]). destruct tl as [|d tl]; [done|]. simpl in *. apply negb_true_iff in Hap. by rewrite Hap.
Qed.

(** ** The words are delivered *)

Lemma lexes_nonempty ty w : lexes (ty, w) -> exists c l, w = c :: l.
Proof. destruct w as [|c l]; [done|eauto]. Qed.

Lemma writes_delivers src its tl t : writes its tl -> tokz_src t = src -> rest t = tl -> delivers src t its.
Proof.
  intros Hw. revert t. induction Hw as [g Hg|g [ty w0] w its tl Hg [Hl Hr] Hap Hw IH]; intros t Hs Ht; (split; [done|]).
  - rewrite skip_all_gap by (by rewrite Ht). by rewrite drop_ge.
  - cbn [fst snd] in *. destruct (lexes_nonempty _ _ Hl) as (c & l & ->).
    assert (Hskip : (skip false (rest t) (tokz_line t) (tokz_col t)).1.1 = length g).
    { rewrite Ht. apply skip_spacing; [done|]. intros. by apply (skip_word ty). }
    unfold lex_fresh. destruct (skip _ _ _ _) as [[n line] col]. cbn [fst] in Hskip. subst n.
    assert (Hd : drop (length g) (rest t) = (c :: l) ++ tl) by (rewrite Ht; apply drop_app_length).
    rewrite Hd. cbn [app]. destruct (lexes_apart ty c l tl line col Hl Hap) as (line' & col' & ->).
    assert (Hsrc : drop (tokz_pos t + length g) src = (c :: l) ++ tl) by (rewrite <- Hd; unfold rest; by rewrite drop_drop, Hs).
    assert (Hk : forall l' c', token_text src (mk_token ty (tokz_pos t + length g) (S (length l)) l' c') = c :: l).
    { intros. unfold token_text. cbn [tok_len tok_offset]. rewrite Hsrc. apply (take_app_length (c :: l)). }
    split; [cbn [fst stands_for tok tok_len]; rewrite Hk; done|]. apply IH; [done|]. unfold rest. cbn [snd tokz_src tokz_pos].
    rewrite Hs, <- drop_drop, Hsrc. apply (drop_app_length (c :: l)).
Qed.

(** ** One space behind each word *)

Lemma writes_blank its tl : writes its tl -> writes its (" "%char :: tl).
Proof.
  intros [g Hg|g i w its' tl' Hg Hi Hap Hw].
  - apply writes_end, gap_char; auto.
  - change (" "%char :: g ++ w ++ tl') with ((" "%char :: g) ++ w ++ tl'). apply writes_word; [apply sp_char; auto|done..].
Qed.

(** A number is made of digits. *)
Lemma lexes_digits_inv w : lexes (TOK_INT_LIT, w) -> w <> [] /\ forallb digit w = true.
Proof.
  destruct w as [|c l]; [done|]. intros [_ H]. destruct (H [] 0 0) as (line & col & E). clear H. split; [done|]. revert E. unfold lex_token.
  assert (Hkw : forall w, keyword w <> TOK_INT_LIT).
  { intros w E. pose proof (keyword_type w) as Hk. rewrite E in Hk. revert Hk. vm_compute. intuition discriminate. }
  assert (Hp : punctuation c <> Some TOK_INT_LIT) by (unfold punctuation; by repeat case_match).
  destruct (punctuation c) as [t|]; [intros [= ->]; done|]. unfold lex_excl, lex_lt, lex_gt.
  destruct (c =? "!")%char; [destruct (l ++ _) as [|d l']; simpl; by repeat case_if|].
  destruct (c =? "<")%char; [destruct (l ++ _) as [|d l']; [done|]; simpl; case_if; [by case_if|]; case_if; [by case_if|]; by case_if|].
  destruct (c =? ">")%char; [destruct (l ++ _) as [|d l']; simpl; by repeat case_if|]. destruct (c =? "-")%char; [done|].
  destruct ((c =? "X") || (c =? "x"))%char.
  { destruct (l ++ [" "%char]) as [|d l'] eqn:E; [by destruct l|]. destruct (d =? "'")%char; [|intros [= Hk]; by apply Hkw in Hk].
    destruct (lex_string _ _ _) as [[[ok n] ?] ?]. by destruct ok. }
  destruct ((c =? "_")%char || letter c); [intros [= Hk]; by apply Hkw in Hk|]. destruct (digit c) eqn:Hc.
  - unfold lex_number. rewrite span_space by done. pose proof (span_le digit l) as Hle.
    assert (Hspan : span digit l = length l -> forallb digit (c :: l) = true).
    { intros Hl. simpl. rewrite Hc. pose proof (span_all digit l) as Ha. by rewrite Hl, take_ge in Ha. }
    destruct (drop _ _) as [|x [|y l']]; [intros [= Hl]; by apply Hspan..|]. destruct (_ && _); [done|intros [= Hl]; by apply Hspan].
  - destruct (c =? "'")%char; [|done]. destruct (lex_string _ _ _) as [[[ok n] ?] ?]. by destruct ok.
Qed.

Lemma spelled_itself i : lexes i -> spelled i (snd i).
Proof.
  destruct i as [ty w]. intros Hl. split; [done|]. cbn [fst snd]. destruct ty; try done.
  split; [by apply lexes_digits_inv|done].
Qed.

Lemma writes_text its : Forall lexes its -> writes its (text its).
Proof.
  induction 1 as [|[ty w] its Hl Hr IH]; [apply writes_end; constructor|].
  change (text ((ty, w) :: its)) with ((w ++ [" "%char]) ++ text its). rewrite <- app_assoc.
  apply (writes_word [] (ty, w) w its (" "%char :: text its)); [constructor|by apply (spelled_itself (ty, w))|by destruct ty|by apply writes_blank].
Qed.
