(* ===== verification/SqlRoundtrip.v ===== *)
(** * SqlRoundtrip: statements are read back

    The words of every statement of [Parser.ast], in the order the grammar has
    them, and the proof that the parser makes the same statement of them. *)

From S2P Require Import Tokenizer DecimalFloat Parser SqlPrint SqlLayout Prelude.

Open Scope Z_scope.

(** ** Printing statements *)

Definition named (n : name) : item := (TOK_IDENT, n).

Fixpoint commas {A} (f : A -> list item) (l : list A) : list item :=
  match l with
  | [] => []
  | [x] => f x
  | x :: l' => f x ++ tk TOK_COMMA "," :: commas f l'
  end.

Definition opt {A} (f : A -> list item) (o : option A) : list item := match o with Some x => f x | None => [] end.

(** 64 bits where a number has to stand. *)
Definition bits_items (v : Z) : list item := number_items (if v <? 2 ^ 63 then v else v - 2 ^ 64).

Definition vector_items (flags : Z) : list item :=
  [tk TOK_VECTOR "VECTOR"; tk TOK_LPAREN "("; (TOK_INT_LIT, show (Z.shiftr flags 16)); tk TOK_RPAREN ")"].

Definition type_items (ty : cat_column) (flags : Z) : list item :=
  match ty with
  | CAT_INT32 => [tk TOK_TYPE_INT32 "INT32"]
  | CAT_INT64 => [tk TOK_TYPE_INT64 "INT64"]
  | CAT_FLOAT32 => [tk TOK_TYPE_FLOAT32 "FLOAT32"]
  | CAT_BOOL => [tk TOK_TYPE_BOOL "BOOL"]
  | CAT_TEXT => [tk TOK_TYPE_TEXT "TEXT"]
  | CAT_BLOB => [tk TOK_TYPE_BLOB "BLOB"]
  | CAT_VECTOR => vector_items flags
  end.

Definition column_items (c : coldef) : list item :=
  named (col_name c) :: type_items (col_type c) (col_flags c) ++
  if Z.odd (col_flags c) then [] else [tk TOK_NOT "NOT"; tk TOK_NULL "NULL"].

Definition row_items (row : list expr) : list item :=
  tk TOK_LPAREN "(" :: commas (at_level 5) row ++ [tk TOK_RPAREN ")"].

Definition alias_items : option name -> list item := opt (fun n => [tk TOK_AS "AS"; named n]).
Definition where_items : option expr -> list item := opt (fun e => tk TOK_WHERE "WHERE" :: body e).

Definition join_items : option Parser.join -> list item := opt (fun j =>
  (match join_type_of j with JOIN_INNER => [] | JOIN_LEFT => [tk TOK_LEFT "LEFT"] end) ++
  tk TOK_JOIN "JOIN" :: named (join_table j) :: alias_items (join_alias j) ++ tk TOK_ON "ON" :: body (join_on j)).

Definition order_items : option (order_key * bool) -> list item := opt (fun o : order_key * bool => let '(key, desc) := o in
  tk TOK_ORDER "ORDER" :: tk TOK_BY "BY" ::
  (match key with ORDER_NAME c => qualified_items c | ORDER_EXPR e => body e end) ++
  if desc then [tk TOK_DESC "DESC"] else []).

Definition limit_items (limit offset : Z) : list item :=
  if limit =? -1 then [] else
  tk TOK_LIMIT "LIMIT" :: (TOK_INT_LIT, show limit) ::
  if offset =? 0 then [] else [tk TOK_OFFSET_KW "OFFSET"; (TOK_INT_LIT, show offset)].

Definition projection_items (p : projection) : list item :=
  match p with
  | PROJ_STAR => [tk TOK_STAR "*"]
  | PROJ_COUNT_STAR => [tk TOK_COUNT "COUNT"; tk TOK_LPAREN "("; tk TOK_STAR "*"; tk TOK_RPAREN ")"]
  | PROJ_COLUMNS cs => commas qualified_items cs
  end.

Definition select_items (q : select) : list item :=
  tk TOK_SELECT "SELECT" :: projection_items (sel_proj q) ++ tk TOK_FROM "FROM" :: named (sel_table q) ::
  alias_items (sel_alias q) ++ join_items (sel_join q) ++ where_items (sel_where q) ++
  order_items (sel_order q) ++ limit_items (sel_limit q) (sel_offset q).

Definition ticket_items (n : name) (position t : Z) : list item :=
  tk TOK_FROM "FROM" :: named n :: tk TOK_AT "AT" :: bits_items position ++ tk TOK_TOKEN "TOKEN" :: bits_items t.

Definition statement_items (st : ast) : list item :=
  match st with
  | A_CREATE_TABLE n cols =>
      tk TOK_CREATE "CREATE" :: tk TOK_TABLE "TABLE" :: named n :: tk TOK_LPAREN "(" ::
      commas column_items cols ++ [tk TOK_RPAREN ")"]
  | A_CREATE_INDEX unique n t c =>
      tk TOK_CREATE "CREATE" :: (if unique then [tk TOK_UNIQUE "UNIQUE"] else []) ++
      [tk TOK_INDEX "INDEX"; named n; tk TOK_ON "ON"; named t; tk TOK_LPAREN "("; named c; tk TOK_RPAREN ")"]
  | A_CREATE_QUEUE n => [tk TOK_CREATE "CREATE"; tk TOK_QUEUE "QUEUE"; named n]
  | A_CREATE_STREAM n => [tk TOK_CREATE "CREATE"; tk TOK_STREAM "STREAM"; named n]
  | A_CREATE_CURSOR r n => [tk TOK_CREATE "CREATE"; tk TOK_CURSOR "CURSOR"; named r; tk TOK_ON "ON"; named n]
  | A_DROP_TABLE n => [tk TOK_DROP "DROP"; tk TOK_TABLE "TABLE"; named n]
  | A_DROP_INDEX n => [tk TOK_DROP "DROP"; tk TOK_INDEX "INDEX"; named n]
  | A_DROP_QUEUE n => [tk TOK_DROP "DROP"; tk TOK_QUEUE "QUEUE"; named n]
  | A_DROP_STREAM n => [tk TOK_DROP "DROP"; tk TOK_STREAM "STREAM"; named n]
  | A_DROP_CURSOR r n => [tk TOK_DROP "DROP"; tk TOK_CURSOR "CURSOR"; named r; tk TOK_ON "ON"; named n]
  | A_INSERT n _ rows =>
      tk TOK_INSERT "INSERT" :: tk TOK_INTO "INTO" :: named n :: tk TOK_VALUES "VALUES" :: commas row_items rows
  | A_ENQUEUE n v =>
      tk TOK_ENQUEUE "ENQUEUE" :: tk TOK_INTO "INTO" :: named n :: tk TOK_VALUES "VALUES" :: row_items [v]
  | A_APPEND n v =>
      tk TOK_APPEND "APPEND" :: tk TOK_TO "TO" :: named n :: tk TOK_VALUES "VALUES" :: row_items [v]
  | A_DEQUEUE n => [tk TOK_DEQUEUE "DEQUEUE"; tk TOK_FROM "FROM"; named n]
  | A_READ n r => [tk TOK_READ "READ"; tk TOK_FROM "FROM"; named n; tk TOK_AS "AS"; named r]
  | A_TRIM n v => tk TOK_TRIM "TRIM" :: tk TOK_STREAM "STREAM" :: named n :: tk TOK_BEFORE "BEFORE" :: bits_items v
  | A_CLAIM n v => tk TOK_CLAIM "CLAIM" :: tk TOK_FROM "FROM" :: named n :: tk TOK_FOR "FOR" :: bits_items v
  | A_ACK n p t => tk TOK_ACK "ACK" :: ticket_items n p t
  | A_NACK n p t => tk TOK_NACK "NACK" :: ticket_items n p t
  | A_RENEW n p t v => tk TOK_RENEW "RENEW" :: ticket_items n p t ++ tk TOK_FOR "FOR" :: bits_items v
  | A_BEGIN => [tk TOK_BEGIN "BEGIN"]
  | A_COMMIT => [tk TOK_COMMIT "COMMIT"]
  | A_ROLLBACK => [tk TOK_ROLLBACK "ROLLBACK"]
  | A_SELECT q => select_items q
  | A_UPDATE n c v w =>
      tk TOK_UPDATE "UPDATE" :: named n :: tk TOK_SET "SET" :: named c :: tk TOK_EQ "=" ::
      at_level 5 v ++ tk TOK_WHERE "WHERE" :: body w
  | A_DELETE n w => tk TOK_DELETE "DELETE" :: tk TOK_FROM "FROM" :: named n :: where_items w
  end.

Definition print (st : ast) : list ascii := text (statement_items st).

Example print_read : string_of_list_ascii (print (A_READ (chars "log") (chars "audit"))) = "READ FROM log AS audit "%string.
Proof. vm_compute. reflexivity. Qed.

(** ** Which statements a text can hold *)

Definition whole_number (v : Z) : Prop := 0 <= v < 2 ^ 64.

Definition printable_column (c : coldef) : Prop :=
  is_name (col_name c) /\
  exists dim bit, col_flags c = dim * 2 ^ 16 + bit /\ (bit = 0 \/ bit = 1) /\
    match col_type c with CAT_VECTOR => 1 <= dim <= 4096 | _ => dim = 0 end.

(** Expressions one after the other, with the placeholders counted through. *)
Fixpoint params_of (es : list expr) : nat := match es with [] => 0 | e :: es' => params e + params_of es' end.
Fixpoint bytes_of (es : list expr) : Z := match es with [] => 0 | e :: es' => expr_bytes e + bytes_of es' end.
Fixpoint steps_of (es : list expr) : nat := match es with [] => 4 | e :: es' => steps e + steps_of es' end.
Fixpoint readable (n : nat) (es : list expr) : Prop :=
  match es with
  | [] => True
  | e :: es' => printable n e /\ (nest e < 64)%nat /\ readable (n + params e) es'
  end.

(** The expressions of a statement, in the order they are read. *)
Definition select_exprs (q : select) : list expr :=
  match sel_join q with Some j => [join_on j] | None => [] end ++
  match sel_where q with Some e => [e] | None => [] end ++
  match sel_order q with Some (ORDER_EXPR e, _) => [e] | _ => [] end.

Definition exprs (st : ast) : list expr :=
  match st with
  | A_INSERT _ _ rows => concat rows
  | A_ENQUEUE _ v | A_APPEND _ v => [v]
  | A_UPDATE _ _ v w => [v; w]
  | A_DELETE _ (Some w) => [w]
  | A_SELECT q => select_exprs q
  | A_TRIM _ v | A_CLAIM _ v => [E_LITERAL (L_INT64 v)]
  | A_ACK _ p t | A_NACK _ p t => [E_LITERAL (L_INT64 p); E_LITERAL (L_INT64 t)]
  | A_RENEW _ p t v => [E_LITERAL (L_INT64 p); E_LITERAL (L_INT64 t); E_LITERAL (L_INT64 v)]
  | _ => []
  end.

Definition is_literal (e : expr) : Prop := match e with E_LITERAL _ => True | _ => False end.
Definition is_settable (e : expr) : Prop := match e with E_LITERAL _ | E_PARAM _ => True | _ => False end.
Definition is_distance (e : expr) : Prop :=
  match e with E_BINARY op _ _ => precedence op = None | _ => False end.

Definition opt_name (o : option name) : Prop := match o with Some n => is_name n | None => True end.

Definition printable_select (q : select) : Prop :=
  match sel_proj q with
  | PROJ_COLUMNS cs => (1 <= length cs <= 64)%nat /\ Forall printable_name cs
  | _ => True
  end /\
  is_name (sel_table q) /\ opt_name (sel_alias q) /\
  match sel_join q with Some j => is_name (join_table j) /\ opt_name (join_alias j) | None => True end /\
  match sel_order q with
  | Some (ORDER_NAME c, _) => printable_name c
  | Some (ORDER_EXPR e, _) => is_distance e
  | None => True
  end /\
  (sel_limit q = -1 /\ sel_offset q = 0 \/ 0 <= sel_limit q < 2 ^ 63 /\ 0 <= sel_offset q < 2 ^ 63).

Definition printable_statement (st : ast) : Prop :=
  match st with
  | A_CREATE_TABLE n cols => is_name n /\ (1 <= length cols <= 64)%nat /\ Forall printable_column cols
  | A_CREATE_INDEX _ n t c => is_name n /\ is_name t /\ is_name c
  | A_CREATE_QUEUE n | A_CREATE_STREAM n | A_DROP_TABLE n | A_DROP_INDEX n | A_DROP_QUEUE n | A_DROP_STREAM n
  | A_DEQUEUE n => is_name n
  | A_CREATE_CURSOR r n | A_DROP_CURSOR r n | A_READ n r => is_name r /\ is_name n
  | A_INSERT n count rows =>
      is_name n /\ (1 <= length rows <= 256)%nat /\ Forall (fun row => 1 <= length row <= 64)%nat rows /\
      count = match rows with row :: _ => length row | [] => 0%nat end /\ readable 0 (concat rows)
  | A_ENQUEUE n v | A_APPEND n v => is_name n /\ is_literal v /\ readable 0 [v]
  | A_TRIM n v | A_CLAIM n v => is_name n /\ whole_number v
  | A_ACK n p t | A_NACK n p t => is_name n /\ whole_number p /\ whole_number t
  | A_RENEW n p t v => is_name n /\ whole_number p /\ whole_number t /\ whole_number v
  | A_BEGIN | A_COMMIT | A_ROLLBACK => True
  | A_SELECT q => printable_select q /\ readable 0 (select_exprs q)
  | A_UPDATE n c v w => is_name n /\ is_name c /\ is_settable v /\ readable 0 [v; w]
  | A_DELETE n w => is_name n /\ readable 0 (match w with Some e => [e] | None => [] end)
  end.

(** The bytes of the arena a statement takes beside its expressions. *)
Definition alias_bytes (a : option name) : Z := match a with Some _ => 32 | None => 0 end.

Definition statement_bytes (st : ast) : Z :=
  128 + bytes_of (exprs st) +
  match st with
  | A_CREATE_TABLE _ _ => 64 * 24
  | A_INSERT _ _ rows => 256 * 8 + 64 * 8 * Z.of_nat (length rows)
  | A_SELECT q =>
      match sel_proj q with PROJ_COLUMNS _ => 64 * 32 | _ => 0 end + alias_bytes (sel_alias q) +
      match sel_join q with Some j => 48 + alias_bytes (join_alias j) | None => 0 end +
      match sel_order q with Some (ORDER_NAME _, _) => 32 | _ => 0 end
  | _ => 0
  end.

(** ** The words are words *)

Ltac lex_tk :=
  match goal with |- lexes (tk ?t ?s) =>
    first [ exact (lexes_word (chars s) eq_refl : lexes (tk t s))
          | split; [by split_and! | intros; do 2 eexists; reflexivity] ] end.

Lemma lexes_named n : is_name n -> lexes (named n).
Proof. intros [Hw Hk]. unfold named. rewrite <- Hk. by apply lexes_word. Qed.

Lemma lexes_show v : 0 <= v < 2 ^ 64 -> lexes (TOK_INT_LIT, show v).
Proof. intros Hv. destruct (show_spec v Hv) as (H1 & H2 & _). by apply lexes_digits. Qed.

Ltac lex_all := repeat first
  [ apply list.Forall_nil_2 | apply list.Forall_cons_2 | apply list.Forall_app_2 | lex_tk
  | solve [apply lexes_named; done] | solve [apply lexes_show; lia] | done ].

Lemma lexes_number v : - 2 ^ 63 <= v < 2 ^ 63 -> Forall lexes (number_items v).
Proof. intros Hv. unfold number_items. destruct (v <? 0) eqn:E; [apply Z.ltb_lt in E|apply Z.ltb_ge in E]; lex_all. Qed.

Lemma lexes_bits v : whole_number v -> Forall lexes (bits_items v).
Proof.
  unfold whole_number, bits_items. intros Hv. apply lexes_number.
  destruct (v <? 2 ^ 63) eqn:E; [apply Z.ltb_lt in E|apply Z.ltb_ge in E]; lia.
Qed.

Lemma lexes_qualified c : printable_name c -> Forall lexes (qualified_items c).
Proof. destruct c as [[q|] c]; intros [Hq Hc]; cbn [qualified_items fst snd] in *; fold (named c); try fold (named q); lex_all. Qed.

Lemma lexes_literal l : printable_literal l -> Forall lexes (literal_items l).
Proof.
  destruct l as [v| |b|b|[]| |]; simpl; try done; intros Hl; lex_all.
  - by apply lexes_number.
  - apply lexes_string.
  - apply lexes_blob.
Qed.

Lemma lexes_op op : lexes (op_item op).
Proof. destruct op; cbn [op_item]; lex_tk. Qed.

Lemma lexes_parens b its : Forall lexes its -> Forall lexes (parens b its).
Proof. intros H. destruct b; [|done]. unfold parens. lex_all. Qed.

Lemma lexes_body e n : printable n e -> Forall lexes (body e).
Proof.
  revert n. induction e as [l|q c|i|op e IH|op l IHl r IHr]; intros n Hp; cbn [body printable] in *.
  - by apply lexes_literal.
  - by apply lexes_qualified.
  - lex_all.
  - specialize (IH n Hp). destruct op; lex_all; by apply lexes_parens.
  - destruct Hp as [Hl Hr]. specialize (IHl _ Hl). specialize (IHr _ Hr).
    destruct (precedence op); lex_all; (apply lexes_op || by apply lexes_parens).
Qed.

Lemma lexes_commas {A} (f : A -> list item) l : Forall (fun x => Forall lexes (f x)) l -> Forall lexes (commas f l).
Proof. induction 1 as [|x [|y l] Hx Hl IH]; cbn [commas]; [done|done|]. lex_all. Qed.

Lemma lexes_column c : printable_column c -> Forall lexes (column_items c).
Proof.
  intros (Hn & dim & bit & Hf & Hb & Ht). unfold column_items. lex_all.
  - assert (Hd : Z.shiftr (col_flags c) 16 = dim).
    { rewrite Z.shiftr_div_pow2, Hf, Z.add_comm, Z.div_add by lia. rewrite Z.div_small by lia. lia. }
    destruct (col_type c); cbn [type_items]; unfold vector_items; rewrite ?Hd; lex_all.
  - destruct (Z.odd (col_flags c)); lex_all.
Qed.

Lemma readable_app n es es' : readable n (es ++ es') <-> readable n es /\ readable (n + params_of es) es'.
Proof.
  revert n. induction es as [|e es IH]; intros n; simpl; [rewrite Nat.add_0_r; tauto|].
  rewrite IH, Nat.add_assoc. tauto.
Qed.

Lemma lexes_values es n : readable n es -> Forall (fun e => Forall lexes (at_level 5 e)) es.
Proof.
  revert n. induction es as [|e es IH]; intros n H; constructor; destruct H as (Hp & _ & Hr).
  - by apply lexes_parens, (lexes_body e n).
  - by apply (IH (n + params e)%nat).
Qed.

Lemma lexes_rows rows n : readable n (concat rows) -> Forall (fun row => Forall lexes (row_items row)) rows.
Proof.
  revert n. induction rows as [|row rows IH]; intros n H; constructor; apply readable_app in H as [H1 H2].
  - unfold row_items. lex_all. by apply lexes_commas, (lexes_values row n).
  - by apply (IH (n + params_of row)%nat).
Qed.

Lemma lexes_opt {A} (f : A -> list item) o : (forall x, o = Some x -> Forall lexes (f x)) -> Forall lexes (opt f o).
Proof. destruct o; simpl; [auto|constructor]. Qed.

Lemma lexes_alias a : opt_name a -> Forall lexes (alias_items a).
Proof. intros H. apply lexes_opt. intros n ->. lex_all. Qed.

Lemma lexes_select q : printable_select q -> readable 0 (select_exprs q) -> Forall lexes (select_items q).
Proof.
  intros (Hp & Ht & Ha & Hj & Ho & Hl) Hr. unfold select_exprs in Hr. rewrite !readable_app in Hr. destruct Hr as (Hrj & Hrw & Hro).
  unfold select_items. lex_all.
  - destruct (sel_proj q) as [| |cs]; unfold projection_items; lex_all. apply lexes_commas. destruct Hp as [_ Hp].
    revert Hp. apply Forall_impl. apply lexes_qualified.
  - by apply lexes_alias.
  - apply lexes_opt. intros j E. rewrite E in Hj, Hrj. destruct Hj, Hrj as [Hon _]. destruct (join_type_of j); lex_all;
      first [by apply lexes_alias | by eapply lexes_body].
  - apply lexes_opt. intros e E. rewrite E in Hrw. destruct Hrw as [He _]. lex_all. by eapply lexes_body.
  - apply lexes_opt. intros [key desc] E. rewrite E in Ho, Hro. destruct key as [c|e]; destruct desc; lex_all;
      first [by apply lexes_qualified | destruct Hro as [He _]; by eapply lexes_body].
  - unfold limit_items. destruct (sel_limit q =? -1) eqn:E1; [done|]. apply Z.eqb_neq in E1.
    destruct (sel_offset q =? 0); lex_all.
Qed.

Lemma lexes_ticket n p t : is_name n -> whole_number p -> whole_number t -> Forall lexes (ticket_items n p t).
Proof. intros. unfold ticket_items. lex_all; by apply lexes_bits. Qed.

Lemma lexes_statement st : printable_statement st -> Forall lexes (statement_items st).
Proof.
  assert (Hv : forall v, readable 0 [v] -> Forall lexes (commas (at_level 5) [v])) by (intros; by apply lexes_commas, (lexes_values [v] 0)).
  destruct st; cbn [printable_statement statement_items]; intros H; destruct_and?; try (by apply lexes_select);
    lex_all; try (by apply lexes_bits); try (by apply lexes_ticket); try (by apply Hv).
  - apply lexes_commas. eapply Forall_impl; [|done]. apply lexes_column.
  - destruct unique; lex_all.
  - by apply lexes_commas, (lexes_rows rows 0).
  - match goal with H : readable 0 [_; _] |- _ => destruct H as (Hp & _ & _) end. by apply lexes_parens, (lexes_body value 0).
  - match goal with H : readable 0 [_; _] |- _ => destruct H as (_ & _ & Hp & _) end. by eapply lexes_body.
  - apply lexes_opt. intros e ->. match goal with H : readable 0 [_] |- _ => destruct H as (Hp & _) end. lex_all. by eapply lexes_body.
Qed.

(** ** Statements are read back *)

Section statements.
Context (src : list ascii) (cap : Z) (Hcap : cap < 2 ^ 64).
Context (fuel : nat).

Abbreviation runs := (runs src cap).
Abbreviation post A := (A -> list item -> Z -> nat -> Prop).

Ltac word := apply runs_bind; first [apply runs_expect | apply runs_ident].
Ltac room size := apply runs_bind; apply (runs_alloc_stmt src cap Hcap); [lia|change (round8 _) with size; lia|];
  change (round8 _) with size.

Lemma bytes_of_pos es : 0 <= bytes_of es.
Proof. induction es as [|e es IH]; simpl; [lia|]. pose proof (bytes_pos e). lia. Qed.

Lemma statement_bytes_ge st : 128 <= statement_bytes st.
Proof.
  unfold statement_bytes. pose proof (bytes_of_pos (exprs st)). destruct st; try lia.
  unfold alias_bytes. repeat case_match; lia.
Qed.

Lemma bytes_of_app es es' : bytes_of (es ++ es') = bytes_of es + bytes_of es'.
Proof. induction es as [|e es IH]; simpl; [done|]. rewrite IH. lia. Qed.
Lemma params_of_app es es' : params_of (es ++ es') = (params_of es + params_of es')%nat.
Proof. induction es as [|e es IH]; simpl; [done|]. rewrite IH. lia. Qed.
Lemma steps_of_app es es' : (steps_of es <= steps_of (es ++ es') /\ steps_of es' <= steps_of (es ++ es'))%nat.
Proof.
  induction es as [|e es IH]; simpl; [|lia]. split; [|done]. induction es' as [|e es' IH]; simpl; lia.
Qed.

Lemma runs_number v its u n (Q : post Z) : whole_number v -> (4 < fuel)%nat -> 0 <= u -> u + 64 <= cap ->
  Q v its (u + 64) n -> runs (number_literal src fuel) (bits_items v ++ its) u n 0 Q.
Proof.
  unfold whole_number. intros Hv Hf Hu Hc HQ. apply runs_bind. destruct fuel as [|f]; [lia|].
  unfold bits_items. set (s := if v <? 2 ^ 63 then v else v - 2 ^ 64).
  assert (Hs : - 2 ^ 63 <= s < 2 ^ 63 /\ u64 s = v).
  { subst s. destruct (v <? 2 ^ 63) eqn:E; [apply Z.ltb_lt in E|apply Z.ltb_ge in E]; (split; [lia|]).
    - apply Z.mod_small. lia.
    - unfold u64. rewrite <- (Z_mod_plus_full _ 1), Z.mod_small; lia. }
  apply (runs_literal src cap Hcap f (L_INT64 s)); [apply Hs|done|done|]. destruct Hs as [_ ->]. by apply runs_ret.
Qed.

Lemma runs_val_loop row room its u n (Q : post (list expr)) : (1 <= length row <= room)%nat -> readable n row ->
  (steps_of row < fuel)%nat -> 0 <= u -> u + bytes_of row <= cap -> Q row its (u + bytes_of row) (n + params_of row)%nat ->
  runs (val_loop src fuel room) (commas (at_level 5) row ++ tk TOK_RPAREN ")" :: its) u n 0 Q.
Proof.
  revert room u n Q. induction row as [|e row IH]; intros room u n Q Hl Hr Hs Hu Hc HQ; [simpl in Hl; lia|].
  destruct room as [|room]; [simpl in Hl; lia|]. destruct Hr as (Hp & Hn & Hr). cbn [val_loop bytes_of params_of steps_of length] in *.
  pose proof (bytes_pos e). pose proof (bytes_of_pos row).
  assert (4 <= steps_of row)%nat by (clear; induction row; simpl; lia).
  destruct row as [|e2 row].
  - cbn [commas]. apply runs_bind, (runs_value src cap Hcap); try done; try lia.
    apply runs_bind, runs_take. intros k (-> & _). apply runs_ret. cbn [bytes_of params_of] in HQ.
    by rewrite Z.add_0_r, Nat.add_0_r in HQ.
  - change (commas (at_level 5) (e :: e2 :: row)) with (at_level 5 e ++ tk TOK_COMMA "," :: commas (at_level 5) (e2 :: row)).
    rewrite <- app_assoc. cbn [app]. apply runs_bind, (runs_value src cap Hcap); try done; try lia.
    apply runs_bind, runs_take. intros k (-> & _). cbn [tail].
    apply runs_bind, IH; try done; try lia; [simpl in Hl; simpl; lia|]. apply runs_ret.
    by rewrite <- Z.add_assoc, <- Nat.add_assoc.
Qed.

Lemma runs_row_loop rows room u n (Q : post (list (list expr))) : (1 <= length rows <= room)%nat ->
  Forall (fun row => 1 <= length row <= 64)%nat rows -> readable n (concat rows) ->
  (steps_of (concat rows) < fuel)%nat -> 0 <= u -> u + 512 * Z.of_nat (length rows) + bytes_of (concat rows) <= cap ->
  Q rows [] (u + 512 * Z.of_nat (length rows) + bytes_of (concat rows)) (n + params_of (concat rows))%nat ->
  runs (row_loop src fuel room) (commas row_items rows) u n 0 Q.
Proof.
  revert room u n Q. induction rows as [|row rows IH]; intros room u n Q Hl Hf Hr Hs Hu Hc HQ; [simpl in Hl; lia|].
  destruct room as [|room]; [simpl in Hl; lia|]. apply list.Forall_cons in Hf as [Hrow Hf]. cbn [concat] in *.
  apply readable_app in Hr as [Hr1 Hr2]. rewrite bytes_of_app in *. rewrite params_of_app in *.
  pose proof (steps_of_app row (concat rows)). pose proof (bytes_of_pos row). pose proof (bytes_of_pos (concat rows)).
  assert (Hstart : forall its (Q : post (list (list expr))),
    runs (k ← look_token;
      if decide (tok k = TOK_COMMA) then _ ← take_token; rows ← row_loop src fuel room; mret (row :: rows) else mret [row])
      its (u + 512 + bytes_of row) (n + params_of row) 0 Q ->
    runs (row_loop src fuel (S room)) (row_items row ++ its) u n 0 Q).
  { intros its Q' Hgo. cbn [row_loop]. unfold row_items. cbn [app]. rewrite <- app_assoc. cbn [app length] in *.
    apply runs_bind, runs_expect. room 512. apply runs_bind, runs_val_loop; try done; try lia. }
  destruct rows as [|row2 rows].
  - cbn [commas concat length] in *. rewrite <- (app_nil_r (row_items row)). apply Hstart.
    apply runs_bind, runs_look. intros k Hk. simpl in Hk. rewrite decide_False by (by rewrite Hk). apply runs_ret.
    simpl in HQ. rewrite Z.add_0_r, Nat.add_0_r in HQ. exact HQ.
  - change (commas row_items (row :: row2 :: rows)) with (row_items row ++ tk TOK_COMMA "," :: commas row_items (row2 :: rows)).
    apply Hstart. apply runs_bind, runs_look. intros k (Hk & _). rewrite decide_True by done.
    apply runs_bind, runs_take. intros _ _. cbn [tail]. cbn [length] in *. apply runs_bind, IH; try done; try lia.
    apply runs_ret. cbn [length]. rewrite <- Nat.add_assoc.
    replace (u + 512 + bytes_of row + 512 * Z.of_nat (S (length rows)) + bytes_of (concat (row2 :: rows)))
      with (u + 512 * Z.of_nat (S (S (length rows))) + (bytes_of row + bytes_of (concat (row2 :: rows)))) by lia. exact HQ.
Qed.

(** *** Columns of a table *)

Lemma vector_dim_wraps l acc : forallb digit l = true -> 0 <= acc < 2 ^ 32 ->
  vector_dim acc l = Some (u32 (fold_left (fun x c => 10 * x + (code c - code "0")) l acc)).
Proof.
  revert acc. induction l as [|c l IH]; intros acc Hl Ha; simpl in *; [by unfold u32; rewrite Z.mod_small|].
  apply andb_true_iff in Hl as [Hc Hl]. rewrite Hc. pose proof (digit_range _ Hc). rewrite IH; [|done|apply Z.mod_pos_bound; lia].
  f_equal. unfold u32. rewrite Zplus_mod_idemp_l. rewrite (Z.mul_comm acc).
  generalize (10 * acc + (code c - code "0")). clear. induction l as [|d l IH]; intros x; simpl; [apply Zmod_mod|].
  rewrite <- IH, <- (IH (10 * x + _)). f_equal. f_equal. rewrite Zplus_mod, (Z.mul_comm 10), Zmult_mod_idemp_l, <- Zplus_mod.
  by rewrite (Z.mul_comm x).
Qed.

Lemma runs_column_type c dim bit its u n (Q : post (cat_column * Z)) :
  col_flags c = dim * 2 ^ 16 + bit -> (bit = 0 \/ bit = 1) ->
  match col_type c with CAT_VECTOR => 1 <= dim <= 4096 | _ => dim = 0 end ->
  Q (col_type c, dim * 2 ^ 16 + 1) its u n -> runs (column_type src) (type_items (col_type c) (col_flags c) ++ its) u n 0 Q.
Proof.
  intros Hf Hb Ht HQ. apply runs_bind, runs_take. intros k Hk.
  assert (Hd : Z.shiftr (col_flags c) 16 = dim).
  { rewrite Z.shiftr_div_pow2, Hf, Z.add_comm, Z.div_add by lia. rewrite Z.div_small by lia. lia. }
  destruct (col_type c); cbn [type_items app] in *; destruct Hk as (-> & _); subst dim; rewrite ?Ht in HQ;
    try (by apply runs_ret).
  unfold vector_items. cbn [app tail]. set (dim := Z.shiftr (col_flags c) 16) in *. apply runs_bind, runs_bind, runs_take.
  intros k1 (Hk1 & _). rewrite bool_decide_true by done. cbn [negb tail].
  apply runs_bind, runs_look. intros k2 (Hk2 & _). rewrite decide_False by (by rewrite Hk2).
  apply runs_bind, runs_ret. cbn [negb]. apply runs_bind, runs_take. intros k3 (Hk3 & Ht3 & _).
  destruct Ht3 as [[_ Hw3] Hv3]. destruct (show_spec dim ltac:(lia)) as (_ & _ & Hs3).
  rewrite bool_decide_true by done. cbn [negb tail]. rewrite (vector_dim_wraps _ 0) by (done || lia).
  fold (digits_value (token_text src k3)). rewrite Hv3, Hs3, u32_small by lia.
  destruct ((dim =? 0) || (4096 <? dim)) eqn:E; [lia|].
  apply runs_bind, runs_take. intros k4 (Hk4 & _). rewrite decide_True by done. cbn [tail]. apply runs_ret, runs_ret.
  replace (Z.lor (Z.shiftl dim 16) CAT_NULLABLE) with (dim * 2 ^ 16 + 1); [done|].
  unfold CAT_NULLABLE. rewrite Z.lor_comm, lor_add_shift by lia. lia.
Qed.

Lemma runs_column c its (Q : post Z) dim bit u n : col_flags c = dim * 2 ^ 16 + bit -> (bit = 0 \/ bit = 1) ->
  0 <= dim -> head_type its = TOK_COMMA \/ head_type its = TOK_RPAREN -> Q (col_flags c) its u n ->
  runs (nullability (dim * 2 ^ 16 + 1))
    ((if Z.odd (col_flags c) then [] else [tk TOK_NOT "NOT"; tk TOK_NULL "NULL"]) ++ its) u n 0 Q.
Proof.
  intros Hf Hb Hd Hh HQ. apply runs_bind, runs_look. intros k Hk. rewrite Hf in *.
  assert (Hodd : Z.odd (dim * 2 ^ 16 + bit) = Z.odd bit).
  { rewrite Z.odd_add, Z.odd_mul. change (Z.odd (2 ^ 16)) with false. by rewrite andb_false_r. }
  rewrite Hodd in *. destruct Hb as [-> | ->]; cbn [Z.odd app] in *.
  - destruct Hk as (Hk & _). rewrite decide_False, decide_True by (by rewrite Hk).
    apply runs_bind, runs_take. intros _ _. apply runs_bind, runs_take. intros k2 (Hk2 & _). rewrite decide_True by done. apply runs_ret.
    replace (Z.land (dim * 2 ^ 16 + 1) (Z.lnot CAT_NULLABLE)) with (dim * 2 ^ 16 + 0); [done|].
    change CAT_NULLABLE with (Z.ones 1). rewrite <- Z.ldiff_land, Z.ldiff_ones_r, Z.shiftl_mul_pow2, Z.shiftr_div_pow2 by lia.
    replace (dim * 2 ^ 16 + 1) with (1 + dim * 2 ^ 15 * 2 ^ 1) by lia. rewrite Z.div_add by lia. change (1 / 2 ^ 1) with 0. lia.
  - apply stands_for_head in Hk. rewrite !decide_False by (rewrite Hk; by destruct Hh as [-> | ->]). by apply runs_ret.
Qed.

Lemma runs_col_loop cols room its u n (Q : post (list coldef)) : (1 <= length cols <= room)%nat -> Forall printable_column cols ->
  Q cols its u n -> runs (col_loop src room) (commas column_items cols ++ tk TOK_RPAREN ")" :: its) u n 0 Q.
Proof.
  revert room u n Q. induction cols as [|c cols IH]; intros room u n Q Hl Hf HQ; [simpl in Hl; lia|].
  destruct room as [|room]; [simpl in Hl; lia|]. apply list.Forall_cons in Hf as [Hc Hf].
  assert (Hstart : forall its0 (Q : post (list coldef)), head_type its0 = TOK_COMMA \/ head_type its0 = TOK_RPAREN ->
    runs (k ← take_token;
      match tok k with
      | TOK_COMMA => cols ← col_loop src room; mret (mk_coldef (col_name c) (col_type c) (col_flags c) :: cols)
      | TOK_RPAREN => mret [mk_coldef (col_name c) (col_type c) (col_flags c)]
      | _ => bad "expected ','"
      end) its0 u n 0 Q ->
    runs (col_loop src (S room)) (column_items c ++ its0) u n 0 Q).
  { intros its0 Q' Hh Hgo. cbn [col_loop]. destruct Hc as (_ & dim & bit & Hfl & Hb & Ht). unfold column_items. cbn [app].
    apply runs_bind, runs_ident. rewrite <- app_assoc. apply runs_bind, (runs_column_type c dim bit); try done.
    apply runs_bind, (runs_column c _ _ dim bit); try done. destruct (col_type c); lia. }
  destruct cols as [|c2 cols].
  - cbn [commas]. apply Hstart; [by right|]. apply runs_bind, runs_take. intros k (-> & _). apply runs_ret. by destruct c.
  - change (commas column_items (c :: c2 :: cols)) with (column_items c ++ tk TOK_COMMA "," :: commas column_items (c2 :: cols)).
    rewrite <- app_assoc. apply Hstart; [by left|]. apply runs_bind, runs_take. intros k (-> & _). cbn [tail].
    apply runs_bind, IH; [simpl in *; lia|done|]. apply runs_ret. by destruct c.
Qed.

(** *** The clauses of a SELECT *)

Lemma runs_qualify q c its u n (Q : post qualified) : head_type its <> TOK_DOT -> Q (q, c) its u n ->
  runs (first ← ident src "expected column name"; qualify src first) (qualified_items (q, c) ++ its) u n 0 Q.
Proof.
  intros Hh HQ. destruct q as [q|]; cbn [qualified_items app].
  - apply runs_bind, runs_ident, runs_bind, runs_look. intros k (Hk & _). rewrite decide_True by done.
    apply runs_bind, runs_take. intros _ _. cbn [tail]. apply runs_bind, runs_ident. by apply runs_ret.
  - apply runs_bind, runs_ident, runs_bind, runs_look. intros k Hk. apply stands_for_head in Hk.
    rewrite decide_False by (by rewrite Hk). by apply runs_ret.
Qed.

Lemma bind_assoc {A B C} (m : P A) (f : A -> P B) (g : B -> P C) its u n d (Q : post C) :
  runs (y ← (x ← m; f x); g y) its u n d Q -> runs (x ← m; y ← f x; g y) its u n d Q.
Proof.
  intros H s Hs. destruct (H s Hs) as (x & s' & its' & u' & n' & E & H1 & H2). exists x, s', its', u', n'.
  split; [|done]. rewrite <- E. unfold mbind, P_bind. by destruct (m s) as [[y|rc e|] s1].
Qed.

Lemma runs_proj_loop cs room its u n (Q : post (list qualified)) : (1 <= length cs <= room)%nat ->
  head_type its <> TOK_DOT -> head_type its <> TOK_COMMA -> Q cs its u n ->
  runs (proj_loop src room) (commas qualified_items cs ++ its) u n 0 Q.
Proof.
  revert room u n Q. induction cs as [|[q c] cs IH]; intros room u n Q Hl Hd Hc HQ; [simpl in Hl; lia|].
  destruct room as [|room]; [simpl in Hl; lia|]. cbn [proj_loop]. apply bind_assoc.
  destruct cs as [|c2 cs].
  - cbn [commas]. apply runs_bind, runs_qualify; [done|]. apply runs_bind, runs_look. intros k Hk. apply stands_for_head in Hk.
    rewrite decide_False by (by rewrite Hk). by apply runs_ret.
  - change (commas qualified_items ((q, c) :: c2 :: cs)) with (qualified_items (q, c) ++ tk TOK_COMMA "," :: commas qualified_items (c2 :: cs)).
    rewrite <- app_assoc. apply runs_bind, runs_qualify; [done|]. apply runs_bind, runs_look. intros k (Hk & _). rewrite decide_True by done.
    apply runs_bind, runs_take. intros _ _. cbn [tail app]. apply runs_bind, IH; try done; [simpl in *; lia|]. by apply runs_ret.
Qed.

Definition proj_bytes (p : projection) : Z := match p with PROJ_COLUMNS _ => 64 * 32 | _ => 0 end.

Lemma runs_projection p its u n (Q : post projection) : head_type its <> TOK_DOT -> head_type its <> TOK_COMMA ->
  match p with PROJ_COLUMNS cs => (1 <= length cs <= 64)%nat | _ => True end ->
  0 <= u -> u + proj_bytes p <= cap -> Q p its (u + proj_bytes p) n ->
  runs (select_projection src) (projection_items p ++ its) u n 0 Q.
Proof.
  intros Hd Hc Hp Hu Hb HQ. apply runs_bind, runs_look. intros k Hk. unfold proj_bytes in *.
  destruct p as [| |cs]; cbn [projection_items app] in *; rewrite ?Z.add_0_r in *.
  - destruct Hk as (-> & _). apply runs_bind, runs_take. intros _ _. by apply runs_ret.
  - destruct Hk as (-> & _). apply runs_bind, runs_take. intros _ _. cbn [tail]. do 3 (apply runs_bind, runs_expect).
    apply runs_bind, runs_look. intros k2 Hk2. apply stands_for_head in Hk2. rewrite decide_False by (by rewrite Hk2). by apply runs_ret.
  - assert (Hty : tok k = TOK_IDENT).
    { destruct cs as [|[[q|] c] [|c2 cs]]; [simpl in Hp; lia|..]; by destruct Hk as (-> & _). }
    rewrite Hty. room (64 * 32). apply runs_bind, runs_proj_loop; try done. by apply runs_ret.
Qed.

Lemma runs_alias a its u n (Q : post (option name)) : head_type its <> TOK_AS -> head_type its <> TOK_IDENT ->
  0 <= u -> u + alias_bytes a <= cap -> Q a its (u + alias_bytes a) n -> runs (alias src) (alias_items a ++ its) u n 0 Q.
Proof.
  intros H1 H2 Hu Hc HQ. apply runs_bind, runs_look. intros k Hk. destruct a as [a|]; cbn [alias_items opt alias_bytes app] in *.
  - destruct Hk as (-> & _). apply runs_bind, runs_take. intros _ _. cbn [tail]. apply runs_bind, runs_ident. room 32. by apply runs_ret.
  - apply stands_for_head in Hk. rewrite Hk. rewrite Z.add_0_r in HQ. destruct (head_type its); try done; by apply runs_ret.
Qed.

(** What may follow an expression in a SELECT. *)
Definition starts (ts : list tok_type) (its : list item) : Prop := head_type its ∈ ts.

Lemma starts_not ts its t : starts ts its -> bool_decide (t ∈ ts) = false -> head_type its <> t.
Proof. intros H Ht E. apply bool_decide_eq_false in Ht. unfold starts in H. by rewrite E in H. Qed.

Ltac not_start H := apply (starts_not _ _ _ H); vm_compute; reflexivity.

Lemma starts_follow its : starts [TOK_EOF; TOK_LIMIT; TOK_ORDER; TOK_WHERE] its -> follow its = 0%nat.
Proof.
  unfold starts, follow. rewrite !elem_of_cons, elem_of_nil. by intros [-> |[-> |[-> |[-> |[]]]]].
Qed.

Lemma starts_sub ts ts' its : starts ts its -> forallb (fun t => bool_decide (t ∈ ts')) ts = true -> starts ts' its.
Proof.
  intros H Hs. rewrite forallb_forall in Hs. apply list_elem_of_In in H. apply Hs in H. by apply bool_decide_eq_true in H.
Qed.

Lemma starts_opt {A} (f : A -> list item) o t ts its : (forall x, head_type (f x ++ its) = t) -> starts ts its ->
  starts (t :: ts) (opt f o ++ its).
Proof. intros Hf H. destruct o as [x|]; unfold starts in *; simpl; [rewrite Hf; by left|by right]. Qed.

Lemma starts_limit l o : starts [TOK_EOF; TOK_LIMIT] (limit_items l o).
Proof. unfold limit_items, starts. destruct (l =? -1); [by left|by right; left]. Qed.

Definition where_exprs (w : option expr) : list expr := match w with Some e => [e] | None => [] end.

Lemma runs_where w its u n (Q : post (option expr)) : starts [TOK_EOF; TOK_LIMIT; TOK_ORDER] its ->
  readable n (where_exprs w) -> (steps_of (where_exprs w) < fuel)%nat -> 0 <= u -> u + bytes_of (where_exprs w) <= cap ->
  Q w its (u + bytes_of (where_exprs w)) (n + params_of (where_exprs w))%nat ->
  runs (where_clause src fuel) (where_items w ++ its) u n 0 Q.
Proof.
  intros Hst Hr Hs Hu Hc HQ. apply runs_bind, runs_look. intros k Hk. destruct w as [e|]; cbn [where_items where_exprs opt app] in *.
  - destruct Hr as (Hp & Hn & _). destruct Hk as (Hk & _). rewrite decide_True by done. apply runs_bind, runs_take. intros _ _. cbn [tail].
    cbn [bytes_of params_of steps_of] in *. rewrite Z.add_0_r, Nat.add_0_r in *.
    apply runs_bind, (runs_expr src cap Hcap); try done; try lia; [not_start Hst| |by apply runs_ret].
    apply starts_follow, (starts_sub _ _ _ Hst). vm_compute. reflexivity.
  - apply stands_for_head in Hk. rewrite decide_False by (rewrite Hk; not_start Hst). apply runs_ret.
    simpl in HQ. by rewrite Z.add_0_r, Nat.add_0_r in HQ.
Qed.

Definition join_exprs (j : option Parser.join) : list expr := match j with Some j => [join_on j] | None => [] end.
Definition join_bytes (j : option Parser.join) : Z := match j with Some j => 48 + alias_bytes (join_alias j) | None => 0 end.

Lemma runs_join j its u n (Q : post (option Parser.join)) : starts [TOK_EOF; TOK_LIMIT; TOK_ORDER; TOK_WHERE] its ->
  readable n (join_exprs j) -> (steps_of (join_exprs j) < fuel)%nat -> 0 <= u -> u + join_bytes j + bytes_of (join_exprs j) <= cap ->
  Q j its (u + join_bytes j + bytes_of (join_exprs j)) (n + params_of (join_exprs j))%nat ->
  runs (select_join src fuel) (join_items j ++ its) u n 0 Q.
Proof.
  intros Hst Hr Hs Hu Hc HQ. unfold join_bytes, join_exprs in *.
  apply runs_bind, runs_look. intros k Hk. destruct j as [[ty t a on]|]; cbn [join_items opt join_type_of join_table join_alias join_on] in *.
  - assert (Hbody : runs (select_join_table src fuel ty)
      (named t :: alias_items a ++ tk TOK_ON "ON" :: body on ++ its) u n 0 Q).
    { destruct Hr as (Hp & Hn & _). cbn [bytes_of params_of steps_of] in *. rewrite Z.add_0_r, Nat.add_0_r in *.
      assert (0 <= alias_bytes a) by (destruct a; simpl; lia). pose proof (bytes_pos on).
      unfold select_join_table. room 48. apply runs_bind, runs_ident.
      apply runs_bind, runs_alias; try done; try lia. apply runs_bind, runs_expect.
      apply runs_bind, (runs_expr src cap Hcap); try done; try lia; [not_start Hst|by apply starts_follow|]. apply runs_ret.
      by replace (u + 48 + alias_bytes a + expr_bytes on) with (u + (48 + alias_bytes a) + expr_bytes on) by lia. }
    destruct ty; cbn [app] in *; rewrite <- app_assoc in *; cbn [app] in *; destruct Hk as (-> & _);
      apply runs_bind, runs_take; intros _ _; cbn [tail]; [done|]. by apply runs_bind, runs_expect.
  - apply stands_for_head in Hk. rewrite Hk. simpl in HQ. rewrite !Z.add_0_r, Nat.add_0_r in HQ.
    pose proof (starts_not _ _ TOK_JOIN Hst ltac:(vm_compute; reflexivity)).
    pose proof (starts_not _ _ TOK_INNER Hst ltac:(vm_compute; reflexivity)).
    pose proof (starts_not _ _ TOK_LEFT Hst ltac:(vm_compute; reflexivity)).
    cbn [app]. destruct (head_type its); try done; by apply runs_ret.
Qed.

Definition order_exprs (o : option (order_key * bool)) : list expr := match o with Some (ORDER_EXPR e, _) => [e] | _ => [] end.
Definition order_bytes (o : option (order_key * bool)) : Z := match o with Some (ORDER_NAME _, _) => 32 | _ => 0 end.

Lemma runs_direction (key : order_key) (desc : bool) its u n (Q : post (option (order_key * bool))) :
  starts [TOK_EOF; TOK_LIMIT] its -> Q (Some (key, desc)) its u n ->
  runs (k ← look_token;
    match tok k with
    | TOK_ASC => _ ← take_token; mret (Some (key, false))
    | TOK_DESC => _ ← take_token; mret (Some (key, true))
    | _ => mret (Some (key, false))
    end) ((if desc then [tk TOK_DESC "DESC"] else []) ++ its) u n 0 Q.
Proof.
  intros Hst HQ. apply runs_bind, runs_look. intros k Hk. destruct desc; cbn [app] in *.
  - destruct Hk as (-> & _). apply runs_bind, runs_take. intros _ _. by apply runs_ret.
  - apply stands_for_head in Hk. rewrite Hk. pose proof (starts_not _ _ TOK_ASC Hst ltac:(vm_compute; reflexivity)).
    pose proof (starts_not _ _ TOK_DESC Hst ltac:(vm_compute; reflexivity)). destruct (head_type its); try done; by apply runs_ret.
Qed.

Lemma runs_order o its u n (Q : post (option (order_key * bool))) : starts [TOK_EOF; TOK_LIMIT] its ->
  match o with Some (ORDER_EXPR e, _) => is_distance e | _ => True end ->
  readable n (order_exprs o) -> (steps_of (order_exprs o) < fuel)%nat -> 0 <= u -> u + order_bytes o + bytes_of (order_exprs o) <= cap ->
  Q o its (u + order_bytes o + bytes_of (order_exprs o)) (n + params_of (order_exprs o))%nat ->
  runs (order_clause src fuel) (order_items o ++ its) u n 0 Q.
Proof.
  intros Hst Ho Hr Hs Hu Hc HQ. unfold order_bytes, order_exprs in *.
  apply runs_bind, runs_look. intros k Hk. destruct o as [[key desc]|]; cbn [order_items opt app] in *.
  - destruct Hk as (Hk & _). rewrite decide_True by done. apply runs_bind, runs_take. intros _ _. cbn [tail]. apply runs_bind, runs_expect.
    rewrite <- app_assoc. set (its2 := _ ++ its).
    assert (Hst2 : starts [TOK_DESC; TOK_EOF; TOK_LIMIT] its2) by (subst its2; unfold starts in *; destruct desc; [by left|by right]).
    apply runs_bind, runs_bind, runs_look. intros k2 Hk2. destruct key as [[q c]|e].
    + cbn [bytes_of params_of] in *. rewrite Z.add_0_r, Nat.add_0_r in *. destruct q as [q|]; cbn [qualified_items app] in *.
      * destruct Hk2 as (-> & _). apply runs_bind, runs_take. intros k3 (_ & Ht & _). cbn [tail]. apply runs_bind, runs_look. intros k4 (-> & _).
        room 32. apply runs_bind, runs_bind, runs_look. intros k5 (Hk5 & _). rewrite decide_True by done.
        apply runs_bind, runs_take. intros _ _. cbn [tail]. apply runs_bind, runs_ident, runs_ret, runs_ret. rewrite Ht. by apply runs_direction.
      * destruct Hk2 as (-> & _). apply runs_bind, runs_take. intros k3 (_ & Ht & _). cbn [tail]. apply runs_bind, runs_look. intros k4 Hk4.
        apply stands_for_head in Hk4.
        assert (Hname : runs (alloc_stmt AST_NAME_SIZE ;; c ← qualify src (token_text src k3); mret (ORDER_NAME c)) its2 u n 0
          (fun key its u n => runs (k ← look_token;
             match tok k with
             | TOK_ASC => _ ← take_token; mret (Some (key, false))
             | TOK_DESC => _ ← take_token; mret (Some (key, true))
             | _ => mret (Some (key, false))
             end) its u n 0 Q)).
        { room 32. apply runs_bind, runs_bind, runs_look. intros k5 Hk5. apply stands_for_head in Hk5.
          rewrite decide_False by (rewrite Hk5; not_start Hst2). apply runs_ret, runs_ret. rewrite Ht. by apply runs_direction. }
        rewrite Hk4. pose proof (starts_not _ _ TOK_L2_OP Hst2 ltac:(vm_compute; reflexivity)).
        pose proof (starts_not _ _ TOK_COSINE_OP Hst2 ltac:(vm_compute; reflexivity)). destruct (head_type its2); done.
    + destruct Hr as (Hp & Hn & _). cbn [bytes_of params_of steps_of] in *. rewrite ?Z.add_0_r, ?Nat.add_0_r in *.
      destruct e as [| | |? ?|op l r]; try done. simpl in Ho.
      assert (Hty : tok k2 = TOK_L2_DISTANCE \/ tok k2 = TOK_COSINE_DISTANCE).
      { cbn [body] in Hk2. rewrite Ho in Hk2. destruct op; try done; destruct Hk2 as (-> & _); auto. }
      assert (Hrun : runs (e ← parse_primary src fuel; mret (ORDER_EXPR e)) (body (E_BINARY op l r) ++ its2) u n 0
          (fun key its u n => runs (k ← look_token;
             match tok k with
             | TOK_ASC => _ ← take_token; mret (Some (key, false))
             | TOK_DESC => _ ← take_token; mret (Some (key, true))
             | _ => mret (Some (key, false))
             end) its u n 0 Q)).
      { apply runs_bind, (reads_expr src cap Hcap); try done; try lia.
        - cbn [level]. by rewrite Ho.
        - not_start Hst2.
        - by apply runs_ret, runs_direction. }
      destruct Hty as [-> | ->]; done.
  - apply stands_for_head in Hk. rewrite decide_False by (rewrite Hk; not_start Hst). apply runs_ret.
    simpl in HQ. by rewrite !Z.add_0_r, Nat.add_0_r in HQ.
Qed.

Lemma runs_limit_literal v its u n (Q : post Z) : 0 <= v < 2 ^ 63 -> Q v its u n ->
  runs (limit_literal src) ((TOK_INT_LIT, show v) :: its) u n 0 Q.
Proof.
  intros Hv HQ. apply runs_bind, runs_take. intros k Hs. pose proof Hs as (Hk & _). rewrite decide_True by done.
  unfold parse_number. rewrite decide_False by (by rewrite Hk). erewrite parse_integer_token by (done || lia). by apply runs_ret.
Qed.

Lemma runs_limit l o u n (Q : post (Z * Z)) : l = -1 /\ o = 0 \/ 0 <= l < 2 ^ 63 /\ 0 <= o < 2 ^ 63 ->
  Q (l, o) [] u n -> runs (limit_clause src) (limit_items l o) u n 0 Q.
Proof.
  intros Hlo HQ. unfold limit_items. apply runs_bind, runs_look. intros k Hk. destruct (l =? -1) eqn:E.
  - apply Z.eqb_eq in E. simpl in Hk. rewrite decide_False by (by rewrite Hk). apply runs_ret.
    destruct Hlo as [[-> ->]|Hlo]; [done|lia].
  - apply Z.eqb_neq in E. destruct Hlo as [Hlo|[Hl Ho]]; [lia|]. destruct Hk as (Hk & _). rewrite decide_True by done.
    apply runs_bind, runs_take. intros _ _. cbn [tail]. apply runs_bind, runs_limit_literal; [done|].
    apply runs_bind, runs_look. intros k2 Hk2. destruct (o =? 0) eqn:Eo.
    + apply Z.eqb_eq in Eo as ->. simpl in Hk2. rewrite decide_False by (by rewrite Hk2). by apply runs_ret.
    + destruct Hk2 as (Hk2 & _). rewrite decide_True by done. apply runs_bind, runs_take. intros _ _. cbn [tail].
      apply runs_bind, runs_limit_literal; [done|]. by apply runs_ret.
Qed.

(** What a statement leaves behind. *)
Definition read_back (st : ast) : post ast := fun x its u n => x = st /\ n = params_of (exprs st) /\ u <= statement_bytes st.

Lemma runs_select q : printable_select q -> readable 0 (select_exprs q) -> (steps_of (select_exprs q) < fuel)%nat ->
  statement_bytes (A_SELECT q) <= cap ->
  runs (parse_select src fuel) (tail (select_items q)) 128 0 0 (read_back (A_SELECT q)).
Proof.
  intros (Hp & Ht & Ha & Hj & Ho & Hl) Hr Hs Hc. unfold statement_bytes in Hc. cbn [exprs] in Hc.
  unfold read_back, statement_bytes. cbn [exprs]. unfold select_exprs in *. fold (join_exprs (sel_join q)) (order_exprs (sel_order q)) in *.
  fold (proj_bytes (sel_proj q)) (join_bytes (sel_join q)) (order_bytes (sel_order q)) in *.
  fold (where_exprs (sel_where q)) in *. set (we := where_exprs (sel_where q)) in *.
  rewrite !readable_app in Hr. destruct Hr as (Hrj & Hrw & Hro). rewrite !bytes_of_app in *. rewrite !params_of_app.
  pose proof (steps_of_app (join_exprs (sel_join q)) (we ++ order_exprs (sel_order q))) as [Hs1 Hs2].
  pose proof (steps_of_app we (order_exprs (sel_order q))) as [Hs3 Hs4].
  pose proof (bytes_of_pos (join_exprs (sel_join q))). pose proof (bytes_of_pos we). pose proof (bytes_of_pos (order_exprs (sel_order q))).
  assert (0 <= proj_bytes (sel_proj q)) by (destruct (sel_proj q); simpl; lia).
  assert (0 <= alias_bytes (sel_alias q)) by (destruct (sel_alias q); simpl; lia).
  assert (0 <= join_bytes (sel_join q)) by (destruct (sel_join q) as [j|]; simpl; [destruct (join_alias j); simpl|]; lia).
  assert (0 <= order_bytes (sel_order q)) by (destruct (sel_order q) as [[[] ?]|]; simpl; lia).
  pose proof (starts_limit (sel_limit q) (sel_offset q)) as St4.
  assert (St3 : starts [TOK_ORDER; TOK_EOF; TOK_LIMIT] (order_items (sel_order q) ++ limit_items (sel_limit q) (sel_offset q)))
    by (apply starts_opt; [by intros []|done]).
  assert (St2 : starts [TOK_WHERE; TOK_ORDER; TOK_EOF; TOK_LIMIT]
    (where_items (sel_where q) ++ order_items (sel_order q) ++ limit_items (sel_limit q) (sel_offset q)))
    by (apply starts_opt; [by intros|done]).
  assert (St1 : starts [TOK_LEFT; TOK_JOIN; TOK_WHERE; TOK_ORDER; TOK_EOF; TOK_LIMIT]
    (join_items (sel_join q) ++ where_items (sel_where q) ++ order_items (sel_order q) ++ limit_items (sel_limit q) (sel_offset q))).
  { unfold starts in *. destruct (sel_join q) as [[[] ? ? ?]|]; [by right; left|by left|by right; right]. }
  unfold parse_select, select_items. cbn [tail].
  apply runs_bind, runs_projection; try done; try lia. { by destruct (sel_proj q) as [| |cs]; [..|destruct Hp]. }
  do 2 word. apply runs_bind, runs_alias; try lia; [not_start St1|not_start St1|].
  apply runs_bind, runs_join; try done; try lia. { apply (starts_sub _ _ _ St2). vm_compute. reflexivity. }
  apply runs_bind, runs_where; fold we; try done; try lia. { apply (starts_sub _ _ _ St3). vm_compute. reflexivity. }
  apply runs_bind, runs_order; try done; try lia. { by destruct (sel_order q) as [[[] ?]|]. }
  apply runs_bind, runs_limit; [done|]. apply runs_check_eof. split_and!; [by destruct q|lia|lia].
Qed.

Lemma runs_payload (mk : name -> expr -> ast) n v : is_literal v -> readable 0 [v] -> (steps_of [v] < fuel)%nat ->
  128 + bytes_of [v] <= cap -> exprs (mk n v) = [v] -> 128 + bytes_of [v] <= statement_bytes (mk n v) ->
  runs (parse_payload_target src fuel mk) (named n :: tk TOK_VALUES "VALUES" :: row_items [v]) 128 0 0 (read_back (mk n v)).
Proof.
  intros Hv Hr Hs Hc He Hb. destruct Hr as (Hp & Hn & _). cbn [bytes_of steps_of] in *. unfold parse_payload_target, row_items.
  do 3 word. cbn [commas]. apply runs_bind, (runs_value src cap Hcap); try done; try lia.
  destruct v; try done. word. apply runs_check_eof. split_and!; [done|by rewrite He|lia].
Qed.

Lemma runs_ticket n p t its (Q : post (name * Z * Z)) : whole_number p -> whole_number t -> (4 < fuel)%nat -> 128 + 128 <= cap ->
  Q (n, p, t) its (128 + 64 + 64) 0%nat -> runs (parse_ticket src fuel) (ticket_items n p t ++ its) 128 0 0 Q.
Proof.
  intros Hp Ht Hf Hc HQ. unfold parse_ticket, ticket_items. cbn [app]. do 3 word. rewrite <- app_assoc. cbn [app].
  apply runs_bind, runs_number; try done; try lia. word. apply runs_bind, runs_number; try done; try lia. by apply runs_ret.
Qed.

Lemma runs_named (mk : name -> ast) n : exprs (mk n) = [] -> runs (parse_named src mk) [named n] 128 0 0 (read_back (mk n)).
Proof. intros He. unfold parse_named. word. apply runs_check_eof. split_and!; [done|by rewrite He|apply statement_bytes_ge]. Qed.

Lemma runs_cursor (mk : name -> name -> ast) r n : exprs (mk r n) = [] ->
  runs (parse_cursor_names src mk) [named r; tk TOK_ON "ON"; named n] 128 0 0 (read_back (mk r n)).
Proof. intros He. unfold parse_cursor_names. do 3 word. apply runs_check_eof. split_and!; [done|by rewrite He|apply statement_bytes_ge]. Qed.

Ltac back := apply runs_check_eof; unfold read_back, statement_bytes; cbn [exprs bytes_of expr_bytes params_of params where_exprs];
  split_and!; [done || congruence|done || lia|lia].

Lemma runs_dispatch st : printable_statement st -> (steps_of (exprs st) < fuel)%nat -> statement_bytes st <= cap ->
  runs (k ← take_token; dispatch src fuel k) (statement_items st) 128 0 0 (read_back st).
Proof.
  intros Hp Hs Hc. apply runs_bind, runs_take. intros k Hk.
  assert (Hcreate : forall ty w its (Q : post ast), (forall k, tok k = ty -> runs (match tok k with
      | TOK_INDEX => parse_create_index src false | TOK_UNIQUE => parse_create_index src true
      | TOK_QUEUE => parse_named src A_CREATE_QUEUE | TOK_STREAM => parse_named src A_CREATE_STREAM
      | TOK_CURSOR => parse_cursor_names src A_CREATE_CURSOR | TOK_TABLE => parse_create_table src
      | _ => bad_syntax end) its 128 0 0 Q) -> runs (parse_create src) ((ty, w) :: its) 128 0 0 Q).
  { intros ty w its Q H. apply runs_bind, runs_take. intros k' (Hk' & _). by apply H. }
  assert (Hdrop : forall ty w its (Q : post ast), (forall k, tok k = ty -> runs (match tok k with
      | TOK_INDEX => parse_named src A_DROP_INDEX | TOK_QUEUE => parse_named src A_DROP_QUEUE
      | TOK_STREAM => parse_named src A_DROP_STREAM | TOK_CURSOR => parse_cursor_names src A_DROP_CURSOR
      | TOK_TABLE => parse_named src A_DROP_TABLE | _ => bad_syntax end) its 128 0 0 Q) ->
      runs (parse_drop src) ((ty, w) :: its) 128 0 0 Q).
  { intros ty w its Q H. apply runs_bind, runs_take. intros k' (Hk' & _). by apply H. }
  assert (Htrans : forall x, exprs x = [] -> runs (parse_transaction x) [] 128 0 0 (read_back x)).
  { intros x Hx. apply runs_bind, runs_look. intros k' Hk'. simpl in Hk'. rewrite decide_False by (by rewrite Hk').
    apply runs_bind, runs_ret, runs_check_eof. split_and!; [done|by rewrite Hx|apply statement_bytes_ge]. }
  destruct st; cbn [printable_statement exprs] in *; destruct_and?; destruct Hk as (Hty & _);
    unfold dispatch; rewrite Hty; cbn [statement_items tail]; unfold statement_bytes in Hc; cbn [exprs] in Hc;
    try (by apply Htrans); try (by apply runs_select);
    try (apply Hdrop; intros k2 ->; first [by apply runs_named | by apply runs_cursor]);
    try (apply Hcreate; intros k2 ->; first [by apply runs_named | by apply runs_cursor]).
  - apply Hcreate. intros k2 ->. cbn [bytes_of] in Hc. unfold parse_create_table. do 2 word. room (64 * 24).
    apply runs_bind, runs_col_loop; [done|done|]. back.
  - destruct unique; cbn [app]; apply Hcreate; intros k2 ->; unfold parse_create_index;
      [apply runs_bind, runs_expect|apply runs_bind, runs_ret]; do 6 word; back.
  - pose proof (bytes_of_pos (concat rows)). unfold parse_insert. do 2 word. apply runs_bind, runs_look. intros k2 (Hk2 & _).
    rewrite decide_False by (by rewrite Hk2). apply runs_bind, runs_ret. word. room (256 * 8).
    apply runs_bind, runs_row_loop; try done; try lia. back.
  - word. apply runs_payload; try done; unfold statement_bytes; cbn [exprs]; lia.
  - word. apply runs_payload; try done; unfold statement_bytes; cbn [exprs]; lia.
  - word. by apply runs_named.
  - unfold parse_read. do 4 word. back.
  - unfold parse_trim. do 3 word. rewrite <- (app_nil_r (bits_items _)). cbn [bytes_of expr_bytes steps_of steps] in *.
    apply runs_bind, runs_number; try done; try lia. back.
  - unfold parse_claim. do 3 word. rewrite <- (app_nil_r (bits_items _)). cbn [bytes_of expr_bytes steps_of steps] in *.
    apply runs_bind, runs_number; try done; try lia. back.
  - cbn [bytes_of expr_bytes steps_of steps] in *. rewrite <- (app_nil_r (ticket_items _ _ _)).
    apply runs_bind, runs_ticket; try done; try lia. back.
  - cbn [bytes_of expr_bytes steps_of steps] in *. rewrite <- (app_nil_r (ticket_items _ _ _)).
    apply runs_bind, runs_ticket; try done; try lia. back.
  - cbn [bytes_of expr_bytes steps_of steps] in *.
    apply runs_bind, runs_ticket; try done; try lia. word. rewrite <- (app_nil_r (bits_items _)).
    apply runs_bind, runs_number; try done; try lia. back.
  - match goal with H : readable _ _ |- _ => destruct H as (Hp1 & Hn1 & Hp2 & Hn2 & _) end. cbn [bytes_of steps_of] in *.
    pose proof (bytes_pos value). pose proof (bytes_pos where_). unfold parse_update. do 4 word.
    apply runs_bind, (runs_value src cap Hcap); try done; try lia.
    assert (Hw : runs (expect_syntax TOK_WHERE ;; w ← parse_expr_prec src fuel 1; check_eof (A_UPDATE n column value w))
      (tk TOK_WHERE "WHERE" :: body where_) (128 + expr_bytes value) (0 + params value) 0 (read_back (A_UPDATE n column value where_))).
    { word. rewrite <- (app_nil_r (body where_)). apply runs_bind, (runs_expr src cap Hcap); try done; try lia.
      back. }
    destruct value; try done.
  - fold (where_exprs where_) in *.
    unfold parse_delete. do 2 word. rewrite <- (app_nil_r (where_items where_)).
    apply runs_bind, runs_where; try done; try lia. { by left. } destruct where_; back.
Qed.

End statements.

(** What the dispatch makes of the words is what [sql_parse] makes of the text. *)
Lemma parse_words its src fuel cap k0 st m (R : Z -> Prop) : writes its src -> 128 <= cap -> cap < 2 ^ 64 ->
  runs src cap (k ← take_token; dispatch src fuel k) its 128 0 0 (fun x _ u m' => x = st /\ m' = m /\ R u) ->
  exists u, sql_parse fuel src (sql_arena_init cap) k0 = (Parsed (st, m), mk_arena u cap false) /\ R u.
Proof.
  intros Hl Hc Hcap Hrun.
  assert (Hrun0 : runs src cap (parse_statement src fuel) its 0 0 0 (fun x _ u m' => x = st /\ m' = m /\ R u)).
  { unfold parse_statement. apply runs_bind, (runs_alloc_stmt src cap Hcap); [lia|change (round8 _) with 24; lia|].
    apply runs_bind, (runs_alloc_stmt src cap Hcap); [change (round8 _) with 24; lia|change (0 + round8 _ + round8 _) with 128; lia|].
    by change (0 + round8 _ + round8 _) with 128. }
  unfold sql_parse. destruct (Hrun0 (mk_pstate (sql_tok_init src) (sql_arena_init cap) 0 0 k0)) as (x & s' & its' & u' & n' & E & Hh & -> & -> & Hu).
  - split_and!; try done. by apply (writes_delivers _ _ src).
  - rewrite E. destruct Hh as (_ & -> & -> & _). eauto.
Qed.

Lemma parse_words_only its src fuel cap k0 st m : writes its src -> 128 <= cap -> cap < 2 ^ 64 ->
  runs src cap (k ← take_token; dispatch src fuel k) its 128 0 0 (fun x _ _ m' => x = st /\ m' = m) ->
  fst (sql_parse fuel src (sql_arena_init cap) k0) = Parsed (st, m).
Proof.
  intros Hw Hc Hcap Hrun. destruct (parse_words its src fuel cap k0 st m (fun _ => True)) as (u & -> & _); try done.
  eapply runs_mono; [|exact Hrun]. by intros ? ? ? ? [? ?].
Qed.

Lemma parse_statement_text st src fuel cap k0 : printable_statement st -> writes (statement_items st) src ->
  statement_bytes st <= cap -> cap < 2 ^ 64 -> (steps_of (exprs st) < fuel)%nat ->
  exists u, sql_parse fuel src (sql_arena_init cap) k0 = (Parsed (st, params_of (exprs st)), mk_arena u cap false) /\ u <= statement_bytes st.
Proof.
  intros Hp Hw Hc Hcap Hf. pose proof (statement_bytes_ge st).
  apply (parse_words (statement_items st) _ _ _ _ _ _ (fun u => u <= _)); [done|lia|done|]. by apply runs_dispatch.
Qed.

(** The printer's own layout is one of them. *)
Lemma writes_print st : printable_statement st -> writes (statement_items st) (print st).
Proof. intros Hp. by apply writes_text, lexes_statement. Qed.


(** A string with a quote in it, a negative number, a placeholder and a WHERE
    clause that needs parentheses. *)
Definition sample : ast :=
  A_UPDATE (chars "jobs") (chars "note") (E_LITERAL (L_TEXT (chars "it's done")))
    (E_BINARY OP_AND (E_BINARY OP_OR (E_BINARY OP_EQ (E_COLUMN None (chars "id")) (E_LITERAL (L_INT64 (-7))))
                                     (E_UNARY OP_IS_NULL (E_COLUMN (Some (chars "jobs")) (chars "owner"))))
                     (E_UNARY OP_NOT (E_BINARY OP_LT (E_COLUMN None (chars "due")) (E_PARAM 0)))).

Example sample_text : string_of_list_ascii (print sample) =
  "UPDATE jobs SET note = 'it''s done' WHERE ( id = - 7 OR jobs . owner IS NULL ) AND ( NOT due < ? ) "%string.
Proof. vm_compute. reflexivity. Qed.

(** The next word of a text, behind [n] spaces. *)
Ltac lex_concrete := first [ apply lexes_digits; [discriminate|reflexivity]
  | split; [by split_and! | intros; do 2 eexists; reflexivity] ].

Ltac write_word n w :=
  match goal with |- writes ?its ?t =>
    let l := eval vm_compute in (repeat " "%char n) in let v := eval vm_compute in (chars w) in
    let tl := eval vm_compute in (drop (length l + length v) t) in
    change (writes its (l ++ v ++ tl)); apply writes_word;
    [ repeat first [apply sp_nil | apply sp_char; [by right|]]
    | split; [lex_concrete | first [exact I | reflexivity | split; [split; [discriminate|reflexivity]|reflexivity]]]
    | reflexivity | ]
  end.


(** ** A dimension beyond 32 bits *)

(** The dimension of a vector column is read modulo 2^32: for every string of
    digits whose number is, modulo 2^32, a dimension in range, CREATE TABLE makes a
    column of that dimension, and not of the one written. *)
Theorem vector_dimension_wraps n c w fuel cap sql k0 : 1 <= u32 (digits_value w) <= 4096 -> 1664 <= cap -> cap < 2 ^ 64 ->
  writes [tk TOK_CREATE "CREATE"; tk TOK_TABLE "TABLE"; named n; tk TOK_LPAREN "("; named c; tk TOK_VECTOR "VECTOR";
                   tk TOK_LPAREN "("; (TOK_INT_LIT, w); tk TOK_RPAREN ")"; tk TOK_RPAREN ")"] sql ->
  fst (sql_parse fuel sql (sql_arena_init cap) k0) =
    Parsed (A_CREATE_TABLE n [mk_coldef c CAT_VECTOR (u32 (digits_value w) * 2 ^ 16 + 1)], 0%nat).
Proof.
  intros Hr Hcap1 Hcap Hw. set (dim := u32 (digits_value w)) in *. eapply parse_words_only; [exact Hw|lia|done|].
  apply runs_bind, runs_take. intros k (Hk & _). unfold dispatch. rewrite Hk. cbn [tail].
  apply runs_bind, runs_take. intros k2 (-> & _). cbn [tail]. unfold parse_create_table.
  apply runs_bind, runs_ident, runs_bind, runs_expect.
  apply runs_bind, (runs_alloc_stmt sql cap Hcap); [lia|change (round8 _) with 1536; lia|].
  pose (room := 63%nat). change (col_loop sql 64) with (col_loop sql (S room)). clearbody room.
  cbn [col_loop]. apply runs_bind, runs_bind, runs_ident, runs_bind. unfold column_type. apply runs_bind, runs_take. intros k3 (-> & _). cbn [tail].
  apply runs_bind, runs_bind, runs_take. intros k4 (Hk4 & _). rewrite bool_decide_true by done. cbn [negb tail].
  apply runs_bind, runs_look. intros k5 (Hk5 & _). rewrite decide_False by (by rewrite Hk5). apply runs_bind, runs_ret. cbn [negb].
  apply runs_bind, runs_take. intros k6 (Hk6 & Ht6 & _). rewrite bool_decide_true by done. cbn [negb tail].
  destruct Ht6 as [[_ Hd6] Hv6]. rewrite (vector_dim_wraps _ 0) by (done || lia). fold (digits_value (token_text sql k6)). rewrite Hv6. fold dim.
  destruct ((dim =? 0) || (4096 <? dim)) eqn:E; [lia|].
  apply runs_bind, runs_take. intros k7 (Hk7 & _). rewrite decide_True by done. cbn [tail]. apply runs_ret, runs_ret.
  apply runs_bind, runs_bind, runs_look. intros k8 (Hk8 & _). rewrite !decide_False by (by rewrite Hk8). apply runs_ret.
  apply runs_bind, runs_take. intros k9 (-> & _). cbn [tail]. apply runs_ret, runs_check_eof. split; [|done].
  unfold CAT_NULLABLE. by rewrite Z.lor_comm, lor_add_shift, Z.add_comm by lia.
Qed.

Lemma vector_dimension_wraps_witness :
  fst (sql_parse 9 (chars "CREATE TABLE t (v VECTOR(4294967299))") (sql_arena_init 4096) no_token) =
    Parsed (A_CREATE_TABLE (chars "t") [mk_coldef (chars "v") CAT_VECTOR (3 * 2 ^ 16 + 1)], 0%nat).
Proof.
  apply (vector_dimension_wraps (chars "t") (chars "v") (chars "4294967299") 9 4096 _ no_token); [vm_compute; split; discriminate|lia..|].
  write_word 0%nat "CREATE"%string. write_word 1%nat "TABLE"%string. write_word 1%nat "t"%string. write_word 1%nat "("%string.
  write_word 0%nat "v"%string. write_word 1%nat "VECTOR"%string. write_word 0%nat "("%string. write_word 0%nat "4294967299"%string.
  write_word 0%nat ")"%string. write_word 0%nat ")"%string. apply writes_end. constructor.
Defined.

(** ** The column list of an INSERT *)

Lemma runs_skip_cols src cap cols f its u n d (Q : unit -> list item -> Z -> nat -> Prop) : (length cols < f)%nat ->
  TOK_RPAREN ∉ map fst cols -> Q tt its u n ->
  runs src cap (insert_skip_cols f) (cols ++ tk TOK_RPAREN ")" :: its) u n d Q.
Proof.
  revert f. induction cols as [|[ty w] cols IH]; intros f Hf Hn HQ; (destruct f as [|f]; [simpl in Hf; lia|]);
    cbn [insert_skip_cols app]; apply runs_bind, runs_take; intros k (Hk & _).
  - rewrite decide_True by done. by apply runs_ret.
  - cbn [map fst] in Hn. apply not_elem_of_cons in Hn as [Hn1 Hn2]. rewrite decide_False by (by rewrite Hk; congruence).
    apply IH; [simpl in Hf; lia|done|done].
Qed.

(** A column list changes nothing: whatever stands between the parentheses
    behind the table's name, the statement is the one without them, and its values
    go to the columns in the order of the table. *)
Theorem insert_columns_ignored n rows cols fuel cap src k0 :
  let st := A_INSERT n (match rows with row :: _ => length row | [] => 0%nat end) rows in
  printable_statement st -> TOK_RPAREN ∉ map fst cols ->
  statement_bytes st <= cap -> cap < 2 ^ 64 -> (steps_of (exprs st) < fuel)%nat -> (length cols < fuel)%nat ->
  writes (tk TOK_INSERT "INSERT" :: tk TOK_INTO "INTO" :: named n :: tk TOK_LPAREN "(" :: cols ++
    tk TOK_RPAREN ")" :: tk TOK_VALUES "VALUES" :: commas row_items rows) src ->
  fst (sql_parse fuel src (sql_arena_init cap) k0) = Parsed (st, params_of (exprs st)).
Proof.
  intros st Hp Hn Hc Hcap Hf Hf2 Hw. pose proof (statement_bytes_ge st).
  pose proof Hp as (Hname & Hlen & Hrow & _ & Hr). pose proof (bytes_of_pos (concat rows)).
  eapply parse_words_only; [exact Hw|lia|done|].
  apply runs_bind, runs_take. intros k (Hk & _). unfold dispatch. rewrite Hk. cbn [tail]. unfold parse_insert.
  apply runs_bind, runs_expect, runs_bind, runs_ident, runs_bind, runs_look. intros k2 (Hk2 & _). rewrite decide_True by done.
  apply runs_bind, runs_bind, runs_take. intros _ _. cbn [tail]. apply runs_skip_cols; [done|done|].
  apply runs_bind, runs_expect. unfold statement_bytes in Hc. cbn [st exprs] in Hc, Hf.
  apply runs_bind, (runs_alloc_stmt _ cap Hcap); [lia|change (round8 _) with 2048; lia|].
  change (round8 (256 * 8)) with 2048. apply runs_bind, (runs_row_loop _ cap Hcap); try done; try lia. by apply runs_check_eof.
Qed.

Lemma insert_columns_ignored_witness :
  fst (sql_parse 99 (chars "INSERT INTO t (b, a) VALUES (1, 2)") (sql_arena_init 9000) no_token) =
    Parsed (A_INSERT (chars "t") 2 [[E_LITERAL (L_INT64 1); E_LITERAL (L_INT64 2)]], 0%nat).
Proof.
  apply (insert_columns_ignored (chars "t") [[E_LITERAL (L_INT64 1); E_LITERAL (L_INT64 2)]]
    [named (chars "b"); tk TOK_COMMA ","; named (chars "a")] 99 9000 _ no_token).
  - repeat split; try (vm_compute; first [reflexivity | discriminate | lia]). repeat constructor; vm_compute; lia.
  - apply (bool_decide_eq_false_1 (TOK_RPAREN ∈ _)). vm_compute. reflexivity.
  - vm_compute. discriminate.
  - lia.
  - vm_compute. lia.
  - vm_compute. lia.
  - write_word 0%nat "INSERT"%string. write_word 1%nat "INTO"%string. write_word 1%nat "t"%string. write_word 1%nat "("%string.
    write_word 0%nat "b"%string. write_word 0%nat ","%string. write_word 1%nat "a"%string. write_word 0%nat ")"%string.
    write_word 1%nat "VALUES"%string. write_word 1%nat "("%string. write_word 0%nat "1"%string. write_word 0%nat ","%string.
    write_word 1%nat "2"%string. write_word 0%nat ")"%string. apply writes_end. constructor.
Defined.
