(* ===== verification/VectorArena.v ===== *)
(** * VectorArena: the caller-owned arena of FLOAT32 vectors

    [src/core/vector_arena.asm], behind [cyboudb_vector_arena_*] of
    [cyboudb.h].  The descriptor is the record [cyboudb_vector_arena], its
    pointer an [option] ([None] is NULL); the caller's buffer, the vectors to
    append and [*out_id] live in the memory of [Float32].  The contract is on the
    list of the vectors held: [append_raw_contract],
    [append_normalized_contract], and reading back by index. *)

From S2P Require Import Prelude Float32.

Definition VARENA_SIZE : Z := 56.

Record cyboudb_vector_arena := mk_arena {
  struct_size : Z; abi_version : Z; base : Z; capacity : Z; used : Z; dimensions : Z; stride : Z; count : Z }.

Definition cyboudb_vector_arena_init (arena : option cyboudb_vector_arena) (memory cap dims : Z) :
    Z * option cyboudb_vector_arena :=
  match arena with
  | None => (VECTOR_INVALID, None)
  | Some _ =>
      if memory =? 0 then (VECTOR_INVALID, arena) else
      if dims =? 0 then (VECTOR_INVALID, arena) else
      if max_dimensions <? dims then (VECTOR_INVALID, arena) else
      if cap <? dims .<< 2 then (VECTOR_INVALID, arena) else
      if carry memory cap then (VECTOR_INVALID, arena) else
      (VECTOR_OK, Some (mk_arena VARENA_SIZE CybouDB_VECTOR_ABI_VERSION memory cap 0 dims (dims .<< 2) 0))
  end.

(** [VARENA_VALIDATE_APPEND]. *)
Definition validate_append (a : cyboudb_vector_arena) (vector out_id : Z) : bool :=
  (struct_size a =? VARENA_SIZE) && (abi_version a =? CybouDB_VECTOR_ABI_VERSION) &&
  negb (vector =? 0) && negb (out_id =? 0) && negb (carry out_id 8) &&
  negb (dimensions a =? 0) && (dimensions a <=? max_dimensions) && (dimensions a .<< 2 =? stride a) &&
  negb (base a =? 0) && negb (carry (base a) (capacity a)) && negb (carry vector (dimensions a .<< 2)) &&
  negb (high (count a) (stride a)) && (count a * stride a =? used a) && (used a <=? capacity a).

(** [mov [r14], rax] and the two counters. *)
Definition append_success (a : cyboudb_vector_arena) (m : mem) (out_id : Z) : Z * option cyboudb_vector_arena * mem :=
  (VECTOR_OK,
   Some (mk_arena (struct_size a) (abi_version a) (base a) (capacity a) (u64 (used a + stride a))
           (dimensions a) (stride a) (u64 (count a + 1))),
   st64 m out_id (count a)).

Definition arena_full (a : cyboudb_vector_arena) : bool :=
  carry (used a) (stride a) || (capacity a <? used a + stride a).

Definition raw_copy_loop : mem -> Z -> Z -> nat -> nat -> mem := lane_loop (fun x => x).

Definition cyboudb_vector_arena_append_raw (arena : option cyboudb_vector_arena) (vector out_id : Z) (m : mem) :
    Z * option cyboudb_vector_arena * mem :=
  match arena with
  | None => (VECTOR_INVALID, None, m)
  | Some a =>
      if negb (validate_append a vector out_id) then (VECTOR_INVALID, arena, m) else
      if arena_full a then (VECTOR_FULL, arena, m) else
      let n := Z.to_nat (dimensions a) in
      if existsb (fun i => nonfinite (ld m (at4 vector i))) (seq 0 n) then (VECTOR_NONFINITE, arena, m) else
      append_success a (raw_copy_loop m vector (u64 (base a + used a)) 0 n) out_id
  end.

Definition cyboudb_vector_arena_append := cyboudb_vector_arena_append_raw.

Definition cyboudb_vector_arena_append_normalized (h : machine) (arena : option cyboudb_vector_arena)
    (vector out_id : Z) (m : mem) : Z * option cyboudb_vector_arena * mem :=
  match arena with
  | None => (VECTOR_INVALID, None, m)
  | Some a =>
      if negb (validate_append a vector out_id) then (VECTOR_INVALID, arena, m) else
      if arena_full a then (VECTOR_FULL, arena, m) else
      let '(status, m') := vector_normalize_f32_resolve h m vector (u64 (base a + used a)) (dimensions a) in
      if negb (status =? 0) then (status, arena, m') else
      append_success a m' out_id
  end.

(** The pointer, 0 for NULL. *)
Definition cyboudb_vector_arena_get (arena : option cyboudb_vector_arena) (vector_id : Z) : Z :=
  match arena with
  | None => 0
  | Some a =>
      if negb (struct_size a =? VARENA_SIZE) then 0 else
      if negb (abi_version a =? CybouDB_VECTOR_ABI_VERSION) then 0 else
      if high (count a) (stride a) then 0 else
      if negb (count a * stride a =? used a) then 0 else
      if capacity a <? count a * stride a then 0 else
      if base a =? 0 then 0 else
      if carry (base a) (capacity a) then 0 else
      if count a <=? vector_id then 0 else
      if high vector_id (stride a) then 0 else
      if carry (vector_id * stride a) (stride a) then 0 else
      if capacity a <? vector_id * stride a + stride a then 0 else
      if carry (vector_id * stride a) (base a) then 0 else
      vector_id * stride a + base a
  end.

(** ** The contract *)

(** The vectors an arena holds. *)
Definition vectors (m : mem) (a : cyboudb_vector_arena) : list (list Z) :=
  map (fun i => floats m (base a + Z.of_nat i * stride a) (Z.to_nat (dimensions a))) (seq 0 (Z.to_nat (count a))).

(** How many the caller's buffer has room for. *)
Definition slots (a : cyboudb_vector_arena) : Z := capacity a / stride a.

Definition append_contract (lanes : list Z -> Z + list Z) (room : Z) (vs : list (list Z)) (v : list Z) :
    Z + list (list Z) :=
  if room <=? Z.of_nat (length vs) then inl VECTOR_FULL
  else match lanes v with inl status => inl status | inr w => inr (vs ++ [w]) end.

Definition append_raw_contract : Z -> list (list Z) -> list Z -> Z + list (list Z) :=
  append_contract (fun v => if existsb nonfinite v then inl VECTOR_NONFINITE else inr v).

Definition append_normalized_contract : Z -> list (list Z) -> list Z -> Z + list (list Z) :=
  append_contract normalize_f32.

(** An arena [init] made and the appends kept. *)
Record wf_arena (a : cyboudb_vector_arena) : Prop := {
  wf_size : struct_size a = VARENA_SIZE;
  wf_abi : abi_version a = CybouDB_VECTOR_ABI_VERSION;
  wf_dim : 0 < dimensions a <= max_dimensions;
  wf_stride : stride a = 4 * dimensions a;
  wf_base : 0 < base a;
  wf_range : base a + capacity a < 2 ^ 64;
  wf_count : 0 <= count a;
  wf_used : used a = count a * stride a;
  wf_fits : used a <= capacity a;
}.

(** A vector the caller may pass: a pointer that does not wrap, not reaching into
    the slot it is copied to from below. *)
Record input (a : cyboudb_vector_arena) (vector out_id : Z) : Prop := {
  in_vector : vector <> 0;
  in_array : array4 vector (Z.to_nat (dimensions a));
  in_out : 0 < out_id /\ out_id + 8 < 2 ^ 64;
  in_clear : no_feedback vector (base a + used a) (Z.to_nat (dimensions a));
}.

(** ** Lemmas *)

Section arena.
Context (a : cyboudb_vector_arena) (W : wf_arena a).

Lemma used_range : 0 <= used a <= capacity a /\ 0 < stride a /\ capacity a < 2 ^ 64.
Proof using W.
  destruct W. assert (0 < stride a) by lia. assert (0 <= used a) by (rewrite wf_used0; apply Z.mul_nonneg_nonneg; lia).
  lia.
Qed.

Lemma validate_ok vector out_id : input a vector out_id -> validate_append a vector out_id = true.
Proof using W.
  intros [I1 I2 I3 _]. pose proof used_range. destruct W. unfold validate_append, array4 in *. rewrite !shiftl_2.
  rewrite !carry_false, high_false by lia.
  repeat (apply andb_true_iff; split); try apply negb_true_iff; lia.
Qed.

Lemma full_slots : arena_full a = (slots a <=? count a).
Proof using W.
  pose proof used_range. destruct W. unfold arena_full, carry, slots.
  assert (E : capacity a / stride a <= count a <-> capacity a < (count a + 1) * stride a).
  { split; intros Hc.
    - pose proof (Z.mul_succ_div_gt (capacity a) (stride a)). nia.
    - apply Z.lt_succ_r. apply Z.div_lt_upper_bound; lia. }
  destruct (Z.leb_spec (capacity a / stride a) (count a)); nia.
Qed.

Lemma free_slot : arena_full a = false -> used a + stride a <= capacity a.
Proof using. unfold arena_full. lia. Qed.

Lemma free_array : arena_full a = false -> array4 (base a + used a) (Z.to_nat (dimensions a)).
Proof using W. intros H%free_slot. pose proof used_range. destruct W. unfold array4. lia. Qed.

Lemma length_vectors m : length (vectors m a) = Z.to_nat (count a).
Proof using. unfold vectors. by rewrite length_map, length_seq. Qed.

(** The arena after an append. *)
Definition grown : cyboudb_vector_arena :=
  mk_arena (struct_size a) (abi_version a) (base a) (capacity a) (used a + stride a) (dimensions a) (stride a) (count a + 1).

Lemma success_grown m out_id : arena_full a = false -> append_success a m out_id = (VECTOR_OK, Some grown, st64 m out_id (count a)).
Proof using W.
  intros H%free_slot. pose proof used_range. destruct W. unfold append_success, grown.
  rewrite (u64_small (used a + stride a)) by lia. rewrite (u64_small (count a + 1)) by nia. done.
Qed.

Lemma wf_grown : arena_full a = false -> wf_arena grown.
Proof using W. intros H%free_slot. pose proof used_range. destruct W. constructor; simpl; lia. Qed.

(** Writing the free slot adds its vector and leaves the others. *)
Lemma vectors_grown m m' w : arena_full a = false ->
  floats m' (base a + used a) (Z.to_nat (dimensions a)) = w ->
  (forall q, (forall j, (j < Z.to_nat (dimensions a))%nat -> q <> at4 (base a + used a) j) -> f32s m' q = f32s m q) ->
  vectors m' grown = vectors m a ++ [w].
Proof using W.
  intros Hf Hw Hframe. pose proof (free_slot Hf). pose proof used_range. destruct W.
  unfold vectors. cbn [grown base stride dimensions count].
  replace (Z.to_nat (count a + 1)) with (Z.to_nat (count a) + 1)%nat by lia.
  rewrite seq_app, map_app. f_equal.
  - apply map_ext_in. intros i Hi%in_seq. apply map_ext_in. intros j Hj%in_seq. unfold ld. apply Hframe.
    intros k Hk. unfold at4. assert (Z.of_nat i + 1 <= count a) by lia.
    assert ((Z.of_nat i + 1) * stride a <= count a * stride a) by (apply Z.mul_le_mono_nonneg_r; lia).
    rewrite u64_small by lia. lia.
  - cbn [seq map Nat.add]. by rewrite Z2Nat.id, <- wf_used0, Hw by lia.
Qed.
End arena.

(** ** Every operation does what the contract says *)

(** An append writes its slot and [*out_id]. *)
Definition only_slot (a : cyboudb_vector_arena) (out_id : Z) (m m' : mem) : Prop :=
  (forall q, (forall j, (j < Z.to_nat (dimensions a))%nat -> q <> at4 (base a + used a) j) -> f32s m' q = f32s m q) /\
  (forall q, q <> u64 out_id -> u64s m' q = u64s m q).

Lemma only_slot_store a out_id m m1 v : u64s m1 = u64s m ->
  (forall q, (forall j, (j < Z.to_nat (dimensions a))%nat -> q <> at4 (base a + used a) j) -> f32s m1 q = f32s m q) ->
  only_slot a out_id m (st64 m1 out_id v).
Proof.
  intros E H. split; [done|]. intros q Hq. unfold st64. cbn [u64s]. rewrite E. by destruct (Z.eqb_spec q (u64 out_id)).
Qed.

Lemma append_raw_refines a m vector out_id : wf_arena a -> input a vector out_id ->
  match append_raw_contract (slots a) (vectors m a) (floats m vector (Z.to_nat (dimensions a))) with
  | inl status => cyboudb_vector_arena_append_raw (Some a) vector out_id m = (status, Some a, m)
  | inr vs => exists m', cyboudb_vector_arena_append_raw (Some a) vector out_id m = (VECTOR_OK, Some (grown a), m') /\
      wf_arena (grown a) /\ vectors m' (grown a) = vs /\ ld64 m' out_id = count a /\ only_slot a out_id m m'
  end.
Proof.
  intros W I. unfold append_raw_contract, append_contract, cyboudb_vector_arena_append_raw.
  rewrite (validate_ok a W _ _ I), length_vectors, Z2Nat.id, <- (full_slots a W) by apply W. cbn [negb].
  destruct (arena_full a) eqn:Hf; [done|]. unfold floats at 1. rewrite existsb_map. destruct (existsb _ _); [done|].
  pose proof (free_array a W Hf) as Ho. rewrite u64_small by (unfold array4 in Ho; lia).
  destruct (lane_loop_spec (fun x => x) m vector _ _ (in_array _ _ _ I) Ho (in_clear _ _ _ I)) as (V1 & V2 & V3).
  rewrite map_id in V1. rewrite success_grown by done. eexists. split; [done|]. split; [by apply wf_grown|]. split; [|split].
  - by apply (vectors_grown a W).
  - unfold ld64, st64. simpl. by rewrite Z.eqb_refl.
  - by apply only_slot_store.
Qed.

Lemma append_normalized_refines h a m vector out_id : wf_arena a -> input a vector out_id ->
  match append_normalized_contract (slots a) (vectors m a) (floats m vector (Z.to_nat (dimensions a))) with
  | inl status => cyboudb_vector_arena_append_normalized h (Some a) vector out_id m = (status, Some a, m)
  | inr vs => exists m', cyboudb_vector_arena_append_normalized h (Some a) vector out_id m = (VECTOR_OK, Some (grown a), m') /\
      wf_arena (grown a) /\ vectors m' (grown a) = vs /\ ld64 m' out_id = count a /\ only_slot a out_id m m'
  end.
Proof.
  intros W I. unfold append_normalized_contract, append_contract, cyboudb_vector_arena_append_normalized.
  rewrite (validate_ok a W _ _ I), length_vectors, Z2Nat.id, <- (full_slots a W) by apply W. cbn [negb].
  destruct (arena_full a) eqn:Hf; [done|].
  pose proof (free_array a W Hf) as Ho. rewrite u64_small by (unfold array4 in Ho; lia).
  pose proof (used_range a W). pose proof (wf_base a W). destruct (wf_dim a W).
  rewrite normalize_resolve_scalar by (try apply no_feedback_chunk_safe; apply I || done).
  pose proof (normalize_scalar_spec m vector (base a + used a) (dimensions a)) as N.
  specialize (N (in_vector _ _ _ I) ltac:(lia) ltac:(lia) (in_array _ _ _ I) Ho (in_clear _ _ _ I)).
  destruct (normalize_f32 _) as [status|w] eqn:En.
  - rewrite N. destruct (Z.eqb_spec status 0) as [->|]; [|done]. by apply normalize_f32_status in En as [|].
  - destruct N as (m' & -> & V1 & V2 & V3). cbn [negb Z.eqb VECTOR_OK].
    rewrite success_grown by done. eexists. split; [done|]. split; [by apply wf_grown|]. split; [|split].
    + by apply (vectors_grown a W).
    + unfold ld64, st64. simpl. by rewrite Z.eqb_refl.
    + by apply only_slot_store.
Qed.

Lemma get_spec a id : wf_arena a -> 0 <= id ->
  cyboudb_vector_arena_get (Some a) id = if id <? count a then base a + id * stride a else 0.
Proof.
  intros W Hid. pose proof (used_range a W). destruct W. unfold cyboudb_vector_arena_get.
  rewrite wf_size0, wf_abi0, !Z.eqb_refl. cbn [negb]. rewrite (high_false (count a)), <- wf_used0, Z.eqb_refl by lia.
  cbn [negb]. destruct (Z.ltb_spec (capacity a) (used a)); [lia|]. destruct (Z.eqb_spec (base a) 0); [lia|].
  rewrite carry_false by lia. destruct (Z.leb_spec (count a) id), (Z.ltb_spec id (count a)); try lia.
  assert (Hi : id * stride a + stride a <= used a) by (rewrite wf_used0; nia).
  assert (0 <= id * stride a) by nia.
  rewrite high_false, !carry_false by lia. destruct (Z.ltb_spec (capacity a) (id * stride a + stride a)); [lia|]. lia.
Qed.

Lemma wf_init memory cap dims : 0 < memory -> 0 < dims <= max_dimensions -> 4 * dims <= cap -> memory + cap < 2 ^ 64 ->
  wf_arena (mk_arena VARENA_SIZE CybouDB_VECTOR_ABI_VERSION memory cap 0 dims (dims .<< 2) 0).
Proof. intros. constructor; simpl; rewrite ?shiftl_2; try lia; done. Qed.

(** ** Properties *)

(** C31: the arena is the list of the vectors appended to it.  [init] makes the
    empty list or refuses; on an arena so made both appends refuse exactly when the
    contract does, with its status and with the arena and the memory untouched, and
    otherwise add the vector (or its normalization) at the end, store its index in
    [*out_id] and leave the earlier vectors and the rest of memory in place; [get] points at the vector of
    every index held and is NULL at every other. *)
Theorem arena_implements_contract h a m : wf_arena a ->
  (forall vector out_id, input a vector out_id ->
   let v := floats m vector (Z.to_nat (dimensions a)) in
   match append_raw_contract (slots a) (vectors m a) v with
   | inl status => cyboudb_vector_arena_append (Some a) vector out_id m = (status, Some a, m)
   | inr vs => exists a' m', cyboudb_vector_arena_append (Some a) vector out_id m = (VECTOR_OK, Some a', m') /\
       wf_arena a' /\ vectors m' a' = vs /\ ld64 m' out_id = Z.of_nat (length (vectors m a)) /\ only_slot a out_id m m'
   end /\
   match append_normalized_contract (slots a) (vectors m a) v with
   | inl status => cyboudb_vector_arena_append_normalized h (Some a) vector out_id m = (status, Some a, m)
   | inr vs => exists a' m', cyboudb_vector_arena_append_normalized h (Some a) vector out_id m = (VECTOR_OK, Some a', m') /\
       wf_arena a' /\ vectors m' a' = vs /\ ld64 m' out_id = Z.of_nat (length (vectors m a)) /\ only_slot a out_id m m'
   end) /\
  (forall id, 0 <= id ->
   match vectors m a !! Z.to_nat id with
   | Some v => cyboudb_vector_arena_get (Some a) id <> 0 /\
       floats m (cyboudb_vector_arena_get (Some a) id) (Z.to_nat (dimensions a)) = v
   | None => cyboudb_vector_arena_get (Some a) id = 0
   end) /\
  (forall old memory cap dims, 0 <= memory -> 0 <= dims ->
   let '(status, new) := cyboudb_vector_arena_init (Some old) memory cap dims in
   status = VECTOR_INVALID /\ new = Some old \/
   status = VECTOR_OK /\ exists a', new = Some a' /\ wf_arena a' /\ vectors m a' = []).
Proof.
  intros W. assert (Hlen : count a = Z.of_nat (length (vectors m a))).
  { rewrite length_vectors, Z2Nat.id; [done|apply W]. }
  split; [|split].
  - intros vector out_id I. cbv zeta. pose proof (append_raw_refines a m vector out_id W I) as H1.
    pose proof (append_normalized_refines h a m vector out_id W I) as H2. rewrite <- Hlen. split.
    + destruct (append_raw_contract _ _ _); [done|]. by exists (grown a).
    + destruct (append_normalized_contract _ _ _); [done|]. by exists (grown a).
  - intros id Hid. rewrite get_spec by done. unfold vectors. rewrite list_lookup_fmap.
    destruct (Z.ltb_spec id (count a)).
    + rewrite lookup_seq_lt by lia. simpl. rewrite Z2Nat.id by done. split; [|done].
      pose proof (used_range a W). destruct W. nia.
    + rewrite lookup_ge_None_2; [done|]. rewrite length_seq. lia.
  - intros old memory cap dims Hm Hd. unfold cyboudb_vector_arena_init. rewrite shiftl_2. unfold carry.
    repeat (case_if; [by left|]). right. split; [done|]. eexists. split; [done|]. split; [|done].
    rewrite <- shiftl_2. apply wf_init; lia.
Qed.

(** Three slots of three lanes at address 65536; the vector (3, 4, 0) at 4096. *)
Definition three_slots : cyboudb_vector_arena := mk_arena 56 2 65536 36 0 3 12 0.
Definition three_four : mem :=
  mk_mem (fun p => if p =? 4096 then 0x40400000 else if p =? 4100 then 0x40800000 else 0) (fun _ => 7).

Lemma three_four_normalized :
  append_normalized_contract (slots three_slots) (vectors three_four three_slots) (floats three_four 4096 (Z.to_nat 3)) =
  inr [[0x3f19999a; 0x3f4ccccd; 0]].
Proof. vm_compute. reflexivity. Qed.

(** The vector (0.6, 0.8, 0) under index 0. *)
Lemma arena_implements_contract_witness :
  exists a' m', cyboudb_vector_arena_append_normalized (mk_machine 0 false) (Some three_slots) 4096 8192 three_four =
      (VECTOR_OK, Some a', m') /\
    wf_arena a' /\ vectors m' a' = [[0x3f19999a; 0x3f4ccccd; 0]] /\ ld64 m' 8192 = 0 /\ only_slot three_slots 8192 three_four m'.
Proof.
  destruct (arena_implements_contract (mk_machine 0 false) three_slots three_four) as (H & _).
  { constructor; vm_compute; repeat split; reflexivity || discriminate. }
  destruct (H 4096 8192) as [_ H2].
  { constructor; [discriminate|split; [lia|reflexivity]|lia|right; discriminate]. }
  cbv zeta in H2. change (dimensions three_slots) with 3 in H2. rewrite three_four_normalized in H2. exact H2.
Defined.
