(* ===== verification/VectorTopK.v ===== *)
(** * VectorTopK: exact top-K search

    [src/sql/vector_topk.asm], behind [cyboudb_vector_topk_*] of [cyboudb.h]:
    the descriptor [cyboudb_vector_topk], the streaming session (begin, feed,
    finish) and the monolithic scan, for normalized cosine and squared L2.  The
    four loops of the assembly are two scans times two metrics; [metric] selects
    the kernel and the direction of the comparison.

    The specification is on lists: candidates in id order, [insert_ranked] into a
    ranking, the first [k] kept ([offer]); [scan_ranked] adds the stop at the
    first score that is not finite. *)

From Stdlib Require Import Sorted.
From S2P Require Import Prelude Float32.

Inductive metric := Cosine | L2sq.

Definition VTOPK_STATE_SIZE : Z := 104.

Record cyboudb_vector_topk := mk_topk {
  struct_size : Z; abi_version : Z; query : Z; vectors : Z; count : Z; dimensions : Z; k : Z; stride : Z;
  out_ids : Z; out_scores : Z; out_count : Z; candidates : Z; evaluated_count : Z; reverse : Z }.

Definition with_counts (s : cyboudb_vector_topk) (outs evals : Z) : cyboudb_vector_topk :=
  mk_topk (struct_size s) (abi_version s) (query s) (vectors s) (count s) (dimensions s) (k s) (stride s)
    (out_ids s) (out_scores s) outs (candidates s) evals (reverse s).

Definition cyboudb_vector_topk_init (search : option cyboudb_vector_topk) : Z * option cyboudb_vector_topk :=
  match search with
  | None => (VECTOR_INVALID, None)
  | Some _ =>
      (VECTOR_OK, Some (mk_topk VTOPK_STATE_SIZE CybouDB_VECTOR_ABI_VERSION 0 0 0 0 0 0 0 0 0 0 0 0))
  end.

Definition current_abi (s : cyboudb_vector_topk) : bool :=
  (struct_size s =? VTOPK_STATE_SIZE) && (abi_version s =? CybouDB_VECTOR_ABI_VERSION).

(** An array of [n] elements of [w] bytes at [p]: [(n - 1) * w], [+ w], [+ p]. *)
Definition range_wraps (n w p : Z) : bool :=
  high (n - 1) w || carry ((n - 1) * w) w || carry ((n - 1) * w + w) p.

(** [VTOPK_BEGIN_IMPL]. *)
Definition topk_begin (search : option cyboudb_vector_topk) : Z * option cyboudb_vector_topk :=
  match search with
  | None => (VECTOR_INVALID, None)
  | Some s =>
      if negb (current_abi s) then (VECTOR_INVALID, search) else
      if (dimensions s =? 0) || (k s =? 0) || (query s =? 0) || (out_ids s =? 0) || (out_scores s =? 0) ||
         (1 <? reverse s) then (VECTOR_INVALID, search) else
      if max_dimensions <? dimensions s then (VECTOR_INVALID, search) else
      let bytes := dimensions s .<< 2 in
      if (stride s <? bytes) || carry (query s) bytes || range_wraps (k s) 8 (out_ids s) ||
         range_wraps (k s) 4 (out_scores s) then (VECTOR_INVALID, search) else
      (VECTOR_OK, Some (with_counts s 0 0))
  end.

Definition cyboudb_vector_topk_cosine_begin := topk_begin.
Definition cyboudb_vector_topk_l2sq_begin := topk_begin.

Definition topk_finish (search : option cyboudb_vector_topk) : Z :=
  match search with
  | None => VECTOR_INVALID
  | Some s => if current_abi s then VECTOR_OK else VECTOR_INVALID
  end.

Definition cyboudb_vector_topk_cosine_finish := topk_finish.
Definition cyboudb_vector_topk_l2sq_finish := topk_finish.

(** ** Insertion *)

Definition at8 (p : Z) (i : nat) : Z := p + 8 * Z.of_nat i.

(** The jump that ends the search for the position. *)
Definition precedes (g : metric) (rev : Z) (x y : Z) : bool :=
  match g with
  | Cosine => if rev =? 0 then ucomiss_a x y else ucomiss_b x y
  | L2sq => if rev =? 0 then ucomiss_b x y else ucomiss_a x y
  end.

Fixpoint find_position (g : metric) (rev : Z) (m : mem) (scores x : Z) (i n : nat) : nat :=
  match n with
  | O => i
  | S n' => if precedes g rev x (ld m (at4 scores i)) then i else find_position g rev m scores x (S i) n'
  end.

(** Slots [pos .. pos + d - 1] one place up, the last one first. *)
Fixpoint shift (m : mem) (ids scores : Z) (pos d : nat) : mem :=
  match d with
  | O => m
  | S d' =>
      let m := st64 m (at8 ids (pos + S d')) (ld64 m (at8 ids (pos + d'))) in
      let m := st m (at4 scores (pos + S d')) (ld m (at4 scores (pos + d'))) in
      shift m ids scores pos d'
  end.

(** A candidate into the retained ones; their new number. *)
Definition insert_candidate (g : metric) (s : cyboudb_vector_topk) (m : mem) (retained : nat) (id score : Z) : nat * mem :=
  let pos := find_position g (reverse s) m (out_scores s) score 0 retained in
  if k s <=? Z.of_nat pos then (retained, m) else
  let '(last, retained) :=
    if Z.of_nat retained <? k s then (retained, S retained) else ((retained - 1)%nat, retained) in
  let m := shift m (out_ids s) (out_scores s) pos (last - pos) in
  let m := st64 m (at8 (out_ids s) pos) id in
  (retained, st m (at4 (out_scores s) pos) score).

Definition kernel (h : machine) (g : metric) : mem -> Z -> Z -> Z -> Z :=
  match g with
  | Cosine => vector_cosine_normalized_f32_resolve h
  | L2sq => vector_l2sq_f32_resolve h
  end.

(** The loop over the candidates [i .. i + n - 1]: the selection bit, the kernel,
    the count of evaluations, the stop at a score that is not finite, the
    insertion. *)
Fixpoint scan (h : machine) (g : metric) (s : cyboudb_vector_topk) (selected : mem -> nat -> bool)
    (address : nat -> Z) (base_id : Z) (i n : nat) (evals : Z) (retained : nat) (m : mem) : Z * Z * nat * mem :=
  match n with
  | O => (VECTOR_OK, evals, retained, m)
  | S n' =>
      if negb (selected m i) then scan h g s selected address base_id (S i) n' evals retained m else
      let score := kernel h g m (query s) (address i) (dimensions s) in
      let evals := u64 (evals + 1) in
      if nonfinite score then (VECTOR_NONFINITE, evals, retained, m) else
      let '(retained, m) := insert_candidate g s m retained (base_id + Z.of_nat i) score in
      scan h g s selected address base_id (S i) n' evals retained m
  end.

(** ** Feed *)

Definition topk_feed (h : machine) (g : metric) (search : option cyboudb_vector_topk)
    (base_id vecs cnt candidate_mask : Z) (m : mem) : Z * option cyboudb_vector_topk * mem :=
  match search with
  | None => (VECTOR_INVALID, None, m)
  | Some s =>
      if negb (current_abi s) then (VECTOR_INVALID, search, m) else
      if cnt =? 0 then (VECTOR_OK, search, m) else
      if 64 <? cnt then (VECTOR_INVALID, search, m) else
      if vecs =? 0 then (VECTOR_INVALID, search, m) else
      if carry base_id cnt then (VECTOR_INVALID, search, m) else
      let bytes := u64 (dimensions s .<< 2) in
      if high (stride s) (cnt - 1) || carry (stride s * (cnt - 1)) bytes ||
         carry (stride s * (cnt - 1) + bytes) vecs then (VECTOR_INVALID, search, m) else
      if candidate_mask =? 0 then (VECTOR_OK, search, m) else
      let '(status, evals, retained, m) :=
        scan h g s (fun _ i => Z.testbit candidate_mask (Z.of_nat i)) (fun i => Z.of_nat i * stride s + vecs)
          base_id 0 (Z.to_nat cnt) (evaluated_count s) (Z.to_nat (out_count s)) m in
      (status, Some (with_counts s (Z.of_nat retained) evals), m)
  end.

Definition cyboudb_vector_topk_cosine_feed (h : machine) := topk_feed h Cosine.
Definition cyboudb_vector_topk_l2sq_feed (h : machine) := topk_feed h L2sq.

(** ** The monolithic scan *)

(** [VTOPK_VALIDATE_RANGES], the two fields checked before it aside. *)
Definition ranges_wrap (s : cyboudb_vector_topk) (bytes : Z) : bool :=
  carry (query s) bytes ||
  if count s =? 0 then false else
  high (stride s) (count s - 1) || carry (stride s * (count s - 1)) bytes ||
  carry (stride s * (count s - 1) + bytes) (vectors s) ||
  (if candidates s =? 0 then false
   else carry (candidates s) ((count s - 1) .>> 3) || (u64 (candidates s + ((count s - 1) .>> 3) + 1) =? 0)) ||
  range_wraps (Z.min (k s) (count s)) 8 (out_ids s) || range_wraps (Z.min (k s) (count s)) 4 (out_scores s).

(** [bt [candidates], id]. *)
Definition candidate_bit (s : cyboudb_vector_topk) (m : mem) (i : nat) : bool :=
  if candidates s =? 0 then true
  else Z.testbit (ld64 m (at8 (candidates s) (i / 64))) (Z.of_nat (i mod 64)).

(** The checks made once the counts are cleared. *)
Definition search_refused (s : cyboudb_vector_topk) : bool :=
  (dimensions s =? 0) || (k s =? 0) || (1 <? reverse s) || (query s =? 0) || (vectors s =? 0) ||
  (out_ids s =? 0) || (out_scores s =? 0) || (max_dimensions <? dimensions s) ||
  (stride s <? dimensions s .<< 2) || ranges_wrap s (dimensions s .<< 2).

Definition topk_f32 (h : machine) (g : metric) (search : option cyboudb_vector_topk) (m : mem) :
    Z * option cyboudb_vector_topk * mem :=
  match search with
  | None => (VECTOR_INVALID, None, m)
  | Some s =>
      if negb (current_abi s) then (VECTOR_INVALID, search, m) else
      let s := with_counts s 0 0 in
      if search_refused s then (VECTOR_INVALID, Some s, m) else
      let '(status, evals, retained, m) :=
        scan h g s (candidate_bit s) (fun i => Z.of_nat i * stride s + vectors s)
          0 0 (Z.to_nat (count s)) 0 0 m in
      (status, Some (with_counts s (if status =? VECTOR_OK then Z.of_nat retained else 0) evals), m)
  end.

Definition cyboudb_vector_topk_cosine_f32 (h : machine) := topk_f32 h Cosine.
Definition cyboudb_vector_topk_l2sq_f32 (h : machine) := topk_f32 h L2sq.

(** ** The ranking *)

(** A vector's id and its score. *)
Definition entry : Type := Z * Z.

(** Before the first entry the score precedes, so behind its equals. *)
Fixpoint insert_ranked (g : metric) (rev : Z) (e : entry) (l : list entry) : list entry :=
  match l with
  | [] => [e]
  | y :: l' => if precedes g rev e.2 y.2 then e :: l else y :: insert_ranked g rev e l'
  end.

Definition offer (g : metric) (rev : Z) (kk : nat) (acc : list entry) (e : entry) : list entry :=
  take kk (insert_ranked g rev e acc).

(** Candidates in order, up to the first score that is not finite: the status,
    the evaluations, what is retained. *)
Fixpoint scan_ranked (g : metric) (rev : Z) (kk : nat) (l : list entry) (acc : list entry) : Z * Z * list entry :=
  match l with
  | [] => (VECTOR_OK, 0, acc)
  | e :: l' =>
      if nonfinite e.2 then (VECTOR_NONFINITE, 1, acc)
      else let '(status, evals, acc') := scan_ranked g rev kk l' (offer g rev kk acc e) in (status, evals + 1, acc')
  end.

(** Best first; equal scores by id. *)
Definition outranks (g : metric) (rev : Z) (e f : entry) : Prop :=
  precedes g rev e.2 f.2 = true \/ (precedes g rev f.2 e.2 = false /\ e.1 < f.1).

(** What a search reports of its candidates: the first [kk] of a ranking of all
    of them. *)
Definition is_top (g : metric) (rev : Z) (kk : nat) (l res : list entry) : Prop :=
  exists rest, StronglySorted (outranks g rev) (res ++ rest) /\ res ++ rest ≡ₚ l /\ length res = Nat.min kk (length l).

(** *** A strict weak order *)

#[local] Opaque ucomiss_a ucomiss_b nonfinite key.

Section order.
Context (g : metric) (rev : Z).

(** Whether a smaller score is better. *)
Definition ascending : bool := match g with Cosine => negb (rev =? 0) | L2sq => rev =? 0 end.

Lemma precedes_key x y : finite x -> finite y ->
  precedes g rev x y = true <-> (if ascending then key_lt (key x) (key y) else key_lt (key y) (key x)).
Proof.
  intros Hx Hy. unfold precedes, ascending. destruct g, (rev =? 0); simpl;
    by (apply ucomiss_a_key || apply ucomiss_b_key).
Qed.

Lemma precedes_trans x y z : finite x -> finite y -> finite z ->
  precedes g rev x y = true -> precedes g rev y z = true -> precedes g rev x z = true.
Proof.
  intros ? ? ?. rewrite !precedes_key by assumption. destruct ascending; intros; by eapply key_lt_trans.
Qed.

(** An entry between two is beaten by the first or beats the second. *)
Lemma precedes_weak x y z : finite x -> finite y -> finite z ->
  precedes g rev x y = true -> precedes g rev z y = false -> precedes g rev x z = true.
Proof.
  intros Hx Hy Hz H1 H2. apply not_true_iff_false in H2. rewrite precedes_key in * by assumption.
  destruct ascending.
  - destruct (key_lt_total (key x) (key z)) as [?|[E|?]]; [done| |]; exfalso; apply H2; [by rewrite <- E|by eapply key_lt_trans].
  - destruct (key_lt_total (key x) (key z)) as [?|[E|?]]; [|rewrite E in H1; done|done].
    exfalso. apply H2. by eapply key_lt_trans.
Qed.

Lemma insert_ranked_perm e l : insert_ranked g rev e l ≡ₚ e :: l.
Proof.
  induction l as [|y l IH]; simpl; [done|]. destruct (precedes g rev e.2 y.2); [done|].
  rewrite IH. apply perm_swap.
Qed.

Lemma insert_ranked_sorted e l : StronglySorted (outranks g rev) l -> Forall (fun y => finite y.2 /\ y.1 < e.1) l ->
  finite e.2 -> StronglySorted (outranks g rev) (insert_ranked g rev e l).
Proof.
  intros Hs Hl He. induction Hs as [|y l Hs IH Hy]; simpl; [repeat constructor|].
  apply Forall_cons_1 in Hl as [[Hyf Hyi] Hl]. destruct (precedes g rev e.2 y.2) eqn:E.
  - constructor; [by constructor|]. constructor; [by left|]. rewrite Forall_forall in Hy, Hl |- *. intros z Hz. left.
    destruct (Hl z Hz) as [Hzf _]. destruct (Hy z Hz) as [H|[H _]]; [by eapply (precedes_trans e.2 y.2)|by eapply (precedes_weak e.2 y.2)].
  - constructor; [by apply IH|]. rewrite (insert_ranked_perm e l). constructor; [|done]. by right.
Qed.

(** Dropping what is past the first [kk] early loses nothing. *)
Lemma take_insert_ranked kk e l : take kk (insert_ranked g rev e (take kk l)) = take kk (insert_ranked g rev e l).
Proof.
  revert kk. induction l as [|y l IH]; intros [|kk]; simpl; try done.
  destruct (precedes g rev e.2 y.2); simpl.
  - f_equal. destruct kk; simpl; [done|]. f_equal. rewrite take_take. f_equal. lia.
  - f_equal. apply IH.
Qed.

(** The position the insertion loop finds. *)
Fixpoint position (x : Z) (l : list entry) : nat :=
  match l with
  | [] => 0
  | y :: l' => if precedes g rev x y.2 then 0 else S (position x l')
  end.

Lemma position_le x l : (position x l <= length l)%nat.
Proof. induction l as [|y l IH]; simpl; [lia|]. destruct (precedes _ _ _ _); lia. Qed.

Lemma insert_ranked_position e l :
  insert_ranked g rev e l = take (position e.2 l) l ++ e :: drop (position e.2 l) l.
Proof. induction l as [|y l IH]; simpl; [done|]. destruct (precedes _ _ _ _); simpl; [done|]. by rewrite IH. Qed.

(** The ranking of all the candidates, of which a finite scan keeps the first. *)
Lemma scan_ranked_finite kk l acc : Forall (fun e => finite e.2) l ->
  scan_ranked g rev kk l (take kk acc) =
    (VECTOR_OK, Z.of_nat (length l), take kk (fold_left (fun acc e => insert_ranked g rev e acc) l acc)).
Proof.
  intros Hl. revert acc. induction Hl as [|e l He Hl IH]; intros acc; [done|]. cbn [scan_ranked fold_left length].
  rewrite He. unfold offer. rewrite take_insert_ranked, IH. do 2 f_equal. lia.
Qed.

Lemma scan_ranked_evals kk l acc status e acc' : scan_ranked g rev kk l acc = (status, e, acc') ->
  0 <= e <= Z.of_nat (length l).
Proof.
  revert acc e. induction l as [|x l IH]; intros acc e; cbn [scan_ranked length]; [intros [= <- <- <-]; lia|].
  destruct (nonfinite x.2); [intros [= <- <- <-]; lia|].
  destruct (scan_ranked _ _ _ _ _) as [[st' e'] a'] eqn:E. intros [= -> <- ->]. apply IH in E. lia.
Qed.

Lemma fold_ranked (l : list entry) : forall acc : list entry, Forall (fun e => finite e.2) l -> Forall (fun e => finite e.2) acc ->
  StronglySorted (outranks g rev) acc -> StronglySorted (fun e f => e.1 < f.1) l ->
  (forall e f, In e acc -> In f l -> e.1 < f.1) ->
  let r := fold_left (fun acc e => insert_ranked g rev e acc) l acc in
  StronglySorted (outranks g rev) r /\ r ≡ₚ acc ++ l.
Proof.
  induction l as [|e l IH]; intros acc Hl Ha Hs Hi Hlt; cbv zeta in *; cbn [fold_left]; [by rewrite app_nil_r|].
  apply Forall_cons_1 in Hl as [He Hl]. apply StronglySorted_inv in Hi as [Hi Hel].
  destruct (IH (insert_ranked g rev e acc)) as [S P]; try done.
  - rewrite (insert_ranked_perm e acc). by constructor.
  - apply insert_ranked_sorted; try done. rewrite List.Forall_forall in *. intros y Hy.
    split; [by apply Ha|apply Hlt; [done|by left]].
  - intros x f Hx Hf. apply (Permutation_in _ (insert_ranked_perm e acc)) in Hx as [<-|Hx].
    + rewrite List.Forall_forall in Hel. by apply Hel.
    + apply Hlt; [done|by right].
  - split; [done|]. rewrite P, (insert_ranked_perm e acc). simpl. apply Permutation_middle.
Qed.

Lemma scan_ranked_top kk (l : list entry) : Forall (fun e => finite e.2) l -> StronglySorted (fun e f => e.1 < f.1) l ->
  exists res, scan_ranked g rev kk l [] = (VECTOR_OK, Z.of_nat (length l), res) /\ is_top g rev kk l res.
Proof.
  intros Hl Hi. pose proof (scan_ranked_finite kk l [] Hl) as E. rewrite take_nil in E.
  set (r := fold_left (fun acc e => insert_ranked g rev e acc) l []) in *. destruct (fold_ranked l [] Hl) as [S P]; try done; [constructor|]. fold r in S, P.
  exists (take kk r). split; [done|]. exists (drop kk r). rewrite take_drop. split; [done|]. split; [done|].
  rewrite length_take, P. done.
Qed.
End order.

(** ** The output arrays *)

(** Slot [j] of the outputs, and the first [r] of them. *)
Definition slot_at (s : cyboudb_vector_topk) (m : mem) (j : nat) : entry :=
  (ld64 m (at8 (out_ids s) j), ld m (at4 (out_scores s) j)).
Definition retained_in (s : cyboudb_vector_topk) (m : mem) (r : nat) : list entry := map (slot_at s m) (seq 0 r).

(** Outputs of [n] slots that do not wrap. *)
Definition outputs (s : cyboudb_vector_topk) (n : nat) : Prop :=
  array4 (out_scores s) n /\ 0 <= out_ids s /\ out_ids s + 8 * Z.of_nat n < 2 ^ 64.

(** Memory outside the outputs is as it was. *)
Definition same_outside (s : cyboudb_vector_topk) (n : nat) (m m' : mem) : Prop :=
  (forall q, (forall j, (j < n)%nat -> q <> at4 (out_scores s) j) -> f32s m' q = f32s m q) /\
  (forall q, (forall j, (j < n)%nat -> q <> at8 (out_ids s) j) -> u64s m' q = u64s m q).

Lemma same_outside_refl s n m : same_outside s n m m.
Proof. done. Qed.

Lemma same_outside_trans s n m1 m2 m3 : same_outside s n m1 m2 -> same_outside s n m2 m3 -> same_outside s n m1 m3.
Proof.
  intros [A1 A2] [B1 B2]. split; intros q Hq; [rewrite B1 by done; by apply A1|rewrite B2 by done; by apply A2].
Qed.

Lemma length_retained s m r : length (retained_in s m r) = r.
Proof. unfold retained_in. by rewrite length_map, length_seq. Qed.

Lemma retained_lookup s m r j : (j < r)%nat -> retained_in s m r !! j = Some (slot_at s m j).
Proof. intros H. unfold retained_in. rewrite list_lookup_fmap, lookup_seq_lt by lia. done. Qed.

(** An entry stored in a slot. *)
Definition set_slot (s : cyboudb_vector_topk) (m : mem) (i : nat) (e : entry) : mem :=
  st (st64 m (at8 (out_ids s) i) e.1) (at4 (out_scores s) i) e.2.

Section outputs.
Context (s : cyboudb_vector_topk) (n : nat) (Ho : outputs s n).

Lemma at8_small j : (j < n)%nat -> u64 (at8 (out_ids s) j) = at8 (out_ids s) j.
Proof using Ho. intros Hj. destruct Ho as (_ & ? & ?). unfold at8. apply u64_small. lia. Qed.

Lemma slot_at_set m i e j : (i < n)%nat -> (j < n)%nat ->
  slot_at s (set_slot s m i e) j = if (j =? i)%nat then e else slot_at s m j.
Proof using Ho.
  intros Hi Hj. destruct Ho as (H4 & _). unfold slot_at, set_slot, ld64, ld, st, st64. cbn [u64s f32s].
  rewrite !at8_small, !(at4_small (out_scores s) n) by done. unfold at8, at4.
  destruct (Nat.eqb_spec j i) as [->|]; [by rewrite !Z.eqb_refl; destruct e|].
  destruct (Z.eqb_spec (out_ids s + 8 * Z.of_nat j) (out_ids s + 8 * Z.of_nat i)); [lia|].
  destruct (Z.eqb_spec (out_scores s + 4 * Z.of_nat j) (out_scores s + 4 * Z.of_nat i)); [lia|]. done.
Qed.

Lemma same_outside_set m i e : (i < n)%nat -> same_outside s n m (set_slot s m i e).
Proof using Ho.
  intros Hi. destruct Ho as (H4 & _). unfold set_slot, st, st64. split; intros q Hq; cbn [u64s f32s].
  - rewrite (at4_small (out_scores s) n) by done. destruct (Z.eqb_spec q (at4 (out_scores s) i)); [|done]. by destruct (Hq i).
  - rewrite at8_small by done. destruct (Z.eqb_spec q (at8 (out_ids s) i)); [|done]. by destruct (Hq i).
Qed.

Lemma shift_S m pos d : shift m (out_ids s) (out_scores s) pos (S d) =
  shift (set_slot s m (pos + S d) (slot_at s m (pos + d))) (out_ids s) (out_scores s) pos d.
Proof using. done. Qed.

Lemma slot_at_shift m pos d j : (pos + d < n)%nat -> (j < n)%nat ->
  slot_at s (shift m (out_ids s) (out_scores s) pos d) j =
    if ((pos <? j) && (j <=? pos + d))%nat then slot_at s m (j - 1) else slot_at s m j.
Proof using Ho.
  revert m. induction d as [|d IH]; intros m Hd Hj.
  - destruct (_ && _) eqn:E; [lia|done].
  - rewrite shift_S, IH by lia. rewrite !slot_at_set by lia.
    destruct (Nat.ltb_spec pos j), (Nat.leb_spec j (pos + d)), (Nat.leb_spec j (pos + S d));
      cbn [andb]; try lia.
    + destruct (Nat.eqb_spec (j - 1) (pos + S d)); [lia|done].
    + destruct (Nat.eqb_spec j (pos + S d)); [|lia]. f_equal. lia.
    + destruct (Nat.eqb_spec j (pos + S d)); [lia|done].
    + destruct (Nat.eqb_spec j (pos + S d)); [lia|done].
Qed.

Lemma same_outside_shift m pos d : (pos + d < n)%nat -> same_outside s n m (shift m (out_ids s) (out_scores s) pos d).
Proof using Ho.
  revert m. induction d as [|d IH]; intros m Hd; [apply same_outside_refl|]. rewrite shift_S.
  eapply same_outside_trans; [|apply IH; lia]. apply same_outside_set. lia.
Qed.

Lemma find_position_list g m x i r :
  find_position g (reverse s) m (out_scores s) x i r = (i + position g (reverse s) x (map (slot_at s m) (seq i r)))%nat.
Proof using.
  revert i. induction r as [|r IH]; intros i; cbn [find_position seq map position]; [lia|].
  unfold slot_at at 1. cbn [snd]. destruct (precedes _ _ _ _); [lia|]. rewrite IH. lia.
Qed.

(** The insertion in memory is [offer]. *)
Lemma insert_candidate_offer g m r id score : 0 < k s -> (r <= Z.to_nat (k s))%nat -> (Nat.min (Z.to_nat (k s)) (S r) <= n)%nat ->
  let '(r', m') := insert_candidate g s m r id score in
  retained_in s m' r' = offer g (reverse s) (Z.to_nat (k s)) (retained_in s m r) (id, score) /\
  r' = Nat.min (Z.to_nat (k s)) (S r) /\ same_outside s n m m'.
Proof using Ho.
  intros Hk Hr Hn. unfold insert_candidate, offer. rewrite find_position_list, Nat.add_0_l.
  fold (retained_in s m r). rewrite insert_ranked_position. cbn [snd].
  set (l := retained_in s m r). set (p := position g (reverse s) score l).
  assert (Hp : (p <= r)%nat) by (rewrite <- (length_retained s m r); apply position_le).
  assert (Hl : length l = r) by apply length_retained.
  destruct (Z.leb_spec (k s) (Z.of_nat p)).
  { assert (r = Z.to_nat (k s) /\ p = r) as [E ->] by lia. rewrite <- E. split; [|split; [lia|done]].
    rewrite (take_ge l), drop_ge by lia. by rewrite take_app_length' by lia. }
  set (last := if Z.of_nat r <? k s then r else (r - 1)%nat).
  assert (Hif : (if Z.of_nat r <? k s then (r, S r) else ((r - 1)%nat, r)) = (last, Nat.min (Z.to_nat (k s)) (S r))).
  { unfold last. destruct (Z.ltb_spec (Z.of_nat r) (k s)); f_equal; lia. }
  assert (Hlast : (p <= last)%nat /\ (last < n)%nat /\ S last = Nat.min (Z.to_nat (k s)) (S r))
    by (unfold last; destruct (Z.ltb_spec (Z.of_nat r) (k s)); lia).
  rewrite Hif. set (m1 := shift m (out_ids s) (out_scores s) p (last - p)).
  change (st (st64 m1 (at8 (out_ids s) p) id) (at4 (out_scores s) p) score) with (set_slot s m1 p (id, score)).
  split; [|split; [done|]].
  - apply list_eq_same_length with (n := S last).
    + rewrite length_take, length_app. simpl. rewrite length_take, length_drop. lia.
    + rewrite length_retained. by destruct Hlast as (_ & _ & ->).
    + intros j x y Hj Ex Ey. rewrite retained_lookup in Ex by lia. injection Ex as <-.
      rewrite slot_at_set by lia. unfold m1. rewrite lookup_take_lt in Ey by lia.
      destruct (Nat.eqb_spec j p) as [->|Hjp].
      * rewrite lookup_app_r in Ey by (rewrite length_take; lia). rewrite length_take in Ey.
        replace (p - Nat.min p (length l))%nat with 0%nat in Ey by lia. by injection Ey as <-.
      * rewrite slot_at_shift by lia. destruct (Nat.ltb_spec p j).
        -- rewrite lookup_app_r in Ey by (rewrite length_take; lia). rewrite length_take in Ey.
           replace (j - Nat.min p (length l))%nat with (S (j - 1 - p)) in Ey by lia. simpl in Ey.
           rewrite lookup_drop in Ey. unfold l in Ey. rewrite retained_lookup in Ey by lia. injection Ey as <-.
           destruct (Nat.leb_spec j (p + (last - p))); [|lia]. cbn [andb]. f_equal. lia.
        -- cbn [andb]. rewrite lookup_app_l in Ey by (rewrite length_take; lia). rewrite lookup_take_lt in Ey by lia.
           unfold l in Ey. rewrite retained_lookup in Ey by lia. by injection Ey as <-.
  - eapply same_outside_trans; [|apply same_outside_set; lia]. apply same_outside_shift. lia.
Qed.
End outputs.

(** ** The scan refines the ranking *)

(** What the interface promises of a score. *)
Definition score_of (g : metric) : list Z -> list Z -> Z :=
  match g with Cosine => dot_f32 | L2sq => l2sq_f32 end.

Lemma kernel_score h g m a b d : kernel h g m a b d = score_of g (floats m a (Z.to_nat d)) (floats m b (Z.to_nat d)).
Proof. destruct g; [apply dot_resolve_spec|apply l2sq_resolve_spec]. Qed.

Lemma u64_absorb_l a b : u64 (u64 a + b) = u64 (a + b).
Proof. unfold u64. by rewrite Zplus_mod_idemp_l. Qed.

Section refines.
Context (h : machine) (g : metric) (s : cyboudb_vector_topk) (n : nat) (m0 : mem).
Context (selected : mem -> nat -> bool) (address : nat -> Z) (base_id : Z) (bound : nat).
Context (Ho : outputs s n) (Hk : 0 < k s).

(** An array of [d] floats no output slot lies in. *)
Definition clear (p : Z) (d : nat) : Prop :=
  forall i j, (i < d)%nat -> (j < n)%nat -> u64 (at4 p i) <> at4 (out_scores s) j.

Context (Hq : clear (query s) (Z.to_nat (dimensions s))).
Context (Hv : forall i, (i < bound)%nat -> clear (address i) (Z.to_nat (dimensions s))).
Context (Hs : forall m i, same_outside s n m0 m -> (i < bound)%nat -> selected m i = selected m0 i).

Lemma floats_same m p d : same_outside s n m0 m -> clear p d -> floats m p d = floats m0 p d.
Proof using. intros [H _] Hc. apply map_ext_in. intros i Hi%in_seq. apply H. intros j Hj. apply Hc; lia. Qed.

(** The selected candidates [i .. i + c - 1] with their scores. *)
Definition entry_of (i : nat) : entry :=
  (base_id + Z.of_nat i,
   score_of g (floats m0 (query s) (Z.to_nat (dimensions s))) (floats m0 (address i) (Z.to_nat (dimensions s)))).
Definition candidates_in (i c : nat) : list entry := map entry_of (List.filter (selected m0) (seq i c)).

Lemma scan_refines i c evals r m : (i + c <= bound)%nat -> same_outside s n m0 m ->
  (r <= Z.to_nat (k s))%nat -> (Nat.min (Z.to_nat (k s)) (r + c) <= n)%nat ->
  let '(status, e, acc) := scan_ranked g (reverse s) (Z.to_nat (k s)) (candidates_in i c) (retained_in s m r) in
  exists r' m', scan h g s selected address base_id i c evals r m = (status, (if e =? 0 then evals else u64 (evals + e)), r', m') /\
    retained_in s m' r' = acc /\ same_outside s n m0 m' /\ (r' <= Nat.min (Z.to_nat (k s)) (r + c))%nat.
Proof using Ho Hk Hq Hv Hs.
  revert i evals r m. induction c as [|c IH]; intros i evals r m Hb Hm Hr Hn.
  { cbn. exists r, m. repeat split; try done; try apply Hm. lia. }
  unfold candidates_in. cbn [seq List.filter scan]. rewrite (Hs m i) by (done || lia).
  destruct (selected m0 i); cbn [negb].
  2: { specialize (IH (S i) evals r m ltac:(lia) Hm Hr ltac:(lia)). unfold candidates_in in IH.
       destruct (scan_ranked _ _ _ _ _) as [[status e] acc]. destruct IH as (r' & m' & E & H1 & H2 & H3).
       exists r', m'. repeat split; try done; try apply H2. lia. }
  assert (Ek : kernel h g m (query s) (address i) (dimensions s) = (entry_of i).2).
  { rewrite kernel_score, (floats_same m (query s)), (floats_same m (address i)) by (try done; apply Hv; lia). done. }
  cbn [map scan_ranked]. rewrite Ek. change (base_id + Z.of_nat i) with (entry_of i).1.
  destruct (nonfinite (entry_of i).2).
  { exists r, m. repeat split; try done; try apply Hm. lia. }
  pose proof (insert_candidate_offer s n Ho g m r (entry_of i).1 (entry_of i).2 Hk Hr ltac:(lia)) as Hi.
  destruct (insert_candidate _ _ _ _ _ _) as [r1 m1]. destruct Hi as (H1 & Hr1 & H2).
  rewrite <- surjective_pairing in H1. rewrite <- H1.
  specialize (IH (S i) (u64 (evals + 1)) r1 m1 ltac:(lia) (same_outside_trans _ _ _ _ _ Hm H2) ltac:(lia) ltac:(lia)).
  unfold candidates_in in IH. destruct (scan_ranked _ _ _ _ (retained_in s m1 r1)) as [[status e] acc] eqn:Es.
  destruct IH as (r' & m' & E & I1 & I2 & I3). exists r', m'. rewrite E. repeat split; try done; try apply I2; try lia.
  do 3 f_equal. assert (0 <= e) by (eapply scan_ranked_evals; apply Es).
  destruct (Z.eqb_spec (e + 1) 0); [lia|]. destruct (Z.eqb_spec e 0) as [->|]; [done|].
  rewrite u64_absorb_l. f_equal. lia.
Qed.
End refines.

Lemma length_candidates_in g s m selected address base_id i c : (length (candidates_in g s m selected address base_id i c) <= c)%nat.
Proof. unfold candidates_in. rewrite length_map. etransitivity; [apply List.filter_length_le|]. by rewrite length_seq. Qed.

(** ** The monolithic search *)

(** Every field holds its 64-bit word. *)
Definition words (s : cyboudb_vector_topk) : Prop :=
  Forall (fun x => 0 <= x < 2 ^ 64)
    [query s; vectors s; count s; dimensions s; k s; stride s; out_ids s; out_scores s; candidates s; reverse s].

(** How many output slots a search may write. *)
Definition slots (s : cyboudb_vector_topk) : nat := Z.to_nat (Z.min (k s) (count s)).

Definition vector_at (s : cyboudb_vector_topk) (i : nat) : Z := Z.of_nat i * stride s + vectors s.

(** The outputs are apart from what the search reads. *)
Definition apart (s : cyboudb_vector_topk) : Prop :=
  clear s (slots s) (query s) (Z.to_nat (dimensions s)) /\
  (forall i, (i < Z.to_nat (count s))%nat -> clear s (slots s) (vector_at s i) (Z.to_nat (dimensions s))) /\
  (candidates s = 0 \/ forall i j, (i < Z.to_nat (count s))%nat -> (j < slots s)%nat ->
     u64 (at8 (candidates s) (i / 64)) <> at8 (out_ids s) j).

(** The candidates of a search, in id order. *)
Definition search_entries (g : metric) (s : cyboudb_vector_topk) (m : mem) : list entry :=
  candidates_in g s m (candidate_bit s) (vector_at s) 0 0 (Z.to_nat (count s)).

Lemma range_wraps_false n w p : 0 < n -> 0 < w -> 0 <= p -> range_wraps n w p = false -> p + w * n < 2 ^ 64.
Proof.
  intros Hn Hw Hp. unfold range_wraps, high, carry. intros H. bool_to_prop.
  replace ((n - 1) * w + w) with (w * n) in * by lia. lia.
Qed.

Lemma words_spec s : words s ->
  0 <= query s < 2 ^ 64 /\ 0 <= vectors s < 2 ^ 64 /\ 0 <= count s < 2 ^ 64 /\ 0 <= dimensions s < 2 ^ 64 /\
  0 <= k s < 2 ^ 64 /\ 0 <= stride s < 2 ^ 64 /\ 0 <= out_ids s < 2 ^ 64 /\ 0 <= out_scores s < 2 ^ 64 /\
  0 <= candidates s < 2 ^ 64 /\ 0 <= reverse s < 2 ^ 64.
Proof. intros H. repeat (apply Forall_cons_1 in H as [? H]). tauto. Qed.

(** What passing the checks tells. *)
Lemma not_refused s : words s -> search_refused s = false ->
  0 < k s /\ 0 < dimensions s /\ outputs s (slots s) /\
  (0 < count s -> stride s * (count s - 1) + 4 * dimensions s + vectors s < 2 ^ 64).
Proof.
  intros W%words_spec H. unfold search_refused, ranges_wrap in H. rewrite shiftl_2 in H. bool_to_prop.
  assert (Hout : outputs s (slots s)).
  { unfold outputs, array4, slots. destruct (count s =? 0) eqn:Ec; bool_to_prop; [lia|].
    assert (R8 : range_wraps (Z.min (k s) (count s)) 8 (out_ids s) = false) by assumption.
    assert (R4 : range_wraps (Z.min (k s) (count s)) 4 (out_scores s) = false) by assumption.
    apply range_wraps_false in R8, R4; lia. }
  split; [lia|]. split; [lia|]. split; [done|]. intros Hc.
  destruct (count s =? 0) eqn:Ec; bool_to_prop; [lia|]. unfold carry in *. bool_to_prop. lia.
Qed.

Lemma candidate_bit_same s m m' i : apart s -> same_outside s (slots s) m m' -> (i < Z.to_nat (count s))%nat ->
  candidate_bit s m' i = candidate_bit s m i.
Proof.
  intros (_ & _ & Hc) [_ H] Hi. unfold candidate_bit. destruct (Z.eqb_spec (candidates s) 0); [done|].
  destruct Hc as [|Hc]; [done|]. f_equal. unfold ld64. apply H. intros j Hj. by apply Hc.
Qed.

Lemma search_scan h g s m : words s -> search_refused s = false -> apart s ->
  let '(status, e, acc) := scan_ranked g (reverse s) (Z.to_nat (k s)) (search_entries g s m) [] in
  exists r m', scan h g s (candidate_bit s) (vector_at s) 0 0 (Z.to_nat (count s)) 0 0 m = (status, e, r, m') /\
    retained_in s m' r = acc /\ same_outside s (slots s) m m'.
Proof.
  intros W V A. destruct (not_refused s W V) as (Hk & _ & Ho & _). apply words_spec in W.
  pose proof (scan_refines h g s (slots s) m (candidate_bit s) (vector_at s) 0 (Z.to_nat (count s)) Ho Hk
    (proj1 A) (proj1 (proj2 A)) (fun m' i => candidate_bit_same s m m' i A) 0 (Z.to_nat (count s)) 0 0 m) as R.
  specialize (R ltac:(lia) (same_outside_refl _ _ _) ltac:(lia) ltac:(unfold slots; lia)).
  fold (search_entries g s m) in R. change (retained_in s m 0) with (@nil entry) in R.
  destruct (scan_ranked _ _ _ _ _) as [[status e] acc] eqn:E. destruct R as (r & m' & R1 & R2 & R3 & _).
  exists r, m'. split; [|done]. rewrite R1. apply scan_ranked_evals in E.
  pose proof (length_candidates_in g s m (candidate_bit s) (vector_at s) 0 0 (Z.to_nat (count s))) as Hlen.
  fold (search_entries g s m) in Hlen.
  do 3 f_equal. destruct (Z.eqb_spec e 0) as [->|]; [done|]. apply u64_small. lia.
Qed.

(** The monolithic search in terms of the ranking. *)
Lemma topk_f32_ranked h g s m : words s -> current_abi s = true -> search_refused s = false -> apart s ->
  let '(status, e, acc) := scan_ranked g (reverse s) (Z.to_nat (k s)) (search_entries g s m) [] in
  exists m', topk_f32 h g (Some s) m =
      (status, Some (with_counts s (if status =? VECTOR_OK then Z.of_nat (length acc) else 0) e), m') /\
    retained_in s m' (length acc) = acc /\ same_outside s (slots s) m m'.
Proof.
  intros W Abi V A. pose proof (search_scan h g (with_counts s 0 0) m W V A) as R. cbn [with_counts reverse k] in R.
  change (search_entries g (with_counts s 0 0) m) with (search_entries g s m) in R. unfold topk_f32. rewrite Abi.
  cbn [negb]. cbv zeta. change (search_refused (with_counts s 0 0)) with (search_refused s). rewrite V.
  destruct (scan_ranked _ _ _ _ _) as [[status e] acc]. destruct R as (r & m' & R1 & R2 & R3).
  assert (Hr : length acc = r) by (rewrite <- R2; apply length_retained). rewrite Hr.
  exists m'. fold (vector_at (with_counts s 0 0)). by rewrite R1.
Qed.

Lemma candidates_in_sorted g s m0 selected address base_id i c :
  StronglySorted (fun e f : entry => e.1 < f.1) (candidates_in g s m0 selected address base_id i c).
Proof.
  unfold candidates_in. revert i. induction c as [|c IH]; intros i; cbn [seq List.filter]; [constructor|].
  destruct (selected m0 i); [|apply IH]. cbn [map]. constructor; [apply IH|].
  apply List.Forall_forall. intros e (j & <- & [Hj%in_seq _]%List.filter_In)%in_map_iff. cbn. lia.
Qed.

Lemma scan_ranked_stop g rev kk l1 x l2 acc : Forall (fun e => finite e.2) l1 -> nonfinite x.2 = true ->
  exists acc', scan_ranked g rev kk (l1 ++ x :: l2) acc = (VECTOR_NONFINITE, Z.of_nat (length l1) + 1, acc').
Proof.
  intros Hl Hx. revert acc. induction Hl as [|e l He Hl IH]; intros acc; cbn [app scan_ranked length]; [rewrite Hx; by eexists|].
  rewrite He. destruct (IH (offer g rev kk acc e)) as [acc' ->]. exists acc'. do 2 f_equal. lia.
Qed.

(** ** Streaming *)

Lemma scan_ranked_app g rev kk l1 l2 acc : scan_ranked g rev kk (l1 ++ l2) acc =
  let '(status, e, acc1) := scan_ranked g rev kk l1 acc in
  if status =? VECTOR_OK then let '(status2, e2, acc2) := scan_ranked g rev kk l2 acc1 in (status2, e + e2, acc2)
  else (status, e, acc1).
Proof.
  revert acc. induction l1 as [|x l1 IH]; intros acc; cbn [app scan_ranked].
  - cbn. by destruct (scan_ranked _ _ _ l2 acc) as [[? ?] ?].
  - destruct (nonfinite x.2); [done|]. rewrite IH. destruct (scan_ranked _ _ _ l1 _) as [[st1 e1] a1].
    destruct (st1 =? VECTOR_OK); [|done]. destruct (scan_ranked _ _ _ l2 a1) as [[? ?] ?]. do 2 f_equal. lia.
Qed.

(** What one call of feed is given. *)
Record batch := mk_batch { b_base : Z; b_vectors : Z; b_count : Z; b_mask : Z }.

Definition feed (h : machine) (g : metric) (search : option cyboudb_vector_topk) (b : batch) (m : mem) :=
  topk_feed h g search (b_base b) (b_vectors b) (b_count b) (b_mask b) m.

(** Feeds up to the first one that fails. *)
Fixpoint feed_all (h : machine) (g : metric) (search : option cyboudb_vector_topk) (bs : list batch) (m : mem) :
    Z * option cyboudb_vector_topk * mem :=
  match bs with
  | [] => (VECTOR_OK, search, m)
  | b :: bs' =>
      let '(status, search, m) := feed h g search b m in
      if status =? VECTOR_OK then feed_all h g search bs' m else (status, search, m)
  end.

(** A session: begin, the feeds, finish. *)
Definition session (h : machine) (g : metric) (s : cyboudb_vector_topk) (bs : list batch) (m : mem) :
    Z * option cyboudb_vector_topk * mem :=
  let '(status, search) := topk_begin (Some s) in
  if negb (status =? VECTOR_OK) then (status, search, m) else
  let '(status, search, m) := feed_all h g search bs m in
  if negb (status =? VECTOR_OK) then (status, search, m) else (topk_finish search, search, m).

(** The array of a monolithic search cut into runs of 64, each with its word of
    the candidate bitmap. *)
Definition run_of (s : cyboudb_vector_topk) (m : mem) (b : nat) : batch :=
  mk_batch (64 * Z.of_nat b) (vector_at s (64 * b)) (Z.min 64 (count s - 64 * Z.of_nat b))
    (if candidates s =? 0 then UINT64_MAX else ld64 m (at8 (candidates s) b)).

Definition runs (s : cyboudb_vector_topk) (m : mem) : list batch :=
  map (run_of s m) (seq 0 (Z.to_nat ((count s + 63) / 64))).

Lemma testbit_ones i : (i < 64)%nat -> Z.testbit UINT64_MAX (Z.of_nat i) = true.
Proof. intros Hi. change UINT64_MAX with (Z.ones 64). rewrite Z.ones_spec_low by lia. done. Qed.

(** The candidates of a run are those of the search in its range. *)
Lemma run_entries g s m b c : (c <= 64)%nat ->
  candidates_in g s m (fun _ i => Z.testbit (b_mask (run_of s m b)) (Z.of_nat i))
    (fun i => Z.of_nat i * stride s + vector_at s (64 * b)) (64 * Z.of_nat b) 0 c =
  candidates_in g s m (candidate_bit s) (vector_at s) 0 (64 * b) c.
Proof.
  intros Hc. unfold candidates_in.
  assert (E : forall j d, (j + d <= 64)%nat ->
    map (entry_of g s m (fun i => Z.of_nat i * stride s + vector_at s (64 * b)) (64 * Z.of_nat b))
      (List.filter (fun i => Z.testbit (b_mask (run_of s m b)) (Z.of_nat i)) (seq j d)) =
    map (entry_of g s m (vector_at s) 0) (List.filter (candidate_bit s m) (seq (64 * b + j) d))).
  { intros j d. revert j. induction d as [|d IH]; intros j Hj; [done|]. cbn [seq List.filter].
    assert (Hbit : candidate_bit s m (64 * b + j) = Z.testbit (b_mask (run_of s m b)) (Z.of_nat j)).
    { unfold candidate_bit, run_of. cbn [b_mask]. destruct (candidates s =? 0); [by rewrite testbit_ones by lia|].
      replace ((64 * b + j) / 64)%nat with b by lia. by replace ((64 * b + j) mod 64)%nat with j by lia. }
    rewrite Hbit. specialize (IH (S j) ltac:(lia)). rewrite Nat.add_succ_r in IH.
    destruct (Z.testbit _ _); [|done]. cbn [map]. f_equal; [|done]. unfold entry_of, vector_at. f_equal; [lia|].
    do 2 f_equal. lia. }
  rewrite (E 0%nat c) by lia. by rewrite Nat.add_0_r.
Qed.

Lemma mask_zero g s m b c : (c <= 64)%nat -> b_mask (run_of s m b) = 0 ->
  candidates_in g s m (candidate_bit s) (vector_at s) 0 (64 * b) c = [].
Proof.
  intros Hc E. rewrite <- run_entries by done. rewrite E. unfold candidates_in.
  replace (List.filter _ _) with (@nil nat); [done|]. generalize (seq 0 c).
  intros l. induction l as [|x l IH]; [done|]. cbn [List.filter]. by rewrite Z.testbit_0_l.
Qed.

Section session.
Context (h : machine) (g : metric) (s : cyboudb_vector_topk) (m0 : mem).
Context (W : words s) (V : search_refused s = false) (A : apart s) (Abi : current_abi s = true).

Definition run_length (b : nat) : nat := Z.to_nat (b_count (run_of s m0 b)).

Lemma run_length_spec b : 64 * Z.of_nat b < count s ->
  (0 < run_length b <= 64)%nat /\ Z.of_nat (run_length b) = b_count (run_of s m0 b) /\
  64 * Z.of_nat b + Z.of_nat (run_length b) <= count s.
Proof using. intros Hb. unfold run_length, run_of. cbn [b_count]. lia. Qed.

(** The checks of feed pass on a run. *)
Lemma feed_scan b outs evals m : 64 * Z.of_nat b < count s ->
  feed h g (Some (with_counts s outs evals)) (run_of s m0 b) m =
    if b_mask (run_of s m0 b) =? 0 then (VECTOR_OK, Some (with_counts s outs evals), m) else
    let '(status, evals, retained, m) :=
      scan h g (with_counts s outs evals) (fun _ i => Z.testbit (b_mask (run_of s m0 b)) (Z.of_nat i))
        (fun i => Z.of_nat i * stride s + vector_at s (64 * b)) (64 * Z.of_nat b) 0 (run_length b) evals (Z.to_nat outs) m in
    (status, Some (with_counts s (Z.of_nat retained) evals), m).
Proof using W V Abi.
  intros Hb. destruct (not_refused s W V) as (_ & Hd & _ & Hv). specialize (Hv ltac:(lia)).
  pose proof V as V'. unfold search_refused in V'. rewrite shiftl_2 in V'. bool_to_prop. apply words_spec in W.
  destruct (run_length_spec b Hb) as (Hc & Ec & Hcs).
  assert (stride s * (64 * Z.of_nat b + Z.of_nat (run_length b) - 1) <= stride s * (count s - 1))
    by (apply Z.mul_le_mono_nonneg_l; lia).
  assert (0 <= stride s * (64 * Z.of_nat b) /\ 0 <= stride s * (Z.of_nat (run_length b) - 1))
    by (split; apply Z.mul_nonneg_nonneg; lia).
  assert (vector_at s (64 * b) = stride s * (64 * Z.of_nat b) + vectors s) by (unfold vector_at; lia).
  unfold feed, topk_feed. change (current_abi (with_counts _ _ _)) with (current_abi s). rewrite Abi, <- Ec. cbn [negb].
  change (stride (with_counts _ _ _)) with (stride s). change (dimensions (with_counts _ _ _)) with (dimensions s).
  change (b_vectors (run_of s m0 b)) with (vector_at s (64 * b)). change (b_base (run_of s m0 b)) with (64 * Z.of_nat b).
  destruct (Z.eqb_spec (Z.of_nat (run_length b)) 0); [lia|].
  destruct (Z.ltb_spec 64 (Z.of_nat (run_length b))); [lia|]. destruct (Z.eqb_spec (vector_at s (64 * b)) 0); [lia|].
  rewrite shiftl_2, u64_small by lia. rewrite !carry_false, high_false by lia. by rewrite Nat2Z.id.
Qed.

(** One feed of a run, from [r] retained out of what came before it. *)
Lemma feed_run b r evals m : 64 * Z.of_nat b < count s -> same_outside s (slots s) m0 m ->
  (r <= Nat.min (Z.to_nat (k s)) (64 * b))%nat -> 0 <= evals <= 64 * Z.of_nat b ->
  let '(status, e, acc) := scan_ranked g (reverse s) (Z.to_nat (k s))
    (candidates_in g s m0 (candidate_bit s) (vector_at s) 0 (64 * b) (run_length b)) (retained_in s m r) in
  exists r' m', feed h g (Some (with_counts s (Z.of_nat r) evals)) (run_of s m0 b) m =
      (status, Some (with_counts s (Z.of_nat r') (evals + e)), m') /\
    retained_in s m' r' = acc /\ same_outside s (slots s) m0 m' /\
    (r' <= Nat.min (Z.to_nat (k s)) (64 * b + run_length b))%nat /\ 0 <= e <= Z.of_nat (run_length b).
Proof using W V A Abi.
  intros Hb Hm Hr He. destruct (not_refused s W V) as (Hk & _ & Ho & _).
  destruct (run_length_spec b Hb) as (Hc & _ & Hcs). rewrite feed_scan by done. apply words_spec in W.
  destruct (Z.eqb_spec (b_mask (run_of s m0 b)) 0) as [Ez|Ez].
  { rewrite mask_zero by (done || lia). cbn [scan_ranked]. exists r, m. rewrite Z.add_0_r.
    repeat split; try done; try apply Hm; lia. }
  rewrite <- run_entries by lia.
  assert (Hclear : forall i, (i < run_length b)%nat -> clear s (slots s) (Z.of_nat i * stride s + vector_at s (64 * b))
    (Z.to_nat (dimensions s))).
  { intros i Hi. replace (Z.of_nat i * stride s + vector_at s (64 * b)) with (vector_at s (64 * b + i))
      by (unfold vector_at; lia). apply A. lia. }
  pose proof (scan_refines h g (with_counts s (Z.of_nat r) evals) (slots s) m0
    (fun _ i => Z.testbit (b_mask (run_of s m0 b)) (Z.of_nat i)) (fun i => Z.of_nat i * stride s + vector_at s (64 * b))
    (64 * Z.of_nat b) (run_length b) Ho Hk (proj1 A) Hclear ltac:(done) 0 (run_length b) evals r m) as R.
  cbn [with_counts k reverse] in R. specialize (R ltac:(lia) Hm ltac:(lia) ltac:(unfold slots; lia)).
  change (candidates_in g (with_counts s (Z.of_nat r) evals)) with (candidates_in g s) in R.
  change (retained_in (with_counts s (Z.of_nat r) evals)) with (retained_in s) in R.
  destruct (scan_ranked _ _ _ _ _) as [[status e] acc] eqn:Es. destruct R as (r' & m' & R1 & R2 & R3 & R4).
  apply scan_ranked_evals in Es. pose proof (length_candidates_in g s m0 (fun _ i => Z.testbit (b_mask (run_of s m0 b)) (Z.of_nat i))
    (fun i => Z.of_nat i * stride s + vector_at s (64 * b)) (64 * Z.of_nat b) 0 (run_length b)).
  exists r', m'. rewrite Nat2Z.id, R1. repeat split; try done; try apply R3; try lia.
  do 3 f_equal. destruct (Z.eqb_spec e 0) as [->|]; [by rewrite Z.add_0_r|]. by rewrite u64_small by lia.
Qed.

Lemma candidates_in_app i c1 c2 : candidates_in g s m0 (candidate_bit s) (vector_at s) 0 i (c1 + c2) =
  candidates_in g s m0 (candidate_bit s) (vector_at s) 0 i c1 ++
  candidates_in g s m0 (candidate_bit s) (vector_at s) 0 (i + c1) c2.
Proof using. unfold candidates_in. by rewrite seq_app, List.filter_app, map_app. Qed.

(** The runs from [b] on, to the end of the array. *)
Lemma feed_runs j : forall b r evals m, (if j is S j' then 64 * Z.of_nat (b + j') < count s else True) ->
  count s <= 64 * Z.of_nat (b + j) -> same_outside s (slots s) m0 m ->
  (r <= Nat.min (Z.to_nat (k s)) (64 * b))%nat -> 0 <= evals <= 64 * Z.of_nat b ->
  let '(status, e, acc) := scan_ranked g (reverse s) (Z.to_nat (k s))
    (candidates_in g s m0 (candidate_bit s) (vector_at s) 0 (64 * b) (Z.to_nat (count s) - 64 * b)) (retained_in s m r) in
  exists r' m', feed_all h g (Some (with_counts s (Z.of_nat r) evals)) (map (run_of s m0) (seq b j)) m =
      (status, Some (with_counts s (Z.of_nat r') (evals + e)), m') /\
    retained_in s m' r' = acc /\ same_outside s (slots s) m0 m'.
Proof using W V A Abi.
  induction j as [|j IH]; intros b r evals m Hlast Hend Hm Hr He.
  { replace (Z.to_nat (count s) - 64 * b)%nat with 0%nat by lia. cbn. exists r, m. by rewrite Z.add_0_r. }
  assert (Hb : 64 * Z.of_nat b < count s) by lia. destruct (run_length_spec b Hb) as (Hc & Ec & Hcs).
  replace (Z.to_nat (count s) - 64 * b)%nat with (run_length b + (Z.to_nat (count s) - 64 * S b))%nat
    by (unfold run_length, run_of; cbn [b_count]; lia).
  rewrite candidates_in_app, scan_ranked_app. cbn [seq map feed_all].
  pose proof (feed_run b r evals m Hb Hm Hr He) as R.
  destruct (scan_ranked _ _ _ _ (retained_in s m r)) as [[status e] acc] eqn:Es. destruct R as (r1 & m1 & -> & R2 & R3 & R4 & R5).
  destruct (status =? VECTOR_OK) eqn:Eok; [|by exists r1, m1]. rewrite <- R2.
  specialize (IH (S b) r1 (evals + e) m1). replace (64 * b + run_length b)%nat with
    (if (Z.to_nat (count s) - 64 * S b =? 0)%nat then (64 * b + run_length b)%nat else (64 * S b)%nat)
    by (destruct (Nat.eqb_spec (Z.to_nat (count s) - 64 * S b) 0); unfold run_length, run_of; cbn [b_count]; lia).
  specialize (IH ltac:(destruct j; [done|lia])
    ltac:(lia) R3 ltac:(lia) ltac:(lia)).
  destruct (Nat.eqb_spec (Z.to_nat (count s) - 64 * S b) 0) as [E0|]; [rewrite E0 in *; cbn in IH |- *|].
  - destruct IH as (r' & m' & E & I1 & I2). exists r', m'. rewrite E. by rewrite Z.add_assoc.
  - destruct (scan_ranked _ _ _ _ (retained_in s m1 r1)) as [[status2 e2] acc2].
    destruct IH as (r' & m' & E & I1 & I2). exists r', m'. rewrite E. by rewrite Z.add_assoc.
Qed.
End session.

Lemma begin_ok s search : topk_begin (Some s) = (VECTOR_OK, search) -> search = Some (with_counts s 0 0).
Proof. unfold topk_begin. cbv zeta. repeat (case_if; [by intros [=]|]). by intros [=]. Qed.

(** ** Properties *)

(** C14: the monolithic search is exact.  It refuses a descriptor of another
    version untouched and clears the counts before it refuses a bad one.
    Otherwise, outputs apart from inputs, it scores exactly the candidates of the
    bitmap; when all scores are finite it reports the best [k] (the farthest with
    [reverse]) of them in rank order, equal scores by id, with [out_count] the
    smaller of [k] and their number; at the first score that is not finite it
    stops and reports no result.  [evaluated_count] counts the scores computed,
    and nothing outside the output slots changes. *)
Theorem topk_exact h g s m : words s ->
  (current_abi s = false -> topk_f32 h g (Some s) m = (VECTOR_INVALID, Some s, m)) /\
  (current_abi s = true -> search_refused s = true ->
   topk_f32 h g (Some s) m = (VECTOR_INVALID, Some (with_counts s 0 0), m)) /\
  (current_abi s = true -> search_refused s = false -> apart s ->
   let l := search_entries g s m in
   exists m', same_outside s (slots s) m m' /\
   (Forall (fun e => finite e.2) l ->
    let n := Nat.min (Z.to_nat (k s)) (length l) in
    topk_f32 h g (Some s) m = (VECTOR_OK, Some (with_counts s (Z.of_nat n) (Z.of_nat (length l))), m') /\
    is_top g (reverse s) (Z.to_nat (k s)) l (retained_in s m' n)) /\
   (forall l1 x l2, l = l1 ++ x :: l2 -> Forall (fun e => finite e.2) l1 -> ~ finite x.2 ->
    topk_f32 h g (Some s) m = (VECTOR_NONFINITE, Some (with_counts s 0 (Z.of_nat (length l1) + 1)), m'))).
Proof.
  intros W. split; [intros E; unfold topk_f32; by rewrite E|]. split.
  { intros Abi E. unfold topk_f32. rewrite Abi. cbn [negb]. cbv zeta.
    change (search_refused (with_counts s 0 0)) with (search_refused s). by rewrite E. }
  intros Abi V A. pose proof (topk_f32_ranked h g s m W Abi V A) as R.
  destruct (scan_ranked _ _ _ _ _) as [[status e] acc] eqn:Es. destruct R as (m' & R1 & R2 & R3).
  exists m'. split; [exact R3|]. rewrite R1. split.
  - intros Hf. destruct (scan_ranked_top g (reverse s) (Z.to_nat (k s)) (search_entries g s m)) as (res & E & T);
      [done|apply candidates_in_sorted|]. rewrite E in Es. injection Es as <- <- <-.
    assert (Hlen : length res = Nat.min (Z.to_nat (k s)) (length (search_entries g s m)))
      by (by destruct T as (_ & _ & _ & T)).
    cbn [Z.eqb VECTOR_OK]. rewrite <- Hlen. by rewrite R2.
  - intros l1 x l2 El H1 Hx. destruct (scan_ranked_stop g (reverse s) (Z.to_nat (k s)) l1 x l2 [] H1) as [acc' E].
    { destruct (nonfinite x.2) eqn:E; [done|]. by destruct Hx. }
    rewrite El in Es. injection (eq_trans (eq_sym Es) E) as -> -> ->. done.
Qed.

(** A streaming session over the runs of 64 of an array, each with its word
    of the candidate bitmap, ends as the monolithic search of the whole array:
    the same status, the same number of evaluations, and on success the same
    results in the output slots. *)
Theorem streaming_equals_monolithic h g s m : words s -> current_abi s = true ->
  fst (topk_begin (Some s)) = VECTOR_OK -> search_refused s = false -> apart s ->
  exists status outs1 outs2 evals m1 m2,
    topk_f32 h g (Some s) m = (status, Some (with_counts s outs1 evals), m1) /\
    session h g s (runs s m) m = (status, Some (with_counts s outs2 evals), m2) /\
    (status = VECTOR_OK -> outs1 = outs2 /\ retained_in s m1 (Z.to_nat outs1) = retained_in s m2 (Z.to_nat outs2)).
Proof.
  intros W Abi Hb V A. pose proof (words_spec s W) as Hw.
  pose proof (topk_f32_ranked h g s m W Abi V A) as R1.
  pose proof (feed_runs h g (with_counts s 0 0) m W V A Abi (Z.to_nat ((count s + 63) / 64)) 0 0 0 m) as R2.
  cbn [with_counts reverse k count] in R2. change (retained_in _ m 0) with (@nil entry) in R2.
  rewrite Nat.mul_0_r, Nat.sub_0_r in R2. fold (search_entries g (with_counts s 0 0) m) in R2.
  change (search_entries g (with_counts s 0 0) m) with (search_entries g s m) in R2.
  specialize (R2 ltac:(destruct (Z.to_nat ((count s + 63) / 64)) eqn:E; [done|lia]) ltac:(lia) (same_outside_refl _ _ _)
    ltac:(lia) ltac:(lia)).
  destruct (scan_ranked _ _ _ _ _) as [[status e] acc]. destruct R1 as (m1 & E1 & A1 & _).
  destruct R2 as (r2 & m2 & E2 & A2 & _).
  exists status, (if status =? VECTOR_OK then Z.of_nat (length acc) else 0), (Z.of_nat r2), e, m1, m2. split; [done|split].
  - unfold session. destruct (topk_begin (Some s)) as [st search] eqn:Eb. cbn [fst] in Hb. subst st. cbn [negb Z.eqb VECTOR_OK].
    rewrite (begin_ok s search Eb).
    assert (E3 : feed_all h g (Some (with_counts s 0 0)) (runs s m) m = (status, Some (with_counts s (Z.of_nat r2) e), m2))
      by exact E2. rewrite E3.
    destruct (status =? VECTOR_OK) eqn:Es; cbn [negb]; [|done]. unfold topk_finish.
    change (current_abi (with_counts _ _ _)) with (current_abi s). rewrite Abi. by apply Z.eqb_eq in Es as ->.
  - intros ->. cbn [Z.eqb VECTOR_OK]. assert (Hr : length acc = r2) by (rewrite <- A2; apply length_retained).
    rewrite Hr in *. split; [done|]. rewrite Nat2Z.id. exact (eq_trans A1 (eq_sym A2)).
Qed.

(** *** A small search *)

(** The query (1, 0) at 4096; (1, 0), (0, 1) and (0.5, 0) at 8192; a bitmap that
    leaves out the second at 24576; two slots for ids at 16384, for scores at
    20480. *)
Definition demo : cyboudb_vector_topk := mk_topk 104 2 4096 8192 3 2 2 8 16384 20480 9 24576 9 0.
Definition demo_mem : mem :=
  mk_mem (fun p => if (p =? 4096) || (p =? 8192) || (p =? 8204) then 0x3f800000 else if p =? 8208 then 0x3f000000 else 0)
    (fun p => if p =? 24576 then 5 else 77).

Lemma demo_clear p d : 0 <= p -> p + 4 * Z.of_nat d <= 20480 -> clear demo (slots demo) p d.
Proof. intros Hp Hd i j Hi Hj. rewrite u64_small; unfold at4; cbn [demo out_scores]; lia. Qed.

Lemma demo_apart : apart demo.
Proof.
  unfold apart. change (Z.to_nat (dimensions demo)) with 2%nat. change (Z.to_nat (count demo)) with 3%nat.
  change (slots demo) with 2%nat. split; [by apply demo_clear|]. split.
  - intros i Hi. unfold vector_at. cbn [demo stride vectors]. apply demo_clear; lia.
  - right. intros i j Hi Hj. rewrite u64_small; unfold at8; cbn [demo candidates out_ids]; lia.
Qed.

Lemma demo_words : words demo.
Proof. repeat constructor; cbn; lia. Qed.

Lemma demo_entries : search_entries Cosine demo demo_mem = [(0, 0x3f800000); (2, 0x3f000000)].
Proof. vm_compute. reflexivity. Qed.

Lemma demo_finite : Forall (fun e => finite e.2) (search_entries Cosine demo demo_mem).
Proof. rewrite demo_entries. repeat constructor. Qed.

(** Two candidates, two results. *)
Lemma topk_exact_witness :
  exists m', topk_f32 (mk_machine 0 true) Cosine (Some demo) demo_mem = (VECTOR_OK, Some (with_counts demo 2 2), m') /\
    is_top Cosine 0 2 [(0, 0x3f800000); (2, 0x3f000000)] (retained_in demo m' 2).
Proof.
  destruct (topk_exact (mk_machine 0 true) Cosine demo demo_mem demo_words) as (_ & _ & H).
  destruct (H eq_refl eq_refl demo_apart) as (m' & _ & Hf & _). exists m'. specialize (Hf demo_finite).
  rewrite demo_entries in Hf. exact Hf.
Defined.

Lemma streaming_equals_monolithic_witness :
  exists status outs1 outs2 evals m1 m2,
    topk_f32 (mk_machine 1 true) L2sq (Some demo) demo_mem = (status, Some (with_counts demo outs1 evals), m1) /\
    session (mk_machine 1 true) L2sq demo (runs demo demo_mem) demo_mem = (status, Some (with_counts demo outs2 evals), m2) /\
    (status = VECTOR_OK -> outs1 = outs2 /\ retained_in demo m1 (Z.to_nat outs1) = retained_in demo m2 (Z.to_nat outs2)).
Proof.
  apply (streaming_equals_monolithic (mk_machine 1 true) L2sq demo demo_mem);
    [exact demo_words|reflexivity|reflexivity|reflexivity|exact demo_apart].
Defined.

(** Both sessions, run. *)
Example demo_runs :
  (fst (fst (session (mk_machine 0 false) L2sq demo (runs demo demo_mem) demo_mem)),
   retained_in demo (snd (session (mk_machine 0 false) L2sq demo (runs demo demo_mem) demo_mem)) 2) =
  (VECTOR_OK, [(0, 0); (2, 0x3e800000)]).
Proof. vm_compute. reflexivity. Qed.
