(* ===== verification/VectorSearch.v ===== *)
(** * VectorSearch: the vector example

    [examples/vector_search.c]: six vectors appended normalized to an arena on
    the stack, one of them left out by a candidate bitmap, and a cosine search for
    the three nearest.  [main] is the program on the memory of [Float32], with the
    addresses of its variables in a [frame]; the theorem is for every machine and
    every frame whose objects do not overlap. *)

From Stdlib Require Import String.
From S2P Require Import Prelude Float32 VectorArena VectorTopK Engine.

Open Scope string_scope.
Open Scope Z_scope.
Open Scope list_scope.

Infix "+++" := String.append (at level 60, right associativity) : string_scope.

(** ** Output *)

Definition pad6 (n : Z) : string :=
  let s := dec (Z.to_N n) in String.substring 0 (6 - String.length s) "000000" +++ s.

(** A quotient rounded to nearest, ties to even. *)
Definition round_div (n d : Z) : Z :=
  let q := n / d in
  match Z.compare (2 * (n - q * d)) d with
  | Lt => q
  | Eq => if Z.even q then q else q + 1
  | Gt => q + 1
  end.

(** [%.6f]. *)
Definition fixed6 (x : Z) : string :=
  let show (s : bool) (millionths : Z) :=
    (if s then "-" else "") +++ dec (Z.to_N (millionths / 10 ^ 6)) +++ "." +++ pad6 (millionths mod 10 ^ 6) in
  match decode x with
  | SpecFloat.S754_zero s => show s 0
  | SpecFloat.S754_infinity s => if s then "-inf" else "inf"
  | SpecFloat.S754_nan => "nan"
  | SpecFloat.S754_finite s m e =>
      show s (if 0 <=? e then Z.pos m * 10 ^ 6 * 2 ^ e else round_div (Z.pos m * 10 ^ 6) (2 ^ (- e)))
  end.

(** ** The program *)

Definition ONE : Z := 0x3f800000.
Definition MINUS_ONE : Z := 0xbf800000.

(** [static const float input[][3]]. *)
Definition inputs : list (list Z) :=
  [[ONE; 0; 0]; [0; ONE; 0]; [ONE; ONE; 0]; [MINUS_ONE; 0; 0]; [ONE; 0; ONE]; [0; 0; ONE]].

(** Where the program's objects are, and what [arena] and [search] hold before
    they are set. *)
Record frame := mk_frame {
  f_input : Z; f_storage : Z; f_query : Z; f_raw_query : Z; f_scores : Z;
  f_ids : Z; f_id : Z; f_candidates : Z;
  f_arena : cyboudb_vector_arena; f_search : cyboudb_vector_topk }.

Section main.
Context (h : machine) (f : frame).

(** The loop over the rows; [None] is [return 1]. *)
Fixpoint append_rows (i n : nat) (arena : option cyboudb_vector_arena) (m : mem) :
    option (option cyboudb_vector_arena * mem) :=
  match n with
  | O => Some (arena, m)
  | S n' =>
      let '(status, arena, m) :=
        cyboudb_vector_arena_append_normalized h arena (f_input f + 12 * Z.of_nat i) (f_id f) m in
      if negb (status =? VECTOR_OK) || negb (ld64 m (f_id f) =? Z.of_nat i) then None
      else append_rows (S i) n' arena m
  end.

Definition result_line (m : mem) (i : nat) : string :=
  "id=" +++ dec (Z.to_N (ld64 m (at8 (f_ids f) i))) +++ " score=" +++ fixed6 (ld m (at4 (f_scores f) i)).

Definition main (m : mem) : Z * list string :=
  let m := store_lanes m (f_input f) 0 (List.concat inputs) in
  let '(status, arena) := cyboudb_vector_arena_init (Some (f_arena f)) (f_storage f) 72 3 in
  if negb (status =? VECTOR_OK) then (1, []) else
  match append_rows 0 6 arena m with
  | None => (1, [])
  | Some (arena, m) =>
      let m := store_lanes m (f_raw_query f) 0 [ONE; 0; 0] in
      let '(status, m) := cyboudb_vector_normalize_f32 h m (f_raw_query f) (f_query f) 3 in
      if negb (status =? VECTOR_OK) then (1, []) else
      let m := st64 m (f_candidates f) 0x3d in
      let '(status, search) := cyboudb_vector_topk_init (Some (f_search f)) in
      if negb (status =? VECTOR_OK) then (1, []) else
      match arena, search with
      | Some a, Some s =>
          let s := mk_topk (VectorTopK.struct_size s) (VectorTopK.abi_version s) (f_query f) (f_storage f)
                     (VectorArena.count a) (VectorArena.dimensions a) 3 (VectorArena.stride a) (f_ids f) (f_scores f)
                     (out_count s) (f_candidates f) (evaluated_count s) (reverse s) in
          let '(status, search, m) := cyboudb_vector_topk_cosine_f32 h (Some s) m in
          match search with
          | Some s =>
              if negb (status =? VECTOR_OK) then (1, []) else
              ((if (out_count s =? 3) && (evaluated_count s =? 5) && (ld64 m (at8 (f_ids f) 0) =? 0) &&
                   (ld64 m (at8 (f_ids f) 1) =? 2) && (ld64 m (at8 (f_ids f) 2) =? 4) then 0 else 1),
               ("evaluated=" +++ dec (Z.to_N (evaluated_count s))) ::
               map (result_line m) (seq 0 (Z.to_nat (out_count s))))
          | None => (1, [])
          end
      | _, _ => (1, [])
      end
  end.
End main.

(** ** Objects that do not overlap *)

Fixpoint apart_from (p n : Z) (l : list (Z * Z)) : Prop :=
  match l with
  | [] => True
  | (q, k) :: l' => (p + n <= q \/ q + k <= p) /\ apart_from p n l'
  end.

(** Addresses and sizes in bytes. *)
Fixpoint separate (l : list (Z * Z)) : Prop :=
  match l with
  | [] => True
  | (p, n) :: l' => 0 < p /\ p + n < 2 ^ 64 /\ apart_from p n l' /\ separate l'
  end.

Definition laid_out (f : frame) : Prop :=
  separate [(f_input f, 72); (f_storage f, 72); (f_query f, 12); (f_raw_query f, 12); (f_scores f, 12)] /\
  separate [(f_ids f, 24); (f_id f, 8); (f_candidates f, 8)].

(** The rows, normalized. *)
Definition normals : list (list Z) :=
  Eval vm_compute in map (fun v => match normalize_f32 v with inr w => w | inl _ => [] end) inputs.

Lemma floats_ext m m' p n : (forall i, (i < n)%nat -> f32s m' (u64 (at4 p i)) = f32s m (u64 (at4 p i))) ->
  floats m' p n = floats m p n.
Proof. intros H. apply map_ext_in. intros i Hi%in_seq. apply H. lia. Qed.

(** Memory that differs inside an array only. *)
Definition only4 (p : Z) (n : nat) (m m' : mem) : Prop :=
  forall q, (forall j, (j < n)%nat -> q <> at4 p j) -> f32s m' q = f32s m q.

Lemma floats_apart m m' p n q k : only4 p n m m' -> array4 q k -> disjoint4 p n q k -> floats m' q k = floats m q k.
Proof.
  intros H Hq Hd. apply floats_ext. intros i Hi. apply H. intros j Hj. rewrite (at4_small q k) by done.
  unfold at4, disjoint4 in *. lia.
Qed.

Lemma only4_store m p vs : array4 p (List.length vs) -> only4 p (List.length vs) m (store_lanes m p 0 vs).
Proof. intros Hp q Hq. apply store_lanes_frame; [done|]. intros j Hj. apply Hq. lia. Qed.

Section search.
Context (h : machine) (f : frame) (L : laid_out f).

Lemma lay_input : 0 < f_input f /\ f_input f + 72 < 2 ^ 64.
Proof using L. split; apply L. Qed.
Lemma lay_storage : 0 < f_storage f /\ f_storage f + 72 < 2 ^ 64.
Proof using L. split; apply L. Qed.
Lemma lay_query : 0 < f_query f /\ f_query f + 12 < 2 ^ 64.
Proof using L. split; apply L. Qed.
Lemma lay_raw_query : 0 < f_raw_query f /\ f_raw_query f + 12 < 2 ^ 64.
Proof using L. split; apply L. Qed.
Lemma lay_scores : 0 < f_scores f /\ f_scores f + 12 < 2 ^ 64.
Proof using L. split; apply L. Qed.
Lemma lay_ids : 0 < f_ids f /\ f_ids f + 24 < 2 ^ 64.
Proof using L. split; apply L. Qed.
Lemma lay_id : 0 < f_id f /\ f_id f + 8 < 2 ^ 64.
Proof using L. split; apply L. Qed.
Lemma lay_candidates : 0 < f_candidates f /\ f_candidates f + 8 < 2 ^ 64.
Proof using L. split; apply L. Qed.
Lemma input_storage : f_input f + 72 <= f_storage f \/ f_storage f + 72 <= f_input f.
Proof using L. apply L. Qed.
Lemma storage_query : f_storage f + 72 <= f_query f \/ f_query f + 12 <= f_storage f.
Proof using L. apply L. Qed.
Lemma storage_raw_query : f_storage f + 72 <= f_raw_query f \/ f_raw_query f + 12 <= f_storage f.
Proof using L. apply L. Qed.
Lemma storage_scores : f_storage f + 72 <= f_scores f \/ f_scores f + 12 <= f_storage f.
Proof using L. apply L. Qed.
Lemma query_raw_query : f_query f + 12 <= f_raw_query f \/ f_raw_query f + 12 <= f_query f.
Proof using L. apply L. Qed.
Lemma query_scores : f_query f + 12 <= f_scores f \/ f_scores f + 12 <= f_query f.
Proof using L. apply L. Qed.
Lemma ids_candidates : f_ids f + 24 <= f_candidates f \/ f_candidates f + 8 <= f_ids f.
Proof using L. apply L. Qed.

(** The arena with [i] rows. *)
Definition arena_at (i : nat) : cyboudb_vector_arena :=
  VectorArena.mk_arena VARENA_SIZE CybouDB_VECTOR_ABI_VERSION (f_storage f) 72 (12 * Z.of_nat i) 3 12 (Z.of_nat i).

Lemma arena_at_wf i : (i <= 6)%nat -> wf_arena (arena_at i).
Proof using L. intros Hi. pose proof lay_storage. constructor; cbn; unfold max_dimensions; try done; lia. Qed.

Lemma grown_arena_at i : grown (arena_at i) = arena_at (S i).
Proof using. unfold grown, arena_at. cbn -[Z.mul]. f_equal; lia. Qed.

Lemma row_input i : (i < 6)%nat -> input (arena_at i) (f_input f + 12 * Z.of_nat i) (f_id f).
Proof using L.
  intros Hi. pose proof lay_input. pose proof lay_id. pose proof input_storage. constructor; cbn -[Z.mul].
  - lia.
  - unfold array4. lia.
  - lia.
  - unfold no_feedback. lia.
Qed.

(** Row [i] of the contract. *)
Lemma row_contract i m : (i < 6)%nat -> VectorArena.vectors m (arena_at i) = take i normals ->
  append_normalized_contract (VectorArena.slots (arena_at i)) (VectorArena.vectors m (arena_at i))
    (take 3 (drop (3 * i) (List.concat inputs))) = inr (take (S i) normals).
Proof using. intros Hi ->. do 6 (destruct i as [|i]; [vm_compute; reflexivity|]). lia. Qed.

Lemma append_rows_ok n : forall i m, (i + n = 6)%nat -> floats m (f_input f) 18 = List.concat inputs ->
  VectorArena.vectors m (arena_at i) = take i normals ->
  exists m', append_rows h f i n (Some (arena_at i)) m = Some (Some (arena_at 6), m') /\
    VectorArena.vectors m' (arena_at 6) = normals.
Proof using L.
  induction n as [|n IH]; intros i m Hi Hin Hv.
  { assert (i = 6%nat) as -> by lia. by exists m. }
  pose proof (append_normalized_refines h (arena_at i) m _ _ (arena_at_wf i ltac:(lia)) (row_input i ltac:(lia))) as R.
  change (Z.to_nat (VectorArena.dimensions (arena_at i))) with 3%nat in R.
  replace (f_input f + 12 * Z.of_nat i) with (at4 (f_input f) (3 * i)) in R by (unfold at4; lia).
  rewrite (floats_part m (f_input f) 18), Hin, row_contract in R by (done || lia).
  destruct R as (m1 & R1 & _ & R2 & R3 & R4 & _). rewrite grown_arena_at in R1, R2.
  cbn [append_rows]. replace (f_input f + 12 * Z.of_nat i) with (at4 (f_input f) (3 * i)) by (unfold at4; lia).
  rewrite R1, R3. cbn [negb orb Z.eqb VECTOR_OK arena_at VectorArena.count]. rewrite Z.eqb_refl. cbn [negb].
  apply IH; [lia| |done]. rewrite <- Hin. change (only4 (f_storage f + 12 * Z.of_nat i) 3 m m1) in R4.
  pose proof lay_input. pose proof input_storage.
  apply (floats_apart m m1 (f_storage f + 12 * Z.of_nat i) 3); try done; unfold array4, disjoint4; lia.
Qed.

(** The descriptor [main] fills in. *)
Definition filled : cyboudb_vector_topk :=
  mk_topk VTOPK_STATE_SIZE CybouDB_VECTOR_ABI_VERSION (f_query f) (f_storage f) 6 3 3 12 (f_ids f) (f_scores f)
    0 (f_candidates f) 0 0.

Lemma filled_words : words filled.
Proof using L.
  pose proof lay_query. pose proof lay_storage. pose proof lay_ids. pose proof lay_scores. pose proof lay_candidates.
  repeat constructor; cbn; lia.
Qed.

Lemma filled_accepted : search_refused filled = false.
Proof using L.
  pose proof lay_query. pose proof lay_storage. pose proof lay_ids. pose proof lay_scores. pose proof lay_candidates.
  unfold search_refused, ranges_wrap, range_wraps, carry, filled.
  cbn [VectorTopK.dimensions k reverse query VectorTopK.vectors out_ids out_scores VectorTopK.stride VectorTopK.count candidates].
  change (3 .<< 2) with 12. change ((6 - 1) .>> 3) with 0. change (Z.min 3 6) with 3.
  change (high (3 - 1) 8) with false. change (high (3 - 1) 4) with false. change (high 12 (6 - 1)) with false.
  change (6 =? 0) with false. rewrite u64_small by lia. unfold max_dimensions.
  destruct (Z.eqb_spec (f_candidates f) 0); [lia|]. cbv beta iota. repeat (apply orb_false_iff; split); lia.
Qed.

Lemma filled_apart : apart filled.
Proof using L.
  pose proof lay_query. pose proof lay_storage. pose proof lay_scores. pose proof lay_candidates. pose proof lay_ids.
  unfold apart. change (Z.to_nat (VectorTopK.dimensions filled)) with 3%nat.
  change (Z.to_nat (VectorTopK.count filled)) with 6%nat. change (VectorTopK.slots filled) with 3%nat. split; [|split].
  - pose proof query_scores. intros i j Hi Hj. cbn [filled query out_scores]. rewrite u64_small; unfold at4; lia.
  - pose proof storage_scores. intros n Hn i j Hi Hj. unfold vector_at.
    cbn [filled VectorTopK.stride VectorTopK.vectors out_scores]. rewrite u64_small; unfold at4; lia.
  - pose proof ids_candidates. right. intros i j Hi Hj. cbn [filled candidates out_ids].
    rewrite u64_small; unfold at8; lia.
Qed.

(** The five candidates. *)
Definition entries : list entry :=
  Eval vm_compute in map (fun i => (Z.of_nat i, dot_f32 [ONE; 0; 0] (normals !!! i))) [0; 2; 3; 4; 5]%nat.

Lemma filled_entries m : floats m (f_query f) 3 = [ONE; 0; 0] ->
  VectorArena.vectors m (arena_at 6) = normals -> ld64 m (f_candidates f) = 0x3d -> search_entries Cosine filled m = entries.
Proof using L.
  intros Hq Hv Hc. unfold search_entries, candidates_in.
  assert (Hf : List.filter (candidate_bit filled m) (seq 0 (Z.to_nat (VectorTopK.count filled))) = [0; 2; 3; 4; 5]%nat).
  { rewrite (List.filter_ext_in _ (fun i => Z.testbit 0x3d (Z.of_nat i))); [reflexivity|].
    intros i Hi%in_seq. change (Z.to_nat _) with 6%nat in Hi. pose proof lay_candidates. unfold candidate_bit.
    cbn [filled candidates]. destruct (Z.eqb_spec (f_candidates f) 0); [lia|].
    rewrite Nat.div_small, Nat.mod_small by lia. unfold at8. rewrite Z.add_0_r. by rewrite Hc. }
  rewrite Hf. assert (He : forall i, (i < 6)%nat -> entry_of Cosine filled m (vector_at filled) 0 i =
    (Z.of_nat i, dot_f32 [ONE; 0; 0] (normals !!! i))).
  { intros i Hi. unfold entry_of. f_equal. unfold score_of. change (Z.to_nat _) with 3%nat.
    cbn [filled query]. rewrite Hq. f_equal. rewrite <- Hv. symmetry. apply list_lookup_total_correct.
    unfold VectorArena.vectors. rewrite list_lookup_fmap, lookup_seq_lt by (change (Z.to_nat _) with 6%nat; lia).
    cbn [fmap option_fmap option_map]. change (Z.to_nat _) with 3%nat. do 2 f_equal. unfold vector_at.
    cbn [filled VectorTopK.stride VectorTopK.vectors arena_at VectorArena.base VectorArena.stride]. lia. }
  cbn [map]. rewrite !He by lia. vm_compute. reflexivity.
Qed.

Definition results : list entry := Eval vm_compute in snd (scan_ranked Cosine 0 3 entries []).

Lemma entries_ranked : scan_ranked Cosine 0 3 entries [] = (VECTOR_OK, 5, results).
Proof using. vm_compute. reflexivity. Qed.

Lemma init_arena : cyboudb_vector_arena_init (Some (f_arena f)) (f_storage f) 72 3 = (VECTOR_OK, Some (arena_at 0)).
Proof using L.
  pose proof lay_storage. unfold cyboudb_vector_arena_init. change (3 .<< 2) with 12. rewrite carry_false by lia.
  destruct (Z.eqb_spec (f_storage f) 0); [lia|done].
Qed.

Lemma vectors_apart m m' p n : only4 p n m m' -> disjoint4 p n (f_storage f) 18 ->
  VectorArena.vectors m' (arena_at 6) = VectorArena.vectors m (arena_at 6).
Proof using L.
  intros H Hd. pose proof lay_storage. apply map_ext_in. intros i Hi%in_seq. change (Z.to_nat _) with 6%nat in Hi.
  change (Z.to_nat _) with 3%nat. cbn [arena_at VectorArena.base VectorArena.stride].
  apply (floats_apart m m' p n); [done|..]; unfold array4, disjoint4 in *; lia.
Qed.

(** The query is already of norm one. *)
Lemma query_normalized m : floats m (f_raw_query f) 3 = [ONE; 0; 0] ->
  exists m', cyboudb_vector_normalize_f32 h m (f_raw_query f) (f_query f) 3 = (VECTOR_OK, m') /\
    floats m' (f_query f) 3 = [ONE; 0; 0] /\ only4 (f_query f) 3 m m'.
Proof using L.
  intros Hr. pose proof lay_query. pose proof lay_raw_query. pose proof query_raw_query.
  assert (A1 : array4 (f_raw_query f) (Z.to_nat 3)) by (unfold array4; lia).
  assert (A2 : array4 (f_query f) (Z.to_nat 3)) by (unfold array4; lia).
  assert (A3 : no_feedback (f_raw_query f) (f_query f) (Z.to_nat 3)) by (unfold no_feedback; lia).
  pose proof (normalize_scalar_spec m (f_raw_query f) (f_query f) 3 ltac:(lia) ltac:(lia) ltac:(lia) A1 A2 A3) as R.
  unfold cyboudb_vector_normalize_f32.
  rewrite (normalize_resolve_scalar h m _ _ 3 A1 A2 (no_feedback_chunk_safe _ _ _ A3)).
  change (Z.to_nat 3) with 3%nat in R. rewrite Hr in R.
  replace (normalize_f32 [ONE; 0; 0]) with (inr [ONE; 0; 0] : Z + list Z) in R by (vm_compute; reflexivity).
  destruct R as (m' & E & F & _ & G). by exists m'.
Qed.

Lemma search_ranked m : floats m (f_query f) 3 = [ONE; 0; 0] -> VectorArena.vectors m (arena_at 6) = normals ->
  ld64 m (f_candidates f) = 0x3d ->
  exists m', cyboudb_vector_topk_cosine_f32 h (Some filled) m = (VECTOR_OK, Some (with_counts filled 3 5), m') /\
    retained_in filled m' 3 = results.
Proof using L.
  intros Hq Hv Hc. pose proof (topk_f32_ranked h Cosine filled m filled_words eq_refl filled_accepted filled_apart) as R.
  rewrite filled_entries in R by done. change (reverse filled) with 0 in R. change (Z.to_nat (k filled)) with 3%nat in R.
  rewrite entries_ranked in R. destruct R as (m' & R1 & R2 & _). by exists m'.
Qed.

(** The statements from the query on. *)
Definition report (m : mem) : Z * list string :=
  ((if (ld64 m (at8 (f_ids f) 0) =? 0) && (ld64 m (at8 (f_ids f) 1) =? 2) && (ld64 m (at8 (f_ids f) 2) =? 4) then 0 else 1),
   "evaluated=5" :: map (result_line f m) (seq 0 3)).

Lemma report_results m : retained_in filled m 3 = results ->
  report m = (0, ["evaluated=5"; "id=0 score=1.000000"; "id=2 score=0.707107"; "id=4 score=0.707107"]).
Proof using.
  intros E. unfold retained_in, results in E. cbn [seq map] in E. injection E as E0 E1 E2 E3 E4 E5.
  cbn [filled out_ids out_scores] in *. unfold report, result_line. cbn [seq map].
  rewrite E0, E1, E2, E3, E4, E5. vm_compute. reflexivity.
Qed.
End search.

(** ** Properties *)

(** C33: the example, on every machine and wherever its objects lie: the arena
    takes the six rows under the ids 0 to 5, the search scores the five candidates
    the bitmap keeps, the three nearest are 0, 2 and 4 (2 before 4, their scores
    being equal), and the program prints them and exits with 0. *)
Theorem vector_search_finds h f m : laid_out f ->
  main h f m = (0, ["evaluated=5"; "id=0 score=1.000000"; "id=2 score=0.707107"; "id=4 score=0.707107"]).
Proof.
  intros L. pose proof (lay_input f L). pose proof (lay_raw_query f L). unfold main.
  set (m1 := store_lanes m (f_input f) 0 (List.concat inputs)). rewrite (init_arena f L). cbn [negb Z.eqb VECTOR_OK].
  assert (H1 : floats m1 (f_input f) 18 = List.concat inputs)
    by (apply (store_lanes_floats m (f_input f) 0 (List.concat inputs)); unfold array4; cbn; lia).
  destruct (append_rows_ok h f L 6 0 m1 eq_refl H1 eq_refl) as (m2 & -> & V2).
  set (m3 := store_lanes m2 (f_raw_query f) 0 [ONE; 0; 0]).
  assert (H3 : floats m3 (f_raw_query f) 3 = [ONE; 0; 0])
    by (apply (store_lanes_floats m2 (f_raw_query f) 0 [ONE; 0; 0]); unfold array4; cbn; lia).
  assert (V3 : VectorArena.vectors m3 (arena_at f 6) = normals).
  { rewrite <- V2. pose proof (storage_raw_query f L). apply (vectors_apart f L m2 m3 (f_raw_query f) 3).
    - apply (only4_store m2 (f_raw_query f) [ONE; 0; 0]). unfold array4. cbn. lia.
    - unfold disjoint4. lia. }
  destruct (query_normalized h f L m3 H3) as (m4 & -> & H4 & O4). cbn [negb Z.eqb VECTOR_OK].
  assert (V4 : VectorArena.vectors m4 (arena_at f 6) = normals).
  { rewrite <- V3. pose proof (storage_query f L). apply (vectors_apart f L m3 m4 (f_query f) 3); [done|unfold disjoint4; lia]. }
  set (m5 := st64 m4 (f_candidates f) 0x3d).
  destruct (search_ranked h f L m5) as (m6 & E6 & R6); [done|done|unfold ld64, m5; cbn; by rewrite Z.eqb_refl|].
  cbn [cyboudb_vector_topk_init negb Z.eqb VECTOR_OK]. change (mk_topk _ _ _ _ _ _ _ _ _ _ _ _ _ _) with (filled f).
  rewrite E6. cbn [negb Z.eqb VECTOR_OK]. exact (report_results f m6 R6).
Qed.

(** A stack laid out object after object. *)
Definition some_frame : frame :=
  mk_frame 4096 8192 12288 16384 20480 24576 28672 32768
    (VectorArena.mk_arena 0 0 0 0 0 0 0 0) (mk_topk 1 2 3 4 5 6 7 8 9 10 11 12 13 14).

Lemma vector_search_finds_witness :
  laid_out some_frame /\ fst (main (mk_machine 0 true) some_frame (mk_mem (fun _ => 0) (fun _ => 0))) = 0.
Proof.
  assert (L : laid_out some_frame) by (repeat split; cbn; lia). split; [exact L|].
  rewrite (vector_search_finds (mk_machine 0 true) some_frame (mk_mem (fun _ => 0) (fun _ => 0)) L). reflexivity.
Defined.
