(* ===== verification/Bindings.v ===== *)
(** * Bindings: the parameters of a prepared statement

    [cyboudb_bind_*], [cyboudb_clear_bindings], [cyboudb_reset] and
    [cyboudb_bind_parameter_count] of [src/api/cyboudb_c.asm], with the
    parameter slots and the copy buffer of [include/sql.inc] and what an INSERT
    reads of them ([src/sql/executor.asm]).  A slot owns a region of the buffer:
    its offset is [PARAM_VAL], its size [PARAM_CAP].

    The contract is that of [cyboudb.h]: a statement's bindings are a list of
    optional values, one per parameter ([bind_contract]).  [bind_refines] relates
    the two as long as the regions stay apart; [null_then_rebind_corrupts] is the
    call sequence on which they do not. *)

From S2P Require Import Prelude Engine.

Definition CybouDB_TYPE_INT32 : Z := 1.
Definition CybouDB_TYPE_INT64 : Z := 2.
Definition CybouDB_TYPE_FLOAT32 : Z := 3.
Definition CybouDB_TYPE_BOOL : Z := 4.
Definition CybouDB_TYPE_TEXT : Z := 5.
Definition CybouDB_TYPE_BLOB : Z := 6.
Definition CybouDB_TYPE_VECTOR : Z := 7.

Definition CAT_NULLABLE : Z := 1.
Definition PARAM_TO_BEXPR : Z := 1.
Definition PARAM_UNBOUND : Z := 0.
Definition PARAM_BOUND : Z := 1.
Definition PARAM_NULL : Z := 2.
Definition PARAM_BUF_SIZE : Z := 32768.
Definition STMT_STATE_INIT : Z := 0.
Definition STMT_STATE_SCANNING : Z := 1.

(** ** State *)

(** [PARAM_*]: the target, type, flags and kind are the binder's, the rest is what
    was bound. *)
Record param_slot := mk_slot {
  p_target : Z; p_type : Z; p_flags : Z; p_kind : Z;
  p_val : Z; p_len : Z; p_cap : Z; p_state : Z }.

(** The copy buffer: how much of it is spent, and its bytes. *)
Record param_buf := mk_buf { buf_used : Z; buf_bytes : list Z }.

Record plan := mk_plan { param_slots : list param_slot; param_buffer : option param_buf }.

Record stmt := mk_stmt {
  magic : bool; (** the header carries [STMT_MAGIC_VAL] *)
  state : Z; cur_row : Z; act_mask : Z; cnt_accum : Z;
  s_plan : option plan }.

(** A pointer argument: NULL, or the bytes that can be read at it. *)
Definition ptr : Type := option (list Z).

(** ** Operations *)

Definition api_param_slot (st : option stmt) (idx : Z) : option (stmt * plan * nat * param_slot) :=
  match st with
  | None => None
  | Some st =>
      if negb (magic st) then None else
      if state st =? STMT_STATE_SCANNING then None else
      match s_plan st with
      | None => None
      | Some p =>
          if idx <? 0 then None else
          s ← param_slots p !! Z.to_nat idx; Some (st, p, Z.to_nat idx, s)
      end
  end.

Definition set_slot (st : stmt) (p : plan) (i : nat) (s : param_slot) (b : option param_buf) : option stmt :=
  Some (mk_stmt (magic st) (state st) (cur_row st) (act_mask st) (cnt_accum st)
          (Some (mk_plan (<[i := s]> (param_slots p)) b))).

Definition bound (s : param_slot) (val len cap st : Z) : param_slot :=
  mk_slot (p_target s) (p_type s) (p_flags s) (p_kind s) val len cap st.

Definition api_param_scalar (st : option stmt) (idx want_type value : Z) : Z * option stmt :=
  match api_param_slot st idx with
  | None => (CybouDB_MISUSE, st)
  | Some (s0, p, i, s) =>
      if negb (p_type s =? want_type) then (CybouDB_MISUSE, st) else
      (CybouDB_OK, set_slot s0 p i (bound s value 0 (p_cap s) PARAM_BOUND) (param_buffer p))
  end.

(** The copy loop. *)
Definition write_at (l : list Z) (off : nat) (d : list Z) : list Z := take off l ++ d ++ drop (off + List.length d) l.

(** [(len + 7) & ~7]. *)
Definition round8 (len : Z) : Z := (len + 7) / 8 * 8.

Definition api_param_bytes (st : option stmt) (idx want_type : Z) (src : ptr) (len : Z) : Z * option stmt :=
  match api_param_slot st idx with
  | None => (CybouDB_MISUSE, st)
  | Some (s0, p, i, s) =>
      if negb (p_type s =? want_type) then (CybouDB_MISUSE, st) else
      if len <? 0 then (CybouDB_MISUSE, st) else
      if negb (bool_decide (is_Some src)) && negb (len =? 0) then (CybouDB_MISUSE, st) else
      match param_buffer p with
      | None => (CybouDB_NOMEM, st)
      | Some b =>
          let data := take (Z.to_nat len) (default [] src) in
          let place val cap used :=
            (CybouDB_OK, set_slot s0 p i (bound s val len cap PARAM_BOUND)
                           (Some (mk_buf used (write_at (buf_bytes b) (Z.to_nat val) data)))) in
          if len <=? p_cap s then place (p_val s) (p_cap s) (buf_used b) else
          if PARAM_BUF_SIZE <? buf_used b + round8 len then (CybouDB_NOMEM, st) else
          place (buf_used b) (round8 len) (buf_used b + round8 len)
      end
  end.

Definition cyboudb_bind_parameter_count (st : option stmt) : Z :=
  match st with
  | Some st => if magic st then match s_plan st with Some p => Z.of_nat (List.length (param_slots p)) | None => 0 end else 0
  | None => 0
  end.

Definition cyboudb_bind_null (st : option stmt) (idx : Z) : Z * option stmt :=
  match api_param_slot st idx with
  | None => (CybouDB_MISUSE, st)
  | Some (s0, p, i, s) =>
      if p_kind s =? PARAM_TO_BEXPR then (CybouDB_MISUSE, st) else
      if p_flags s .& CAT_NULLABLE =? 0 then (CybouDB_MISUSE, st) else
      (CybouDB_OK, set_slot s0 p i (bound s 0 0 (p_cap s) PARAM_NULL) (param_buffer p))
  end.

Definition cyboudb_bind_int64 (st : option stmt) (idx value : Z) := api_param_scalar st idx CybouDB_TYPE_INT64 (u64 value).
Definition cyboudb_bind_int32 (st : option stmt) (idx value : Z) := api_param_scalar st idx CybouDB_TYPE_INT32 (u64 value).
Definition cyboudb_bind_bool (st : option stmt) (idx value : Z) :=
  api_param_scalar st idx CybouDB_TYPE_BOOL (if value =? 0 then 0 else 1).
(** The value is its 32 bits. *)
Definition cyboudb_bind_float (st : option stmt) (idx value : Z) := api_param_scalar st idx CybouDB_TYPE_FLOAT32 (u32 value).

(** The bytes before the first NUL. *)
Fixpoint measure (l : list Z) : Z :=
  match l with
  | [] => 0
  | c :: l' => if c =? 0 then 0 else 1 + measure l'
  end.

Definition cyboudb_bind_text (st : option stmt) (idx : Z) (text : ptr) (len : Z) : Z * option stmt :=
  if len <? 0 then
    match text with
    | None => (CybouDB_MISUSE, st)
    | Some l => api_param_bytes st idx CybouDB_TYPE_TEXT text (measure l)
    end
  else api_param_bytes st idx CybouDB_TYPE_TEXT text len.

Definition cyboudb_bind_blob (st : option stmt) (idx : Z) (data : ptr) (len : Z) : Z * option stmt :=
  api_param_bytes st idx CybouDB_TYPE_BLOB data len.

Definition cyboudb_bind_vector_f32 (st : option stmt) (idx : Z) (values : ptr) (dims : Z) : Z * option stmt :=
  if dims <=? 0 then (CybouDB_MISUSE, st) else
  match api_param_slot st idx with
  | None => (CybouDB_MISUSE, st)
  | Some (_, _, _, s) =>
      if negb (p_type s =? CybouDB_TYPE_VECTOR) then (CybouDB_MISUSE, st) else
      if negb (p_flags s .>> 16 =? dims) then (CybouDB_MISUSE, st) else
      api_param_bytes st idx CybouDB_TYPE_VECTOR values (4 * dims)
  end.

Definition cyboudb_clear_bindings (st : option stmt) : Z * option stmt :=
  match st with
  | None => (CybouDB_MISUSE, st)
  | Some s0 =>
      if negb (magic s0) then (CybouDB_MISUSE, st) else
      if state s0 =? STMT_STATE_SCANNING then (CybouDB_MISUSE, st) else
      match s_plan s0 with
      | None => (CybouDB_OK, st)
      | Some p =>
          (CybouDB_OK, Some (mk_stmt (magic s0) (state s0) (cur_row s0) (act_mask s0) (cnt_accum s0)
             (Some (mk_plan (map (fun s => bound s 0 0 0 PARAM_UNBOUND) (param_slots p))
                      (option_map (fun b => mk_buf 0 (buf_bytes b)) (param_buffer p))))))
      end
  end.

Definition cyboudb_reset (st : option stmt) : Z * option stmt :=
  match st with
  | None => (CybouDB_MISUSE, st)
  | Some s0 =>
      if negb (magic s0) then (CybouDB_MISUSE, st)
      else (CybouDB_OK, Some (mk_stmt (magic s0) STMT_STATE_INIT 0 0 0 (s_plan s0)))
  end.

(** ** What an execution is given *)

Inductive value := VNull | VScalar (x : Z) | VBytes (l : list Z).

Definition slot_value (b : option param_buf) (s : param_slot) : option value :=
  if p_state s =? PARAM_UNBOUND then None else
  if p_state s =? PARAM_NULL then Some VNull else
  if p_type s <? CybouDB_TYPE_TEXT then Some (VScalar (p_val s)) else
  Some (VBytes (take (Z.to_nat (p_len s)) (drop (Z.to_nat (p_val s)) (default [] (buf_bytes <$> b))))).

(** The parameters over the batch of an INSERT: the last first, and none at all
    when one is unbound. *)
Definition insert_params (p : plan) : option (list value) := mapM (slot_value (param_buffer p)) (param_slots p).

(** ** The contract *)

(** What the statement says of a parameter. *)
Record param := mk_param { a_type : Z; a_flags : Z; a_kind : Z }.
Definition param_of (s : param_slot) : param := mk_param (p_type s) (p_flags s) (p_kind s).

Inductive bind_call :=
  | BindInt32 (v : Z) | BindInt64 (v : Z) | BindFloat (v : Z) | BindBool (v : Z)
  | BindText (text : ptr) (len : Z) | BindBlob (data : ptr) (len : Z) | BindVector (values : ptr) (dims : Z)
  | BindNull.

Definition do_bind (st : option stmt) (idx : Z) (c : bind_call) : Z * option stmt :=
  match c with
  | BindInt32 v => cyboudb_bind_int32 st idx v
  | BindInt64 v => cyboudb_bind_int64 st idx v
  | BindFloat v => cyboudb_bind_float st idx v
  | BindBool v => cyboudb_bind_bool st idx v
  | BindText t n => cyboudb_bind_text st idx t n
  | BindBlob d n => cyboudb_bind_blob st idx d n
  | BindVector v n => cyboudb_bind_vector_f32 st idx v n
  | BindNull => cyboudb_bind_null st idx
  end.

(** Bytes promised with no pointer to them are refused. *)
Definition given (p : ptr) (len : Z) : bool := (0 <=? len) && (bool_decide (is_Some p) || (len =? 0)).
Definition text_length (t : ptr) (len : Z) : Z := if len <? 0 then measure (default [] t) else len.

(** Each call names the type it is for and refuses any other. *)
Definition accepts (p : param) (c : bind_call) : bool :=
  match c with
  | BindInt32 _ => a_type p =? CybouDB_TYPE_INT32
  | BindInt64 _ => a_type p =? CybouDB_TYPE_INT64
  | BindFloat _ => a_type p =? CybouDB_TYPE_FLOAT32
  | BindBool _ => a_type p =? CybouDB_TYPE_BOOL
  | BindText t len =>
      (a_type p =? CybouDB_TYPE_TEXT) && (if len <? 0 then bool_decide (is_Some t) else given t len)
  | BindBlob d len => (a_type p =? CybouDB_TYPE_BLOB) && given d len
  | BindVector v dims =>
      (a_type p =? CybouDB_TYPE_VECTOR) && (0 <? dims) && (a_flags p .>> 16 =? dims) && given v (4 * dims)
  | BindNull => negb (a_kind p =? PARAM_TO_BEXPR) && negb (a_flags p .& CAT_NULLABLE =? 0)
  end.

Definition given_value (c : bind_call) : value :=
  match c with
  | BindInt32 v | BindInt64 v => VScalar (u64 v)
  | BindFloat v => VScalar (u32 v)
  | BindBool v => VScalar (if v =? 0 then 0 else 1)
  | BindText t len => VBytes (take (Z.to_nat (text_length t len)) (default [] t))
  | BindBlob d len => VBytes (take (Z.to_nat len) (default [] d))
  | BindVector v dims => VBytes (take (Z.to_nat (4 * dims)) (default [] v))
  | BindNull => VNull
  end.

Definition bind_contract (scanning : bool) (ps : list param) (bs : list (option value)) (idx : Z) (c : bind_call) :
    Z * list (option value) :=
  if scanning || (idx <? 0) then (CybouDB_MISUSE, bs) else
  match ps !! Z.to_nat idx with
  | None => (CybouDB_MISUSE, bs)
  | Some p => if accepts p c then (CybouDB_OK, <[Z.to_nat idx := Some (given_value c)]> bs) else (CybouDB_MISUSE, bs)
  end.

(** ** Regions *)

Record slot_ok (used : Z) (s : param_slot) : Prop := {
  ok_len : 0 <= p_len s;
  ok_cap : 0 <= p_cap s;
  ok_scalar : p_type s < CybouDB_TYPE_TEXT -> p_cap s = 0;
  ok_fits : CybouDB_TYPE_TEXT <= p_type s -> p_state s = PARAM_BOUND -> p_len s <= p_cap s;
  ok_region : 0 < p_cap s -> 0 <= p_val s /\ p_val s + p_cap s <= used;
  ok_offset : CybouDB_TYPE_TEXT <= p_type s -> 0 <= p_val s <= PARAM_BUF_SIZE;
  ok_state : p_state s = PARAM_UNBOUND \/ p_state s = PARAM_BOUND \/ p_state s = PARAM_NULL;
}.

Definition apart (s t : param_slot) : Prop :=
  p_cap s = 0 \/ p_cap t = 0 \/ p_val s + p_cap s <= p_val t \/ p_val t + p_cap t <= p_val s.

(** Every slot owns a region of its own. *)
Record plan_ok (p : plan) (b : param_buf) : Prop := {
  ok_buffer : param_buffer p = Some b;
  ok_size : Z.of_nat (List.length (buf_bytes b)) = PARAM_BUF_SIZE;
  ok_used : 0 <= buf_used b <= PARAM_BUF_SIZE;
  ok_slots : forall i s, param_slots p !! i = Some s -> slot_ok (buf_used b) s;
  ok_apart : forall i j s t, i <> j -> param_slots p !! i = Some s -> param_slots p !! j = Some t -> apart s t;
}.

Definition params (p : plan) : list param := map param_of (param_slots p).
Definition bindings (p : plan) : list (option value) := map (slot_value (param_buffer p)) (param_slots p).

Lemma lookup_write_at l off d i : (off + List.length d <= List.length l)%nat ->
  write_at l off d !! i = if (off <=? i)%nat && (i <? off + List.length d)%nat then d !! (i - off)%nat else l !! i.
Proof.
  intros H. unfold write_at. destruct (Nat.leb_spec off i); cbn [andb].
  - rewrite lookup_app_r by (rewrite length_take; lia). rewrite length_take, Nat.min_l by lia.
    destruct (Nat.ltb_spec i (off + List.length d)).
    + by rewrite lookup_app_l by lia.
    + rewrite lookup_app_r, lookup_drop by lia. f_equal. lia.
  - rewrite lookup_app_l by (rewrite length_take; lia). by rewrite lookup_take_lt by lia.
Qed.

Lemma length_write_at l off d : (off + List.length d <= List.length l)%nat -> List.length (write_at l off d) = List.length l.
Proof. intros H. unfold write_at. rewrite !length_app, length_take, length_drop. lia. Qed.

(** What was just written is read back, and what lies beside it is as it was. *)
Lemma read_written l off d : (off + List.length d <= List.length l)%nat ->
  take (List.length d) (drop off (write_at l off d)) = d.
Proof.
  intros H. unfold write_at. rewrite drop_app_length' by (rewrite length_take; lia). apply take_app_length.
Qed.

Lemma read_beside l off d o n : (off + List.length d <= List.length l)%nat ->
  (o + n <= off \/ off + List.length d <= o \/ n = 0)%nat ->
  take n (drop o (write_at l off d)) = take n (drop o l).
Proof.
  intros H Ho. apply list_eq. intros i. destruct (decide (i < n)%nat).
  - rewrite !lookup_take_lt, !lookup_drop, lookup_write_at by done.
    destruct (Nat.leb_spec off (o + i)), (Nat.ltb_spec (o + i) (off + List.length d)); cbn [andb]; done || lia.
  - by rewrite !lookup_take_ge by lia.
Qed.

(** A slot's value when another slot's bytes are written. *)
Lemma slot_value_beside used b used' off d t : slot_ok used t -> Z.of_nat (off + List.length d) <= Z.of_nat (List.length (buf_bytes b)) ->
  (p_cap t = 0 \/ d = [] \/ p_val t + p_cap t <= Z.of_nat off \/ Z.of_nat off + Z.of_nat (List.length d) <= p_val t) ->
  slot_value (Some (mk_buf used' (write_at (buf_bytes b) off d))) t = slot_value (Some b) t.
Proof.
  intros T H Ho. unfold slot_value. destruct (p_state t =? PARAM_UNBOUND) eqn:E0; [done|].
  destruct (p_state t =? PARAM_NULL) eqn:E1; [done|]. destruct (Z.ltb_spec (p_type t) CybouDB_TYPE_TEXT); [done|].
  cbn [fmap option_fmap option_map buf_bytes]. unfold default, id. do 2 f_equal.
  bool_to_prop. assert (Eb : p_state t = PARAM_BOUND) by (destruct (ok_state _ _ T) as [?|[?|?]]; congruence).
  pose proof (ok_fits _ _ T ltac:(assumption) Eb). pose proof (ok_len _ _ T). pose proof (ok_region _ _ T).
  destruct d as [|x d].
  - unfold write_at. cbn [List.length app]. by rewrite Nat.add_0_r, take_drop.
  - apply read_beside; [lia|]. cbn [List.length] in *. destruct Ho as [Ho|[Ho|Ho]]; [|discriminate|]; lia.
Qed.

(** ** A slot rebound *)

Lemma slot_ok_mono used used' s : used <= used' -> slot_ok used s -> slot_ok used' s.
Proof. intros Hu [H1 H2 H3 H4 H5 H6 H7]. constructor; try done. intros Hc. specialize (H5 Hc). lia. Qed.

(** The new slot is sound, apart from the others, and the others' values stay. *)
Lemma rebound p b i s s' b' v : plan_ok p b -> param_slots p !! i = Some s -> param_of s' = param_of s ->
  slot_ok (buf_used b') s' -> buf_used b <= buf_used b' <= PARAM_BUF_SIZE ->
  List.length (buf_bytes b') = List.length (buf_bytes b) ->
  (forall j t, j <> i -> param_slots p !! j = Some t -> apart s' t) ->
  (forall j t, j <> i -> param_slots p !! j = Some t -> slot_value (Some b') t = slot_value (Some b) t) ->
  slot_value (Some b') s' = Some v ->
  let p' := mk_plan (<[i := s']> (param_slots p)) (Some b') in
  plan_ok p' b' /\ params p' = params p /\ bindings p' = <[i := Some v]> (bindings p).
Proof.
  intros [O1 O2 O3 O4 O5] Hi Hp Hs Hu Hl Ha Hv Hv'. cbv zeta. pose proof (lookup_lt_Some _ _ _ Hi) as Hlt. split; [|split].
  - constructor; cbn [param_slots param_buffer].
    + done.
    + by rewrite Hl.
    + lia.
    + intros j t Ht. destruct (decide (i = j)) as [<-|].
      * rewrite list_lookup_insert_eq in Ht by done. by injection Ht as <-.
      * rewrite list_lookup_insert_ne in Ht by done. eapply slot_ok_mono, O4; [lia|done].
    + intros j k t u Hne Ht Hu'. destruct (decide (i = j)) as [<-|Hj]; destruct (decide (i = k)) as [<-|Hk]; try done.
      * rewrite list_lookup_insert_eq in Ht by done. rewrite list_lookup_insert_ne in Hu' by done. injection Ht as <-. by apply (Ha k).
      * rewrite list_lookup_insert_ne in Ht by done. rewrite list_lookup_insert_eq in Hu' by done. injection Hu' as <-.
        specialize (Ha j t ltac:(done) Ht). unfold apart in *. tauto.
      * rewrite list_lookup_insert_ne in Ht, Hu' by done. by apply (O5 j k).
  - unfold params. cbn [param_slots]. apply list_eq. intros j. rewrite !list_lookup_fmap.
    destruct (decide (i = j)) as [<-|]; [|by rewrite list_lookup_insert_ne].
    rewrite list_lookup_insert_eq, Hi by done. simpl. by rewrite Hp.
  - unfold bindings. cbn [param_slots param_buffer]. rewrite O1. apply list_eq. intros j. rewrite list_lookup_fmap.
    destruct (decide (i = j)) as [<-|Hj].
    + rewrite !list_lookup_insert_eq by (done || by rewrite length_map). simpl. by rewrite Hv'.
    + rewrite !list_lookup_insert_ne, list_lookup_fmap by done. destruct (param_slots p !! j) as [t|] eqn:Ht; [|done].
      simpl. f_equal. by apply (Hv j).
Qed.

Lemma read_own b val len data : 0 <= val -> Z.to_nat len = List.length data ->
  val + len <= Z.of_nat (List.length (buf_bytes b)) -> 0 <= len ->
  take (Z.to_nat len) (drop (Z.to_nat val) (write_at (buf_bytes b) (Z.to_nat val) data)) = data.
Proof. intros Hv Hl Hb Hn. rewrite Hl. apply read_written. lia. Qed.

(** Bytes placed in a region of the slot's own. *)
Lemma placed p b i s val len cap used data : plan_ok p b -> param_slots p !! i = Some s ->
  CybouDB_TYPE_TEXT <= p_type s -> 0 <= len <= cap -> Z.to_nat len = List.length data ->
  buf_used b <= used <= PARAM_BUF_SIZE -> (0 < cap -> 0 <= val /\ val + cap <= used) ->
  (forall j t, j <> i -> param_slots p !! j = Some t -> apart (bound s val len cap PARAM_BOUND) t) ->
  let b' := mk_buf used (write_at (buf_bytes b) (Z.to_nat val) data) in
  let p' := mk_plan (<[i := bound s val len cap PARAM_BOUND]> (param_slots p)) (Some b') in
  (0 < len \/ 0 <= val <= PARAM_BUF_SIZE) ->
  plan_ok p' b' /\ params p' = params p /\ bindings p' = <[i := Some (VBytes data)]> (bindings p).
Proof.
  intros O Hi Ht Hl Hd Hu Hr Ha b' p' Hv. pose proof (ok_size _ _ O) as Hsz. pose proof (ok_used _ _ O) as Hus.
  assert (Hb : Z.of_nat (Z.to_nat val + List.length data) <= Z.of_nat (List.length (buf_bytes b)) /\ 0 <= val) by lia.
  apply (rebound p b i s); try done.
  - constructor; cbn [bound p_len p_cap p_type p_state p_val]; try lia; tauto.
  - unfold b'. cbn [buf_bytes]. apply length_write_at. lia.
  - intros j t Hj Et. apply (slot_value_beside (buf_used b)); [by apply (ok_slots _ _ O j)|lia|].
    destruct (Ha j t Hj Et) as [H|[H|H]]; cbn [bound p_cap p_val] in *; [|by left|].
    + right. left. apply List.length_zero_iff_nil. lia.
    + right. right. lia.
  - unfold slot_value. cbn [bound p_state p_type p_len p_val]. cbn [PARAM_BOUND PARAM_UNBOUND PARAM_NULL Z.eqb Pos.eqb].
    destruct (Z.ltb_spec (p_type s) CybouDB_TYPE_TEXT); [lia|]. cbn [fmap option_fmap option_map b' buf_bytes]. unfold default, id.
    do 2 f_equal. apply read_own; lia.
Qed.

(** ** Every bind call *)

Definition stmt_ok (st : stmt) (p : plan) (b : param_buf) : Prop := magic st = true /\ s_plan st = Some p /\ plan_ok p b.

(** The bytes a call copies. *)
Definition call_length (c : bind_call) : Z :=
  match c with
  | BindText t len => text_length t len
  | BindBlob _ len => len
  | BindVector _ dims => 4 * dims
  | _ => 0
  end.

(** The caller's memory holds what the call says it holds. *)
Definition readable (c : bind_call) : Prop :=
  match c with
  | BindText (Some l) len | BindBlob (Some l) len => len <= Z.of_nat (List.length l)
  | BindVector (Some l) dims => 4 * dims <= Z.of_nat (List.length l)
  | _ => True
  end.

(** The outcome of a call against the contract's. *)
Definition meets (st : stmt) (p : plan) (b : param_buf) (idx : Z) (c : bind_call)
    (r : Z * option stmt) (spec : Z * list (option value)) : Prop :=
  (fst r = fst spec /\ exists st' p' b', snd r = Some st' /\ stmt_ok st' p' b' /\ state st' = state st /\
     params p' = params p /\ bindings p' = snd spec) \/
  (r = (CybouDB_NOMEM, Some st) /\ fst spec = CybouDB_OK /\
   exists s, param_slots p !! Z.to_nat idx = Some s /\ p_cap s < call_length c /\
     PARAM_BUF_SIZE < buf_used b + round8 (call_length c)).

Section calls.
Context (st : stmt) (p : plan) (b : param_buf) (Hst : stmt_ok st p b) (idx : Z).

(** The slot lookup refuses what the contract refuses before it looks at the type. *)
Lemma slot_lookup c :
  match api_param_slot (Some st) idx with
  | None => bind_contract (state st =? STMT_STATE_SCANNING) (params p) (bindings p) idx c = (CybouDB_MISUSE, bindings p)
  | Some (st', p', i, s) => st' = st /\ p' = p /\ i = Z.to_nat idx /\ param_slots p !! i = Some s /\
      bind_contract (state st =? STMT_STATE_SCANNING) (params p) (bindings p) idx c =
        if accepts (param_of s) c then (CybouDB_OK, <[i := Some (given_value c)]> (bindings p)) else (CybouDB_MISUSE, bindings p)
  end.
Proof using Hst.
  destruct Hst as (Hm & Hp & _). unfold api_param_slot, bind_contract. rewrite Hm, Hp. cbn [negb].
  destruct (state st =? STMT_STATE_SCANNING); [done|]. cbn [orb]. destruct (idx <? 0); [done|].
  unfold params. rewrite list_lookup_fmap. destruct (param_slots p !! Z.to_nat idx) as [s|] eqn:E; by simpl.
Qed.

Lemma refused c r : r = (CybouDB_MISUSE, Some st) -> meets st p b idx c r (CybouDB_MISUSE, bindings p).
Proof using Hst. intros ->. left. split; [done|]. by exists st, p, b. Qed.

Lemma done_at i s' b' v c : plan_ok (mk_plan (<[i := s']> (param_slots p)) (Some b')) b' ->
  params (mk_plan (<[i := s']> (param_slots p)) (Some b')) = params p ->
  bindings (mk_plan (<[i := s']> (param_slots p)) (Some b')) = <[i := Some v]> (bindings p) ->
  meets st p b idx c (CybouDB_OK, set_slot st p i s' (Some b')) (CybouDB_OK, <[i := Some v]> (bindings p)).
Proof using Hst.
  intros H1 H2 H3. left. split; [done|]. eexists _, _, b'. split; [done|]. split; [by split; [apply Hst|]|]. done.
Qed.

(** A slot that takes a scalar or NULL: the buffer is untouched. *)
Lemma unbuffered i s val stt v c : param_slots p !! i = Some s -> slot_ok (buf_used b) (bound s val 0 (p_cap s) stt) ->
  p_cap s = 0 \/ p_val s = val -> slot_value (Some b) (bound s val 0 (p_cap s) stt) = Some v ->
  meets st p b idx c (CybouDB_OK, set_slot st p i (bound s val 0 (p_cap s) stt) (param_buffer p))
    (CybouDB_OK, <[i := Some v]> (bindings p)).
Proof using Hst.
  intros Hi Hs Hc Hv. destruct Hst as (_ & _ & O). rewrite (ok_buffer _ _ O). pose proof (ok_used _ _ O).
  edestruct (rebound p b i s (bound s val 0 (p_cap s) stt) b v O Hi) as (R1 & R2 & R3); try done.
  - lia.
  - intros j t Hj Et. pose proof (ok_apart _ _ O j i t s Hj Et Hi) as A. unfold apart in *. cbn [bound p_cap p_val].
    destruct Hc as [Hc| <-]; [tauto|]. tauto.
  - by apply done_at.
Qed.

Lemma scalar_meets ty v c : ty < CybouDB_TYPE_TEXT -> given_value c = VScalar v ->
  (forall q, accepts q c = (a_type q =? ty)) ->
  meets st p b idx c (api_param_scalar (Some st) idx ty v)
    (bind_contract (state st =? STMT_STATE_SCANNING) (params p) (bindings p) idx c).
Proof using Hst.
  intros Hty Hv Ha. unfold api_param_scalar. pose proof (slot_lookup c) as L.
  destruct (api_param_slot (Some st) idx) as [[[[st' p'] i] s]|]; [|rewrite L; by apply refused].
  destruct L as (-> & -> & -> & Hi & ->). rewrite Ha. cbn [param_of a_type].
  destruct (Z.eqb_spec (p_type s) ty) as [Et|]; cbn [negb]; [|by apply refused].
  destruct Hst as (_ & _ & O). pose proof (ok_slots _ _ O _ _ Hi) as S. rewrite Hv.
  assert (Hc : p_cap s = 0) by (apply S; lia).
  apply unbuffered; [done| |by left|].
  - constructor; cbn [bound p_len p_cap p_type p_state p_val]; try lia; tauto.
  - unfold slot_value. cbn [bound p_state p_type p_val PARAM_BOUND PARAM_UNBOUND PARAM_NULL Z.eqb].
    destruct (Z.ltb_spec (p_type s) CybouDB_TYPE_TEXT); [done|lia].
Qed.

Lemma bytes_meets ty src len c : CybouDB_TYPE_TEXT <= ty -> call_length c = len ->
  given_value c = VBytes (take (Z.to_nat len) (default [] src)) ->
  (forall s, param_slots p !! Z.to_nat idx = Some s -> accepts (param_of s) c = (p_type s =? ty) && given src len) ->
  (given src len = true -> len <= Z.of_nat (List.length (default [] src))) ->
  meets st p b idx c (api_param_bytes (Some st) idx ty src len)
    (bind_contract (state st =? STMT_STATE_SCANNING) (params p) (bindings p) idx c).
Proof using Hst.
  intros Hty Hlen Hv Ha Hr. unfold api_param_bytes. pose proof (slot_lookup c) as L.
  destruct (api_param_slot (Some st) idx) as [[[[st' p'] i] s]|]; [|rewrite L; by apply refused].
  destruct L as (-> & -> & -> & Hi & ->). rewrite (Ha s Hi).
  destruct (Z.eqb_spec (p_type s) ty) as [Et|]; cbn [negb andb]; [|by apply refused].
  unfold given in *. destruct (Z.ltb_spec len 0) as [Hn|Hn].
  { destruct (Z.leb_spec 0 len); [lia|]. by apply refused. }
  destruct (Z.leb_spec 0 len); [|lia]. cbn [andb] in *.
  rewrite <- negb_orb. destruct (bool_decide (is_Some src) || (len =? 0)); cbn [negb]; [|by apply refused].
  specialize (Hr eq_refl). destruct Hst as (_ & _ & O). rewrite (ok_buffer _ _ O), Hv. cbv zeta.
  pose proof (ok_slots _ _ O _ _ Hi) as S. pose proof (ok_used _ _ O).
  assert (Hd : Z.to_nat len = List.length (take (Z.to_nat len) (default [] src))) by (rewrite length_take; lia).
  destruct (Z.leb_spec len (p_cap s)).
  - edestruct (placed p b (Z.to_nat idx) s (p_val s) len (p_cap s) (buf_used b)) as (P1 & P2 & P3); try done; try lia.
    + apply S.
    + intros j t Hj Ej. pose proof (ok_apart _ _ O j _ t s Hj Ej Hi) as A. unfold apart in *. cbn [bound p_cap p_val]. tauto.
    + right. apply S. lia.
    + by apply done_at.
  - pose proof (ok_cap _ _ S). assert (Hr8 : len <= round8 len) by (unfold round8; lia).
    destruct (Z.ltb_spec PARAM_BUF_SIZE (buf_used b + round8 len)) as [Hf|Hf].
    { right. split; [done|]. split; [done|]. exists s. by rewrite Hlen. }
    edestruct (placed p b (Z.to_nat idx) s (buf_used b) len (round8 len) (buf_used b + round8 len)) as (P1 & P2 & P3);
      try done; try lia.
    + intros j t Hj Ej. pose proof (ok_slots _ _ O _ _ Ej) as T. pose proof (ok_region _ _ T). pose proof (ok_cap _ _ T).
      unfold apart. cbn [bound p_cap p_val]. lia.
    + by apply done_at.
Qed.
End calls.

Lemma measure_range l : 0 <= measure l <= Z.of_nat (List.length l).
Proof. induction l as [|c l IH]; cbn [measure List.length]; [lia|]. destruct (c =? 0); lia. Qed.

(** NULL in a slot that owns no bytes, or owns those at the start of the buffer. *)
Definition null_safe (p : plan) (idx : Z) : Prop :=
  forall s, param_slots p !! Z.to_nat idx = Some s -> p_cap s = 0 \/ p_val s = 0.

Lemma null_meets st p b idx : stmt_ok st p b -> null_safe p idx ->
  meets st p b idx BindNull (cyboudb_bind_null (Some st) idx)
    (bind_contract (state st =? STMT_STATE_SCANNING) (params p) (bindings p) idx BindNull).
Proof.
  intros Hst Hn. unfold cyboudb_bind_null. pose proof (slot_lookup st p b Hst idx BindNull) as L.
  destruct (api_param_slot (Some st) idx) as [[[[st' p'] i] s]|]; [|rewrite L; by apply refused].
  destruct L as (-> & -> & -> & Hi & ->). cbn [accepts param_of a_kind a_flags].
  destruct (p_kind s =? PARAM_TO_BEXPR); cbn [negb andb]; [by apply refused|].
  destruct (p_flags s .& CAT_NULLABLE =? 0); cbn [negb]; [by apply refused|].
  pose proof (ok_slots _ _ (proj2 (proj2 Hst)) _ _ Hi) as S. specialize (Hn s Hi).
  apply (unbuffered st p b Hst idx (Z.to_nat idx) s 0 PARAM_NULL VNull); [done| |done|done].
  constructor; cbn [bound p_len p_cap p_type p_state p_val].
  - lia.
  - apply S.
  - apply S.
  - discriminate.
  - intros Hc. destruct Hn as [|E]; [lia|]. pose proof (ok_region _ _ S Hc). lia.
  - unfold PARAM_BUF_SIZE. lia.
  - tauto.
Qed.

Lemma vector_meets st p b idx v dims : stmt_ok st p b -> readable (BindVector v dims) ->
  meets st p b idx (BindVector v dims) (cyboudb_bind_vector_f32 (Some st) idx v dims)
    (bind_contract (state st =? STMT_STATE_SCANNING) (params p) (bindings p) idx (BindVector v dims)).
Proof.
  intros Hst Hr. unfold cyboudb_bind_vector_f32. pose proof (slot_lookup st p b Hst idx (BindVector v dims)) as L.
  destruct (api_param_slot (Some st) idx) as [[[[st' p'] i] s]|] eqn:Es.
  2: { rewrite L. destruct (dims <=? 0); by apply refused. }
  destruct L as (-> & -> & -> & Hi & E). cbn [accepts param_of a_type a_flags] in E.
  destruct (Z.leb_spec dims 0).
  { rewrite E. destruct (Z.ltb_spec 0 dims); [lia|]. rewrite andb_false_r. cbn [andb]. by apply refused. }
  destruct (p_type s =? CybouDB_TYPE_VECTOR) eqn:Et; cbn [negb andb] in *; [|rewrite E; by apply refused].
  destruct (Z.ltb_spec 0 dims); [|lia]. cbn [andb] in E.
  destruct (p_flags s .>> 16 =? dims) eqn:Ed; cbn [negb andb] in *; [|rewrite E; by apply refused].
  apply (bytes_meets st p b Hst idx CybouDB_TYPE_VECTOR v (4 * dims)); try done.
  - intros s' Hs'. rewrite Hi in Hs'. injection Hs' as <-. cbn [accepts param_of a_type a_flags]. rewrite Et, Ed.
    by destruct (Z.ltb_spec 0 dims); [|lia].
  - destruct v as [l|]; [done|]. unfold given. destruct (Z.eqb_spec (4 * dims) 0); [lia|]. by rewrite andb_false_r.
Qed.

Lemma text_meets st p b idx t len : stmt_ok st p b -> readable (BindText t len) ->
  meets st p b idx (BindText t len) (cyboudb_bind_text (Some st) idx t len)
    (bind_contract (state st =? STMT_STATE_SCANNING) (params p) (bindings p) idx (BindText t len)).
Proof.
  intros Hst Hr. unfold cyboudb_bind_text. destruct (Z.ltb_spec len 0) as [Hn|Hn].
  - destruct t as [l|].
    + pose proof (measure_range l). assert (E : (len <? 0) = true) by lia.
      apply bytes_meets; try done; cbn [call_length given_value accepts]; unfold text_length, given; rewrite ?E; cbn [default]; try done; try lia.
      2: { intros _. unfold id. lia. }
      intros s _. cbn [param_of a_type]. destruct (Z.leb_spec 0 (measure l)); [|lia].
      by rewrite bool_decide_eq_true_2 by by eexists.
    + pose proof (slot_lookup st p b Hst idx (BindText None len)) as L.
      destruct (api_param_slot (Some st) idx) as [[[[? ?] ?] s]|]; [|rewrite L; by apply refused].
      destruct L as (_ & _ & _ & _ & ->). cbn [accepts]. assert (E : (len <? 0) = true) by lia. rewrite E.
      rewrite bool_decide_eq_false_2 by (intros [? ?]; done). rewrite andb_false_r. by apply refused.
  - assert (E : (len <? 0) = false) by lia.
    apply bytes_meets; try done; cbn [call_length given_value accepts]; unfold text_length; rewrite ?E; try done.
    unfold given. destruct t as [l|]; [done|]. cbn [default List.length].
    rewrite bool_decide_eq_false_2 by (intros [? ?]; done). lia.
Qed.

(** ** The other verbs *)

Lemma insert_params_bindings p : insert_params p = mapM (fun v => v) (bindings p).
Proof.
  unfold insert_params, bindings. generalize (param_slots p). intros l. induction l as [|s l IH]; [done|].
  cbn [map mapM]. by rewrite IH.
Qed.

Lemma cleared_ok p b : plan_ok p b ->
  plan_ok (mk_plan (map (fun s => bound s 0 0 0 PARAM_UNBOUND) (param_slots p)) (Some (mk_buf 0 (buf_bytes b)))) (mk_buf 0 (buf_bytes b)).
Proof.
  intros [O1 O2 O3 _ _]. constructor; cbn [param_buffer param_slots buf_used buf_bytes]; try done; try lia.
  - intros i s. rewrite list_lookup_fmap. destruct (param_slots p !! i); [|done]. intros [= <-].
    constructor; cbn [bound p_len p_cap p_type p_state p_val]; unfold PARAM_BUF_SIZE; try lia; try done.
  - intros i j s t _ Hi _. rewrite list_lookup_fmap in Hi. destruct (param_slots p !! i); [|done]. injection Hi as <-. by left.
Qed.

(** Clearing: refused while a scan is in progress, and every parameter unbound
    otherwise. *)
Definition clear_contract (scanning : bool) (values : list (option value)) : Z * list (option value) :=
  if scanning then (CybouDB_MISUSE, values) else (CybouDB_OK, replicate (List.length values) None).

Lemma do_bind_meets st p b idx c : stmt_ok st p b -> readable c -> (c = BindNull -> null_safe p idx) ->
  meets st p b idx c (do_bind (Some st) idx c)
    (bind_contract (state st =? STMT_STATE_SCANNING) (params p) (bindings p) idx c).
Proof.
  intros Hst Hr Hn. destruct c as [v|v|v|v|t len|d len|v dims|]; cbn [do_bind].
  - by apply scalar_meets.
  - by apply scalar_meets.
  - by apply scalar_meets.
  - by apply scalar_meets.
  - by apply text_meets.
  - apply bytes_meets; try done. destruct d as [l|]; [done|]. unfold given. cbn [default List.length].
    rewrite bool_decide_eq_false_2 by (intros [? ?]; done). lia.
  - by apply vector_meets.
  - apply null_meets; [done|by apply Hn].
Qed.

(** ** Properties *)


(** C38: NULL in a parameter that owns bytes forgets where they are and keeps how
    many.  With parameter [i] bound to text at the start of the buffer, binding
    NULL and then a text no longer than the old one to another parameter [j]
    succeeds twice and writes over the bytes of [i]: its value changes although it
    was not bound again. *)
Theorem null_then_rebind_corrupts st p b i j s t data : stmt_ok st p b -> state st <> STMT_STATE_SCANNING -> i <> j ->
  param_slots p !! i = Some s -> p_type s = CybouDB_TYPE_TEXT -> p_state s = PARAM_BOUND -> p_val s = 0 ->
  param_slots p !! j = Some t -> p_type t = CybouDB_TYPE_TEXT -> p_kind t <> PARAM_TO_BEXPR ->
  p_flags t .& CAT_NULLABLE <> 0 ->
  Z.of_nat (List.length data) <= p_cap t -> Z.of_nat (List.length data) <= p_len s ->
  exists st1 st2 p2, cyboudb_bind_null (Some st) (Z.of_nat j) = (CybouDB_OK, Some st1) /\
    cyboudb_bind_text (Some st1) (Z.of_nat j) (Some data) (Z.of_nat (List.length data)) = (CybouDB_OK, Some st2) /\
    s_plan st2 = Some p2 /\
    bindings p2 !! i = Some (Some (VBytes (data ++ take (Z.to_nat (p_len s) - List.length data)
                                             (drop (List.length data) (buf_bytes b))))).
Proof.
  intros (Hm & Hp & O) Hsc Hij Hi Hts Hss Hvs Hj Htt Hk Hf Hd1 Hd2. pose proof (lookup_lt_Some _ _ _ Hj) as Hlt.
  assert (Esc : (state st =? STMT_STATE_SCANNING) = false) by lia.
  unfold cyboudb_bind_null, api_param_slot. rewrite Hm, Hp, Esc. cbn [negb].
  destruct (Z.ltb_spec (Z.of_nat j) 0); [lia|]. rewrite Nat2Z.id, Hj. cbn [mbind option_bind].
  destruct (Z.eqb_spec (p_kind t) PARAM_TO_BEXPR); [done|]. destruct (Z.eqb_spec (p_flags t .& CAT_NULLABLE) 0); [done|].
  set (t1 := bound t 0 0 (p_cap t) PARAM_NULL). rewrite (ok_buffer _ _ O).
  eexists _, _, _. split; [done|].
  unfold cyboudb_bind_text. destruct (Z.ltb_spec (Z.of_nat (List.length data)) 0); [lia|].
  unfold api_param_bytes, api_param_slot. cbn [magic state s_plan]. rewrite Hm, Esc. cbn [negb].
  destruct (Z.ltb_spec (Z.of_nat j) 0); [lia|]. cbn [param_slots]. rewrite Nat2Z.id, list_lookup_insert_eq by done.
  cbn [mbind option_bind t1 bound p_type]. rewrite Htt, Z.eqb_refl. cbn [negb].
  destruct (Z.ltb_spec (Z.of_nat (List.length data)) 0); [lia|].
  rewrite bool_decide_eq_true_2 by by eexists. cbn [negb andb param_buffer]. cbv zeta.
  cbn [p_cap t1 bound]. destruct (Z.leb_spec (Z.of_nat (List.length data)) (p_cap t)); [|lia].
  split; [done|]. split; [done|]. unfold bindings. cbn [param_slots param_buffer]. rewrite list_lookup_fmap.
  rewrite !list_lookup_insert_ne, Hi by done. cbn [fmap option_fmap option_map]. unfold slot_value.
  rewrite Hss, Hts, Hvs. cbn [PARAM_BOUND PARAM_UNBOUND PARAM_NULL CybouDB_TYPE_TEXT Z.eqb Z.ltb Pos.eqb Z.compare Pos.compare Pos.compare_cont].
  cbn [fmap option_fmap option_map buf_bytes p_val]. unfold default, id. rewrite Nat2Z.id. do 3 f_equal.
  change (Z.to_nat 0) with 0%nat. rewrite drop_0. unfold write_at. rewrite take_0. cbn [app Nat.add].
  rewrite (take_ge data) by lia. by rewrite take_app_ge by lia.
Qed.

(** *** Two text columns *)

(** [INSERT INTO t VALUES (?, ?)] into two nullable TEXT columns. *)
Definition text_slot (i : Z) : param_slot := mk_slot i CybouDB_TYPE_TEXT CAT_NULLABLE 0 0 0 0 PARAM_UNBOUND.
Definition fresh_plan : plan := mk_plan [text_slot 0; text_slot 1] (Some (mk_buf 0 (replicate (Z.to_nat PARAM_BUF_SIZE) 0))).
Definition fresh : stmt := mk_stmt true STMT_STATE_INIT 0 0 0 (Some fresh_plan).

Lemma fresh_ok : stmt_ok fresh fresh_plan (mk_buf 0 (replicate (Z.to_nat PARAM_BUF_SIZE) 0)).
Proof.
  split; [done|]. split; [done|]. constructor; cbn [fresh_plan param_buffer param_slots buf_used buf_bytes].
  - done.
  - rewrite length_replicate. by vm_compute.
  - unfold PARAM_BUF_SIZE. lia.
  - intros [|[|i]] s; cbn; intros [= <-] || intros [=]; constructor; cbn; unfold PARAM_BUF_SIZE; try lia; try done; by left.
  - intros [|[|i]] j s t _; cbn; intros [= <-] || intros [=]; left; done.
Qed.

(** [both] after both were bound: (97, 98) in the first, (99) in the second. *)
Definition both_buf : param_buf := mk_buf 16 (write_at (write_at (replicate (Z.to_nat PARAM_BUF_SIZE) 0) 0 [97; 98]) 8 [99]).
Definition both_plan : plan :=
  mk_plan [bound (text_slot 0) 0 2 8 PARAM_BOUND; bound (text_slot 1) 8 1 8 PARAM_BOUND] (Some both_buf).
Definition both : stmt := mk_stmt true STMT_STATE_INIT 0 0 0 (Some both_plan).

Lemma both_ok : stmt_ok both both_plan both_buf.
Proof.
  split; [done|]. split; [done|]. constructor; cbn [both_plan param_buffer param_slots both_buf buf_used].
  - done.
  - by vm_compute.
  - unfold PARAM_BUF_SIZE. lia.
  - intros [|[|i]] s; cbn; intros [= <-] || intros [=]; constructor; cbn; unfold PARAM_BUF_SIZE; try lia; try done; by right; left.
  - intros i j s t Hij Hs Ht. destruct i as [|[|i]], j as [|[|j]]; cbn in Hs, Ht; try done;
      injection Hs as <-; injection Ht as <-; unfold apart; cbn; lia.
Qed.

Definition regions (st : option stmt) : option (list (Z * Z * Z) * list (option value)) :=
  st ← st; p ← s_plan st; Some (map (fun s => (p_val s, p_len s, p_cap s)) (param_slots p), bindings p).

Example both_reached :
  regions (snd (do_bind (snd (do_bind (Some fresh) 0 (BindText (Some [97; 98; 0]) (-1)))) 1 (BindText (Some [99]) 1))) =
  regions (Some both).
Proof. vm_compute. reflexivity. Qed.


(** The first parameter was bound to (97, 98) and now reads (120, 98). *)
Lemma null_then_rebind_corrupts_witness :
  exists st1 st2 p2, cyboudb_bind_null (Some both) 1 = (CybouDB_OK, Some st1) /\
    cyboudb_bind_text (Some st1) 1 (Some [120]) 1 = (CybouDB_OK, Some st2) /\ s_plan st2 = Some p2 /\
    bindings both_plan !! 0%nat = Some (Some (VBytes [97; 98])) /\ bindings p2 !! 0%nat = Some (Some (VBytes [120; 98])).
Proof.
  destruct (null_then_rebind_corrupts both both_plan both_buf 0 1 (bound (text_slot 0) 0 2 8 PARAM_BOUND)
    (bound (text_slot 1) 8 1 8 PARAM_BOUND) [120] both_ok) as (st1 & st2 & p2 & H1 & H2 & H3 & H4);
    [discriminate|discriminate|reflexivity|reflexivity|reflexivity|reflexivity|reflexivity|reflexivity|discriminate|discriminate|cbn; lia|cbn; lia|].
  exists st1, st2, p2. split; [exact H1|]. split; [exact H2|]. split; [exact H3|].
  split; [vm_compute; reflexivity|]. rewrite H4. vm_compute. reflexivity.
Defined.
