(* ===== verification/Step.v ===== *)
(** * Step: executing a prepared statement

    [cyboudb_step], [cyboudb_step_batch] and [cyboudb_reset] of
    [src/api/cyboudb_c.asm]: which statement kinds the step dispatches on, the
    explicit transaction (BEGIN, COMMIT, ROLLBACK), the autocommit after a
    mutation, the errors a step leaves in the connection and the statement, and
    the lanes of a batch handed out one row at a time.

    The storage engine and the SQL layers below ([src/core], [src/sql]) are the
    interface [Core]; what a transaction relies on of them is [Transactional],
    the contract of [docs/TRANSACTIONS.md], and what a scan relies on is
    [Scanning].  A handle argument is an [option]: [None] is NULL. *)

From Stdlib Require Import String.
From S2P Require Import Prelude Engine.

Open Scope string_scope.
Open Scope Z_scope.
Open Scope list_scope.

Definition CybouDB_OPEN_READONLY : Z := 0x0001.
Definition CybouDB_OPEN_READWRITE : Z := 0x0002.
Definition CybouDB_E_STATE : Z := 22.

Definition str_tx_active : string := "cannot BEGIN inside active transaction".
Definition str_no_tx_commit : string := "no active transaction to COMMIT".
Definition str_no_tx_rollback : string := "no active transaction to ROLLBACK".
Definition str_readonly : string := "database is read-only".

(** ** The engine below *)

Inductive stmt_type :=
  | STMT_CREATE_TABLE | STMT_INSERT | STMT_SELECT | STMT_UPDATE | STMT_DROP_TABLE | STMT_BEGIN | STMT_COMMIT
  | STMT_ROLLBACK | STMT_DELETE | STMT_CREATE_INDEX | STMT_DROP_INDEX | STMT_CREATE_QUEUE | STMT_DROP_QUEUE
  | STMT_ENQUEUE | STMT_DEQUEUE | STMT_CREATE_STREAM | STMT_DROP_STREAM | STMT_APPEND | STMT_CREATE_CURSOR
  | STMT_DROP_CURSOR | STMT_READ | STMT_TRIM | STMT_CLAIM | STMT_ACK | STMT_NACK | STMT_RENEW.

Inductive stmt_state :=
  STMT_STATE_INIT | STMT_STATE_SCANNING | STMT_STATE_DONE | STMT_STATE_ERROR | STMT_STATE_COUNT_DELIVER.

(** The two as the code has them: decidable tags. *)
#[export] Instance stmt_type_eq_dec : EqDecision stmt_type.
Proof. solve_decision. Defined.
#[export] Instance stmt_state_eq_dec : EqDecision stmt_state.
Proof. solve_decision. Defined.

(** [sql_parse] and [sql_bind] in an arena of a given allocation. *)
Inductive compiled (P : Type) := Compiled (p : P) | Refused (code : Z) (msg : string) | ArenaFailed.
Arguments Compiled {P}.
Arguments Refused {P}.
Arguments ArenaFailed {P}.

(** [F] is the file system, [C] an open database apart from its explicit
    transaction, [P] a bound plan, [X] the state of a pulled SELECT with its batch. *)
Class Core (F C P X : Type) := {
  db_create_default : F -> string -> Z -> F * Z;
  db_create_leases : F -> string -> Z -> F * Z;
  db_open : F -> string -> bool -> F * Z * C;
  (** The flag: an explicit transaction is active. *)
  db_close : F -> C -> bool -> F;
  compile : F -> C -> string -> Z -> compiled P;
  db_commit : F -> C -> F * C * Z;
  db_rollback : F -> C -> F * C * Z;
  db_catalog_put : F -> C -> P -> F * C * Z;
  (** The message of the [SQL_ERROR] it is given; empty when it says nothing. *)
  sql_execute_batch : F -> C -> P -> F * C * P * Z * string;
  sql_params_apply_predicates : P -> P * Z;
  sql_select_open : F -> C -> P -> X * Z;
  (** The status and the mask of the lanes selected. *)
  sql_select_next : F -> C -> P -> X -> X * Z * Z;
  sel_zero : X;
  scan_generation : X -> Z;
  sel_count : X -> Z;
  db_generation : C -> Z;
  plan_type : P -> stmt_type;
  plan_count_star : P -> bool;
  plan_join : P -> bool;
  plan_order : P -> bool;
  plan_delete_rows : P -> Z;
  plan_data3 : P -> Z;
}.

(** A connection: [DB_H_*], with the explicit transaction of its context. *)
Record conn (C : Type) := mk_conn {
  h_flags : Z; h_open : bool; h_errcode : Z; h_errmsg : string; h_stmt_count : Z;
  h_tx_active : bool; h_tx_id : Z; h_ctx : C }.
Arguments mk_conn {C}.
Arguments h_flags {C}.
Arguments h_open {C}.
Arguments h_errcode {C}.
Arguments h_errmsg {C}.
Arguments h_stmt_count {C}.
Arguments h_tx_active {C}.
Arguments h_tx_id {C}.
Arguments h_ctx {C}.

(** A statement: [STMT_H_*].  A prepared one always has a plan. *)
Record handle (P X : Type) := mk_handle {
  s_magic : bool; s_size : Z; s_state : stmt_state; s_cur_row : Z; s_act_mask : Z; s_cnt_accum : Z;
  s_errcode : Z; s_errmsg : string; s_plan : P; s_select : X }.
Arguments mk_handle {P X}.
Arguments s_magic {P X}.
Arguments s_size {P X}.
Arguments s_state {P X}.
Arguments s_cur_row {P X}.
Arguments s_act_mask {P X}.
Arguments s_cnt_accum {P X}.
Arguments s_errcode {P X}.
Arguments s_errmsg {P X}.
Arguments s_plan {P X}.
Arguments s_select {P X}.

Section step.
Context {F C P X : Type} `{Core F C P X}.

(** ** Fields *)

Definition with_ctx (d : conn C) (c : C) : conn C :=
  mk_conn (h_flags d) (h_open d) (h_errcode d) (h_errmsg d) (h_stmt_count d) (h_tx_active d) (h_tx_id d) c.
Definition with_tx (d : conn C) (b : bool) : conn C :=
  mk_conn (h_flags d) (h_open d) (h_errcode d) (h_errmsg d) (h_stmt_count d) b (h_tx_id d) (h_ctx d).
Definition next_tx (d : conn C) : conn C :=
  mk_conn (h_flags d) (h_open d) (h_errcode d) (h_errmsg d) (h_stmt_count d) (h_tx_active d) (u64 (h_tx_id d + 1)) (h_ctx d).
Definition set_errcode (d : conn C) (code : Z) : conn C :=
  mk_conn (h_flags d) (h_open d) code (h_errmsg d) (h_stmt_count d) (h_tx_active d) (h_tx_id d) (h_ctx d).
Definition set_error (d : conn C) (code : Z) (msg : string) : conn C :=
  mk_conn (h_flags d) (h_open d) code msg (h_stmt_count d) (h_tx_active d) (h_tx_id d) (h_ctx d).

Definition with_state (s : handle P X) (st : stmt_state) : handle P X :=
  mk_handle (s_magic s) (s_size s) st (s_cur_row s) (s_act_mask s) (s_cnt_accum s) (s_errcode s) (s_errmsg s) (s_plan s) (s_select s).
Definition with_plan (s : handle P X) (p : P) : handle P X :=
  mk_handle (s_magic s) (s_size s) (s_state s) (s_cur_row s) (s_act_mask s) (s_cnt_accum s) (s_errcode s) (s_errmsg s) p (s_select s).
Definition with_select (s : handle P X) (x : X) : handle P X :=
  mk_handle (s_magic s) (s_size s) (s_state s) (s_cur_row s) (s_act_mask s) (s_cnt_accum s) (s_errcode s) (s_errmsg s) (s_plan s) x.
Definition with_lane (s : handle P X) (row mask : Z) : handle P X :=
  mk_handle (s_magic s) (s_size s) (s_state s) row mask (s_cnt_accum s) (s_errcode s) (s_errmsg s) (s_plan s) (s_select s).
Definition with_mask (s : handle P X) (mask : Z) : handle P X := with_lane s (s_cur_row s) mask.
Definition with_count (s : handle P X) (n : Z) : handle P X :=
  mk_handle (s_magic s) (s_size s) (s_state s) (s_cur_row s) (s_act_mask s) n (s_errcode s) (s_errmsg s) (s_plan s) (s_select s).
Definition set_stmt_error (s : handle P X) (code : Z) (msg : string) : handle P X :=
  mk_handle (s_magic s) (s_size s) (s_state s) (s_cur_row s) (s_act_mask s) (s_cnt_accum s) code msg (s_plan s) (s_select s).

(** ** Errors *)

(** [limit] bytes before the terminator. *)
Definition api_copy_bounded (limit : nat) (s : string) : string := substring 0 limit (c_str s).

Definition api_error_clear (d : conn C) : conn C := set_error d 0 EmptyString.

(** A code alone leaves the message it finds. *)
Definition api_error_report (d : conn C) (s : handle P X) (code : Z) (msg : option string) : conn C * handle P X :=
  match msg with
  | Some m => (set_error d code (api_copy_bounded 255 m), set_stmt_error s code (api_copy_bounded 127 m))
  | None => (set_errcode d code, set_stmt_error s code (s_errmsg s))
  end.

(** Where a step ends up. *)
Definition stepped : Type := F * conn C * handle P X * Z.

Definition step_copy_errmsg (f : F) (d : conn C) (s : handle P X) (msg : string) : stepped :=
  let '(d, s) := api_error_report d (with_state s STMT_STATE_ERROR) CybouDB_ERROR (Some msg) in (f, d, s, CybouDB_ERROR).

Definition step_mutation_error (f : F) (d : conn C) (s : handle P X) (code : Z) (msg : string) : stepped :=
  let '(d, s) := api_error_report d (with_state s STMT_STATE_ERROR) code
                   (if (c_str msg =? EmptyString)%string then None else Some msg) in
  (f, d, s, CybouDB_ERROR).

(** ** The explicit transaction *)

Definition writable (d : conn C) : bool := negb (h_flags d .& CybouDB_OPEN_READWRITE =? 0).

Definition step_begin (f : F) (d : conn C) (s : handle P X) : stepped :=
  if decide (s_state s = STMT_STATE_DONE) then (f, d, s, CybouDB_DONE) else
  if negb (writable d) then step_copy_errmsg f d s str_readonly else
  if h_tx_active d then step_copy_errmsg f d s str_tx_active else
  (f, next_tx (with_tx d true), with_state s STMT_STATE_DONE, CybouDB_DONE).

Definition step_commit (f : F) (d : conn C) (s : handle P X) : stepped :=
  if decide (s_state s = STMT_STATE_DONE) then (f, d, s, CybouDB_DONE) else
  if negb (h_tx_active d) then step_copy_errmsg f d s str_no_tx_commit else
  let '(f, c, rc) := db_commit f (h_ctx d) in
  let d := with_tx (with_ctx d c) false in
  if negb (rc =? 0) then
    (** [.step_commit_failed]: the rollback's own result is not reported. *)
    let '(f, c, _) := db_rollback f (h_ctx d) in
    step_mutation_error f (with_ctx d c) s rc EmptyString
  else (f, d, with_state s STMT_STATE_DONE, CybouDB_DONE).

Definition step_rollback (f : F) (d : conn C) (s : handle P X) : stepped :=
  if decide (s_state s = STMT_STATE_DONE) then (f, d, s, CybouDB_DONE) else
  if negb (h_tx_active d) then step_copy_errmsg f d s str_no_tx_rollback else
  let '(f, c, rc) := db_rollback f (h_ctx d) in
  let d := with_tx (with_ctx d c) false in
  if negb (rc =? 0) then step_mutation_error f d s rc EmptyString
  else (f, d, with_state s STMT_STATE_DONE, CybouDB_DONE).

(** ** Mutations *)

(** Commit if opened read-write and not in an explicit transaction. *)
Definition autocommit (f : F) (d : conn C) : F * conn C * Z :=
  if writable d && negb (h_tx_active d) then
    let '(f, c, rc) := db_commit f (h_ctx d) in (f, with_ctx d c, rc)
  else (f, d, 0).

Definition step_create (f : F) (d : conn C) (s : handle P X) : stepped :=
  if decide (s_state s = STMT_STATE_DONE) then (f, d, s, CybouDB_DONE) else
  let '(f, c, rc) := db_catalog_put f (h_ctx d) (s_plan s) in
  let d := with_ctx d c in
  if negb (rc =? 0) then step_mutation_error f d s rc EmptyString else
  let '(f, d, rc) := autocommit f d in
  if negb (rc =? 0) then step_mutation_error f d s rc EmptyString
  else (f, d, with_state s STMT_STATE_DONE, CybouDB_DONE).

(** What [.step_drop], [.step_insert], [.step_delete] and [.step_dequeue] share:
    the executor, then the autocommit unless nothing was staged. *)
Definition execute (f : F) (d : conn C) (s : handle P X) (staged : P -> bool) : F * conn C * handle P X * Z * string :=
  let '(f, c, p, rc, msg) := sql_execute_batch f (h_ctx d) (s_plan s) in
  let d := with_ctx d c in
  let s := with_plan s p in
  if negb (rc =? 0) then (f, d, s, rc, msg) else
  if negb (staged p) then (f, d, s, 0, msg) else
  let '(f, d, rc) := autocommit f d in (f, d, s, rc, msg).

Definition step_mutation (staged : P -> bool) (f : F) (d : conn C) (s : handle P X) : stepped :=
  if decide (s_state s = STMT_STATE_DONE) then (f, d, s, CybouDB_DONE) else
  let '(f, d, s, rc, msg) := execute f d s staged in
  if negb (rc =? 0) then step_mutation_error f d s rc msg
  else (f, d, with_state s STMT_STATE_DONE, CybouDB_DONE).

Definition step_drop := step_mutation (fun _ => true).
Definition step_insert := step_mutation (fun _ => true).
Definition step_delete := step_mutation (fun p => negb (plan_delete_rows p =? 0)).

(** Never latched to DONE: stepping again asks again. *)
Definition step_dequeue (f : F) (d : conn C) (s : handle P X) : stepped :=
  let '(f, d, s, rc, msg) := execute f d s (fun _ => true) in
  if negb (rc =? 0) then step_mutation_error f d s rc msg
  else (f, d, s, if plan_data3 (s_plan s) =? 0 then CybouDB_DONE else CybouDB_ROW).

(** ** SELECT *)

(** The answer and the mask of the batch. *)
Definition api_select_next (f : F) (d : conn C) (s : handle P X) : conn C * handle P X * Z * Z :=
  let error d s code := (set_errcode d code, with_state (set_stmt_error s code (s_errmsg s)) STMT_STATE_ERROR, CybouDB_ERROR, 0) in
  let next s :=
    let '(x, rc, mask) := sql_select_next f (h_ctx d) (s_plan s) (s_select s) in
    let s := with_select s x in
    if negb (rc =? 0) then error d s rc else
    if mask =? 0 then (d, with_state s STMT_STATE_DONE, CybouDB_DONE, 0) else
    if plan_count_star (s_plan s) then (d, with_state (with_count s (sel_count x)) STMT_STATE_COUNT_DELIVER, CybouDB_ROW, mask)
    else (d, s, CybouDB_ROW, mask) in
  match s_state s with
  | STMT_STATE_ERROR => (d, s, CybouDB_ERROR, 0)
  | STMT_STATE_DONE => (d, s, CybouDB_DONE, 0)
  | STMT_STATE_INIT =>
      let '(p, rc) := sql_params_apply_predicates (s_plan s) in
      let s := with_plan s p in
      if negb (rc =? 0) then error d s CybouDB_E_STATE else
      if plan_join p || plan_order p then error d s CybouDB_E_STATE else
      let '(x, rc) := sql_select_open f (h_ctx d) p in
      let s := with_select s x in
      if negb (rc =? 0) then error d s rc else next (with_state s STMT_STATE_SCANNING)
  | _ => next s
  end.

(** [bsf]: the lowest lane set. *)
Fixpoint bsf_from (n : nat) (mask i : Z) : Z :=
  match n with
  | O => i
  | S n' => if Z.testbit mask i then i else bsf_from n' mask (i + 1)
  end.
Definition bsf (mask : Z) : Z := bsf_from 64 mask 0.

Definition take_lane (f : F) (d : conn C) (s : handle P X) (mask : Z) : stepped :=
  (f, d, with_lane s (bsf mask) (Z.clearbit mask (bsf mask)), CybouDB_ROW).

Definition step_fetch_batch (f : F) (d : conn C) (s : handle P X) : stepped :=
  let '(d, s, rc, mask) := api_select_next f d s in
  if negb (rc =? CybouDB_ROW) then (f, d, s, rc) else take_lane f d s mask.

Definition step_select (f : F) (d : conn C) (s : handle P X) : stepped :=
  if decide (s_state s = STMT_STATE_SCANNING) then
    if negb (db_generation (h_ctx d) =? scan_generation (s_select s)) then step_mutation_error f d s CybouDB_E_STATE EmptyString else
    if negb (s_act_mask s =? 0) then take_lane f d s (s_act_mask s) else step_fetch_batch f d s
  else step_fetch_batch f d s.

(** ** The entry points *)

Definition step_dispatch (f : F) (d : conn C) (s : handle P X) : stepped :=
  match plan_type (s_plan s) with
  | STMT_CREATE_TABLE => step_create f d s
  | STMT_DELETE => step_delete f d s
  | STMT_INSERT => step_insert f d s
  | STMT_SELECT => step_select f d s
  | STMT_BEGIN => step_begin f d s
  | STMT_COMMIT => step_commit f d s
  | STMT_ROLLBACK => step_rollback f d s
  | STMT_DEQUEUE | STMT_CLAIM | STMT_READ => step_dequeue f d s
  | _ => step_drop f d s
  end.

Definition cyboudb_step (f : F) (d : conn C) (st : option (handle P X)) : F * conn C * option (handle P X) * Z :=
  match st with
  | None => (f, d, st, CybouDB_MISUSE)
  | Some s =>
      if negb (s_magic s) then (f, d, st, CybouDB_MISUSE) else
      let '(f, d, s, rc) := step_dispatch f (api_error_clear d) s in (f, d, Some s, rc)
  end.

(** The answer, and the mask written through [out_mask]: zero with no batch.  The
    two [bool]s are whether the output pointers are not NULL. *)
Definition cyboudb_step_batch (f : F) (d : conn C) (st : option (handle P X)) (out_batch out_mask : bool) :
    conn C * option (handle P X) * Z * Z :=
  match st with
  | None => (d, st, CybouDB_MISUSE, 0)
  | Some s =>
      if negb out_batch || negb out_mask || negb (s_magic s) then (d, st, CybouDB_MISUSE, 0) else
      if negb (bool_decide (plan_type (s_plan s) = STMT_SELECT)) then (d, st, CybouDB_MISUSE, 0) else
      let '(d, s, rc, mask) := api_select_next f d s in
      if negb (rc =? CybouDB_ROW) then (d, Some s, rc, 0) else (d, Some (with_mask s mask), rc, mask)
  end.

Definition cyboudb_reset (st : option (handle P X)) : option (handle P X) * Z :=
  match st with
  | None => (st, CybouDB_MISUSE)
  | Some s => if negb (s_magic s) then (st, CybouDB_MISUSE)
              else (Some (with_count (with_lane (with_state s STMT_STATE_INIT) 0 0) 0), CybouDB_OK)
  end.
End step.

(** ** What a step leaves alone *)

Section frame.
Context {F C P X : Type} `{Core F C P X}.

Definition same_conn (d d' : conn C) : Prop :=
  h_flags d' = h_flags d /\ h_open d' = h_open d /\ h_stmt_count d' = h_stmt_count d.
Definition same_stmt (s s' : handle P X) : Prop := s_magic s' = s_magic s /\ s_size s' = s_size s.

Lemma mutation_error_frame (f : F) (d : conn C) (s : handle P X) code msg f' d' s' rc : step_mutation_error f d s code msg = (f', d', s', rc) ->
  f' = f /\ h_ctx d' = h_ctx d /\ h_tx_active d' = h_tx_active d /\ same_conn d d' /\ same_stmt s s' /\
  rc = CybouDB_ERROR /\ h_errcode d' = code /\ s_plan s' = s_plan s.
Proof. unfold step_mutation_error, api_error_report. intros E. by repeat case_match; simplify_eq/=. Qed.

Lemma copy_errmsg_frame (f : F) (d : conn C) (s : handle P X) msg f' d' s' rc : step_copy_errmsg f d s msg = (f', d', s', rc) ->
  f' = f /\ h_ctx d' = h_ctx d /\ h_tx_active d' = h_tx_active d /\ same_conn d d' /\ same_stmt s s' /\
  rc = CybouDB_ERROR /\ h_errmsg d' = api_copy_bounded 255 msg /\ s_plan s' = s_plan s.
Proof. unfold step_copy_errmsg, api_error_report. intros E. by simplify_eq/=. Qed.

Lemma autocommit_frame (f : F) (d : conn C) f' d' rc : autocommit f d = (f', d', rc) -> same_conn d d' /\ h_tx_active d' = h_tx_active d.
Proof. unfold autocommit. intros E. by repeat case_match; simplify_eq/=. Qed.

Lemma execute_frame (f : F) (d : conn C) (s : handle P X) staged f' d' s' rc msg : execute f d s staged = (f', d', s', rc, msg) ->
  same_conn d d' /\ same_stmt s s' /\ h_tx_active d' = h_tx_active d /\ s_state s' = s_state s.
Proof.
  unfold execute. destruct (sql_execute_batch _ _ _) as [[[[f1 c] p] rc1] m].
  destruct (negb (rc1 =? 0)); [by intros [= <- <- <- <- <-]|]. destruct (negb (staged p)); [by intros [= <- <- <- <- <-]|].
  destruct (autocommit _ _) as [[f2 d2] rc2] eqn:E. apply autocommit_frame in E as [E1 E2]. by intros [= <- <- <- <- <-].
Qed.

Lemma select_next_frame (f : F) (d : conn C) (s : handle P X) d' s' rc mask : api_select_next f d s = (d', s', rc, mask) ->
  h_ctx d' = h_ctx d /\ h_tx_active d' = h_tx_active d /\ same_conn d d' /\ same_stmt s s' /\ h_errmsg d' = h_errmsg d.
Proof. unfold api_select_next. intros E. by repeat case_match; simplify_eq/=. Qed.

Lemma select_frame (f : F) (d : conn C) (s : handle P X) f' d' s' rc : step_select f d s = (f', d', s', rc) ->
  f' = f /\ h_ctx d' = h_ctx d /\ h_tx_active d' = h_tx_active d /\ same_conn d d' /\ same_stmt s s'.
Proof.
  assert (Hfetch : step_fetch_batch f d s = (f', d', s', rc) ->
    f' = f /\ h_ctx d' = h_ctx d /\ h_tx_active d' = h_tx_active d /\ same_conn d d' /\ same_stmt s s').
  { unfold step_fetch_batch. destruct (api_select_next f d s) as [[[d1 s1] rc1] m] eqn:E.
    apply select_next_frame in E as (? & ? & ? & ? & _). destruct (negb _); unfold take_lane; intros [= <- <- <- <-]; done. }
  unfold step_select. destruct (decide _); [|done]. destruct (negb (db_generation _ =? _)).
  - intros (-> & ? & ? & ? & ? & _)%mutation_error_frame. done.
  - destruct (negb _); [|done]. unfold take_lane. by intros [= <- <- <- <-].
Qed.

Lemma dispatch_frame (f : F) (d : conn C) (s : handle P X) f' d' s' rc : step_dispatch f d s = (f', d', s', rc) -> same_conn d d' /\ same_stmt s s'.
Proof.
  assert (Hm : forall g, step_mutation g f d s = (f', d', s', rc) -> same_conn d d' /\ same_stmt s s').
  { intros g. unfold step_mutation. destruct (decide _); [by intros [= <- <- <- <-]|].
    destruct (execute f d s g) as [[[[f1 d1] s1] rc1] m] eqn:E. apply execute_frame in E as ([E1 [E2 E3]] & [E4 E5] & _).
    destruct (negb _); [|by intros [= <- <- <- <-]].
    intros (-> & _ & _ & [M1 [M2 M3]] & [M4 M5] & _)%mutation_error_frame. unfold same_conn, same_stmt. repeat split; congruence. }
  assert (Hq : step_dequeue f d s = (f', d', s', rc) -> same_conn d d' /\ same_stmt s s').
  { unfold step_dequeue. destruct (execute _ _ _ _) as [[[[f1 d1] s1] rc1] m] eqn:E. apply execute_frame in E as ([E1 [E2 E3]] & [E4 E5] & _).
    destruct (negb _); [|by intros [= <- <- <- <-]].
    intros (-> & _ & _ & [M1 [M2 M3]] & [M4 M5] & _)%mutation_error_frame. unfold same_conn, same_stmt. repeat split; congruence. }
  unfold step_dispatch. destruct (plan_type (s_plan s)); try apply Hm; try apply Hq.
  - unfold step_create. destruct (decide _); [by intros [= <- <- <- <-]|]. destruct (db_catalog_put _ _ _) as [[f1 c] rc1].
    destruct (negb _); [by intros (-> & _ & _ & ? & ? & _)%mutation_error_frame|].
    destruct (autocommit _ _) as [[f2 d2] rc2] eqn:E. apply autocommit_frame in E as [[E1 [E2 E3]] _].
    destruct (negb _); [|by intros [= <- <- <- <-]].
    intros (-> & _ & _ & [M1 [M2 M3]] & ? & _)%mutation_error_frame. split; [|done]. unfold same_conn. repeat split; etransitivity; eassumption.
  - by intros (_ & _ & _ & ? & ?)%select_frame.
  - unfold step_begin. repeat case_match; intros E; try (by injection E as <- <- <- <-); by apply copy_errmsg_frame in E as (? & ? & ? & ? & ? & _).
  - unfold step_commit. repeat case_match; intros E; try (by injection E as <- <- <- <-);
      first [by apply copy_errmsg_frame in E as (? & ? & ? & ? & ? & _) | by apply mutation_error_frame in E as (? & ? & ? & ? & ? & _)].
  - unfold step_rollback. repeat case_match; intros E; try (by injection E as <- <- <- <-);
      first [by apply copy_errmsg_frame in E as (? & ? & ? & ? & ? & _) | by apply mutation_error_frame in E as (? & ? & ? & ? & ? & _)].
Qed.
End frame.

(** ** Transactions *)

Definition CybouDB_E_SYNC : Z := 19.

(** What the storage engine promises of a commit and a rollback: pages staged are
    not published until a commit succeeds; a refused one leaves them staged, and
    after a failed sync the outcome is not known. *)
Class Transactional (F C P X D : Type) `{Core F C P X} := {
  published : F -> C -> D;
  staged : F -> C -> D;
  execute_stages f c p f' c' p' rc msg : sql_execute_batch f c p = (f', c', p', rc, msg) -> published f' c' = published f c;
  catalog_stages f c p f' c' rc : db_catalog_put f c p = (f', c', rc) -> published f' c' = published f c;
  commit_publishes f c f' c' : db_commit f c = (f', c', 0) -> published f' c' = staged f c /\ staged f' c' = staged f c;
  commit_refuses f c f' c' rc : db_commit f c = (f', c', rc) -> rc <> 0 -> rc <> CybouDB_E_SYNC ->
    published f' c' = published f c /\ staged f' c' = staged f c;
  rollback_discards f c f' c' : db_rollback f c = (f', c', 0) -> published f' c' = published f c /\ staged f' c' = published f c;
  rollback_refuses f c f' c' rc : db_rollback f c = (f', c', rc) -> rc <> 0 -> published f' c' = published f c;
}.

(** Statements that change the database by themselves. *)
Definition mutates (t : stmt_type) : bool :=
  match t with STMT_SELECT | STMT_BEGIN | STMT_COMMIT | STMT_ROLLBACK => false | _ => true end.

Section transactions.
Context {F C P X D : Type} `{Transactional F C P X D}.

Definition pub (f : F) (d : conn C) : D := published f (h_ctx d).
Definition stg (f : F) (d : conn C) : D := staged f (h_ctx d).

Lemma rollback_pub f c f' c' rc : db_rollback f c = (f', c', rc) -> published f' c' = published f c /\ (rc = 0 -> staged f' c' = published f' c').
Proof.
  intros E. destruct (decide (rc = 0)) as [->|Hne].
  - destruct (rollback_discards _ _ _ _ E) as [E1 E2]. split; [done|]. intros _. by rewrite E2, E1.
  - by split; [eapply rollback_refuses|].
Qed.

Lemma autocommit_pub (f : F) (d : conn C) f' d' rc : autocommit f d = (f', d', rc) ->
  if writable d && negb (h_tx_active d)
  then rc = CybouDB_E_SYNC \/ stg f' d' = stg f d /\ pub f' d' = (if rc =? 0 then stg f d else pub f d)
  else rc = 0 /\ f' = f /\ d' = d.
Proof.
  unfold autocommit. destruct (writable d && _); [|by intros [= <- <- <-]].
  destruct (db_commit f (h_ctx d)) as [[f1 c] rc1] eqn:E. intros [= <- <- <-].
  destruct (decide (rc1 = CybouDB_E_SYNC)); [by left|]. right. destruct (Z.eqb_spec rc1 0) as [->|Hne].
  - by destruct (commit_publishes _ _ _ _ E).
  - by destruct (commit_refuses _ _ _ _ _ E).
Qed.

(** What a mutation ends with: the executor's own work is staged only; the
    autocommit decides whether it is published. *)
Definition mutated (f : F) (d : conn C) (f' : F) (d' : conn C) (rc : Z) (committing : bool) : Prop :=
  h_tx_active d' = h_tx_active d /\
  (h_errcode d' = CybouDB_E_SYNC /\ rc = CybouDB_ERROR /\ h_tx_active d = false \/
   if committing && writable d && negb (h_tx_active d) && negb (rc =? CybouDB_ERROR)
   then pub f' d' = stg f' d' else pub f' d' = pub f d).

Lemma execute_pub g (f : F) (d : conn C) (s : handle P X) f' d' s' rc msg : execute f d s g = (f', d', s', rc, msg) ->
  h_tx_active d' = h_tx_active d /\
  (rc = CybouDB_E_SYNC /\ h_tx_active d = false \/
   if g (s_plan s') && writable d && negb (h_tx_active d) && (rc =? 0) then pub f' d' = stg f' d' else pub f' d' = pub f d).
Proof.
  unfold execute. destruct (sql_execute_batch f (h_ctx d) (s_plan s)) as [[[[f1 c] p] rc1] m] eqn:E.
  apply execute_stages in E. destruct (Z.eqb_spec rc1 0) as [->|Hne]; cbn [negb].
  2: { intros [= <- <- <- <- <-]. split; [done|]. right. apply Z.eqb_neq in Hne. by rewrite Hne, andb_false_r. }
  destruct (g p) eqn:Eg; cbn [negb]; [|intros [= <- <- <- <- <-]; split; [done|]; right; cbn; by rewrite Eg].
  destruct (autocommit f1 (with_ctx d c)) as [[f2 d2] rc2] eqn:Ea. intros [= <- <- <- <- <-].
  pose proof (autocommit_frame _ _ _ _ _ Ea) as [_ ->]. split; [done|]. apply autocommit_pub in Ea. cbn [s_plan with_plan]. rewrite Eg.
  change (writable (with_ctx d c)) with (writable d) in Ea. cbn [h_tx_active with_ctx andb] in *.
  destruct (writable d && negb (h_tx_active d)) eqn:Ew; cbn [andb].
  - destruct Ea as [->|[Es Ep]]; [left; split; [done|by bool_to_prop]|]. right. destruct (rc2 =? 0); [by rewrite Es|]. rewrite Ep. exact E.
  - right. by destruct Ea as (-> & -> & ->).
Qed.

(** Reporting an error changes neither side. *)
Lemma error_pub (f : F) (d d0 : conn C) (s : handle P X) code msg f' d' s' rc b f0 :
  step_mutation_error f d s code msg = (f', d', s', rc) -> h_tx_active d = h_tx_active d0 ->
  code = CybouDB_E_SYNC /\ h_tx_active d0 = false \/ pub f d = pub f0 d0 -> mutated f0 d0 f' d' rc b /\ rc = CybouDB_ERROR.
Proof.
  intros (-> & Ec & Et & _ & _ & -> & Ee & _)%mutation_error_frame Ht Hp. split; [|done]. split; [by rewrite Et|].
  rewrite andb_false_r. destruct Hp as [[-> ?]|Hp]; [by left|]. right. unfold pub in *. by rewrite Ec.
Qed.

Lemma mutation_step_pub g (f : F) (d : conn C) (s : handle P X) f' d' s' rc : s_state s <> STMT_STATE_DONE ->
  step_mutation g f d s = (f', d', s', rc) -> mutated f d f' d' rc (g (s_plan s')) /\ (rc = CybouDB_DONE \/ rc = CybouDB_ERROR).
Proof.
  intros Hs. unfold step_mutation. destruct (decide _); [done|].
  destruct (execute f d s g) as [[[[f1 d1] s1] rc1] m] eqn:E. apply execute_pub in E as [Et Ep].
  destruct (Z.eqb_spec rc1 0) as [->|Hne]; cbn [negb].
  - intros [= <- <- <- <-]. split; [|by left]. split; [done|]. right. cbn [s_plan with_state].
    destruct Ep as [[? _]|Ep]; [done|]. change (negb (CybouDB_DONE =? CybouDB_ERROR)) with (0 =? 0). exact Ep.
  - intros E. destruct (error_pub _ _ d _ _ _ _ _ _ _ (g (s_plan s')) f E Et) as [M ->]; [|by split; [|right]].
    destruct Ep as [[-> ?]|Ep]; [by left|right]. by rewrite andb_false_r in Ep.
Qed.

Lemma dequeue_step_pub (f : F) (d : conn C) (s : handle P X) f' d' s' rc :
  step_dequeue f d s = (f', d', s', rc) -> mutated f d f' d' rc true.
Proof.
  unfold step_dequeue. destruct (execute _ _ _ _) as [[[[f1 d1] s1] rc1] m] eqn:E. apply execute_pub in E as [Et Ep].
  destruct (Z.eqb_spec rc1 0) as [->|Hne]; cbn [negb].
  - intros [= <- <- <- <-]. split; [done|]. right. destruct Ep as [[? _]|Ep]; [done|].
    by destruct (plan_data3 _ =? 0).
  - intros E. refine (proj1 (error_pub _ _ d _ _ _ _ _ _ _ true f E Et _)).
    destruct Ep as [[-> ?]|Ep]; [by left|right]. by rewrite andb_false_r in Ep.
Qed.

Lemma create_step_pub (f : F) (d : conn C) (s : handle P X) f' d' s' rc : s_state s <> STMT_STATE_DONE ->
  step_create f d s = (f', d', s', rc) -> mutated f d f' d' rc true.
Proof.
  intros Hs. unfold step_create. destruct (decide _); [done|].
  destruct (db_catalog_put f (h_ctx d) (s_plan s)) as [[f1 c] rc1] eqn:E. apply catalog_stages in E.
  destruct (negb (rc1 =? 0)). { intros E2. refine (proj1 (error_pub _ _ d _ _ _ _ _ _ _ true f E2 _ _)); [done|by right]. }
  destruct (autocommit f1 (with_ctx d c)) as [[f2 d2] rc2] eqn:Ea. pose proof (autocommit_frame _ _ _ _ _ Ea) as [_ Et].
  apply autocommit_pub in Ea. change (writable (with_ctx d c)) with (writable d) in Ea. cbn [h_tx_active with_ctx] in Ea, Et.
  destruct (rc2 =? 0) eqn:Er; cbn [negb].
  - apply Z.eqb_eq in Er. intros [= <- <- <- <-]. split; [done|]. right. cbn [andb]. change (negb (CybouDB_DONE =? CybouDB_ERROR)) with true.
    rewrite andb_true_r. destruct (writable d && _); [|by destruct Ea as (_ & -> & ->)].
    destruct Ea as [?|[Es Ep]]; [by subst rc2|]. by rewrite Es.
  - intros E2. refine (proj1 (error_pub _ _ d _ _ _ _ _ _ _ true f E2 Et _)).
    destruct (writable d && _) eqn:Ew; [|by destruct Ea as [-> _]].
    destruct Ea as [->|[_ Ep]]; [left; split; [done|by bool_to_prop]|right]. rewrite Ep. exact E.
Qed.

(** Whether a DELETE found rows is decided by its execution. *)
Definition staged_work (t : stmt_type) (p : P) : bool :=
  match t with STMT_DELETE => negb (plan_delete_rows p =? 0) | _ => true end.

Lemma mutating_step_pub (f : F) (d : conn C) (s : handle P X) f' d' s' rc :
  mutates (plan_type (s_plan s)) = true -> s_state s <> STMT_STATE_DONE -> step_dispatch f d s = (f', d', s', rc) ->
  mutated f d f' d' rc (staged_work (plan_type (s_plan s)) (s_plan s')).
Proof.
  intros Hm Hs. unfold step_dispatch. destruct (plan_type (s_plan s)); try done; intros E;
    first [by eapply create_step_pub|by eapply dequeue_step_pub|by apply mutation_step_pub in E as [? _]].
Qed.

(** A client's steps, of any statements in any order; the kinds it stepped. *)
Inductive runs : F -> conn C -> list stmt_type -> F -> conn C -> Prop :=
  | runs_nil f d : runs f d [] f d
  | runs_step f d s f1 d1 st rc tr f' d' : cyboudb_step f d (Some s) = (f1, d1, st, rc) -> runs f1 d1 tr f' d' ->
      runs f d (plan_type (s_plan s) :: tr) f' d'.

(** The statement kinds that end a transaction. *)
Definition ends (t : stmt_type) : bool := match t with STMT_COMMIT | STMT_ROLLBACK => true | _ => false end.

(** A step is its dispatch, on a connection whose error has been cleared. *)
Lemma step_is_dispatch (f : F) (d : conn C) (s : handle P X) f' d' st rc : cyboudb_step f d (Some s) = (f', d', st, rc) ->
  (f', d', rc) = (f, d, CybouDB_MISUSE) /\ s_magic s = false /\ st = Some s \/
  exists s', st = Some s' /\ step_dispatch f (api_error_clear d) s = (f', d', s', rc).
Proof.
  unfold cyboudb_step. destruct (s_magic s) eqn:Em; cbn [negb].
  - destruct (step_dispatch _ _ _) as [[[f1 d1] s1] rc1]. intros [= <- <- <- <-]. right. by exists s1.
  - intros [= <- <- <- <-]. by left.
Qed.

Lemma latched_dispatch (f : F) (d : conn C) (s : handle P X) f' d' s' rc : mutates (plan_type (s_plan s)) = true ->
  s_state s = STMT_STATE_DONE -> step_dispatch f d s = (f', d', s', rc) ->
  h_tx_active d' = h_tx_active d /\ (h_tx_active d = true -> pub f' d' = pub f d).
Proof.
  intros Hm Hs. unfold step_dispatch. destruct (plan_type (s_plan s)); try done;
    unfold step_drop, step_insert, step_delete, step_mutation, step_create; rewrite ?Hs; cbn;
    first [by intros [= <- <- <- <-] | intros E; apply dequeue_step_pub in E as [Et Ep]; split; [done|]; intros Ht;
           rewrite Ht in Ep; cbn in Ep; rewrite !andb_false_r in Ep; by destruct Ep as [(_ & _ & ?)|Ep]].
Qed.

(** Inside a transaction only its end publishes. *)
Lemma step_inside (f : F) (d : conn C) (s : handle P X) f' d' st rc : cyboudb_step f d (Some s) = (f', d', st, rc) ->
  h_tx_active d = true -> ends (plan_type (s_plan s)) = false -> h_tx_active d' = true /\ pub f' d' = pub f d.
Proof.
  intros [[[= -> -> ->] _]|(s' & _ & E)]%step_is_dispatch Ht He; [done|].
  destruct (mutates (plan_type (s_plan s))) eqn:Em.
  - destruct (decide (s_state s = STMT_STATE_DONE)) as [Hs|Hs].
    + destruct (latched_dispatch _ _ _ _ _ _ _ Em Hs E) as [Et Ep]. rewrite Et. split; [done|]. by apply Ep.
    + destruct (mutating_step_pub _ _ _ _ _ _ _ Em Hs E) as [Et Ep]. rewrite Et. split; [done|].
      cbn [h_tx_active api_error_clear set_error] in Ep. rewrite Ht in Ep. cbn [negb] in Ep. rewrite !andb_false_r in Ep.
      by destruct Ep as [(_ & _ & ?)|Ep].
  - unfold step_dispatch in E. destruct (plan_type (s_plan s)); try done.
    + apply select_frame in E as (-> & Ec & Et & _). rewrite Et. split; [done|]. unfold pub. by rewrite Ec.
    + unfold step_begin in E. destruct (decide _); [by injection E as <- <- <- <-|]. cbn [h_tx_active api_error_clear set_error] in E.
      rewrite Ht in E. destruct (negb _); apply copy_errmsg_frame in E as (-> & Ec & Et & _); rewrite Et;
        (split; [done|]; unfold pub; by rewrite Ec).
Qed.

Lemma runs_inside (f : F) (d : conn C) tr f' d' : runs f d tr f' d' -> h_tx_active d = true ->
  forallb (fun t => negb (ends t)) tr = true -> h_tx_active d' = true /\ pub f' d' = pub f d.
Proof.
  induction 1 as [|f d s f1 d1 st rc tr f' d' E _ IH]; [done|]. intros Ht Hf. cbn in Hf. bool_to_prop.
  destruct (step_inside _ _ _ _ _ _ _ E Ht) as [Ht1 Hp]; [done|]. destruct (IH Ht1) as [Ht2 Hp2]; [done|]. by rewrite Hp2.
Qed.

Lemma step_flags (f : F) (d : conn C) (s : handle P X) f' d' st rc : cyboudb_step f d (Some s) = (f', d', st, rc) -> h_flags d' = h_flags d.
Proof. intros [[[= -> -> ->] _]|(s' & _ & [[-> _] _]%dispatch_frame)]%step_is_dispatch; done. Qed.

Lemma runs_flags (f : F) (d : conn C) tr f' d' : runs f d tr f' d' -> h_flags d' = h_flags d.
Proof. induction 1 as [|f d s f1 d1 st rc tr f' d' E _ IH]; [done|]. by rewrite IH, (step_flags _ _ _ _ _ _ _ E). Qed.

Lemma commit_step (f : F) (d : conn C) (s : handle P X) f' d' st rc : cyboudb_step f d (Some s) = (f', d', st, rc) ->
  s_magic s = true -> plan_type (s_plan s) = STMT_COMMIT -> s_state s <> STMT_STATE_DONE -> h_tx_active d = true ->
  h_tx_active d' = false /\
  (rc = CybouDB_DONE /\ pub f' d' = stg f d /\ stg f' d' = stg f d \/
   rc = CybouDB_ERROR /\ (h_errcode d' = CybouDB_E_SYNC \/ pub f' d' = pub f d) /\
   exists f1 c1 rb, db_rollback f1 c1 = (f', h_ctx d', rb) /\ (rb = 0 -> stg f' d' = pub f' d')).
Proof.
  intros E Hm Hty Hs Ht. apply step_is_dispatch in E as [(_ & ? & _)|(s' & -> & E)]; [congruence|].
  unfold step_dispatch in E. rewrite Hty in E. unfold step_commit in E. destruct (decide _); [done|].
  cbn [h_tx_active h_ctx api_error_clear set_error] in E. rewrite Ht in E. cbn [negb] in E.
  destruct (db_commit f (h_ctx d)) as [[f1 c1] rc1] eqn:Ec. destruct (Z.eqb_spec rc1 0) as [->|Hne]; cbn [negb] in E.
  - injection E as <- <- <- <-. split; [done|]. left. by destruct (commit_publishes _ _ _ _ Ec).
  - cbn [h_ctx with_tx with_ctx] in E. destruct (db_rollback f1 c1) as [[f2 c2] rb] eqn:Er.
    apply mutation_error_frame in E as (-> & Ex & Et & _ & _ & -> & Ee & _). cbn [h_ctx with_ctx] in Ex.
    split; [by rewrite Et|]. right. split; [done|]. apply rollback_pub in Er as Hr. destruct Hr as [Hp Hg]. split.
    + destruct (decide (rc1 = CybouDB_E_SYNC)) as [->|Hn]; [by left|right]. unfold pub. rewrite Ex, Hp.
      by destruct (commit_refuses _ _ _ _ _ Ec Hne Hn).
    + exists f1, c1, rb. unfold pub, stg. rewrite Ex. by split.
Qed.

Lemma rollback_step (f : F) (d : conn C) (s : handle P X) f' d' st rc : cyboudb_step f d (Some s) = (f', d', st, rc) ->
  s_magic s = true -> plan_type (s_plan s) = STMT_ROLLBACK -> s_state s <> STMT_STATE_DONE -> h_tx_active d = true ->
  h_tx_active d' = false /\ pub f' d' = pub f d /\ (rc = CybouDB_DONE /\ stg f' d' = pub f d \/ rc = CybouDB_ERROR).
Proof.
  intros E Hm Hty Hs Ht. apply step_is_dispatch in E as [(_ & ? & _)|(s' & -> & E)]; [congruence|].
  unfold step_dispatch in E. rewrite Hty in E. unfold step_rollback in E. destruct (decide _); [done|].
  cbn [h_tx_active h_ctx api_error_clear set_error] in E. rewrite Ht in E. cbn [negb] in E.
  destruct (db_rollback f (h_ctx d)) as [[f1 c1] rc1] eqn:Ec. apply rollback_pub in Ec as [Hp Hg].
  destruct (Z.eqb_spec rc1 0) as [->|Hne]; cbn [negb] in E.
  - injection E as <- <- <- <-. split; [done|]. split; [done|]. left. split; [done|]. unfold stg. cbn. rewrite Hg by done. exact Hp.
  - apply mutation_error_frame in E as (-> & Ex & Et & _ & _ & -> & _). split; [by rewrite Et|]. split; [|by right].
    unfold pub. rewrite Ex. exact Hp.
Qed.

Lemma begin_step (f : F) (d : conn C) (s : handle P X) f' d' st rc : cyboudb_step f d (Some s) = (f', d', st, rc) ->
  s_magic s = true -> plan_type (s_plan s) = STMT_BEGIN -> s_state s <> STMT_STATE_DONE ->
  f' = f /\ h_ctx d' = h_ctx d /\ h_tx_active d' = (writable d || h_tx_active d) /\
  if writable d && negb (h_tx_active d) then rc = CybouDB_DONE
  else rc = CybouDB_ERROR /\ h_errmsg d' = (if writable d then str_tx_active else str_readonly).
Proof.
  intros E Hm Hty Hs. apply step_is_dispatch in E as [(_ & ? & _)|(s' & -> & E)]; [congruence|].
  unfold step_dispatch in E. rewrite Hty in E. unfold step_begin in E. destruct (decide _); [done|].
  change (writable (api_error_clear d)) with (writable d) in E. cbn [h_tx_active api_error_clear set_error] in E.
  destruct (writable d); cbn [negb andb orb] in *; [destruct (h_tx_active d) eqn:Ht; cbn [negb]|].
  - by apply copy_errmsg_frame in E as (-> & -> & -> & _ & _ & -> & -> & _).
  - by injection E as <- <- <- <-.
  - apply copy_errmsg_frame in E as (-> & -> & -> & _ & _ & -> & -> & _). done.
Qed.
End transactions.

(** ** Rows and batches *)

(** What a scan relies on: the generation is the one it opened at, and a batch has
    64 lanes. *)
Class Scanning (F C P X : Type) `{Core F C P X} : Prop := {
  open_generation f c p x : sql_select_open f c p = (x, 0) -> scan_generation x = db_generation c;
  next_generation f c p x x' rc m : sql_select_next f c p x = (x', rc, m) -> scan_generation x' = scan_generation x;
  next_lanes f c p x x' rc m : sql_select_next f c p x = (x', rc, m) -> 0 <= m < 2 ^ 64;
}.

Fixpoint lanes_from (n : nat) (i mask : Z) : list Z :=
  match n with
  | O => []
  | S n' => if Z.testbit mask i then i :: lanes_from n' (i + 1) mask else lanes_from n' (i + 1) mask
  end.
(** The rows a batch selects, in order. *)
Definition lanes (mask : Z) : list Z := lanes_from 64 0 mask.

Lemma lanes_clear n : forall i j mask, 0 <= j < i -> lanes_from n i (Z.clearbit mask j) = lanes_from n i mask.
Proof.
  induction n as [|n IH]; intros i j mask Hj; [done|]. cbn [lanes_from]. rewrite Z.clearbit_neq, !IH by lia. done.
Qed.

Lemma lanes_bsf n : forall i mask, 0 <= i ->
  match lanes_from n i mask with
  | [] => forall j, i <= j < i + Z.of_nat n -> Z.testbit mask j = false
  | l :: rest => bsf_from n mask i = l /\ lanes_from n i (Z.clearbit mask l) = rest /\ i <= l
  end.
Proof.
  induction n as [|n IH]; intros i mask Hi; [intros j; lia|]. cbn [lanes_from bsf_from].
  destruct (Z.testbit mask i) eqn:Et.
  - rewrite Z.clearbit_eq, lanes_clear by lia. split_and!; [done|done|lia].
  - specialize (IH (i + 1) mask). destruct (lanes_from n (i + 1) mask) as [|l rest].
    + intros j Hj. destruct (decide (j = i)) as [->|]; [done|]. apply IH; lia.
    + destruct IH as (E1 & E2 & E3); [lia|]. rewrite Z.clearbit_neq, Et by lia. split_and!; [done|done|lia].
Qed.

Lemma lanes_cons mask : 0 < mask < 2 ^ 64 ->
  lanes mask = bsf mask :: lanes (Z.clearbit mask (bsf mask)) /\ 0 <= Z.clearbit mask (bsf mask) < 2 ^ 64.
Proof.
  intros Hm. pose proof (lanes_bsf 64 0 mask ltac:(lia)) as L. unfold lanes, bsf.
  destruct (lanes_from 64 0 mask) as [|l rest].
  - exfalso. assert (mask = 0); [|lia]. apply Z.bits_inj_0. intros j. destruct (decide (0 <= j < 64)) as [Hj|Hj]; [apply L; lia|].
    destruct (Z.neg_nonneg_cases j) as [?|?]; [by apply Z.testbit_neg_r|].
    rewrite <- (Z.mod_small mask (2 ^ 64)) by lia. apply Z.mod_pow2_bits_high. lia.
  - destruct L as (E1 & E2 & E3). rewrite E1, E2. split; [done|]. unfold Z.clearbit.
    rewrite Z.ldiff_land, Z.land_comm. apply land_range; lia.
Qed.

Lemma lanes_zero : lanes 0 = [].
Proof. reflexivity. Qed.

#[local] Opaque lanes bsf.

Section scanning.
Context {F C P X : Type} `{Scanning F C P X}.

(** The batches a scan has left, each with the mask of its rows. *)
Fixpoint batches (fuel : nat) (f : F) (c : C) (p : P) (x : X) : option (list (X * Z)) :=
  match fuel with
  | O => None
  | S fuel' =>
      let '(x, rc, m) := sql_select_next f c p x in
      if negb (rc =? 0) then None else
      if m =? 0 then Some [] else bs ← batches fuel' f c p x; Some ((x, m) :: bs)
  end.

(** Stepping to the end: the batch in view and the current row after each ROW. *)
Fixpoint step_rows (fuel : nat) (f : F) (d : conn C) (st : option (handle P X)) : option (list (X * Z)) :=
  match fuel with
  | O => None
  | S fuel' =>
      match cyboudb_step f d st with
      | (f, d, Some s, rc) =>
          if rc =? CybouDB_ROW then rs ← step_rows fuel' f d (Some s); Some ((s_select s, s_cur_row s) :: rs)
          else if rc =? CybouDB_DONE then Some [] else None
      | _ => None
      end
  end.

(** Batch stepping to the end: the batch in view and its mask. *)
Fixpoint step_batches (fuel : nat) (f : F) (d : conn C) (st : option (handle P X)) : option (list (X * Z)) :=
  match fuel with
  | O => None
  | S fuel' =>
      match cyboudb_step_batch f d st true true with
      | (d, Some s, rc, m) =>
          if rc =? CybouDB_ROW then bs ← step_batches fuel' f d (Some s); Some ((s_select s, m) :: bs)
          else if rc =? CybouDB_DONE then Some [] else None
      | _ => None
      end
  end.

Definition rows_of (bs : list (X * Z)) : list (X * Z) := bs ≫= fun '(x, m) => map (pair x) (lanes m).

(** A scan in progress of a plain SELECT. *)
Record scanning (d : conn C) (s : handle P X) : Prop := {
  sc_magic : s_magic s = true;
  sc_type : plan_type (s_plan s) = STMT_SELECT;
  sc_count : plan_count_star (s_plan s) = false;
  sc_state : s_state s = STMT_STATE_SCANNING;
  sc_generation : db_generation (h_ctx d) = scan_generation (s_select s);
  sc_mask : 0 <= s_act_mask s < 2 ^ 64;
}.

Lemma scanning_next f d s : scanning d s ->
  api_select_next f d s =
    let '(x, rc, m) := sql_select_next f (h_ctx d) (s_plan s) (s_select s) in
    let s := with_select s x in
    if negb (rc =? 0) then (set_errcode d rc, with_state (set_stmt_error s rc (s_errmsg s)) STMT_STATE_ERROR, CybouDB_ERROR, 0) else
    if m =? 0 then (d, with_state s STMT_STATE_DONE, CybouDB_DONE, 0) else (d, s, CybouDB_ROW, m).
Proof.
  intros [_ _ Hc Hs _ _]. unfold api_select_next. rewrite Hs. destruct (sql_select_next _ _ _ _) as [[x rc] m].
  cbn [s_plan with_select]. by rewrite Hc.
Qed.

Lemma scanning_step f d s : scanning d s ->
  cyboudb_step f d (Some s) =
    let '(f, d, s, rc) := if negb (s_act_mask s =? 0) then take_lane f (api_error_clear d) s (s_act_mask s)
                          else step_fetch_batch f (api_error_clear d) s in (f, d, Some s, rc).
Proof.
  intros [H1 H2 H3 H4 H5 H6]. unfold cyboudb_step, step_dispatch. rewrite H1, H2. cbn [negb]. unfold step_select.
  rewrite H4. destruct (decide _); [|done]. cbn [h_ctx api_error_clear set_error]. rewrite H5, Z.eqb_refl. done.
Qed.

Lemma scanning_lane d s m x row : scanning d s -> 0 <= m < 2 ^ 64 -> scan_generation x = scan_generation (s_select s) ->
  scanning (api_error_clear d) (with_lane (with_select s x) row m).
Proof. intros [H1 H2 H3 H4 H5 H6] Hm Hg. constructor; cbn; try done. by rewrite Hg. Qed.

(** The lanes left of a batch, then the batches left. *)
Lemma step_rows_scanning fuel f : forall d s bs, scanning d s ->
  batches fuel f (h_ctx d) (s_plan s) (s_select s) = Some bs ->
  exists n, step_rows n f d (Some s) = Some (map (pair (s_select s)) (lanes (s_act_mask s)) ++ rows_of bs).
Proof.
  induction fuel as [|fuel IHf]; intros d s bs Hs Hb; [done|].
  remember (List.length (lanes (s_act_mask s))) as k eqn:Hk. revert d s Hk Hs Hb.
  induction k as [|k IHk]; intros d s Hk Hs Hb; pose proof (sc_mask _ _ Hs) as Hm.
  - assert (Hz : s_act_mask s = 0).
    { destruct (decide (s_act_mask s = 0)) as [|Hne]; [done|]. destruct (lanes_cons (s_act_mask s)) as [E _]; [lia|]. by rewrite E in Hk. }
    cbn [batches] in Hb. pose proof (scanning_step f d s Hs) as Es. rewrite Hz in Es |- *. cbn [Z.eqb negb] in Es.
    unfold step_fetch_batch in Es. rewrite (scanning_next f (api_error_clear d)) in Es by (by destruct Hs).
    cbn [h_ctx api_error_clear set_error] in Es. destruct (sql_select_next _ _ _ _) as [[x rc] m] eqn:En.
    destruct (negb (rc =? 0)); [done|]. destruct (Z.eqb_spec m 0) as [->|Hne].
    + injection Hb as <-. exists 1%nat. cbn [step_rows]. by rewrite Es.
    + destruct (batches fuel f (h_ctx d) (s_plan s) x) as [bs'|] eqn:Eb; [|done]. injection Hb as <-.
      pose proof (next_lanes _ _ _ _ _ _ _ En) as Hl. destruct (lanes_cons m) as [Ec Hr]; [lia|].
      destruct (IHf (api_error_clear d) (with_lane (with_select s x) (bsf m) (Z.clearbit m (bsf m))) bs') as [n Hn];
        [apply scanning_lane; [done|done|by eapply next_generation]|done|].
      exists (S n). cbn [step_rows]. rewrite Es. cbn [negb Z.eqb CybouDB_ROW]. unfold take_lane. cbn -[step_rows lanes bsf Z.clearbit] in *.
      rewrite Hn. cbn -[lanes bsf]. rewrite Ec. done.
  - destruct (decide (s_act_mask s = 0)) as [Hz|Hne]; [by rewrite Hz, lanes_zero in Hk|].
    destruct (lanes_cons (s_act_mask s)) as [Ec Hr]; [lia|]. rewrite Ec in Hk |- *. cbn [List.length] in Hk. apply Nat.succ_inj in Hk.
    destruct (IHk (api_error_clear d) (with_lane (with_select s (s_select s)) (bsf (s_act_mask s)) (Z.clearbit (s_act_mask s) (bsf (s_act_mask s))))) as [n Hn];
      [exact Hk|by apply scanning_lane|done|].
    exists (S n). cbn [step_rows]. rewrite scanning_step by done. apply Z.eqb_neq in Hne. rewrite Hne. cbn [negb]. unfold take_lane.
    replace (with_select s (s_select s)) with s in Hn by (by destruct s). cbn -[step_rows lanes bsf Z.clearbit] in *. by rewrite Hn.
Qed.

Lemma step_batches_scanning fuel f : forall d s bs, scanning d s ->
  batches fuel f (h_ctx d) (s_plan s) (s_select s) = Some bs -> step_batches fuel f d (Some s) = Some bs.
Proof.
  induction fuel as [|fuel IH]; intros d s bs Hs Hb; [done|]. cbn [batches step_batches] in *.
  unfold cyboudb_step_batch. rewrite (sc_magic _ _ Hs), (sc_type _ _ Hs), (scanning_next f d s Hs). cbn [negb orb].
  rewrite bool_decide_true by done. cbn [negb]. destruct (sql_select_next _ _ _ _) as [[x rc] m] eqn:En.
  destruct (negb (rc =? 0)); [done|]. destruct (m =? 0); [by injection Hb as <-|].
  destruct (batches fuel _ _ _ _) as [bs'|] eqn:Eb; [|done]. injection Hb as <-.
  cbn -[step_batches with_mask with_select]. rewrite (IH d (with_mask (with_select s x) m) bs'); [done| |done].
  destruct Hs as [H1 H2 H3 H4 H5 H6]. constructor; cbn; try done; [|by eapply next_lanes].
  rewrite H5. symmetry. by eapply next_generation.
Qed.
End scanning.

(** What the entry points leave alone. *)
Lemma step_frame {F C P X} `{Core F C P X} (f : F) (d : conn C) (s : handle P X) f' d' st rc : cyboudb_step f d (Some s) = (f', d', st, rc) ->
  same_conn d d' /\ exists s', st = Some s' /\ same_stmt s s'.
Proof.
  intros [([= -> -> ->] & _ & ->)|(s' & -> & [? ?]%dispatch_frame)]%step_is_dispatch; [by split; [|exists s]|]. by split; [|exists s'].
Qed.

Lemma step_batch_frame {F C P X} `{Core F C P X} (f : F) (d : conn C) (s : handle P X) d' st rc m :
  cyboudb_step_batch f d (Some s) true true = (d', st, rc, m) -> same_conn d d' /\ exists s', st = Some s' /\ same_stmt s s'.
Proof.
  unfold cyboudb_step_batch. destruct (_ || _); [intros [= <- <- <- <-]; by split; [|exists s]|].
  destruct (negb _); [intros [= <- <- <- <-]; by split; [|exists s]|].
  destruct (api_select_next f d s) as [[[d1 s1] rc1] m1] eqn:E. apply select_next_frame in E as (_ & _ & Hd & Hs & _).
  destruct (negb _); intros [= <- <- <- <-]; split; try done; eauto.
Qed.

(** The first step opens the scan. *)
Lemma opening {F C P X} `{Scanning F C P X} (f : F) (d : conn C) (s : handle P X) p x :
  s_magic s = true -> plan_type (s_plan s) = STMT_SELECT -> s_state s = STMT_STATE_INIT -> s_act_mask s = 0 ->
  sql_params_apply_predicates (s_plan s) = (p, 0) -> plan_type p = STMT_SELECT -> plan_count_star p = false ->
  plan_join p || plan_order p = false -> sql_select_open f (h_ctx d) p = (x, 0) ->
  let s0 := with_state (with_select (with_plan s p) x) STMT_STATE_SCANNING in
  scanning d s0 /\ cyboudb_step f d (Some s) = cyboudb_step f d (Some s0) /\
  cyboudb_step_batch f d (Some s) true true = cyboudb_step_batch f d (Some s0) true true.
Proof.
  intros Hm Ht Hs Hz Hp Ht' Hc Hj Ho s0.
  assert (Hs0 : scanning d s0).
  { constructor; cbn; try done; [|rewrite Hz; lia]. symmetry. by eapply open_generation. }
  assert (En : forall d' : conn C, h_ctx d' = h_ctx d -> api_select_next f d' s = api_select_next f d' s0).
  { intros d' Ed. unfold api_select_next at 1. rewrite Hs, Hp. cbn [negb Z.eqb]. rewrite Hj, Ed, Ho. cbn [negb Z.eqb].
    unfold s0, api_select_next. cbn [s_state with_state]. rewrite Ed. done. }
  split; [done|]. split.
  - rewrite (scanning_step f d s0 Hs0). unfold cyboudb_step. rewrite Hm. cbn [negb]. unfold step_dispatch, step_select.
    rewrite Ht, Hs. destruct (decide _); [done|]. unfold step_fetch_batch. rewrite En by done.
    unfold s0 at 2. cbn [s_act_mask with_state with_select with_plan]. by rewrite Hz.
  - unfold cyboudb_step_batch. change (s_plan s0) with p. change (s_magic s0) with (s_magic s). rewrite Hm, Ht, Ht'. rewrite En by done. done.
Qed.

(** ** Properties *)

(** C1: a transaction is atomic.  After a BEGIN that answered DONE, and whatever
    statements are stepped that neither commit nor roll back, nothing has been
    published.  Then a COMMIT ends the transaction: answering DONE it has published
    all that was staged, and answering ERROR it has published nothing (unless the
    sync failed) and rolled back.  A ROLLBACK ends it with nothing published and
    nothing staged.  A second BEGIN is refused, and any other statement leaves the
    transaction open and publishes nothing. *)
Theorem transactions_atomic {F C P X D} `{Transactional F C P X D} (f : F) (d : conn C) (b : handle P X) f1 d1 b' tr f2 d2 :
  s_magic b = true -> plan_type (s_plan b) = STMT_BEGIN -> s_state b = STMT_STATE_INIT ->
  cyboudb_step f d (Some b) = (f1, d1, b', CybouDB_DONE) -> runs f1 d1 tr f2 d2 -> forallb (fun t => negb (ends t)) tr = true ->
  pub f2 d2 = pub f d /\ h_tx_active d2 = true /\
  forall s, s_magic s = true -> s_state s = STMT_STATE_INIT ->
    let '(f3, d3, _, rc) := cyboudb_step f2 d2 (Some s) in
    match plan_type (s_plan s) with
    | STMT_COMMIT => h_tx_active d3 = false /\
        (rc = CybouDB_DONE /\ pub f3 d3 = stg f2 d2 /\ stg f3 d3 = stg f2 d2 \/
         rc = CybouDB_ERROR /\ (h_errcode d3 = CybouDB_E_SYNC \/ pub f3 d3 = pub f d) /\
         exists f' c' rb, db_rollback f' c' = (f3, h_ctx d3, rb) /\ (rb = 0 -> stg f3 d3 = pub f3 d3))
    | STMT_ROLLBACK => h_tx_active d3 = false /\ pub f3 d3 = pub f d /\
        (rc = CybouDB_DONE /\ stg f3 d3 = pub f d \/ rc = CybouDB_ERROR)
    | STMT_BEGIN => rc = CybouDB_ERROR /\ h_errmsg d3 = str_tx_active /\ h_tx_active d3 = true /\ pub f3 d3 = pub f d
    | _ => h_tx_active d3 = true /\ pub f3 d3 = pub f d
    end.
Proof.
  intros Hm Ht Hs E R Hf. destruct (begin_step _ _ _ _ _ _ _ E Hm Ht) as (-> & Ec & Ea & Eb); [by rewrite Hs|].
  destruct (writable d && negb (h_tx_active d)) eqn:Ew; [|by destruct Eb]. apply andb_prop in Ew as [Ew _].
  rewrite Ew in Ea. destruct (runs_inside _ _ _ _ _ R Ea Hf) as [Ht2 Hp2].
  assert (Hpub : pub f2 d2 = pub f d). { rewrite Hp2. unfold pub. by rewrite Ec. } split; [done|]. split; [done|].
  assert (Hw : writable d2 = true). { unfold writable in *. rewrite (runs_flags _ _ _ _ _ R), (step_flags _ _ _ _ _ _ _ E). done. }
  intros s Hm' Hs'. destruct (cyboudb_step f2 d2 (Some s)) as [[[f3 d3] s3] rc] eqn:E3.
  assert (Hin : ends (plan_type (s_plan s)) = false -> h_tx_active d3 = true /\ pub f3 d3 = pub f d).
  { intros He. destruct (step_inside _ _ _ _ _ _ _ E3 Ht2 He) as [? ->]. done. }
  rewrite <- Hpub. destruct (plan_type (s_plan s)) eqn:Hty; try (rewrite <- Hpub in Hin; by apply Hin).
  - destruct (begin_step _ _ _ _ _ _ _ E3 Hm' Hty) as (-> & Ec3 & Ea3 & Eb3); [by rewrite Hs'|].
    rewrite Ht2, Hw in Eb3, Ea3. destruct Eb3 as [-> ->]. split_and!; try done. unfold pub. by rewrite Ec3.
  - apply (commit_step _ _ _ _ _ _ _ E3); try done. by rewrite Hs'.
  - apply (rollback_step _ _ _ _ _ _ _ E3); try done. by rewrite Hs'.
Qed.

(** Outside a transaction every statement commits by itself.  A mutating
    statement stepped on a read-write connection that answers anything but ERROR
    has published what is staged (a DELETE that found no rows publishes nothing);
    one that answers ERROR has published nothing, unless the sync failed. *)
Theorem autocommit_publishes {F C P X D} `{Transactional F C P X D} (f : F) (d : conn C) (s : handle P X) :
  s_magic s = true -> mutates (plan_type (s_plan s)) = true -> s_state s <> STMT_STATE_DONE ->
  writable d = true -> h_tx_active d = false ->
  exists f' d' s' rc, cyboudb_step f d (Some s) = (f', d', Some s', rc) /\ h_tx_active d' = false /\
    if rc =? CybouDB_ERROR then h_errcode d' = CybouDB_E_SYNC \/ pub f' d' = pub f d
    else if staged_work (plan_type (s_plan s)) (s_plan s') then pub f' d' = stg f' d' else pub f' d' = pub f d.
Proof.
  intros Hm Hty Hs Hw Ht. destruct (cyboudb_step f d (Some s)) as [[[f' d'] st] rc] eqn:E.
  apply step_is_dispatch in E as E'. destruct E' as [(_ & ? & _)|(s' & -> & E')]; [congruence|].
  exists f', d', s', rc. split; [done|]. destruct (mutating_step_pub _ _ _ _ _ _ _ Hty Hs E') as [Et Ep].
  change (writable (api_error_clear d)) with (writable d) in Ep. cbn [h_tx_active api_error_clear set_error] in *.
  rewrite Hw, Ht in *. split; [done|]. change (pub f (api_error_clear d)) with (pub f d) in Ep. cbn [negb] in Ep. rewrite !andb_true_r in Ep.
  destruct (rc =? CybouDB_ERROR) eqn:Er; cbn [negb] in Ep; rewrite ?andb_false_r, ?andb_true_r in Ep.
  - destruct Ep as [[? _]|?]; [by left|by right].
  - destruct Ep as [(_ & -> & _)|?]; done.
Qed.

(** Work whose autocommit was refused comes back.  When an INSERT outside a
    transaction executes and its commit is refused, the step answers ERROR and the
    database is as it was, but the rows stay staged (where a refused COMMIT rolls
    back): the next statement that commits by itself publishes them, even one that
    stages nothing of its own. *)
Theorem refused_autocommit_resurfaces {F C P X D} `{Transactional F C P X D} (f : F) (d : conn C) (s : handle P X) f1 c1 p1 msg f2 c2 rc :
  s_magic s = true -> plan_type (s_plan s) = STMT_INSERT -> s_state s <> STMT_STATE_DONE -> writable d = true -> h_tx_active d = false ->
  sql_execute_batch f (h_ctx d) (s_plan s) = (f1, c1, p1, 0, msg) -> db_commit f1 c1 = (f2, c2, rc) -> rc <> 0 -> rc <> CybouDB_E_SYNC ->
  exists d' s', cyboudb_step f d (Some s) = (f2, d', Some s', CybouDB_ERROR) /\ pub f2 d' = pub f d /\ stg f2 d' = staged f1 c1 /\
    forall t f3 c3 p3 m3 f4 c4,
      s_magic t = true -> plan_type (s_plan t) = STMT_UPDATE -> s_state t <> STMT_STATE_DONE ->
      sql_execute_batch f2 c2 (s_plan t) = (f3, c3, p3, 0, m3) -> staged f3 c3 = staged f2 c2 -> db_commit f3 c3 = (f4, c4, 0) ->
      exists d'' t', cyboudb_step f2 d' (Some t) = (f4, d'', Some t', CybouDB_DONE) /\ pub f4 d'' = staged f1 c1.
Proof.
  intros Hm Hty Hs Hw Ht Ex Ec Hne Hsy. apply execute_stages in Ex as Hp. destruct (commit_refuses _ _ _ _ _ Ec Hne Hsy) as [Hp2 Hs2].
  destruct (cyboudb_step f d (Some s)) as [[[f' d'] st] rc'] eqn:E. apply step_is_dispatch in E as [(_ & ? & _)|(s' & -> & E)]; [congruence|].
  unfold step_dispatch, step_insert, step_mutation, execute in E. rewrite Hty in E. destruct (decide _); [done|].
  cbn [h_ctx api_error_clear set_error] in E. rewrite Ex in E. cbn [negb Z.eqb] in E. unfold autocommit in E.
  change (writable (with_ctx (api_error_clear d) c1)) with (writable d) in E. cbn [h_ctx h_tx_active with_ctx api_error_clear set_error] in E.
  rewrite Hw, Ht, Ec in E. cbn [negb andb] in E. apply Z.eqb_neq in Hne. rewrite Hne in E. cbn [negb] in E.
  apply mutation_error_frame in E as (-> & Ecx & Etx & [Efl _] & _ & -> & _). cbn [h_ctx h_tx_active h_flags with_ctx api_error_clear set_error] in *.
  exists d', s'. split; [done|]. unfold pub, stg. rewrite Ecx, Hp2, Hp. split; [done|]. split; [done|].
  intros t f3 c3 p3 m3 f4 c4 Hm' Hty' Hs' Ex' Es' Ec'. destruct (commit_publishes _ _ _ _ Ec') as [Hpub _].
  unfold cyboudb_step, step_dispatch, step_drop, step_mutation, execute. rewrite Hm', Hty'. cbn [negb]. destruct (decide _); [done|].
  cbn [h_ctx api_error_clear set_error]. rewrite Ecx, Ex'. cbn [negb Z.eqb]. unfold autocommit.
  change (writable (with_ctx (api_error_clear d') c3)) with (writable d'). unfold writable in *. rewrite Efl, Hw.
  cbn [h_ctx h_tx_active with_ctx api_error_clear set_error]. rewrite Etx, Ht, Ec'. cbn [negb andb Z.eqb].
  eexists _, _. split; [done|]. cbn. by rewrite Hpub, Es', Hs2.
Qed.

(** C18: stepping row by row is stepping batch by batch.  For a plain SELECT whose
    scan ends, repeated steps deliver exactly the selected lanes of every batch,
    batch after batch and in ascending order, then DONE; repeated batch steps
    deliver the same batches with their masks, then DONE. *)
Theorem row_steps_deliver_batches {F C P X} `{Scanning F C P X} (f : F) (d : conn C) (s : handle P X) p x fuel bs :
  s_magic s = true -> plan_type (s_plan s) = STMT_SELECT -> s_state s = STMT_STATE_INIT -> s_act_mask s = 0 ->
  sql_params_apply_predicates (s_plan s) = (p, 0) -> plan_type p = STMT_SELECT -> plan_count_star p = false ->
  plan_join p || plan_order p = false -> sql_select_open f (h_ctx d) p = (x, 0) ->
  batches fuel f (h_ctx d) p x = Some bs ->
  (exists n, step_rows n f d (Some s) = Some (rows_of bs)) /\ step_batches fuel f d (Some s) = Some bs.
Proof.
  intros Hm Ht Hs Hz Hp Ht' Hc Hj Ho Hb.
  destruct (opening f d s p x Hm Ht Hs Hz Hp Ht' Hc Hj Ho) as (Hs0 & Er & Eb). split.
  - destruct (step_rows_scanning _ _ _ _ _ Hs0 Hb) as [[|n] Hn]; [done|]. exists (S n). cbn [step_rows] in *. rewrite Er, Hn.
    cbn [s_act_mask with_state with_select with_plan]. by rewrite Hz, lanes_zero.
  - pose proof (step_batches_scanning _ _ _ _ _ Hs0 Hb) as Hn. destruct fuel as [|fuel]; [done|]. cbn [step_batches] in *. by rewrite Eb, Hn.
Qed.

(** ** A small engine *)

(** Rows are integers: the file holds those published, the open database those
    staged; a commit is refused as often as the database says. *)
Module Toy.
Record db := mk_db { rows : list Z; generation : Z; refusals : nat }.
Record plan := mk_plan { type : stmt_type; value : option Z; masks : list Z }.
Record scan := mk_scan { left : list Z; opened : Z }.

Definition nothing : list Z := [].
Definition begin : plan := mk_plan STMT_BEGIN None [].
Definition commit : plan := mk_plan STMT_COMMIT None [].
Definition insert (v : Z) : plan := mk_plan STMT_INSERT (Some v) [].
Definition update : plan := mk_plan STMT_UPDATE None [].
Definition select (ms : list Z) : plan := mk_plan STMT_SELECT None ms.

(** "grow" does not fit the first allocation. *)
Definition parse (sql : string) (size : Z) : compiled plan :=
  if (sql =? "BEGIN")%string then Compiled begin else
  if (sql =? "INSERT")%string then Compiled (insert 7) else
  if (sql =? "SELECT")%string then Compiled (select [5; 0]) else
  if (sql =? "grow")%string then if size <? 200000 then ArenaFailed else Compiled update
  else Refused 5 "syntax error".

#[global] Instance core : Core (list Z) db plan scan := {|
  db_create_default f _ _ := (f, 0);
  db_create_leases f _ _ := (f, 0);
  db_open f _ _ := (f, 0, mk_db f 1 0);
  db_close f _ _ := f;
  compile _ _ sql size := parse sql size;
  db_commit f c := match refusals c with O => (rows c, mk_db (rows c) (generation c + 1) 0, 0)
                                    | S n => (f, mk_db (rows c) (generation c) n, 24) end;
  db_rollback f c := (f, mk_db f (generation c) (refusals c), 0);
  db_catalog_put f c _ := (f, c, 0);
  sql_execute_batch f c p := (f, mk_db (rows c ++ option_list (value p)) (generation c) (refusals c), p, 0, EmptyString);
  sql_params_apply_predicates p := (p, 0);
  sql_select_open _ c p := (mk_scan (masks p) (generation c), 0);
  sql_select_next _ _ _ x := match left x with [] => (x, 0, 0) | m :: l => (mk_scan l (opened x), 0, u64 m) end;
  sel_zero := mk_scan [] 0;
  scan_generation := opened;
  sel_count _ := 0;
  db_generation := generation;
  plan_type := type;
  plan_count_star _ := false;
  plan_join _ := false;
  plan_order _ := false;
  plan_delete_rows _ := 0;
  plan_data3 _ := 0 |}.

#[global] Program Instance transactional : Transactional (list Z) db plan scan (list Z) := {|
  published f _ := f; staged _ c := rows c |}.
Solve Obligations with cbn; intros; repeat case_match; by simplify_eq/=.

#[global] Instance scanning : Scanning (list Z) db plan scan.
Proof.
  constructor; cbn; intros; repeat case_match; simplify_eq/=; try done. apply Z.mod_pos_bound. lia.
Qed.

Definition conn0 (refusals : nat) : conn db := mk_conn CybouDB_OPEN_READWRITE true 0 EmptyString 0 false 0 (mk_db [] 1 refusals).
Definition fresh (p : plan) : handle plan scan := mk_handle true 65536 STMT_STATE_INIT 0 0 0 0 EmptyString p (mk_scan [] 0).
End Toy.

(** Two rows inserted in a transaction, then committed. *)
Definition toy_begun := cyboudb_step Toy.nothing (Toy.conn0 0) (Some (Toy.fresh Toy.begin)).
Definition toy_one := cyboudb_step (fst (fst (fst toy_begun))) (snd (fst (fst toy_begun))) (Some (Toy.fresh (Toy.insert 1))).
Definition toy_two := cyboudb_step (fst (fst (fst toy_one))) (snd (fst (fst toy_one))) (Some (Toy.fresh (Toy.insert 2))).
Definition toy_done := cyboudb_step (fst (fst (fst toy_two))) (snd (fst (fst toy_two))) (Some (Toy.fresh Toy.commit)).

Lemma transactions_atomic_witness : fst (fst (fst toy_two)) = [] /\ pub (fst (fst (fst toy_done))) (snd (fst (fst toy_done))) = [1; 2].
Proof.
  pose proof (transactions_atomic (D := list Z) Toy.nothing (Toy.conn0 0) (Toy.fresh Toy.begin) (fst (fst (fst toy_begun))) (snd (fst (fst toy_begun)))
    (snd (fst toy_begun)) [STMT_INSERT; STMT_INSERT] (fst (fst (fst toy_two))) (snd (fst (fst toy_two)))
    eq_refl eq_refl eq_refl eq_refl) as T.
  destruct T as (E1 & _ & E2).
  - change [STMT_INSERT; STMT_INSERT] with (plan_type (s_plan (Toy.fresh (Toy.insert 1))) :: [plan_type (s_plan (Toy.fresh (Toy.insert 2)))]).
    eapply runs_step; [reflexivity|]. eapply runs_step; [reflexivity|].
    apply runs_nil.
  - reflexivity.
  - split; [exact E1|]. specialize (E2 (Toy.fresh Toy.commit) eq_refl eq_refl). destruct E2 as (_ & [(_ & E & _)|(E & _)]); [exact E|].
    vm_compute in E. discriminate E.
Defined.

Lemma autocommit_publishes_witness : exists f' d' s' rc,
  cyboudb_step Toy.nothing (Toy.conn0 0) (Some (Toy.fresh (Toy.insert 3))) = (f', d', Some s', rc) /\ rc = CybouDB_DONE /\ pub f' d' = [3].
Proof.
  destruct (autocommit_publishes (D := list Z) Toy.nothing (Toy.conn0 0) (Toy.fresh (Toy.insert 3))) as (f' & d' & s' & rc & E & _ & Ep);
    [reflexivity|reflexivity|discriminate|reflexivity|reflexivity|].
  exists f', d', s', rc. split; [exact E|]. vm_compute in E. injection E as <- <- <- <-. split; [reflexivity|exact Ep].
Defined.

(** The refused row is published by an UPDATE that changes nothing. *)
Lemma refused_autocommit_resurfaces_witness : exists d' s' d'' t' f4,
  cyboudb_step Toy.nothing (Toy.conn0 1) (Some (Toy.fresh (Toy.insert 3))) = ([], d', Some s', CybouDB_ERROR) /\
  cyboudb_step Toy.nothing d' (Some (Toy.fresh Toy.update)) = (f4, d'', Some t', CybouDB_DONE) /\ pub f4 d'' = [3].
Proof.
  destruct (refused_autocommit_resurfaces (D := list Z) Toy.nothing (Toy.conn0 1) (Toy.fresh (Toy.insert 3)) [] (Toy.mk_db [3] 1 1) (Toy.insert 3) EmptyString
    [] (Toy.mk_db [3] 1 0) 24) as (d' & s' & E & _ & _ & T); try reflexivity; try discriminate.
  destruct (T (Toy.fresh Toy.update) [] (Toy.mk_db [3] 1 0) Toy.update EmptyString [3] (Toy.mk_db [3] 2 0)) as (d'' & t' & E' & Ep);
    try reflexivity; try discriminate.
  exists d', s', d'', t', [3]. split; [exact E|]. split; [exact E'|exact Ep].
Defined.

Lemma row_steps_deliver_batches_witness : exists n,
  step_rows n Toy.nothing (Toy.conn0 0) (Some (Toy.fresh (Toy.select [5; 0x8000000000000001]))) =
    Some [(Toy.mk_scan [0x8000000000000001] 1, 0); (Toy.mk_scan [0x8000000000000001] 1, 2); (Toy.mk_scan [] 1, 0); (Toy.mk_scan [] 1, 63)].
Proof.
  destruct (row_steps_deliver_batches Toy.nothing (Toy.conn0 0) (Toy.fresh (Toy.select [5; 0x8000000000000001]))
    (Toy.select [5; 0x8000000000000001]) (Toy.mk_scan [5; 0x8000000000000001] 1) 3
    [(Toy.mk_scan [0x8000000000000001] 1, 5); (Toy.mk_scan [] 1, 0x8000000000000001)]) as [[n E] _]; try reflexivity.
  exists n. exact E.
Defined.
