(* ===== verification/Catalog.v ===== *)
(** * Catalog: the directory of objects

    The directory page of [src/core/catalog.asm] as far as queues and streams use
    it - [db_catalog_page], [db_catalog_put_queue], [db_catalog_put_stream],
    [db_catalog_drop] and the entry [db_catalog_edit] repoints - and the lookups
    by name of [src/sql/binder.asm] ([catalog_find_*]).  Tables and indexes are
    entries with a name and an id and nothing else.

    An entry's page is the object it defines.  What a call asks of the pages
    below - whether the database can be written, how many pages are free, what an
    allocation answers - is a field of [env], one per call. *)

From Stdlib Require Import String Ascii Sorted.
From S2P Require Import LeaseQueue Dequeue Stream Tokenizer Prelude.

(** ** Data *)

Definition CybouDB_E_CATALOG : Z := 26.
Definition CybouDB_E_CATALOG_FULL : Z := 29.
Definition CAT_MAX_TABLES : nat := 251.

Inductive object := OSchema | OIndex | OQueue (q : queue) | OStream (s : stream).

Record entry := mk_entry {
  e_id : Z;
  e_name : list ascii;
  e_object : object;
}.

(** [ready] is what the checks of [DB_WRITABLE], [DB_MODE], the catalog feature
    and [DB_GENERATION] answer, [graph_valid] what [current_valid] does. *)
Record env := mk_env {
  feat_pax : bool;
  feat_queue : bool;
  feat_leases : bool;
  feat_stream : bool;
  ready : Z;
  graph_valid : bool;
  headroom : nat;
  page_alloc : Z;
  segment_page : Z;
  chain : string -> Z;
  wall_ms : Z;
}.

(** [db_catalog_edit], on an entry that is there: the page and the directory are
    copied. *)
Definition edit_code (ev : env) : Z :=
  if negb (ready ev =? 0) then ready ev
  else if (headroom ev <? 2)%nat then CybouDB_E_FULL else page_alloc ev.

Definition ctx_of (ev : env) : ctx := mk_ctx (feat_leases ev) (edit_code ev) (segment_page ev).
Definition sctx_of (ev : env) : sctx := mk_sctx (ctx_of ev) (feat_stream ev) (chain ev).

Definition is_type (t : cat_type) (o : object) : bool :=
  match t, o with CAT_QUEUE, OQueue _ | CAT_STREAM, OStream _ => true | _, _ => false end.

Definition has_feature (t : cat_type) (ev : env) : bool :=
  match t with CAT_QUEUE => feat_queue ev | CAT_STREAM => feat_stream ev end.

(** ** By name *)

(** Equal, or the same letter in two cases. *)
Definition char_matches (c d : ascii) : bool :=
  (c =? d)%char ||
  (let al := code c .| 0x20 in let dl := code d .| 0x20 in (al =? dl) && (97 <=? al) && (al <=? 122)).

(** [.cmp_chars] and [.check_zero]: the stored name is padded with NULs and has to
    end where the name looked for does. *)
Fixpoint name_matches (stored name : list ascii) : bool :=
  match name with
  | [] => match stored with [] => true | _ :: _ => false end
  | d :: name' =>
      match stored with
      | c :: stored' => char_matches c d && name_matches stored' name'
      | [] => char_matches "000" d && name_matches [] name'
      end
  end.

Definition catalog_find_object (dir : list entry) (n : list ascii) : option entry :=
  if (31 <? length n)%nat then None else List.find (fun e => name_matches (e_name e) n) dir.

(** [catalog_find_queue] and [catalog_find_stream]: a name taken by another kind
    of object is not found. *)
Definition catalog_find (t : cat_type) (dir : list entry) (n : list ascii) : option Z :=
  match catalog_find_object dir n with
  | Some e => if is_type t (e_object e) then Some (e_id e) else None
  | None => None
  end.

(** One past the last id the directory holds. *)
Definition next_id (dir : list entry) : Z :=
  match list.last dir with Some e => e_id e + 1 | None => 1 end.

(** ** By id *)

Definition db_catalog_page (dir : list entry) (id : Z) : option object :=
  e_object <$> List.find (fun e => e_id e =? id) dir.

(** The entry [db_catalog_edit] repoints, with what its caller then writes. *)
Fixpoint set_object (dir : list entry) (id : Z) (o : object) : list entry :=
  match dir with
  | [] => []
  | e :: dir' => if e_id e =? id then mk_entry id (e_name e) o :: dir' else e :: set_object dir' id o
  end.

(** ** Putting and dropping *)

(** [.scan]: an id that is taken, or a name that is. *)
Fixpoint put_scan (dir : list entry) (id : Z) (n : list ascii) : option Z :=
  match dir with
  | [] => None
  | e :: dir' =>
      if e_id e =? id then Some CybouDB_E_STATE
      else if bool_decide (e_name e = n) then Some CybouDB_E_SCHEMA else put_scan dir' id n
  end.

(** [.shift] and [.entry]: before the first larger id. *)
Fixpoint insert_entry (x : entry) (dir : list entry) : list entry :=
  match dir with
  | [] => [x]
  | e :: dir' => if e_id e <? e_id x then e :: insert_entry x dir' else x :: e :: dir'
  end.

(** The page CREATE publishes: zeroes and a name. *)
Definition empty_object (t : cat_type) (n : list ascii) : object :=
  match t with CAT_QUEUE => OQueue new_queue | CAT_STREAM => OStream (new_stream (string_of_list_ascii n)) end.

Definition db_catalog_put (t : cat_type) (ev : env) (dir : list entry) (id : Z) (n : list ascii) : Z * list entry :=
  if negb (ready ev =? 0) then (ready ev, dir) else
  if id =? 0 then (CybouDB_E_SCHEMA, dir) else
  if negb (has_feature t ev) then (CybouDB_E_STATE, dir) else
  if (length n =? 0)%nat then (CybouDB_E_SCHEMA, dir) else
  if negb (graph_valid ev) then (CybouDB_E_CATALOG, dir) else
  match put_scan dir id n with
  | Some rc => (rc, dir)
  | None =>
      if (CAT_MAX_TABLES <=? length dir)%nat then (CybouDB_E_CATALOG_FULL, dir) else
      if (headroom ev <? 2)%nat then (CybouDB_E_FULL, dir) else
      if negb (page_alloc ev =? 0) then (page_alloc ev, dir) else
      (0, insert_entry (mk_entry id n (empty_object t n)) dir)
  end.

Definition db_catalog_drop (ev : env) (dir : list entry) (id : Z) : Z * list entry :=
  if negb (ready ev =? 0) then (ready ev, dir) else
  if id =? 0 then (CybouDB_E_NOTFOUND, dir) else
  if negb (graph_valid ev) then (CybouDB_E_CATALOG, dir) else
  match list_find (fun e => e_id e = id) dir with
  | None => (CybouDB_E_NOTFOUND, dir)
  | Some (i, _) =>
      if (length dir =? 1)%nat then (0, []) else
      if (headroom ev <? 1)%nat then (CybouDB_E_FULL, dir) else
      if negb (page_alloc ev =? 0) then (page_alloc ev, dir) else (0, delete i dir)
  end.

(** ** Names that match *)

Definition ident_chars : list ascii := List.filter ident_char (map ascii_of_nat (seq 0 256)).

Lemma in_ident_chars c : ident_char c = true -> In c ident_chars.
Proof.
  intros Hc. apply filter_In. split; [|done]. apply in_map_iff. exists (nat_of_ascii c). split; [apply ascii_nat_embedding|].
  apply in_seq. pose proof (nat_ascii_bounded c). lia.
Qed.

Lemma char_matches_lower c d : ident_char c = true -> ident_char d = true ->
  char_matches c d = (lower c =? lower d)%char.
Proof.
  intros Hc%in_ident_chars Hd%in_ident_chars.
  assert (H : List.forallb (fun c => List.forallb (fun d =>
    Bool.eqb (char_matches c d) (lower c =? lower d)%char) ident_chars) ident_chars = true) by (vm_compute; reflexivity).
  rewrite List.forallb_forall in H. specialize (H c Hc).
  rewrite List.forallb_forall in H. by apply Bool.eqb_prop, H.
Qed.

Lemma no_nul_ident d : ident_char d = true -> char_matches "000" d = false.
Proof.
  intros Hd%in_ident_chars.
  assert (H : List.forallb (fun d => negb (char_matches "000" d)) ident_chars = true) by (vm_compute; reflexivity).
  rewrite List.forallb_forall in H. by apply negb_true_iff, H.
Qed.

(** A name of the catalog: an identifier of 1 to 31 characters. *)
Definition object_name (n : list ascii) : Prop := (1 <= length n <= 31)%nat /\ forallb ident_char n = true.

Definition folded (n : list ascii) : list ascii := map lower n.

Lemma name_matches_folded a b : forallb ident_char a = true -> forallb ident_char b = true ->
  name_matches a b = bool_decide (folded a = folded b).
Proof.
  revert a. induction b as [|d b IH]; intros [|c a] Ha Hb; cbn in *; bool_to_prop; try done.
  - by rewrite no_nul_ident.
  - rewrite char_matches_lower, IH by done. destruct (Ascii.eqb_spec (lower c) (lower d)) as [E|E]; cbn.
    + rewrite E. apply bool_decide_ext. split; [intros E2; f_equal; exact E2|by intros [= E2]].
    + symmetry. apply bool_decide_eq_false. by intros [= ? _].
Qed.

(** ** The invariant *)

(** Ids ascend and are never zero; names are identifiers, and no two are the same
    but for case. *)
Record catalog_ok (dir : list entry) : Prop := {
  co_ids : StronglySorted Z.lt (map e_id dir);
  co_positive : Forall (fun e => 0 < e_id e) dir;
  co_named : Forall (fun e => object_name (e_name e)) dir;
  co_unique : NoDup (map (fun e => folded (e_name e)) dir);
}.

(** The object a name stands for. *)
Definition at_name (dir : list entry) (n : list ascii) : option object := e_object <$> catalog_find_object dir n.

Lemma catalog_ok_nil : catalog_ok [].
Proof. split; constructor. Qed.

Lemma catalog_ok_cons e dir : catalog_ok (e :: dir) <->
  Forall (fun e' => e_id e < e_id e' /\ folded (e_name e') <> folded (e_name e)) dir /\ 0 < e_id e /\
  object_name (e_name e) /\ catalog_ok dir.
Proof.
  split.
  - intros [Hi Hp Hn Hu]. cbn in *. apply StronglySorted_inv in Hi as [Hi Hlt]. apply list.Forall_cons in Hp as [? Hp].
    apply list.Forall_cons in Hn as [? Hn]. apply list.NoDup_cons in Hu as [Hx Hu]. split; [|done].
    apply list.Forall_forall. intros e' He. split.
    + rewrite List.Forall_forall in Hlt. apply Hlt, in_map, list_elem_of_In, He.
    + intros E. apply Hx. rewrite <- E. by apply (list_elem_of_fmap_2 (fun e => folded (e_name e))).
  - intros (Hall & ? & ? & [Hi Hp Hn Hu]). rewrite list.Forall_forall in Hall. split; cbn.
    + constructor; [done|]. apply List.Forall_forall. intros i (e' & <- & He%list_elem_of_In)%in_map_iff. by apply Hall.
    + by constructor.
    + by constructor.
    + constructor; [|done]. intros (e' & E & He)%list_elem_of_fmap. by destruct (Hall e' He).
Qed.

(** Lookups by name and by id reach the same entry. *)
Lemma find_name dir e n : catalog_ok dir -> e ∈ dir -> forallb ident_char n = true -> folded n = folded (e_name e) ->
  catalog_find_object dir n = Some e.
Proof.
  intros Hok He Hn E. unfold catalog_find_object.
  assert (Hl : (length n <= 31)%nat).
  { pose proof (co_named _ Hok) as H. rewrite list.Forall_forall in H. destruct (H e He) as [H' _].
    apply (f_equal length) in E. unfold folded in E. rewrite !length_map in E. lia. }
  destruct (Nat.ltb_spec 31 (length n)); [lia|]. clear Hl. induction dir as [|x dir IH]; [by apply elem_of_nil in He|].
  apply catalog_ok_cons in Hok as (Hall & _ & [_ Hx] & Hok). cbn. rewrite name_matches_folded by done.
  apply elem_of_cons in He as [<-|He]; [by rewrite bool_decide_true|].
  rewrite bool_decide_false; [by apply IH|]. rewrite list.Forall_forall in Hall. destruct (Hall e He). congruence.
Qed.

Lemma found_name dir n e : catalog_find_object dir n = Some e -> catalog_ok dir -> forallb ident_char n = true ->
  e ∈ dir /\ folded n = folded (e_name e).
Proof.
  unfold catalog_find_object. destruct (31 <? _)%nat; [done|]. intros (Hin & Hm)%find_some Hok Hn. apply list_elem_of_In in Hin.
  split; [done|]. pose proof (co_named _ Hok) as H. rewrite list.Forall_forall in H. destruct (H e Hin) as [_ He].
  rewrite name_matches_folded in Hm by done. by apply bool_decide_eq_true in Hm.
Qed.

Lemma find_id dir e : catalog_ok dir -> e ∈ dir -> List.find (fun x => e_id x =? e_id e) dir = Some e.
Proof.
  intros Hok He. induction dir as [|x dir IH]; [by apply elem_of_nil in He|]. cbn.
  apply catalog_ok_cons in Hok as (Hall & _ & _ & Hok). apply elem_of_cons in He as [<-|He]; [by rewrite Z.eqb_refl|].
  rewrite list.Forall_forall in Hall. destruct (Hall e He). destruct (Z.eqb_spec (e_id x) (e_id e)); [lia|]. by apply IH.
Qed.

Lemma page_of_name dir n e : catalog_ok dir -> forallb ident_char n = true -> catalog_find_object dir n = Some e ->
  db_catalog_page dir (e_id e) = Some (e_object e).
Proof. intros Hok Hn E. apply found_name in E as [He _]; [|done..]. unfold db_catalog_page. by rewrite find_id. Qed.

(** ** Writing one object *)

Lemma set_object_fields {A} (f : entry -> A) dir id o :
  (forall e o', f (mk_entry (e_id e) (e_name e) o') = f e) -> map f (set_object dir id o) = map f dir.
Proof.
  intros Hf. induction dir as [|e dir IH]; cbn; [done|]. destruct (Z.eqb_spec (e_id e) id) as [<-|]; cbn; [by rewrite Hf|by rewrite IH].
Qed.

Lemma set_object_ok dir id o : catalog_ok dir -> catalog_ok (set_object dir id o).
Proof.
  intros [Hi Hp Hn Hu].
  assert (Hall : forall P : entry -> Prop, (forall e o', P e -> P (mk_entry (e_id e) (e_name e) o')) -> Forall P dir -> Forall P (set_object dir id o)).
  { intros P HP. clear -HP. induction dir as [|e dir IH]; cbn; [done|]. intros [He Hd]%list.Forall_cons.
    destruct (Z.eqb_spec (e_id e) id) as [<-|]; constructor; auto. }
  split; rewrite ?set_object_fields by done; try done; by apply Hall.
Qed.

Lemma find_set_object (p : entry -> bool) dir id o : (forall e o', p (mk_entry (e_id e) (e_name e) o') = p e) ->
  StronglySorted Z.lt (map e_id dir) ->
  List.find p (set_object dir id o) =
    (fun e => if e_id e =? id then mk_entry id (e_name e) o else e) <$> List.find p dir.
Proof.
  intros Hp Hs. induction dir as [|e dir IH]; cbn; [done|]. cbn in Hs. apply StronglySorted_inv in Hs as [Hs Hlt].
  destruct (Z.eqb_spec (e_id e) id) as [<-|Hne]; cbn.
  - rewrite Hp. destruct (p e); cbn; [by rewrite Z.eqb_refl|]. destruct (List.find p dir) as [e'|] eqn:E; [|done]. cbn.
    apply find_some in E as [E _]. rewrite List.Forall_forall in Hlt. specialize (Hlt _ (in_map e_id _ _ E)).
    destruct (Z.eqb_spec (e_id e') (e_id e)); [lia|done].
  - destruct (p e); cbn; [|by apply IH]. by destruct (Z.eqb_spec (e_id e) id).
Qed.

(** The name written to has the new object, and every other name what it had. *)
Lemma at_name_set_object dir e o n : catalog_ok dir -> e ∈ dir -> forallb ident_char n = true ->
  at_name (set_object dir (e_id e) o) n = if bool_decide (folded n = folded (e_name e)) then Some o else at_name dir n.
Proof.
  intros Hok He Hn. unfold at_name. case_bool_decide as E.
  - pose proof (find_name dir e n Hok He Hn E) as Hf. unfold catalog_find_object in *. destruct (31 <? _)%nat; [done|].
    rewrite find_set_object by (done || apply Hok). rewrite Hf. cbn. by rewrite Z.eqb_refl.
  - destruct (catalog_find_object dir n) as [x|] eqn:Hf.
    + pose proof (found_name _ _ _ Hf Hok Hn) as [Hx Ex]. unfold catalog_find_object in *. destruct (31 <? _)%nat; [done|].
      rewrite find_set_object by (done || apply Hok). rewrite Hf. cbn. destruct (Z.eqb_spec (e_id x) (e_id e)) as [E'|]; [|done].
      pose proof (find_id dir x Hok Hx) as H1. rewrite E', (find_id dir e Hok He) in H1. injection H1 as ->. by rewrite Ex in E.
    + unfold catalog_find_object in *. destruct (31 <? _)%nat; [done|]. rewrite find_set_object by (done || apply Hok). by rewrite Hf.
Qed.

(** ** A new object and a dropped one *)

Lemma catalog_ok_app l1 l2 : catalog_ok (l1 ++ l2) <-> catalog_ok l1 /\ catalog_ok l2 /\
  forall x y, x ∈ l1 -> y ∈ l2 -> e_id x < e_id y /\ folded (e_name y) <> folded (e_name x).
Proof.
  induction l1 as [|e l1 IH]; cbn.
  - split; [|tauto]. intros H. split; [apply catalog_ok_nil|]. split; [done|]. intros x y []%elem_of_nil.
  - rewrite !catalog_ok_cons, IH, Forall_app, !list.Forall_forall. setoid_rewrite elem_of_cons. split.
    + intros ([Ha Hb] & Hp & Hn & H1 & H2 & H12). split; [done|]. split; [done|]. intros x y [->|Hx]; auto.
    + intros ((Ha & Hp & Hn & H1) & H2 & H12). split; [split; [done|]; intros y Hy; by apply H12; [left|]|].
      split_and!; try done. intros x y Hx. apply H12. by right.
Qed.

Lemma next_id_above dir : catalog_ok dir -> 0 < next_id dir /\ forall e, e ∈ dir -> e_id e < next_id dir.
Proof.
  intros Hok. unfold next_id. destruct dir as [|e0 dir _] using rev_ind; [split; [done|]; intros e []%elem_of_nil|].
  rewrite last_snoc. apply catalog_ok_app in Hok as (_ & Hx & Hlt). apply catalog_ok_cons in Hx as (_ & H0 & _). split; [lia|].
  intros e [He| ->%list_elem_of_singleton]%elem_of_app; [|lia]. destruct (Hlt e e0 He); [by left|lia].
Qed.

Lemma insert_last x dir : (forall e, e ∈ dir -> e_id e < e_id x) -> insert_entry x dir = dir ++ [x].
Proof.
  induction dir as [|e dir IH]; intros H; cbn; [done|]. destruct (Z.ltb_spec (e_id e) (e_id x)) as [|Hge].
  - f_equal. apply IH. intros e' He. apply H. by right.
  - specialize (H e (list_elem_of_here _ _)). lia.
Qed.

Lemma put_scan_free dir id n : (forall e, e ∈ dir -> e_id e <> id /\ e_name e <> n) -> put_scan dir id n = None.
Proof.
  induction dir as [|e dir IH]; intros H; cbn; [done|]. destruct (H e (list_elem_of_here _ _)).
  destruct (Z.eqb_spec (e_id e) id); [done|]. rewrite bool_decide_false by done. apply IH. intros e' He. apply H. by right.
Qed.

Lemma not_found dir n : catalog_ok dir -> object_name n -> catalog_find_object dir n = None ->
  forall e, e ∈ dir -> folded n <> folded (e_name e).
Proof. intros Hok [_ Hn] E e He Ef. by rewrite (find_name dir e n) in E. Qed.

Lemma find_app {A} (p : A -> bool) l1 l2 :
  List.find p (l1 ++ l2) = match List.find p l1 with Some x => Some x | None => List.find p l2 end.
Proof. induction l1 as [|x l1 IH]; cbn; [done|]. by destruct (p x). Qed.

Lemma at_name_app dir x n : catalog_ok (dir ++ [x]) -> forallb ident_char n = true ->
  at_name (dir ++ [x]) n = if bool_decide (folded n = folded (e_name x)) then Some (e_object x) else at_name dir n.
Proof.
  intros Hok Hn. unfold at_name. case_bool_decide as E.
  - rewrite (find_name (dir ++ [x]) x n); try done. apply elem_of_app. right. by apply list_elem_of_singleton.
  - unfold catalog_find_object. destruct (31 <? _)%nat; [done|]. rewrite find_app. destruct (List.find _ dir); [done|].
    cbn. apply catalog_ok_app in Hok as (_ & Hx & _). apply catalog_ok_cons in Hx as (_ & _ & [_ Hx] & _).
    rewrite name_matches_folded by done. by rewrite bool_decide_false.
Qed.

(** What CREATE leaves: one more object, at the end. *)
Lemma put_new t ev dir n : catalog_ok dir -> object_name n -> catalog_find_object dir n = None ->
  let '(rc, dir') := db_catalog_put t ev dir (next_id dir) n in
  if rc =? 0 then dir' = dir ++ [mk_entry (next_id dir) n (empty_object t n)] /\ catalog_ok dir' else dir' = dir.
Proof.
  intros Hok Hn Ef. destruct (next_id_above dir Hok) as [Hp Hlt]. pose proof (not_found dir n Hok Hn Ef) as Hfree.
  unfold db_catalog_put. destruct (ready ev =? 0) eqn:Er; cbn [negb]; [|by rewrite Er].
  destruct (Z.eqb_spec (next_id dir) 0) as [|_]; [lia|]. destruct (has_feature t ev); cbn [negb]; [|done].
  destruct (length n =? 0)%nat; [done|]. destruct (graph_valid ev); cbn [negb]; [|done].
  rewrite put_scan_free by (intros e He; split; [specialize (Hlt e He); lia|intros <-; by apply (Hfree e)]).
  destruct (CAT_MAX_TABLES <=? _)%nat; [done|]. destruct (headroom ev <? 2)%nat; [done|].
  destruct (page_alloc ev =? 0) eqn:Ea; cbn [negb]; [|by rewrite Ea]. cbn. rewrite insert_last by done. split; [done|].
  apply catalog_ok_app. split; [done|]. split; [by apply catalog_ok_cons; split_and!; [apply list.Forall_nil|..|apply catalog_ok_nil]|].
  intros x y Hx ->%list_elem_of_singleton. cbn. split; [by apply Hlt|by apply Hfree].
Qed.

(** What DROP leaves: everything else. *)
Lemma drop_found ev dir e : catalog_ok dir -> e ∈ dir ->
  let '(rc, dir') := db_catalog_drop ev dir (e_id e) in
  if rc =? 0 then catalog_ok dir' /\ (exists l1 l2, dir = l1 ++ e :: l2 /\ dir' = l1 ++ l2) /\
    forall n, forallb ident_char n = true ->
      at_name dir' n = if bool_decide (folded n = folded (e_name e)) then None else at_name dir n
  else dir' = dir.
Proof.
  intros Hok He. unfold db_catalog_drop. destruct (ready ev =? 0) eqn:Er; cbn [negb]; [|by rewrite Er].
  assert (Hp : 0 < e_id e) by (pose proof (co_positive _ Hok) as H; rewrite list.Forall_forall in H; by apply H).
  destruct (Z.eqb_spec (e_id e) 0) as [|_]; [lia|]. destruct (graph_valid ev); cbn [negb]; [|done].
  destruct (list_find _ dir) as [[i x]|] eqn:Ei.
  2: { apply list_find_None in Ei. rewrite list.Forall_forall in Ei. by destruct (Ei e He). }
  apply list_find_Some in Ei as (Ei & Ex & _).
  assert (x = e) as ->.
  { apply list_elem_of_lookup_2 in Ei. pose proof (find_id dir x Hok Ei) as H. rewrite Ex, (find_id dir e Hok He) in H. by injection H. }
  apply list_elem_of_split_length in Ei as (l1 & l2 & Edir & Hi).
  assert (Hdel : delete i dir = l1 ++ l2) by (by rewrite Edir, Hi, delete_middle).
  assert (H : catalog_ok (l1 ++ l2) /\ (exists a b, dir = a ++ e :: b /\ l1 ++ l2 = a ++ b) /\
    forall n, forallb ident_char n = true ->
      at_name (l1 ++ l2) n = if bool_decide (folded n = folded (e_name e)) then None else at_name dir n).
  { rewrite Edir in Hok. pose proof Hok as (H1 & H2 & H3)%catalog_ok_app. apply catalog_ok_cons in H2 as (H4 & _ & _ & H2).
    rewrite list.Forall_forall in H4. split; [apply catalog_ok_app; split; [done|]; split; [done|]; intros a b Ha Hb; apply H3; [done|by right]|].
    split; [by exists l1, l2|]. intros n Hn. unfold at_name. case_bool_decide as E.
    - destruct (catalog_find_object (l1 ++ l2) n) as [y|] eqn:Ef; [|done]. exfalso.
      unfold catalog_find_object in Ef. destruct (31 <? _)%nat; [done|]. apply find_some in Ef as [Hy Hm]. apply list_elem_of_In in Hy.
      assert (Hy' : y ∈ l1 ++ e :: l2) by (rewrite elem_of_app, elem_of_cons; apply elem_of_app in Hy; tauto).
      pose proof (co_named _ Hok) as Hnm. rewrite list.Forall_forall in Hnm. destruct (Hnm y Hy') as [_ Hid].
      rewrite name_matches_folded in Hm by done. apply bool_decide_eq_true in Hm.
      apply elem_of_app in Hy as [Hy|Hy]; [destruct (H3 y e Hy) as [_ []]; [by left|congruence]|]. destruct (H4 y Hy) as [_ []]. congruence.
    - rewrite Edir. unfold catalog_find_object. destruct (31 <? _)%nat; [done|]. rewrite !find_app. destruct (List.find _ l1); [done|].
      cbn. assert (Hid : forallb ident_char (e_name e) = true) by (pose proof (co_named _ Hok) as Hnm; rewrite list.Forall_forall in Hnm; apply Hnm; rewrite elem_of_app, elem_of_cons; tauto).
      rewrite name_matches_folded by done. by rewrite bool_decide_false. }
  destruct (Nat.eqb_spec (length dir) 1) as [Hl|].
  - assert (l1 = [] /\ l2 = []) as [-> ->]; [|exact H].
    rewrite Edir, length_app in Hl. cbn in Hl. destruct l1, l2; cbn in Hl; try lia; done.
  - destruct (headroom ev <? 1)%nat; [done|]. destruct (page_alloc ev =? 0) eqn:Ea; cbn [negb]; [|by rewrite Ea].
    cbn. by rewrite Hdel.
Qed.
