(* ===== verification/QueueSql.v ===== *)
(** * QueueSql: queue and stream statements from syntax to pages

    What [src/sql/binder.asm] makes of CREATE and DROP of a queue, a stream or a
    cursor, of ENQUEUE, DEQUEUE, CLAIM, ACK, NACK, RENEW, APPEND, READ and TRIM
    ([sql_bind], the branches [.bind_create_queue] to [.bind_lease]), and what
    [src/sql/executor.asm] then does ([sql_execute_batch], [.exec_create_queue]
    to [.exec_drop_queue]): names resolved to ids when a statement is prepared,
    ids to pages when it is stepped, and the operations of [LeaseQueue], [Dequeue]
    and [Stream] on those.

    A plan is a constructor for each [PLAN_TYPE] with the fields that statement
    uses.  Statements over tables are outside, [None]. *)

From Stdlib Require Import String Ascii.
From stdpp Require Import gmap.
From S2P Require Import LeaseQueue Dequeue Stream Tokenizer Catalog Parser Prelude.
#[local] Open Scope list_scope.

(** ** Binding *)

Definition SQL_ERR_TABLE_NOT_FOUND : Z := 3.
Definition SQL_ERR_DUPLICATE_TABLE : Z := 5.
Definition SQL_ERR_TYPE_MISMATCH : Z := 7.
Definition BOUND_PLAN_SIZE : Z := 416.
Definition CybouDB_PAGE_SIZE : Z := 4096.
Definition PARAM_SLOT_SIZE : Z := 64.
Definition PARAM_BUF_TOTAL : Z := 8 + 32768.

Inductive plan :=
  | PLAN_CREATE (t : cat_type) (id : Z) (n : name)
  | PLAN_DROP (t : cat_type) (id : Z)
  | PLAN_PUSH (t : cat_type) (id : Z) (payload : string)
  | PLAN_DEQUEUE (id : Z)
  | PLAN_CLAIM (id duration : Z)
  | PLAN_ACK (id position token : Z)
  | PLAN_NACK (id position token : Z)
  | PLAN_RENEW (id position token duration : Z)
  | PLAN_READ (id : Z) (reader : list Z)
  | PLAN_TRIM (id position : Z)
  | PLAN_CREATE_CURSOR (id : Z) (reader : list Z)
  | PLAN_DROP_CURSOR (id : Z) (reader : list Z).

(** A refusal is the code and the message [set_binder_error] stores. *)
Definition refusal : Type := Z * string.

Definition refuse_if {A} (b : bool) (e : refusal) (k : refusal + A) : refusal + A := if b then inl e else k.

Definition err_oom : refusal := (SQL_ERR_NO_STORAGE, "memory arena capacity exceeded"%string).
Definition bad_tbl_len : refusal := (SQL_ERR_SYNTAX, "table name exceeds 31 characters"%string).
Definition dup_table : refusal := (SQL_ERR_DUPLICATE_TABLE, "table already exists"%string).
Definition cursor_name_len : refusal := (SQL_ERR_SYNTAX, "a cursor name is 1 to 23 characters"%string).
Definition queue_bad_payload : refusal := (SQL_ERR_TYPE_MISMATCH, "a queue message is TEXT or BLOB"%string).
Definition queue_too_long : refusal := (SQL_ERR_TYPE_MISMATCH, "message longer than four gigabytes"%string).
Definition lease_unsupported : refusal := (SQL_ERR_NO_STORAGE, "database was not created with queue leases"%string).

Definition unsupported (t : cat_type) : refusal :=
  (SQL_ERR_TYPE_MISMATCH, match t with
    | CAT_QUEUE => "database was not created with queue support"
    | CAT_STREAM => "database was not created with stream support" end%string).

Definition missing (t : cat_type) : refusal :=
  (SQL_ERR_TABLE_NOT_FOUND, match t with
    | CAT_QUEUE => "queue not found in catalog" | CAT_STREAM => "stream not found in catalog" end%string).

(** The object a statement names, once [checked] has passed. *)
Definition bind_object (t : cat_type) (ev : env) (dir : list entry) (n : name)
    (checked : refusal + plan -> refusal + plan) (k : Z -> refusal + plan) : refusal + plan :=
  refuse_if (negb (has_feature t ev)) (unsupported t) (
  refuse_if (31 <? length n)%nat bad_tbl_len (
  checked (match catalog_find t dir n with Some id => k id | None => inl (missing t) end))).

Definition unchecked : refusal + plan -> refusal + plan := fun k => k.

(** [.bind_create_object]: the name has to be free, whatever has it. *)
Definition bind_create (t : cat_type) (ev : env) (dir : list entry) (a : arena) (n : name) : (refusal + plan) * arena :=
  if negb (has_feature t ev) then (inl (unsupported t), a) else
  if (31 <? length n)%nat || (length n =? 0)%nat then (inl bad_tbl_len, a) else
  match catalog_find_object dir n with
  | Some _ => (inl dup_table, a)
  | None =>
      let '(ok, a) := sql_arena_alloc a CybouDB_PAGE_SIZE in
      (if negb ok then inl err_oom else inr (PLAN_CREATE t (next_id dir) n), a)
  end.

(** [.bind_payload]: a TEXT or BLOB literal whose length the slot can record. *)
Definition bind_payload (t : cat_type) (value : expr) (id : Z) : refusal + plan :=
  match value with
  | E_LITERAL (L_TEXT l) | E_LITERAL (L_BLOB l) =>
      refuse_if (2 ^ 32 <=? Z.of_nat (length l)) queue_too_long (inr (PLAN_PUSH t id (string_of_list_ascii l)))
  | _ => inl queue_bad_payload
  end.

(** [.bind_cursor_common] *)
Definition bind_cursor (ev : env) (dir : list entry) (n reader : name) (k : Z -> list Z -> plan) : refusal + plan :=
  bind_object CAT_STREAM ev dir n
    (refuse_if ((SCUR_NAME_MAX <? length reader)%nat || (length reader =? 0)%nat) cursor_name_len)
    (fun id => inr (k id (map code reader))).

(** [.bind_lease] *)
Definition bind_lease (ev : env) (dir : list entry) (n : name) (k : Z -> plan) : refusal + plan :=
  refuse_if (negb (feat_queue ev)) (unsupported CAT_QUEUE) (
  refuse_if (negb (feat_leases ev)) lease_unsupported (
  bind_object CAT_QUEUE ev dir n unchecked (fun id => inr (k id)))).

(** The dispatch of [sql_bind]; [None] for a statement over tables and for the
    transaction statements. *)
Definition bind_statement (ev : env) (dir : list entry) (a : arena) (st : ast) : option ((refusal + plan) * arena) :=
  match st with
  | A_CREATE_QUEUE n => Some (bind_create CAT_QUEUE ev dir a n)
  | A_CREATE_STREAM n => Some (bind_create CAT_STREAM ev dir a n)
  | A_DROP_QUEUE n => Some (bind_object CAT_QUEUE ev dir n unchecked (fun id => inr (PLAN_DROP CAT_QUEUE id)), a)
  | A_DROP_STREAM n => Some (bind_object CAT_STREAM ev dir n unchecked (fun id => inr (PLAN_DROP CAT_STREAM id)), a)
  | A_ENQUEUE n v => Some (bind_object CAT_QUEUE ev dir n unchecked (bind_payload CAT_QUEUE v), a)
  | A_APPEND n v => Some (bind_object CAT_STREAM ev dir n unchecked (bind_payload CAT_STREAM v), a)
  | A_DEQUEUE n => Some (bind_object CAT_QUEUE ev dir n unchecked (fun id => inr (PLAN_DEQUEUE id)), a)
  | A_CLAIM n d => Some (bind_lease ev dir n (fun id => PLAN_CLAIM id d), a)
  | A_ACK n p t => Some (bind_lease ev dir n (fun id => PLAN_ACK id p t), a)
  | A_NACK n p t => Some (bind_lease ev dir n (fun id => PLAN_NACK id p t), a)
  | A_RENEW n p t d => Some (bind_lease ev dir n (fun id => PLAN_RENEW id p t d), a)
  | A_READ n r => Some (bind_cursor ev dir n r PLAN_READ, a)
  | A_CREATE_CURSOR r n => Some (bind_cursor ev dir n r PLAN_CREATE_CURSOR, a)
  | A_DROP_CURSOR r n => Some (bind_cursor ev dir n r PLAN_DROP_CURSOR, a)
  | A_TRIM n p => Some (bind_object CAT_STREAM ev dir n unchecked (fun id => inr (PLAN_TRIM id p)), a)
  | _ => None
  end.

(** With the plan's own memory and that of its placeholders. *)
Definition sql_bind (ev : env) (dir : list entry) (a : arena) (params : nat) (st : ast) : option ((refusal + plan) * arena) :=
  if negb (feat_pax ev) then
    Some (inl (SQL_ERR_NO_STORAGE, "database does not have PAX table storage enabled"%string), a) else
  let '(ok, a) := sql_arena_alloc a BOUND_PLAN_SIZE in
  if negb ok then Some (inl err_oom, a) else
  if (params =? 0)%nat then bind_statement ev dir a st else
  let '(ok, a) := sql_arena_alloc a (Z.of_nat params * PARAM_SLOT_SIZE) in
  if negb ok then Some (inl err_oom, a) else
  let '(ok, a) := sql_arena_alloc a PARAM_BUF_TOTAL in
  if negb ok then Some (inl err_oom, a) else bind_statement ev dir a st.

(** ** Executing *)

(** The code, the directory, what [PLAN_DATA1] to [PLAN_DATA3] hand over and the
    ticket. *)
Record answer := mk_answer {
  x_rc : Z;
  x_dir : list entry;
  x_message : option string;
  x_ticket : option (nat * Z);
}.

Definition storage_done (r : Z * list entry) : answer := mk_answer r.1 r.2 None None.

Definition with_queue (dir : list entry) (id absent : Z) (f : queue -> answer) : answer :=
  match db_catalog_page dir id with Some (OQueue q) => f q | _ => storage_done (absent, dir) end.

Definition with_stream (dir : list entry) (id absent : Z) (f : stream -> answer) : answer :=
  match db_catalog_page dir id with Some (OStream s) => f s | _ => storage_done (absent, dir) end.

Definition on_queue (dir : list entry) (id : Z) (r : Z * queue) : answer :=
  storage_done (r.1, set_object dir id (OQueue r.2)).
Definition on_stream (dir : list entry) (id : Z) (r : Z * stream) : answer :=
  storage_done (r.1, set_object dir id (OStream r.2)).

(** Room for a message; one of no bytes still needs an address. *)
Definition room_for (a : arena) (len : Z) : bool := fst (sql_arena_alloc a (if len =? 0 then 1 else len)).

(** [db_queue_push] and [db_stream_append] as far as the page: the queue feature
    for both, then the length. *)
Definition exec_push (t : cat_type) (ev : env) (dir : list entry) (id : Z) (payload : string) : answer :=
  if negb (feat_queue ev) then storage_done (CybouDB_E_STATE, dir) else
  if 2 ^ 32 <=? Z.of_nat (String.length payload) then storage_done (CybouDB_E_VALUE, dir) else
  match t with
  | CAT_QUEUE => with_queue dir id CybouDB_E_STATE (fun q => on_queue dir id (db_queue_push (ctx_of ev) q payload))
  | CAT_STREAM => with_stream dir id CybouDB_E_STATE (fun s => on_stream dir id (db_stream_append (sctx_of ev) s payload))
  end.

(** [.exec_dequeue]: the room is asked for before the message is taken. *)
Definition exec_dequeue (ev : env) (dir : list entry) (a : arena) (id : Z) : answer :=
  if negb (feat_queue ev) then storage_done (CybouDB_E_STATE, dir) else
  with_queue dir id CybouDB_E_STATE (fun q =>
    let '(rc, len) := db_queue_peek q in
    if rc =? CybouDB_E_NOTFOUND then storage_done (0, dir) else
    if negb (rc =? 0) then storage_done (rc, dir) else
    if negb (room_for a len) then storage_done (SQL_ERR_NO_STORAGE, dir) else
    let '(rc, q, bytes) := db_queue_pop (ctx_of ev) (chain ev) q in
    let dir := set_object dir id (OQueue q) in
    if rc =? CybouDB_E_NOTFOUND then storage_done (0, dir) else
    if negb (rc =? 0) then storage_done (rc, dir) else mk_answer 0 dir (Some bytes) None).

(** [.exec_claim]: the message is claimed before the room is asked for. *)
Definition exec_claim (ev : env) (dir : list entry) (a : arena) (id duration : Z) : answer :=
  if u64 duration =? 0 then storage_done (CybouDB_E_VALUE, dir) else
  with_queue dir id CybouDB_E_STATE (fun q =>
    let '(rc, q, pos, token) := db_queue_claim (ctx_of ev) q (wall_ms ev) (u64 duration) in
    let dir := set_object dir id (OQueue q) in
    if rc =? CybouDB_E_NOTFOUND then storage_done (0, dir) else
    if negb (rc =? 0) then storage_done (rc, dir) else
    match lease_find_slot q pos with
    | None => storage_done (0, dir)
    | Some m =>
        if negb (room_for a (payload_length m)) then storage_done (SQL_ERR_NO_STORAGE, dir) else
        let '(rc, bytes) := queue_slot_copy (chain ev) m in
        if negb (rc =? 0) then storage_done (rc, dir) else mk_answer 0 dir (Some bytes) (Some (pos, token))
    end).

(** [.exec_read] *)
Definition exec_read (ev : env) (dir : list entry) (a : arena) (id : Z) (reader : list Z) : answer :=
  with_stream dir id CybouDB_E_STATE (fun s =>
    let '(rc, len, i) := db_stream_peek (sctx_of ev) s reader in
    if rc =? CybouDB_E_NOTFOUND then storage_done (0, dir) else
    if negb (rc =? 0) then storage_done (rc, dir) else
    if negb (room_for a len) then storage_done (SQL_ERR_NO_STORAGE, dir) else
    let '(rc, s, bytes) := db_stream_read (sctx_of ev) s i in
    let dir := set_object dir id (OStream s) in
    if rc =? CybouDB_E_NOTFOUND then storage_done (0, dir) else
    if negb (rc =? 0) then storage_done (rc, dir) else mk_answer 0 dir (Some bytes) None).

Definition position (p : Z) : nat := Z.to_nat (u64 p).

(** Dropping hands the object's own pages back first, which the directory does not
    see. *)
Definition sql_execute (ev : env) (dir : list entry) (a : arena) (p : plan) : answer :=
  match p with
  | PLAN_CREATE t id n => storage_done (db_catalog_put t ev dir id n)
  | PLAN_DROP _ id => storage_done (db_catalog_drop ev dir id)
  | PLAN_PUSH t id payload => exec_push t ev dir id payload
  | PLAN_DEQUEUE id => exec_dequeue ev dir a id
  | PLAN_CLAIM id d => exec_claim ev dir a id d
  | PLAN_ACK id pos t =>
      with_queue dir id (if feat_leases ev then CybouDB_E_LEASE else CybouDB_E_STATE)
        (fun q => on_queue dir id (db_queue_ack (ctx_of ev) q (position pos) (u64 t)))
  | PLAN_NACK id pos t =>
      with_queue dir id CybouDB_E_LEASE (fun q => on_queue dir id (db_queue_nack (ctx_of ev) q (position pos) (u64 t)))
  | PLAN_RENEW id pos t d =>
      if u64 d =? 0 then storage_done (CybouDB_E_VALUE, dir) else
      with_queue dir id CybouDB_E_STATE
        (fun q => on_queue dir id (db_queue_renew (ctx_of ev) q (position pos) (u64 t) (wall_ms ev) (u64 d)))
  | PLAN_READ id r => exec_read ev dir a id r
  | PLAN_TRIM id pos =>
      with_stream dir id CybouDB_E_STATE (fun s => on_stream dir id (db_stream_trim (sctx_of ev) s (position pos)))
  | PLAN_CREATE_CURSOR id r =>
      if feat_stream ev && ((length r =? 0)%nat || (SCUR_NAME_MAX <? length r)%nat) then storage_done (CybouDB_E_VALUE, dir) else
      with_stream dir id CybouDB_E_STATE (fun s => on_stream dir id (db_stream_cursor_add (sctx_of ev) s r))
  | PLAN_DROP_CURSOR id r =>
      with_stream dir id CybouDB_E_STATE (fun s => on_stream dir id (db_stream_cursor_drop (sctx_of ev) s r))
  end.

(** ** What a statement touches *)

(** The object a statement is about. *)
Definition target (st : ast) : option name :=
  match st with
  | A_CREATE_QUEUE n | A_CREATE_STREAM n | A_DROP_QUEUE n | A_DROP_STREAM n | A_ENQUEUE n _ | A_APPEND n _ | A_DEQUEUE n
  | A_CLAIM n _ | A_ACK n _ _ | A_NACK n _ _ | A_RENEW n _ _ _ | A_READ n _ | A_CREATE_CURSOR _ n | A_DROP_CURSOR _ n
  | A_TRIM n _ => Some n
  | _ => None
  end.

Definition plan_id (p : plan) : Z :=
  match p with
  | PLAN_CREATE _ id _ | PLAN_DROP _ id | PLAN_PUSH _ id _ | PLAN_DEQUEUE id | PLAN_CLAIM id _ | PLAN_ACK id _ _
  | PLAN_NACK id _ _ | PLAN_RENEW id _ _ _ | PLAN_READ id _ | PLAN_TRIM id _ | PLAN_CREATE_CURSOR id _ | PLAN_DROP_CURSOR id _ => id
  end.

Definition in_place (p : plan) : bool := match p with PLAN_CREATE _ _ _ | PLAN_DROP _ _ => false | _ => true end.

(** The directory, or the directory with one object written. *)
Definition writes (dir : list entry) (id : Z) (r : answer) : Prop :=
  x_dir r = dir \/ exists o, x_dir r = set_object dir id o.

Lemma with_queue_writes dir id absent f : (forall q, writes dir id (f q)) -> writes dir id (with_queue dir id absent f).
Proof. intros H. unfold with_queue. destruct (db_catalog_page dir id) as [[]|]; auto; by left. Qed.

Lemma with_stream_writes dir id absent f : (forall s, writes dir id (f s)) -> writes dir id (with_stream dir id absent f).
Proof. intros H. unfold with_stream. destruct (db_catalog_page dir id) as [[]|]; auto; by left. Qed.

Ltac writes_one := repeat (first [by left | by right; eexists | apply with_queue_writes; intros ? | apply with_stream_writes; intros ?
  | case_match ]).

Lemma execute_writes ev dir a p : in_place p = true -> writes dir (plan_id p) (sql_execute ev dir a p).
Proof.
  destruct p as [t id n|t id|t id payload|id|id d|id pos t|id pos t|id pos t d|id r|id pos|id r|id r]; try discriminate; intros _;
    cbn [plan_id sql_execute].
  - unfold exec_push. writes_one.
  - unfold exec_dequeue. writes_one.
  - unfold exec_claim. writes_one.
  - writes_one.
  - writes_one.
  - writes_one.
  - unfold exec_read. writes_one.
  - writes_one.
  - writes_one.
  - writes_one.
Qed.

Lemma refuse_if_inr {A} b e (k : refusal + A) x : refuse_if b e k = inr x -> b = false /\ k = inr x.
Proof. unfold refuse_if. by destruct b. Qed.

Lemma bind_object_inr t ev dir n (checked : refusal + plan -> refusal + plan) k p :
  (forall x, checked x = inr p -> x = inr p) -> bind_object t ev dir n checked k = inr p ->
  has_feature t ev = true /\ exists e, catalog_find_object dir n = Some e /\ is_type t (e_object e) = true /\ k (e_id e) = inr p.
Proof.
  intros Hc (Hf & (Hl & H%Hc)%refuse_if_inr)%refuse_if_inr. apply negb_false_iff in Hf. split; [done|].
  unfold catalog_find in H. destruct (catalog_find_object dir n) as [e|]; [|done]. destruct (is_type t (e_object e)) eqn:Et; [|done].
  by exists e.
Qed.

(** Where a plan's id comes from. *)
Inductive bound (dir : list entry) (n : name) (p : plan) : Prop :=
  | bound_new t : p = PLAN_CREATE t (next_id dir) n -> catalog_find_object dir n = None -> (1 <= length n <= 31)%nat -> bound dir n p
  | bound_to e : catalog_find_object dir n = Some e -> plan_id p = e_id e -> (in_place p = true \/ exists t, p = PLAN_DROP t (e_id e)) -> bound dir n p.

Lemma bind_statement_bound ev dir a st p a' n : bind_statement ev dir a st = Some (inr p, a') -> target st = Some n -> bound dir n p.
Proof.
  assert (Hcreate : forall t m, bind_create t ev dir a m = (inr p, a') -> bound dir m p).
  { intros t m. unfold bind_create. destruct (negb _); [done|]. destruct (31 <? length m)%nat eqn:E1; [done|].
    destruct (length m =? 0)%nat eqn:E2; [done|]. cbn [orb]. destruct (catalog_find_object dir m) eqn:Ef; [done|].
    destruct (sql_arena_alloc a CybouDB_PAGE_SIZE) as [[] a1]; [|done]. intros [= <- _].
    apply (bound_new dir m _ t); [done..|]. bool_to_prop. lia. }
  assert (Hobj : forall t m chk k, (forall x, chk x = inr p -> x = inr p) -> bind_object t ev dir m chk k = inr p ->
    (forall id, k id = inr p -> plan_id p = id /\ (in_place p = true \/ exists t, p = PLAN_DROP t id)) -> bound dir m p).
  { intros t m chk k Hchk (_ & e & Ef & _ & Hk)%bind_object_inr Hid; [|done]. destruct (Hid _ Hk). by apply (bound_to dir m p e). }
  assert (Hun : forall x, unchecked x = inr p -> x = inr p) by done.
  assert (Hpay : forall t v id, bind_payload t v id = inr p -> plan_id p = id /\ (in_place p = true \/ exists t, p = PLAN_DROP t id)).
  { intros t v id. unfold bind_payload. destruct v as [[]| | | |]; try done; intros [_ [= <-]]%refuse_if_inr; auto. }
  assert (Hlease : forall m k, bind_lease ev dir m k = inr p -> (forall id, plan_id (k id) = id /\ in_place (k id) = true) -> bound dir m p).
  { intros m k (_ & (_ & H)%refuse_if_inr)%refuse_if_inr Hk. eapply Hobj; [done|exact H|]. intros id [= <-]. destruct (Hk id). auto. }
  assert (Hcur : forall m r k, bind_cursor ev dir m r k = inr p -> (forall id l, plan_id (k id l) = id /\ in_place (k id l) = true) -> bound dir m p).
  { intros m r k H Hk. eapply Hobj; [|exact H|]; [by intros x [_ ?]%refuse_if_inr|]. intros id [= <-]. destruct (Hk id (map code r)). auto. }
  intros E Et. destruct st; try discriminate Et; cbn [target bind_statement] in *; injection Et as <-;
    first [injection E as E; by eapply Hcreate | injection E as E <-];
    first [eapply Hlease; [exact E|done] | eapply Hcur; [exact E|done] | eapply Hobj; [done|exact E|]; first [exact (Hpay _ _) | intros id [= <-]; eauto]].
Qed.

Lemma bind_bound ev dir a params st p a' n : sql_bind ev dir a params st = Some (inr p, a') -> target st = Some n -> bound dir n p.
Proof.
  unfold sql_bind. destruct (negb _); [done|]. destruct (sql_arena_alloc a _) as [[] a1]; [|done]. cbn [negb].
  destruct (params =? 0)%nat; [apply bind_statement_bound|]. destruct (sql_arena_alloc a1 _) as [[] a2]; [|done]. cbn [negb].
  destruct (sql_arena_alloc a2 _) as [[] a3]; [|done]. apply bind_statement_bound.
Qed.

Lemma at_name_found dir n e : catalog_find_object dir n = Some e -> at_name dir n = Some (e_object e).
Proof. intros E. unfold at_name. by rewrite E. Qed.

(** C23: a statement changes the object it names and no other.  Prepared and stepped
    on a directory whose ids ascend and whose names differ in more than case, every
    queue and stream statement leaves such a directory, whatever the pages below
    answer; under every other name is what was there; CREATE leaves a new empty
    object under its name or nothing, DROP removes its object or leaves it, and
    every other statement leaves an object there. *)
Theorem statements_touch_one_object ev ev' dir a sa params st p a' n :
  catalog_ok dir -> target st = Some n -> forallb ident_char n = true ->
  sql_bind ev dir a params st = Some (inr p, a') ->
  let r := sql_execute ev' dir sa p in
  catalog_ok (x_dir r) /\
  (forall m, forallb ident_char m = true -> folded m <> folded n -> at_name (x_dir r) m = at_name dir m) /\
  match p with
  | PLAN_CREATE t _ _ => at_name (x_dir r) n = if x_rc r =? 0 then Some (empty_object t n) else None
  | PLAN_DROP _ _ => at_name (x_dir r) n = if x_rc r =? 0 then None else at_name dir n
  | _ => is_Some (at_name (x_dir r) n)
  end.
Proof.
  intros Hok Ht Hn E r. destruct (bind_bound _ _ _ _ _ _ _ _ E Ht) as [t -> Ef Hl|e Ef Hid Hp].
  - cbn in r. assert (Hobj : object_name n) by done. pose proof (put_new t ev' dir n Hok Hobj Ef) as H.
    destruct (db_catalog_put t ev' dir (next_id dir) n) as [rc dir']. cbn in r, H |- *. destruct (rc =? 0).
    + destruct H as [-> Hok']. split; [done|]. split.
      * intros m Hm Hne. rewrite at_name_app by done. by rewrite bool_decide_false.
      * rewrite at_name_app by done. by rewrite bool_decide_true.
    + subst dir'. split; [done|]. split; [done|]. unfold at_name. by rewrite Ef.
  - pose proof (found_name _ _ _ Ef Hok Hn) as [He Hfold]. destruct Hp as [Hp|[t ->]].
    + pose proof (execute_writes ev' dir sa p Hp) as H. fold r in H. rewrite Hid in H.
      assert (Hall : catalog_ok (x_dir r) /\ (forall m, forallb ident_char m = true -> folded m <> folded n -> at_name (x_dir r) m = at_name dir m)
        /\ is_Some (at_name (x_dir r) n)).
      { destruct H as [-> | [o ->]].
        - split; [done|]. split; [done|]. rewrite (at_name_found _ _ _ Ef). by eexists.
        - split; [by apply set_object_ok|]. split; intros; rewrite at_name_set_object by done.
          + by rewrite bool_decide_false by congruence.
          + rewrite bool_decide_true by done. by eexists. }
      destruct Hall as (? & ? & ?). split; [done|]. split; [done|]. by destruct p.
    + cbn in r. pose proof (drop_found ev' dir e Hok He) as H. destruct (db_catalog_drop ev' dir (e_id e)) as [rc dir']. cbn in r, H |- *.
      destruct (rc =? 0).
      * destruct H as (Hok' & _ & Hat). split; [done|]. split; intros; rewrite Hat by done; [by rewrite bool_decide_false by congruence|by rewrite bool_decide_true].
      * by subst dir'.
Qed.

(** ** Two consequences of when things are looked up *)

(** Pages that can be written, with room for the copies. *)
Record healthy (ev : env) : Prop := {
  h_pax : feat_pax ev = true;
  h_queue : feat_queue ev = true;
  h_stream : feat_stream ev = true;
  h_ready : ready ev = 0;
  h_graph : graph_valid ev = true;
  h_room : (2 <= headroom ev)%nat;
  h_alloc : page_alloc ev = 0;
  h_segment : segment_page ev = 0;
  h_chain : forall x, chain ev x = 0;
}.

Lemma healthy_edit ev : healthy ev -> edit_code ev = 0.
Proof.
  intros H. unfold edit_code. rewrite (h_ready _ H), (h_alloc _ H). cbn [Z.eqb negb].
  pose proof (h_room _ H). by destruct (Nat.ltb_spec (headroom ev) 2); [lia|].
Qed.

Lemma drop_last ev dir e : healthy ev -> catalog_ok (dir ++ [e]) -> db_catalog_drop ev (dir ++ [e]) (e_id e) = (0, dir).
Proof.
  intros H Hok. assert (Hin : e ∈ dir ++ [e]) by (apply elem_of_app; right; by apply list_elem_of_singleton).
  pose proof (co_positive _ Hok) as Hp. rewrite list.Forall_forall in Hp. specialize (Hp e Hin).
  apply catalog_ok_app in Hok as (_ & _ & Hlt). unfold db_catalog_drop. rewrite (h_ready _ H), (h_graph _ H), (h_alloc _ H). cbn [Z.eqb negb].
  destruct (Z.eqb_spec (e_id e) 0); [lia|]. rewrite list_find_app_r.
  2: { apply list_find_None, list.Forall_forall. intros x Hx Ex. destruct (Hlt x e Hx); [by left|lia]. }
  cbn [list_find]. rewrite decide_True by done. cbn [fmap option_fmap option_map prod_map fst snd]. rewrite Nat.add_0_l, length_app. cbn [length].
  destruct (Nat.eqb_spec (length dir + 1) 1) as [E|]; [destruct dir; [done|cbn in E; lia]|].
  pose proof (h_room _ H). destruct (Nat.ltb_spec (headroom ev) 1); [lia|]. f_equal. by rewrite delete_middle, app_nil_r.
Qed.

Lemma put_healthy t ev dir n : healthy ev -> catalog_ok dir -> object_name n -> catalog_find_object dir n = None ->
  (length dir < CAT_MAX_TABLES)%nat ->
  db_catalog_put t ev dir (next_id dir) n = (0, dir ++ [mk_entry (next_id dir) n (empty_object t n)]).
Proof.
  intros H Hok Hn Hf Hl. assert (Ht : has_feature t ev = true) by (destruct t; [apply (h_queue _ H)|apply (h_stream _ H)]).
  pose proof (put_new t ev dir n Hok Hn Hf) as Hp. revert Hp. unfold db_catalog_put.
  rewrite (h_ready _ H), (h_graph _ H), (h_alloc _ H). cbn [Z.eqb negb]. rewrite Ht. cbn [negb].
  destruct (next_id_above dir Hok) as [Hpos Hlt]. destruct (Z.eqb_spec (next_id dir) 0); [lia|].
  destruct Hn as [Hn1 Hn2]. destruct (Nat.eqb_spec (length n) 0); [lia|].
  rewrite put_scan_free by (intros x Hx; split; [specialize (Hlt x Hx); lia|intros <-; by apply (not_found dir (e_name x) Hok (conj Hn1 Hn2) Hf x Hx)]).
  destruct (Nat.leb_spec CAT_MAX_TABLES (length dir)); [lia|]. pose proof (h_room _ H).
  destruct (Nat.ltb_spec (headroom ev) 2); [lia|]. cbn. by intros [-> _].
Qed.

Lemma bind_enqueue ev dir a a' e l : healthy ev -> catalog_find_object dir (e_name e) = Some e -> is_type CAT_QUEUE (e_object e) = true ->
  (length (e_name e) <= 31)%nat -> Z.of_nat (length l) < 2 ^ 32 -> sql_arena_alloc a BOUND_PLAN_SIZE = (true, a') ->
  sql_bind ev dir a 0 (A_ENQUEUE (e_name e) (E_LITERAL (L_TEXT l))) = Some (inr (PLAN_PUSH CAT_QUEUE (e_id e) (string_of_list_ascii l)), a').
Proof.
  intros H Hf Ht Hn Hl Ha. unfold sql_bind. rewrite (h_pax _ H), Ha. cbn [negb Nat.eqb bind_statement]. unfold bind_object, has_feature, catalog_find.
  rewrite (h_queue _ H), Hf, Ht. cbn [negb]. unfold refuse_if, unchecked, bind_payload. 
  destruct (Nat.ltb_spec 31 (length (e_name e))); [lia|]. unfold refuse_if. by destruct (Z.leb_spec (2 ^ 32) (Z.of_nat (length l))); [lia|].
Qed.

Lemma string_length l : String.length (string_of_list_ascii l) = length l.
Proof. induction l; cbn; auto. Qed.

(** Onto an empty queue. *)
Lemma push_first ev dir x l : healthy ev -> feat_leases ev = false -> catalog_ok dir -> x ∈ dir -> e_object x = OQueue new_queue ->
  Z.of_nat (length l) < 2 ^ 32 ->
  exists q, exec_push CAT_QUEUE ev dir (e_id x) (string_of_list_ascii l) = storage_done (0, set_object dir (e_id x) (OQueue q)) /\
    contents q = [string_of_list_ascii l].
Proof.
  intros H Hno Hok Hx Ex Hl. pose proof (healthy_edit _ H) as He. exists (pushed CAT_QUEUE new_queue (string_of_list_ascii l)).
  unfold exec_push. rewrite (h_queue _ H), string_length. cbn [negb]. destruct (Z.leb_spec (2 ^ 32) (Z.of_nat (length l))); [lia|].
  unfold with_queue, db_catalog_page. rewrite find_id by done. cbn. rewrite Ex.
  destruct (fifo_pushed (ctx_of ev) new_queue (string_of_list_ascii l)) as (-> & _ & Hc); try done.
  - by apply new_queue_fifo.
  - apply (h_segment _ H).
  - by rewrite string_length.
Qed.

(** A statement keeps the id it was prepared with and not the name.  ENQUEUE INTO
    [n] prepared while [n] is the newest object, stepped after [n] was dropped and a
    queue [m] was created - which takes the id that became free - puts its message
    into [m]. *)
Theorem prepared_statement_follows_the_id ev dir e l m a a' sa :
  healthy ev -> feat_leases ev = false -> catalog_ok (dir ++ [e]) -> e_id e = next_id dir -> is_type CAT_QUEUE (e_object e) = true ->
  object_name m -> catalog_find_object dir m = None -> (length dir < CAT_MAX_TABLES)%nat -> Z.of_nat (length l) < 2 ^ 32 ->
  sql_arena_alloc a BOUND_PLAN_SIZE = (true, a') ->
  exists p dir2, sql_bind ev (dir ++ [e]) a 0 (A_ENQUEUE (e_name e) (E_LITERAL (L_TEXT l))) = Some (inr p, a') /\
    db_catalog_drop ev (dir ++ [e]) (e_id e) = (0, dir) /\
    db_catalog_put CAT_QUEUE ev dir (next_id dir) m = (0, dir2) /\
    (folded (e_name e) <> folded m -> at_name dir2 (e_name e) = None) /\
    let r := sql_execute ev dir2 sa p in
    x_rc r = 0 /\ exists q, at_name (x_dir r) m = Some (OQueue q) /\ contents q = [string_of_list_ascii l].
Proof.
  intros H Hno Hok Hid Ht Hm Hfree Hlen Hl Ha.
  assert (Hin : e ∈ dir ++ [e]) by (apply elem_of_app; right; by apply list_elem_of_singleton).
  assert (Hne : object_name (e_name e)) by (pose proof (co_named _ Hok) as Hn; rewrite list.Forall_forall in Hn; by apply Hn).
  pose proof (find_name _ e (e_name e) Hok Hin (proj2 Hne) eq_refl) as Hf.
  set (x := mk_entry (next_id dir) m (OQueue new_queue)).
  assert (Hx : x ∈ dir ++ [x]) by (apply elem_of_app; right; by apply list_elem_of_singleton).
  pose proof Hok as (Hok1 & _ & Hsep)%catalog_ok_app. pose proof (put_healthy CAT_QUEUE ev dir m H Hok1 Hm Hfree Hlen) as Ep.
  pose proof (put_new CAT_QUEUE ev dir m Hok1 Hm Hfree) as Hok2. rewrite Ep in Hok2. destruct Hok2 as [_ Hok2]. fold x in Ep, Hok2.
  exists (PLAN_PUSH CAT_QUEUE (e_id e) (string_of_list_ascii l)), (dir ++ [x]). destruct Hne as [Hn1 Hn2].
  split; [apply bind_enqueue; try done; lia|]. split; [by apply drop_last|]. split; [done|]. split.
  - intros Hd. rewrite at_name_app by done. rewrite bool_decide_false by done. unfold at_name.
    destruct (catalog_find_object dir (e_name e)) as [y|] eqn:Ey; [|done]. apply found_name in Ey as [Hy Ey]; [|done..].
    destruct (Hsep y e Hy) as [_ []]; [by left|done].
  - cbn [sql_execute]. rewrite Hid. change (next_id dir) with (e_id x).
    destruct (push_first ev (dir ++ [x]) x l H Hno Hok2 Hx eq_refl Hl) as (q & -> & Hc). split; [done|].
    exists q. split; [|done]. cbn [storage_done x_dir fst snd]. rewrite at_name_set_object by (done || apply Hm). by rewrite bool_decide_true.
Qed.

(** The slot of the message a claim took. *)
Lemma claimed_slot c q now d q' pos t m : shaped q -> db_queue_claim c q now d = (0, q', pos, t) -> queue_slot_at q pos = Some m ->
  lease_find_slot q' pos = Some (take_lease (q_now q now + d) t m).
Proof.
  intros Hq E Em. pose proof E as (_ & _ & Hl & _ & m0 & Em0 & _ & _ & Eq)%claim_ok. rewrite Em in Em0. injection Em0 as <-.
  set (f := take_lease (q_now q now + d) t) in *.
  destruct (op_view c q pos f (Nat.max (S pos) (claim q)) (q_now q now) Hq Hl) as (_ & _ & _ & Hslot). rewrite <- Eq in Hslot.
  assert (Hl' : live q' pos).
  { destruct (op_fields c q pos f) as (E1 & E2 & _). rewrite Eq. unfold live. cbn [with_cursor LeaseQueue.head LeaseQueue.tail]. by rewrite E1, E2. }
  apply find_slot_live. split; [done|]. by rewrite Hslot, Nat.eqb_refl, Em.
Qed.

(** A claim asks for room after it has claimed.  A message longer than what the
    step can hold is answered with an error and no ticket, and the page staged for
    the next commit holds it leased until the deadline. *)
Theorem claim_without_room_keeps_the_lease ev dir e q q' pos t m d sa n :
  catalog_ok dir -> forallb ident_char n = true -> catalog_find_object dir n = Some e -> e_object e = OQueue q ->
  accepted (ctx_of ev) q -> db_queue_claim (ctx_of ev) q (wall_ms ev) (u64 d) = (0, q', pos, t) -> queue_slot_at q pos = Some m ->
  room_for sa (payload_length m) = false ->
  let r := sql_execute ev dir sa (PLAN_CLAIM (e_id e) d) in
  x_rc r = SQL_ERR_NO_STORAGE /\ x_message r = None /\ x_ticket r = None /\ at_name (x_dir r) n = Some (OQueue q') /\
  exists m', queue_slot_at q' pos = Some m' /\ m_payload m' = m_payload m /\ m_state m' = QMSG_STATE_CLAIMED /\
    m_until m' = q_now q (wall_ms ev) + u64 d.
Proof.
  intros Hok Hn Hf Eo Ha E Em Hroom. pose proof (page_of_name dir n e Hok Hn Hf) as Hpage. rewrite Eo in Hpage.
  pose proof (found_name _ _ _ Hf Hok Hn) as [Hin Hfold]. apply accepted_good in Ha as G. pose proof (g_shape _ _ G) as Hq.
  pose proof (claimed_slot _ _ _ _ _ _ _ m Hq E Em) as Hfs. pose proof Hfs as [_ Hslot]%find_slot_live.
  cbn [sql_execute]. unfold exec_claim. destruct (u64 d =? 0) eqn:Ed; [by unfold db_queue_claim in E; rewrite Ed in E|].
  unfold with_queue. rewrite Hpage, E. cbn [Z.eqb negb CybouDB_E_NOTFOUND]. rewrite Hfs.
  change (payload_length (take_lease _ _ m)) with (payload_length m). rewrite Hroom. cbn.
  split_and!; try done; [|by eexists]. rewrite at_name_set_object by done. by rewrite bool_decide_true.
Qed.

(** ** Examples *)

Definition demo_env : env := mk_env true true false true 0 true 10 0 0 (fun _ => 0) 1000.

Lemma demo_healthy : healthy demo_env.
Proof. by constructor; cbn; try lia. Qed.

Definition named (s : string) : name := list_ascii_of_string s.

Definition jobs_dir : list entry := [mk_entry 1 (named "jobs") (OQueue new_queue)].

Lemma jobs_dir_ok : catalog_ok jobs_dir.
Proof.
  apply catalog_ok_cons. split; [apply list.Forall_nil, I|]. split; [done|]. split; [|apply catalog_ok_nil].
  split; [vm_compute; lia|reflexivity].
Qed.

Lemma statements_touch_one_object_witness :
  let r := sql_execute demo_env jobs_dir (sql_arena_init 1000) (PLAN_CREATE CAT_STREAM 2 (named "audit")) in
  catalog_ok (x_dir r) /\ at_name (x_dir r) (named "jobs") = Some (OQueue new_queue).
Proof.
  destruct (statements_touch_one_object demo_env demo_env jobs_dir (sql_arena_init 65536) (sql_arena_init 1000) 0
    (A_CREATE_STREAM (named "audit")) (PLAN_CREATE CAT_STREAM 2 (named "audit")) (mk_arena 4512 65536 false) (named "audit"))
    as (H1 & H2 & _); [exact jobs_dir_ok|reflexivity..|].
  split; [exact H1|]. rewrite H2; [reflexivity|reflexivity|]. vm_compute. discriminate.
Defined.

Lemma prepared_statement_follows_the_id_witness :
  exists p dir2, sql_bind demo_env jobs_dir (sql_arena_init 65536) 0 (A_ENQUEUE (named "jobs") (E_LITERAL (L_TEXT (named "hello")))) =
      Some (inr p, mk_arena 416 65536 false) /\
    exists q, at_name (x_dir (sql_execute demo_env dir2 (sql_arena_init 1000) p)) (named "other") = Some (OQueue q) /\ contents q = ["hello"%string].
Proof.
  destruct (prepared_statement_follows_the_id demo_env [] (mk_entry 1 (named "jobs") (OQueue new_queue)) (named "hello") (named "other")
    (sql_arena_init 65536) (mk_arena 416 65536 false) (sql_arena_init 1000)) as (p & dir2 & E & _ & _ & _ & _ & H).
  - exact demo_healthy.
  - reflexivity.
  - exact jobs_dir_ok.
  - reflexivity.
  - reflexivity.
  - split; [vm_compute; lia|reflexivity].
  - reflexivity.
  - vm_compute. lia.
  - vm_compute. reflexivity.
  - reflexivity.
  - by exists p, dir2.
Defined.

(** CREATE checks for the name in another case when it is prepared, and only for the
    name as it is written when it is stepped: prepared before, stepped after, it
    leaves two objects of one name, and the older one cannot be reached. *)
Example created_twice :
  let dir0 := [mk_entry 1 (named "a") OSchema] in
  let p := PLAN_CREATE CAT_QUEUE 2 (named "Jobs") in
  fst <$> sql_bind demo_env dir0 (sql_arena_init 65536) 0 (A_CREATE_QUEUE (named "Jobs")) = Some (inr p) /\
  let dir1 := [mk_entry 1 (named "a") OSchema; mk_entry 3 (named "jobs") (OQueue new_queue)] in
  let r := sql_execute demo_env dir1 (sql_arena_init 1000) p in
  x_rc r = 0 /\ map e_id (x_dir r) = [1; 2; 3] /\ catalog_find CAT_QUEUE (x_dir r) (named "jobs") = Some 2.
Proof. vm_compute. auto. Qed.
