(* ===== verification/QueueText.v ===== *)
(** * QueueText: from the text of a statement to what it does

    What [cyboudb_prepare] of [src/api/cyboudb_c.asm] does with the text of a
    queue or stream statement - [sql_parse] and [sql_bind] in the arena behind the
    handle's header - and a step with the plan: the tokenizer, the parser, the
    binder, the executor and the directory composed.  A text stands for a
    statement in any layout ([SqlLayout.writes]). *)

From Stdlib Require Import String Ascii.
From stdpp Require Import gmap.
From S2P Require Import Engine Step Tokenizer Parser SqlPrint SqlLayout SqlRoundtrip LeaseQueue Dequeue Stream Catalog QueueSql Prelude.
#[local] Open Scope list_scope.

(** ** Preparing *)

Definition STMT_H_SELECT : Z := 3912.
Definition PAX_SCANOPT_SIZE : Z := 24 + 64 * 16.
Definition SQL_SELECT_SIZE : Z := 200 + PAX_SCANOPT_SIZE + 104 + 144.
Definition STMT_H_ARENA_BUF : Z := STMT_H_SELECT + SQL_SELECT_SIZE + 32768.

(** Three steps a character are enough for the parser ([ParserTotal]). *)
Definition parse_fuel (src : list ascii) : nat := 3 * length src + 2.

(** A statement that takes [size] bytes: its text parsed and bound, [.prep_fail]
    when either refuses.  [None] for a statement over tables, and for a text the
    parser does not come back from. *)
Definition compile (ev : env) (dir : list entry) (sql : string) (size : Z) : option (compiled plan) :=
  let src := list_ascii_of_string sql in
  let prep_fail (a : arena) rc msg := Some (if arena_failed a then ArenaFailed else Step.Refused rc msg) in
  match sql_parse (parse_fuel src) src (sql_arena_init (size - STMT_H_ARENA_BUF)) no_token with
  | (Parsed (st, params), a) =>
      match sql_bind ev dir a params st with
      | Some (inr p, _) => Some (Compiled p)
      | Some (inl (rc, msg), a) => prep_fail a rc msg
      | None => None
      end
  | (Rejected rc e, a) => prep_fail a rc (err_msg e)
  | (Hangs, _) => None
  end.

(** [.step_dequeue]: a message is copied into the handle, where a SELECT keeps its
    state and its decoded values. *)
Definition step_arena : arena := sql_arena_init (STMT_H_ARENA_BUF - STMT_H_SELECT).

Definition run_sql (ev : env) (dir : list entry) (sql : string) (size : Z) : option answer :=
  match compile ev dir sql size with
  | Some (Compiled p) => Some (sql_execute ev dir step_arena p)
  | _ => None
  end.

(** ** Texts *)

Definition is_text (st : ast) (sql : string) : Prop := SqlLayout.writes (statement_items st) (list_ascii_of_string sql).

(** The handle holds the syntax and the plan.  [cyboudb_prepare] doubles the size
    until it does. *)
Definition fits (st : ast) (size : Z) : Prop := statement_bytes st + BOUND_PLAN_SIZE + STMT_H_ARENA_BUF <= size < 2 ^ 63.

Lemma writes_length its src : SqlLayout.writes its src -> (length its <= length src)%nat.
Proof.
  induction 1 as [g Hg|g [ty w0] w its tl Hg [Hl _] Hap Hw IH]; [cbn; lia|]. rewrite !length_app. cbn [fst snd length] in *.
  destruct (lexes_nonempty _ _ Hl) as (c & l & ->). cbn [length]. lia.
Qed.

(** A printable statement without placeholders that has more words than its
    expressions take steps. *)
Definition simple (st : ast) : Prop :=
  printable_statement st /\ params_of (exprs st) = 0%nat /\ (steps_of (exprs st) <= 3 * length (statement_items st))%nat.

Lemma alloc_fits u cap size : 0 <= size -> u + round8 size <= cap -> cap < 2 ^ 63 -> size < 2 ^ 63 ->
  sql_arena_alloc (mk_arena u cap false) size = (true, mk_arena (u + round8 size) cap false).
Proof.
  intros Hs Hc Hcap Hsz. unfold sql_arena_alloc. cbn [arena_used arena_cap arena_failed]. pose proof (round8_bounds size).
  fold (round8 size). destruct (Z.leb_spec (2 ^ 64) (size + 7)); [lia|]. destruct (Z.leb_spec (2 ^ 64) (u + round8 size)); [lia|].
  by destruct (Z.ltb_spec cap (u + round8 size)); [lia|].
Qed.

Lemma parse_simple st sql size : simple st -> is_text st sql -> fits st size ->
  exists u, sql_parse (parse_fuel (list_ascii_of_string sql)) (list_ascii_of_string sql) (sql_arena_init (size - STMT_H_ARENA_BUF)) no_token
    = (Parsed (st, 0%nat), mk_arena u (size - STMT_H_ARENA_BUF) false) /\ u <= statement_bytes st.
Proof.
  intros (Hp & Hpar & Hs) Ht Hfit. unfold fits, BOUND_PLAN_SIZE in *. change STMT_H_ARENA_BUF with 38176 in *. set (cap := size - _).
  destruct (parse_statement_text st (list_ascii_of_string sql) (parse_fuel (list_ascii_of_string sql)) cap no_token) as (u & E & Hu); try done.
  - unfold cap. lia.
  - unfold cap. lia.
  - pose proof (writes_length _ _ Ht). unfold parse_fuel. lia.
  - rewrite Hpar in E. exists u. split; [exact E|lia].
Qed.

(** The text of a statement that binds runs its plan. *)
Lemma run_text ev dir st sql size p : feat_pax ev = true -> simple st -> is_text st sql -> fits st size ->
  (forall u, u <= statement_bytes st -> exists a, bind_statement ev dir (mk_arena (u + BOUND_PLAN_SIZE) (size - STMT_H_ARENA_BUF) false) st = Some (inr p, a)) ->
  run_sql ev dir sql size = Some (sql_execute ev dir step_arena p).
Proof.
  intros Hpax Hst Ht Hfit Hb. destruct (parse_simple st sql size Hst Ht Hfit) as (u & E & Hu).
  unfold run_sql, compile. rewrite E. unfold sql_bind. rewrite Hpax. cbn [negb]. unfold fits in Hfit. change STMT_H_ARENA_BUF with 38176 in *.
  rewrite alloc_fits; [|done|change (round8 _) with 416; unfold BOUND_PLAN_SIZE in *; lia..]. cbn [negb Nat.eqb].
  change (round8 BOUND_PLAN_SIZE) with BOUND_PLAN_SIZE. by destruct (Hb u Hu) as [a ->].
Qed.
