(* ===== verification/QueueContract.v ===== *)
(** * QueueContract: the statements of a queue, from the name to the contract

    [QueueText] over [LeaseRefine], [Dequeue] and [Stream]: what the text of a
    statement, prepared and stepped, answers and leaves, in terms of the messages a
    queue has held, the messages it holds, and the records and readers of a
    stream. *)

From Stdlib Require Import String Ascii.
From stdpp Require Import gmap.
From S2P Require Import Tokenizer Parser SqlPrint SqlRoundtrip LeaseQueue Dequeue Stream Catalog QueueSql QueueText LeasedWorker LeaseRefine Prelude.
#[local] Open Scope list_scope.

(** Under [n] there is [o], and under every other name what there was. *)
Definition leaves (dir : list entry) (n : name) (r : answer) (o : object) : Prop :=
  catalog_ok (x_dir r) /\ forall m, forallb ident_char m = true ->
    at_name (x_dir r) m = if bool_decide (folded m = folded n) then Some o else at_name dir m.

Definition nothing_taken (r : answer) : Prop := x_message r = None /\ x_ticket r = None.

(** What every text of [st] answers, in a handle that holds the statement. *)
Definition answers (ev : env) (dir : list entry) (st : ast) (Q : answer -> Prop) : Prop :=
  forall sql size, is_text st sql -> fits st size -> exists r, run_sql ev dir sql size = Some r /\ Q r.

Lemma name_chars n : is_name n -> forallb ident_char n = true.
Proof.
  intros [Hw _]. destruct n as [|c l]; [done|]. cbn [wordlike forallb] in *. apply andb_true_iff in Hw as [Hc ->]. rewrite andb_true_r.
  pose proof (every_char_spec (fun c => implb (ident_start c) (ident_char c)) c ltac:(vm_compute; reflexivity)) as Hi.
  cbv beta in Hi. by rewrite Hc in Hi.
Qed.

Section statements.
Context (ev : env) (dir : list entry) (n : name) (e : entry).
Context (Hok : catalog_ok dir) (Hn : forallb ident_char n = true) (Hf : catalog_find_object dir n = Some e).
Context (H : healthy ev).

Lemma e_here : e ∈ dir /\ folded n = folded (e_name e) /\ db_catalog_page dir (e_id e) = Some (e_object e).
Proof using Hok Hn Hf.
  destruct (found_name _ _ _ Hf Hok Hn). split_and!; [done..|]. by apply (page_of_name dir n).
Qed.

Lemma name_short : (31 <? length n)%nat = false.
Proof using Hf. unfold catalog_find_object in Hf. by destruct (31 <? _)%nat. Qed.

Lemma leaves_set r o : x_dir r = set_object dir (e_id e) o -> leaves dir n r o.
Proof using Hok Hn Hf.
  intros E. destruct e_here as (Hin & Hfold & _). unfold leaves. rewrite E. split; [by apply set_object_ok|].
  intros m Hm. rewrite at_name_set_object by done. by rewrite Hfold.
Qed.

Lemma leaves_same r o : x_dir r = dir -> e_object e = o -> leaves dir n r o.
Proof using Hok Hn Hf.
  intros E <-. unfold leaves. rewrite E. split; [done|]. intros m Hm. case_bool_decide as Em; [|done].
  destruct e_here as (Hin & Hfold & _). unfold at_name. by rewrite (find_name dir e m) by (done || congruence).
Qed.

(** Binding resolves the name. *)
Lemma bind_here t checked k p : has_feature t ev = true -> is_type t (e_object e) = true ->
  (forall x, checked x = x) -> k (e_id e) = inr p -> bind_object t ev dir n checked k = inr p.
Proof using Hf.
  intros Hft Ht Hc Hk. unfold bind_object, catalog_find. by rewrite Hft, name_short, Hf, Ht, Hc.
Qed.

Lemma bind_to st p (Q : answer -> Prop) : simple st -> (forall a, bind_statement ev dir a st = Some (inr p, a)) ->
  Q (sql_execute ev dir step_arena p) -> answers ev dir st Q.
Proof using H.
  intros Hs E HQ sql size Ht Hfit. eexists. split; [|exact HQ]. apply (run_text ev dir st); [apply (h_pax _ H)|done..|]. eauto.
Qed.

(** *** Leases *)

Context (Hlease : feat_leases ev = true).

Lemma run_lease k st (Q : answer -> Prop) : is_type CAT_QUEUE (e_object e) = true -> simple st ->
  (forall a, bind_statement ev dir a st = Some (bind_lease ev dir n k, a)) ->
  Q (sql_execute ev dir step_arena (k (e_id e))) -> answers ev dir st Q.
Proof using Hf H Hlease.
  intros Ht Hs E. apply bind_to; [done|]. intros a. rewrite E. unfold bind_lease. rewrite (h_queue _ H), Hlease. cbn [negb refuse_if].
  by erewrite bind_here by (done || apply (h_queue _ H)).
Qed.
End statements.

Lemma position_small x : 0 <= x < 2 ^ 63 -> N.of_nat (position x) = Z.to_N x.
Proof. intros Hx. unfold position. rewrite u64_small by lia. lia. Qed.

Lemma first_claimable_lookup now l i j : first_claimable now l = Some (i, j) -> l !! i = Some j.
Proof.
  revert i. induction l as [|x l IH]; intros i; cbn; [done|]. destruct (may_claim now x); [by intros [= <- <-]|].
  destruct (first_claimable now l) as [[k y]|]; [|done]. intros [= <- <-]. by apply IH.
Qed.

Section leases.
Context (ev : env) (dir : list entry) (n : name) (e : entry) (sa : arena) (q : queue) (l : list job).
Context (Hok : catalog_ok dir) (Hn : forallb ident_char n = true) (Hf : catalog_find_object dir n = Some e) (Eo : e_object e = OQueue q).
Context (H : healthy ev).
Context (Hacc : accepted (ctx_of ev) q) (Hj : holds_jobs q l).

Let G : good (ctx_of ev) q := proj1 (accepted_good _ _) Hacc.
Let He : db_catalog_edit (ctx_of ev) = 0 := healthy_edit ev H.
Let Hc : db_page_copy (ctx_of ev) = 0 := h_segment ev H.

Lemma page_here : db_catalog_page dir (e_id e) = Some (OQueue q).
Proof using Hok Hn Hf Eo. rewrite <- Eo. by apply (page_of_name dir n). Qed.

(** What an operation that answers nothing but a code comes to. *)
Lemma on_queue_leaves rc q' : leaves dir n (on_queue dir (e_id e) (rc, q')) (OQueue q').
Proof using Hok Hn Hf. by eapply leaves_set. Qed.

Lemma claim_statement d : 0 <= wall_ms ev -> 0 < d < 2 ^ 63 -> q_now q (wall_ms ev) + d <= UINT64_MAX ->
  Forall (fun j => room_for sa (Z.of_nat (String.length (payload j))) = true) l ->
  let r := sql_execute ev dir sa (PLAN_CLAIM (e_id e) d) in
  match contract_claim (Z.to_N (q_now q (wall_ms ev))) (Z.to_N d) l with
  | None => x_rc r = 0 /\ nothing_taken r /\ leaves dir n r (OQueue q)
  | Some (i, j, l') =>
      (token j = 2 ^ 64)%N /\ x_rc r = CybouDB_E_VALUE /\ nothing_taken r /\ leaves dir n r (OQueue q) \/
      x_rc r = 0 /\ x_message r = Some (payload j) /\ x_ticket r = Some (i, Z.of_N (token j)) /\
      exists q', leaves dir n r (OQueue q') /\ accepted (ctx_of ev) q' /\ holds_jobs q' l'
  end.
Proof using Hok Hn Hf Eo H Hacc Hj.
  intros Hw Hd Ho Hroom r. pose proof (claim_refines (ctx_of ev) q l G Hj He Hc (wall_ms ev) d Hw ltac:(lia) Ho) as Hcl.
  assert (Er : r = exec_claim ev dir sa (e_id e) d) by done. clearbody r. unfold exec_claim in Er. rewrite u64_small in Er by lia.
  destruct (Z.eqb_spec d 0); [lia|]. unfold with_queue in Er. rewrite page_here in Er.
  destruct (contract_claim _ _ l) as [[[i j] l']|] eqn:Ec.
  2: { rewrite Hcl in Er. cbn in Er. rewrite Er. split; [done|]. split; [done|]. by eapply leaves_set. }
  destruct Hcl as [[Ht E]|(q' & E & Hj')].
  - left. rewrite E in Er. cbn in Er. rewrite Er. split_and!; try done. by eapply leaves_set.
  - right. pose proof E as (_ & _ & _ & _ & m & Em & _ & _ & _)%claim_ok. pose proof (g_shape _ _ G) as Hq.
    pose proof (claimed_slot _ _ _ _ _ _ _ m Hq E Em) as Hfs. pose proof Hfs as [Hl' Hs']%find_slot_live.
    pose proof (hj_live _ _ Hj' _ _ Hl' Hs') as Hjob.
    assert (Ej : payload j = m_payload m /\ exists j0, l !! i = Some j0 /\ payload j0 = m_payload m).
    { unfold contract_claim in Ec. destruct (first_claimable _ l) as [[i0 j0]|] eqn:Efc; [|done]. injection Ec as <- <- <-.
      assert (Hlt : (i0 < length l)%nat) by (apply lookup_lt_Some in Hjob; by rewrite length_insert in Hjob).
      rewrite list_lookup_insert_eq in Hjob by done. injection Hjob as Hp _ _. cbn [payload] in *. split; [done|].
      exists j0. split; [|done]. by apply first_claimable_lookup in Efc. }
    destruct Ej as (Ej & j0 & Hj0 & Ej0). rewrite E in Er. cbn [Z.eqb negb CybouDB_E_NOTFOUND] in Er. rewrite Hfs in Er.
    change (payload_length (take_lease _ _ m)) with (Z.of_nat (String.length (m_payload m))) in Er.
    rewrite Forall_lookup in Hroom. specialize (Hroom i j0 Hj0). rewrite Ej0 in Hroom. rewrite Hroom in Er. cbn [negb] in Er.
    rewrite (slot_copy_ok (chain ev) (h_chain _ H)) in Er. cbn [Z.eqb negb] in Er. rewrite Er. cbn [x_rc x_message x_ticket].
    split; [done|]. split; [by rewrite Ej|]. split; [done|]. exists q'. split; [by eapply leaves_set|]. split; [|done].
    apply accepted_good. apply (claim_good _ _ _ _ _ _ _ G Hw) with (2 := E); lia.
Qed.

(** A code and a queue: what the three operations on a ticket come to. *)
Definition ticket_answer (r : answer) (refused : Z -> Prop) (done_ : option (list job)) : Prop :=
  nothing_taken r /\
  match done_ with
  | Some l' => x_rc r = 0 /\ exists q', leaves dir n r (OQueue q') /\ accepted (ctx_of ev) q' /\ holds_jobs q' l'
  | None => refused (x_rc r) /\ leaves dir n r (OQueue q)
  end.

Lemma ack_statement pos t : 0 <= pos < 2 ^ 63 -> 0 <= t < 2 ^ 63 ->
  ticket_answer (sql_execute ev dir sa (PLAN_ACK (e_id e) pos t)) (fun rc => rc = CybouDB_E_LEASE) (contract_ack (Z.to_N pos) (Z.to_N t) l).
Proof using Hok Hn Hf Eo H Hacc Hj.
  intros Hp Ht. pose proof (ack_refines (ctx_of ev) q l G Hj He Hc (position pos) t ltac:(lia)) as Hr. rewrite position_small in Hr by done.
  cbn [sql_execute]. unfold with_queue. rewrite page_here, (u64_small t) by lia. split; [done|].
  destruct (contract_ack _ _ l) as [l'|]; [|rewrite Hr; split; [done|apply on_queue_leaves]].
  destruct Hr as (q' & E & Hj'). rewrite E. split; [done|]. exists q'. split; [apply on_queue_leaves|]. split; [|done].
  apply accepted_good. by eapply ack_good.
Qed.

Lemma nack_statement pos t : 0 <= pos < 2 ^ 63 -> 0 <= t < 2 ^ 63 ->
  ticket_answer (sql_execute ev dir sa (PLAN_NACK (e_id e) pos t)) (fun rc => rc <> 0) (contract_nack (Z.to_N pos) (Z.to_N t) l).
Proof using Hok Hn Hf Eo H Hacc Hj.
  intros Hp Ht. pose proof (nack_refines (ctx_of ev) q l G Hj He Hc (position pos) t ltac:(lia)) as Hr. rewrite position_small in Hr by done.
  cbn [sql_execute]. unfold with_queue. rewrite page_here, (u64_small t) by lia. split; [done|].
  destruct (contract_nack _ _ l) as [l'|]; [|destruct Hr as (rc & Hrc & ->); split; [done|apply on_queue_leaves]].
  destruct Hr as [[-> _]|(q' & E & Hj')]; [unfold UINT64_MAX in Ht; lia|]. rewrite E. split; [done|]. exists q'.
  split; [apply on_queue_leaves|]. split; [|done]. apply accepted_good. by eapply nack_good.
Qed.

Lemma renew_statement pos t d : 0 <= wall_ms ev -> 0 <= pos < 2 ^ 63 -> 0 <= t < 2 ^ 63 -> 0 < d < 2 ^ 63 ->
  q_now q (wall_ms ev) + d <= UINT64_MAX ->
  ticket_answer (sql_execute ev dir sa (PLAN_RENEW (e_id e) pos t d)) (fun rc => rc = CybouDB_E_LEASE)
    (contract_renew (Z.to_N (q_now q (wall_ms ev))) (Z.to_N d) (Z.to_N pos) (Z.to_N t) l).
Proof using Hok Hn Hf Eo H Hacc Hj.
  intros Hw Hp Ht Hd Ho.
  pose proof (renew_refines (ctx_of ev) q l G Hj He Hc (position pos) t (wall_ms ev) d ltac:(lia) Hw ltac:(lia) Ho) as Hr. rewrite position_small in Hr by done.
  cbn [sql_execute]. unfold with_queue. rewrite page_here, (u64_small t), (u64_small d) by lia. destruct (Z.eqb_spec d 0); [lia|]. split; [done|].
  destruct (contract_renew _ _ _ _ l) as [l'|]; [|rewrite Hr; split; [done|apply on_queue_leaves]].
  destruct Hr as (q' & E & Hj'). rewrite E. split; [done|]. exists q'. split; [apply on_queue_leaves|]. split; [|done].
  apply accepted_good. apply (renew_good _ _ _ _ _ _ _ G Hw) with (2 := E). lia.
Qed.
End leases.

(** A step has room for a message of this length. *)
Lemma step_room len : 0 <= len <= STMT_H_ARENA_BUF - STMT_H_SELECT -> room_for step_arena len = true.
Proof.
  intros Hl. unfold room_for, sql_arena_alloc, step_arena, sql_arena_init. cbn [arena_used arena_cap arena_failed].
  change (STMT_H_ARENA_BUF - STMT_H_SELECT) with 34264 in *. set (k := if len =? 0 then 1 else len).
  assert (Hk : 1 <= k <= 34264) by (unfold k; destruct (Z.eqb_spec len 0); lia). clearbody k.
  pose proof (Z.div_mod (k + 7) 8 ltac:(lia)). pose proof (Z.mod_pos_bound (k + 7) 8 ltac:(lia)).
  destruct (Z.leb_spec (2 ^ 64) (k + 7)); [lia|]. destruct (Z.leb_spec (2 ^ 64) (0 + 8 * ((k + 7) / 8))); [lia|].
  destruct (Z.ltb_spec 34264 (0 + 8 * ((k + 7) / 8))); [lia|done].
Qed.

(** The statements of a lease have few expressions and many words. *)
Lemma bits_length v : (1 <= length (bits_items v))%nat.
Proof. unfold bits_items, number_items. destruct (_ <? 0); cbn; lia. Qed.

Ltac simple_statement := split; [cbn [printable_statement]; unfold whole_number; split_and?; done || lia|]; split; [done|];
  cbn [exprs steps_of steps statement_items]; unfold ticket_items; cbn [app length]; rewrite ?length_app; cbn [app length]; rewrite ?length_app;
  repeat match goal with |- context [length (bits_items ?v)] => pose proof (bits_length v); generalize dependent (length (bits_items v)); intros end; lia.

Ltac payload_statement := split; [split_and!; done || (cbn; lia)|]; split; [done|]; cbn [exprs steps_of steps statement_items length]; lia.

Section lease_texts.
Context (ev : env) (dir : list entry) (n : name) (e : entry) (q : queue) (l : list job).
Context (Hok : catalog_ok dir) (Hn : is_name n) (Hf : catalog_find_object dir n = Some e) (Eo : e_object e = OQueue q).
Context (H : healthy ev) (Hl : feat_leases ev = true) (Hacc : accepted (ctx_of ev) q) (Hj : holds_jobs q l) (Hw : 0 <= wall_ms ev).
Context (Hroom : Forall (fun j => Z.of_nat (String.length (payload j)) <= STMT_H_ARENA_BUF - STMT_H_SELECT) l).

Let now := q_now q (wall_ms ev).
Let Hi : forallb ident_char n = true := name_chars n Hn.

Lemma is_queue : is_type CAT_QUEUE (e_object e) = true.
Proof using Eo. by rewrite Eo. Qed.

(** What CLAIM answers. *)
Definition claim_answer (d : Z) (r : answer) : Prop :=
  match contract_claim (Z.to_N now) (Z.to_N d) l with
  | None => x_rc r = 0 /\ nothing_taken r /\ leaves dir n r (OQueue q)
  | Some (i, j, l') =>
      (token j = 2 ^ 64)%N /\ x_rc r = CybouDB_E_VALUE /\ nothing_taken r /\ leaves dir n r (OQueue q) \/
      x_rc r = 0 /\ x_message r = Some (payload j) /\ x_ticket r = Some (i, Z.of_N (token j)) /\
      exists q', leaves dir n r (OQueue q') /\ accepted (ctx_of ev) q' /\ holds_jobs q' l'
  end.

Lemma claim_answers d : 0 < d < 2 ^ 63 -> now + d <= UINT64_MAX -> answers ev dir (A_CLAIM n d) (claim_answer d).
Proof using Hok Hn Hf Eo H Hl Hacc Hj Hw Hroom.
  intros Hd Ho. eapply (run_lease _ _ _ _ Hf H Hl (fun id => PLAN_CLAIM id d)); [apply is_queue|simple_statement|done|].
  apply claim_statement; try done. revert Hroom. apply Forall_impl. intros j Hle. apply step_room. lia.
Qed.

Lemma ack_answers pos t : 0 <= pos < 2 ^ 63 -> 0 <= t < 2 ^ 63 -> answers ev dir (A_ACK n pos t) (fun r =>
  ticket_answer ev dir n q r (fun rc => rc = CybouDB_E_LEASE) (contract_ack (Z.to_N pos) (Z.to_N t) l)).
Proof using Hok Hn Hf Eo H Hl Hacc Hj.
  intros Hp Ht. eapply (run_lease _ _ _ _ Hf H Hl (fun id => PLAN_ACK id pos t)); [apply is_queue|simple_statement|done|]. by eapply ack_statement.
Qed.

Lemma nack_answers pos t : 0 <= pos < 2 ^ 63 -> 0 <= t < 2 ^ 63 -> answers ev dir (A_NACK n pos t) (fun r =>
  ticket_answer ev dir n q r (fun rc => rc <> 0) (contract_nack (Z.to_N pos) (Z.to_N t) l)).
Proof using Hok Hn Hf Eo H Hl Hacc Hj.
  intros Hp Ht. eapply (run_lease _ _ _ _ Hf H Hl (fun id => PLAN_NACK id pos t)); [apply is_queue|simple_statement|done|]. by eapply nack_statement.
Qed.

Lemma renew_answers pos t d : 0 <= pos < 2 ^ 63 -> 0 <= t < 2 ^ 63 -> 0 < d < 2 ^ 63 -> now + d <= UINT64_MAX ->
  answers ev dir (A_RENEW n pos t d) (fun r =>
    ticket_answer ev dir n q r (fun rc => rc = CybouDB_E_LEASE) (contract_renew (Z.to_N now) (Z.to_N d) (Z.to_N pos) (Z.to_N t) l)).
Proof using Hok Hn Hf Eo H Hl Hacc Hj Hw.
  intros Hp Ht Hd Ho. eapply (run_lease _ _ _ _ Hf H Hl (fun id => PLAN_RENEW id pos t d)); [apply is_queue|simple_statement|done|].
  by eapply renew_statement.
Qed.
End lease_texts.

(** C7: the lease statements do to the queue they name what the contract says.  On
    a database with leases whose pages can be written, every text of CLAIM, ACK,
    NACK and RENEW, whatever its layout, goes through the tokenizer, the parser and
    the binder, and stepped answers as the contract answers on the messages the
    queue has held: the bytes and the ticket of the first claimable message or
    nothing, a code for a ticket that is not honoured; the queue it leaves is one
    the validator accepts and holds what the contract leaves, and every other
    object of the directory is untouched.  The handle has to hold the statement, a
    step the message, and 64 bits the deadline. *)
Theorem lease_statements_follow_contract ev dir n e q l :
  catalog_ok dir -> is_name n -> catalog_find_object dir n = Some e -> e_object e = OQueue q ->
  healthy ev -> feat_leases ev = true -> accepted (ctx_of ev) q -> holds_jobs q l -> 0 <= wall_ms ev ->
  Forall (fun j => Z.of_nat (String.length (payload j)) <= STMT_H_ARENA_BUF - STMT_H_SELECT) l ->
  let now := q_now q (wall_ms ev) in
  (forall d, 0 < d < 2 ^ 63 -> now + d <= UINT64_MAX -> answers ev dir (A_CLAIM n d) (claim_answer ev dir n q l d)) /\
  forall pos t, 0 <= pos < 2 ^ 63 -> 0 <= t < 2 ^ 63 ->
    answers ev dir (A_ACK n pos t) (fun r =>
      ticket_answer ev dir n q r (fun rc => rc = CybouDB_E_LEASE) (contract_ack (Z.to_N pos) (Z.to_N t) l)) /\
    answers ev dir (A_NACK n pos t) (fun r => ticket_answer ev dir n q r (fun rc => rc <> 0) (contract_nack (Z.to_N pos) (Z.to_N t) l)) /\
    forall d, 0 < d < 2 ^ 63 -> now + d <= UINT64_MAX -> answers ev dir (A_RENEW n pos t d) (fun r =>
      ticket_answer ev dir n q r (fun rc => rc = CybouDB_E_LEASE) (contract_renew (Z.to_N now) (Z.to_N d) (Z.to_N pos) (Z.to_N t) l)).
Proof.
  intros Hok Hn Hf Eo H Hl Hacc Hj Hw Hroom now. split; [intros; by eapply claim_answers|]. intros pos t Hp Ht. split; [|split].
  - by eapply ack_answers.
  - by eapply nack_answers.
  - intros. by eapply renew_answers.
Qed.

(** ** Queues without leases, and streams *)

(** A name as the reader of a stream. *)
Lemma reader_ok reader : forallb ident_char reader = true -> (1 <= length reader <= SCUR_NAME_MAX)%nat -> name_ok (map code reader).
Proof.
  intros Hi Hl. split_and!.
  - by destruct reader; [cbn in Hl; lia|].
  - rewrite length_map. lia.
  - apply list.Forall_forall. intros b (c & -> & Hin)%list_elem_of_fmap E0. rewrite List.forallb_forall in Hi.
    apply list_elem_of_In, Hi, in_ident_chars in Hin.
    assert (Hz : List.forallb (fun c => negb (code c =? 0)) ident_chars = true) by (vm_compute; reflexivity).
    rewrite List.forallb_forall in Hz. specialize (Hz c Hin). rewrite E0 in Hz. done.
Qed.

Lemma push_length x : Z.of_nat (length x) < 2 ^ 32 -> (2 ^ 32 <=? Z.of_nat (String.length (string_of_list_ascii x))) = false.
Proof. intros Hx. rewrite string_length. apply Z.leb_gt. done. Qed.

Section objects.
Context (ev : env) (dir : list entry) (n : name) (e : entry) (sa : arena).
Context (Hok : catalog_ok dir) (Hn : forallb ident_char n = true) (Hf : catalog_find_object dir n = Some e).
Context (H : healthy ev).

Let He : db_catalog_edit (ctx_of ev) = 0 := healthy_edit ev H.
Let Hc : db_page_copy (ctx_of ev) = 0 := h_segment ev H.

Lemma run_object t k st p (Q : answer -> Prop) : is_type t (e_object e) = true -> simple st ->
  (forall a, bind_statement ev dir a st = Some (bind_object t ev dir n unchecked k, a)) -> k (e_id e) = inr p ->
  Q (sql_execute ev dir step_arena p) -> answers ev dir st Q.
Proof using Hf H.
  intros Ht Hs E Hk. apply (bind_to ev dir H); [done|]. intros a. rewrite E. do 2 f_equal.
  apply (bind_here ev dir n e Hf); try done. destruct t; [apply (h_queue _ H)|apply (h_stream _ H)].
Qed.

Lemma run_cursor k st reader (Q : answer -> Prop) : is_type CAT_STREAM (e_object e) = true -> simple st ->
  (forall a, bind_statement ev dir a st = Some (bind_cursor ev dir n reader k, a)) ->
  (1 <= length reader <= SCUR_NAME_MAX)%nat ->
  Q (sql_execute ev dir step_arena (k (e_id e) (map code reader))) -> answers ev dir st Q.
Proof using Hf H.
  intros Ht Hs E Hr. apply (bind_to ev dir H); [done|]. intros a. rewrite E. do 2 f_equal. unfold bind_cursor.
  destruct (Nat.ltb_spec SCUR_NAME_MAX (length reader)); [lia|]. destruct (Nat.eqb_spec (length reader) 0); [lia|].
  apply (bind_here ev dir n e Hf); try done. apply (h_stream _ H).
Qed.

Lemma page_is o : e_object e = o -> db_catalog_page dir (e_id e) = Some o.
Proof using Hok Hn Hf. intros <-. by apply (page_of_name dir n). Qed.

Lemma enqueue_statement q x : e_object e = OQueue q -> fifo_ok (ctx_of ev) q -> Z.of_nat (length x) < 2 ^ 32 ->
  let r := sql_execute ev dir sa (PLAN_PUSH CAT_QUEUE (e_id e) (string_of_list_ascii x)) in
  nothing_taken r /\ if full CAT_QUEUE q then x_rc r = CybouDB_E_FULL /\ leaves dir n r (OQueue q)
  else x_rc r = 0 /\ exists q', leaves dir n r (OQueue q') /\ fifo_ok (ctx_of ev) q' /\ contents q' = contents q ++ [string_of_list_ascii x].
Proof using Hok Hn Hf H.
  intros Eo F Hx. cbn [sql_execute]. unfold exec_push. rewrite (h_queue _ H), push_length by done. cbn [negb]. unfold with_queue.
  rewrite (page_is _ Eo). unfold on_queue, db_queue_push. split; [done|].
  rewrite push_answers by (done || apply F). rewrite push_length by done. destruct (full CAT_QUEUE q) eqn:Efull.
  - split; [done|]. by eapply leaves_set.
  - split; [done|]. destruct (fifo_pushed _ _ (string_of_list_ascii x) F He Hc) as (_ & F' & Hcon); [by rewrite string_length|done|].
    exists (pushed CAT_QUEUE q (string_of_list_ascii x)). split; [by eapply leaves_set|done].
Qed.

Lemma dequeue_statement q : e_object e = OQueue q -> fifo_ok (ctx_of ev) q ->
  let r := sql_execute ev dir sa (PLAN_DEQUEUE (e_id e)) in
  match contents q with
  | [] => x_rc r = 0 /\ nothing_taken r /\ leaves dir n r (OQueue q)
  | x :: rest =>
      if room_for sa (Z.of_nat (String.length x)) then
        x_rc r = 0 /\ x_message r = Some x /\ exists q', leaves dir n r (OQueue q') /\ fifo_ok (ctx_of ev) q' /\ contents q' = rest
      else x_rc r = SQL_ERR_NO_STORAGE /\ nothing_taken r /\ leaves dir n r (OQueue q)
  end.
Proof using Hok Hn Hf H.
  intros Eo F r. assert (Er : r = exec_dequeue ev dir sa (e_id e)) by done. clearbody r. unfold exec_dequeue in Er.
  rewrite (h_queue _ H) in Er. cbn [negb] in Er. unfold with_queue in Er. rewrite (page_is _ Eo) in Er.
  pose proof (fifo_pop (ctx_of ev) (chain ev) He (h_chain _ H) q F) as Hp. unfold db_queue_peek in Er. pose proof (length_contents q) as Hlen.
  pose proof (sh_order _ (f_shape _ _ F)) as Ho. destruct (Nat.eqb_spec (LeaseQueue.head q) (LeaseQueue.tail q)) as [E|Hne].
  - destruct (contents q); [|cbn in Hlen; lia]. cbn in Er. rewrite Er. split; [done|]. split; [done|]. by eapply leaves_same.
  - assert (Hlt : (LeaseQueue.head q < LeaseQueue.tail q)%nat) by lia. rewrite contents_cons in * by done.
    cbn [Z.eqb negb CybouDB_E_NOTFOUND] in Er. unfold payload_length in Er. set (x := m_payload _) in *.
    destruct (room_for sa _); cbn [negb] in Er.
    + rewrite Hp in Er. cbn in Er. rewrite Er. split; [done|]. split; [done|]. exists (popped q). split; [by eapply leaves_set|].
      split; [by apply fifo_popped|]. rewrite contents_popped, contents_cons by (done || apply F). done.
    + rewrite Er. split; [done|]. split; [done|]. by eapply leaves_same.
Qed.

(** A code and a stream: what APPEND, TRIM and the cursor statements come to. *)
Definition stream_answer (r : answer) (spec : Z * astream) : Prop :=
  nothing_taken r /\ exists s', leaves dir n r (OStream s') /\ stream_ok (sctx_of ev) s' /\ (x_rc r, abs s') = spec.

Lemma on_stream_answer rs spec : (let '(rc, s') := rs in stream_ok (sctx_of ev) s' /\ (rc, abs s') = spec) ->
  stream_answer (on_stream dir (e_id e) rs) spec.
Proof using Hok Hn Hf. destruct rs as [rc s']. intros [O E]. split; [done|]. exists s'. split; [by eapply leaves_set|done]. Qed.

Lemma read_statement s reader : e_object e = OStream s -> stream_ok (sctx_of ev) s -> name_ok reader ->
  let r := sql_execute ev dir sa (PLAN_READ (e_id e) reader) in
  match a_read (abs s) reader with
  | (rc, a1, x) =>
      if rc =? 0 then
        if room_for sa (Z.of_nat (String.length x)) then
          x_rc r = 0 /\ x_message r = Some x /\ exists s', leaves dir n r (OStream s') /\ stream_ok (sctx_of ev) s' /\ abs s' = a1
        else x_rc r = SQL_ERR_NO_STORAGE /\ nothing_taken r /\ leaves dir n r (OStream s)
      else x_rc r = (if rc =? CybouDB_E_NOTFOUND then 0 else rc) /\ nothing_taken r /\ leaves dir n r (OStream s)
  end.
Proof using Hok Hn Hf H.
  intros Eo O Hr r. assert (Er : r = exec_read ev dir sa (e_id e) reader) by done. clearbody r. unfold exec_read, with_stream in Er.
  rewrite (page_is _ Eo) in Er. pose proof (peek_spec (sctx_of ev) s O reader Hr) as Hk.
  destruct (a_read (abs s) reader) as [[rc a1] x] eqn:Ea. destruct (Z.eqb_spec rc 0) as [->|Hne].
  - destruct Hk as (i & p & Ek & Ei). rewrite Ek in Er. cbn [Z.eqb negb CybouDB_E_NOTFOUND] in Er.
    pose proof (read_spec (sctx_of ev) He (h_chain _ H) s O reader i p Hr Ei) as Hread. destruct (db_stream_read _ s i) as [[rc' s'] x'].
    rewrite Ea in Hread. destruct Hread as [O' [= -> <- ->]]. destruct (room_for sa _); cbn [negb Z.eqb CybouDB_E_NOTFOUND] in Er.
    + rewrite Er. split; [done|]. split; [done|]. exists s'. split; [by eapply leaves_set|done].
    + rewrite Er. split; [done|]. split; [done|]. by eapply leaves_same.
  - assert (Hk' : exists i, db_stream_peek (sctx_of ev) s reader = (rc, 0, i)) by (by destruct rc). destruct Hk' as [i Ek]. rewrite Ek in Er.
    destruct (rc =? CybouDB_E_NOTFOUND); [|destruct (Z.eqb_spec rc 0); [done|]; cbn [negb] in Er];
      (rewrite Er; split; [done|]; split; [done|]; by eapply leaves_same).
Qed.
End objects.

(** *** Their texts *)

Section object_texts.
Context (ev : env) (dir : list entry) (n : name) (e : entry).
Context (Hok : catalog_ok dir) (Hname : is_name n) (Hf : catalog_find_object dir n = Some e) (H : healthy ev).

Let Hn : forallb ident_char n = true := name_chars n Hname.
Let He : db_catalog_edit (ctx_of ev) = 0 := healthy_edit ev H.
Let Hc : db_page_copy (ctx_of ev) = 0 := h_segment ev H.

Lemma bind_text t x id : Z.of_nat (length x) < 2 ^ 32 -> bind_payload t (E_LITERAL (L_TEXT x)) id = inr (PLAN_PUSH t id (string_of_list_ascii x)).
Proof. intros Hx. unfold bind_payload, refuse_if. by destruct (Z.leb_spec (2 ^ 32) (Z.of_nat (length x))); [lia|]. Qed.

(** What ENQUEUE, DEQUEUE and READ answer. *)
Definition enqueue_answer (q : queue) (x : string) (r : answer) : Prop :=
  nothing_taken r /\ if full CAT_QUEUE q then x_rc r = CybouDB_E_FULL /\ leaves dir n r (OQueue q)
  else x_rc r = 0 /\ exists q', leaves dir n r (OQueue q') /\ fifo_ok (ctx_of ev) q' /\ contents q' = contents q ++ [x].

Definition dequeue_answer (q : queue) (r : answer) : Prop :=
  match contents q with
  | [] => x_rc r = 0 /\ nothing_taken r /\ leaves dir n r (OQueue q)
  | x :: rest =>
      if room_for step_arena (Z.of_nat (String.length x)) then
        x_rc r = 0 /\ x_message r = Some x /\ exists q', leaves dir n r (OQueue q') /\ fifo_ok (ctx_of ev) q' /\ contents q' = rest
      else x_rc r = SQL_ERR_NO_STORAGE /\ nothing_taken r /\ leaves dir n r (OQueue q)
  end.

Definition read_answer (s : stream) (reader : list Z) (r : answer) : Prop :=
  let '(rc, a1, x) := a_read (abs s) reader in
  if rc =? 0 then
    if room_for step_arena (Z.of_nat (String.length x)) then
      x_rc r = 0 /\ x_message r = Some x /\ exists s', leaves dir n r (OStream s') /\ stream_ok (sctx_of ev) s' /\ abs s' = a1
    else x_rc r = SQL_ERR_NO_STORAGE /\ nothing_taken r /\ leaves dir n r (OStream s)
  else x_rc r = (if rc =? CybouDB_E_NOTFOUND then 0 else rc) /\ nothing_taken r /\ leaves dir n r (OStream s).

Section queue_text.
Context (q : queue) (Eo : e_object e = OQueue q) (F : fifo_ok (ctx_of ev) q).

Lemma enqueue_answers x : Z.of_nat (length x) < 2 ^ 32 ->
  answers ev dir (A_ENQUEUE n (E_LITERAL (L_TEXT x))) (enqueue_answer q (string_of_list_ascii x)).
Proof using Hok Hname Hf H Eo F.
  intros Hx. eapply (run_object _ _ _ _ Hf H CAT_QUEUE (bind_payload CAT_QUEUE _)); [by rewrite Eo|payload_statement|done|by apply bind_text|].
  by apply enqueue_statement.
Qed.

Lemma dequeue_answers : answers ev dir (A_DEQUEUE n) (dequeue_answer q).
Proof using Hok Hname Hf H Eo F.
  eapply (run_object _ _ _ _ Hf H CAT_QUEUE (fun id => inr (PLAN_DEQUEUE id))); [by rewrite Eo|simple_statement|done..|].
  by apply dequeue_statement.
Qed.
End queue_text.

Section stream_text.
Context (s : stream) (Eo : e_object e = OStream s) (O : stream_ok (sctx_of ev) s).

Lemma is_stream : is_type CAT_STREAM (e_object e) = true.
Proof using Eo. by rewrite Eo. Qed.

Lemma stream_here f : with_stream dir (e_id e) CybouDB_E_STATE f = f s.
Proof using Hok Hname Hf Eo. unfold with_stream. by rewrite (page_is dir n e Hok Hn Hf _ Eo). Qed.

Lemma append_answers x : Z.of_nat (length x) < 2 ^ 32 ->
  answers ev dir (A_APPEND n (E_LITERAL (L_TEXT x))) (fun r => stream_answer ev dir n r (a_append (abs s) (string_of_list_ascii x))).
Proof using Hok Hname Hf H Eo O.
  intros Hx. eapply (run_object _ _ _ _ Hf H CAT_STREAM (bind_payload CAT_STREAM _)); [apply is_stream|payload_statement|done|by apply bind_text|].
  cbn [sql_execute]. unfold exec_push. rewrite (h_queue _ H), push_length by done. cbn [negb]. rewrite stream_here.
  apply (on_stream_answer _ _ _ e); try done. by apply append_spec.
Qed.

Lemma trim_answers pos : 0 <= pos < 2 ^ 64 ->
  answers ev dir (A_TRIM n pos) (fun r => stream_answer ev dir n r (a_trim (abs s) (position pos))).
Proof using Hok Hname Hf H Eo O.
  intros Hp. eapply (run_object _ _ _ _ Hf H CAT_STREAM (fun id => inr (PLAN_TRIM id pos))); [apply is_stream|simple_statement|done..|].
  cbn [sql_execute]. rewrite stream_here. apply (on_stream_answer _ _ _ e); try done. by apply trim_spec.
Qed.

Lemma reader_length reader : is_name reader -> (length reader <= SCUR_NAME_MAX)%nat -> (1 <= length reader <= SCUR_NAME_MAX)%nat.
Proof. intros [Hw _] Hr. destruct reader; [done|cbn in *; lia]. Qed.

Lemma cursor_answers reader : is_name reader -> (length reader <= SCUR_NAME_MAX)%nat ->
  answers ev dir (A_CREATE_CURSOR reader n) (fun r => stream_answer ev dir n r (a_add (abs s) (map code reader))) /\
  answers ev dir (A_DROP_CURSOR reader n) (fun r => stream_answer ev dir n r (a_drop (abs s) (map code reader))) /\
  answers ev dir (A_READ n reader) (read_answer s (map code reader)).
Proof using Hok Hname Hf H Eo O.
  intros Hi Hr. pose proof (reader_length reader Hi Hr) as Hr'. pose proof (reader_ok reader (name_chars reader Hi) Hr') as Hok'.
  split; [|split]; (eapply (run_cursor _ _ _ _ Hf H); [apply is_stream|simple_statement|done|done|]).
  - cbn [sql_execute]. rewrite length_map. destruct (Nat.eqb_spec (length reader) 0); [lia|].
    destruct (Nat.ltb_spec SCUR_NAME_MAX (length reader)); [lia|]. rewrite andb_false_r, stream_here.
    apply (on_stream_answer _ _ _ e); try done. by apply add_spec.
  - cbn [sql_execute]. rewrite stream_here. apply (on_stream_answer _ _ _ e); try done. by apply drop_spec.
  - by apply read_statement.
Qed.
End stream_text.
End object_texts.

(** C24: queues and streams are used by name as lists and logs.  On a database
    whose pages can be written and, for the queue, without leases, and in any layout of its text,
    ENQUEUE puts the bytes of its literal at the end of the queue it names and
    DEQUEUE takes the oldest message, or says there is none, or that there is no
    room and takes nothing; APPEND, TRIM, CREATE CURSOR and DROP CURSOR answer and
    leave what the contract of a stream answers and leaves, and READ hands over
    what it hands over.  Every other object of the directory is untouched, and the
    pages stay what the validator accepts. *)
Theorem queue_and_stream_statements ev dir n e :
  catalog_ok dir -> is_name n -> catalog_find_object dir n = Some e -> healthy ev ->
  (forall q, e_object e = OQueue q -> fifo_ok (ctx_of ev) q ->
     (forall x, Z.of_nat (length x) < 2 ^ 32 ->
        answers ev dir (A_ENQUEUE n (E_LITERAL (L_TEXT x))) (enqueue_answer ev dir n q (string_of_list_ascii x))) /\
     answers ev dir (A_DEQUEUE n) (dequeue_answer ev dir n q)) /\
  (forall s, e_object e = OStream s -> stream_ok (sctx_of ev) s ->
     (forall x, Z.of_nat (length x) < 2 ^ 32 -> answers ev dir (A_APPEND n (E_LITERAL (L_TEXT x))) (fun r =>
        stream_answer ev dir n r (a_append (abs s) (string_of_list_ascii x)))) /\
     (forall pos, 0 <= pos < 2 ^ 64 -> answers ev dir (A_TRIM n pos) (fun r => stream_answer ev dir n r (a_trim (abs s) (position pos)))) /\
     forall reader, is_name reader -> (length reader <= SCUR_NAME_MAX)%nat ->
       answers ev dir (A_CREATE_CURSOR reader n) (fun r => stream_answer ev dir n r (a_add (abs s) (map code reader))) /\
       answers ev dir (A_DROP_CURSOR reader n) (fun r => stream_answer ev dir n r (a_drop (abs s) (map code reader))) /\
       answers ev dir (A_READ n reader) (read_answer ev dir n s (map code reader))).
Proof.
  intros Hok Hname Hf H. split.
  - intros q Eo F. split; [intros; by eapply enqueue_answers|by eapply dequeue_answers].
  - intros s Eo O. split; [intros; by eapply append_answers|]. split; [intros; by eapply trim_answers|]. intros. by eapply cursor_answers.
Qed.

(** ** Witnesses *)

Definition lease_env : env := mk_env true true true true 0 true 10 0 0 (fun _ => 0) 1000.

Definition inbox_dir (q : queue) : list entry := [mk_entry 1 (named "inbox") (OQueue q)].

Lemma inbox_dir_ok q : catalog_ok (inbox_dir q).
Proof.
  apply catalog_ok_cons. split; [apply list.Forall_nil, I|]. split; [done|]. split; [|apply catalog_ok_nil].
  split; [vm_compute; lia|reflexivity].
Qed.

Definition two_jobs : list job := [mk_job "a" 1 (Leased 1030); mk_job "b" 0 Free].

Lemma two_jobs_held : holds_jobs one_claimed two_jobs.
Proof.
  constructor; [reflexivity| |intros p j Hp; exfalso; vm_compute in Hp; lia].
  intros [|[|p]] m Hl E; [vm_compute in E; by injection E as <-|vm_compute in E; by injection E as <-|].
  exfalso. destruct Hl as [_ Hl]. vm_compute in Hl. lia.
Qed.

(** The holder of the first message finishes it by name. *)
Lemma lease_statements_follow_contract_witness : exists r,
  run_sql lease_env (inbox_dir one_claimed) "ack  from INBOX at 0 token 01" 65536 = Some r /\
  x_rc r = 0 /\ exists q', at_name (x_dir r) (named "inbox") = Some (OQueue q') /\ holds_jobs q' [mk_job "a" 1 Finished; mk_job "b" 0 Free].
Proof.
  destruct (lease_statements_follow_contract lease_env (inbox_dir one_claimed) (named "INBOX") (mk_entry 1 (named "inbox") (OQueue one_claimed))
    one_claimed two_jobs) as [_ T].
  - apply inbox_dir_ok.
  - split; reflexivity.
  - reflexivity.
  - reflexivity.
  - by constructor; cbn; try lia.
  - reflexivity.
  - apply accepted_b_spec. vm_compute. reflexivity.
  - exact two_jobs_held.
  - vm_compute. discriminate.
  - repeat constructor; vm_compute; discriminate.
  - destruct (T 0 1 ltac:(lia) ltac:(lia)) as [Ta _].
    destruct (Ta "ack  from INBOX at 0 token 01"%string 65536) as (r & E & _ & Hrc & q' & [_ Hat] & _ & Hj).
    + unfold is_text. write_word 0%nat "ack"%string. write_word 2%nat "from"%string. write_word 1%nat "INBOX"%string. write_word 1%nat "at"%string.
      write_word 1%nat "0"%string. write_word 1%nat "token"%string. write_word 1%nat "01"%string. apply SqlLayout.writes_end. constructor.
    + split; vm_compute; [discriminate|reflexivity].
    + exists r. split; [exact E|]. split; [exact Hrc|]. exists q'. split; [|exact Hj]. rewrite Hat by reflexivity. by rewrite bool_decide_true by reflexivity.
Defined.

(** A message put in by name. *)
Lemma queue_and_stream_statements_witness : exists r q',
  run_sql demo_env (inbox_dir new_queue) "enqueue into Inbox values('hello') -- later" 65536 = Some r /\
  x_rc r = 0 /\ at_name (x_dir r) (named "inbox") = Some (OQueue q') /\ contents q' = ["hello"%string].
Proof.
  destruct (queue_and_stream_statements demo_env (inbox_dir new_queue) (named "Inbox") (mk_entry 1 (named "inbox") (OQueue new_queue))) as [T _].
  - apply inbox_dir_ok.
  - split; reflexivity.
  - reflexivity.
  - exact demo_healthy.
  - destruct (T new_queue eq_refl) as [Te _]; [by apply new_queue_fifo|].
    destruct (Te (named "hello")) with (sql := "enqueue into Inbox values('hello') -- later"%string) (size := 65536) as (r & E & _ & Hrc & q' & [_ Hat] & _ & Hc).
    + vm_compute. reflexivity.
    + unfold is_text. write_word 0%nat "enqueue"%string. write_word 1%nat "into"%string. write_word 1%nat "Inbox"%string. write_word 1%nat "values"%string.
      write_word 0%nat "("%string. write_word 0%nat "'hello'"%string. write_word 0%nat ")"%string.
      apply SqlLayout.writes_end, gap_char; [by right|]. apply (gap_last (named " later")).
      repeat (apply not_elem_of_cons; split; [discriminate|]). apply not_elem_of_nil.
    + split; vm_compute; [discriminate|reflexivity].
    + exists r, q'. split; [exact E|]. split; [exact Hrc|]. split; [|exact Hc]. rewrite Hat by reflexivity. by rewrite bool_decide_true by reflexivity.
Defined.
