(* ===== verification/Api.v ===== *)
(** * Api: connections and statements

    The handles of [cyboudb.h] as [src/api/cyboudb_c.asm] keeps them: opening and
    creating a database, the error message, preparing and finalizing statements,
    one-shot execution, closing.  The memory the library takes is explicit
    ([os]: the live blocks, and whether the next request succeeds); the storage
    engine and the SQL compiler are the interface [Core].

    A handle argument is an [option]: [None] is NULL.  A pointer to receive a
    handle is a [bool]: whether it is not NULL. *)

From Stdlib Require Import String.
From S2P Require Import Prelude Engine Step.

Open Scope string_scope.
Open Scope Z_scope.
Open Scope list_scope.

Definition CybouDB_CREATE_KNOWN : Z := CybouDB_CREATE_QUEUE_LEASES.
Definition CybouDB_E_BUSY : Z := 33.
Definition CybouDB_DB_H_SIZE : Z := 4096.
Definition CybouDB_STMT_INITIAL_SIZE : Z := 65536.

Definition str_ok : string := "ok".
Definition str_misuse : string := "misuse: invalid argument or closed handle".
Definition str_busy : string := "busy: finalize all statements before closing the database".
Definition str_nomem : string := "out of memory preparing statement".

(** ** Memory *)

(** The blocks taken and not given back, by size; whether each request succeeds. *)
Record os := mk_os { live : list Z; grants : nat -> bool; requests : nat }.

Definition os_mem_alloc (o : os) (size : Z) : os * bool :=
  if grants o (requests o) then (mk_os (size :: live o) (grants o) (S (requests o)), true)
  else (mk_os (live o) (grants o) (S (requests o)), false).

Fixpoint remove_one (x : Z) (l : list Z) : list Z :=
  match l with
  | [] => []
  | y :: l' => if y =? x then l' else y :: remove_one x l'
  end.

Definition os_mem_free (o : os) (size : Z) : os := mk_os (remove_one size (live o)) (grants o) (requests o).

(** ** Opening *)

Record world (F : Type) := mk_world { files : F; heap : os }.
Arguments mk_world {F}.
Arguments files {F}.
Arguments heap {F}.

Section api.
Context {F C P X : Type} `{Core F C P X}.

Definition with_heap (w : world F) (o : os) : world F := mk_world (files w) o.

Definition cyboudb_open (w : world F) (path : option string) (flags : Z) (out_db : bool) : world F * Z * option (conn C) :=
  match path with
  | None => (w, CybouDB_MISUSE, None)
  | Some path =>
      if negb out_db then (w, CybouDB_MISUSE, None) else
      let '(o, ok) := os_mem_alloc (heap w) CybouDB_DB_H_SIZE in
      if negb ok then (with_heap w o, CybouDB_NOMEM, None) else
      let '(f, rc, ctx) := db_open (files w) path (negb (flags .& CybouDB_OPEN_READWRITE =? 0)) in
      if negb (rc =? 0) then
        (mk_world f (os_mem_free o CybouDB_DB_H_SIZE), (if rc =? CybouDB_E_BUSY then CybouDB_BUSY else CybouDB_ERROR), None)
      else (mk_world f o, CybouDB_OK, Some (mk_conn flags true 0 EmptyString 0 false 0 ctx))
  end.

Definition cyboudb_create_with_options (w : world F) (path : option string) (pages : Z)
    (options : option cyboudb_create_options) (out_db : bool) : world F * Z * option (conn C) :=
  match path with
  | None => (w, CybouDB_MISUSE, None)
  | Some p =>
      if negb out_db then (w, CybouDB_MISUSE, None) else
      let asked := match options with
                   | None => Some 0
                   | Some o => if struct_size o <? 8 then None
                               else if negb (flags o .& Z.lnot CybouDB_CREATE_KNOWN =? 0) then None else Some (flags o)
                   end in
      match asked with
      | None => (w, CybouDB_MISUSE, None)
      | Some fl =>
          let '(f, rc) := if negb (fl .& CybouDB_CREATE_QUEUE_LEASES =? 0) then db_create_leases (files w) p pages
                          else db_create_default (files w) p pages in
          let w := mk_world f (heap w) in
          if negb (rc =? 0) then (w, CybouDB_ERROR, None)
          else cyboudb_open w path CybouDB_OPEN_READWRITE out_db
      end
  end.

Definition cyboudb_create (w : world F) (path : option string) (pages : Z) (out_db : bool) :=
  cyboudb_create_with_options w path pages None out_db.

(** ** The error message *)

Definition cyboudb_errmsg (db : option (conn C)) : string :=
  match db with
  | None => str_misuse
  | Some d => if (h_errmsg d =? EmptyString)%string then str_ok else h_errmsg d
  end.

Definition cyboudb_errcode (db : option (conn C)) : Z :=
  match db with None => CybouDB_MISUSE | Some d => h_errcode d end.

(** ** Closing *)

(** The handle is gone after a close that succeeds. *)
Definition cyboudb_close (w : world F) (db : option (conn C)) : world F * Z * option (conn C) :=
  match db with
  | None => (w, CybouDB_OK, None)
  | Some d =>
      if negb (h_stmt_count d =? 0) then (w, CybouDB_BUSY, Some (set_error d CybouDB_BUSY str_busy)) else
      let f := if h_open d then db_close (files w) (h_ctx d) (h_tx_active d) else files w in
      (mk_world f (os_mem_free (heap w) CybouDB_DB_H_SIZE), CybouDB_OK, None)
  end.

(** ** Statements *)

Definition count_statement (d : conn C) (n : Z) : conn C :=
  mk_conn (h_flags d) (h_open d) (h_errcode d) (h_errmsg d) (h_stmt_count d + n) (h_tx_active d) (h_tx_id d) (h_ctx d).

(** The header is zeroed, then the magic, the size and the plan are written. *)
Definition fresh_handle (size : Z) (p : P) : handle P X := mk_handle true size STMT_STATE_INIT 0 0 0 0 EmptyString p sel_zero.

Definition prep_nomem (w : world F) (d : conn C) : world F * conn C * Z * option (handle P X) :=
  (w, set_error d CybouDB_NOMEM str_nomem, CybouDB_NOMEM, None).

(** From [.prep_allocate]: twice the size until the statement fits.  The fuel
    bounds the attempts. *)
Fixpoint prep_allocate (fuel : nat) (w : world F) (d : conn C) (sql : string) (size : Z) :
    option (world F * conn C * Z * option (handle P X)) :=
  match fuel with
  | O => None
  | S fuel' =>
      let '(o, ok) := os_mem_alloc (heap w) size in
      let w := with_heap w o in
      if negb ok then Some (prep_nomem w d) else
      match compile (files w) (h_ctx d) sql size with
      | Compiled p => Some (w, count_statement d 1, CybouDB_OK, Some (fresh_handle size p))
      | Refused code msg =>
          Some (with_heap w (os_mem_free (heap w) size), set_error d code (api_copy_bounded 71 msg), CybouDB_ERROR, None)
      | ArenaFailed =>
          let w := with_heap w (os_mem_free (heap w) size) in
          if 2 ^ 63 <=? size + size then Some (prep_nomem w d)
          else prep_allocate fuel' w d sql (size + size)
      end
  end.

(** 47 doublings take the first size past a signed 64-bit integer. *)
Definition prep_fuel : nat := 47.

Definition cyboudb_prepare (w : world F) (db : option (conn C)) (sql : option string) (out_stmt : bool) :
    option (world F * option (conn C) * Z * option (handle P X)) :=
  match db, sql with
  | Some d, Some q =>
      if negb out_stmt || negb (h_open d) then Some (w, db, CybouDB_MISUSE, None) else
      '(w, d, rc, st) ← prep_allocate prep_fuel w d (c_str q) CybouDB_STMT_INITIAL_SIZE;
      Some (w, Some d, rc, st)
  | _, _ => Some (w, db, CybouDB_MISUSE, None)
  end.

(** The statement's memory is given back; its magic is cleared first. *)
Definition cyboudb_finalize (w : world F) (d : conn C) (st : option (handle P X)) : world F * conn C * Z * option (handle P X) :=
  match st with
  | None => (w, d, CybouDB_OK, None)
  | Some s =>
      if negb (s_magic s) then (w, d, CybouDB_MISUSE, st)
      else (with_heap w (os_mem_free (heap w) (s_size s)), count_statement d (-1), CybouDB_OK, None)
  end.

(** A step takes no memory. *)
Definition step (w : world F) (d : conn C) (st : option (handle P X)) : world F * conn C * option (handle P X) * Z :=
  let '(f, d, st, rc) := cyboudb_step (files w) d st in (mk_world f (heap w), d, st, rc).

Fixpoint exec_step_loop (fuel : nat) (w : world F) (d : conn C) (st : option (handle P X)) :
    option (world F * conn C * option (handle P X) * Z) :=
  match fuel with
  | O => None
  | S fuel' =>
      let '(w, d, st, rc) := step w d st in
      if rc =? CybouDB_ROW then exec_step_loop fuel' w d st else Some (w, d, st, rc)
  end.

(** [None] while the statement keeps answering with rows. *)
Definition cyboudb_exec (fuel : nat) (w : world F) (db : option (conn C)) (sql : option string) :
    option (world F * option (conn C) * Z) :=
  '(w, db, rc, st) ← cyboudb_prepare w db sql true;
  match db with
  | Some d =>
      if negb (rc =? CybouDB_OK) then Some (w, db, rc) else
      '(w, d, st, rc) ← exec_step_loop fuel w d st;
      let '(w, d, _, _) := cyboudb_finalize w d st in
      Some (w, Some d, if rc =? CybouDB_DONE then CybouDB_OK else rc)
  | None => Some (w, db, rc)
  end.
End api.

(** ** Memory is given back *)

Lemma remove_one_perm x l l' : l ≡ₚ x :: l' -> remove_one x l ≡ₚ l'.
Proof.
  revert l'. induction l as [|y l IH]; intros l' E; [by apply Permutation_nil_cons in E|]. cbn [remove_one].
  destruct (Z.eqb_spec y x) as [->|Hne]; [by apply (inj (cons x)) in E|].
  assert (Hin : y ∈ l'). { assert (y ∈ x :: l') as [->|]%elem_of_cons by (rewrite <- E; by left); done. }
  apply elem_of_Permutation in Hin as [l'' El]. rewrite El. apply Permutation_cons; [done|]. apply IH.
  apply (inj (cons y)). rewrite E, El. apply perm_swap.
Qed.

Lemma length_substring_le n s : (String.length (substring 0 n s) <= n)%nat.
Proof. revert n. induction s as [|c s IH]; intros [|n]; cbn; try lia. specialize (IH n). lia. Qed.

Section laws.
Context {F C P X : Type} `{Core F C P X}.

(** What [prep_allocate] may end with. *)
Inductive prepared (w : world F) (d : conn C) : world F * conn C * Z * option (handle P X) -> Prop :=
  | prepared_ok w' size p : live (heap w') = size :: live (heap w) ->
      prepared w d (w', count_statement d 1, CybouDB_OK, Some (fresh_handle size p))
  | prepared_refused w' size sql code msg : live (heap w') = live (heap w) ->
      compile (files w') (h_ctx d) sql size = Refused code msg ->
      prepared w d (w', set_error d code (api_copy_bounded 71 msg), CybouDB_ERROR, None)
  | prepared_nomem w' : live (heap w') = live (heap w) ->
      prepared w d (w', set_error d CybouDB_NOMEM str_nomem, CybouDB_NOMEM, None).

Lemma free_alloc o size o' : os_mem_alloc o size = (o', true) -> live (os_mem_free o' size) = live o.
Proof.
  unfold os_mem_alloc. destruct (grants o _); [|by intros [=]]. intros [= <-]. cbn. by rewrite Z.eqb_refl.
Qed.

(** Every size doubles the last, so the attempts are bounded. *)
Lemma prep_allocate_total fuel w d sql size : 0 < size < 2 ^ 63 -> 2 ^ 63 <= size * 2 ^ Z.of_nat fuel ->
  exists r, prep_allocate fuel w d sql size = Some r /\ prepared w d r /\
    (requests (heap (fst (fst (fst r)))) <= requests (heap w) + fuel)%nat.
Proof.
  revert w size. induction fuel as [|fuel IH]; intros w size Hs Hf; [cbn in Hf; lia|].
  cbn [prep_allocate]. destruct (os_mem_alloc (heap w) size) as [o ok] eqn:Ea. assert (Hreq : requests o = S (requests (heap w))).
  { unfold os_mem_alloc in Ea. destruct (grants _ _); by injection Ea as <- _. }
  destruct ok; cbn [negb].
  2: { eexists. split; [done|]. cbn. split; [|lia]. apply prepared_nomem. unfold os_mem_alloc in Ea. cbn.
       destruct (grants _ _); [done|]. by injection Ea as <-. }
  pose proof (free_alloc _ _ _ Ea) as Hfree. cbn [with_heap files].
  destruct (compile (files w) (h_ctx d) sql size) as [p|code msg|] eqn:Ec.
  - eexists. split; [done|]. cbn. split; [|lia]. apply prepared_ok. unfold os_mem_alloc in Ea. cbn.
    destruct (grants _ _); [|done]. by injection Ea as <-.
  - eexists. split; [done|]. cbn. split; [|lia]. by eapply prepared_refused.
  - destruct (Z.leb_spec (2 ^ 63) (size + size)).
    + eexists. split; [done|]. cbn. split; [|lia]. by apply prepared_nomem.
    + destruct (IH (mk_world (files w) (os_mem_free o size)) (size + size)) as (r & E & R & L); [lia| |].
      { rewrite Nat2Z.inj_succ, Z.pow_succ_r in Hf by lia. lia. }
      exists r. split; [done|]. split.
      * inversion R; subst; cbn [heap] in *; econstructor; try done; by rewrite <- Hfree.
      * cbn in L. lia.
Qed.

Lemma prepare_total w d sql : h_open d = true ->
  exists w' d' rc st, cyboudb_prepare w (Some d) (Some sql) true = Some (w', Some d', rc, st) /\
    prepared w d (w', d', rc, st) /\ (requests (heap w') <= requests (heap w) + 47)%nat.
Proof.
  intros Ho. unfold cyboudb_prepare. rewrite Ho. cbn [negb orb].
  destruct (prep_allocate_total prep_fuel w d (c_str sql) CybouDB_STMT_INITIAL_SIZE) as ([[[w' d'] rc] st] & E & R & L).
  - unfold CybouDB_STMT_INITIAL_SIZE. lia.
  - vm_compute. discriminate.
  - rewrite E. cbn [mbind option_bind]. by exists w', d', rc, st.
Qed.

(** ** A connection and its statements *)

(** The connections a client can get to, with the statements it holds. *)
Inductive reach (w0 : world F) : world F -> conn C -> list (handle P X) -> Prop :=
  | reach_open path flags w d : cyboudb_open w0 path flags true = (w, CybouDB_OK, Some d) -> reach w0 w d []
  | reach_prepare w d hs sql w' d' rc st : reach w0 w d hs ->
      cyboudb_prepare w (Some d) (Some sql) true = Some (w', Some d', rc, st) -> reach w0 w' d' (option_list st ++ hs)
  | reach_step w d hs1 h hs2 w' d' h' rc : reach w0 w d (hs1 ++ h :: hs2) ->
      step w d (Some h) = (w', d', Some h', rc) -> reach w0 w' d' (hs1 ++ h' :: hs2)
  | reach_batch w d hs1 h hs2 d' h' rc m : reach w0 w d (hs1 ++ h :: hs2) ->
      cyboudb_step_batch (files w) d (Some h) true true = (d', Some h', rc, m) -> reach w0 w d' (hs1 ++ h' :: hs2)
  | reach_reset w d hs1 h hs2 h' rc : reach w0 w d (hs1 ++ h :: hs2) ->
      cyboudb_reset (Some h) = (Some h', rc) -> reach w0 w d (hs1 ++ h' :: hs2)
  | reach_finalize w d hs1 h hs2 w' d' rc : reach w0 w d (hs1 ++ h :: hs2) ->
      cyboudb_finalize w d (Some h) = (w', d', rc, None) -> reach w0 w' d' (hs1 ++ hs2)
  | reach_exec w d hs fuel sql w' d' rc : reach w0 w d hs ->
      cyboudb_exec fuel w (Some d) (Some sql) = Some (w', Some d', rc) -> reach w0 w' d' hs
  | reach_busy w d hs w' d' : reach w0 w d hs ->
      cyboudb_close w (Some d) = (w', CybouDB_BUSY, Some d') -> reach w0 w' d' hs.

(** The count is the number of live statements, and the blocks are theirs, the
    connection's and those there were before. *)
Record held (w0 w : world F) (d : conn C) (hs : list (handle P X)) : Prop := {
  held_open : h_open d = true;
  held_count : h_stmt_count d = Z.of_nat (List.length hs);
  held_magic : Forall (fun h => s_magic h = true) hs;
  held_live : live (heap w) ≡ₚ map s_size hs ++ CybouDB_DB_H_SIZE :: live (heap w0);
}.

Lemma prepared_held w0 w d hs w' d' rc st : held w0 w d hs -> prepared w d (w', d', rc, st) ->
  held w0 w' d' (option_list st ++ hs).
Proof.
  intros [H1 H2 H3 H4] R. inversion R as [w1 size p E|w1 size sql code msg E|w1 E]; subst; constructor; cbn; try done; try lia.
  - by constructor.
  - rewrite E, H4. done.
  - by rewrite E.
  - by rewrite E.
Qed.

Lemma finalize_held w0 w d hs1 h hs2 w' d' rc st : held w0 w d (hs1 ++ h :: hs2) ->
  cyboudb_finalize w d (Some h) = (w', d', rc, st) -> held w0 w' d' (hs1 ++ hs2) /\ rc = CybouDB_OK /\ st = None.
Proof.
  intros [H1 H2 H3 H4]. unfold cyboudb_finalize. apply Forall_app in H3 as [H3 [H5 H6]%Forall_cons_1]. rewrite H5. cbn [negb].
  intros [= <- <- <- <-]. split; [|done]. constructor; cbn; try done.
  - rewrite length_app in H2 |- *. cbn in H2. lia.
  - by apply Forall_app.
  - apply remove_one_perm. rewrite H4, !map_app. cbn [map].
    rewrite <- (app_assoc _ (_ :: _)). cbn [app]. rewrite <- Permutation_middle. by rewrite app_assoc.
Qed.

Lemma frame_held w0 w w' d d' hs1 h h' hs2 : held w0 w d (hs1 ++ h :: hs2) -> same_conn d d' -> same_stmt h h' ->
  live (heap w') = live (heap w) -> held w0 w' d' (hs1 ++ h' :: hs2).
Proof.
  intros [H1 H2 H3 H4] (_ & Ho & Hc) [Hm Hs] Hl. apply Forall_app in H3 as [H3 [H5 H6]%Forall_cons_1]. constructor.
  - by rewrite Ho.
  - rewrite Hc, H2, !length_app. done.
  - apply Forall_app. split; [done|]. constructor; [by rewrite Hm|done].
  - rewrite Hl, H4, !map_app. cbn [map]. by rewrite Hs.
Qed.

Lemma step_held w0 w d hs1 h hs2 w' d' st rc : held w0 w d (hs1 ++ h :: hs2) -> step w d (Some h) = (w', d', st, rc) ->
  exists h', st = Some h' /\ held w0 w' d' (hs1 ++ h' :: hs2).
Proof.
  intros Hh. unfold step. destruct (cyboudb_step (files w) d (Some h)) as [[[f1 d1] st1] rc1] eqn:E. intros [= <- <- <- <-].
  apply step_frame in E as (Hc & h' & -> & Hs). exists h'. split; [done|]. by eapply frame_held.
Qed.

Lemma exec_loop_held fuel : forall w0 w d h hs w' d' st rc, held w0 w d (h :: hs) ->
  exec_step_loop fuel w d (Some h) = Some (w', d', st, rc) -> exists h', st = Some h' /\ held w0 w' d' (h' :: hs).
Proof.
  induction fuel as [|fuel IH]; intros w0 w d h hs w' d' st rc Hh E; [done|]. cbn [exec_step_loop] in E.
  destruct (step w d (Some h)) as [[[w1 d1] st1] rc1] eqn:Es.
  destruct (step_held w0 w d [] h hs _ _ _ _ Hh Es) as (h1 & -> & H1). destruct (rc1 =? CybouDB_ROW); [by eapply IH|].
  injection E as <- <- <- <-. by exists h1.
Qed.

Lemma exec_held w0 w d hs fuel sql w' d' rc : held w0 w d hs ->
  cyboudb_exec fuel w (Some d) (Some sql) = Some (w', Some d', rc) -> held w0 w' d' hs.
Proof.
  intros Hh. unfold cyboudb_exec. destruct (prepare_total w d sql (held_open _ _ _ _ Hh)) as (w1 & d1 & rc1 & st & -> & R & _).
  cbn [mbind option_bind]. pose proof (prepared_held w0 w d hs _ _ _ _ Hh R) as H1.
  destruct (Z.eqb_spec rc1 CybouDB_OK) as [->|Hne]; cbn [negb].
  - assert (exists h, st = Some h) as [h ->] by (inversion R; subst; eauto).
    destruct (exec_step_loop fuel w1 d1 (Some h)) as [[[[w2 d2] st2] rc2]|] eqn:El; [|done].
    cbn [mbind option_bind option_list app] in *. destruct (exec_loop_held _ _ _ _ _ _ _ _ _ _ H1 El) as (h' & -> & H2).
    destruct (cyboudb_finalize w2 d2 (Some h')) as [[[w3 d3] rc3] st3] eqn:Ef.
    destruct (finalize_held w0 w2 d2 [] h' hs _ _ _ _ H2 Ef) as [H3 _]. by intros [= <- <- <-].
  - intros [= <- <- <-]. assert (st = None) as -> by (inversion R; subst; done). done.
Qed.

Lemma reach_held w0 w d hs : reach w0 w d hs -> held w0 w d hs.
Proof.
  induction 1 as [path flags w d E|w d hs sql w' d' rc st _ IH E|w d hs1 h hs2 w' d' h' rc _ IH E
    |w d hs1 h hs2 d' h' rc m _ IH E|w d hs1 h hs2 h' rc _ IH E|w d hs1 h hs2 w' d' rc _ IH E|w d hs fuel sql w' d' rc _ IH E|w d hs w' d' _ IH E].
  - unfold cyboudb_open in E. destruct path as [path|]; [|done]. cbn [negb] in E.
    destruct (os_mem_alloc _ _) as [o ok] eqn:Ea. destruct ok; [|done]. cbn [negb] in E.
    destruct (db_open _ _ _) as [[f rc] ctx]. destruct (negb (rc =? 0)); [by destruct (rc =? CybouDB_E_BUSY)|].
    injection E as <- <-. constructor; cbn; try done. unfold os_mem_alloc in Ea. destruct (grants _ _); [|done].
    by injection Ea as <-.
  - destruct (prepare_total w d sql (held_open _ _ _ _ IH)) as (w1 & d1 & rc1 & st1 & E1 & R & _).
    rewrite E in E1. injection E1 as <- <- <- <-. by eapply prepared_held.
  - destruct (step_held _ _ _ _ _ _ _ _ _ _ IH E) as (h1 & [= <-] & ?). done.
  - apply step_batch_frame in E as (Hc & h1 & [= <-] & Hs). by eapply frame_held.
  - unfold cyboudb_reset in E. destruct (negb _); injection E as <- _; by eapply frame_held.
  - by eapply finalize_held.
  - by eapply exec_held.
  - unfold cyboudb_close in E. destruct (negb _); [|done]. injection E as <- <-. destruct IH. by constructor.
Qed.

(** Finalizing what is left, in order. *)
Fixpoint finalize_all (w : world F) (d : conn C) (hs : list (handle P X)) : world F * conn C :=
  match hs with
  | [] => (w, d)
  | h :: hs' => let '(w, d, _, _) := cyboudb_finalize w d (Some h) in finalize_all w d hs'
  end.

Lemma finalize_all_held w0 hs : forall w d, held w0 w d hs -> held w0 (fst (finalize_all w d hs)) (snd (finalize_all w d hs)) [].
Proof.
  induction hs as [|h hs IH]; intros w d Hh; [done|]. cbn [finalize_all].
  destruct (cyboudb_finalize w d (Some h)) as [[[w1 d1] rc] st] eqn:E.
  destruct (finalize_held w0 w d [] h hs _ _ _ _ Hh E) as [H1 _]. by apply IH.
Qed.
End laws.

(** ** Properties *)

(** C34: a connection can be closed exactly when its statements are finalized.
    Whatever a client has prepared, stepped, executed and finalized, close answers
    BUSY as long as it holds a statement, and the connection stays open; once it
    finalizes what it holds, close succeeds and every block of memory taken since
    the connection was opened has been given back. *)
Theorem close_when_finalized {F C P X} `{Core F C P X} (w0 w : world F) (d : conn C) (hs : list (handle P X)) : reach w0 w d hs ->
  (hs <> [] -> exists d', cyboudb_close w (Some d) = (w, CybouDB_BUSY, Some d') /\ reach w0 w d' hs /\
     cyboudb_errmsg (Some d') = str_busy) /\
  exists w', cyboudb_close (fst (finalize_all w d hs)) (Some (snd (finalize_all w d hs))) = (w', CybouDB_OK, None) /\
    live (heap w') ≡ₚ live (heap w0).
Proof.
  intros R. pose proof (reach_held _ _ _ _ R) as Hh. split.
  - intros Hne. assert (E : cyboudb_close w (Some d) = (w, CybouDB_BUSY, Some (set_error d CybouDB_BUSY str_busy))).
    { unfold cyboudb_close. rewrite (held_count _ _ _ _ Hh). destruct hs as [|h hs]; [done|]. cbn [List.length].
      destruct (Z.eqb_spec (Z.of_nat (S (List.length hs))) 0); [lia|done]. }
    eexists. split; [done|]. split; [|done]. by eapply reach_busy.
  - destruct (finalize_all_held w0 hs w d Hh) as [H1 H2 _ H4]. unfold cyboudb_close. rewrite H2. cbn [List.length Z.of_nat Z.eqb negb].
    eexists. split; [done|]. cbn. apply remove_one_perm. by rewrite H4.
Qed.


(** A step that answers anything but ERROR leaves the message it found. *)
Lemma dispatch_message {F C P X} `{Core F C P X} (f : F) (d : conn C) (s : handle P X) f' d' s' rc :
  step_dispatch f d s = (f', d', s', rc) -> rc <> CybouDB_ERROR -> h_errmsg d' = h_errmsg d.
Proof.
  assert (Hx : forall g f d s f' d' s' rc msg, execute f d s g = (f', d', s', rc, msg) -> h_errmsg d' = h_errmsg d).
  { intros *. unfold execute, autocommit. intros E. by repeat case_match; simplify_eq/=. }
  assert (Hf : step_fetch_batch f d s = (f', d', s', rc) -> h_errmsg d' = h_errmsg d).
  { unfold step_fetch_batch, take_lane. destruct (api_select_next f d s) as [[[d1 s1] rc1] m] eqn:E.
    apply select_next_frame in E as (_ & _ & _ & _ & <-). by destruct (negb _); intros [= <- <- <- <-]. }
  intros E Hne. unfold step_dispatch in E.
  unfold step_drop, step_insert, step_delete, step_mutation, step_dequeue, step_create, step_select, step_begin, step_commit, step_rollback,
    autocommit, take_lane in E.
  repeat case_match; simplify_eq/=; try done; try (by eapply Hx); try (by apply Hf);
    try (by apply mutation_error_frame in E as (_ & _ & _ & _ & _ & ? & _)); by apply copy_errmsg_frame in E as (_ & _ & _ & _ & _ & ? & _).
Qed.

(** What the error message is about.  After a step that answers ROW or DONE
    it is "ok".  But a statement prepared successfully leaves the message it finds,
    so that of an earlier refused call is still there; and a step on a scan whose
    database has moved on answers ERROR with a code and no message, which reads
    "ok" too. *)
Theorem error_message_after_calls {F C P X} `{Core F C P X} (d : conn C) :
  (forall f (s : handle P X) f' d' st rc, cyboudb_step f d (Some s) = (f', d', st, rc) -> rc = CybouDB_ROW \/ rc = CybouDB_DONE ->
     cyboudb_errmsg (Some d') = str_ok) /\
  (forall (w : world F) sql w' d' rc h, cyboudb_prepare w (Some d) (Some sql) true = Some (w', Some d', rc, Some h) ->
     rc = CybouDB_OK /\ cyboudb_errmsg (Some d') = cyboudb_errmsg (Some d)) /\
  (forall f (s : handle P X), s_magic s = true -> plan_type (s_plan s) = STMT_SELECT -> s_state s = STMT_STATE_SCANNING ->
     db_generation (h_ctx d) <> scan_generation (s_select s) ->
     exists d' s', cyboudb_step f d (Some s) = (f, d', Some s', CybouDB_ERROR) /\ cyboudb_errcode (Some d') = CybouDB_E_STATE /\
       cyboudb_errmsg (Some d') = str_ok).
Proof.
  split_and!.
  - intros f s f' d' st rc E Hrc. apply step_is_dispatch in E as [([= -> -> ->] & _)|(s' & _ & E)]; [by destruct Hrc|].
    apply dispatch_message in E; [|by destruct Hrc; subst rc]. unfold cyboudb_errmsg. by rewrite E.
  - intros w sql w' d' rc h E. destruct (h_open d) eqn:Ho.
    + destruct (prepare_total w d sql Ho) as (w1 & d1 & rc1 & st1 & E1 & R & _). rewrite E in E1. injection E1 as <- <- <- <-. by inversion R; subst.
    + unfold cyboudb_prepare in E. by rewrite Ho in E.
  - intros f s Hm Ht Hs Hg. unfold cyboudb_step, step_dispatch, step_select. rewrite Hm, Ht, Hs. cbn [negb]. destruct (decide _); [|done].
    cbn [h_ctx api_error_clear set_error]. apply Z.eqb_neq in Hg. rewrite Hg. cbn [negb]. by eexists _, _.
Qed.

(** The creator the options ask for. *)
Definition creator {F C P X} `{Core F C P X} (options : option cyboudb_create_options) : F -> string -> Z -> F * Z :=
  match options with
  | Some o => if flags o .& CybouDB_CREATE_QUEUE_LEASES =? 0 then db_create_default else db_create_leases
  | None => db_create_default
  end.

Definition options_known (options : option cyboudb_create_options) : bool :=
  match options with
  | Some o => (8 <=? struct_size o) && (flags o .& Z.lnot CybouDB_CREATE_KNOWN =? 0)
  | None => true
  end.

Definition asked (options : option cyboudb_create_options) : Z := match options with Some o => flags o | None => 0 end.

Lemma creator_asked {F C P X} `{Core F C P X} options (f : F) p pages :
  creator options f p pages =
    if negb (asked options .& CybouDB_CREATE_QUEUE_LEASES =? 0) then db_create_leases f p pages else db_create_default f p pages.
Proof. destruct options as [o|]; [|done]. cbn [creator asked]. by destruct (flags o .& _ =? 0). Qed.

(** Opening read-write: a fresh connection in its own block, or nothing kept. *)
Lemma open_fresh {F C P X} `{Core F C P X} (w : world F) p :
  let '(w', rc, db) := cyboudb_open w (Some p) CybouDB_OPEN_READWRITE true in
  match db with
  | Some d => rc = CybouDB_OK /\ live (heap w') = CybouDB_DB_H_SIZE :: live (heap w) /\ files w' = fst (fst (db_open (files w) p true)) /\
      writable d = true /\ h_open d = true /\ h_stmt_count d = 0 /\ h_tx_active d = false /\ cyboudb_errmsg db = str_ok
  | None => live (heap w') = live (heap w) /\
      (rc = CybouDB_NOMEM \/ rc = (if snd (fst (db_open (files w) p true)) =? CybouDB_E_BUSY then CybouDB_BUSY else CybouDB_ERROR))
  end.
Proof.
  unfold cyboudb_open, os_mem_alloc. cbn [negb].
  change (negb (CybouDB_OPEN_READWRITE .& CybouDB_OPEN_READWRITE =? 0)) with true. destruct (grants (heap w) _); cbn; [|by split; [|left]].
  destruct (db_open (files w) p true) as [[f rc] c]. destruct (negb (rc =? 0)); cbn; [|done]. split; [done|]. by right.
Qed.

(** Creating a database.  MISUSE, with nothing done, exactly for a NULL path
    or output or options this build does not know.  Otherwise exactly one creator
    runs, the one for leases when they are asked for: when it fails the answer is
    ERROR and there is no handle; when it succeeds the file is there, and the
    answer is a fresh writable connection in one block of memory, or no handle and
    no memory kept: NOMEM, BUSY when a writer has the file, else ERROR. *)
Theorem create_contract {F C P X} `{Core F C P X} (w : world F) path pages options out_db :
  let '(w', rc, db) := cyboudb_create_with_options w path pages options out_db in
  match path with
  | None => (w', rc, db) = (w, CybouDB_MISUSE, None)
  | Some p =>
      if negb out_db || negb (options_known options) then (w', rc, db) = (w, CybouDB_MISUSE, None) else
      let '(f, made) := creator options (files w) p pages in
      if negb (made =? 0) then (w', rc, db) = (mk_world f (heap w), CybouDB_ERROR, None) else
      match db with
      | Some d => rc = CybouDB_OK /\ live (heap w') = CybouDB_DB_H_SIZE :: live (heap w) /\ files w' = fst (fst (db_open f p true)) /\
          writable d = true /\ h_open d = true /\ h_stmt_count d = 0 /\ h_tx_active d = false /\ cyboudb_errmsg db = str_ok
      | None => live (heap w') = live (heap w) /\
          (rc = CybouDB_NOMEM \/ rc = (if snd (fst (db_open f p true)) =? CybouDB_E_BUSY then CybouDB_BUSY else CybouDB_ERROR))
      end
  end.
Proof.
  destruct path as [p|]; [|done]. unfold cyboudb_create_with_options. destruct out_db; cbn [negb orb]; [|done].
  assert (Ha : match options with
               | None => Some 0
               | Some o => if struct_size o <? 8 then None
                           else if negb (flags o .& Z.lnot CybouDB_CREATE_KNOWN =? 0) then None else Some (flags o)
               end = if options_known options then Some (asked options) else None).
  { destruct options as [o|]; [|done]. unfold options_known. rewrite Z.leb_antisym. destruct (struct_size o <? 8); [done|]. cbn [negb andb].
    by destruct (flags o .& _ =? 0). }
  rewrite Ha. destruct (options_known options); cbn [negb]; [|done].
  rewrite creator_asked. destruct (if negb (asked options .& _ =? 0) then _ else _) as [f made].
  destruct (negb (made =? 0)); [done|]. pose proof (open_fresh (mk_world f (heap w)) p) as O.
  by destruct (cyboudb_open _ _ _ _) as [[w' rc] [d|]].
Qed.

(** ** Witnesses *)

(** Memory that always succeeds. *)
Definition plenty : world (list Z) := mk_world [] (mk_os [] (fun _ => true) 0).

Definition opened := cyboudb_open plenty (Some "a.cdb") CybouDB_OPEN_READWRITE true.
Definition opened_world : world (list Z) := fst (fst opened).
Definition opened_conn : conn Toy.db := mk_conn CybouDB_OPEN_READWRITE true 0 EmptyString 0 false 0 (Toy.mk_db [] 1 0).
Definition prepared_handle : handle Toy.plan Toy.scan := fresh_handle 65536 (Toy.insert 7).

(** One statement held: close is refused, then succeeds with all memory returned. *)
Lemma close_when_finalized_witness :
  exists w d, cyboudb_prepare opened_world (Some opened_conn) (Some "INSERT") true = Some (w, Some d, CybouDB_OK, Some prepared_handle) /\
    (exists d', cyboudb_close w (Some d) = (w, CybouDB_BUSY, Some d')) /\
    exists w', cyboudb_close (fst (finalize_all w d [prepared_handle])) (Some (snd (finalize_all w d [prepared_handle]))) = (w', CybouDB_OK, None) /\
      live (heap w') ≡ₚ [].
Proof.
  eexists _, _. split; [reflexivity|].
  match goal with |- context [cyboudb_close ?w (Some ?d)] => pose proof (close_when_finalized plenty w d [prepared_handle]) as T end.
  destruct T as [T1 T2].
  - change [prepared_handle] with (option_list (Some prepared_handle) ++ []).
    eapply (reach_prepare plenty opened_world opened_conn [] "INSERT"); [|reflexivity]. eapply (reach_open plenty (Some "a.cdb") CybouDB_OPEN_READWRITE).
    reflexivity.
  - split; [|exact T2]. destruct (T1 ltac:(discriminate)) as (d' & E & _). exists d'. exact E.
Defined.


(** A refused statement's message outlives the next successful prepare. *)
Lemma error_message_after_calls_witness : exists w1 d1 w2 d2 h,
  cyboudb_prepare opened_world (Some opened_conn) (Some "oops") true = Some (w1, Some d1, CybouDB_ERROR, None) /\
  cyboudb_prepare w1 (Some d1) (Some "INSERT") true = Some (w2, Some d2, CybouDB_OK, Some h) /\
  cyboudb_errmsg (Some d2) = "syntax error".
Proof.
  set (w1 := with_heap opened_world (mk_os [4096] (fun _ => true) 2)). set (d1 := set_error opened_conn 5 "syntax error").
  destruct (cyboudb_prepare w1 (Some d1) (Some "INSERT") true) as [[[[w2 [d2|]] rc] [h|]]|] eqn:E; try (vm_compute in E; discriminate E).
  destruct (error_message_after_calls d1) as (_ & T & _). destruct (T _ _ _ _ _ _ E) as [-> Em].
  exists w1, d1, w2, d2, h. split; [reflexivity|]. split; [exact E|exact Em].
Defined.
