(* ===== verification/WorkerText.v ===== *)
(** * WorkerText: the texts of the examples, run

    The statements [examples/worker.c] and [examples/leased_worker.c] put
    together with [snprintf] and hand to the engine, taken through the modelled
    tokenizer, parser, binder, executor and directory to the pages: what the laws
    of [Worker] and [LeasedWorker] ask of the statements over queues and streams
    is what those texts do. *)

From Stdlib Require Import String Ascii DecimalString DecimalN DecimalPos.
From stdpp Require Import gmap.
From S2P Require Import Engine Step Api Tokenizer DecimalFloat Parser SqlPrint SqlLayout SqlRoundtrip LeaseQueue Dequeue Stream Catalog QueueSql QueueText Worker LeasedWorker LeaseRefine QueueContract Prelude.
#[local] Open Scope list_scope.

(** ** Decimal numbers *)

Lemma uint_value_acc u p :
  fold_left (fun x c => 10 * x + (code c - code "0")) (list_ascii_of_string (NilEmpty.string_of_uint u)) (Z.pos p) = Z.pos (Pos.of_uint_acc u p).
Proof.
  revert p. induction u as [|u IH|u IH|u IH|u IH|u IH|u IH|u IH|u IH|u IH|u IH]; intros p; [done|..];
    cbn [NilEmpty.string_of_uint list_ascii_of_string fold_left Pos.of_uint_acc]; rewrite <- IH; f_equal;
    match goal with |- context [code ?c - code ?d] => let v := eval vm_compute in (code c - code d) in change (code c - code d) with v end; lia.
Qed.

Lemma uint_value u : digits_value (list_ascii_of_string (NilEmpty.string_of_uint u)) = Z.of_N (N.of_uint u).
Proof.
  unfold digits_value, N.of_uint. induction u as [|u IH|u IH|u IH|u IH|u IH|u IH|u IH|u IH|u IH|u IH]; [done|exact IH|..];
    cbn [NilEmpty.string_of_uint list_ascii_of_string fold_left Pos.of_uint Z.of_N]; by rewrite <- uint_value_acc.
Qed.

Lemma uint_digits u : forallb digit (list_ascii_of_string (NilEmpty.string_of_uint u)) = true.
Proof. by induction u. Qed.

(** What [%PRIu64] prints is a number. *)
Lemma spelled_dec n : (n < 2 ^ 64)%N -> spelled (TOK_INT_LIT, show (Z.of_N n)) (list_ascii_of_string (dec n)).
Proof.
  intros Hn. assert (Hne : list_ascii_of_string (dec n) <> []).
  { unfold dec. destruct (N.to_uint n) eqn:E; [|done..]. exfalso. destruct n as [|p]; [done|]. by apply (DecimalPos.Unsigned.to_uint_nonnil p). }
  assert (Hd : forallb digit (list_ascii_of_string (dec n)) = true) by apply uint_digits.
  destruct (show_spec (Z.of_N n)) as (_ & _ & Hv); [lia|]. split; [by apply lexes_digits|]. split; [done|].
  cbn [snd]. rewrite Hv. unfold dec. rewrite uint_value. f_equal. apply DecimalN.Unsigned.of_to.
Qed.

(** ** Texts, word by word *)

Lemma chars_app s1 s2 : list_ascii_of_string (s1 ++ s2) = list_ascii_of_string s1 ++ list_ascii_of_string s2.
Proof. induction s1 as [|c s1 IH]; [done|]. exact (f_equal (cons c) IH). Qed.

(** Words with a space behind each. *)
Lemma writes_words ws its tl : Forall lexes ws -> SqlLayout.writes its tl -> SqlLayout.writes (ws ++ its) (text ws ++ tl).
Proof.
  intros Hws Ht. induction Hws as [|[ty w] ws Hl Hws IH]; [done|].
  change (text ((ty, w) :: ws)) with ((w ++ [" "%char]) ++ text ws). rewrite <- !app_assoc.
  apply (writes_word [] (ty, w) w (ws ++ its) (" "%char :: text ws ++ tl)); [constructor|by apply (spelled_itself (ty, w))|by destruct ty|].
  by apply writes_blank.
Qed.

Lemma bits_dec n : (n < 2 ^ 63)%N -> bits_items (Z.of_N n) = [(TOK_INT_LIT, show (Z.of_N n))].
Proof.
  intros Hn. unfold bits_items, number_items. destruct (Z.ltb_spec (Z.of_N n) (2 ^ 63)); [|lia].
  by destruct (Z.ltb_spec (Z.of_N n) 0); [lia|].
Qed.

(** A number at the end, and one with more behind it. *)
Lemma writes_dec n : (n < 2 ^ 63)%N -> SqlLayout.writes (bits_items (Z.of_N n)) (list_ascii_of_string (dec n)).
Proof.
  intros Hn. rewrite bits_dec by done. rewrite <- (app_nil_r (list_ascii_of_string _)).
  apply (writes_word []); [constructor|apply spelled_dec; lia|done|]. apply writes_end. constructor.
Qed.

Lemma writes_dec_then n its tl : (n < 2 ^ 63)%N -> SqlLayout.writes its tl ->
  SqlLayout.writes (bits_items (Z.of_N n) ++ its) (list_ascii_of_string (dec n) ++ " "%char :: tl).
Proof.
  intros Hn Ht. rewrite bits_dec by done. apply (writes_word []); [constructor|apply spelled_dec; lia|done|]. by apply writes_blank.
Qed.

(** A string in parentheses, the last of a statement. *)
Lemma writes_value m : plain m = true ->
  SqlLayout.writes (row_items [E_LITERAL (L_TEXT (list_ascii_of_string m))]) (list_ascii_of_string ("('" ++ m ++ "')")).
Proof.
  intros Hm. rewrite !chars_app.
  assert (He : escape (list_ascii_of_string m) = list_ascii_of_string m).
  { apply escape_none. induction m as [|c m IH]; [done|]. cbn in *. apply andb_true_iff in Hm as [Hc Hm].
    apply andb_true_iff in Hc as [Hc _]. by rewrite Hc, IH. }
  change (list_ascii_of_string "('" ++ list_ascii_of_string m ++ list_ascii_of_string "')")
    with ([] ++ ["("%char] ++ "'"%char :: list_ascii_of_string m ++ ["'"; ")"]%char).
  apply writes_word; [constructor|split; [split; [by split_and!|by do 2 eexists]|done]|done|].
  change ("'"%char :: list_ascii_of_string m ++ ["'"; ")"]%char) with ([] ++ ("'"%char :: list_ascii_of_string m ++ ["'"; ")"]%char)).
  replace ("'"%char :: list_ascii_of_string m ++ ["'"; ")"]%char) with (SqlPrint.quoted (list_ascii_of_string m) ++ [")"%char])
    by (unfold SqlPrint.quoted; rewrite He; cbn; by rewrite <- app_assoc).
  apply writes_word; [constructor|split; [apply lexes_string|done]|done|].
  apply (writes_word [] (tk TOK_RPAREN ")") [")"%char] [] []); [constructor|split; [split; [by split_and!|by do 2 eexists]|done]|done|].
  apply writes_end. constructor.
Qed.

(** ** The texts of [leased_worker.c] *)

Definition inbox : name := list_ascii_of_string "inbox".

Lemma text_claim ms : (ms < 2 ^ 63)%N -> is_text (A_CLAIM inbox (Z.of_N ms)) (claim_text ms).
Proof.
  intros Hm. unfold is_text, claim_text. rewrite chars_app.
  apply (writes_words [tk TOK_CLAIM "CLAIM"; tk TOK_FROM "FROM"; SqlRoundtrip.named inbox; tk TOK_FOR "FOR"]); [lex_all|by apply writes_dec].
Qed.

(** A verb with its ticket, and more words behind it. *)
Lemma text_ticket ty verb pos t its tl : lexes (tk ty verb) -> (pos < 2 ^ 63)%N -> (t < 2 ^ 63)%N ->
  (its = [] /\ tl = EmptyString \/ exists tl', tl = String " " tl' /\ SqlLayout.writes its (list_ascii_of_string tl')) ->
  SqlLayout.writes (tk ty verb :: ticket_items inbox (Z.of_N pos) (Z.of_N t) ++ its) (list_ascii_of_string (ticket_text verb pos t ++ tl)).
Proof.
  intros Hv Hp Ht Hrest. unfold ticket_text, ticket_items.
  replace (list_ascii_of_string _) with (text [tk ty verb; tk TOK_FROM "FROM"; SqlRoundtrip.named inbox; tk TOK_AT "AT"] ++
    list_ascii_of_string (dec pos) ++ " "%char :: text [tk TOK_TOKEN "TOKEN"] ++ list_ascii_of_string (dec t) ++ list_ascii_of_string tl).
  2: { rewrite !chars_app, <- !app_assoc. cbn [text flat_map tk]. rewrite <- !app_assoc. done. }
  cbn [app]. rewrite <- app_assoc. cbn [app].
  apply (writes_words [tk ty verb; tk TOK_FROM "FROM"; SqlRoundtrip.named inbox; tk TOK_AT "AT"]); [lex_all|].
  apply writes_dec_then; [done|]. apply (writes_words [tk TOK_TOKEN "TOKEN"]); [lex_all|].
  destruct Hrest as [[-> ->]|(tl' & -> & Hw)]; [|by apply writes_dec_then].
  rewrite !app_nil_r. by apply writes_dec.
Qed.

Lemma text_ack pos t : (pos < 2 ^ 63)%N -> (t < 2 ^ 63)%N -> is_text (A_ACK inbox (Z.of_N pos) (Z.of_N t)) (ack_text pos t).
Proof.
  intros Hp Ht. pose proof (text_ticket TOK_ACK "ACK" pos t [] EmptyString ltac:(lex_tk) Hp Ht (or_introl (conj eq_refl eq_refl))) as H.
  by rewrite app_nil_r, chars_app, app_nil_r in H.
Qed.

Lemma text_nack pos t : (pos < 2 ^ 63)%N -> (t < 2 ^ 63)%N -> is_text (A_NACK inbox (Z.of_N pos) (Z.of_N t)) (nack_text pos t).
Proof.
  intros Hp Ht. pose proof (text_ticket TOK_NACK "NACK" pos t [] EmptyString ltac:(lex_tk) Hp Ht (or_introl (conj eq_refl eq_refl))) as H.
  by rewrite app_nil_r, chars_app, app_nil_r in H.
Qed.

Lemma text_renew pos t ms : (pos < 2 ^ 63)%N -> (t < 2 ^ 63)%N -> (ms < 2 ^ 63)%N ->
  is_text (A_RENEW inbox (Z.of_N pos) (Z.of_N t) (Z.of_N ms)) (renew_text pos t ms).
Proof.
  intros Hp Ht Hm. apply (text_ticket TOK_RENEW "RENEW" pos t); [lex_tk|done..|]. right. exists ("FOR " ++ dec ms)%string. split; [done|].
  rewrite chars_app. apply (writes_words [tk TOK_FOR "FOR"]); [lex_all|by apply writes_dec].
Qed.

(** ** What they do *)

Section leased_worker.
Context (ev : env) (dir : list entry) (e : entry) (q : queue) (l : list job).

(** A text, prepared in a handle of the first size, and stepped. *)
Definition run_worker (sql : string) (Q : answer -> Prop) : Prop :=
  exists r, run_sql ev dir sql CybouDB_STMT_INITIAL_SIZE = Some r /\ Q r.

Lemma run_worker_text st sql Q : answers ev dir st Q -> is_text st sql -> statement_bytes st <= 20000 -> run_worker sql Q.
Proof.
  intros Ha Ht Hs. apply (Ha sql); [done|]. unfold fits, CybouDB_STMT_INITIAL_SIZE, BOUND_PLAN_SIZE. change STMT_H_ARENA_BUF with 38176. lia.
Qed.
End leased_worker.


(** ** The texts of [worker.c] *)

Definition audit : name := list_ascii_of_string "audit".
Definition reporting : name := list_ascii_of_string "reporting".

Lemma text_push ws mk m : (forall x, statement_items (mk x) = ws ++ row_items [E_LITERAL (L_TEXT x)]) -> Forall lexes ws -> plain m = true ->
  SqlLayout.writes (statement_items (mk (list_ascii_of_string m))) (text ws ++ list_ascii_of_string ("('" ++ m ++ "')")).
Proof. intros Hmk Hws Hm. rewrite Hmk. apply writes_words; [done|by apply writes_value]. Qed.

Lemma text_enqueue m : plain m = true -> is_text (A_ENQUEUE inbox (E_LITERAL (L_TEXT (list_ascii_of_string m)))) (Worker.enqueue_text m).
Proof.
  intros Hm. apply (text_push [tk TOK_ENQUEUE "ENQUEUE"; tk TOK_INTO "INTO"; SqlRoundtrip.named inbox; tk TOK_VALUES "VALUES"]
    (fun x => A_ENQUEUE inbox (E_LITERAL (L_TEXT x))) m); [done|lex_all|done].
Qed.

Lemma text_append note : plain note = true ->
  is_text (A_APPEND audit (E_LITERAL (L_TEXT (list_ascii_of_string ("done: " ++ note))))) (append_text note).
Proof.
  intros Hm. apply (text_push [tk TOK_APPEND "APPEND"; tk TOK_TO "TO"; SqlRoundtrip.named audit; tk TOK_VALUES "VALUES"]
    (fun x => A_APPEND audit (E_LITERAL (L_TEXT x))) ("done: " ++ note)); [done|lex_all|done].
Qed.

Lemma text_dequeue : is_text (A_DEQUEUE inbox) "DEQUEUE FROM inbox".
Proof. unfold is_text. write_word 0%nat "DEQUEUE"%string. write_word 1%nat "FROM"%string. write_word 1%nat "inbox"%string. apply writes_end. constructor. Qed.

Lemma text_read : is_text (A_READ audit reporting) "READ FROM audit AS reporting".
Proof.
  unfold is_text. write_word 0%nat "READ"%string. write_word 1%nat "FROM"%string. write_word 1%nat "audit"%string.
  write_word 1%nat "AS"%string. write_word 1%nat "reporting"%string. apply writes_end. constructor.
Qed.

Lemma text_create_queue : is_text (A_CREATE_QUEUE inbox) "CREATE QUEUE inbox".
Proof. unfold is_text. write_word 0%nat "CREATE"%string. write_word 1%nat "QUEUE"%string. write_word 1%nat "inbox"%string. apply writes_end. constructor. Qed.

Lemma text_create_stream : is_text (A_CREATE_STREAM audit) "CREATE STREAM audit".
Proof. unfold is_text. write_word 0%nat "CREATE"%string. write_word 1%nat "STREAM"%string. write_word 1%nat "audit"%string. apply writes_end. constructor. Qed.

Lemma text_create_cursor : is_text (A_CREATE_CURSOR reporting audit) "CREATE CURSOR reporting ON audit".
Proof.
  unfold is_text. write_word 0%nat "CREATE"%string. write_word 1%nat "CURSOR"%string. write_word 1%nat "reporting"%string.
  write_word 1%nat "ON"%string. write_word 1%nat "audit"%string. apply writes_end. constructor.
Qed.

(** *** The directory shows the worker's database *)

(** Messages a step has room for, and a text holds. *)
Definition short (x : string) : Prop := Z.of_nat (String.length x) <= 16384.

Record shows (ev : env) (dir : list entry) (w : Worker.world) : Prop := {
  sh_dir : catalog_ok dir;
  sh_inbox : exists q, at_name dir inbox = Some (OQueue q) /\ fifo_ok (ctx_of ev) q /\ contents q = Worker.inbox w;
  sh_audit : exists s, at_name dir audit = Some (OStream s) /\ stream_ok (sctx_of ev) s /\ a_first (abs s) = 0%nat /\
    a_records (abs s) = Worker.audit w /\ a_readers (abs s) !! map code reporting = Some (Worker.reporting w);
  sh_short : Forall short (Worker.inbox w ++ Worker.audit w);
}.

Lemma found dir n o : at_name dir n = Some o -> exists e, catalog_find_object dir n = Some e /\ e_object e = o.
Proof. unfold at_name. destruct (catalog_find_object dir n) as [e|]; [|done]. intros [= <-]. eauto. Qed.

Lemma short_step x : short x -> room_for step_arena (Z.of_nat (String.length x)) = true.
Proof. intros Hx. apply step_room. unfold short in Hx. change (STMT_H_ARENA_BUF - STMT_H_SELECT) with 34264. lia. Qed.

Lemma chars_length x : length (list_ascii_of_string x) = String.length x.
Proof. induction x as [|c x IH]; [done|]. cbn. by rewrite <- IH. Qed.

Lemma literal_bytes x : plain x = true -> short x -> expr_bytes (E_LITERAL (L_TEXT (list_ascii_of_string x))) <= 17000.
Proof.
  intros Hp Hs. cbn [expr_bytes]. rewrite escape_none.
  - rewrite chars_length. unfold short in Hs. pose proof (round8_bounds (Z.of_nat (String.length x) + 1)). lia.
  - clear Hs. induction x as [|c x IH]; [done|]. cbn in *. apply andb_true_iff in Hp as [Hc Hp]. apply andb_true_iff in Hc as [-> _]. by apply IH.
Qed.

Section worker.
Context (ev : env) (H : healthy ev).

Lemma leaves_at dir n r o m : leaves dir n r o -> forallb ident_char m = true -> folded m <> folded n -> at_name (x_dir r) m = at_name dir m.
Proof. intros [_ Hat] Hm Hne. rewrite Hat by done. by rewrite bool_decide_false. Qed.

Lemma leaves_here dir n r o : leaves dir n r o -> forallb ident_char n = true -> at_name (x_dir r) n = Some o.
Proof. intros [_ Hat] Hn. rewrite Hat by done. by rewrite bool_decide_true. Qed.

(** An answer that leaves another queue, or another stream. *)
Lemma shows_queue dir w r q l : shows ev dir w -> leaves dir inbox r (OQueue q) -> fifo_ok (ctx_of ev) q -> contents q = l -> Forall short l ->
  shows ev (x_dir r) (mk_world l (results w) (Worker.audit w) (Worker.reporting w)).
Proof.
  intros W Hl F Hc Hs. constructor; cbn [Worker.inbox Worker.audit Worker.reporting].
  - apply Hl.
  - exists q. split; [by eapply leaves_here|done].
  - destruct (sh_audit _ _ _ W) as (s & Ha & R). exists s. split; [|done]. rewrite (leaves_at dir inbox r (OQueue q)); [done|done|reflexivity|]. vm_compute. discriminate.
  - apply Forall_app. split; [done|]. by destruct (proj1 (Forall_app _ _ _) (sh_short _ _ _ W)).
Qed.

Lemma shows_stream dir w r s l p : shows ev dir w -> leaves dir audit r (OStream s) -> stream_ok (sctx_of ev) s ->
  a_first (abs s) = 0%nat -> a_records (abs s) = l -> a_readers (abs s) !! map code reporting = Some p -> Forall short l ->
  shows ev (x_dir r) (mk_world (Worker.inbox w) (results w) l p).
Proof.
  intros W Hl O H1 H2 H3 Hs. constructor; cbn [Worker.inbox Worker.audit Worker.reporting].
  - apply Hl.
  - destruct (sh_inbox _ _ _ W) as (q & Ha & R). exists q. split; [|done]. rewrite (leaves_at dir audit r (OStream s)); [done|done|reflexivity|]. vm_compute. discriminate.
  - exists s. split; [by eapply leaves_here|done].
  - apply Forall_app. split; [|done]. by destruct (proj1 (Forall_app _ _ _) (sh_short _ _ _ W)).
Qed.

Lemma world_same (w : Worker.world) : mk_world (Worker.inbox w) (results w) (Worker.audit w) (Worker.reporting w) = w.
Proof. by destruct w. Qed.

Lemma run_worker_mono dir sql (P Q : answer -> Prop) : run_worker ev dir sql P -> (forall r, P r -> Q r) -> run_worker ev dir sql Q.
Proof. intros (r & E & HP) HPQ. exists r. auto. Qed.

Context (dir : list entry) (w : Worker.world) (W : shows ev dir w).

Lemma enqueue_run m : plain m = true -> short m -> run_worker ev dir (Worker.enqueue_text m) (fun r => nothing_taken r /\
  (x_rc r = CybouDB_E_FULL /\ shows ev (x_dir r) w \/
   x_rc r = 0 /\ shows ev (x_dir r) (mk_world (Worker.inbox w ++ [m]) (results w) (Worker.audit w) (Worker.reporting w)))).
Proof using H W.
  intros Hm Hs. destruct (sh_inbox _ _ _ W) as (q & Ha & F & Hc). destruct (found _ _ _ Ha) as (e & Hf & Eo).
  assert (Hin : Forall short (Worker.inbox w)) by (by destruct (proj1 (Forall_app _ _ _) (sh_short _ _ _ W))).
  eapply run_worker_mono.
  - eapply run_worker_text; [eapply (enqueue_answers ev dir inbox e); try done; [apply W|]|by apply text_enqueue|].
    + rewrite chars_length. unfold short in Hs. lia.
    + pose proof (literal_bytes m Hm Hs). unfold statement_bytes. cbn [exprs bytes_of]. lia.
  - intros r [Ht Hr]. split; [done|]. rewrite string_of_list_ascii_of_string in Hr. destruct (full CAT_QUEUE q).
    + left. destruct Hr as [Hrc Hl]. split; [done|]. rewrite <- (world_same w). by eapply shows_queue.
    + right. destruct Hr as (Hrc & q' & Hl & F' & Hc'). split; [done|]. eapply shows_queue; try done; [by rewrite Hc', Hc|].
      apply Forall_app. by split; [|constructor].
Qed.

Lemma dequeue_run : run_worker ev dir "DEQUEUE FROM inbox" (fun r => x_rc r = 0 /\
  match Worker.inbox w with
  | [] => nothing_taken r /\ shows ev (x_dir r) w
  | m :: rest => x_message r = Some m /\ shows ev (x_dir r) (mk_world rest (results w) (Worker.audit w) (Worker.reporting w))
  end).
Proof using H W.
  destruct (sh_inbox _ _ _ W) as (q & Ha & F & Hc). destruct (found _ _ _ Ha) as (e & Hf & Eo).
  assert (Hin : Forall short (Worker.inbox w)) by (by destruct (proj1 (Forall_app _ _ _) (sh_short _ _ _ W))).
  eapply run_worker_mono.
  - eapply run_worker_text; [by eapply (dequeue_answers ev dir inbox e); try done; apply W|apply text_dequeue|vm_compute; discriminate].
  - intros r Hr. unfold dequeue_answer in Hr. rewrite Hc in Hr. destruct (Worker.inbox w) as [|m rest] eqn:Ew.
    + destruct Hr as (Hrc & Ht & Hl). split_and!; [done..|]. rewrite <- (world_same w). rewrite Ew. by eapply shows_queue.
    + apply list.Forall_cons in Hin as [Hm Hin]. rewrite short_step in Hr by done. destruct Hr as (Hrc & Hmsg & q' & Hl & F' & Hc').
      split; [done|]. split; [done|]. by eapply shows_queue.
Qed.

Lemma append_run note : plain note = true -> short ("done: " ++ note) -> run_worker ev dir (append_text note) (fun r => nothing_taken r /\
  (x_rc r = CybouDB_E_FULL /\ shows ev (x_dir r) w \/
   x_rc r = 0 /\ shows ev (x_dir r) (mk_world (Worker.inbox w) (results w) (Worker.audit w ++ ["done: " ++ note]%string) (Worker.reporting w)))).
Proof using H W.
  intros Hm Hs. destruct (sh_audit _ _ _ W) as (s & Ha & O & H1 & H2 & H3). destruct (found _ _ _ Ha) as (e & Hf & Eo).
  assert (Hin : Forall short (Worker.audit w)) by (by destruct (proj1 (Forall_app _ _ _) (sh_short _ _ _ W))).
  assert (Hlen : Z.of_nat (length (list_ascii_of_string ("done: " ++ note))) < 2 ^ 32) by (rewrite chars_length; unfold short in Hs; lia).
  eapply run_worker_mono.
  - eapply run_worker_text; [eapply (append_answers ev dir audit e); try done; apply W|by apply text_append|].
    pose proof (literal_bytes ("done: " ++ note) Hm Hs). unfold statement_bytes. cbn [exprs bytes_of]. lia.
  - intros r [Ht (s' & Hl & O' & E)]. split; [done|]. rewrite string_of_list_ascii_of_string in E. unfold a_append in E.
    rewrite chars_length in Hlen. destruct (Z.leb_spec (2 ^ 32) (Z.of_nat (String.length ("done: " ++ note)))); [lia|].
    destruct (a_full (abs s)); apply pair_equal_spec in E as [Hrc Es].
    + left. split; [done|]. rewrite <- (world_same w). by eapply shows_stream; try done; rewrite ?Es.
    + right. split; [done|]. eapply shows_stream; try done; rewrite ?Es; cbn [a_first a_records a_readers]; [done|by rewrite H2|done|].
      apply Forall_app. by split; [|constructor].
Qed.

Lemma read_run : run_worker ev dir "READ FROM audit AS reporting" (fun r => x_rc r = 0 /\
  match Worker.audit w !! Worker.reporting w with
  | None => nothing_taken r /\ shows ev (x_dir r) w
  | Some x => x_message r = Some x /\ shows ev (x_dir r) (mk_world (Worker.inbox w) (results w) (Worker.audit w) (S (Worker.reporting w)))
  end).
Proof using H W.
  destruct (sh_audit _ _ _ W) as (s & Ha & O & H1 & H2 & H3). destruct (found _ _ _ Ha) as (e & Hf & Eo).
  assert (Hin : Forall short (Worker.audit w)) by (by destruct (proj1 (Forall_app _ _ _) (sh_short _ _ _ W))).
  eapply run_worker_mono.
  - eapply run_worker_text; [|apply text_read|vm_compute; discriminate].
    eapply (cursor_answers ev dir audit e); try done; [apply W|vm_compute; lia].
  - intros r Hr. unfold read_answer, a_read in Hr. rewrite H3, H1, H2, Nat.sub_0_r in Hr.
    destruct (Worker.audit w !! Worker.reporting w) as [x|] eqn:Ex.
    + assert (Hx : short x) by (by eapply Forall_lookup_1). cbn [Z.eqb] in Hr. rewrite short_step in Hr by done.
      destruct Hr as (Hrc & Hmsg & s' & Hl & O' & Es). split; [done|]. split; [done|].
      eapply shows_stream; try done; rewrite ?Es; cbn [a_first a_records a_readers]; [done..|]. by rewrite lookup_insert_eq.
    + cbn [Z.eqb CybouDB_E_NOTFOUND] in Hr. destruct Hr as (Hrc & Ht & Hl). split; [done|]. split; [done|].
      rewrite <- (world_same w). by eapply shows_stream.
Qed.
End worker.

(** *** The schema *)

Definition create_statement (t : cat_type) (n : name) : ast := match t with CAT_QUEUE => A_CREATE_QUEUE n | CAT_STREAM => A_CREATE_STREAM n end.

Section schema.
Context (ev : env) (H : healthy ev) (Hno : feat_leases ev = false).

Lemma create_run t n sql dir : is_name n -> (length n <= 31)%nat -> catalog_ok dir -> at_name dir n = None -> (length dir < CAT_MAX_TABLES)%nat ->
  is_text (create_statement t n) sql ->
  run_worker ev dir sql (fun r => x_rc r = 0 /\ nothing_taken r /\ x_dir r = dir ++ [mk_entry (next_id dir) n (empty_object t n)] /\ catalog_ok (x_dir r)).
Proof using H.
  intros Hn Hl Hok Hat Hdir Ht. assert (Hf : catalog_find_object dir n = None) by (unfold at_name in Hat; by destruct (catalog_find_object dir n)).
  assert (Hobj : object_name n) by (split; [destruct Hn as [Hw _]; destruct n; [done|cbn in *; lia]|by apply name_chars]).
  assert (Hft : has_feature t ev = true) by (destruct t; [apply (h_queue _ H)|apply (h_stream _ H)]).
  assert (Hlen : (31 <? length n)%nat || (length n =? 0)%nat = false).
  { destruct Hobj as [Hb _]. destruct (Nat.ltb_spec 31 (length n)); [lia|]. by destruct (Nat.eqb_spec (length n) 0); [lia|]. }
  exists (sql_execute ev dir step_arena (PLAN_CREATE t (next_id dir) n)). split.
  - apply (run_text ev dir (create_statement t n)); [apply (h_pax _ H)|by destruct t; cbn [create_statement]; simple_statement|done|by destruct t; split; vm_compute|].
    intros u Hu. assert (Hu' : u <= 128) by (by destruct t). exists (mk_arena (u + BOUND_PLAN_SIZE + CybouDB_PAGE_SIZE) (CybouDB_STMT_INITIAL_SIZE - STMT_H_ARENA_BUF) false).
    assert (Hb : bind_create t ev dir (mk_arena (u + BOUND_PLAN_SIZE) (CybouDB_STMT_INITIAL_SIZE - STMT_H_ARENA_BUF) false) n =
      (inr (PLAN_CREATE t (next_id dir) n), mk_arena (u + BOUND_PLAN_SIZE + CybouDB_PAGE_SIZE) (CybouDB_STMT_INITIAL_SIZE - STMT_H_ARENA_BUF) false)).
    { unfold bind_create. rewrite Hft, Hlen, Hf. cbn [negb]. rewrite alloc_fits; [done|done|..]; change (round8 CybouDB_PAGE_SIZE) with 4096;
        change (CybouDB_STMT_INITIAL_SIZE - STMT_H_ARENA_BUF) with 27360; unfold BOUND_PLAN_SIZE, CybouDB_PAGE_SIZE; lia. }
    destruct t; cbn [create_statement bind_statement]; by rewrite Hb.
  - pose proof (put_new t ev dir n Hok Hobj Hf) as Hp. pose proof (put_healthy t ev dir n H Hok Hobj Hf Hdir) as Ep. rewrite Ep in Hp. cbn [Z.eqb] in Hp.
    assert (Er : sql_execute ev dir step_arena (PLAN_CREATE t (next_id dir) n) = storage_done (0, dir ++ [mk_entry (next_id dir) n (empty_object t n)]))
      by (cbn [sql_execute]; by rewrite Ep).
    rewrite Er. cbn [storage_done x_rc x_dir fst snd]. destruct Hp as [_ Hp]. done.
Qed.

(** The statements [main] makes its objects with, one after the other. *)
Lemma schema_run dir results : catalog_ok dir -> at_name dir inbox = None -> at_name dir audit = None -> (S (length dir) < CAT_MAX_TABLES)%nat ->
  run_worker ev dir "CREATE QUEUE inbox" (fun r1 => x_rc r1 = 0 /\ run_worker ev (x_dir r1) "CREATE STREAM audit" (fun r2 => x_rc r2 = 0 /\
    run_worker ev (x_dir r2) "CREATE CURSOR reporting ON audit" (fun r3 => x_rc r3 = 0 /\ shows ev (x_dir r3) (mk_world [] results [] 0)))).
Proof using H Hno.
  intros Hok Hi Ha Hl. assert (Ni : is_name inbox /\ is_name audit) by (repeat split; reflexivity). destruct Ni as [Ni Na].
  assert (Hne : folded audit <> folded inbox) by (vm_compute; discriminate).
  eapply run_worker_mono; [apply (create_run CAT_QUEUE inbox); try done; [vm_compute; lia|lia|apply text_create_queue]|].
  intros r1 (Hrc1 & _ & E1 & Hok1). split; [done|]. rewrite E1 in Hok1.
  assert (Ha1 : at_name (x_dir r1) audit = None) by (rewrite E1, at_name_app by done; cbn [e_name]; by rewrite bool_decide_false).
  assert (Hi1 : at_name (x_dir r1) inbox = Some (OQueue new_queue)) by (rewrite E1, at_name_app by done; cbn [e_name]; by rewrite bool_decide_true).
  eapply run_worker_mono; [apply (create_run CAT_STREAM audit); try done; [vm_compute; lia|by rewrite E1| |apply text_create_stream]|].
  { rewrite E1, length_app. cbn [length]. lia. }
  intros r2 (Hrc2 & _ & E2 & Hok2). split; [done|]. rewrite E2 in Hok2.
  assert (Hi2 : at_name (x_dir r2) inbox = Some (OQueue new_queue)) by (rewrite E2, at_name_app by done; cbn [e_name]; by rewrite bool_decide_false).
  assert (Ha2 : at_name (x_dir r2) audit = Some (OStream (new_stream "audit"))) by (rewrite E2, at_name_app by done; cbn [e_name]; by rewrite bool_decide_true).
  rewrite <- E2 in Hok2. destruct (found _ _ _ Ha2) as (e & Hf & Eo).
  assert (O : stream_ok (sctx_of ev) (new_stream "audit")) by (apply new_stream_ok; [apply (h_stream _ H)|done]).
  eapply run_worker_mono.
  - eapply run_worker_text; [|apply text_create_cursor|vm_compute; discriminate].
    by destruct (cursor_answers ev (x_dir r2) audit e Hok2 Na Hf H _ Eo O reporting ltac:(split; reflexivity) ltac:(vm_compute; lia)) as [Hadd _].
  - intros r3 [_ (s' & Hl3 & O' & E)]. vm_compute (a_add _ _) in E. apply pair_equal_spec in E as [Hrc3 Es]. split; [done|].
    constructor; cbn [Worker.inbox Worker.audit Worker.reporting].
    + apply Hl3.
    + exists new_queue. split; [|split; [by apply new_queue_fifo|done]]. rewrite (leaves_at (x_dir r2) audit r3 (OStream s')); [done|done|reflexivity|congruence].
    + exists s'. split; [by eapply leaves_here|]. split; [done|]. rewrite Es. split_and!; reflexivity.
    + constructor.
Qed.
End schema.

(** C8: the statements of [worker.c] over its queue and its stream, as the program
    writes them, refine the database the program is proved against.  CREATE QUEUE
    inbox, CREATE STREAM audit and CREATE CURSOR reporting ON audit, one after the
    other on a directory without those names, succeed and show an empty queue and
    an empty stream; from then on ENQUEUE INTO inbox puts its string at the end of
    the queue, DEQUEUE FROM inbox hands over the first, APPEND TO audit puts the
    line at the end of the stream, READ FROM audit AS reporting hands over the
    record at the cursor and moves the cursor - or nothing changes: the queue or
    stream is full, or has nothing to give. *)
Theorem worker_texts_refine ev : healthy ev ->
  (feat_leases ev = false -> forall dir res, catalog_ok dir -> at_name dir inbox = None -> at_name dir audit = None ->
    (S (length dir) < CAT_MAX_TABLES)%nat ->
    run_worker ev dir "CREATE QUEUE inbox" (fun r1 => x_rc r1 = 0 /\ run_worker ev (x_dir r1) "CREATE STREAM audit" (fun r2 => x_rc r2 = 0 /\
      run_worker ev (x_dir r2) "CREATE CURSOR reporting ON audit" (fun r3 => x_rc r3 = 0 /\ shows ev (x_dir r3) (mk_world [] res [] 0))))) /\
  forall dir w, shows ev dir w ->
    let world := fun i a p => mk_world i (results w) a p in
    (forall m, plain m = true -> short m -> run_worker ev dir (Worker.enqueue_text m) (fun r => nothing_taken r /\
       (x_rc r = CybouDB_E_FULL /\ shows ev (x_dir r) w \/
        x_rc r = 0 /\ shows ev (x_dir r) (world (Worker.inbox w ++ [m]) (Worker.audit w) (Worker.reporting w))))) /\
    run_worker ev dir "DEQUEUE FROM inbox" (fun r => x_rc r = 0 /\
      match Worker.inbox w with
      | [] => nothing_taken r /\ shows ev (x_dir r) w
      | m :: rest => x_message r = Some m /\ shows ev (x_dir r) (world rest (Worker.audit w) (Worker.reporting w))
      end) /\
    (forall note, plain note = true -> short ("done: " ++ note) -> run_worker ev dir (append_text note) (fun r => nothing_taken r /\
       (x_rc r = CybouDB_E_FULL /\ shows ev (x_dir r) w \/
        x_rc r = 0 /\ shows ev (x_dir r) (world (Worker.inbox w) (Worker.audit w ++ ["done: " ++ note]%string) (Worker.reporting w))))) /\
    run_worker ev dir "READ FROM audit AS reporting" (fun r => x_rc r = 0 /\
      match Worker.audit w !! Worker.reporting w with
      | None => nothing_taken r /\ shows ev (x_dir r) w
      | Some x => x_message r = Some x /\ shows ev (x_dir r) (world (Worker.inbox w) (Worker.audit w) (S (Worker.reporting w)))
      end).
Proof.
  intros H. split; [intros; by apply schema_run|]. intros dir w W world.
  split; [intros; by apply enqueue_run|]. split; [by apply dequeue_run|]. split; [intros; by apply append_run|by apply read_run].
Qed.

(** ** Witnesses *)

(** The directory [CREATE TABLE results] leaves. *)
Definition results_dir : list entry := [mk_entry 1 (list_ascii_of_string "results") OSchema].

Lemma results_dir_ok : catalog_ok results_dir.
Proof.
  apply catalog_ok_cons. split; [apply list.Forall_nil, I|]. split; [done|]. split; [|apply catalog_ok_nil].
  split; [vm_compute; lia|reflexivity].
Qed.

Lemma worker_texts_refine_witness : exists dir, run_worker demo_env dir (Worker.enqueue_text "alpha") (fun r =>
  shows demo_env (x_dir r) (mk_world [] [] [] 0) \/ shows demo_env (x_dir r) (mk_world ["alpha"%string] [] [] 0)).
Proof.
  destruct (worker_texts_refine demo_env demo_healthy) as [T1 T2].
  destruct (T1 eq_refl results_dir []) as (r1 & _ & _ & r2 & _ & _ & r3 & _ & _ & W); [exact results_dir_ok|reflexivity|reflexivity|vm_compute; lia|].
  exists (x_dir r3). destruct (T2 _ _ W) as [Te _]. destruct (Te "alpha"%string) as (r & E & _ & [[_ Hs]|[_ Hs]]); [reflexivity|vm_compute; discriminate|..].
  - exists r. split; [exact E|]. left. exact Hs.
  - exists r. split; [exact E|]. right. exact Hs.
Defined.


(** ** A session *)

(** Texts, each with the time it is stepped at, and what they answer: the code, the
    message and the ticket. *)
Fixpoint session (ev : Z -> env) (dir : list entry) (texts : list (Z * string)) : option (list (Z * option string * option (nat * Z))) :=
  match texts with
  | [] => Some []
  | (now, sql) :: texts' =>
      r ← run_sql (ev now) dir sql CybouDB_STMT_INITIAL_SIZE;
      rs ← session ev (x_dir r) texts';
      Some ((x_rc r, x_message r, x_ticket r) :: rs)
  end.

(** The queue statements of [leased_worker.c]'s [main], with its waits: the ticket
    of a message handed back and that of a lease taken over are refused, a lapsed
    lease nobody took is not. *)
Example leased_session :
  session (mk_env true true true true 0 true 10 0 0 (fun _ => 0)) results_dir
    [(1000, "CREATE QUEUE inbox"); (1000, enqueue_text "alpha"); (1000, enqueue_text "beta"); (1000, enqueue_text "gamma");
     (1000, claim_text 30000); (1050, ack_text 0 1); (1050, claim_text 30000); (1050, nack_text 1 1); (1050, ack_text 1 1);
     (1050, claim_text 30); (1250, ack_text 1 3); (1250, claim_text 30); (1450, claim_text 30000); (1450, ack_text 2 1);
     (1450, renew_text 2 2 30000); (1450, ack_text 2 2)]%string =
  Some [(0, None, None); (0, None, None); (0, None, None); (0, None, None);
        (0, Some "alpha", Some (0%nat, 1)); (0, None, None); (0, Some "beta", Some (1%nat, 1)); (0, None, None); (CybouDB_E_LEASE, None, None);
        (0, Some "beta", Some (1%nat, 3)); (0, None, None); (0, Some "gamma", Some (2%nat, 1)); (0, Some "gamma", Some (2%nat, 2));
        (CybouDB_E_LEASE, None, None); (0, None, None); (0, None, None)]%string.
Proof. vm_compute. reflexivity. Qed.
