(* ===== verification/Columns.v ===== *)
(** * Columns: reading a result

    The accessors of [src/api/cyboudb_c.asm] for the current row
    ([cyboudb_column_*]), for the current batch ([cyboudb_batch_*]) and for what a
    DEQUEUE or a CLAIM took ([cyboudb_message], [cyboudb_claim_ticket]).

    A plan's fields mean different things for different statements, and pointers
    are followed as the code follows them: memory is a partial function from
    addresses to bytes, and an accessor answers [None] where the code reads an
    address that is not mapped.  The contract is that of [cyboudb.h]: a row is a
    list of typed cells ([cell], [row_shown]). *)

From Stdlib Require Import String.
From S2P Require Import Prelude Engine Bindings Step.

Open Scope Z_scope.
Open Scope list_scope.

Definition VAR_CELL_SIZE : Z := 16.
Definition VAR_CELL_LENGTH : Z := 8.
Definition CAT_COLUMNS : Z := 96.
Definition PLAN_PROJ_RIGHT_BIT : Z := 0x80000000.
Definition CybouDB_E_PAX : Z := 31.
Definition CybouDB_E_VALUE : Z := 32.

(** ** Data *)

(** A byte at an address, when it is mapped. *)
Definition memory : Type := Z -> option Z.

(** A little-endian load of [n] bytes. *)
Fixpoint read_le (m : memory) (n : nat) (a : Z) : option Z :=
  match n with
  | O => Some 0
  | S n' => b ← m a; r ← read_le m n' (a + 1); Some (b + 256 * r)
  end.

(** The signed value of [w] bits. *)
Definition sext (w z : Z) : Z := if z <? 2 ^ (w - 1) then z else z - 2 ^ w.

Record cyboudb_colview := mk_colview { values_ptr : Z; null_mask : Z; type : Z; width : Z }.
Record cyboudb_batch_view := mk_batch_view { row_count : Z; columns : list cyboudb_colview }.

(** The fields of a bound plan that an accessor reads. *)
Record bound_plan := mk_bound_plan {
  PLAN_TYPE : stmt_type; PLAN_COUNT_STAR : bool; PLAN_DATA1 : Z; PLAN_DATA2 : Z; PLAN_DATA3 : Z;
  PLAN_SCHEMA_PAGE : Z; PLAN_JOIN_TYPE : Z; PLAN_JOIN_PROJECTIONS : Z; PLAN_RIGHT_SCHEMA : Z;
  PLAN_LEASE_POSITION : Z; PLAN_LEASE_TOKEN : Z }.

(** The fields of a statement that an accessor reads. *)
Record result := mk_result {
  r_magic : bool; r_state : stmt_state; r_cur_row : Z; r_act_mask : Z; r_cnt_accum : Z; r_plan : option bound_plan;
  RESULT_COUNT : Z; RESULT_INDICES : list Z; RESULT_TYPES : list Z; RESULT_NAMES : list string; r_batch : cyboudb_batch_view }.

Section accessors.
Context (m : memory).
(** [db_var_validate_chain] and the pages it walks: the bytes of the value a
    descriptor names, unless the chain is corrupt. *)
Context (chain : Z -> option (list Z)).

(** ** The current row *)

Definition cyboudb_column_count (st : option result) : Z :=
  match st with Some r => u32 (RESULT_COUNT r) | None => 0 end.

(** A result column below the count, by its index as an unsigned integer. *)
Definition result_index (r : result) (col_idx : Z) : option nat :=
  if u32 col_idx <? RESULT_COUNT r then Some (Z.to_nat (u32 col_idx)) else None.

Definition cyboudb_column_type (st : option result) (col_idx : Z) : option Z :=
  match st with
  | Some r => match result_index r col_idx with Some i => RESULT_TYPES r !! i | None => Some 0 end
  | None => Some 0
  end.

Definition cyboudb_column_name (st : option result) (col_idx : Z) : option string :=
  match st with
  | Some r => match result_index r col_idx with Some i => RESULT_NAMES r !! i | None => Some EmptyString end
  | None => Some EmptyString
  end.

(** The view of a projected column: its physical index is read where [PLAN_DATA2]
    points.  The batch view has 64 columns. *)
Definition projected (r : result) (p : bound_plan) (col : Z) : option cyboudb_colview :=
  idx ← read_le m 4 (PLAN_DATA2 p + 4 * col); columns (r_batch r) !! Z.to_nat idx.

Definition is_null (v : cyboudb_colview) (row : Z) : bool := Z.testbit (null_mask v) row.

(** What the scalar accessors share: the answer for COUNT, the answer with no
    value, and the load from a view that has one. *)
Definition column_scalar (st : option result) (col_idx : Z) (count : result -> Z) (none : Z)
    (load : cyboudb_colview -> Z -> option Z) : option Z :=
  match st with
  | None => Some none
  | Some r =>
      match r_plan r with
      | None => Some none
      | Some p =>
          if PLAN_COUNT_STAR p then Some (count r) else
          if PLAN_DATA1 p <=? u32 col_idx then Some none else
          v ← projected r p (u32 col_idx); load v (r_cur_row r)
      end
  end.

Definition cyboudb_column_is_null (st : option result) (col_idx : Z) : option Z :=
  column_scalar st col_idx (fun _ => 0) 1 (fun v row => Some (if is_null v row then 1 else 0)).

Definition load_int64 (v : cyboudb_colview) (row : Z) : option Z :=
  if is_null v row then Some 0 else
  if width v =? 8 then z ← read_le m 8 (values_ptr v + 8 * row); Some (sext 64 z) else
  if width v =? 4 then z ← read_le m 4 (values_ptr v + 4 * row); Some (sext 32 z) else
  m (values_ptr v + row).

Definition cyboudb_column_int64 (st : option result) (col_idx : Z) : option Z :=
  column_scalar st col_idx (fun r => if u32 col_idx =? 0 then sext 64 (r_cnt_accum r) else 0) 0 load_int64.

(** The same function: the caller reads the low half of its answer. *)
Definition cyboudb_column_int32 (st : option result) (col_idx : Z) : option Z :=
  z ← cyboudb_column_int64 st col_idx; Some (sext 32 (u32 z)).

(** The 32 bits of the value. *)
Definition cyboudb_column_float (st : option result) (col_idx : Z) : option Z :=
  column_scalar st col_idx (fun _ => 0) 0 (fun v row => if is_null v row then Some 0 else read_le m 4 (values_ptr v + 4 * row)).

Definition cyboudb_column_bool (st : option result) (col_idx : Z) : option Z :=
  column_scalar st col_idx (fun _ => 0) 0 (fun v row => if is_null v row then Some 0 else m (values_ptr v + row)).

(** ** Values of any length *)

(** What was written at [out]; whether [out] is not NULL. *)
Definition db_var_read_chain (descriptor : Z) (out : bool) (capacity : Z) : Z * list Z :=
  match chain descriptor with
  | None => (CybouDB_E_PAX, [])
  | Some l =>
      if capacity <? Z.of_nat (List.length l) then (CybouDB_E_VALUE, []) else
      if (List.length l =? 0)%nat then (0, []) else
      if negb out then (CybouDB_E_VALUE, []) else (0, l)
  end.

(** From the type check on: [unit] bytes to an element (1 or 4).  The answer, the
    bytes written and the length stored; a value's length is read from its
    descriptor before anything else is checked. *)
Definition copy_cell (v : cyboudb_colview) (row : Z) (wanted : bool) (unit : Z) (out : bool) (capacity : Z) : option (Z * list Z * Z) :=
  if negb wanted then Some (CybouDB_MISUSE, [], 0) else
  if negb (width v =? VAR_CELL_SIZE) then Some (CybouDB_MISUSE, [], 0) else
  if is_null v row then Some (CybouDB_OK, [], 0) else
  let descriptor := values_ptr v + VAR_CELL_SIZE * row in
  bytes ← read_le m 8 (descriptor + VAR_CELL_LENGTH);
  let length := bytes / unit in
  if capacity <? length then Some (CybouDB_MISUSE, [], length) else
  if length =? 0 then Some (CybouDB_OK, [], length) else
  if negb out then Some (CybouDB_MISUSE, [], length) else
  let '(rc, written) := db_var_read_chain descriptor out (if unit =? 1 then capacity else length * unit) in
  Some (if rc =? 0 then CybouDB_OK else if rc =? CybouDB_E_VALUE then CybouDB_MISUSE else CybouDB_ERROR, written, length).

Definition is_bytes (t : Z) : bool := (t =? CybouDB_TYPE_TEXT) || (t =? CybouDB_TYPE_BLOB).
Definition is_vector (t : Z) : bool := t =? CybouDB_TYPE_VECTOR.

Definition column_copy (wanted : Z -> bool) (unit : Z) (st : option result) (col_idx : Z) (out : bool) (capacity : Z) (out_length : bool) :
    option (Z * list Z * Z) :=
  match st with
  | None => Some (CybouDB_MISUSE, [], 0)
  | Some r =>
      if negb out_length then Some (CybouDB_MISUSE, [], 0) else
      match r_plan r with
      | None => Some (CybouDB_MISUSE, [], 0)
      | Some p =>
          if negb (bool_decide (r_state r = Step.STMT_STATE_SCANNING)) then Some (CybouDB_MISUSE, [], 0) else
          if PLAN_DATA1 p <=? u32 col_idx then Some (CybouDB_MISUSE, [], 0) else
          v ← projected r p (u32 col_idx); copy_cell v (r_cur_row r) (wanted (type v)) unit out capacity
      end
  end.

Definition cyboudb_column_bytes := column_copy is_bytes 1.
Definition cyboudb_column_vector_f32 := column_copy is_vector 4.

(** The dimension is the upper half of the column's flags in the schema page. *)
Definition cyboudb_column_vector_dimensions (st : option result) (col_idx : Z) : option Z :=
  match st with
  | None => Some CybouDB_MISUSE
  | Some r =>
      match r_plan r, result_index r col_idx with
      | Some p, Some i =>
          t ← RESULT_TYPES r !! i;
          if negb (is_vector t) then Some CybouDB_MISUSE else
          idx ← RESULT_INDICES r !! i;
          '(schema, idx) ←
            (if PLAN_JOIN_TYPE p =? 0 then Some (PLAN_SCHEMA_PAGE p, idx) else
             j ← read_le m 4 (PLAN_JOIN_PROJECTIONS p + 4 * Z.of_nat i);
             if j .& PLAN_PROJ_RIGHT_BIT =? 0 then Some (PLAN_SCHEMA_PAGE p, j)
             else Some (PLAN_RIGHT_SCHEMA p, j .& 0x7fffffff));
          z ← read_le m 4 (schema + CAT_COLUMNS + 32 * idx + 4); Some (z .>> 16)
      | _, _ => Some CybouDB_MISUSE
      end
  end.

(** ** The current batch *)

(** [batch]: whether the pointer is this statement's batch view. *)
Definition batch_view_column (r : result) (result_col : Z) : option cyboudb_colview :=
  idx ← RESULT_INDICES r !! Z.to_nat result_col; columns (r_batch r) !! Z.to_nat idx.

(** [Some None] is NULL. *)
Definition cyboudb_batch_column (st : option result) (batch : bool) (result_col : Z) : option (option cyboudb_colview) :=
  match st with
  | None => Some None
  | Some r =>
      if negb batch then Some None else
      if RESULT_COUNT r <=? u32 result_col then Some None else
      if negb (bool_decide (r_state r = Step.STMT_STATE_SCANNING)) && negb (bool_decide (r_state r = STMT_STATE_COUNT_DELIVER)) then Some None else
      v ← batch_view_column r (u32 result_col);
      Some (if is_bytes (type v) || is_vector (type v) then None else Some v)
  end.

(** A length or an error code. *)
Definition batch_copy (wanted : Z -> bool) (unit : Z) (st : option result) (batch : bool) (result_col row : Z) (out : bool) (capacity : Z) :
    option (Z * list Z) :=
  match st with
  | None => Some (CybouDB_MISUSE, [])
  | Some r =>
      if negb batch then Some (CybouDB_MISUSE, []) else
      if negb (bool_decide (r_state r = Step.STMT_STATE_SCANNING)) then Some (CybouDB_MISUSE, []) else
      if RESULT_COUNT r <=? result_col then Some (CybouDB_MISUSE, []) else
      if row_count (r_batch r) <=? row then Some (CybouDB_MISUSE, []) else
      if negb (Z.testbit (r_act_mask r) row) then Some (CybouDB_MISUSE, []) else
      v ← batch_view_column r result_col;
      '(rc, written, length) ← copy_cell v row (wanted (type v)) unit out capacity;
      Some (if rc =? CybouDB_OK then length else rc, written)
  end.

Definition cyboudb_batch_bytes := batch_copy is_bytes 1.
Definition cyboudb_batch_vector_f32 := batch_copy is_vector 4.

(** ** What a DEQUEUE or a CLAIM took *)

(** [n] bytes from an address. *)
Fixpoint read_bytes (n : nat) (a : Z) : option (list Z) :=
  match n with
  | O => Some []
  | S n' => b ← m a; l ← read_bytes n' (a + 1); Some (b :: l)
  end.

Definition gives_message (t : stmt_type) : bool := match t with STMT_DEQUEUE | STMT_CLAIM | STMT_READ => true | _ => false end.

(** The answer, the bytes written and the length stored. *)
Definition cyboudb_message (st : option result) (capacity : Z) (out_length : bool) : option (Z * list Z * Z) :=
  match st with
  | None => Some (CybouDB_MISUSE, [], 0)
  | Some r =>
      if negb out_length then Some (CybouDB_MISUSE, [], 0) else
      match r_plan r with
      | None => Some (CybouDB_MISUSE, [], 0)
      | Some p =>
          if negb (gives_message (PLAN_TYPE p)) then Some (CybouDB_MISUSE, [], 0) else
          if PLAN_DATA3 p =? 0 then Some (CybouDB_MISUSE, [], 0) else
          if capacity <? PLAN_DATA2 p then Some (CybouDB_MISUSE, [], 0) else
          l ← read_bytes (Z.to_nat (PLAN_DATA2 p)) (PLAN_DATA1 p); Some (CybouDB_OK, l, PLAN_DATA2 p)
      end
  end.

(** The position and the token, each where it was asked for. *)
Definition cyboudb_claim_ticket (st : option result) (position token : bool) : Z * option Z * option Z :=
  match st with
  | None => (CybouDB_MISUSE, None, None)
  | Some r =>
      if negb (r_magic r) then (CybouDB_MISUSE, None, None) else
      match r_plan r with
      | None => (CybouDB_MISUSE, None, None)
      | Some p =>
          if negb (bool_decide (PLAN_TYPE p = STMT_CLAIM)) then (CybouDB_MISUSE, None, None) else
          if PLAN_DATA3 p =? 0 then (CybouDB_MISUSE, None, None) else
          (CybouDB_OK, (if position then Some (PLAN_LEASE_POSITION p) else None), if token then Some (PLAN_LEASE_TOKEN p) else None)
      end
  end.
End accessors.

(** ** The contract: a row of typed cells *)

(** A number, or the bytes of a TEXT, BLOB or VECTOR. *)
Inductive cell_value := Num (z : Z) | Bytes (l : list Z).

(** [None] is SQL's NULL. *)
Record cell := mk_cell { c_type : Z; c_value : option cell_value }.

Definition width_of (t : Z) : Z :=
  if t =? CybouDB_TYPE_INT64 then 8 else if t =? CybouDB_TYPE_BOOL then 1 else
  if is_bytes t || is_vector t then VAR_CELL_SIZE else 4.

Definition is_number (t : Z) : bool := (1 <=? t) && (t <=? 4).

(** INT32 and INT64 are signed; FLOAT32 is its bits, BOOL 0 or 1. *)
Definition fits (t z : Z) : Prop :=
  if t =? CybouDB_TYPE_INT64 then - 2 ^ 63 <= z < 2 ^ 63 else
  if t =? CybouDB_TYPE_INT32 then - 2 ^ 31 <= z < 2 ^ 31 else
  if t =? CybouDB_TYPE_BOOL then 0 <= z < 2 else 0 <= z < 2 ^ 32.

(** The number in the current row, where a column has one. *)
Definition number_at (row : list cell) (col_idx : Z) : Z :=
  match row !! Z.to_nat (u32 col_idx) with Some (mk_cell _ (Some (Num z))) => z | _ => 0 end.

(** 1 for NULL, 0 for a value. *)
Definition null_at (row : list cell) (col_idx : Z) : Z :=
  match row !! Z.to_nat (u32 col_idx) with Some (mk_cell _ (Some _)) => 0 | _ => 1 end.

Definition type_at (row : list cell) (col_idx : Z) : Z := default 0 (c_type <$> row !! Z.to_nat (u32 col_idx)).

(** Copying a value of the wanted type out: NULL and empty have no bytes; too small
    a buffer or none gets the length and nothing else. *)
Definition copy_contract (wanted : Z -> bool) (unit : Z) (row : list cell) (col_idx : Z) (out : bool) (capacity : Z) : Z * list Z * Z :=
  match row !! Z.to_nat (u32 col_idx) with
  | Some (mk_cell t v) =>
      if negb (wanted t) then (CybouDB_MISUSE, [], 0) else
      match v with
      | Some (Bytes l) =>
          let length := Z.of_nat (List.length l) / unit in
          if capacity <? length then (CybouDB_MISUSE, [], length) else
          if length =? 0 then (CybouDB_OK, [], 0) else
          if negb out then (CybouDB_MISUSE, [], length) else (CybouDB_OK, l, length)
      | _ => (CybouDB_OK, [], 0)
      end
  | None => (CybouDB_MISUSE, [], 0)
  end.

Lemma sext_mod w z : 0 < w -> - 2 ^ (w - 1) <= z < 2 ^ (w - 1) -> sext w (z mod 2 ^ w) = z.
Proof.
  intros Hw Hz. assert (E : 2 ^ w = 2 * 2 ^ (w - 1)) by (rewrite <- Z.pow_succ_r by lia; f_equal; lia).
  assert (0 < 2 ^ (w - 1)) by (apply Z.pow_pos_nonneg; lia). unfold sext. rewrite E in *.
  destruct (decide (0 <= z)).
  - rewrite Z.mod_small by lia. destruct (Z.ltb_spec z (2 ^ (w - 1))); lia.
  - rewrite <- (Z.mod_unique z (2 * 2 ^ (w - 1)) (-1) (z + 2 * 2 ^ (w - 1))) by lia.
    destruct (Z.ltb_spec (z + 2 * 2 ^ (w - 1)) (2 ^ (w - 1))); lia.
Qed.

Lemma number_types t : is_number t = true ->
  t = CybouDB_TYPE_INT32 \/ t = CybouDB_TYPE_INT64 \/ t = CybouDB_TYPE_FLOAT32 \/ t = CybouDB_TYPE_BOOL.
Proof. unfold is_number, CybouDB_TYPE_INT32, CybouDB_TYPE_INT64, CybouDB_TYPE_FLOAT32, CybouDB_TYPE_BOOL. intros H. bool_to_prop. lia. Qed.

Section contract.
Context (m : memory) (chain : Z -> option (list Z)).

(** A cell in a row of a column view. *)
Definition represents (v : cyboudb_colview) (row : Z) (c : cell) : Prop :=
  type v = c_type c /\ width v = width_of (c_type c) /\
  match c_value c with
  | None => is_null v row = true
  | Some (Num z) => is_null v row = false /\ is_number (c_type c) = true /\ fits (c_type c) z /\
      read_le m (Z.to_nat (width v)) (values_ptr v + width v * row) = Some (z mod 2 ^ (8 * width v))
  | Some (Bytes l) => is_null v row = false /\ is_bytes (c_type c) || is_vector (c_type c) = true /\
      (is_vector (c_type c) = true -> Z.of_nat (List.length l) mod 4 = 0) /\
      chain (values_ptr v + VAR_CELL_SIZE * row) = Some l /\
      read_le m 8 (values_ptr v + VAR_CELL_SIZE * row + VAR_CELL_LENGTH) = Some (Z.of_nat (List.length l))
  end.

(** The statement shows a row of the batch: a SELECT that is not a COUNT, whose
    projection is where its plan says, column by column the cells. *)
Record row_shown (r : result) (p : bound_plan) (n : Z) (row : list cell) : Prop := {
  shown_plan : r_plan r = Some p;
  shown_count : PLAN_COUNT_STAR p = false;
  shown_columns : PLAN_DATA1 p = Z.of_nat (List.length row);
  shown_result : RESULT_COUNT r = Z.of_nat (List.length row);
  shown_short : Z.of_nat (List.length row) <= 64;
  shown_types : RESULT_TYPES r = map c_type row;
  shown_cells : forall i c, row !! i = Some c -> exists idx v, RESULT_INDICES r !! i = Some idx /\
    read_le m 4 (PLAN_DATA2 p + 4 * Z.of_nat i) = Some idx /\ columns (r_batch r) !! Z.to_nat idx = Some v /\ represents v n c;
}.

Lemma shown_index r p n row col_idx : row_shown r p n row ->
  if PLAN_DATA1 p <=? u32 col_idx then row !! Z.to_nat (u32 col_idx) = None
  else exists c idx v, row !! Z.to_nat (u32 col_idx) = Some c /\ RESULT_INDICES r !! Z.to_nat (u32 col_idx) = Some idx /\
    columns (r_batch r) !! Z.to_nat idx = Some v /\ projected m r p (u32 col_idx) = Some v /\ represents v n c.
Proof.
  intros S. pose proof (u32_range col_idx) as Hu. rewrite (shown_columns _ _ _ _ S).
  destruct (Z.leb_spec (Z.of_nat (List.length row)) (u32 col_idx)) as [Hle|Hlt]; [apply lookup_ge_None; lia|].
  destruct (lookup_lt_is_Some_2 row (Z.to_nat (u32 col_idx))) as [c Hc]; [lia|].
  destruct (shown_cells _ _ _ _ S _ _ Hc) as (idx & v & Hi & Hr & Hv & Hrep). exists c, idx, v. split_and!; try done.
  unfold projected. rewrite Z2Nat.id in Hr by lia. by rewrite Hr.
Qed.

(** The scalar accessors, from what they load of a cell. *)
Lemma scalar_at r p row col_idx count none load f : row_shown r p (r_cur_row r) row ->
  (forall v c, row !! Z.to_nat (u32 col_idx) = Some c -> represents v (r_cur_row r) c -> load v (r_cur_row r) = Some (f c)) ->
  column_scalar m (Some r) col_idx count none load = Some (from_option f none (row !! Z.to_nat (u32 col_idx))).
Proof.
  intros S Hl. pose proof (shown_index _ _ _ _ col_idx S) as Hx. unfold column_scalar. rewrite (shown_plan _ _ _ _ S), (shown_count _ _ _ _ S).
  destruct (_ <=? _); [by rewrite Hx|]. destruct Hx as (c & idx & v & Hc & _ & _ & -> & Hrep). cbn [mbind option_bind].
  rewrite (Hl v c Hc Hrep), Hc. done.
Qed.

Lemma load_int64_cell v row c : represents v row c -> c_type c <> CybouDB_TYPE_FLOAT32 -> is_bytes (c_type c) || is_vector (c_type c) = false ->
  load_int64 m v row = Some (match c_value c with Some (Num z) => z | _ => 0 end).
Proof.
  intros (_ & Hw & Hv) Hf Hb. unfold load_int64. destruct (c_value c) as [[z|l]|]; [|by destruct Hv as (_ & ? & _); congruence|by rewrite Hv].
  destruct Hv as (-> & Hn & Hfit & Hr). destruct (number_types _ Hn) as [Ht|[Ht|[Ht|Ht]]]; [| |done|]; rewrite Ht in *; cbn in Hw, Hfit;
    rewrite Hw in *; cbn [Z.eqb Pos.eqb] in *; change (Z.to_nat 8) with 8%nat in *; change (Z.to_nat 4) with 4%nat in *;
    change (Z.to_nat 1) with 1%nat in *.
  - rewrite Hr. cbn [mbind option_bind]. f_equal. apply (sext_mod 32); lia.
  - rewrite Hr. cbn [mbind option_bind]. f_equal. apply (sext_mod 64); lia.
  - cbn [read_le] in Hr. rewrite Z.mul_1_l in Hr. destruct (m (values_ptr v + row)) as [b|]; [|done]. cbn in Hr. injection Hr as Hr.
    f_equal. rewrite Z.mod_small in Hr by lia. lia.
Qed.

Lemma load_float_cell v row c : represents v row c -> c_type c = CybouDB_TYPE_FLOAT32 ->
  (if is_null v row then Some 0 else read_le m 4 (values_ptr v + 4 * row)) = Some (match c_value c with Some (Num z) => z | _ => 0 end).
Proof.
  intros (_ & Hw & Hv) Ht. rewrite Ht in *. destruct (c_value c) as [[z|l]|]; [|by destruct Hv as (_ & ? & _)|by rewrite Hv].
  destruct Hv as (-> & _ & Hfit & Hr). cbn in Hw, Hfit. rewrite Hw in Hr. change (Z.to_nat 4) with 4%nat in Hr. rewrite Hr. f_equal. apply Z.mod_small. lia.
Qed.

Lemma load_bool_cell v row c : represents v row c -> c_type c = CybouDB_TYPE_BOOL ->
  (if is_null v row then Some 0 else m (values_ptr v + row)) = Some (match c_value c with Some (Num z) => z | _ => 0 end).
Proof.
  intros R Ht. pose proof (load_int64_cell v row c R) as L. rewrite Ht in L. specialize (L ltac:(done) eq_refl). unfold load_int64 in L.
  destruct R as (_ & Hw & _). rewrite Ht in Hw. rewrite Hw in L. exact L.
Qed.

(** Copying from a view is the contract on its cell. *)
Lemma copy_cell_contract v n c wanted unit out capacity : represents v n c -> 0 <= capacity ->
  (unit = 1 /\ (forall t, wanted t = true -> is_bytes t = true) \/ unit = 4 /\ (forall t, wanted t = true -> is_vector t = true)) ->
  copy_cell m chain v n (wanted (type v)) unit out capacity = Some (copy_contract wanted unit [c] 0 out capacity).
Proof.
  intros (Ht & Hw & Hv) Hcap Hu. destruct c as [t o]. cbn [c_type c_value] in *. unfold copy_cell, copy_contract.
  change ([mk_cell t o] !! Z.to_nat (u32 0)) with (Some (mk_cell t o)). rewrite Ht.
  destruct (wanted t) eqn:Ewa; cbn [negb]; [|done].
  assert (Hbig : is_bytes t || is_vector t = true). { destruct Hu as [[_ H]|[_ H]]; apply H in Ewa; rewrite Ewa; [done|apply orb_true_r]. }
  assert (Hw16 : width v = VAR_CELL_SIZE).
  { rewrite Hw. unfold width_of, is_bytes, is_vector in *. destruct (t =? CybouDB_TYPE_INT64) eqn:E1.
    { apply Z.eqb_eq in E1 as ->. discriminate Hbig. }
    destruct (t =? CybouDB_TYPE_BOOL) eqn:E2; [apply Z.eqb_eq in E2 as ->; discriminate Hbig|]. by rewrite Hbig. }
  rewrite Hw16, Z.eqb_refl. cbn [negb]. destruct o as [[z|l]|].
  - destruct Hv as (_ & Hn & _). destruct (number_types _ Hn) as [E|[E|[E|E]]]; rewrite E in Hbig; discriminate Hbig.
  - destruct Hv as (-> & _ & H4 & Hch & Hlen). rewrite Hlen. cbn [mbind option_bind].
    destruct (capacity <? _) eqn:Ec; [done|]. destruct (Z.eqb_spec (Z.of_nat (List.length l) / unit) 0) as [->|Hne]; [done|].
    destruct out; cbn [negb]; [|done]. unfold db_var_read_chain. rewrite Hch.
    assert (Hfit : ((if unit =? 1 then capacity else Z.of_nat (List.length l) / unit * unit) <? Z.of_nat (List.length l)) = false).
    { apply Z.ltb_ge. bool_to_prop. destruct Hu as [[-> _]|[-> H]]; cbn [Z.eqb Pos.eqb].
      - rewrite Z.div_1_r in Ec. lia.
      - specialize (H4 (H _ Ewa)). pose proof (Z.div_mod (Z.of_nat (List.length l)) 4 ltac:(lia)). lia. }
    rewrite Hfit. destruct l as [|b l]; [by destruct Hu as [[-> _]|[-> _]]|]. done.
  - by rewrite Hv.
Qed.

Lemma copy_contract_cell wanted unit row col_idx out capacity c : row !! Z.to_nat (u32 col_idx) = Some c ->
  copy_contract wanted unit [c] 0 out capacity = copy_contract wanted unit row col_idx out capacity.
Proof. intros Hc. unfold copy_contract. by rewrite Hc. Qed.

Lemma column_copy_contract r p row wanted unit col_idx out capacity :
  row_shown r p (r_cur_row r) row -> r_state r = Step.STMT_STATE_SCANNING -> 0 <= capacity ->
  (unit = 1 /\ (forall t, wanted t = true -> is_bytes t = true) \/ unit = 4 /\ (forall t, wanted t = true -> is_vector t = true)) ->
  column_copy m chain wanted unit (Some r) col_idx out capacity true = Some (copy_contract wanted unit row col_idx out capacity).
Proof.
  intros S Hs Hcap Hu. pose proof (shown_index _ _ _ _ col_idx S) as Hx. unfold column_copy. rewrite (shown_plan _ _ _ _ S). cbn [negb].
  rewrite bool_decide_true by done. cbn [negb]. destruct (_ <=? _); [unfold copy_contract; by rewrite Hx|].
  destruct Hx as (c & idx & v & Hc & _ & _ & -> & Hrep). cbn [mbind option_bind].
  rewrite (copy_cell_contract v _ c) by done. by rewrite (copy_contract_cell _ _ row col_idx).
Qed.

Lemma batch_copy_contract r p n row wanted unit col_idx out capacity :
  row_shown r p n row -> r_state r = Step.STMT_STATE_SCANNING -> 0 <= capacity -> 0 <= col_idx < 2 ^ 32 ->
  n < row_count (r_batch r) -> Z.testbit (r_act_mask r) n = true ->
  (unit = 1 /\ (forall t, wanted t = true -> is_bytes t = true) \/ unit = 4 /\ (forall t, wanted t = true -> is_vector t = true)) ->
  batch_copy m chain wanted unit (Some r) true col_idx n out capacity =
    let '(rc, written, length) := copy_contract wanted unit row col_idx out capacity in
    Some (if rc =? CybouDB_OK then length else rc, written).
Proof.
  intros S Hs Hcap Hcol Hn Hm Hu. pose proof (shown_index _ _ _ _ col_idx S) as Hx. unfold batch_copy. cbn [negb].
  rewrite bool_decide_true by done. cbn [negb]. rewrite (shown_result _ _ _ _ S). rewrite (shown_columns _ _ _ _ S), (u32_small col_idx) in Hx by lia.
  destruct (_ <=? col_idx); [unfold copy_contract; by rewrite (u32_small col_idx), Hx by lia|].
  destruct (Z.leb_spec (row_count (r_batch r)) n); [lia|]. rewrite Hm. cbn [negb].
  destruct Hx as (c & idx & v & Hc & Hi & Hv & _ & Hrep). unfold batch_view_column. rewrite Hi. cbn [mbind option_bind]. rewrite Hv. cbn [mbind option_bind].
  rewrite (copy_cell_contract v n c) by done.
  rewrite (copy_contract_cell _ _ row col_idx) by (by rewrite (u32_small col_idx) by lia).
  by destruct (copy_contract _ _ _ _ _ _) as [[rc w] l].
Qed.
End contract.

(** ** Properties *)

(** The accessors read the current row.  For a SELECT that shows a row of
    typed cells, the column count and types are the row's; a column is NULL exactly
    when its cell is, or when there is no such column; and the accessor of a
    column's type answers its value: the number itself, sign and all, zero for NULL
    and for a column that is not there. *)
Theorem columns_read_the_row m chain r p row : row_shown m chain r p (r_cur_row r) row ->
  cyboudb_column_count (Some r) = Z.of_nat (List.length row) /\
  forall col_idx, let t := type_at row col_idx in let z := Some (number_at row col_idx) in
    cyboudb_column_type (Some r) col_idx = Some t /\
    cyboudb_column_is_null m (Some r) col_idx = Some (null_at row col_idx) /\
    (t = CybouDB_TYPE_INT64 \/ t = CybouDB_TYPE_INT32 \/ t = CybouDB_TYPE_BOOL \/ t = 0 -> cyboudb_column_int64 m (Some r) col_idx = z) /\
    (t = CybouDB_TYPE_INT32 -> cyboudb_column_int32 m (Some r) col_idx = z) /\
    (t = CybouDB_TYPE_FLOAT32 -> cyboudb_column_float m (Some r) col_idx = z) /\
    (t = CybouDB_TYPE_BOOL -> cyboudb_column_bool m (Some r) col_idx = z).
Proof.
  intros S. pose proof (shown_short _ _ _ _ _ _ S) as Hlen. split.
  { unfold cyboudb_column_count. rewrite (shown_result _ _ _ _ _ _ S). apply u32_small. lia. }
  intros col_idx t z. unfold t, z, type_at, number_at, null_at.
  assert (Hi : forall c, row !! Z.to_nat (u32 col_idx) = Some c -> (u32 col_idx <? RESULT_COUNT r) = true).
  { intros c Hc. rewrite (shown_result _ _ _ _ _ _ S). apply Z.ltb_lt. apply lookup_lt_Some in Hc. pose proof (u32_range col_idx). lia. }
  assert (H64 : default 0 (c_type <$> row !! Z.to_nat (u32 col_idx)) <> CybouDB_TYPE_FLOAT32 ->
    (let t := default 0 (c_type <$> row !! Z.to_nat (u32 col_idx)) in is_bytes t || is_vector t = false) ->
    cyboudb_column_int64 m (Some r) col_idx = Some (number_at row col_idx)).
  { intros Hf Hb. unfold cyboudb_column_int64.
    rewrite (scalar_at m chain r p row col_idx _ _ _ (fun c => match c_value c with Some (Num z) => z | _ => 0 end) S).
    - unfold number_at. by destruct (row !! _) as [[? [[?|?]|]]|].
    - intros v c Hc Hrep. rewrite Hc in Hf, Hb. by apply (load_int64_cell m chain). }
  split_and!.
  - unfold cyboudb_column_type, result_index. destruct (row !! Z.to_nat (u32 col_idx)) as [c|] eqn:Hc.
    + rewrite (Hi c) by done. rewrite (shown_types _ _ _ _ _ _ S), list_lookup_fmap, Hc. done.
    + rewrite (shown_result _ _ _ _ _ _ S). destruct (Z.ltb_spec (u32 col_idx) (Z.of_nat (List.length row))); [|done].
      apply lookup_ge_None in Hc. pose proof (u32_range col_idx). lia.
  - unfold cyboudb_column_is_null.
    rewrite (scalar_at m chain r p row col_idx _ _ _ (fun c => match c_value c with Some _ => 0 | None => 1 end) S).
    + by destruct (row !! _) as [[? [?|]]|].
    + intros v c _ (_ & _ & Hv). destruct (c_value c) as [[?|?]|]; [| |by rewrite Hv]; by destruct Hv as (-> & _).
  - intros Ht. apply H64; destruct Ht as [Ht|[Ht|[Ht|Ht]]]; by rewrite Ht.
  - intros Ht. unfold cyboudb_column_int32. rewrite H64 by (by rewrite Ht). cbn [mbind option_bind]. f_equal. unfold number_at.
    destruct (row !! _) as [[t' [[z'|l]|]]|] eqn:Hc; try done. cbn in Ht. subst t'.
    destruct (shown_cells _ _ _ _ _ _ S _ _ Hc) as (? & v & _ & _ & _ & _ & _ & _ & _ & Hfit & _). apply (sext_mod 32); [lia|]. exact Hfit.
  - intros Ht. unfold cyboudb_column_float.
    rewrite (scalar_at m chain r p row col_idx _ _ _ (fun c => match c_value c with Some (Num z) => z | _ => 0 end) S).
    + by destruct (row !! _) as [[? [[?|?]|]]|].
    + intros v c Hc Hrep. rewrite Hc in Ht. by apply (load_float_cell m chain).
  - intros Ht. unfold cyboudb_column_bool.
    rewrite (scalar_at m chain r p row col_idx _ _ _ (fun c => match c_value c with Some (Num z) => z | _ => 0 end) S).
    + by destruct (row !! _) as [[? [[?|?]|]]|].
    + intros v c Hc Hrep. rewrite Hc in Ht. by apply (load_bool_cell m chain).
Qed.


(** C39: a DEQUEUE has no columns, and asking for one faults.  After a step that
    took a message of fewer than 4096 bytes, where the first page of memory is not
    mapped, the column count is zero, but reading a column follows the length of
    the message as if it were a pointer. *)
Theorem column_of_dequeue_faults m r capacity l n :
  cyboudb_message m (Some r) capacity true = Some (CybouDB_OK, l, n) -> l <> [] -> n < 4096 ->
  (forall a, a < 4096 -> m a = None) -> RESULT_COUNT r = 0 -> (forall p, r_plan r = Some p -> PLAN_COUNT_STAR p = false) ->
  cyboudb_column_count (Some r) = 0 /\ cyboudb_column_type (Some r) 0 = Some 0 /\
  cyboudb_column_is_null m (Some r) 0 = None /\ cyboudb_column_int64 m (Some r) 0 = None.
Proof.
  intros Hm Hl Hn Hpage Hc Hstar. unfold cyboudb_message in Hm. destruct (r_plan r) as [p|] eqn:Hp; [|done]. cbn [negb] in Hm.
  destruct (negb _); [done|]. destruct (PLAN_DATA3 p =? 0); [done|]. destruct (capacity <? PLAN_DATA2 p); [done|].
  destruct (read_bytes m _ _) as [l'|] eqn:Er; [|done]. cbn in Hm. injection Hm as -> <-.
  assert (H1 : 4096 <= PLAN_DATA1 p).
  { destruct (Z.to_nat (PLAN_DATA2 p)) as [|k]; [by injection Er as <-|]. cbn [read_bytes] in Er.
    destruct (decide (PLAN_DATA1 p < 4096)); [by rewrite Hpage in Er|lia]. }
  assert (Hpr : projected m r p 0 = None). { unfold projected. cbn [read_le]. by rewrite (Hpage (PLAN_DATA2 p + 4 * 0)) by lia. }
  assert (Hle : (PLAN_DATA1 p <=? 0) = false) by lia.
  unfold cyboudb_column_count, cyboudb_column_type, result_index, cyboudb_column_is_null, cyboudb_column_int64, column_scalar.
  change (u32 0) with 0. rewrite Hc, Hp, (Hstar p eq_refl), Hle, Hpr. done.
Qed.

(** ** Witnesses *)

(** Blocks of bytes at their addresses. *)
Fixpoint mapped (blocks : list (Z * list Z)) (a : Z) : option Z :=
  match blocks with
  | [] => None
  | (base, l) :: rest => if base <=? a then match l !! Z.to_nat (a - base) with Some b => Some b | None => mapped rest a end else mapped rest a
  end.

(** Row 1 of a batch of two: -5, a NULL, and the text "hi". *)
Definition demo_memory : memory :=
  mapped [(8192, [0; 0; 0; 0; 1; 0; 0; 0; 2; 0; 0; 0]); (9008, [251; 255; 255; 255; 255; 255; 255; 255]); (10024, [2; 0; 0; 0; 0; 0; 0; 0])].
Definition demo_chain (a : Z) : option (list Z) := if a =? 10016 then Some [104; 105] else None.
Definition demo_plan : bound_plan := mk_bound_plan STMT_SELECT false 3 8192 0 0 0 0 0 0 0.
Definition demo_batch : cyboudb_batch_view :=
  mk_batch_view 2 [mk_colview 9000 0 CybouDB_TYPE_INT64 8; mk_colview 9500 2 CybouDB_TYPE_INT32 4; mk_colview 10000 0 CybouDB_TYPE_TEXT 16].
Definition demo_result : result :=
  mk_result true Step.STMT_STATE_SCANNING 1 2 0 (Some demo_plan) 3 [0; 1; 2] [2; 1; 5] [] demo_batch.
Definition demo_row : list cell :=
  [mk_cell CybouDB_TYPE_INT64 (Some (Num (-5))); mk_cell CybouDB_TYPE_INT32 None; mk_cell CybouDB_TYPE_TEXT (Some (Bytes [104; 105]))].

Lemma demo_shown : row_shown demo_memory demo_chain demo_result demo_plan 1 demo_row.
Proof.
  constructor; try reflexivity; [done|]. intros [|[|[|i]]] c; intros Hc; try done; injection Hc as <-.
  - exists 0, (mk_colview 9000 0 CybouDB_TYPE_INT64 8). split_and!; try reflexivity.
    unfold represents. cbn [c_value c_type]. split_and!; try reflexivity. change (- 2 ^ 63 <= -5 < 2 ^ 63). lia.
  - exists 1, (mk_colview 9500 2 CybouDB_TYPE_INT32 4). split_and!; try reflexivity. unfold represents. cbn [c_value c_type]. split_and!; reflexivity.
  - exists 2, (mk_colview 10000 0 CybouDB_TYPE_TEXT 16). split_and!; try reflexivity. unfold represents. cbn [c_value c_type]. split_and!; try reflexivity. discriminate.
Qed.

Lemma columns_read_the_row_witness :
  cyboudb_column_int64 demo_memory (Some demo_result) 0 = Some (-5) /\ cyboudb_column_is_null demo_memory (Some demo_result) 1 = Some 1.
Proof.
  destruct (columns_read_the_row _ _ _ _ _ demo_shown) as [_ T]. split.
  - destruct (T 0) as (_ & _ & H & _). rewrite H; [reflexivity|left; reflexivity].
  - destruct (T 1) as (_ & H & _). exact H.
Defined.


(** The message "hi" at address 8192. *)
Definition taken : result :=
  mk_result true Step.STMT_STATE_INIT 0 0 0 (Some (mk_bound_plan STMT_DEQUEUE false 8192 2 1 0 0 0 0 0 0)) 0 [] [] [] (mk_batch_view 0 []).

Lemma column_of_dequeue_faults_witness :
  cyboudb_message (mapped [(8192, [104; 105])]) (Some taken) 64 true = Some (CybouDB_OK, [104; 105], 2) /\
  cyboudb_column_int64 (mapped [(8192, [104; 105])]) (Some taken) 0 = None.
Proof.
  split; [reflexivity|]. apply (column_of_dequeue_faults (mapped [(8192, [104; 105])]) taken 64 [104; 105] 2).
  - reflexivity.
  - discriminate.
  - lia.
  - intros a Ha. unfold mapped. destruct (Z.leb_spec 8192 a); [lia|reflexivity].
  - reflexivity.
  - intros p [= <-]. reflexivity.
Defined.
