(* ===== verification/Contract.v ===== *)
(** * Contract: the calls of the public header

    What [include/cyboudb.h] promises of the calls around a result and around a
    statement's life, as functions of what the caller can know, and the proof that
    [Columns], [Step] and [Api] keep it: the three accessors of a batch, the
    message and the ticket of a step, a vector's dimension; opening, one-shot
    execution, reset and finalize. *)

From Stdlib Require Import String.
From S2P Require Import Prelude Engine Bindings Step Columns Api.

Open Scope Z_scope.
Open Scope list_scope.

(** ** Results *)

(** A batch as a caller sees it: whether it is this statement's and its scan is in
    progress, which rows it selects, and their cells. *)
Record scene := mk_scene {
  current : bool;
  selected : Z -> bool;
  rows_of_batch : Z -> list cell;
}.

Definition batch_row (s : scene) (row : Z) : option (list cell) :=
  if current s && selected s row then Some (rows_of_batch s row) else None.

(** The length on success, or an error code; the bytes written. *)
Definition length_or_code (a : Z * list Z * Z) : Z * list Z :=
  let '(rc, written, length) := a in (if rc =? CybouDB_OK then length else rc, written).

Definition batch_bytes_contract (s : scene) (col row : Z) (out : bool) (capacity : Z) : Z * list Z :=
  match batch_row s row with
  | Some cells => length_or_code (copy_contract is_bytes 1 cells col out capacity)
  | None => (CybouDB_MISUSE, [])
  end.

Definition batch_vector_contract (s : scene) (col row : Z) (out : bool) (capacity_floats : Z) : Z * list Z :=
  match batch_row s row with
  | Some cells => length_or_code (copy_contract is_vector 4 cells col out capacity_floats)
  | None => (CybouDB_MISUSE, [])
  end.

(** A message handed over, or none: the code, the bytes written, the length. *)
Definition message_contract (took : option (list Z)) (capacity : Z) (out_length : bool) : Z * list Z * Z :=
  match took with
  | Some l =>
      if negb out_length || (capacity <? Z.of_nat (List.length l)) then (CybouDB_MISUSE, [], 0)
      else (CybouDB_OK, l, Z.of_nat (List.length l))
  | None => (CybouDB_MISUSE, [], 0)
  end.

(** The position and the token of the claim, each where a pointer asks for it. *)
Definition ticket_contract (claim : option (Z * Z)) (position token : bool) : Z * option Z * option Z :=
  match claim with
  | Some (p, t) => (CybouDB_OK, (if position then Some p else None), if token then Some t else None)
  | None => (CybouDB_MISUSE, None, None)
  end.

(** The dimension of each VECTOR column; [None] for a column of another type. *)
Definition dimensions_contract (dims : list (option Z)) (col_idx : Z) : Z :=
  match dims !! Z.to_nat (u32 col_idx) with Some (Some d) => d | _ => CybouDB_MISUSE end.

Section results.
Context (m : memory) (chain : Z -> option (list Z)).

(** The view of a column that is not TEXT, BLOB or VECTOR, and NULL otherwise. *)
Definition batch_column_contract (s : scene) (types : list Z) (col : Z) (answer : option cyboudb_colview) : Prop :=
  match types !! Z.to_nat (u32 col) with
  | Some t =>
      if negb (current s) || is_bytes t || is_vector t then answer = None
      else exists v, answer = Some v /\ type v = t /\
        forall n c, selected s n = true -> rows_of_batch s n !! Z.to_nat (u32 col) = Some c -> represents m chain v n c
  | None => answer = None
  end.

(** A SELECT that is not a COUNT delivers the scene. *)
Record batch_shown (r : result) (p : bound_plan) (s : scene) (types : list Z) : Prop := {
  bs_count : RESULT_COUNT r = Z.of_nat (List.length types);
  bs_short : Z.of_nat (List.length types) <= 64;
  bs_current : current s = bool_decide (r_state r = Step.STMT_STATE_SCANNING);
  bs_scalar : r_state r <> STMT_STATE_COUNT_DELIVER;
  bs_selected : forall n, selected s n = (n <? row_count (r_batch r)) && Z.testbit (r_act_mask r) n;
  bs_types : forall i t, types !! i = Some t -> exists v, batch_view_column r (Z.of_nat i) = Some v /\ type v = t;
  bs_rows : forall n, selected s n = true -> row_shown m chain r p n (rows_of_batch s n);
}.

(** The last step took a message, or it took none. *)
Definition took_message (r : result) (took : option (list Z)) : Prop :=
  match took with
  | Some l => exists p, r_plan r = Some p /\ gives_message (PLAN_TYPE p) = true /\ PLAN_DATA3 p <> 0 /\
      PLAN_DATA2 p = Z.of_nat (List.length l) /\ read_bytes m (List.length l) (PLAN_DATA1 p) = Some l
  | None => forall p, r_plan r = Some p -> gives_message (PLAN_TYPE p) = false \/ PLAN_DATA3 p = 0
  end.

Definition took_claim (r : result) (claim : option (Z * Z)) : Prop :=
  match claim with
  | Some (position, token) => r_magic r = true /\ exists p, r_plan r = Some p /\ PLAN_TYPE p = STMT_CLAIM /\ PLAN_DATA3 p <> 0 /\
      PLAN_LEASE_POSITION p = position /\ PLAN_LEASE_TOKEN p = token
  | None => r_magic r = true -> forall p, r_plan r = Some p -> PLAN_TYPE p <> STMT_CLAIM \/ PLAN_DATA3 p = 0
  end.

(** A table's columns with their dimensions, in the schema page of a plan without
    a join: the upper half of a column's flags. *)
Record dimensions_shown (r : result) (p : bound_plan) (dims : list (option Z)) : Prop := {
  ds_plan : r_plan r = Some p;
  ds_join : PLAN_JOIN_TYPE p = 0;
  ds_count : RESULT_COUNT r = Z.of_nat (List.length dims);
  ds_cells : forall i d, dims !! i = Some d -> exists t idx, RESULT_TYPES r !! i = Some t /\ RESULT_INDICES r !! i = Some idx /\
    is_vector t = bool_decide (is_Some d) /\
    forall z, d = Some z -> exists low, 0 <= low < 2 ^ 16 /\
      read_le m 4 (PLAN_SCHEMA_PAGE p + CAT_COLUMNS + 32 * idx + 4) = Some (z * 2 ^ 16 + low);
}.

Lemma batch_copy_follows wanted unit r p s types col row out capacity : batch_shown r p s types -> 0 <= capacity -> 0 <= col < 2 ^ 32 ->
  (unit = 1 /\ (forall t, wanted t = true -> is_bytes t = true) \/ unit = 4 /\ (forall t, wanted t = true -> is_vector t = true)) ->
  batch_copy m chain wanted unit (Some r) true col row out capacity =
    Some (match batch_row s row with
          | Some cells => length_or_code (copy_contract wanted unit cells col out capacity)
          | None => (CybouDB_MISUSE, [])
          end).
Proof.
  intros S Hcap Hcol Hu. unfold batch_row. rewrite (bs_current _ _ _ _ S). pose proof (bs_selected _ _ _ _ S row) as Hsel.
  destruct (bool_decide (r_state r = Step.STMT_STATE_SCANNING)) eqn:Est; [|unfold batch_copy; cbn [negb andb]; by rewrite Est].
  cbn [andb]. destruct (selected s row) eqn:Es.
  - symmetry in Hsel. apply andb_true_iff in Hsel as [Hlt Hm]. apply bool_decide_eq_true in Est.
    rewrite (batch_copy_contract m chain r p row (rows_of_batch s row)); try done; [|by apply S|lia].
    by destruct (copy_contract _ _ _ _ _ _) as [[? ?] ?].
  - unfold batch_copy. cbn [negb]. rewrite Est. cbn [negb]. destruct (RESULT_COUNT r <=? col); [done|].
    symmetry in Hsel. apply andb_false_iff in Hsel as [Hlt|Hm].
    + apply Z.ltb_ge in Hlt. by destruct (Z.leb_spec (row_count (r_batch r)) row); [|lia].
    + destruct (row_count (r_batch r) <=? row); [done|]. by rewrite Hm.
Qed.

Lemma batch_column_follows r p s types col : batch_shown r p s types ->
  exists a, cyboudb_batch_column (Some r) true col = Some a /\ batch_column_contract s types col a.
Proof.
  intros S. unfold cyboudb_batch_column, batch_column_contract. cbn [negb]. rewrite (bs_count _ _ _ _ S). pose proof (u32_range col) as Hu.
  destruct (Z.leb_spec (Z.of_nat (List.length types)) (u32 col)) as [Hle|Hlt].
  { exists None. split; [done|]. by rewrite lookup_ge_None_2 by lia. }
  destruct (lookup_lt_is_Some_2 types (Z.to_nat (u32 col))) as [t Ht]; [lia|]. rewrite Ht, (bs_current _ _ _ _ S).
  rewrite (bool_decide_false (r_state r = STMT_STATE_COUNT_DELIVER)) by apply S. rewrite andb_true_r.
  destruct (bool_decide (r_state r = Step.STMT_STATE_SCANNING)); cbn [negb orb]; [|by exists None].
  destruct (bs_types _ _ _ _ S _ _ Ht) as (v & Hv & Hty). rewrite Z2Nat.id in Hv by lia. rewrite Hv. cbn [mbind option_bind]. rewrite Hty.
  eexists. split; [done|]. destruct (is_bytes t || is_vector t); [done|]. exists v. split; [done|]. split; [done|].
  intros n c Hn Hc. destruct (shown_cells _ _ _ _ _ _ (bs_rows _ _ _ _ S n Hn) _ _ Hc) as (idx & v' & Hi & _ & Hv' & Hrep).
  unfold batch_view_column in Hv. rewrite Hi in Hv. cbn [mbind option_bind] in Hv. rewrite Hv' in Hv. by injection Hv as <-.
Qed.

Lemma message_follows r took capacity out_length : took_message r took ->
  cyboudb_message m (Some r) capacity out_length = Some (message_contract took capacity out_length).
Proof.
  unfold cyboudb_message, message_contract. destruct took as [l|]; cbn [took_message].
  - intros (p & -> & -> & Hd & Hlen & Hr). apply Z.eqb_neq in Hd. rewrite Hd, Hlen. cbn [negb]. destruct out_length; cbn [negb orb]; [|done].
    destruct (capacity <? _); [done|]. rewrite Nat2Z.id, Hr. done.
  - intros Hn. destruct (negb out_length); [done|]. destruct (r_plan r) as [p|]; [|done]. destruct (Hn p eq_refl) as [-> | ->]; [done|].
    by destruct (gives_message _).
Qed.

Lemma ticket_follows r claim position token : took_claim r claim ->
  cyboudb_claim_ticket (Some r) position token = ticket_contract claim position token.
Proof.
  unfold cyboudb_claim_ticket, ticket_contract. destruct claim as [[pos t]|]; cbn [took_claim].
  - intros (-> & p & -> & Ht & Hd & <- & <-). apply Z.eqb_neq in Hd. rewrite Hd. cbn [negb]. by rewrite bool_decide_true by done.
  - intros Hn. destruct (r_magic r); [|done]. cbn [negb]. destruct (r_plan r) as [p|]; [|done].
    destruct (Hn eq_refl p eq_refl) as [H | ->]; [by rewrite bool_decide_false by done|]. by destruct (bool_decide _).
Qed.

Lemma dimensions_follow r p dims col_idx : dimensions_shown r p dims ->
  cyboudb_column_vector_dimensions m (Some r) col_idx = Some (dimensions_contract dims col_idx).
Proof.
  intros S. unfold cyboudb_column_vector_dimensions, dimensions_contract, result_index.
  rewrite (ds_plan _ _ _ S), (ds_count _ _ _ S). pose proof (u32_range col_idx) as Hu.
  destruct (Z.ltb_spec (u32 col_idx) (Z.of_nat (List.length dims))) as [Hlt|Hge]; [|by rewrite lookup_ge_None_2 by lia].
  destruct (lookup_lt_is_Some_2 dims (Z.to_nat (u32 col_idx))) as [d Hd]; [lia|]. rewrite Hd.
  destruct (ds_cells _ _ _ S _ _ Hd) as (t & idx & -> & Hi & Hv & Hz). cbn [mbind option_bind]. rewrite Hv.
  destruct d as [z|]; [|done]. rewrite bool_decide_true by done. cbn [negb]. rewrite Hi. cbn [mbind option_bind].
  rewrite (ds_join _ _ _ S). cbn [Z.eqb mbind option_bind]. destruct (Hz z eq_refl) as (low & Hlow & ->). cbn [mbind option_bind].
  f_equal. rewrite Z.shiftr_div_pow2, Z.add_comm, Z.div_add by lia. rewrite Z.div_small by lia. lia.
Qed.
End results.

(** ** Handles *)

(** Opening: the arguments, whether memory is there, and what the engine says. *)
Definition open_contract (arguments granted : bool) (rc : Z) : Z :=
  if negb arguments then CybouDB_MISUSE else
  if negb granted then CybouDB_NOMEM else
  if rc =? 0 then CybouDB_OK else if rc =? CybouDB_E_BUSY then CybouDB_BUSY else CybouDB_ERROR.

(** Reset takes a statement back to where it can be run again, and keeps its plan. *)
Definition reset_contract {P X} (s s' : handle P X) : Prop :=
  s_state s' = STMT_STATE_INIT /\ s_plan s' = s_plan s /\ s_magic s' = s_magic s /\ s_size s' = s_size s.

(** Finalize gives back the statement's block and its place in the count. *)
Definition finalize_contract {F C P X} (w w' : world F) (d d' : conn C) (s : handle P X) : Prop :=
  live (heap w') = remove_one (s_size s) (live (heap w)) /\ h_stmt_count d' = h_stmt_count d - 1 /\ files w' = files w.

Section handles.
Context {F C P X : Type} `{Core F C P X}.

(** Executing is preparing, stepping past the rows, and finalizing: the code is the
    one preparing refused with, or OK for a last step that is done, or that step's. *)
Inductive passes : world F * conn C * option (handle P X) -> world F * conn C * option (handle P X) -> Prop :=
  | passes_nil x : passes x x
  | passes_row w d st w1 d1 st1 x : step w d st = (w1, d1, st1, CybouDB_ROW) -> passes (w1, d1, st1) x -> passes (w, d, st) x.

Inductive exec_contract (w : world F) (d : conn C) (sql : string) : world F -> conn C -> Z -> Prop :=
  | exec_refused w1 d1 rc st : cyboudb_prepare w (Some d) (Some sql) true = Some (w1, Some d1, rc, st) ->
      rc <> CybouDB_OK -> exec_contract w d sql w1 d1 rc
  | exec_ran w1 d1 st w2 d2 st2 w3 d3 st3 last w4 d4 rc4 st4 :
      cyboudb_prepare w (Some d) (Some sql) true = Some (w1, Some d1, CybouDB_OK, st) ->
      passes (w1, d1, st) (w2, d2, st2) -> step w2 d2 st2 = (w3, d3, st3, last) -> last <> CybouDB_ROW ->
      cyboudb_finalize w3 d3 st3 = (w4, d4, rc4, st4) ->
      exec_contract w d sql w4 d4 (if last =? CybouDB_DONE then CybouDB_OK else last).

Lemma exec_loop_passes w d (st : option (handle P X)) w' d' st' rc :
  (exists fuel, exec_step_loop fuel w d st = Some (w', d', st', rc)) <->
  rc <> CybouDB_ROW /\ exists w2 d2 st2, passes (w, d, st) (w2, d2, st2) /\ step w2 d2 st2 = (w', d', st', rc).
Proof.
  split.
  - intros [fuel E]. revert w d st E. induction fuel as [|fuel IH]; intros w d st E; [done|]. cbn [exec_step_loop] in E.
    destruct (step w d st) as [[[w1 d1] st1] rc1] eqn:Es. destruct (Z.eqb_spec rc1 CybouDB_ROW) as [->|Hne].
    + destruct (IH _ _ _ E) as (Hr & w2 & d2 & st2 & Hp & E2). split; [done|]. exists w2, d2, st2. split; [|done]. by eapply passes_row.
    + injection E as <- <- <- <-. split; [done|]. exists w, d, st. split; [constructor|done].
  - intros (Hr & w2 & d2 & st2 & Hp & E). remember (w, d, st) as x eqn:Ex. remember (w2, d2, st2) as y eqn:Ey.
    revert w d st Ex Ey. induction Hp as [x|w0 d0 st0 w1 d1 st1 x Es _ IH]; intros w d st Ex Ey.
    + subst x. injection Ey as -> -> ->. exists 1%nat. cbn [exec_step_loop]. rewrite E. by apply Z.eqb_neq in Hr as ->.
    + injection Ex as -> -> ->. destruct (IH _ _ _ eq_refl Ey) as [fuel Ef]. exists (S fuel). cbn [exec_step_loop].
      by rewrite Es.
Qed.

Lemma exec_follows w (d : conn C) sql w' d' rc : h_open d = true ->
  (exists fuel, cyboudb_exec fuel w (Some d) (Some sql) = Some (w', Some d', rc)) <-> exec_contract w d sql w' d' rc.
Proof.
  intros Ho. destruct (prepare_total w d sql Ho) as (w1 & d1 & rc1 & st & E1 & _). unfold cyboudb_exec. rewrite E1. cbn [mbind option_bind].
  destruct (Z.eqb_spec rc1 CybouDB_OK) as [->|Hne]; cbn [negb].
  - split.
    + intros [fuel E]. destruct (exec_step_loop fuel w1 d1 st) as [[[[w2 d2] st2] rc2]|] eqn:El; [|done]. cbn [mbind option_bind] in E.
      destruct (proj1 (exec_loop_passes w1 d1 st w2 d2 st2 rc2) (ex_intro _ _ El)) as (Hr & w3 & d3 & st3 & Hp & Es).
      destruct (cyboudb_finalize w2 d2 st2) as [[[w4 d4] rc4] st4] eqn:Ef. injection E as <- <- <-. by eapply exec_ran.
    + intros E. inversion E as [? ? ? ? Ep Hn|w1' d1' st' w2 d2 st2 w3 d3 st3 last w4 d4 rc4 st4 Ep Hp Es Hr Ef]; subst; rewrite E1 in Ep; [by injection Ep as <- <- <-|].
      injection Ep as <- <- <-. destruct (proj2 (exec_loop_passes w1 d1 st w3 d3 st3 last)) as [fuel El]; [split; [done|]; by exists w2, d2, st2|].
      exists fuel. rewrite El. cbn [mbind option_bind]. by rewrite Ef.
  - split; [intros [_ [= <- <- <-]]; by eapply exec_refused|]. intros E. exists 0%nat.
    inversion E as [? ? ? ? Ep Hn|? ? ? ? ? ? ? ? ? ? ? ? ? ? Ep]; subst; rewrite E1 in Ep; injection Ep; by intros; subst.
Qed.

Lemma exec_leaves w0 w d (hs : list (handle P X)) fuel sql w' d' rc : held w0 w d hs ->
  cyboudb_exec fuel w (Some d) (Some sql) = Some (w', Some d', rc) ->
  h_stmt_count d' = h_stmt_count d /\ live (heap w') ≡ₚ live (heap w) /\ rc <> CybouDB_ROW /\ rc <> CybouDB_DONE.
Proof.
  intros Hh E. pose proof (exec_held w0 w d hs fuel sql w' d' rc Hh E) as Hh'. pose proof (held_open _ _ _ _ Hh) as Ho.
  assert (Hx : exec_contract w d sql w' d' rc) by (apply exec_follows; [done|by eexists]).
  destruct Hh as [_ Hc _ Hl], Hh' as [_ Hc' _ Hl']. split; [congruence|]. split; [by rewrite Hl, Hl'|].
  inversion Hx as [w1 d1 rc1 st Ep Hn|w1 d1 st w2 d2 st2 w3 d3 st3 last w4 d4 rc4 st4 Ep Hp Es Hr Ef]; subst.
  - destruct (prepare_total w d sql Ho) as (w2 & d2 & rc2 & st2 & E2 & R & _).
    rewrite Ep in E2. injection E2 as <- <- <- <-. by inversion R; subst.
  - destruct (Z.eqb_spec last CybouDB_DONE); done.
Qed.

(** The statements whose steps can answer with a row. *)
Definition answers_rows (t : stmt_type) : bool :=
  match t with STMT_SELECT | STMT_DEQUEUE | STMT_CLAIM | STMT_READ => true | _ => false end.

Lemma mutation_error_no_row (f : F) (d : conn C) (s : handle P X) code msg : (step_mutation_error f d s code msg).2 <> CybouDB_ROW.
Proof. unfold step_mutation_error. repeat case_match; done. Qed.

Lemma mutation_no_row staged (f : F) (d : conn C) (s : handle P X) : (step_mutation staged f d s).2 <> CybouDB_ROW.
Proof.
  unfold step_mutation. destruct (decide _); [done|]. destruct (execute f d s staged) as [[[[f1 d1] s1] rc] msg].
  destruct (negb _); [apply mutation_error_no_row|done].
Qed.

Lemma dispatch_no_row (f : F) (d : conn C) (s : handle P X) : answers_rows (plan_type (s_plan s)) = false ->
  (step_dispatch f d s).2 <> CybouDB_ROW.
Proof.
  unfold step_dispatch, step_drop, step_insert, step_delete.
  destruct (plan_type (s_plan s)); try discriminate; intros _; try apply mutation_no_row.
  all: unfold step_create, step_begin, step_commit, step_rollback; destruct (decide _); try done.
  all: repeat (case_match; try done); apply mutation_error_no_row.
Qed.

Lemma exec_one_step fuel w (d : conn C) sql w1 d1 s : cyboudb_prepare w (Some d) (Some sql) true = Some (w1, Some d1, CybouDB_OK, Some s) ->
  answers_rows (plan_type (s_plan s)) = false -> is_Some (cyboudb_exec (S fuel) w (Some d) (Some sql)).
Proof.
  intros E Hp. unfold cyboudb_exec. rewrite E. cbn [mbind option_bind negb exec_step_loop]. unfold step, cyboudb_step.
  assert (Hr : forall r : F * conn C * option (handle P X) * Z, r.2 <> CybouDB_ROW ->
    is_Some ('(w, d, st, rc) ← (let '(w, d, st, rc) := (let '(f, d, st, rc) := r in (mk_world f (heap w1), d, st, rc)) in
       if rc =? CybouDB_ROW then exec_step_loop fuel w d st else Some (w, d, st, rc));
     let '(w, d, _, _) := cyboudb_finalize w d st in Some (w, Some d, if rc =? CybouDB_DONE then CybouDB_OK else rc))).
  { intros [[[f2 d2] st2] rc2] Hr. cbn in Hr. apply Z.eqb_neq in Hr. rewrite Hr. cbn [mbind option_bind].
    destruct (cyboudb_finalize (mk_world f2 (heap w1)) d2 st2) as [[[w4 d4] rc4] st4]. by eexists. }
  apply Hr. destruct (s_magic s); [|done]. pose proof (dispatch_no_row (files w1) (api_error_clear d1) s Hp) as Hd.
  by destruct (step_dispatch _ _ s) as [[[f2 d2] s2] rc2].
Qed.
End handles.

(** ** Properties *)

(** Results are read as the header says.  For every statement that delivers a
    batch of typed rows: the column accessor gives the view of a numeric column,
    whose lanes are the cells of the selected rows, and NULL for any other column or
    a scan that is over; the copying accessors give the length and bytes of a
    selected cell, zero for NULL, and MISUSE for a row that is not selected, a
    wrong type, a small buffer or a batch that is no longer current; the dimension
    of a VECTOR column is its own.  For every statement that takes messages, the
    message and the ticket are those of the last step, and MISUSE when it took
    none. *)
Theorem results_follow_header m chain r : 
  (forall p s types, batch_shown m chain r p s types -> forall col,
     (exists a, cyboudb_batch_column (Some r) true col = Some a /\ batch_column_contract m chain s types col a) /\
     forall row out capacity, 0 <= capacity -> 0 <= col < 2 ^ 32 ->
       cyboudb_batch_bytes m chain (Some r) true col row out capacity = Some (batch_bytes_contract s col row out capacity) /\
       cyboudb_batch_vector_f32 m chain (Some r) true col row out capacity = Some (batch_vector_contract s col row out capacity)) /\
  (forall p dims, dimensions_shown m r p dims -> forall col_idx,
     cyboudb_column_vector_dimensions m (Some r) col_idx = Some (dimensions_contract dims col_idx)) /\
  (forall took, took_message m r took -> forall capacity out_length,
     cyboudb_message m (Some r) capacity out_length = Some (message_contract took capacity out_length)) /\
  (forall claim, took_claim r claim -> forall position token,
     cyboudb_claim_ticket (Some r) position token = ticket_contract claim position token).
Proof.
  split_and!.
  - intros p s types S col. split; [by eapply batch_column_follows|]. intros row out capacity Hcap Hcol.
    split; eapply batch_copy_follows; try done; [by left|by right].
  - intros. by eapply dimensions_follow.
  - intros. by apply message_follows.
  - intros. by apply ticket_follows.
Qed.

(** C29: a call leaves no more behind than it says.  Opening answers the header's
    code, gives a handle exactly when that is OK, and keeps one block of memory for
    it and none otherwise.  Executing is preparing, stepping past every row and
    finalizing, and comes to an end exactly when the stepping does, which for a
    statement without rows is the first step; however it ends, it leaves the count
    of live statements and the memory as they were and does not answer ROW or DONE.  Reset takes the statement back to its start with its
    plan; finalize gives its memory back and changes no file. *)
Theorem calls_follow_header {F C P X} `{Core F C P X} (w0 w : world F) (d : conn C) (hs : list (handle P X)) :
  (forall path flags out_db, let '(w', rc, db) := cyboudb_open w path flags out_db in
     let granted := grants (heap w) (requests (heap w)) in
     let '(_, code, _) := db_open (files w) (default EmptyString path) (negb (flags .& CybouDB_OPEN_READWRITE =? 0)) in
     rc = open_contract (bool_decide (is_Some path) && out_db) granted code /\ (is_Some db <-> rc = CybouDB_OK) /\
     live (heap w') = if rc =? CybouDB_OK then CybouDB_DB_H_SIZE :: live (heap w) else live (heap w)) /\
  (reach w0 w d hs -> forall fuel sql w' d' rc, cyboudb_exec fuel w (Some d) (Some sql) = Some (w', Some d', rc) ->
     h_stmt_count d' = h_stmt_count d /\ live (heap w') ≡ₚ live (heap w) /\ rc <> CybouDB_ROW /\ rc <> CybouDB_DONE) /\
  (reach w0 w d hs -> forall sql w' d' rc,
     (exists fuel, cyboudb_exec fuel w (Some d) (Some sql) = Some (w', Some d', rc)) <-> exec_contract w d sql w' d' rc) /\
  (forall sql w1 d1 s, cyboudb_prepare w (Some d) (Some sql) true = Some (w1, Some d1, CybouDB_OK, Some s) ->
     answers_rows (plan_type (s_plan s)) = false -> is_Some (cyboudb_exec 1 w (Some d) (Some sql))) /\
  (forall s : handle P X, s_magic s = true ->
     (exists s', cyboudb_reset (Some s) = (Some s', CybouDB_OK) /\ reset_contract s s') /\
     exists w' d', cyboudb_finalize w d (Some s) = (w', d', CybouDB_OK, None) /\ finalize_contract w w' d d' s).
Proof.
  split_and!.
  - intros path flags out_db. unfold cyboudb_open, open_contract. destruct path as [path|]; cbn [default].
    2: { destruct (db_open _ _ _) as [[f code] ctx]. cbn. split; [done|]. split; [|done]. by split; [intros [? ?]|]. }
    rewrite bool_decide_true by done. destruct out_db; cbn [negb andb].
    2: { destruct (db_open _ _ _) as [[f code] ctx]. split; [done|]. split; [|done]. by split; [intros [? ?]|]. }
    destruct (os_mem_alloc (heap w) CybouDB_DB_H_SIZE) as [o ok] eqn:Ea.
    assert (Hok : ok = grants (heap w) (requests (heap w)) /\ live o = if ok then CybouDB_DB_H_SIZE :: live (heap w) else live (heap w)).
    { unfold os_mem_alloc in Ea. destruct (grants _ _); injection Ea as <- <-; done. }
    destruct Hok as [<- Hl]. destruct ok; cbn [negb].
    2: { destruct (db_open _ _ _) as [[f code] ctx]. split; [done|]. split; [by split; [intros [? ?]|]|]. exact Hl. }
    destruct (db_open _ _ _) as [[f code] ctx]. destruct (code =? 0) eqn:E0; cbn [negb].
    + split; [done|]. split; [by split; [|eexists]|]. exact Hl.
    + destruct (code =? CybouDB_E_BUSY); (split; [done|]); (split; [by split; [intros [? ?]|]|]);
        unfold os_mem_free; cbn [heap live]; by rewrite Hl.
  - intros R fuel sql w' d' rc E. by eapply exec_leaves; [apply reach_held|].
  - intros R sql w' d' rc. apply exec_follows. exact (held_open _ _ _ _ (reach_held _ _ _ _ R)).
  - intros sql w1 d1 s. apply exec_one_step.
  - intros s Hm. unfold cyboudb_reset, cyboudb_finalize. rewrite Hm. cbn [negb]. split; eexists; [split; [done|]; by split_and!|].
    eexists. split; [done|]. split_and!; [done|cbn; lia|done].
Qed.

(** ** Witnesses *)

Definition demo_scene : scene := mk_scene true (fun n => (n <? 2) && Z.testbit 2 n) (fun _ => demo_row).

Lemma demo_batch_shown : batch_shown demo_memory demo_chain demo_result demo_plan demo_scene [2; 1; 5].
Proof.
  constructor; try reflexivity; try done.
  - intros [|[|[|i]]] t Ht; try done; injection Ht as <-; eexists; split; reflexivity.
  - intros n Hn. cbn in Hn. assert (n = 1) as ->; [|exact demo_shown].
    apply andb_true_iff in Hn as [Hlt Ht]. apply Z.ltb_lt in Hlt. destruct n as [|[p|p|]|p]; try done; lia.
Qed.

Lemma results_follow_header_witness :
  cyboudb_batch_bytes demo_memory demo_chain (Some demo_result) true 2 1 true 8 = Some (2, [104; 105]) /\
  cyboudb_batch_bytes demo_memory demo_chain (Some demo_result) true 2 0 true 8 = Some (CybouDB_MISUSE, []) /\
  cyboudb_claim_ticket (Some taken) true true = (CybouDB_MISUSE, None, None).
Proof.
  destruct (results_follow_header demo_memory demo_chain demo_result) as (T & _).
  destruct (T demo_plan demo_scene [2; 1; 5] demo_batch_shown 2) as [_ B].
  destruct (results_follow_header demo_memory demo_chain taken) as (_ & _ & _ & K). split_and!.
  - destruct (B 1 true 8 ltac:(lia) ltac:(lia)) as [E _]. rewrite E. reflexivity.
  - destruct (B 0 true 8 ltac:(lia) ltac:(lia)) as [E _]. rewrite E. reflexivity.
  - apply (K None). intros _ p [= <-]. left. discriminate.
Defined.

(** A refused statement and one that runs, executed on the open database. *)
Lemma calls_follow_header_witness : exists w d,
  cyboudb_exec 3 opened_world (Some opened_conn) (Some "INSERT"%string) = Some (w, Some d, CybouDB_OK) /\
  h_stmt_count d = 0 /\ live (heap w) ≡ₚ [4096].
Proof.
  destruct (calls_follow_header plenty opened_world opened_conn []) as (_ & T & _).
  destruct (cyboudb_exec 3 opened_world (Some opened_conn) (Some "INSERT"%string)) as [[[w [d|]] rc]|] eqn:E; try (vm_compute in E; discriminate E).
  destruct (T ltac:(eapply (reach_open plenty (Some "a.cdb"%string) CybouDB_OPEN_READWRITE); reflexivity) _ _ _ _ _ E) as (H1 & H2 & _).
  exists w, d. split; [|by split]. vm_compute in E. injection E as <- <- <-. reflexivity.
Defined.
