(* ===== verification/AllocMap.v ===== *)
(** * AllocMap: the allocation map of the storage engine

    [src/core/bitmap.asm] and [src/core/bitmap_leaf.asm]: two bits a page, in two
    copies that a writer uses in turns ([CybouDB_FEATURE_MAP_SPAN]), or in one
    page that is copied like any other.  Which pages a transaction may take, what
    it has to flush, the log of its changes, and what makes the map of a
    superblock acceptable.

    The file is a function from page numbers to pages of bytes; a database here
    is not encrypted ([DB_CACHE] is zero), so a page's address is never refused.
    The graph below the root is walked by [db_catalog_validate], which is the
    interface [Walk]. *)

From S2P Require Import Prelude Crc32c.

(** ** Pages *)

Definition CybouDB_PAGE_SIZE : Z := 4096.
Notation page := (list Z) (only parsing).
Notation mem := (Z -> list Z) (only parsing).

Definition set_page (m : mem) (p : Z) (pg : page) : mem := fun q => if q =? p then pg else m q.

(** A little-endian load and store of [w] bytes at an offset of a page. *)
Definition rd (w : nat) (pg : page) (off : Z) : Z := le_val (take w (drop (Z.to_nat off) pg)).
Definition wr (w : nat) (pg : page) (off v : Z) : page := memcpy pg (Z.to_nat off) (le_bytes w v).

(** The engine's checksum; both its paths are one function ([Crc32c]). *)
Definition crc (data : list Z) : Z := asm_crc32c false data.

(** [zero_page] and [db_page_blank]. *)
Definition zero_page : page := replicate (Z.to_nat CybouDB_PAGE_SIZE) 0.

(** ** The format ([include/format.inc]) *)

Definition CybouDB_FEATURE_COW : Z := 2.
Definition CybouDB_FEATURE_MAP_SPAN : Z := 32.
Definition CybouDB_FEATURE_ENCRYPTION : Z := 131072.
Definition CybouDB_MIN_PAGES : Z := 3.
Definition CybouDB_COW_MIN_PAGES : Z := 4.

Definition CybouDB_MAP_MAGIC : Z := 0x424D5141.
Definition MAP_MAGIC : Z := 0.
Definition MAP_HEADER_SIZE : Z := 4.
Definition MAP_PAGE_ID : Z := 8.
Definition MAP_GENERATION : Z := 16.
Definition MAP_TOTAL : Z := 24.
Definition MAP_ALLOC : Z := 32.
Definition MAP_RESERVED : Z := 40.
Definition MAP_SPAN : Z := 40.
Definition MAP_SPAN_RESERVED : Z := 48.
Definition MAP_DATA : Z := 64.
Definition MAP_CRC : Z := 4092.
Definition CybouDB_COW_MAX_PAGES : Z := (MAP_CRC - MAP_DATA) * 4.
Definition CybouDB_MAP_LEAF_PAGES : Z := CybouDB_COW_MAX_PAGES.
Definition CybouDB_SPAN_MAX_PAGES : Z := CybouDB_MAP_LEAF_PAGES * 1024.

Definition MAP_FREE : Z := 0.
Definition MAP_PAYLOAD : Z := 1.
Definition MAP_METADATA : Z := 2.
Definition MAP_RETIRED : Z := 3.

Definition SB_GENERATION : Z := 8.
Definition SB_TOTAL_PAGES : Z := 16.
Definition SB_ALLOC_PAGES : Z := 24.
Definition SB_FREELIST_ROOT : Z := 32.
Definition SB_ROOT_PAGE : Z := 40.
Definition SB_BITMAP_ROOT : Z := 48.
Definition SB_FEATURE_ROOT : Z := 56.
Definition SB_STAGED : Z := 120.

(** What the headers of catalog pages share ([include/catalog.inc]). *)
Definition CAT_MAGIC : Z := 0.
Definition CAT_PAGE_ID : Z := 8.
Definition CAT_OWNER : Z := 24.

Definition CybouDB_E_FULL : Z := 15.

(** ** The descriptor ([CybouDB_DB] of [include/cyboudb.inc])

    [db_sb_page] is the page [DB_SB_PTR] points at, 0 for a null pointer. *)

(** [DB_DIRTY_LO], [DB_DIRTY_HI], [DB_RUNS] and [DB_RUN_OVF]. *)
Record dirty := mk_dirty { dirty_lo : Z; dirty_hi : Z; dirty_runs : list (Z * Z); run_ovf : bool }.

(** An entry of the change-set: page, state before, state after. *)
Record change := mk_change { cs_page : Z; cs_from : Z; cs_to : Z }.

(** [DB_CS_LOG] (a null pointer is [None]) with its [DB_CS_COUNT] entries, and
    [DB_CS_OVERFLOW]. *)
Record changes := mk_changes { cs_log : option (list change); cs_overflow : bool }.

Record db := mk_db {
  db_size : Z; db_features : Z; db_verify : Z; db_writable : bool; db_mode : Z;
  db_pages : Z; db_alloc : Z; db_generation : Z; db_freelist : Z; db_root : Z;
  db_bitmap : Z; db_sb_page : Z; db_floor : Z; db_reuse_next : Z; db_reusable : Z;
  db_tx_active : bool; db_validated : bool; db_damaged : Z; db_prove : bool;
  db_audit : bool; db_dirty : dirty; db_cs : changes
}.

Definition set_mode (d : db) (v : Z) : db :=
  mk_db (db_size d) (db_features d) (db_verify d) (db_writable d) v (db_pages d) (db_alloc d)
    (db_generation d) (db_freelist d) (db_root d) (db_bitmap d) (db_sb_page d) (db_floor d)
    (db_reuse_next d) (db_reusable d) (db_tx_active d) (db_validated d) (db_damaged d)
    (db_prove d) (db_audit d) (db_dirty d) (db_cs d).
Definition set_alloc (d : db) (v : Z) : db :=
  mk_db (db_size d) (db_features d) (db_verify d) (db_writable d) (db_mode d) (db_pages d) v
    (db_generation d) (db_freelist d) (db_root d) (db_bitmap d) (db_sb_page d) (db_floor d)
    (db_reuse_next d) (db_reusable d) (db_tx_active d) (db_validated d) (db_damaged d)
    (db_prove d) (db_audit d) (db_dirty d) (db_cs d).
Definition set_root (d : db) (v : Z) : db :=
  mk_db (db_size d) (db_features d) (db_verify d) (db_writable d) (db_mode d) (db_pages d)
    (db_alloc d) (db_generation d) (db_freelist d) v (db_bitmap d) (db_sb_page d) (db_floor d)
    (db_reuse_next d) (db_reusable d) (db_tx_active d) (db_validated d) (db_damaged d)
    (db_prove d) (db_audit d) (db_dirty d) (db_cs d).
Definition set_bitmap (d : db) (v : Z) : db :=
  mk_db (db_size d) (db_features d) (db_verify d) (db_writable d) (db_mode d) (db_pages d)
    (db_alloc d) (db_generation d) (db_freelist d) (db_root d) v (db_sb_page d) (db_floor d)
    (db_reuse_next d) (db_reusable d) (db_tx_active d) (db_validated d) (db_damaged d)
    (db_prove d) (db_audit d) (db_dirty d) (db_cs d).
Definition set_sweep (d : db) (next n : Z) : db :=
  mk_db (db_size d) (db_features d) (db_verify d) (db_writable d) (db_mode d) (db_pages d)
    (db_alloc d) (db_generation d) (db_freelist d) (db_root d) (db_bitmap d) (db_sb_page d)
    (db_floor d) next n (db_tx_active d) (db_validated d) (db_damaged d) (db_prove d)
    (db_audit d) (db_dirty d) (db_cs d).
Definition set_dirty (d : db) (v : dirty) : db :=
  mk_db (db_size d) (db_features d) (db_verify d) (db_writable d) (db_mode d) (db_pages d)
    (db_alloc d) (db_generation d) (db_freelist d) (db_root d) (db_bitmap d) (db_sb_page d)
    (db_floor d) (db_reuse_next d) (db_reusable d) (db_tx_active d) (db_validated d)
    (db_damaged d) (db_prove d) (db_audit d) v (db_cs d).
Definition set_cs (d : db) (v : changes) : db :=
  mk_db (db_size d) (db_features d) (db_verify d) (db_writable d) (db_mode d) (db_pages d)
    (db_alloc d) (db_generation d) (db_freelist d) (db_root d) (db_bitmap d) (db_sb_page d)
    (db_floor d) (db_reuse_next d) (db_reusable d) (db_tx_active d) (db_validated d)
    (db_damaged d) (db_prove d) (db_audit d) (db_dirty d) v.
Definition set_prove (d : db) (v : bool) : db :=
  mk_db (db_size d) (db_features d) (db_verify d) (db_writable d) (db_mode d) (db_pages d)
    (db_alloc d) (db_generation d) (db_freelist d) (db_root d) (db_bitmap d) (db_sb_page d)
    (db_floor d) (db_reuse_next d) (db_reusable d) (db_tx_active d) (db_validated d)
    (db_damaged d) v (db_audit d) (db_dirty d) (db_cs d).

Definition state : Type := db * mem.

(** What the calls below ask of the system: whether [vfs_reclaim_safe] finds no
    reader, and whether [os_mem_alloc] has memory for the log. *)
Record env := mk_env { reclaim_safe : bool; mem_left : bool }.

(** ** One leaf of the map *)

Definition map_get (leaf : page) (i : Z) : Z :=
  ((leaf !!! Z.to_nat (MAP_DATA + (i .>> 2))) .>> ((i .& 3) .<< 1)) .& 3.

Definition map_set (leaf : page) (i state : Z) : page :=
  let at_byte := Z.to_nat (MAP_DATA + (i .>> 2)) in
  let cl := (i .& 3) .<< 1 in
  let b := (leaf !!! at_byte) .& u8 (Z.lnot (3 .<< cl)) in
  <[at_byte := b .| u8 (state .<< cl)]> leaf.

Definition seal_leaf (leaf : page) : page :=
  wr 4 leaf MAP_CRC (crc (take (Z.to_nat MAP_CRC) leaf)).

Definition db_bitmap_leaves (total : Z) : Z :=
  u64 (total + (CybouDB_MAP_LEAF_PAGES - 1)) / CybouDB_MAP_LEAF_PAGES.

Definition reserve (leaf : page) (n : Z) : page :=
  for_loop (Z.to_nat n) (fun i leaf => map_set leaf (Z.of_nat i) MAP_METADATA) leaf.

Definition db_bitmap_leaf_build (index total first : Z) : page :=
  let leaf := wr 4 zero_page MAP_MAGIC CybouDB_MAP_MAGIC in
  let leaf := wr 4 leaf MAP_HEADER_SIZE MAP_DATA in
  let leaf := wr 8 leaf MAP_GENERATION 1 in
  let leaf := wr 8 leaf MAP_TOTAL total in
  let span := index * CybouDB_MAP_LEAF_PAGES in
  let leaf := wr 8 leaf MAP_SPAN span in
  let leaf := if index =? 0 then wr 8 leaf MAP_ALLOC first else leaf in
  let leaf := if first <=? span then leaf
              else reserve leaf (Z.min (first - span) CybouDB_MAP_LEAF_PAGES) in
  seal_leaf leaf.

(** The flat layout's page: pages 0 to 3 are metadata. *)
Definition flat_map_build (total : Z) : page :=
  let leaf := wr 4 zero_page MAP_MAGIC CybouDB_MAP_MAGIC in
  let leaf := wr 4 leaf MAP_HEADER_SIZE MAP_DATA in
  let leaf := wr 8 leaf MAP_PAGE_ID CybouDB_MIN_PAGES in
  let leaf := wr 8 leaf MAP_GENERATION 1 in
  let leaf := wr 8 leaf MAP_TOTAL total in
  let leaf := wr 8 leaf MAP_ALLOC CybouDB_COW_MIN_PAGES in
  seal_leaf (wr 1 leaf MAP_DATA 0xAA).

Definition db_bitmap_init (m : mem) (total features : Z) : Z * mem :=
  if (features .& CybouDB_FEATURE_MAP_SPAN) =? 0 then
    (CybouDB_COW_MIN_PAGES, set_page m CybouDB_MIN_PAGES (flat_map_build total))
  else
    let k := db_bitmap_leaves total in
    let first := 2 * k + CybouDB_MIN_PAGES in
    (first,
     for_loop (Z.to_nat (2 * k)) (fun i m =>
       set_page m (CybouDB_MIN_PAGES + Z.of_nat i)
         (db_bitmap_leaf_build (Z.of_nat i mod k) total first)) m).

(** ** The pages a transaction wrote *)

(** [.scan]: the run that holds the page or ends beside it; [None] when there is
    none. *)
Fixpoint run_add (p : Z) (runs : list (Z * Z)) : option (list (Z * Z)) :=
  match runs with
  | [] => None
  | (first, count) :: rest =>
      if p <? first then
        if p + 1 =? first then Some ((p, count + 1) :: rest)
        else cons (first, count) <$> run_add p rest
      else if p - first <? count then Some runs
      else if p - first =? count then Some ((first, count + 1) :: rest)
      else cons (first, count) <$> run_add p rest
  end.

Definition CybouDB_DIRTY_RUNS_MAX : nat := 32.

Definition mark_dirty (d : dirty) (p : Z) : dirty :=
  let '(lo, hi) :=
    if dirty_hi d =? 0 then (p, p + 1)
    else (if p <? dirty_lo d then p else dirty_lo d,
          if dirty_hi d <? p + 1 then p + 1 else dirty_hi d) in
  if run_ovf d then mk_dirty lo hi (dirty_runs d) true
  else match run_add p (dirty_runs d) with
       | Some runs => mk_dirty lo hi runs false
       | None => if (CybouDB_DIRTY_RUNS_MAX <=? length (dirty_runs d))%nat
                 then mk_dirty lo hi (dirty_runs d) true
                 else mk_dirty lo hi (dirty_runs d ++ [(p, 1)]) false
       end.

Definition db_dirty_reset (d : dirty) : dirty := mk_dirty (dirty_lo d) (dirty_hi d) [] false.

(** ** The change-set *)

Definition CybouDB_CS_CAPACITY : Z := 8192.

Definition cs_record (e : env) (c : changes) (p from to : Z) : changes :=
  if cs_overflow c then c
  else match (match cs_log c with
              | Some log => Some log
              | None => if mem_left e then Some [] else None
              end) with
       | None => mk_changes None true
       | Some log => if CybouDB_CS_CAPACITY <=? Z.of_nat (length log)
                     then mk_changes (Some log) true
                     else mk_changes (Some (log ++ [mk_change p from to])) false
       end.

Definition cs_reset (c : changes) : changes :=
  mk_changes ((fun _ => []) <$> cs_log c) false.

(** ** The map of a generation *)

Definition has_span (d : db) : bool := negb ((db_features d .& CybouDB_FEATURE_MAP_SPAN) =? 0).

(** [map_locate]: the leaf that describes a page, and its index in it. *)
Definition map_leaf (span : bool) (root p : Z) : Z :=
  if span then root + p / CybouDB_MAP_LEAF_PAGES else root.
Definition map_index (span : bool) (p : Z) : Z :=
  if span then p mod CybouDB_MAP_LEAF_PAGES else p.
Arguments map_leaf : simpl never.
Arguments map_index : simpl never.

Definition map_state (span : bool) (m : mem) (root p : Z) : Z :=
  map_get (m (map_leaf span root p)) (map_index span p).

(** The superblock of the live generation, and the map it names. *)
Definition live_sb (s : state) : page := s.2 (db_sb_page s.1).
Definition live_root (s : state) : Z := rd 8 (live_sb s) SB_BITMAP_ROOT.

Definition other_root (k root : Z) : Z :=
  if root =? CybouDB_MIN_PAGES then k + CybouDB_MIN_PAGES else CybouDB_MIN_PAGES.

Definition leaf_generation (leaf : page) : Z := rd 8 leaf MAP_GENERATION.

(** One turn of [.leaf]: a leaf is copied unless both halves carry the same
    generation. *)
Definition stage_leaf (live other : Z) (m : mem) (i : Z) : mem :=
  if leaf_generation (m (live + i)) =? leaf_generation (m (other + i)) then m
  else set_page m (other + i) (m (live + i)).

Definition stage_leaves (k live other : Z) (m : mem) : mem :=
  for_loop (Z.to_nat k) (fun i m => stage_leaf live other m (Z.of_nat i)) m.

Definition span_stage (s : state) : state :=
  let '(d, m) := s in
  let live := live_root s in
  if negb (live =? db_bitmap d) then s
  else
    let k := db_bitmap_leaves (db_pages d) in
    let other := other_root k live in
    (set_bitmap d other, stage_leaves k live other m).

Definition span_mark (e : env) (s : state) (p to : Z) : state :=
  let '(d, m) := s in
  let at_leaf := map_leaf true (db_bitmap d) p in
  let i := map_index true p in
  let from := map_get (m at_leaf) i in
  let leaf := wr 8 (m at_leaf) MAP_GENERATION (u64 (db_generation d + 1)) in
  (set_cs d (cs_record e (db_cs d) p from to), set_page m at_leaf (map_set leaf i to)).

(** ** Allocation *)

(** The first page of [from .. from + n) with [f]. *)
Fixpoint find_page (f : Z -> bool) (from : Z) (n : nat) : option Z :=
  match n with
  | O => None
  | S n' => if f from then Some from else find_page f (from + 1) n'
  end.

(** A page both maps call retired: the published one says that no generation
    reaches it, the staged one that it has not been handed out. *)
Definition reusable_page (s : state) (p : Z) : bool :=
  (map_state true s.2 (live_root s) p =? MAP_RETIRED) &&
  (map_state true s.2 (db_bitmap s.1) p =? MAP_RETIRED).

Definition span_reuse (s : state) : Z * state :=
  let '(d, m) := s in
  let from := db_reuse_next d in
  match (if db_reusable d =? 0 then None
         else find_page (reusable_page s) from (Z.to_nat (db_alloc d - from))) with
  | Some p => (p, (set_sweep d (p + 1) (db_reusable d - 1), m))
  | None => (0, (set_sweep d (db_alloc d) 0, m))
  end.

(** [.scan_run]: the first [pages] consecutive pages that are reusable. *)
Fixpoint scan_run (f : Z -> bool) (pages from start len : Z) (n : nat) : option Z :=
  match n with
  | O => None
  | S n' =>
      if f from then
        let start := if len =? 0 then from else start in
        if pages <=? len + 1 then Some start
        else scan_run f pages (from + 1) start (len + 1) n'
      else scan_run f pages (from + 1) start 0 n'
  end.

Definition span_reuse_run (s : state) (pages : Z) : Z * state :=
  let '(d, m) := s in
  if db_reusable d <? pages then (0, s)
  else match scan_run (reusable_page s) pages CybouDB_MIN_PAGES 0 0
               (Z.to_nat (db_alloc d - CybouDB_MIN_PAGES)) with
       | Some p => (p, (set_sweep d (db_reuse_next d) (db_reusable d - pages), m))
       | None => (0, s)
       end.

Definition dirty_page (s : state) (p : Z) : state :=
  (set_dirty s.1 (mark_dirty (db_dirty s.1) p), s.2).

Definition blank_page (s : state) (p : Z) : state := (s.1, set_page s.2 p zero_page).

(** [.publish]: the two pages of the allocation are marked, the page is blanked
    and handed out. *)
Definition publish (s : state) (beside p : Z) : Z * Z * state :=
  (CybouDB_OK, p, blank_page (dirty_page (dirty_page s beside) p) p).

Definition grow_from (d : db) : Z :=
  if db_floor d <=? db_alloc d then db_alloc d else db_floor d.

(** [.span_gap]: pages that a rejected candidate claims stay reserved. *)
Definition reserve_gap (e : env) (s : state) (first : Z) : state :=
  for_loop (Z.to_nat (first - db_alloc s.1))
    (fun i s' => span_mark e s' (db_alloc s.1 + Z.of_nat i) MAP_METADATA) s.

Definition span_grow (e : env) (s : state) (first : Z) : Z * Z * state :=
  let beside := if db_alloc s.1 <? first then first - 1 else first in
  let s := reserve_gap e s first in
  let '(d, m) := span_mark e s first MAP_PAYLOAD in
  let d := set_alloc d (first + 1) in
  let leaf := wr 8 (m (db_bitmap d)) MAP_ALLOC (first + 1) in
  let leaf := wr 8 leaf MAP_GENERATION (u64 (db_generation d + 1)) in
  publish (d, set_page m (db_bitmap d) leaf) beside first.

Definition span_alloc (e : env) (s : state) : Z * Z * state :=
  let first := grow_from s.1 in
  if first <? db_pages s.1 then span_grow e (span_stage s) first
  else if db_reusable s.1 =? 0 then (CybouDB_E_FULL, 0, s)
  else if negb (reclaim_safe e) then (CybouDB_E_FULL, 0, s)
  else
    let '(p, s) := span_reuse (span_stage s) in
    if p =? 0 then (CybouDB_E_FULL, 0, s)
    else publish (span_mark e s p MAP_PAYLOAD) first p.

(** The flat layout: the first allocation of a transaction takes a page for the
    copy of the map as well. *)
Definition flat_alloc (s : state) : Z * Z * state :=
  let '(d, m) := s in
  let first := grow_from d in
  if db_pages d <=? first then (CybouDB_E_FULL, 0, s)
  else
    let fresh_map := db_bitmap d <? db_floor d in
    let p := if fresh_map then first + 1 else first in
    if db_pages d <=? p then (CybouDB_E_FULL, 0, s)
    else
      let '(d, m) :=
        if fresh_map then
          (set_bitmap d first,
           set_page m first
             (for_loop (Z.to_nat (p - db_alloc d)) (fun i leaf =>
                map_set leaf (db_alloc d + Z.of_nat i) MAP_METADATA) (m (db_bitmap d))))
        else (d, m) in
      let leaf := map_set (m (db_bitmap d)) p MAP_PAYLOAD in
      let leaf := wr 8 leaf MAP_PAGE_ID (db_bitmap d) in
      let leaf := wr 8 leaf MAP_GENERATION (u64 (db_generation d + 1)) in
      let leaf := wr 8 leaf MAP_ALLOC (p + 1) in
      publish (set_alloc d (p + 1), set_page m (db_bitmap d) leaf) first p.

Definition db_bitmap_alloc (e : env) (s : state) : Z * Z * state :=
  if has_span s.1 then span_alloc e s else flat_alloc s.

(** [.run_page]: every page of a run comes from growth, one after the other. *)
Fixpoint alloc_pages (e : env) (n : nat) (index first : Z) (s : state) : Z * Z * state :=
  match n with
  | O => (CybouDB_OK, first, s)
  | S n' =>
      let '(rc, p, s) := db_bitmap_alloc e s in
      if negb (rc =? CybouDB_OK) then (rc, 0, s)
      else if index =? 0 then alloc_pages e n' 1 p s
      else if p =? first + index then alloc_pages e n' (index + 1) first s
      else (CybouDB_E_FULL, 0, s)
  end.

(** [.run_claim]. *)
Definition claim_run (e : env) (s : state) (first pages : Z) : state :=
  for_loop (Z.to_nat pages) (fun i s =>
    let p := first + Z.of_nat i in
    blank_page (dirty_page (span_mark e s p MAP_PAYLOAD) p) p) s.

Definition run_reclaim (e : env) (s : state) (pages : Z) : Z * Z * state :=
  if negb (has_span s.1) then (CybouDB_E_FULL, 0, s)
  else if negb (reclaim_safe e) then (CybouDB_E_FULL, 0, s)
  else
    let '(first, s) := span_reuse_run (span_stage s) pages in
    if first =? 0 then (CybouDB_E_FULL, 0, s)
    else (CybouDB_OK, first, claim_run e s first pages).

Definition db_bitmap_alloc_run (e : env) (s : state) (pages : Z) : Z * Z * state :=
  if pages <? 2 then db_bitmap_alloc e s
  else
    let d := s.1 in
    let first := grow_from d in
    let need := if has_span d then pages
                else if db_floor d <=? db_bitmap d then pages else u64 (pages + 1) in
    if db_pages d <=? first then run_reclaim e s pages
    else if db_pages d - first <? need then run_reclaim e s pages
    else alloc_pages e (Z.to_nat pages) 0 0 s.

Definition db_bitmap_retire (e : env) (s : state) (p : Z) : state :=
  if has_span s.1 then span_mark e (span_stage s) p MAP_RETIRED else s.

Definition db_bitmap_seal (s : state) : state :=
  let '(d, m) := s in
  if db_features d =? 0 then s
  else if has_span d then
    (d, for_loop (Z.to_nat (db_bitmap_leaves (db_pages d))) (fun i m =>
          let at_leaf := db_bitmap d + Z.of_nat i in
          if leaf_generation (m at_leaf) =? u64 (db_generation d + 1)
          then set_page m at_leaf (seal_leaf (m at_leaf)) else m) m)
  else if db_bitmap d <? db_floor d then s
  else (d, set_page m (db_bitmap d) (seal_leaf (m (db_bitmap d)))).

(** ** What the allocator may reuse *)

(** [.word_count]: one bit for each retired entry of a word, then their number. *)
Definition word_retired (w : Z) : Z :=
  let r8 := (w .>> 1) .& w .& 0x5555555555555555 in
  let r8 := u64 (r8 - ((r8 .>> 1) .& 0x5555555555555555)) in
  let r8 := u64 (((r8 .>> 2) .& 0x3333333333333333) + (r8 .& 0x3333333333333333)) in
  let r8 := u64 (r8 + (r8 .>> 4)) .& 0x0f0f0f0f0f0f0f0f in
  u64 (r8 * 0x0101010101010101) .>> 56.

(** [.word]: thirty-two entries at a time, [fuel] words at most. *)
Fixpoint count_words (fuel : nat) (leaf : page) (off entries retired : Z) : Z :=
  match fuel with
  | O => retired
  | S fuel' =>
      if entries =? 0 then retired
      else
        let w := rd 8 leaf off in
        if 32 <=? entries
        then count_words fuel' leaf (off + 8) (entries - 32) (retired + word_retired w)
        else retired + word_retired (w .& ((1 .<< (entries + entries)) - 1))
  end.

(** The words of a leaf: 16112 entries are 503 words and a half. *)
Definition LEAF_WORDS : nat := 504.

Fixpoint count_leaves (fuel : nat) (m : mem) (root alloc i total : Z) : Z :=
  match fuel with
  | O => total
  | S fuel' =>
      let span := i * CybouDB_MAP_LEAF_PAGES in
      if alloc <=? span then total
      else
        let entries := Z.min (alloc - span) CybouDB_MAP_LEAF_PAGES in
        count_leaves fuel' m root alloc (i + 1)
          (total + count_words LEAF_WORDS (m (root + i)) MAP_DATA entries 0)
  end.

Arguments count_words : simpl never.
Arguments count_leaves : simpl never.

Definition db_bitmap_recount (s : state) : state :=
  let '(d, m) := s in
  if has_span d then
    (set_sweep d CybouDB_MIN_PAGES
       (count_leaves (S (Z.to_nat (db_alloc d / CybouDB_MAP_LEAF_PAGES))) m (db_bitmap d)
          (db_alloc d) 0 0), m)
  else (set_sweep d CybouDB_MIN_PAGES 0, m).

Definition db_bitmap_headroom (d : db) : Z :=
  let first := grow_from d in
  if db_pages d <=? first then db_reusable d
  else if has_span d then db_pages d - first + db_reusable d
  else if db_floor d <=? db_bitmap d then db_pages d - first
  else db_pages d - first - 1.

(** ** Questions about a page *)

Definition db_bitmap_is_payload (s : state) (p : Z) : bool :=
  (p <? db_alloc s.1) &&
  (map_state (has_span s.1) s.2 (db_bitmap s.1) p =? MAP_PAYLOAD).

Definition db_bitmap_is_fresh (s : state) (p : Z) : bool :=
  db_bitmap_is_payload s p &&
  ((db_floor s.1 <=? p) ||
   (has_span s.1 &&
    let st := map_state true s.2 (live_root s) p in
    negb (st =? MAP_PAYLOAD) && negb (st =? MAP_METADATA))).

Definition db_bitmap_candidate_payload (d : db) (m : mem) (sb : page) (p : Z) : bool :=
  if p <? CybouDB_MIN_PAGES then false
  else if rd 8 sb SB_ALLOC_PAGES <=? p then false
  else
    let st := map_state (has_span d) m (rd 8 sb SB_BITMAP_ROOT) p in
    (st =? MAP_PAYLOAD) || ((st =? MAP_RETIRED) && negb (rd 4 sb SB_STAGED =? 0)).

Definition db_bitmap_deep (d : db) (sb : page) (generation : Z) : bool :=
  negb (db_verify d =? 0) || (generation =? rd 8 sb SB_GENERATION).

(** ** The change-set explains a leaf *)

Definition legal_change (from to : Z) : bool :=
  if from =? MAP_FREE then (to =? MAP_PAYLOAD) || (to =? MAP_METADATA)
  else if from =? MAP_RETIRED then to =? MAP_PAYLOAD
  else to =? MAP_RETIRED.

(** [.chain]: the entries of one page, each starting where the last ended;
    [None] for a story that does not hold together. *)
Fixpoint change_chain (log : list change) (p at_state : Z) (hops : nat) : option (Z * nat) :=
  match log with
  | [] => Some (at_state, hops)
  | c :: log' =>
      if negb (cs_page c =? p) then change_chain log' p at_state hops
      else if negb (cs_from c =? at_state) then None
      else if legal_change (cs_from c) (cs_to c) then change_chain log' p (cs_to c) (S hops)
      else None
  end.

Definition entry_explained (c : changes) (p from to : Z) : bool :=
  match cs_log c with
  | None => false
  | Some log => match change_chain log p from 0 with
                | Some (st, hops) => (0 <? hops)%nat && (st =? to)
                | None => false
                end
  end.

(** The loop over words starts at [MAP_DATA] and goes on while the offset is not
    above [MAP_CRC - 8]; a word has thirty-two entries. *)
Definition word_explained (c : changes) (published staged : page) (first off : Z) : bool :=
  (rd 8 published off =? rd 8 staged off) ||
  forallb (fun e =>
    let from := (rd 8 published off .>> (2 * e)) .& 3 in
    let to := (rd 8 staged off .>> (2 * e)) .& 3 in
    (from =? to) || entry_explained c ((off - MAP_DATA) * 4 + first + e) from to) (seqZ 0 32).

Definition EXPLAINED_WORDS : Z := (MAP_CRC - 8 - MAP_DATA) / 8 + 1.

Definition cs_leaf_explained (c : changes) (published staged : page) (first : Z) : bool :=
  cs_overflow c ||
  forallb (fun w => word_explained c published staged first (MAP_DATA + 8 * w))
    (seqZ 0 EXPLAINED_WORDS).

(** ** What makes a map acceptable *)

(** The header of leaf [i] of a span map. *)
Definition leaf_header_ok (leaf sb : page) (alloc i : Z) : bool :=
  (rd 4 leaf MAP_MAGIC =? CybouDB_MAP_MAGIC) &&
  (rd 4 leaf MAP_HEADER_SIZE =? MAP_DATA) &&
  (rd 8 leaf MAP_PAGE_ID =? 0) &&
  negb (leaf_generation leaf =? 0) &&
  (leaf_generation leaf <=? rd 8 sb SB_GENERATION) &&
  (rd 8 leaf MAP_TOTAL =? rd 8 sb SB_TOTAL_PAGES) &&
  (rd 8 leaf MAP_SPAN =? i * CybouDB_MAP_LEAF_PAGES) &&
  (rd 8 leaf MAP_ALLOC =? (if i =? 0 then alloc else 0)) &&
  (rd 8 leaf MAP_SPAN_RESERVED =? 0) && (rd 8 leaf (MAP_SPAN_RESERVED + 8) =? 0).

(** [.entry]: metadata below the first payload page, no free page below the
    high-water, nothing but free pages above it. *)
Definition entry_ok (st p alloc first : Z) : bool :=
  if alloc <=? p then st =? MAP_FREE
  else if p <? first then st =? MAP_METADATA
  else negb (st =? MAP_FREE).

Definition leaf_entries_ok (leaf : page) (span alloc first : Z) : bool :=
  forallb (fun i => entry_ok (map_get leaf i) (i + span) alloc first)
    (seqZ 0 CybouDB_MAP_LEAF_PAGES).

(** [.blank]: the last four bytes of the entries do not make a word. *)
Definition leaf_blank (leaf : page) : bool :=
  forallb (fun w => rd 8 leaf (MAP_DATA + 8 * w) =? 0)
    (seqZ 0 ((MAP_CRC - 12 - MAP_DATA) / 8 + 1)) &&
  (rd 4 leaf (MAP_CRC - 4) =? 0).

Definition leaf_sealed (leaf : page) : bool :=
  rd 4 leaf MAP_CRC =? crc (take (Z.to_nat MAP_CRC) leaf).

Definition leaf_proved (s : state) (root i span : Z) : bool :=
  if negb (db_prove s.1) || (db_sb_page s.1 =? 0) || (live_root s =? root) then true
  else cs_leaf_explained (db_cs s.1) (s.2 (live_root s + i)) (s.2 (root + i)) span.

Definition span_leaf_ok (s : state) (sb : page) (alloc first i : Z) : bool :=
  let root := rd 8 sb SB_BITMAP_ROOT in
  let leaf := s.2 (root + i) in
  let span := i * CybouDB_MAP_LEAF_PAGES in
  leaf_header_ok leaf sb alloc i &&
  (if db_bitmap_deep s.1 sb (leaf_generation leaf) then
     leaf_sealed leaf && leaf_proved s root i span &&
     (if span <? alloc then leaf_entries_ok leaf span alloc first else leaf_blank leaf)
   else true).

Definition span_valid (s : state) (sb : page) (alloc : Z) : bool :=
  let k := db_bitmap_leaves (rd 8 sb SB_TOTAL_PAGES) in
  let first := 2 * k + CybouDB_MIN_PAGES in
  let root := rd 8 sb SB_BITMAP_ROOT in
  (first <=? alloc) &&
  ((root =? CybouDB_MIN_PAGES) || (root =? k + CybouDB_MIN_PAGES)) &&
  forallb (span_leaf_ok s sb alloc first) (seqZ 0 k).

Definition flat_valid (s : state) (sb : page) (alloc : Z) : bool :=
  let root := rd 8 sb SB_BITMAP_ROOT in
  let leaf := s.2 root in
  (CybouDB_MIN_PAGES <=? root) && (root <? alloc) &&
  (rd 4 leaf MAP_MAGIC =? CybouDB_MAP_MAGIC) &&
  (rd 4 leaf MAP_HEADER_SIZE =? MAP_DATA) &&
  (rd 8 leaf MAP_PAGE_ID =? root) &&
  negb (leaf_generation leaf =? 0) &&
  (leaf_generation leaf <=? rd 8 sb SB_GENERATION) &&
  (rd 8 leaf MAP_TOTAL =? rd 8 sb SB_TOTAL_PAGES) &&
  (rd 8 leaf MAP_ALLOC =? alloc) &&
  (rd 8 leaf MAP_RESERVED =? 0) && (rd 8 leaf (MAP_RESERVED + 8) =? 0) &&
  (rd 8 leaf (MAP_RESERVED + 16) =? 0) &&
  leaf_sealed leaf &&
  forallb (fun i =>
    let st := map_get leaf i in
    if alloc <=? i then st =? MAP_FREE
    else ((st =? MAP_PAYLOAD) || (st =? MAP_METADATA)) &&
         ((CybouDB_MIN_PAGES <=? i) || (st =? MAP_METADATA))) (seqZ 0 CybouDB_COW_MAX_PAGES) &&
  (map_get leaf root =? MAP_METADATA).

(** The typed graph below a candidate's root ([src/core/catalog.asm] and the
    modules it calls): [db_catalog_validate], and the page at which the directory
    under a root names an object, 0 when it does not. *)
Class Walk := {
  db_catalog_validate : db -> mem -> page -> bool;
  catalog_entry_in : db -> mem -> Z -> Z -> Z -> Z
}.

Section validation.
Context {W : Walk}.

(** One entry of the log in [cs_retires_are_unreachable]: the owner a retired
    page names must not be an object the candidate inherits. *)
Definition retire_unreachable (s : state) (sb : page) (c : change) : bool :=
  let p := cs_page c in
  let pg := s.2 p in
  let owner := rd 8 pg CAT_OWNER in
  let old := catalog_entry_in s.1 s.2 (rd 8 (live_sb s) SB_ROOT_PAGE) owner 0 in
  let new := catalog_entry_in s.1 s.2 (rd 8 sb SB_ROOT_PAGE) owner 0 in
  if negb (cs_to c =? MAP_RETIRED) then true
  else if (p <? CybouDB_MIN_PAGES) || (db_pages s.1 <=? p) then true
  else if rd 4 pg MAP_MAGIC =? CybouDB_MAP_MAGIC then true
  else if negb ((rd 4 pg CAT_MAGIC .& 0x00ffffff) =? 0x00515341) then true
  else if negb (rd 8 pg CAT_PAGE_ID =? p) then true
  else if owner =? 0 then true
  else if new =? 0 then true
  else if old =? 0 then true
  else negb (old =? new).

Definition cs_retires_are_unreachable (s : state) (sb : page) : bool :=
  if negb (db_prove s.1) || cs_overflow (db_cs s.1) then true
  else match cs_log (db_cs s.1) with
       | None => true
       | Some log => if db_sb_page s.1 =? 0 then true else forallb (retire_unreachable s sb) log
       end.

(** The allocation state of a candidate whose file has features. *)
Definition map_valid (s : state) (sb : page) : bool :=
  let total := rd 8 sb SB_TOTAL_PAGES in
  let alloc := rd 8 sb SB_ALLOC_PAGES in
  negb (rd 8 sb SB_GENERATION =? 0) &&
  (rd 8 sb SB_FREELIST_ROOT =? 0) &&
  ((rd 8 sb SB_FEATURE_ROOT =? 0) ||
   negb ((db_features s.1 .& CybouDB_FEATURE_ENCRYPTION) =? 0)) &&
  (CybouDB_COW_MIN_PAGES <=? total) &&
  (total <=? (if has_span s.1 then CybouDB_SPAN_MAX_PAGES else CybouDB_COW_MAX_PAGES)) &&
  (total .<< 12 =? db_size s.1) &&
  (CybouDB_COW_MIN_PAGES <=? alloc) && (alloc <=? total) &&
  (if has_span s.1 then span_valid s sb alloc else flat_valid s sb alloc) &&
  ((rd 8 sb SB_ROOT_PAGE =? 0) ||
   db_bitmap_candidate_payload s.1 s.2 sb (rd 8 sb SB_ROOT_PAGE)).

Definition db_bitmap_validate (s : state) (sb : page) : bool :=
  ((db_features s.1 =? 0) || map_valid s sb) &&
  db_catalog_validate s.1 s.2 sb && cs_retires_are_unreachable s sb.

(** [cs_audit], in a build that asks for it. *)
Definition cs_audit (s : state) : bool :=
  let '(d, m) := s in
  if negb (db_audit d) || cs_overflow (db_cs d) || negb (has_span d) || (live_root s =? db_bitmap d)
  then true
  else forallb (fun p =>
         let from := map_state true m (live_root s) p in
         let to := map_state true m (db_bitmap d) p in
         (from =? to) ||
         match cs_log (db_cs d) with
         | None => false
         | Some log => existsb (fun c => (cs_page c =? p) && (cs_to c =? to)) log
         end) (seqZ CybouDB_MIN_PAGES (db_pages d - CybouDB_MIN_PAGES)).

End validation.

(** ** Loads, stores and entries *)

(** A page of bytes. *)
Definition page_ok (pg : page) : Prop := length pg = Z.to_nat CybouDB_PAGE_SIZE /\ bytes pg.

Lemma set_page_eq m p pg : set_page m p pg p = pg.
Proof. unfold set_page. by rewrite Z.eqb_refl. Qed.
Lemma set_page_ne m p pg q : q <> p -> set_page m p pg q = m q.
Proof. unfold set_page. intros. by rewrite (proj2 (Z.eqb_neq q p)). Qed.

Section fields.
Variables (w w' : nat) (pg : page) (off off' v : Z).
Hypothesis Hoff : 0 <= off.
Hypothesis Hfit : off + Z.of_nat w <= Z.of_nat (length pg).

Lemma wr_fits : (Z.to_nat off + length (le_bytes w v) <= length pg)%nat.
Proof using Hoff Hfit. rewrite length_le_bytes. lia. Qed.

Lemma length_wr : length (wr w pg off v) = length pg.
Proof using Hoff Hfit. apply length_memcpy, wr_fits. Qed.

Lemma bytes_wr : bytes pg -> bytes (wr w pg off v).
Proof using Type. intros. apply bytes_memcpy; [done|apply bytes_le_bytes]. Qed.

Lemma rd_wr_eq : 0 <= v < 2 ^ (8 * Z.of_nat w) -> rd w (wr w pg off v) off = v.
Proof using Hoff Hfit.
  intros Hv. unfold rd, wr. pose proof (slice_memcpy_eq pg (Z.to_nat off) _ wr_fits) as E.
  rewrite length_le_bytes in E. rewrite E. by apply le_val_le_bytes.
Qed.

Lemma rd_wr_ne : 0 <= off' -> off' + Z.of_nat w' <= off \/ off + Z.of_nat w <= off' ->
  rd w' (wr w pg off v) off' = rd w' pg off'.
Proof using Hoff Hfit.
  intros Ho Hd. unfold rd, wr. f_equal. apply slice_memcpy_ne; [apply wr_fits|].
  rewrite length_le_bytes. lia.
Qed.
End fields.

Lemma rd_range w pg off : bytes pg -> 0 <= rd w pg off < 2 ^ (8 * Z.of_nat w).
Proof.
  intros Hb. unfold rd. pose proof (le_val_range (take w (drop (Z.to_nat off) pg))) as H.
  specialize (H (bytes_take _ _ (bytes_drop _ _ Hb))).
  assert (length (take w (drop (Z.to_nat off) pg)) <= w)%nat by (rewrite length_take; lia).
  split; [apply H|]. eapply Z.lt_le_trans; [apply H|]. apply Z.pow_le_mono_r; lia.
Qed.

Lemma page_ok_wr w pg off v : page_ok pg -> 0 <= off -> off + Z.of_nat w <= CybouDB_PAGE_SIZE ->
  page_ok (wr w pg off v).
Proof.
  intros [Hl Hb] ??. split; [|by apply bytes_wr].
  rewrite length_wr; [done|done|]. rewrite Hl. unfold CybouDB_PAGE_SIZE in *. lia.
Qed.

Lemma page_ok_zero : page_ok zero_page.
Proof.
  split; [apply length_replicate|]. apply Forall_replicate. unfold is_byte. lia.
Qed.

(** Stores into a page of 4096 bytes. *)
Lemma rd_wr_page_eq w pg off v : page_ok pg -> 0 <= off -> off + Z.of_nat w <= 4096 ->
  0 <= v < 2 ^ (8 * Z.of_nat w) -> rd w (wr w pg off v) off = v.
Proof. intros [Hl _] ???. apply rd_wr_eq; [done| |done]. rewrite Hl. unfold CybouDB_PAGE_SIZE. lia. Qed.

Lemma rd_wr_page_ne w w' pg off off' v : page_ok pg -> 0 <= off -> off + Z.of_nat w <= 4096 ->
  0 <= off' -> off' + Z.of_nat w' <= off \/ off + Z.of_nat w <= off' ->
  rd w' (wr w pg off v) off' = rd w' pg off'.
Proof. intros [Hl _] ????. apply rd_wr_ne; [done| |done|done]. rewrite Hl. unfold CybouDB_PAGE_SIZE. lia. Qed.

(** Two bits of a byte, for all bytes, places and states. *)
Lemma byte_entry b i j s : is_byte b -> 0 <= i < 4 -> 0 <= j < 4 -> 0 <= s < 4 ->
  let b' := (b .& u8 (Z.lnot (3 .<< (i .<< 1)))) .| u8 (s .<< (i .<< 1)) in
  is_byte b' /\ (b' .>> (j .<< 1)) .& 3 = if j =? i then s else (b .>> (j .<< 1)) .& 3.
Proof.
  intros Hb Hi Hj Hs. set (ok := fun b i j s =>
    let b' := (b .& u8 (Z.lnot (3 .<< (i .<< 1)))) .| u8 (s .<< (i .<< 1)) in
    (0 <=? b') && (b' <? 256) &&
    ((b' .>> (j .<< 1)) .& 3 =? if j =? i then s else (b .>> (j .<< 1)) .& 3)).
  assert (Hall : forallb (fun b => forallb (fun i => forallb (fun j => forallb (ok b i j)
    (seqZ 0 4)) (seqZ 0 4)) (seqZ 0 4)) (seqZ 0 256) = true) by (vm_compute; reflexivity).
  assert (Hin : forall x n, 0 <= x < n -> In x (seqZ 0 n)).
  { intros x n ?. apply list_elem_of_In, elem_of_seqZ. lia. }
  rewrite forallb_forall in Hall. specialize (Hall b (Hin _ _ Hb)).
  rewrite forallb_forall in Hall. specialize (Hall i (Hin _ _ Hi)).
  rewrite forallb_forall in Hall. specialize (Hall j (Hin _ _ Hj)).
  rewrite forallb_forall in Hall. specialize (Hall s (Hin _ _ Hs)).
  unfold ok in Hall. cbv zeta in *. bool_to_prop. split; [unfold is_byte; lia|done].
Qed.

Lemma page_byte pg k : page_ok pg -> is_byte (pg !!! k).
Proof.
  intros [_ Hb]. destruct (pg !! k) as [b|] eqn:E.
  - rewrite (list_lookup_total_correct _ _ _ E). by eapply Forall_lookup_1.
  - rewrite list_lookup_total_alt, E. unfold is_byte. simpl. lia.
Qed.

(** The byte and the place of an entry. *)
Lemma entry_place i : 0 <= i < CybouDB_MAP_LEAF_PAGES ->
  0 <= i .& 3 < 4 /\ MAP_DATA <= MAP_DATA + (i .>> 2) < MAP_CRC /\
  i = 4 * (i .>> 2) + (i .& 3).
Proof.
  intros Hi. assert (E3 : i .& 3 = i mod 4) by (apply (land_mask i 2); lia).
  assert (E2 : i .>> 2 = i / 4) by (apply Z.shiftr_div_pow2; lia). rewrite E3, E2.
  unfold CybouDB_MAP_LEAF_PAGES, CybouDB_COW_MAX_PAGES, MAP_DATA, MAP_CRC in *. lia.
Qed.

Lemma page_ok_map_set leaf i s : page_ok leaf -> 0 <= i < CybouDB_MAP_LEAF_PAGES -> 0 <= s < 4 ->
  page_ok (map_set leaf i s).
Proof.
  intros Hok Hi Hs. destruct (entry_place i Hi) as (Hj & _ & _). destruct Hok as [Hl Hb].
  split; [by rewrite <- Hl; apply length_insert|].
  apply Forall_insert; [done|]. eapply (byte_entry _ _ 0); [|done|lia|done].
  apply page_byte. by split.
Qed.

Lemma map_get_set leaf i j s : page_ok leaf -> 0 <= i < CybouDB_MAP_LEAF_PAGES ->
  0 <= j < CybouDB_MAP_LEAF_PAGES -> 0 <= s < 4 ->
  map_get (map_set leaf i s) j = if j =? i then s else map_get leaf j.
Proof.
  intros Hok Hi Hj Hs. destruct (entry_place i Hi) as (Hi3 & Hib & Ei).
  destruct (entry_place j Hj) as (Hj3 & Hjb & Ej). unfold map_get, map_set.
  destruct (decide (i .>> 2 = j .>> 2)) as [E|E].
  - rewrite E. rewrite list_lookup_total_insert_eq.
    2:{ destruct Hok as [-> _]. unfold CybouDB_PAGE_SIZE, MAP_CRC in *. lia. }
    rewrite (proj2 (byte_entry _ _ _ _ (page_byte _ _ Hok) Hi3 Hj3 Hs)).
    replace (j .& 3 =? i .& 3) with (j =? i); [done|].
    destruct (Z.eqb_spec j i), (Z.eqb_spec (j .& 3) (i .& 3)); try done; [subst; lia|lia].
  - rewrite list_lookup_total_insert_ne by (unfold MAP_DATA in *; lia).
    rewrite (proj2 (Z.eqb_neq j i)); [done|]. intros ->. done.
Qed.

Lemma map_get_range leaf i : 0 <= map_get leaf i < 4.
Proof. unfold map_get. rewrite (land_mask _ 2) by lia. apply Z.mod_pos_bound. lia. Qed.

(** The header of a leaf is not among its entries. *)
Lemma rd_map_set w leaf i s off : page_ok leaf -> 0 <= i < CybouDB_MAP_LEAF_PAGES ->
  0 <= off -> off + Z.of_nat w <= MAP_DATA -> rd w (map_set leaf i s) off = rd w leaf off.
Proof.
  intros Hok Hi Ho Hw. destruct (entry_place i Hi) as (_ & Hb & _). unfold rd, map_set. f_equal.
  apply list_eq. intros k. destruct (decide (k < w)%nat).
  - rewrite !lookup_take_lt, !lookup_drop by done.
    apply list_lookup_insert_ne. unfold MAP_DATA in *. lia.
  - by rewrite !lookup_take_ge by lia.
Qed.

Lemma map_get_wr w leaf off v i : page_ok leaf -> 0 <= i < CybouDB_MAP_LEAF_PAGES -> 0 <= off ->
  off + Z.of_nat w <= MAP_DATA \/ MAP_CRC <= off /\ off + Z.of_nat w <= CybouDB_PAGE_SIZE ->
  map_get (wr w leaf off v) i = map_get leaf i.
Proof.
  intros [Hl _] Hi Ho Hw. destruct (entry_place i Hi) as (_ & Hb & _).
  unfold map_get, wr. do 2 f_equal. rewrite !list_lookup_total_alt. f_equal.
  rewrite lookup_memcpy; rewrite length_le_bytes.
  - unfold MAP_DATA, MAP_CRC in *. by destruct ((Z.to_nat off <=? Z.to_nat (64 + (i .>> 2)))%nat) eqn:E1,
      ((Z.to_nat (64 + (i .>> 2)) <? Z.to_nat off + w)%nat) eqn:E2; bool_to_prop; try done; lia.
  - rewrite Hl. unfold CybouDB_PAGE_SIZE, MAP_DATA, MAP_CRC in *. lia.
Qed.

(** A byte of a field. *)
Lemma rd_byte w pg off i : bytes pg -> 0 <= off -> off + Z.of_nat w <= Z.of_nat (length pg) ->
  0 <= i < Z.of_nat w -> pg !!! Z.to_nat (off + i) = (rd w pg off .>> (8 * i)) mod 2 ^ 8.
Proof.
  intros Hb Ho Hl Hi. unfold rd. set (l := take w (drop (Z.to_nat off) pg)).
  assert (Hlen : length l = w) by (unfold l; rewrite length_take, length_drop; lia).
  assert (Hbl : bytes l) by (by apply bytes_take, bytes_drop).
  assert (E : l !! Z.to_nat i = Some (pg !!! Z.to_nat (off + i))).
  { unfold l. rewrite lookup_take_lt, lookup_drop by lia.
    replace (Z.to_nat off + Z.to_nat i)%nat with (Z.to_nat (off + i)) by lia.
    apply list_lookup_lookup_total_lt. lia. }
  rewrite Z.shiftr_div_pow2 by lia. replace (8 * i) with (8 * Z.of_nat (Z.to_nat i)) by lia.
  rewrite <- le_val_drop by (done || lia). rewrite (drop_S _ _ _ E). simpl le_val.
  rewrite Z.mul_comm, Z_mod_plus_full. symmetry. apply Z.mod_small.
  apply (Forall_lookup_1 _ _ _ _ Hbl E).
Qed.

(** Thirty-two entries make a word, sixteen half of one. *)
Lemma entry_word w leaf off j : page_ok leaf -> MAP_DATA <= off -> off + Z.of_nat w <= CybouDB_PAGE_SIZE ->
  4 * (off - MAP_DATA) <= j < 4 * (off - MAP_DATA) + 4 * Z.of_nat w ->
  map_get leaf j = (rd w leaf off .>> (2 * (j - 4 * (off - MAP_DATA)))) .& 3.
Proof.
  intros [Hlen Hb] Ho Hw Hj. unfold map_get.
  assert (E3 : j .& 3 = j mod 4) by (apply (land_mask j 2); lia).
  assert (E2 : j .>> 2 = j / 4) by (apply Z.shiftr_div_pow2; lia). rewrite E2, E3.
  replace (MAP_DATA + j / 4) with (off + (j / 4 - (off - MAP_DATA))) by lia.
  rewrite (rd_byte w); [|done|unfold MAP_DATA in *; lia| |lia].
  2:{ rewrite Hlen. unfold CybouDB_PAGE_SIZE in *. lia. }
  set (v := rd w leaf off). rewrite <- (land_mask _ 8) by lia.
  rewrite Z.shiftl_mul_pow2 by lia. change (2 ^ 1) with 2.
  apply Z.bits_inj'. intros b Hb'. rewrite !Z.land_spec, !Z.shiftr_spec by lia.
  rewrite Z.land_spec, Z.shiftr_spec by lia.
  destruct (decide (b < 2)) as [Hlt|Hge].
  - change (2 ^ 8 - 1) with (Z.ones 8). rewrite (Z.ones_spec_low 8) by lia.
    rewrite andb_true_r. f_equal. f_equal. lia.
  - change 3 with (Z.ones 2). rewrite Z.ones_spec_high by lia. by rewrite !andb_false_r.
Qed.

(** A blank leaf holds free entries only. *)
Lemma blank_free leaf j : page_ok leaf -> leaf_blank leaf = true ->
  0 <= j < CybouDB_MAP_LEAF_PAGES -> map_get leaf j = MAP_FREE.
Proof.
  intros Hok Hbl Hj. unfold leaf_blank in Hbl. apply andb_true_iff in Hbl as [Hw Ht%Z.eqb_eq].
  rewrite forallb_forall in Hw.
  unfold CybouDB_MAP_LEAF_PAGES, CybouDB_COW_MAX_PAGES, MAP_CRC, MAP_DATA in *.
  destruct (decide (j < 32 * 503)).
  - assert (E : rd 8 leaf (64 + 8 * (j / 32)) = 0).
    { apply Z.eqb_eq, Hw, list_elem_of_In, elem_of_seqZ. simpl. lia. }
    rewrite (entry_word 8 leaf (64 + 8 * (j / 32))); [by rewrite E, Z.shiftr_0_l|done|..];
      unfold MAP_DATA, CybouDB_PAGE_SIZE; lia.
  - rewrite (entry_word 4 leaf (4092 - 4)); [by rewrite Ht, Z.shiftr_0_l|done|..];
      unfold MAP_DATA, CybouDB_PAGE_SIZE; lia.
Qed.

(** ** The leaves of a file *)

(** The first page behind the header, the superblocks and both copies. *)
Definition first_payload (pages : Z) : Z := 2 * db_bitmap_leaves pages + CybouDB_MIN_PAGES.

Lemma leaves_bounds pages : 1 <= pages <= CybouDB_SPAN_MAX_PAGES ->
  1 <= db_bitmap_leaves pages <= 1024 /\
  pages <= db_bitmap_leaves pages * CybouDB_MAP_LEAF_PAGES.
Proof.
  unfold db_bitmap_leaves, CybouDB_SPAN_MAX_PAGES, CybouDB_MAP_LEAF_PAGES, CybouDB_COW_MAX_PAGES,
    MAP_CRC, MAP_DATA. intros H. rewrite u64_small by lia. lia.
Qed.

(** The page [p] is described by a leaf of the copy, at an index of that leaf. *)
Lemma map_place k root p : 0 <= p < k * CybouDB_MAP_LEAF_PAGES ->
  root <= map_leaf true root p < root + k /\ 0 <= map_index true p < CybouDB_MAP_LEAF_PAGES /\
  p = (map_leaf true root p - root) * CybouDB_MAP_LEAF_PAGES + map_index true p.
Proof.
  unfold map_leaf, map_index, CybouDB_MAP_LEAF_PAGES, CybouDB_COW_MAX_PAGES, MAP_CRC, MAP_DATA.
  intros H. lia.
Qed.

Lemma map_place_inj root p q : map_leaf true root p = map_leaf true root q ->
  map_index true p = map_index true q -> p = q.
Proof.
  unfold map_leaf, map_index, CybouDB_MAP_LEAF_PAGES, CybouDB_COW_MAX_PAGES, MAP_CRC, MAP_DATA.
  intros. lia.
Qed.

(** The entry of a page is in one leaf only. *)
Lemma map_state_ext m m' root p :
  m (map_leaf true root p) = m' (map_leaf true root p) ->
  map_state true m root p = map_state true m' root p.
Proof. unfold map_state. by intros ->. Qed.

Lemma map_state_entry m root i j : 0 <= j < CybouDB_MAP_LEAF_PAGES ->
  map_state true m root (i * CybouDB_MAP_LEAF_PAGES + j) = map_get (m (root + i)) j.
Proof.
  intros Hj. unfold map_state, map_leaf, map_index.
  assert (E : (i * CybouDB_MAP_LEAF_PAGES + j) / CybouDB_MAP_LEAF_PAGES = i /\
              (i * CybouDB_MAP_LEAF_PAGES + j) mod CybouDB_MAP_LEAF_PAGES = j).
  { unfold CybouDB_MAP_LEAF_PAGES, CybouDB_COW_MAX_PAGES, MAP_CRC, MAP_DATA in *. lia. }
  by destruct E as [-> ->].
Qed.

(** ** What a commit has to flush *)

Definition in_runs (runs : list (Z * Z)) (p : Z) : Prop :=
  exists run, In run runs /\ run.1 <= p < run.1 + run.2.

(** The hull holds the page, and so do the runs unless they overflowed. *)
Definition covered (d : dirty) (p : Z) : Prop :=
  dirty_lo d <= p < dirty_hi d /\ (run_ovf d = false -> in_runs (dirty_runs d) p).

Lemma in_runs_cons run runs p : in_runs (run :: runs) p <->
  run.1 <= p < run.1 + run.2 \/ in_runs runs p.
Proof.
  unfold in_runs. split.
  - intros (r & [->|H] & Hr); [by left|right; eauto].
  - intros [H|(r & H & Hr)]; [exists run|exists r]; split; auto using in_eq, in_cons.
Qed.

(** A run is never empty. *)
Definition runs_ok (d : dirty) : Prop := Forall (fun run => 0 < run.2) (dirty_runs d).

Lemma run_add_ok p runs runs' : run_add p runs = Some runs' ->
  Forall (fun run => 0 < run.2) runs -> Forall (fun run => 0 < run.2) runs'.
Proof.
  revert runs'. induction runs as [|[f c] runs IH]; intros runs' H Hq; [done|]. simpl in H.
  apply Forall_cons_1 in Hq as [Hc Hq]. simpl in Hc. revert H.
  repeat case_if; intros H; try (injection H as <-; constructor; simpl; (done || lia));
    destruct (run_add p runs) as [l|]; try done; injection H as <-; constructor; auto.
Qed.

Lemma runs_ok_mark d p : runs_ok d -> runs_ok (mark_dirty d p).
Proof.
  unfold runs_ok, mark_dirty. intros H. destruct (if dirty_hi d =? 0 then _ else _) as [lo hi].
  destruct (run_ovf d); [done|]. destruct (run_add p (dirty_runs d)) as [runs|] eqn:Er.
  - by eapply run_add_ok.
  - case_if; [done|]. simpl. apply Forall_app. split; [done|]. by repeat constructor.
Qed.

Lemma run_add_covers p runs runs' q : run_add p runs = Some runs' ->
  Forall (fun run => 0 < run.2) runs -> q = p \/ in_runs runs q -> in_runs runs' q.
Proof.
  revert runs'. induction runs as [|[f c] runs IH]; intros runs' H Hc Hq; [done|]. simpl in H.
  apply Forall_cons_1 in Hc as [Hc Hcs]. simpl in Hc.
  assert (Hrest : forall r, run_add p runs = r -> (cons (f, c) <$> r) = Some runs' ->
    in_runs runs' q).
  { intros [l|] E [= <-]. rewrite in_runs_cons in *. specialize (IH _ E Hcs). tauto. }
  revert H. repeat case_if; intros H; try (by eapply Hrest); injection H as <-;
    rewrite in_runs_cons in *; simpl in *; destruct Hq as [->|[|]]; try (left; lia); tauto.
Qed.

Lemma mark_dirty_covers d p q : runs_ok d -> 0 <= p -> 0 <= q -> q = p \/ covered d q ->
  covered (mark_dirty d p) q.
Proof.
  intros Hok Hp Hq H. unfold mark_dirty.
  destruct (if dirty_hi d =? 0 then _ else _) as [lo hi] eqn:E.
  assert (Hh : lo <= q < hi).
  { unfold covered in H. destruct (dirty_hi d =? 0) eqn:Eh; injection E as <- <-; bool_to_prop;
      [lia|]. repeat case_if; lia. }
  assert (Hr : run_ovf d = false -> q = p \/ in_runs (dirty_runs d) q).
  { intros Eo. destruct H as [->|[_ H]]; auto. }
  destruct (run_ovf d) eqn:Eo; [by split|].
  destruct (run_add p (dirty_runs d)) as [runs|] eqn:Er.
  - split; [done|]. intros _. eapply run_add_covers; eauto.
  - case_if; [by split|]. split; [done|]. intros _. simpl.
    destruct (Hr eq_refl) as [->|(r & Hin & Hr')].
    + exists (p, 1). split; [apply in_app_iff; right; by left|simpl; lia].
    + exists r. split; [apply in_app_iff; by left|done].
Qed.

(** ** The searches of the allocator *)

Lemma find_page_Some f from n p : find_page f from n = Some p ->
  from <= p < from + Z.of_nat n /\ f p = true.
Proof.
  revert from. induction n as [|n IH]; intros from; simpl; [done|]. destruct (f from) eqn:E.
  - intros [= <-]. split; [lia|done].
  - intros [? ?]%IH. split; [lia|done].
Qed.

Lemma scan_run_Some f pages from start len n p : scan_run f pages from start len n = Some p ->
  0 < pages -> 0 <= len < pages -> (len = 0 \/ start = from - len) ->
  (forall q, from - len <= q < from -> f q = true) ->
  from - len <= p /\ p + pages <= from + Z.of_nat n /\ forall q, p <= q < p + pages -> f q = true.
Proof.
  revert from start len. induction n as [|n IH]; intros from start len; simpl; [done|].
  intros H Hp Hl Hs Hf. destruct (f from) eqn:E.
  - assert (Hf' : forall q, from - len <= q < from + 1 -> f q = true).
    { intros q ?. destruct (decide (q = from)) as [->|]; [done|]. apply Hf. lia. }
    assert (Es : (if len =? 0 then from else start) = from - len) by (case_if; lia).
    rewrite Es in H. destruct (pages <=? len + 1) eqn:El; bool_to_prop.
    + injection H as <-. split_and!; [lia|lia|]. intros q ?. apply Hf'. lia.
    + apply IH in H as (? & ? & ?); [|lia|lia|right; lia|intros q ?; apply Hf'; lia].
      split_and!; [lia|lia|done].
  - apply IH in H as (? & ? & ?); [|lia|lia|by left|intros; lia]. split_and!; [lia|lia|done].
Qed.
