(* ===== verification/Recount.v ===== *)
(** * Recount: how many pages can be reused

    [db_bitmap_recount] counts the retired entries of the live map a word at a
    time: thirty-two entries become one bit each, and the bits are added up in
    parallel.  What it counts is what a look at every entry counts. *)

From S2P Require Import Prelude Crc32c AllocMap.

(** ** Counting one by one *)

(** How many of [n] numbers from [lo] on have [f]. *)
Definition count_if (f : Z -> bool) (lo n : Z) : Z := Z.of_nat (length (List.filter f (seqZ lo n))).

Lemma count_if_app f lo a b : 0 <= a -> 0 <= b ->
  count_if f lo (a + b) = count_if f lo a + count_if f (lo + a) b.
Proof.
  intros Ha Hb. unfold count_if. rewrite seqZ_app by done. rewrite List.filter_app, length_app. lia.
Qed.

Lemma count_if_shift f g lo lo' n : (forall i, 0 <= i < n -> f (lo + i) = g (lo' + i)) ->
  count_if f lo n = count_if g lo' n.
Proof.
  intros H. destruct (decide (n <= 0)); [unfold count_if; by rewrite !seqZ_nil by lia|].
  remember (Z.to_nat n) as k eqn:Ek. replace n with (Z.of_nat k) in * by lia. clear n n0 Ek.
  induction k as [|k IH]; [done|]. replace (Z.of_nat (S k)) with (Z.of_nat k + 1) in * by lia.
  rewrite !count_if_app by lia. rewrite IH by (intros; apply H; lia). f_equal.
  assert (E1 : forall x, seqZ x 1 = [x]) by (intros; by rewrite seqZ_cons, seqZ_nil by lia).
  unfold count_if. rewrite !E1. cbn [List.filter]. rewrite (H (Z.of_nat k)) by lia. by destruct (g _).
Qed.

Lemma count_if_none f lo n : (forall i, 0 <= i < n -> f (lo + i) = false) -> count_if f lo n = 0.
Proof.
  intros H. rewrite (count_if_shift f (fun _ => false) lo 0) by done. unfold count_if.
  by induction (seqZ 0 n).
Qed.

(** ** Words as lists of bytes *)

(** The low byte and the rest of a conjunction. *)
Lemma land_step x b m : 0 <= b < 256 ->
  x .& (b + 2 ^ 8 * m) = ((x mod 256) .& b) + 2 ^ 8 * ((x / 256) .& m).
Proof.
  intros Hb. rewrite (Z.div_mod x 256) at 1 by lia.
  replace (256 * (x / 256) + x mod 256) with (x mod 256 + 2 ^ 8 * (x / 256)) by lia.
  set (lo := x mod 256). set (hi := x / 256).
  assert (Hlo : 0 <= lo < 256) by (apply Z.mod_pos_bound; lia).
  assert (Hj : forall a c, 0 <= a < 256 -> a + 2 ^ 8 * c = a .| (c .<< 8)).
  { intros a c Ha. rewrite Z.shiftl_mul_pow2, Z.mul_comm by lia.
    rewrite <- Z.add_lor_land.
    replace (a .& (c * 2 ^ 8)) with 0; [lia|]. symmetry. apply Z.bits_inj'. intros n Hn.
    rewrite Z.land_spec, Z.bits_0. rewrite <- Z.shiftl_mul_pow2 by lia.
    destruct (decide (n < 8)).
    - rewrite (Z.shiftl_spec_low c) by lia. apply andb_false_r.
    - rewrite <- (Z.mod_small a (2 ^ 8)) by lia. rewrite Z.mod_pow2_bits_high by lia. done. }
  assert (Hl : 0 <= lo .& b < 256).
  { split; [apply Z.land_nonneg; lia|].
    replace 256 with (2 ^ 8) by lia. destruct (decide (lo .& b = 0)) as [->|Hne]; [lia|].
    apply Z.log2_lt_pow2; [pose proof (Z.land_nonneg lo b); lia|].
    pose proof (Z.log2_land lo b ltac:(lia) ltac:(lia)) as H'.
    destruct (decide (lo = 0)) as [E|]; [rewrite E, Z.land_0_l in Hne; done|].
    assert (Z.log2 lo < 8) by (apply Z.log2_lt_pow2; lia). lia. }
  rewrite !Hj by done. rewrite Z.land_lor_distr_r, !Z.land_lor_distr_l, <- Z.shiftl_land.
  assert (Hz : forall a c, 0 <= a < 256 -> a .& (c .<< 8) = 0).
  { intros a c Ha. apply Z.bits_inj'. intros n Hn. rewrite Z.land_spec, Z.bits_0.
    destruct (decide (n < 8)).
    - rewrite Z.shiftl_spec_low by lia. apply andb_false_r.
    - rewrite <- (Z.mod_small a (2 ^ 8)) by lia. by rewrite Z.mod_pow2_bits_high by lia. }
  rewrite (Z.land_comm (hi .<< 8) b), (Hz b hi Hb), (Hz lo m Hlo). by rewrite Z.lor_0_l, Z.lor_0_r.
Qed.

(** Lane by lane, a shift within the lanes that are kept. *)
Lemma land_shift_lanes s mk a : 0 <= s < 8 -> 0 <= mk < 2 ^ (8 - s) -> bytes a ->
  (le_val a .>> s) .& le_val (replicate (length a) mk) = le_val (map (fun b => (b .>> s) .& mk) a).
Proof.
  intros Hs Hm. assert (Hp : 0 < 2 ^ s) by (apply Z.pow_pos_nonneg; lia).
  assert (E8 : 2 ^ 8 = 2 ^ s * 2 ^ (8 - s)) by (rewrite <- Z.pow_add_r by lia; f_equal; lia).
  assert (Hq : 0 < 2 ^ (8 - s)) by (apply Z.pow_pos_nonneg; lia).
  assert (Hm8 : 0 <= mk < 256) by (change 256 with (2 ^ 8); nia).
  induction a as [|b a IH]; intros Hb; [by rewrite Z.shiftr_0_l|].
  apply Forall_cons_1 in Hb as [Hb Ha]. unfold is_byte in Hb. cbn [length replicate map le_val].
  rewrite land_step by done. rewrite <- (IH Ha). rewrite !Z.shiftr_div_pow2 by lia. f_equal.
  - assert (E : (b + 2 ^ 8 * le_val a) / 2 ^ s = b / 2 ^ s + le_val a * 2 ^ (8 - s)).
    { rewrite E8. replace (b + 2 ^ s * 2 ^ (8 - s) * le_val a) with (b + (le_val a * 2 ^ (8 - s)) * 2 ^ s) by lia.
      by apply Z.div_add; lia. }
    rewrite E. apply Z.bits_inj'. intros n Hn. rewrite !Z.land_spec.
    destruct (decide (n < 8 - s)) as [Hlt|Hge].
    + f_equal. change 256 with (2 ^ 8). rewrite Z.mod_pow2_bits_low by lia.
      rewrite <- (Z.mod_pow2_bits_low _ (8 - s) n) by lia. rewrite Z.mod_add by lia.
      by rewrite Z.mod_pow2_bits_low by lia.
    + rewrite <- (Z.mod_small mk (2 ^ (8 - s))) by lia.
      rewrite (Z.mod_pow2_bits_high mk) by lia. by rewrite !andb_false_r.
  - f_equal. f_equal. rewrite Z.div_div by lia. change 256 with (2 ^ 8).
    rewrite (Z.mul_comm (2 ^ s)), <- Z.div_div by lia. f_equal.
    rewrite Z.mul_comm, Z.div_add by lia. rewrite Z.div_small by (change (2 ^ 8) with 256; lia). lia.
Qed.

Lemma land_lanes a c : bytes a -> bytes c -> length a = length c ->
  le_val a .& le_val c = le_val (zip_with Z.land a c).
Proof.
  revert c. induction a as [|x a IH]; intros [|y c] Ha Hc Hl; try done.
  apply Forall_cons_1 in Ha as [Hx Ha]. apply Forall_cons_1 in Hc as [Hy Hc]. unfold is_byte in *.
  cbn [zip_with le_val]. rewrite land_step by done. rewrite <- IH by (try done; simpl in Hl; lia).
  f_equal; [f_equal|f_equal; f_equal]; change (2 ^ 8) with 256; lia.
Qed.

(** The lanes of a word and of its half, added: a lane receives the low half of
    the lane above in its high half, which the mask drops. *)
Definition half_lane (x : Z) : Prop := 0 <= x <= 0x22 /\ x mod 16 <= 2.

Lemma add_half_lanes a : Forall half_lane a ->
  (le_val a + (le_val a .>> 4)) .& le_val (replicate (length a) 15) =
  le_val (map (fun x => (x + (x .>> 4)) .& 15) a).
Proof.
  induction a as [|x a IH]; intros Ha; [done|]. apply Forall_cons_1 in Ha as [[Hx _] Ha].
  assert (Hlow : 0 <= le_val a mod 16 <= 2).
  { destruct Ha as [|y a [Hy Hy'] _]; [done|]. cbn [le_val]. change (2 ^ 8) with 256. lia. }
  cbn [length replicate map le_val]. rewrite land_step by lia. rewrite <- (IH Ha). clear IH.
  rewrite !Z.shiftr_div_pow2 by lia. change (2 ^ 8) with 256. change (2 ^ 4) with 16.
  set (A := le_val a) in *. assert (E1 : (x + 256 * A) / 16 = x / 16 + 16 * A) by lia.
  rewrite E1. f_equal.
  - rewrite !(land_mask _ 4) by lia. change (2 ^ 4) with 16. lia.
  - replace ((x + 256 * A + (x / 16 + 16 * A)) / 256) with (A + A / 16) by lia. done.
Qed.

Lemma add_lanes a c : length a = length c ->
  le_val a + le_val c = le_val (zip_with Z.add a c).
Proof.
  revert c. induction a as [|x a IH]; intros [|y c] Hl; try done. cbn [zip_with le_val].
  rewrite <- IH by (simpl in Hl; lia). lia.
Qed.

Lemma sub_lanes a c : length a = length c ->
  le_val a - le_val c = le_val (zip_with Z.sub a c).
Proof.
  revert c. induction a as [|x a IH]; intros [|y c] Hl; try done. cbn [zip_with le_val].
  rewrite <- IH by (simpl in Hl; lia). lia.
Qed.

(** ** One word *)

(** The retired entries of a byte, one by one. *)
Definition byte_retired (b : Z) : Z := count_if (fun e => (b .>> (2 * e)) .& 3 =? MAP_RETIRED) 0 4.

(** What the steps make of a byte. *)
Definition lane1 (b : Z) : Z := ((b .>> 1) .& 0x55) .& b.
Definition lane3 (r : Z) : Z := ((r .>> 2) .& 0x33) + (r .& 0x33).
Definition lane4 (r : Z) : Z := (r + (r .>> 4)) .& 15.

Lemma lanes_of_byte b : is_byte b ->
  is_byte (lane1 b) /\ (lane1 b .>> 1) .& 0x55 = 0 /\ half_lane (lane3 (lane1 b)) /\
  lane4 (lane3 (lane1 b)) = byte_retired b /\ 0 <= byte_retired b <= 4.
Proof.
  intros Hb. set (ok := fun b => (0 <=? lane1 b) && (lane1 b <? 256) &&
    ((lane1 b .>> 1) .& 0x55 =? 0) && (0 <=? lane3 (lane1 b)) && (lane3 (lane1 b) <=? 0x22) && (lane3 (lane1 b) mod 16 <=? 2) &&
    (lane4 (lane3 (lane1 b)) =? byte_retired b) && (0 <=? byte_retired b) && (byte_retired b <=? 4)).
  assert (Hall : forallb ok (seqZ 0 256) = true) by (vm_compute; reflexivity).
  rewrite forallb_forall in Hall. specialize (Hall b).
  assert (Hin : In b (seqZ 0 256)).
  { apply list_elem_of_In, elem_of_seqZ. unfold is_byte in Hb. lia. }
  specialize (Hall Hin). unfold ok in Hall. unfold is_byte, half_lane. bool_to_prop. lia.
Qed.

Lemma byte_mask b : is_byte b -> is_byte ((b .>> 1) .& 0x55).
Proof.
  unfold is_byte. intros Hb. split; [apply Z.land_nonneg; lia|].
  rewrite <- (Z.mod_small ((b .>> 1) .& 0x55) 128); [pose proof (Z.mod_pos_bound ((b .>> 1) .& 0x55) 128); lia|].
  change 128 with (2 ^ 7). change 0x55 with (0x55 .& Z.ones 7). rewrite Z.land_assoc, Z.land_ones by lia.
  apply Z.mod_pos_bound. lia.
Qed.

Lemma zip_with_map_l {A} (f : A -> Z) (g : Z -> A -> Z) l :
  zip_with g (map f l) l = map (fun x => g (f x) x) l.
Proof. induction l as [|x l IH]; [done|]. simpl. by rewrite IH. Qed.

Lemma zip_with_maps {A} (f g : A -> Z) (h : Z -> Z -> Z) l :
  zip_with h (map f l) (map g l) = map (fun x => h (f x) (g x)) l.
Proof. induction l as [|x l IH]; [done|]. simpl. by rewrite IH. Qed.

(** The bytes of a word are added up by the multiplication. *)
Lemma sum_bytes c : length c = 8%nat -> Forall (fun x => 0 <= x <= 4) c ->
  u64 (le_val c * 0x0101010101010101) .>> 56 = fold_right Z.add 0 c.
Proof.
  intros Hl Hc. destruct c as [|c0 [|c1 [|c2 [|c3 [|c4 [|c5 [|c6 [|c7 [|]]]]]]]]]; try done.
  repeat (apply Forall_cons_1 in Hc as [? Hc]). clear Hc Hl. cbn [le_val fold_right].
  rewrite Z.shiftr_div_pow2 by lia. unfold u64.
  set (S := c0 + (c1 + (c2 + (c3 + (c4 + (c5 + (c6 + (c7 + 0)))))))).
  symmetry. apply Z.div_unique_pos with
    (r := c0 + 2 ^ 8 * (c0 + c1) + 2 ^ 16 * (c0 + c1 + c2) + 2 ^ 24 * (c0 + c1 + c2 + c3) +
          2 ^ 32 * (c0 + c1 + c2 + c3 + c4) + 2 ^ 40 * (c0 + c1 + c2 + c3 + c4 + c5) +
          2 ^ 48 * (c0 + c1 + c2 + c3 + c4 + c5 + c6)); [lia|].
  symmetry. apply Z.mod_unique_pos with
    (q := (c1 + c2 + c3 + c4 + c5 + c6 + c7) + 2 ^ 8 * (c2 + c3 + c4 + c5 + c6 + c7) +
          2 ^ 16 * (c3 + c4 + c5 + c6 + c7) + 2 ^ 24 * (c4 + c5 + c6 + c7) + 2 ^ 32 * (c5 + c6 + c7) +
          2 ^ 40 * (c6 + c7) + 2 ^ 48 * c7); unfold S; lia.
Qed.

Lemma half_lanes_bound a : length a = 8%nat -> Forall half_lane a -> 0 <= le_val a < 2 ^ 62.
Proof.
  intros Hl Ha. destruct a as [|c0 [|c1 [|c2 [|c3 [|c4 [|c5 [|c6 [|c7 [|]]]]]]]]]; try done.
  repeat (apply Forall_cons_1 in Ha as [[? _] Ha]). cbn [le_val]. lia.
Qed.

Lemma word_retired_bytes l : length l = 8%nat -> bytes l ->
  word_retired (le_val l) = fold_right Z.add 0 (map byte_retired l).
Proof.
  intros Hl Hb.
  assert (Hf : forall (P : Z -> Prop), (forall b, is_byte b -> P b) -> Forall P l).
  { intros P HP. eapply List.Forall_impl; [|exact Hb]. done. }
  assert (Hm : forall (P : Z -> Prop) f, (forall b, is_byte b -> P (f b)) -> Forall P (map f l)).
  { intros P f HP. apply List.Forall_map. by apply Hf. }
  assert (Em : forall f g : Z -> Z, (forall b, is_byte b -> f b = g b) -> map f l = map g l).
  { intros f g H. apply map_ext_Forall. by apply Hf. }
  assert (Hlen : forall f : Z -> Z, length (map f l) = length l) by (intros; apply length_map).
  unfold word_retired. cbv zeta.
  change 0x5555555555555555 with (le_val (replicate 8 0x55)).
  change 0x3333333333333333 with (le_val (replicate 8 0x33)).
  change 0x0f0f0f0f0f0f0f0f with (le_val (replicate 8 15)). rewrite <- Hl.
  assert (E1 : ((le_val l .>> 1) .& le_val l) .& le_val (replicate (length l) 0x55) = le_val (map lane1 l)).
  { rewrite <- Z.land_assoc, (Z.land_comm (le_val l)), Z.land_assoc.
    rewrite land_shift_lanes by (done || lia). rewrite land_lanes.
    - by rewrite zip_with_map_l.
    - apply Hm. apply byte_mask.
    - done.
    - apply Hlen. }
  assert (H1 : bytes (map lane1 l)) by (apply Hm; apply lanes_of_byte).
  assert (Es : forall sh mk f, 0 <= sh < 8 -> 0 <= mk < 2 ^ (8 - sh) -> bytes (map f l) ->
    (le_val (map f l) .>> sh) .& le_val (replicate (length l) mk) =
    le_val (map (fun b => (f b .>> sh) .& mk) l)).
  { intros sh mk f ?? Hbf. rewrite <- (Hlen f), land_shift_lanes by done. by rewrite map_map. }
  rewrite E1, (Es 1 0x55 lane1) by (done || lia).
  rewrite (Em (fun b => (lane1 b .>> 1) .& 0x55) (fun _ => 0)) by (intros b ?; by apply lanes_of_byte).
  assert (Ez : le_val (map (fun _ => 0) l) = 0).
  { clear. induction l as [|x l IH]; [done|]. cbn [map le_val]. rewrite IH. lia. }
  rewrite Ez, Z.sub_0_r.
  assert (R1 : 0 <= le_val (map lane1 l) < 2 ^ 64).
  { pose proof (le_val_range _ H1) as H. rewrite Hlen, Hl in H. exact H. }
  rewrite (u64_small (le_val (map lane1 l))) by done. rewrite (Es 2 0x33 lane1) by (done || lia).
  assert (E0 : le_val (map lane1 l) .& le_val (replicate (length l) 0x33) =
               le_val (map (fun b => lane1 b .& 0x33) l)).
  { pose proof (Es 0 0x33 lane1 ltac:(lia) ltac:(lia) H1) as H. by rewrite Z.shiftr_0_r in H. }
  rewrite E0, add_lanes by (by rewrite !length_map).
  rewrite (zip_with_maps (fun b => (lane1 b .>> 2) .& 0x33) (fun b => lane1 b .& 0x33) Z.add l).
  change (map (fun x => ((lane1 x .>> 2) .& 0x33) + (lane1 x .& 0x33)) l) with
    (map (fun x => lane3 (lane1 x)) l).
  assert (H3 : Forall half_lane (map (fun x => lane3 (lane1 x)) l)) by (apply Hm; apply lanes_of_byte).
  assert (B3 : bytes (map (fun x => lane3 (lane1 x)) l)).
  { eapply List.Forall_impl; [|exact H3]. unfold half_lane, is_byte. intros. lia. }
  assert (R3 : 0 <= le_val (map (fun x => lane3 (lane1 x)) l) < 2 ^ 62).
  { apply half_lanes_bound; [by rewrite Hlen|done]. }
  rewrite (u64_small (le_val (map (fun x => lane3 (lane1 x)) l))) by lia.
  rewrite (u64_small (_ + _)).
  2:{ revert R3. generalize (le_val (map (fun x => lane3 (lane1 x)) l)). intros A R3.
      rewrite Z.shiftr_div_pow2 by lia. lia. }
  rewrite <- (Hlen (fun x => lane3 (lane1 x))), add_half_lanes by done. rewrite map_map.
  change (map (fun x => (lane3 (lane1 x) + (lane3 (lane1 x) .>> 4)) .& 15) l) with
    (map (fun x => lane4 (lane3 (lane1 x))) l).
  rewrite (Em (fun x => lane4 (lane3 (lane1 x))) byte_retired) by (intros b ?; by apply lanes_of_byte).
  apply sum_bytes; [by rewrite Hlen|]. apply Hm. apply lanes_of_byte.
Qed.

(** The retired entries of a word, one by one. *)
Definition word_entries (w n : Z) : Z := count_if (fun e => (w .>> (2 * e)) .& 3 =? MAP_RETIRED) 0 n.

Lemma word_entries_bytes l : bytes l ->
  word_entries (le_val l) (4 * Z.of_nat (length l)) = fold_right Z.add 0 (map byte_retired l).
Proof.
  induction l as [|b l IH]; intros Hb; [done|]. apply Forall_cons_1 in Hb as [Hb Hl]. unfold is_byte in Hb.
  cbn [length map fold_right le_val]. rewrite <- (IH Hl). unfold word_entries, byte_retired.
  replace (4 * Z.of_nat (S (length l))) with (4 + 4 * Z.of_nat (length l)) by lia.
  rewrite count_if_app by lia. f_equal; apply count_if_shift; intros e He; f_equal; rewrite !Z.add_0_l.
  - rewrite !(land_mask _ 2) by lia. rewrite !Z.shiftr_div_pow2 by lia.
    assert (C : e = 0 \/ e = 1 \/ e = 2 \/ e = 3) by lia.
    destruct C as [->|[->|[->| ->]]]; cbn; lia.
  - replace (2 * (4 + e)) with (8 + 2 * e) by lia. rewrite <- Z.shiftr_shiftr by lia. f_equal. f_equal.
    rewrite Z.shiftr_div_pow2 by lia. change (2 ^ 8) with 256. lia.
Qed.

Lemma word_retired_entries w : 0 <= w < 2 ^ 64 -> word_retired w = word_entries w 32.
Proof.
  intros Hw. pose proof (le_val_le_bytes 8 w Hw) as E. rewrite <- E.
  pose proof (length_le_bytes 8 w) as Hl. pose proof (bytes_le_bytes 8 w) as Hb.
  rewrite word_retired_bytes by done. rewrite <- word_entries_bytes by done. by rewrite Hl.
Qed.

(** Entries that the mask drops are not counted. *)
Lemma word_entries_masked w n : 0 <= n <= 32 -> word_entries (w .& ((1 .<< (n + n)) - 1)) 32 = word_entries w n.
Proof.
  intros Hn. unfold word_entries. replace 32 with (n + (32 - n)) by lia. rewrite count_if_app by lia.
  replace ((1 .<< (n + n)) - 1) with (Z.ones (n + n)) by done. rewrite Z.land_ones by lia.
  rewrite (count_if_none _ (0 + n)), Z.add_0_r.
  - apply count_if_shift. intros e He. rewrite !Z.add_0_l. f_equal. apply Z.bits_inj'. intros b Hb.
    rewrite !Z.land_spec, !Z.shiftr_spec by lia. change 3 with (Z.ones 2).
    destruct (decide (b < 2)).
    + by rewrite Z.mod_pow2_bits_low by lia.
    + rewrite (Z.ones_spec_high 2) by lia. by rewrite !andb_false_r.
  - intros e He. apply Z.eqb_neq. rewrite Z.shiftr_div_pow2 by lia.
    assert (E : w mod 2 ^ (n + n) / 2 ^ (2 * (0 + n + e)) = 0).
    { apply Z.div_small. pose proof (Z.mod_pos_bound w (2 ^ (n + n)) ltac:(apply Z.pow_pos_nonneg; lia)).
      assert (2 ^ (n + n) <= 2 ^ (2 * (0 + n + e))) by (apply Z.pow_le_mono_r; lia). lia. }
    by rewrite E.
Qed.

(** ** The leaves *)

(** The retired entries of a leaf, one by one. *)
Definition leaf_retired (leaf : page) (lo n : Z) : Z :=
  count_if (fun j => map_get leaf j =? MAP_RETIRED) lo n.

Lemma word_of_leaf leaf off n : page_ok leaf -> MAP_DATA <= off -> off + 8 <= CybouDB_PAGE_SIZE ->
  0 <= n <= 32 -> word_entries (rd 8 leaf off) n = leaf_retired leaf (4 * (off - MAP_DATA)) n.
Proof.
  intros Hok Ho Hl Hn. apply count_if_shift. intros e He. f_equal.
  rewrite (entry_word 8 leaf off) by (done || lia). f_equal. f_equal. lia.
Qed.

Lemma count_words_S fuel leaf off entries retired :
  count_words (S fuel) leaf off entries retired =
  if entries =? 0 then retired
  else if 32 <=? entries
  then count_words fuel leaf (off + 8) (entries - 32) (retired + word_retired (rd 8 leaf off))
  else retired + word_retired (rd 8 leaf off .& ((1 .<< (entries + entries)) - 1)).
Proof. reflexivity. Qed.

Lemma count_words_exact fuel leaf off entries retired : page_ok leaf -> MAP_DATA <= off ->
  off mod 8 = 0 -> 0 <= entries <= 32 * Z.of_nat fuel ->
  4 * (off - MAP_DATA) + entries <= CybouDB_MAP_LEAF_PAGES ->
  count_words fuel leaf off entries retired = retired + leaf_retired leaf (4 * (off - MAP_DATA)) entries.
Proof.
  intros Hok. revert off entries retired. induction fuel as [|fuel IH]; intros off entries retired Ho Ha He Hr.
  { replace entries with 0 by lia. change (count_words 0 leaf off 0 retired) with retired.
    unfold leaf_retired, count_if. rewrite seqZ_nil by lia. simpl. lia. }
  unfold CybouDB_MAP_LEAF_PAGES, CybouDB_COW_MAX_PAGES, MAP_CRC in Hr.
  pose proof (rd_range 8 leaf off (proj2 Hok)) as Hw. change (2 ^ (8 * Z.of_nat 8)) with (2 ^ 64) in Hw.
  rewrite count_words_S. destruct (Z.eqb_spec entries 0) as [->|He0].
  { unfold leaf_retired, count_if. rewrite seqZ_nil by lia. simpl. lia. }
  assert (Hl : off + 8 <= CybouDB_PAGE_SIZE) by (unfold CybouDB_PAGE_SIZE, MAP_DATA in *; lia).
  destruct (Z.leb_spec 32 entries) as [H32|H32].
  - rewrite IH; [|lia|lia|lia|unfold CybouDB_MAP_LEAF_PAGES, CybouDB_COW_MAX_PAGES, MAP_CRC; lia].
    rewrite word_retired_entries by done. rewrite (word_of_leaf leaf off) by (done || lia).
    replace entries with (32 + (entries - 32)) at 2 by lia. unfold leaf_retired at 3.
    rewrite count_if_app by lia. unfold leaf_retired.
    replace (4 * (off + 8 - MAP_DATA)) with (4 * (off - MAP_DATA) + 32) by lia. lia.
  - rewrite word_retired_entries.
    + rewrite word_entries_masked by lia. by rewrite word_of_leaf by (done || lia).
    + replace ((1 .<< (entries + entries)) - 1) with (Z.ones (entries + entries)) by done.
      rewrite Z.land_ones by lia. pose proof (Z.mod_pos_bound (rd 8 leaf off) (2 ^ (entries + entries))
        ltac:(apply Z.pow_pos_nonneg; lia)).
      pose proof (Z.mod_le (rd 8 leaf off) (2 ^ (entries + entries)) ltac:(lia)
        ltac:(apply Z.pow_pos_nonneg; lia)). lia.
Qed.

(** ** The map *)

(** The retired pages a map shows, one by one. *)
Definition pages_retired (m : mem) (root lo n : Z) : Z :=
  count_if (fun p => map_state true m root p =? MAP_RETIRED) lo n.

Lemma count_leaves_S fuel m root alloc i total :
  count_leaves (S fuel) m root alloc i total =
  if alloc <=? i * CybouDB_MAP_LEAF_PAGES then total
  else count_leaves fuel m root alloc (i + 1)
         (total + count_words LEAF_WORDS (m (root + i)) MAP_DATA
            (Z.min (alloc - i * CybouDB_MAP_LEAF_PAGES) CybouDB_MAP_LEAF_PAGES) 0).
Proof. reflexivity. Qed.

Section map.
Context (m : mem) (root alloc : Z).
Hypothesis Hok : forall i, 0 <= i -> i * CybouDB_MAP_LEAF_PAGES < alloc -> page_ok (m (root + i)).

Lemma leaf_counted i n : 0 <= i -> i * CybouDB_MAP_LEAF_PAGES < alloc -> 0 <= n <= CybouDB_MAP_LEAF_PAGES ->
  count_words LEAF_WORDS (m (root + i)) MAP_DATA n 0 =
  pages_retired m root (i * CybouDB_MAP_LEAF_PAGES) n.
Proof using Hok.
  intros Hi Ha Hn. rewrite count_words_exact.
  - rewrite Z.add_0_l, Z.sub_diag. apply count_if_shift. intros j Hj. rewrite Z.mul_0_r, Z.add_0_l.
    by rewrite map_state_entry by lia.
  - by apply Hok.
  - lia.
  - done.
  - unfold CybouDB_MAP_LEAF_PAGES, CybouDB_COW_MAX_PAGES, MAP_CRC, MAP_DATA, LEAF_WORDS in *. lia.
  - lia.
Qed.

Lemma count_leaves_exact fuel i total : 0 <= i ->
  alloc <= (i + Z.of_nat fuel) * CybouDB_MAP_LEAF_PAGES ->
  count_leaves fuel m root alloc i total =
  total + pages_retired m root (i * CybouDB_MAP_LEAF_PAGES) (alloc - i * CybouDB_MAP_LEAF_PAGES).
Proof using Hok.
  revert i total. induction fuel as [|fuel IH]; intros i total Hi Hf.
  - change (count_leaves 0 m root alloc i total) with total. unfold pages_retired, count_if.
    rewrite seqZ_nil by lia. simpl. lia.
  - rewrite count_leaves_S. destruct (Z.leb_spec alloc (i * CybouDB_MAP_LEAF_PAGES)) as [Ha|Ha].
    { unfold pages_retired, count_if. rewrite seqZ_nil by lia. simpl. lia. }
    assert (HL : 0 < CybouDB_MAP_LEAF_PAGES) by (by compute).
    set (n := Z.min (alloc - i * CybouDB_MAP_LEAF_PAGES) CybouDB_MAP_LEAF_PAGES).
    rewrite leaf_counted by lia. rewrite IH by lia.
    destruct (decide (alloc <= (i + 1) * CybouDB_MAP_LEAF_PAGES)) as [Hl|Hl].
    + replace n with (alloc - i * CybouDB_MAP_LEAF_PAGES) by lia.
      unfold pages_retired at 2, count_if. rewrite (seqZ_nil _ (alloc - (i + 1) * _)) by lia. simpl. lia.
    + replace n with CybouDB_MAP_LEAF_PAGES by lia.
      replace (alloc - i * CybouDB_MAP_LEAF_PAGES) with
        (CybouDB_MAP_LEAF_PAGES + (alloc - (i + 1) * CybouDB_MAP_LEAF_PAGES)) by lia.
      unfold pages_retired at 3. rewrite count_if_app by lia.
      replace (i * CybouDB_MAP_LEAF_PAGES + CybouDB_MAP_LEAF_PAGES) with ((i + 1) * CybouDB_MAP_LEAF_PAGES) by lia.
      unfold pages_retired. lia.
Qed.
End map.

(** C28: the count that [db_bitmap_recount] makes a word at a time, over every leaf
    up to the high-water, is the number of pages that the map calls retired;
    the sweep starts over, and nothing else changes. *)
Theorem recount_exact d m : has_span d = true -> 0 <= db_alloc d ->
  (forall i, 0 <= i -> i * CybouDB_MAP_LEAF_PAGES < db_alloc d -> page_ok (m (db_bitmap d + i))) ->
  db_bitmap_recount (d, m) =
  (set_sweep d CybouDB_MIN_PAGES (pages_retired m (db_bitmap d) 0 (db_alloc d)), m).
Proof.
  intros Hs Ha Hok. unfold db_bitmap_recount. rewrite Hs. rewrite count_leaves_exact; try done.
  - by rewrite Z.mul_0_l, Z.sub_0_r, Z.add_0_l.
  - unfold CybouDB_MAP_LEAF_PAGES, CybouDB_COW_MAX_PAGES, MAP_CRC, MAP_DATA. lia.
Qed.

(** Two retired pages of forty. *)
Definition counted_leaf : page := map_set (map_set zero_page 7 MAP_RETIRED) 33 MAP_RETIRED.
Definition counted_db : db :=
  mk_db 163840 CybouDB_FEATURE_MAP_SPAN 0 true 1 40 40 1 0 0 3 1 40 0 0 false false 0 false false
    (mk_dirty 0 0 [] false) (mk_changes None false).

Lemma recount_exact_witness :
  db_bitmap_recount (counted_db, fun _ => counted_leaf) =
    (set_sweep counted_db CybouDB_MIN_PAGES (pages_retired (fun _ => counted_leaf) 3 0 40), fun _ => counted_leaf) /\
  pages_retired (fun _ => counted_leaf) 3 0 40 = 2.
Proof.
  split; [|vm_compute; reflexivity]. apply (recount_exact counted_db (fun _ => counted_leaf)).
  - reflexivity.
  - vm_compute. discriminate.
  - intros i _ _. apply page_ok_map_set; [|by compute|by compute].
    apply page_ok_map_set; [apply page_ok_zero|by compute|by compute].
Defined.
