(* ===== verification/Storage.v ===== *)
(** * Storage: superblocks, opening, committing and rolling back

    [src/core/database.asm] and [src/core/cow.asm] over the allocation map of
    [AllocMap]: the two superblocks a file carries, [db_create], the choice
    [db_open] makes between them, the operations of a copy-on-write transaction,
    and [db_commit] and [db_rollback].  A commit reports, in order, every state
    of the mapped file and every range it asks to be made durable, which is what
    [Recovery] is about.

    Files are not encrypted.  A file without features is mutated in place, with a
    chain of free pages ([db_alloc_page], [db_free_page]). *)

From S2P Require Import Prelude Crc32c AllocMap.

(** ** The format *)

Definition CybouDB_MAGIC : Z := 0x4C515341.
Definition CybouDB_VERSION : Z := 1.
Definition CybouDB_HDR_SIZE : Z := 128.
Definition HDR_MAGIC : Z := 0.
Definition HDR_HEADER_SIZE : Z := 4.
Definition HDR_VERSION : Z := 8.
Definition HDR_PAGE_SIZE : Z := 12.
Definition HDR_FLAGS_INCOMPAT : Z := 16.
Definition HDR_SB_PAGE_A : Z := 32.
Definition HDR_SB_PAGE_B : Z := 40.
Definition HDR_CRC : Z := 124.

Definition CybouDB_SB_MAGIC : Z := 0x53515341.
Definition CybouDB_SB_SIZE : Z := 128.
Definition SB_MAGIC : Z := 0.
Definition SB_SIZE : Z := 4.
Definition SB_RESERVED_TAIL : Z := 64.
Definition SB_CRC : Z := 124.
Definition CybouDB_SB_PAGE_A : Z := 1.
Definition CybouDB_SB_PAGE_B : Z := 2.
Definition CybouDB_MAX_PAGES : Z := 2 ^ 52 - 1.

Definition CybouDB_FEATURE_CATALOG : Z := 4.
Definition CybouDB_FEATURE_PAX : Z := 8.
Definition CybouDB_FEATURE_PAX_MULTI : Z := 16.
Definition CybouDB_FEATURE_PAX_RUNS : Z := 64.
Definition CybouDB_FEATURE_PAX_TREE : Z := 128.
Definition CybouDB_FEATURE_ZONE_MAPS : Z := 256.
Definition CybouDB_FEATURE_COMPRESSION : Z := 512.
Definition CybouDB_FEATURE_VARLEN : Z := 1024.
Definition CybouDB_FEATURE_VECTOR : Z := 2048.
Definition CybouDB_FEATURE_TOMBSTONES : Z := 4096.
Definition CybouDB_FEATURE_INDEX : Z := 8192.
Definition CybouDB_FEATURE_QUEUE : Z := 16384.
Definition CybouDB_FEATURE_STREAM : Z := 32768.
Definition CybouDB_FEATURE_QUEUE_LEASES : Z := 65536.

(** Every bit this build knows: 2 to 65536. *)
Definition FEATURES_KNOWN : Z := 131070.
Definition CybouDB_FEATURES_DEFAULT : Z := 65022.
Definition CybouDB_FEATURES_LEASES : Z := CybouDB_FEATURES_DEFAULT + CybouDB_FEATURE_QUEUE_LEASES.

Definition CybouDB_E_PAGES : Z := 1.
Definition CybouDB_E_CREATE : Z := 2.
Definition CybouDB_E_OPEN : Z := 3.
Definition CybouDB_E_SIZE : Z := 4.
Definition CybouDB_E_SMALL : Z := 5.
Definition CybouDB_E_MAP : Z := 6.
Definition CybouDB_E_MAGIC : Z := 7.
Definition CybouDB_E_VERSION : Z := 8.
Definition CybouDB_E_PAGESIZE : Z := 9.
Definition CybouDB_E_HDR_CRC : Z := 10.
Definition CybouDB_E_FEATURES : Z := 11.
Definition CybouDB_E_SUPERBLOCK : Z := 12.
Definition CybouDB_E_GEOMETRY : Z := 13.
Definition CybouDB_E_EXISTS : Z := 14.
Definition CybouDB_E_PAGE : Z := 17.
Definition CybouDB_E_READONLY : Z := 18.
Definition CybouDB_E_SYNC : Z := 19.
Definition CybouDB_E_NOENT : Z := 20.
Definition CybouDB_E_ACCESS : Z := 21.
Definition CybouDB_E_STATE : Z := 22.
Definition CybouDB_E_GENERATION : Z := 23.
Definition CybouDB_E_BITMAP : Z := 24.
Definition CybouDB_E_COW_PAGES : Z := 25.
Definition CybouDB_E_BUSY : Z := 33.
Definition CybouDB_E_DAMAGED : Z := 36.
Definition CybouDB_E_NEEDS_KEY : Z := 43.

(** ** Superblocks *)

(** The stores of [write_superblock] before the checksum, in their order: the
    width, the offset and the value of each. *)
Definition sb_stores (d : db) (generation : Z) : list (nat * Z * Z) :=
  map (fun i => (8%nat, 8 * i, 0)) (seqZ 0 (CybouDB_SB_SIZE / 8)) ++
  [(4%nat, SB_MAGIC, CybouDB_SB_MAGIC); (4%nat, SB_SIZE, CybouDB_SB_SIZE);
   (8%nat, SB_GENERATION, generation); (8%nat, SB_TOTAL_PAGES, db_pages d);
   (8%nat, SB_ALLOC_PAGES, db_alloc d); (8%nat, SB_FREELIST_ROOT, db_freelist d);
   (8%nat, SB_ROOT_PAGE, db_root d); (8%nat, SB_BITMAP_ROOT, db_bitmap d)].

Definition store_at (pg : page) (s : nat * Z * Z) : page := wr s.1.1 pg s.1.2 s.2.

(** The page after the first [n] of them. *)
Definition sb_partial (n : nat) (pg : page) (d : db) (generation : Z) : page :=
  fold_left store_at (take n (sb_stores d generation)) pg.

Definition sb_crc (pg : page) : Z := crc (take (Z.to_nat SB_CRC) pg).

Definition write_superblock (pg : page) (d : db) (generation : Z) : page :=
  let pg := fold_left store_at (sb_stores d generation) pg in
  wr 4 pg SB_CRC (sb_crc pg).

Definition sb_valid (pg : page) : bool :=
  (rd 4 pg SB_MAGIC =? CybouDB_SB_MAGIC) &&
  (rd 4 pg SB_SIZE =? CybouDB_SB_SIZE) &&
  forallb (fun i => rd 8 pg (SB_RESERVED_TAIL + 8 * i) =? 0) (seqZ 0 7) &&
  (rd 4 pg SB_STAGED =? 0) &&
  (rd 4 pg SB_CRC =? sb_crc pg).

(** ** Creation *)

Definition CybouDB_OSERR_NOENT : Z := 1.
Definition CybouDB_OSERR_ACCESS : Z := 2.
Definition CybouDB_OSERR_EXISTS : Z := 3.
Definition CybouDB_OSERR_BUSY : Z := 5.

Definition oserr_to_code (err otherwise : Z) : Z :=
  if err =? CybouDB_OSERR_NOENT then CybouDB_E_NOENT
  else if err =? CybouDB_OSERR_ACCESS then CybouDB_E_ACCESS
  else if err =? CybouDB_OSERR_EXISTS then CybouDB_E_EXISTS
  else if err =? CybouDB_OSERR_BUSY then CybouDB_E_BUSY
  else otherwise.

(** The size checks of [create_common]: 0, or the code refused with. *)
Definition create_pages_ok (pages features : Z) : Z :=
  let cow :=
    if features =? 0 then false
    else if (features .& CybouDB_FEATURE_MAP_SPAN) =? 0 then
      (pages <? CybouDB_COW_MIN_PAGES) || (CybouDB_COW_MAX_PAGES <? pages)
    else (CybouDB_SPAN_MAX_PAGES <? pages) ||
         (pages <=? 2 * db_bitmap_leaves pages + CybouDB_MIN_PAGES) in
  if cow then CybouDB_E_COW_PAGES
  else if (pages <? CybouDB_MIN_PAGES) || (CybouDB_MAX_PAGES <? pages) then CybouDB_E_PAGES
  else CybouDB_OK.

Definition header_page (features : Z) (pg : page) : page :=
  let pg := memcpy pg 0 (replicate (Z.to_nat CybouDB_HDR_SIZE) 0) in
  let pg := wr 4 pg HDR_MAGIC CybouDB_MAGIC in
  let pg := wr 4 pg HDR_HEADER_SIZE CybouDB_HDR_SIZE in
  let pg := wr 4 pg HDR_VERSION CybouDB_VERSION in
  let pg := wr 4 pg HDR_PAGE_SIZE CybouDB_PAGE_SIZE in
  let pg := wr 8 pg HDR_SB_PAGE_A CybouDB_SB_PAGE_A in
  let pg := wr 8 pg HDR_SB_PAGE_B CybouDB_SB_PAGE_B in
  let pg := wr 8 pg HDR_FLAGS_INCOMPAT features in
  wr 4 pg HDR_CRC (crc (take (Z.to_nat HDR_CRC) pg)).

(** The descriptor that a fresh file's superblocks are written from. *)
Definition created (pages alloc features bitmap : Z) : db :=
  mk_db 0 features 0 false 0 pages alloc 0 0 0 bitmap 0 0 0 0 false false 0 false false
    (mk_dirty 0 0 [] false) (mk_changes None false).

(** What is laid out in the mapping of a file that [vfs_resize] made of zeros. *)
Definition create_file (pages features : Z) : mem :=
  let m := fun _ => zero_page in
  let m := set_page m 0 (header_page features (m 0)) in
  let '(alloc, m) :=
    if features =? 0 then (CybouDB_MIN_PAGES, m) else db_bitmap_init m pages features in
  let d := created pages alloc features (if features =? 0 then 0 else CybouDB_MIN_PAGES) in
  let m := set_page m CybouDB_SB_PAGE_A (write_superblock (m CybouDB_SB_PAGE_A) d 1) in
  set_page m CybouDB_SB_PAGE_B (write_superblock (m CybouDB_SB_PAGE_B) d 1).

(** What the system answers to [db_create]: the error of the creation (0 when the
    file is there), then whether sizing, mapping and syncing succeed. *)
Record os_create := mk_os_create {
  oc_error : Z; oc_resized : bool; oc_mapped : bool; oc_synced : bool }.

(** The result code, and the file when one has been laid out. *)
Definition db_create (os : os_create) (pages features : Z) : Z * option mem :=
  let rc := create_pages_ok pages features in
  if negb (rc =? CybouDB_OK) then (rc, None)
  else if negb (oc_error os =? 0) then (oserr_to_code (oc_error os) CybouDB_E_CREATE, None)
  else if negb (oc_resized os) then (CybouDB_E_CREATE, None)
  else if negb (oc_mapped os) then (CybouDB_E_MAP, None)
  else (if oc_synced os then CybouDB_OK else CybouDB_E_SYNC, Some (create_file pages features)).

(** ** Opening *)

(** A capability that requires another is taken out before the accepted sets are
    compared; [None] when what it requires is missing. *)
Definition strip (bit need : Z) (flags : option Z) : option Z :=
  flags ≫= fun rax =>
    if (rax .& bit) =? 0 then Some rax
    else if (rax .& need) =? 0 then None
    else Some (rax .& Z.lnot bit).

Definition features_known (flags : Z) : bool :=
  match strip CybouDB_FEATURE_QUEUE CybouDB_FEATURE_CATALOG (
        strip CybouDB_FEATURE_QUEUE_LEASES CybouDB_FEATURE_QUEUE (
        strip CybouDB_FEATURE_STREAM CybouDB_FEATURE_QUEUE (
        strip CybouDB_FEATURE_INDEX CybouDB_FEATURE_PAX (
        strip CybouDB_FEATURE_TOMBSTONES CybouDB_FEATURE_PAX (
        strip CybouDB_FEATURE_VECTOR CybouDB_FEATURE_PAX (
        strip CybouDB_FEATURE_VARLEN CybouDB_FEATURE_PAX (
        strip CybouDB_FEATURE_COMPRESSION CybouDB_FEATURE_PAX (
        strip CybouDB_FEATURE_ZONE_MAPS CybouDB_FEATURE_PAX (
        strip CybouDB_FEATURE_PAX_TREE CybouDB_FEATURE_PAX_MULTI (
        strip CybouDB_FEATURE_PAX_RUNS CybouDB_FEATURE_PAX_MULTI (Some flags))))))))))) with
  | None => false
  | Some rax =>
      if negb ((rax .& CybouDB_FEATURE_MAP_SPAN) =? 0) then rax =? 62
      else if negb ((rax .& CybouDB_FEATURE_PAX_MULTI) =? 0) then rax =? 30
      else if negb ((rax .& CybouDB_FEATURE_PAX) =? 0) then rax =? 14
      else negb (rax =? CybouDB_FEATURE_CATALOG)
  end.

(** The answer about the feature bits: 0 or the code refused with. *)
Definition check_features (flags : Z) : Z :=
  let unknown := flags .& Z.lnot FEATURES_KNOWN in
  if negb (unknown =? 0) then
    if unknown =? CybouDB_FEATURE_ENCRYPTION then CybouDB_E_NEEDS_KEY else CybouDB_E_FEATURES
  else if features_known flags then CybouDB_OK else CybouDB_E_FEATURES.

(** Page 0, up to and with the feature bits. *)
Definition check_header (pg : page) : Z :=
  if negb (rd 4 pg HDR_MAGIC =? CybouDB_MAGIC) then CybouDB_E_MAGIC
  else if negb (rd 4 pg HDR_VERSION =? CybouDB_VERSION) then CybouDB_E_VERSION
  else if negb (rd 4 pg HDR_HEADER_SIZE =? CybouDB_HDR_SIZE) then CybouDB_E_VERSION
  else if negb (rd 4 pg HDR_PAGE_SIZE =? CybouDB_PAGE_SIZE) then CybouDB_E_PAGESIZE
  else if negb (rd 4 pg HDR_CRC =? crc (take (Z.to_nat HDR_CRC) pg)) then CybouDB_E_HDR_CRC
  else check_features (rd 8 pg HDR_FLAGS_INCOMPAT).

Definition check_sb_pages (pg : page) : bool :=
  (rd 8 pg HDR_SB_PAGE_A =? CybouDB_SB_PAGE_A) && (rd 8 pg HDR_SB_PAGE_B =? CybouDB_SB_PAGE_B).

(** The geometry of the chosen superblock against the size of the file. *)
Definition check_geometry (sb : page) (size : Z) : Z :=
  let total := rd 8 sb SB_TOTAL_PAGES in
  let alloc := rd 8 sb SB_ALLOC_PAGES in
  let in_use p := (p =? 0) || ((CybouDB_MIN_PAGES <=? p) && (p <? alloc)) in
  if CybouDB_MAX_PAGES <? total then CybouDB_E_GEOMETRY
  else if negb (total .<< 12 =? size) then CybouDB_E_GEOMETRY
  else if (alloc <? CybouDB_MIN_PAGES) || (total <? alloc) then CybouDB_E_GEOMETRY
  else if negb (in_use (rd 8 sb SB_FREELIST_ROOT)) then CybouDB_E_GEOMETRY
  else if negb (in_use (rd 8 sb SB_ROOT_PAGE)) then CybouDB_E_GEOMETRY
  else if negb (rd 8 sb SB_FEATURE_ROOT =? 0) then CybouDB_E_FEATURES
  else CybouDB_OK.

(** The descriptor while the candidates are looked at. *)
Definition opening (size features verify : Z) (writable : bool) : db :=
  mk_db size features verify writable (if features =? 0 then 0 else 1) 0 0 0 0 0 0 0 0 0 0
    false false 0 false false (mk_dirty 0 0 [] false) (mk_changes None false).

(** The descriptor handed back for the superblock on page [n]. *)
Definition opened (d : db) (sb : page) (n floor damaged : Z) : db :=
  mk_db (db_size d) (db_features d) (db_verify d) (db_writable d) (db_mode d)
    (rd 8 sb SB_TOTAL_PAGES) (rd 8 sb SB_ALLOC_PAGES) (rd 8 sb SB_GENERATION)
    (rd 8 sb SB_FREELIST_ROOT) (rd 8 sb SB_ROOT_PAGE) (rd 8 sb SB_BITMAP_ROOT) n floor
    (db_reuse_next d) (db_reusable d) (db_tx_active d) (db_validated d) damaged (db_prove d)
    (db_audit d) (db_dirty d) (db_cs d).

Definition CybouDB_VERIFY_INTEGRITY : Z := 2.

(** What the candidates leave behind: the page of the one chosen (0 for none),
    the allocation floor, the newest generation that was damaged. *)
Record chosen := mk_chosen { ch_page : Z; ch_floor : Z; ch_damaged : Z }.

Section opening.
Context {W : Walk}.

Definition consider (d : db) (m : mem) (n : Z) (c : chosen) : chosen :=
  let sb := m n in
  let generation := rd 8 sb SB_GENERATION in
  if negb (sb_valid sb) then c
  else
    let floor := Z.max (ch_floor c) (rd 8 sb SB_ALLOC_PAGES) in
    if db_bitmap_validate (d, m) sb then
      mk_chosen (if (ch_page c =? 0) || (rd 8 (m (ch_page c)) SB_GENERATION <? generation)
                 then n else ch_page c) floor (ch_damaged c)
    else mk_chosen (ch_page c) floor (Z.max (ch_damaged c) generation).

Definition choose (d : db) (m : mem) : chosen :=
  consider d m CybouDB_SB_PAGE_B (consider d m CybouDB_SB_PAGE_A (mk_chosen 0 0 0)).

(** What the system answers to [db_open]: the error of the open (0 for none),
    the advisory lock, the size, and the mapping. *)
Record os_open := mk_os_open {
  oo_error : Z; oo_locked : bool; oo_size : option Z; oo_mapped : bool }.

(** The result code, what the descriptor still holds of the system (file,
    mapping), and the database when there is one. *)
Record open_result := mk_open_result {
  op_rc : Z; op_file : bool; op_mapping : bool; op_db : option state }.

(** [.unmap_and_fail] and [.close_and_fail]. *)
Definition unmap_and_fail (rc : Z) : open_result := mk_open_result rc false false None.
Definition close_and_fail (rc : Z) (mapping : bool) : open_result :=
  mk_open_result rc false mapping None.

Definition open_mapped (size verify : Z) (writable : bool) (m : mem) : open_result :=
  let rc := check_header (m 0) in
  let d := opening size (rd 8 (m 0) HDR_FLAGS_INCOMPAT) verify writable in
  let c := choose d m in
  let sb := m (ch_page c) in
  let geometry := check_geometry sb size in
  let s := db_bitmap_recount (opened d sb (ch_page c) (ch_floor c) (ch_damaged c), m) in
  if negb (rc =? CybouDB_OK) then unmap_and_fail rc
  else if size <? CybouDB_MIN_PAGES * CybouDB_PAGE_SIZE then close_and_fail CybouDB_E_SMALL true
  else if negb (check_sb_pages (m 0)) then unmap_and_fail CybouDB_E_GEOMETRY
  else if ch_page c =? 0 then unmap_and_fail CybouDB_E_SUPERBLOCK
  else if negb (geometry =? CybouDB_OK) then unmap_and_fail geometry
  else if negb ((verify .& CybouDB_VERIFY_INTEGRITY) =? 0) &&
          (rd 8 sb SB_GENERATION <? ch_damaged c) then unmap_and_fail CybouDB_E_DAMAGED
  else mk_open_result CybouDB_OK true true (Some s).

Definition db_open (os : os_open) (writable : bool) (verify : Z) (m : mem) : open_result :=
  if negb (oo_error os =? 0) then
    mk_open_result (oserr_to_code (oo_error os) CybouDB_E_OPEN) false false None
  else if negb (oo_locked os) then mk_open_result CybouDB_E_BUSY false false None
  else match oo_size os with
       | None => close_and_fail CybouDB_E_SIZE false
       | Some size =>
           if size <? CybouDB_HDR_SIZE then close_and_fail CybouDB_E_SMALL false
           else if negb (oo_mapped os) then close_and_fail CybouDB_E_MAP false
           else open_mapped size verify writable m
       end.

End opening.

(** ** Transactions ([src/core/cow.asm]) *)

Definition check_writer (d : db) : Z :=
  if negb (db_writable d) then CybouDB_E_READONLY
  else if negb (db_mode d =? 1) then CybouDB_E_STATE
  else if db_generation d =? UINT64_MAX then CybouDB_E_GENERATION
  else CybouDB_OK.

Definition db_cow_alloc_page (e : env) (s : state) : Z * Z * state :=
  let rc := check_writer s.1 in
  if negb (rc =? CybouDB_OK) then (rc, 0, s) else db_bitmap_alloc e s.

Definition db_cow_alloc_run (e : env) (s : state) (pages : Z) : Z * Z * state :=
  let rc := check_writer s.1 in
  if negb (rc =? CybouDB_OK) then (rc, 0, s) else db_bitmap_alloc_run e s pages.

(** A writable open that refuses files of the legacy format. *)
Definition db_open_cow `{Walk} (os : os_open) (m : mem) : open_result :=
  let r := db_open os true 0 m in
  match op_db r with
  | None => r
  | Some (d, m') =>
      if (db_features d .& CybouDB_FEATURE_COW) =? 0 then unmap_and_fail CybouDB_E_STATE
      else if negb (db_freelist d =? 0) then unmap_and_fail CybouDB_E_STATE
      else if db_pages d <? db_floor d then unmap_and_fail CybouDB_E_GEOMETRY
      else mk_open_result CybouDB_OK true true (Some (set_mode d 1, m'))
  end.

(** ** Allocation in place, in files of the legacy format *)

Definition CybouDB_FREE_MAGIC : Z := 0x46515341.
Definition FREE_MAGIC : Z := 0.
Definition FREE_RESERVED : Z := 4.
Definition FREE_NEXT : Z := 8.
Definition CybouDB_E_FREELIST : Z := 16.

Definition set_freelist (d : db) (v : Z) : db :=
  mk_db (db_size d) (db_features d) (db_verify d) (db_writable d) (db_mode d) (db_pages d)
    (db_alloc d) (db_generation d) v (db_root d) (db_bitmap d) (db_sb_page d) (db_floor d)
    (db_reuse_next d) (db_reusable d) (db_tx_active d) (db_validated d) (db_damaged d)
    (db_prove d) (db_audit d) (db_dirty d) (db_cs d).

Definition db_alloc_page (e : env) (s : state) : Z * Z * state :=
  let '(d, m) := s in
  let head := db_freelist d in
  if db_mode d =? 1 then db_cow_alloc_page e s
  else if db_mode d =? -1 then (CybouDB_E_STATE, 0, s)
  else if db_generation d =? UINT64_MAX then (CybouDB_E_GENERATION, 0, s)
  else if negb (db_writable d) then (CybouDB_E_READONLY, 0, s)
  else if head =? 0 then
    if db_pages d <=? db_alloc d then (CybouDB_E_FULL, 0, s)
    else (CybouDB_OK, db_alloc d, (set_alloc d (db_alloc d + 1), m))
  else if (head <? CybouDB_MIN_PAGES) || (db_alloc d <=? head) then (CybouDB_E_FREELIST, 0, s)
  else if negb (rd 4 (m head) FREE_MAGIC =? CybouDB_FREE_MAGIC) then (CybouDB_E_FREELIST, 0, s)
  else
    let pg := wr 8 (wr 4 (m head) FREE_MAGIC 0) FREE_NEXT 0 in
    (CybouDB_OK, head, (set_freelist d (rd 8 (m head) FREE_NEXT), set_page m head pg)).

Definition db_free_page (s : state) (p : Z) : Z * state :=
  let '(d, m) := s in
  if negb (db_mode d =? 0) then (CybouDB_E_STATE, s)
  else if db_generation d =? UINT64_MAX then (CybouDB_E_GENERATION, s)
  else if negb (db_writable d) then (CybouDB_E_READONLY, s)
  else if (p <? CybouDB_MIN_PAGES) || (db_alloc d <=? p) then (CybouDB_E_PAGE, s)
  else if rd 4 (m p) FREE_MAGIC =? CybouDB_FREE_MAGIC then (CybouDB_E_PAGE, s)
  else
    let pg := wr 4 (wr 4 (m p) FREE_MAGIC CybouDB_FREE_MAGIC) FREE_RESERVED 0 in
    (CybouDB_OK, (set_freelist d p, set_page m p (wr 8 pg FREE_NEXT (db_freelist d)))).

(** A page id that names a payload page of the generation being written. *)
Definition source_page (s : state) (p : Z) : bool :=
  (CybouDB_MIN_PAGES <=? p) && (p <? db_alloc s.1) && db_bitmap_is_payload s p.

Definition copy_page (s : state) (from to : Z) : state := (s.1, set_page s.2 to (s.2 from)).

Definition db_cow_copy_page (e : env) (s : state) (source : Z) : Z * Z * state :=
  let rc := check_writer s.1 in
  if negb (rc =? CybouDB_OK) then (rc, 0, s)
  else if negb (source_page s source) then (CybouDB_E_PAGE, 0, s)
  else
    let '(rc, p, s) := db_cow_alloc_page e s in
    if negb (rc =? CybouDB_OK) then (rc, 0, s)
    else (CybouDB_OK, p, db_bitmap_retire e (copy_page s source p) source).

(** [.copy_run] then [.retire]. *)
Definition copy_pages (n : nat) (s : state) (from to : Z) : state :=
  for_loop n (fun i s => copy_page s (from + Z.of_nat i) (to + Z.of_nat i)) s.
Definition retire_pages (e : env) (n : nat) (s : state) (from : Z) : state :=
  for_loop n (fun i s => db_bitmap_retire e s (from + Z.of_nat i)) s.

Definition db_cow_copy_run (e : env) (s : state) (source pages : Z) : Z * Z * state :=
  if pages <? 2 then db_cow_copy_page e s source
  else if negb (forallb (fun i => source_page s (u64 (source + i))) (seqZ 0 pages))
  then (CybouDB_E_PAGE, 0, s)
  else
    let '(rc, p, s) := db_cow_alloc_run e s pages in
    if negb (rc =? CybouDB_OK) then (rc, 0, s)
    else (CybouDB_OK, p,
          retire_pages e (Z.to_nat pages) (copy_pages (Z.to_nat pages) s source p) source).

Definition db_cow_write_page (s : state) (p : Z) (buffer : page) : Z * state :=
  let rc := check_writer s.1 in
  if negb (rc =? CybouDB_OK) then (rc, s)
  else if negb (p <? db_alloc s.1) then (CybouDB_E_PAGE, s)
  else if negb (db_bitmap_is_fresh s p) then (CybouDB_E_PAGE, s)
  else (CybouDB_OK, (s.1, set_page s.2 p buffer)).

Definition db_cow_set_root (s : state) (p : Z) : Z * state :=
  let rc := check_writer s.1 in
  if negb (rc =? CybouDB_OK) then (rc, s)
  else if p =? 0 then (CybouDB_OK, (set_root s.1 0, s.2))
  else if negb (source_page s p) then (CybouDB_E_PAGE, s)
  else (CybouDB_OK, (set_root s.1 p, s.2)).

(** ** Commit and rollback *)

(** What a commit does to the file, in order: a state of the mapping, and a
    barrier for ranges of bytes. *)
Inductive event :=
| Stored (m : mem)
| Synced (ranges : list (Z * Z)).

Definition CybouDB_SYNC_ALIGN : Z := 65536.

(** [sync_pages]: the range of bytes it hands to [vfs_sync]. *)
Definition sync_range (d : db) (first count : Z) : Z * Z :=
  let start := (first .<< 12) .& (- CybouDB_SYNC_ALIGN) in
  let stop := (((first + count) .<< 12) + (CybouDB_SYNC_ALIGN - 1)) .& (- CybouDB_SYNC_ALIGN) in
  (start, if stop <=? db_size d then stop else db_size d).

(** [sync_runs]: the range of bytes of a run, clamped to the file. *)
Definition flush_range (d : db) (run : Z * Z) : Z * Z :=
  let stop := (run.1 + run.2) .<< 12 in
  (run.1 .<< 12, if stop <=? db_size d then stop else db_size d).

(** The pages to be flushed before the superblock: the runs that are flushed
    ahead, and the range the barrier carries. *)
Definition commit_ranges (d : db) : list (Z * Z) * (Z * Z) :=
  let dr := db_dirty d in
  let hull :=
    if dirty_hi dr <=? dirty_lo dr then sync_range d 0 CybouDB_MIN_PAGES
    else sync_range d (dirty_lo dr) (dirty_hi dr - dirty_lo dr) in
  if negb (db_mode d =? 1) then ([], sync_range d 0 (db_pages d))
  else if run_ovf dr then ([], hull)
  else match rev (dirty_runs dr) with
       | [] => ([], hull)
       | run :: ahead => (map (flush_range d) (rev ahead), sync_range d run.1 run.2)
       end.

(** The superblock and, in the span layout, the map copy it names. *)
Definition publish_range (d : db) : Z * Z :=
  sync_range d 0 (if has_span d then db_bitmap_leaves (db_pages d) + db_bitmap d
                  else CybouDB_MIN_PAGES).

Definition target_page (d : db) : Z :=
  if db_sb_page d =? CybouDB_SB_PAGE_A then CybouDB_SB_PAGE_B else CybouDB_SB_PAGE_A.

(** Step 4: the new copy is the live one. *)
Definition adopt (d : db) (target : Z) : db :=
  mk_db (db_size d) (db_features d) (db_verify d) (db_writable d) (db_mode d) (db_pages d)
    (db_alloc d) (u64 (db_generation d + 1)) (db_freelist d) (db_root d) (db_bitmap d) target
    (Z.max (db_floor d) (db_alloc d)) (db_reuse_next d) (db_reusable d) (db_tx_active d) false
    (db_damaged d) (db_prove d) (db_audit d)
    (db_dirty_reset (mk_dirty (dirty_lo (db_dirty d)) 0 (dirty_runs (db_dirty d)) (run_ovf (db_dirty d))))
    (cs_reset (db_cs d)).

(** What the system answers to the flushes ahead of the first barrier, to that
    barrier and to the second. *)
Record os_commit := mk_os_commit { flushed : bool; synced : bool; published : bool }.

Section commit.
Context {W : Walk}.

(** The candidate a commit proves, in a frame of its own. *)
Definition commit_candidate (d : db) : page :=
  write_superblock (replicate (Z.to_nat CybouDB_SB_SIZE) 0) d (u64 (db_generation d + 1)).

Definition commit_proved (s : state) : bool :=
  (db_features s.1 =? 0) ||
  (db_bitmap_validate (set_prove s.1 true, s.2) (commit_candidate s.1) && cs_audit s).

(** The mapping after each store into the superblock. *)
Definition sb_states (m : mem) (target : Z) (d : db) : list mem :=
  let generation := u64 (db_generation d + 1) in
  map (fun n => set_page m target (sb_partial n (m target) d generation))
    (seq 1 (length (sb_stores d generation))) ++
  [set_page m target (write_superblock (m target) d generation)].

Definition sync_failed (s : state) : state := (set_mode s.1 (-1), s.2).

Definition db_commit (os : os_commit) (s : state) : Z * state * list event :=
  if db_mode s.1 =? -1 then (CybouDB_E_STATE, s, [])
  else if db_generation s.1 =? UINT64_MAX then (CybouDB_E_GENERATION, s, [])
  else if negb (db_writable s.1) then (CybouDB_E_READONLY, s, [])
  else
    let s := db_bitmap_seal s in
    let sealed := [Stored s.2] in
    if negb (commit_proved s) then (CybouDB_E_BITMAP, s, sealed)
    else
      let d := s.1 in
      let '(ahead, range) := commit_ranges d in
      if negb (flushed os) || negb (synced os) then (CybouDB_E_SYNC, sync_failed s, sealed)
      else
        let target := target_page d in
        let m := set_page s.2 target
                   (write_superblock (s.2 target) d (u64 (db_generation d + 1))) in
        let written := sealed ++ [Synced (ahead ++ [range])] ++ map Stored (sb_states s.2 target d) in
        if negb (published os) then (CybouDB_E_SYNC, sync_failed (d, m), written)
        else (CybouDB_OK, db_bitmap_recount (adopt d target, m),
              written ++ [Synced [publish_range d]]).

End commit.

(** The fields of the live superblock, and no staged work. *)
Definition restore (d : db) (sb : page) : db :=
  mk_db (db_size d) (db_features d) (db_verify d) (db_writable d) (db_mode d)
    (rd 8 sb SB_TOTAL_PAGES) (rd 8 sb SB_ALLOC_PAGES) (rd 8 sb SB_GENERATION)
    (rd 8 sb SB_FREELIST_ROOT) (rd 8 sb SB_ROOT_PAGE) (rd 8 sb SB_BITMAP_ROOT) (db_sb_page d)
    (rd 8 sb SB_ALLOC_PAGES) (db_reuse_next d) (db_reusable d) (db_tx_active d) false
    (db_damaged d) (db_prove d) (db_audit d)
    (db_dirty_reset (mk_dirty 0 0 (dirty_runs (db_dirty d)) (run_ovf (db_dirty d))))
    (cs_reset (db_cs d)).
Definition end_tx (d : db)  : db :=
  mk_db (db_size d) (db_features d) (db_verify d) (db_writable d) (db_mode d) (db_pages d)
    (db_alloc d) (db_generation d) (db_freelist d) (db_root d) (db_bitmap d) (db_sb_page d)
    (db_floor d) (db_reuse_next d) (db_reusable d) false (db_validated d) (db_damaged d)
    (db_prove d) (db_audit d) (db_dirty d) (db_cs d).

(** [.leaf_copy_loop]: the active leaves over the inactive ones. *)
Definition copy_leaves (k live other : Z) (m : mem) : mem :=
  for_loop (Z.to_nat k) (fun i m =>
    set_page m (other + Z.of_nat i) (m (live + Z.of_nat i))) m.

Definition db_rollback (s : state) : Z * state :=
  let '(d, m) := s in
  if db_mode d =? -1 then (CybouDB_E_STATE, s)
  else if negb (db_mode d =? 1) then (CybouDB_E_STATE, s)
  else if negb (db_writable d) then (CybouDB_E_READONLY, s)
  else if db_sb_page d =? 0 then (CybouDB_E_STATE, s)
  else
    let live := live_root s in
    let d := restore d (live_sb s) in
    let k := db_bitmap_leaves (db_pages d) in
    let m := if has_span d then copy_leaves k live (other_root k live) m else m in
    let '(d, m) := db_bitmap_recount (d, m) in
    (CybouDB_OK, (end_tx d, m)).

(** [db_close] keeps what is in the file but for a transaction left open; what
    it releases of the system leaves nothing. *)
Definition db_close (s : state) : mem :=
  if db_tx_active s.1 then (db_rollback s).2.2 else s.2.
