(* ===== verification/Superblock.v ===== *)
(** * Superblock: what [write_superblock] leaves on a page

    The fields of a finished superblock are what the descriptor says and
    [sb_valid] accepts it; one that was not finished is refused, unless its
    checksum happens to be the zero the page starts with. *)

From S2P Require Import Prelude Crc32c AllocMap Storage.

(** ** Sequences of stores *)

Section stores.
Variable pg : page.
Variables (w : nat) (off : Z).
Hypothesis Hoff : 0 <= off.

Definition store_fits (n : Z) (st : nat * Z * Z) : Prop :=
  0 <= st.1.2 /\ st.1.2 + Z.of_nat st.1.1 <= n.

(** A store beside the field. *)
Definition store_beside (st : nat * Z * Z) : Prop :=
  off + Z.of_nat w <= st.1.2 \/ st.1.2 + Z.of_nat st.1.1 <= off.

Lemma length_stores l : Forall (store_fits (Z.of_nat (length pg))) l ->
  length (fold_left store_at l pg) = length pg.
Proof using Type.
  clear. revert pg. induction l as [|st l IH]; intros pg H; simpl; [done|].
  apply Forall_cons_1 in H as [[H1 H2] H]. unfold store_at in *.
  assert (E : length (wr st.1.1 pg st.1.2 st.2) = length pg) by (by apply length_wr).
  rewrite IH; [done|]. by rewrite E.
Qed.

Lemma bytes_stores l : bytes pg -> bytes (fold_left store_at l pg).
Proof using Type.
  clear. revert pg. induction l as [|st l IH]; intros pg H; simpl; [done|].
  apply IH. by apply bytes_wr.
Qed.

Lemma rd_stores_beside l : Forall (store_fits (Z.of_nat (length pg))) l -> Forall store_beside l ->
  rd w (fold_left store_at l pg) off = rd w pg off.
Proof using Hoff.
  revert pg. induction l as [|st l IH]; intros pg Hf Hb; simpl; [done|].
  apply Forall_cons_1 in Hf as [[H1 H2] Hf]. apply Forall_cons_1 in Hb as [Hb Hbs].
  unfold store_at in *.
  assert (E : length (wr st.1.1 pg st.1.2 st.2) = length pg) by (by apply length_wr).
  rewrite IH; [|by rewrite E|done]. apply rd_wr_ne; [done|done|done|]. unfold store_beside in Hb. lia.
Qed.

Lemma rd_stores_hit l1 l2 v : Forall (store_fits (Z.of_nat (length pg))) (l1 ++ (w, off, v) :: l2) ->
  Forall store_beside l2 -> 0 <= v < 2 ^ (8 * Z.of_nat w) ->
  rd w (fold_left store_at (l1 ++ (w, off, v) :: l2) pg) off = v.
Proof using Hoff.
  intros Hf Hb Hv. rewrite fold_left_app. simpl.
  apply Forall_app in Hf as [Hf1 Hf2]. apply Forall_cons_1 in Hf2 as [[H1 H2] Hf2]. simpl in *.
  pose proof (length_stores l1 Hf1) as E1.
  change (store_at (fold_left store_at l1 pg) (w, off, v))
    with (wr w (fold_left store_at l1 pg) off v).
  assert (E : length (wr w (fold_left store_at l1 pg) off v) = length pg).
  { rewrite length_wr; [exact E1|done|by rewrite E1]. }
  assert (Eq : rd w (wr w (fold_left store_at l1 pg) off v) off = v).
  { apply rd_wr_eq; [done|by rewrite E1|done]. }
  set (q := wr w (fold_left store_at l1 pg) off v) in *.
  rewrite <- Eq. clear Eq. clearbody q. revert q E.
  induction Hb as [|st l2 Hb Hbs IH]; intros q E; simpl; [done|].
  apply Forall_cons_1 in Hf2 as [[H3 H4] Hf2].
  assert (E' : length (store_at q st) = length pg).
  { unfold store_at. rewrite length_wr; [exact E|done|by rewrite E]. }
  rewrite (IH Hf2 _ E'). unfold store_at. apply rd_wr_ne; [done|by rewrite E|done|].
  unfold store_beside in Hb. lia.
Qed.
End stores.

(** Parts of an eight-byte field. *)
Lemma rd_low pg off : bytes pg -> 0 <= off -> off + 8 <= Z.of_nat (length pg) ->
  rd 4 pg off = rd 8 pg off mod 2 ^ 32.
Proof.
  intros Hb Ho Hl. unfold rd.
  replace (take 4 (drop (Z.to_nat off) pg)) with (take 4 (take 8 (drop (Z.to_nat off) pg)))
    by (by rewrite take_take).
  rewrite le_val_take; [done| |].
  - by apply bytes_take, bytes_drop.
  - rewrite length_take, length_drop. lia.
Qed.

Lemma rd_high pg off : bytes pg -> 0 <= off -> off + 8 <= Z.of_nat (length pg) ->
  rd 4 pg (off + 4) = rd 8 pg off / 2 ^ 32.
Proof.
  intros Hb Ho Hl. unfold rd.
  replace (take 4 (drop (Z.to_nat (off + 4)) pg)) with (drop 4 (take 8 (drop (Z.to_nat off) pg))).
  - rewrite le_val_drop; [done| |].
    + by apply bytes_take, bytes_drop.
    + rewrite length_take, length_drop. lia.
  - transitivity (take 4 (drop 4 (drop (Z.to_nat off) pg))).
    + symmetry. apply (take_drop_commute _ 4 4).
    + rewrite drop_drop. do 2 f_equal. lia.
Qed.

Lemma take_wr w (q : page) off v : 0 <= off -> off <= Z.of_nat (length q) ->
  take (Z.to_nat off) (wr w q off v) = take (Z.to_nat off) q.
Proof.
  intros Ho Hq. unfold wr, memcpy. rewrite take_app_le by (rewrite length_take; lia).
  rewrite take_take. f_equal. lia.
Qed.

Lemma crc_word data : 0 <= crc data < 2 ^ 32.
Proof. unfold crc, asm_crc32c. case_if; apply u32_range. Qed.

(** The stores of a superblock, one by one. *)
Definition sb_zeros : list (nat * Z * Z) :=
  [(8%nat, 0, 0); (8%nat, 8, 0); (8%nat, 16, 0); (8%nat, 24, 0); (8%nat, 32, 0); (8%nat, 40, 0);
   (8%nat, 48, 0); (8%nat, 56, 0); (8%nat, 64, 0); (8%nat, 72, 0); (8%nat, 80, 0); (8%nat, 88, 0);
   (8%nat, 96, 0); (8%nat, 104, 0); (8%nat, 112, 0); (8%nat, 120, 0)].

Definition sb_fields (d : db) (generation : Z) : list (nat * Z * Z) :=
  [(4%nat, 0, CybouDB_SB_MAGIC); (4%nat, 4, 128); (8%nat, 8, generation); (8%nat, 16, db_pages d);
   (8%nat, 24, db_alloc d); (8%nat, 32, db_freelist d); (8%nat, 40, db_root d);
   (8%nat, 48, db_bitmap d)].

Lemma sb_stores_eq d generation : sb_stores d generation = sb_zeros ++ sb_fields d generation.
Proof. reflexivity. Qed.

Lemma sb_stores_fit n d generation : 128 <= n -> Forall (store_fits n) (sb_stores d generation).
Proof. intros Hn. rewrite sb_stores_eq. repeat constructor; simpl; lia. Qed.

(** The values a superblock takes from a descriptor are words. *)
Record sb_words (d : db) (generation : Z) : Prop := mk_sb_words {
  w_generation : 0 <= generation < 2 ^ 64;
  w_pages : 0 <= db_pages d < 2 ^ 64;
  w_alloc : 0 <= db_alloc d < 2 ^ 64;
  w_freelist : 0 <= db_freelist d < 2 ^ 64;
  w_root : 0 <= db_root d < 2 ^ 64;
  w_bitmap : 0 <= db_bitmap d < 2 ^ 64
}.

(** What a superblock says. *)
Record sb_says (sb : page) (d : db) (generation : Z) : Prop := mk_sb_says {
  says_generation : rd 8 sb SB_GENERATION = generation;
  says_pages : rd 8 sb SB_TOTAL_PAGES = db_pages d;
  says_alloc : rd 8 sb SB_ALLOC_PAGES = db_alloc d;
  says_freelist : rd 8 sb SB_FREELIST_ROOT = db_freelist d;
  says_root : rd 8 sb SB_ROOT_PAGE = db_root d;
  says_bitmap : rd 8 sb SB_BITMAP_ROOT = db_bitmap d;
  says_feature : rd 8 sb SB_FEATURE_ROOT = 0;
  says_staged : rd 4 sb SB_STAGED = 0
}.

Section superblock.
Context (pg : page) (d : db) (generation : Z).
Hypothesis Hb : bytes pg.
Hypothesis Hl : 128 <= Z.of_nat (length pg).
Hypothesis Hw : sb_words d generation.

Let filled : page := fold_left store_at (sb_stores d generation) pg.

Lemma filled_ok : length filled = length pg /\ bytes filled.
Proof using Hb Hl.
  split; [|by apply bytes_stores]. apply length_stores. by apply sb_stores_fit.
Qed.

(** One field: the stores after it are beside it. *)
Lemma filled_field w off v n :
  nth_error (sb_stores d generation) n = Some (w, off, v) -> 0 <= off ->
  Forall (store_beside w off) (drop (S n) (sb_stores d generation)) ->
  0 <= v < 2 ^ (8 * Z.of_nat w) -> rd w filled off = v.
Proof using Hl.
  intros Hn Ho Hbs Hv. apply nth_error_split in Hn as (l1 & l2 & E & El). unfold filled.
  rewrite E in *. rewrite <- El in Hbs.
  assert (Ed : drop (S (length l1)) (l1 ++ (w, off, v) :: l2) = l2).
  { replace (S (length l1)) with (length l1 + 1)%nat by lia. rewrite <- drop_drop.
    by rewrite drop_app_length. }
  rewrite Ed in Hbs. apply rd_stores_hit; [done| |done|done]. rewrite <- E. by apply sb_stores_fit.
Qed.

Ltac beside_all := repeat (apply Forall_cons_2; [unfold store_beside; ((left; by compute) || (right; by compute))|]);
  apply Forall_nil_2.
Ltac beside := rewrite sb_stores_eq; simpl drop; beside_all.

Lemma filled_says : sb_says filled d generation.
Proof using Hb Hl Hw.
  destruct Hw. constructor.
  - apply (filled_field 8 _ _ 18); [done|by compute|beside|done].
  - apply (filled_field 8 _ _ 19); [done|by compute|beside|done].
  - apply (filled_field 8 _ _ 20); [done|by compute|beside|done].
  - apply (filled_field 8 _ _ 21); [done|by compute|beside|done].
  - apply (filled_field 8 _ _ 22); [done|by compute|beside|done].
  - apply (filled_field 8 _ _ 23); [done|by compute|beside|done].
  - apply (filled_field 8 _ _ 7); [done|by compute|beside|done].
  - destruct filled_ok as [El Eb]. unfold SB_STAGED. rewrite rd_low; [|done|lia|rewrite El; lia].
    rewrite (filled_field 8 120 0 15); [done|done|lia|beside|done].
Qed.

(** The checksum is the last store, behind every field. *)
Lemma write_superblock_rd w off : 0 <= off -> off + Z.of_nat w <= SB_CRC ->
  rd w (write_superblock pg d generation) off = rd w filled off.
Proof using Hb Hl.
  intros Ho Hoff. destruct filled_ok as [El _]. unfold SB_CRC in *. unfold write_superblock.
  apply rd_wr_ne; [by compute|fold filled; rewrite El; unfold SB_CRC; lia|done|].
  left. done.
Qed.

Lemma write_superblock_says : sb_says (write_superblock pg d generation) d generation.
Proof using Hb Hl Hw.
  destruct filled_says. constructor; (rewrite write_superblock_rd; [done|by compute|by compute]).
Qed.

Lemma write_superblock_valid : sb_valid (write_superblock pg d generation) = true.
Proof using Hb Hl Hw.
  destruct filled_ok as [El Eb]. pose proof write_superblock_says as S.
  assert (Em : rd 4 filled SB_MAGIC = CybouDB_SB_MAGIC).
  { apply (filled_field 4 _ _ 16); [done|by compute|beside|by compute]. }
  assert (Es : rd 4 filled SB_SIZE = CybouDB_SB_SIZE).
  { apply (filled_field 4 _ _ 17); [done|by compute|beside|by compute]. }
  unfold sb_valid. rewrite (write_superblock_rd 4 SB_MAGIC), (write_superblock_rd 4 SB_SIZE)
    by (by compute). rewrite Em, Es, (says_staged _ _ _ S).
  rewrite (proj2 (forallb_forall _ _)).
  - unfold write_superblock. fold filled. rewrite rd_wr_eq.
    + unfold sb_crc. rewrite take_wr; [by rewrite !Z.eqb_refl|by compute|unfold SB_CRC; lia].
    + by compute.
    + unfold SB_CRC. lia.
    + apply crc_word.
  - intros i Hi. apply list_elem_of_In, elem_of_seqZ in Hi. apply Z.eqb_eq.
    rewrite write_superblock_rd by (unfold SB_RESERVED_TAIL, SB_CRC; lia).
    unfold SB_RESERVED_TAIL.
    assert (C : i = 0 \/ i = 1 \/ i = 2 \/ i = 3 \/ i = 4 \/ i = 5 \/ i = 6) by lia.
    destruct C as [->|[->|[->|[->|[->|[->| ->]]]]]];
      [apply (filled_field 8 _ _ 8)|apply (filled_field 8 _ _ 9)|apply (filled_field 8 _ _ 10)
      |apply (filled_field 8 _ _ 11)|apply (filled_field 8 _ _ 12)|apply (filled_field 8 _ _ 13)
      |apply (filled_field 8 _ _ 14)]; (done || lia || beside).
Qed.

(** ** A superblock that was not finished *)

Lemma sb_partial_crc n : (16 <= n <= 24)%nat -> rd 4 (sb_partial n pg d generation) SB_CRC = 0.
Proof using Hb Hl.
  intros Hn. unfold sb_partial.
  assert (Hfit : Forall (store_fits (Z.of_nat (length pg))) (take n (sb_stores d generation))).
  { by apply Forall_take, sb_stores_fit. }
  pose proof (length_stores pg _ Hfit) as El. pose proof (bytes_stores pg (take n (sb_stores d generation)) Hb) as Eb.
  change SB_CRC with (120 + 4). rewrite rd_high; [|done|lia|rewrite El; lia].
  replace (rd 8 (fold_left store_at (take n (sb_stores d generation)) pg) 120) with 0; [done|].
  symmetry. rewrite sb_stores_eq in *.
  assert (E : take n (sb_zeros ++ sb_fields d generation) =
    take 15 sb_zeros ++ (8%nat, 120, 0) :: take (n - 16) (sb_fields d generation)).
  { rewrite take_app_ge by (simpl; lia). simpl length. reflexivity. }
  rewrite E in *. apply rd_stores_hit; [lia|done| |lia].
  apply Forall_take. beside_all.
Qed.

(** It is refused, unless its checksum happens to be the zero it starts with. *)
Lemma sb_partial_invalid n : (0 < n <= 24)%nat ->
  (forall i, (18 <= i <= 24)%nat -> sb_crc (sb_partial i pg d generation) <> 0) ->
  sb_valid (sb_partial n pg d generation) = false.
Proof using Hb Hl.
  intros Hn Hcrc. unfold sb_valid.
  assert (Hfit : Forall (store_fits (Z.of_nat (length pg))) (take n (sb_stores d generation))).
  { by apply Forall_take, sb_stores_fit. }
  destruct (decide (18 <= n)%nat) as [Hc|Hc].
  { rewrite (sb_partial_crc n) by lia.
    rewrite (proj2 (Z.eqb_neq 0 (sb_crc (sb_partial n pg d generation)))).
    - by rewrite !andb_false_r.
    - intros E. symmetry in E. revert E. apply Hcrc. lia. }
  assert (Hlow : forall m, (1 <= m <= 16)%nat ->
    rd 8 (sb_partial m pg d generation) 0 = 0).
  { intros m Hm. unfold sb_partial. rewrite sb_stores_eq.
    rewrite take_app_le by (simpl; lia).
    assert (Em : take m sb_zeros = [] ++ (8%nat, 0, 0) :: take (m - 1) (tail sb_zeros)).
    { destruct m as [|m]; [lia|]. simpl. by rewrite Nat.sub_0_r. }
    rewrite Em. apply rd_stores_hit; [lia| | |lia].
    - rewrite <- Em. apply Forall_take. repeat constructor; simpl; lia.
    - apply Forall_take. beside_all. }
  assert (Hok : forall m, length (sb_partial m pg d generation) = length pg /\
                          bytes (sb_partial m pg d generation)).
  { intros m. split; [apply length_stores; by apply Forall_take, sb_stores_fit|by apply bytes_stores]. }
  destruct (decide (n = 17)%nat) as [->|].
  - destruct (Hok 16%nat) as [L16 B16].
    assert (E17 : sb_partial 17 pg d generation =
      wr 4 (sb_partial 16 pg d generation) 0 CybouDB_SB_MAGIC) by reflexivity.
    assert (Es : rd 4 (sb_partial 17 pg d generation) SB_SIZE = 0).
    { rewrite E17. rewrite rd_wr_ne; [|lia|rewrite L16; lia|by compute|right; by compute].
      change SB_SIZE with (0 + 4). rewrite rd_high; [|done|lia|rewrite L16; lia].
      by rewrite Hlow by lia. }
    rewrite Es. by rewrite !andb_false_r.
  - destruct (Hok n) as [Ln Bn]. rewrite rd_low; [|done|by compute|rewrite Ln; unfold SB_MAGIC; lia].
    unfold SB_MAGIC. by rewrite Hlow by lia.
Qed.

End superblock.
