(* ===== verification/Transaction.v ===== *)
(** * Transaction: what a copy-on-write transaction may touch

    The allocation map of a file that the engine wrote ([map_wf]), and the
    invariant of a transaction over it ([in_tx]): the pages of the live
    generation, its half of the map and its superblock stay as they are, every
    other page that was written is among those the commit flushes, and every
    staged leaf is either the live one or carries the new generation. *)

From S2P Require Import Prelude Crc32c AllocMap Storage.

(** The entries of leaf [i]: metadata up to the first payload page, nothing from
    the high-water on. *)
Definition leaf_wf (leaf : page) (pages alloc i : Z) : Prop :=
  forall j, 0 <= j < CybouDB_MAP_LEAF_PAGES ->
    let p := i * CybouDB_MAP_LEAF_PAGES + j in
    (p < first_payload pages -> map_get leaf j = MAP_METADATA) /\
    (alloc <= p -> map_get leaf j = MAP_FREE).

(** The map pair of a file whose live generation [g] has its map at [live]:
    halves of one generation are the same leaf, which is what [span_stage]
    relies on. *)
Record map_wf (m : mem) (pages alloc live g : Z) : Prop := mk_map_wf {
  wf_pages : CybouDB_COW_MIN_PAGES <= pages <= CybouDB_SPAN_MAX_PAGES;
  wf_alloc : first_payload pages <= alloc <= pages;
  wf_live : live = CybouDB_MIN_PAGES \/ live = db_bitmap_leaves pages + CybouDB_MIN_PAGES;
  wf_leaves : forall p, CybouDB_MIN_PAGES <= p < first_payload pages -> page_ok (m p);
  wf_generation : 0 < g < UINT64_MAX;
  wf_live_leaf : forall i, 0 <= i < db_bitmap_leaves pages ->
    0 < leaf_generation (m (live + i)) <= g /\ leaf_wf (m (live + i)) pages alloc i;
  wf_twins : forall i, 0 <= i < db_bitmap_leaves pages ->
    let leaf := m (other_root (db_bitmap_leaves pages) live + i) in
    leaf_generation (m (live + i)) = leaf_generation leaf -> m (live + i) = leaf
}.

Section transaction.
Context (m0 : mem) (pages a0 live g : Z).
Context (WF : map_wf m0 pages a0 live g) (cur : Z).

#[local] Notation k := (db_bitmap_leaves pages).
#[local] Notation other := (other_root k live).
#[local] Notation first := (first_payload pages).

(** What the live generation says of a page. *)
Definition live_state (p : Z) : Z := map_state true m0 live p.

Definition other_page (p : Z) : Prop := other <= p < other + k.

(** A page this transaction has taken: no page of the live generation. *)
Definition taken (d : dirty) (p : Z) : Prop :=
  first <= p < pages /\ (live_state p = MAP_FREE \/ live_state p = MAP_RETIRED) /\ covered d p.

(** A leaf of the staged half. *)
Definition staged_leaf (leaf : page) (i : Z) : Prop :=
  (leaf_generation leaf = g + 1 /\ page_ok leaf) \/ leaf = m0 (live + i).

Record in_tx (s : state) : Prop := mk_in_tx {
  tx_span : has_span s.1 = true;
  tx_features : db_features s.1 = rd 8 (m0 0) HDR_FLAGS_INCOMPAT;
  tx_writable : db_writable s.1 = true;
  tx_size : db_size s.1 = pages .<< 12;
  tx_mode : db_mode s.1 = 1;
  tx_verify : db_verify s.1 = 0;
  tx_freelist : db_freelist s.1 = 0;
  tx_root_word : 0 <= db_root s.1 < 2 ^ 64;
  tx_prove : db_prove s.1 = false;
  tx_db_pages : db_pages s.1 = pages;
  tx_generation : db_generation s.1 = g;
  tx_cur : db_sb_page s.1 = cur;
  tx_sb : cur = CybouDB_SB_PAGE_A \/ cur = CybouDB_SB_PAGE_B;
  tx_root : rd 8 (m0 cur) SB_BITMAP_ROOT = live;
  tx_alloc : a0 <= db_alloc s.1 <= pages;
  tx_floor : a0 <= db_floor s.1;
  tx_sweep : 0 <= db_reuse_next s.1;
  tx_runs : runs_ok (db_dirty s.1);
  tx_pages : forall p, other_page p \/ s.2 p = m0 p \/ taken (db_dirty s.1) p;
  tx_fresh : forall p, 0 <= p < k * CybouDB_MAP_LEAF_PAGES ->
    map_state true s.2 (db_bitmap s.1) p = MAP_PAYLOAD ->
    live_state p = MAP_PAYLOAD \/ live_state p = MAP_METADATA \/ taken (db_dirty s.1) p;
  tx_above : forall p, db_alloc s.1 <= p < k * CybouDB_MAP_LEAF_PAGES ->
    map_state true s.2 (db_bitmap s.1) p <> MAP_PAYLOAD;
  tx_stage :
    (db_bitmap s.1 = live /\ (forall i, 0 <= i < k -> s.2 (other + i) = m0 (other + i)) /\
     db_alloc s.1 = a0) \/
    (db_bitmap s.1 = other /\ forall i, 0 <= i < k -> staged_leaf (s.2 (other + i)) i)
}.

(** ** Where things are *)

Lemma k_bounds : 1 <= k <= 1024 /\ pages <= k * CybouDB_MAP_LEAF_PAGES.
Proof using WF.
  apply leaves_bounds. pose proof (wf_pages _ _ _ _ _ WF). unfold CybouDB_COW_MIN_PAGES in *. lia.
Qed.

Lemma first_eq : first = 2 * k + 3.
Proof using Type. done. Qed.

(** The two halves are apart, behind the superblocks and below the payload. *)
Lemma halves : (live = 3 /\ other = k + 3) \/ (live = k + 3 /\ other = 3).
Proof using WF.
  destruct (wf_live _ _ _ _ _ WF) as [->|E]; unfold other_root.
  - left. by split.
  - right. rewrite E. pose proof k_bounds. case_if; unfold CybouDB_MIN_PAGES in *; lia.
Qed.

Ltac places :=
  let K := fresh "K" in pose proof k_bounds as K;
  let F := fresh "F" in pose proof first_eq as F;
  let H := fresh "H" in pose proof halves as H.

Lemma live_state_free p : 0 <= p < k * CybouDB_MAP_LEAF_PAGES -> a0 <= p -> live_state p = MAP_FREE.
Proof using WF.
  intros Hp Ha. destruct (map_place k live p Hp) as (Hl & Hi & E).
  destruct (wf_live_leaf _ _ _ _ _ WF (map_leaf true live p - live)) as [_ Hw]; [lia|].
  replace (live + (map_leaf true live p - live)) with (map_leaf true live p) in Hw by lia.
  apply (Hw _ Hi). lia.
Qed.

Lemma live_state_metadata p : 0 <= p < first -> live_state p = MAP_METADATA.
Proof using WF.
  intros Hp. pose proof (wf_alloc _ _ _ _ _ WF). places.
  assert (Hk : 0 <= p < k * CybouDB_MAP_LEAF_PAGES) by lia.
  destruct (map_place k live p Hk) as (Hl & Hi & E).
  destruct (wf_live_leaf _ _ _ _ _ WF (map_leaf true live p - live)) as [_ Hw]; [lia|].
  replace (live + (map_leaf true live p - live)) with (map_leaf true live p) in Hw by lia.
  apply (Hw _ Hi). lia.
Qed.

Lemma live_state_range p : 0 <= live_state p < 4.
Proof using Type. apply map_get_range. Qed.

(** A page that is neither payload nor metadata of the live generation can be
    taken. *)
Lemma live_state_takeable p : 0 <= p < k * CybouDB_MAP_LEAF_PAGES ->
  live_state p = MAP_FREE \/ live_state p = MAP_RETIRED -> first <= p.
Proof using WF.
  intros Hp Hs. destruct (decide (first <= p)); [done|]. exfalso.
  rewrite live_state_metadata in Hs by lia. unfold MAP_FREE, MAP_RETIRED, MAP_METADATA in Hs. lia.
Qed.

Section state.
Context (s : state) (T : in_tx s).

(** Metadata pages outside the staged half never change. *)
Lemma tx_meta_page p : 0 <= p < first -> ~ other_page p -> s.2 p = m0 p.
Proof using T.
  intros Hp Ho. destruct (tx_pages _ T p) as [|[|[Ht _]]]; [done|done|lia].
Qed.

Lemma tx_sb_page : s.2 cur = m0 cur.
Proof using T WF.
  places. destruct (tx_sb _ T) as [E|E]; rewrite E; apply tx_meta_page;
    unfold other_page, CybouDB_SB_PAGE_A, CybouDB_SB_PAGE_B; lia.
Qed.

Lemma tx_live_root : live_root s = live.
Proof using T WF. unfold live_root, live_sb. rewrite (tx_cur _ T), tx_sb_page. apply (tx_root _ T). Qed.

Lemma tx_live_leaf i : 0 <= i < k -> s.2 (live + i) = m0 (live + i).
Proof using T WF. intros. places. apply tx_meta_page; unfold other_page; lia. Qed.

Lemma tx_live_state p : 0 <= p < k * CybouDB_MAP_LEAF_PAGES ->
  map_state true s.2 live p = live_state p.
Proof using T WF.
  intros Hp. apply map_state_ext. destruct (map_place k live p Hp) as (Hl & _ & _).
  replace (map_leaf true live p) with (live + (map_leaf true live p - live)) by lia.
  apply tx_live_leaf. lia.
Qed.

Lemma tx_pages_bound p : 0 <= p < pages -> 0 <= p < k * CybouDB_MAP_LEAF_PAGES.
Proof using WF. places. lia. Qed.
End state.

(** ** Staging *)

(** A loop over the leaves that leaves in [other + i] the leaf [live + i]. *)
Lemma leaf_loop (body : Z -> mem -> mem) m :
  (forall i m', 0 <= i < k -> m' (live + i) = m (live + i) -> m' (other + i) = m (other + i) ->
     body i m' (other + i) = m (live + i) /\
     forall p, p <> other + i -> body i m' p = m' p) ->
  let m' := for_loop (Z.to_nat k) (fun i => body (Z.of_nat i)) m in
  (forall i, 0 <= i < k -> m' (other + i) = m (live + i)) /\
  (forall p, ~ other_page p -> m' p = m p).
Proof using WF.
  intros Hbody. places.
  enough (Hloop : forall n m', m' = for_loop n (fun i => body (Z.of_nat i)) m ->
    Z.of_nat n <= k ->
    (forall i, 0 <= i < Z.of_nat n -> m' (other + i) = m (live + i)) /\
    (forall p, ~ other <= p < other + Z.of_nat n -> m' p = m p)).
  { destruct (Hloop (Z.to_nat k) _ eq_refl) as [L1 L2]; [lia|]. unfold other_page.
    split; [intros i ?; apply L1; lia|intros p ?; apply L2; lia]. }
  induction n as [|n IH]; intros m' -> Hn; [split; [lia|done]|]. rewrite for_loop_S.
  destruct (IH _ eq_refl) as [IH1 IH2]; [lia|].
  destruct (Hbody (Z.of_nat n) (for_loop n (fun i => body (Z.of_nat i)) m)) as [H1 H2];
    [lia|apply IH2; lia|apply IH2; lia|].
  split.
  - intros i Hi. destruct (decide (i = Z.of_nat n)) as [->|]; [done|].
    rewrite H2 by lia. apply IH1. lia.
  - intros p Hp. rewrite H2 by lia. apply IH2. lia.
Qed.

Lemma stage_leaves_spec m :
  (forall i, 0 <= i < k -> leaf_generation (m (live + i)) = leaf_generation (m (other + i)) ->
     m (live + i) = m (other + i)) ->
  (forall i, 0 <= i < k -> stage_leaves k live other m (other + i) = m (live + i)) /\
  (forall p, ~ other_page p -> stage_leaves k live other m p = m p).
Proof using WF.
  intros Htw. apply (leaf_loop (fun i m => stage_leaf live other m i)).
  intros i m' Hi El Eo. unfold stage_leaf. rewrite El, Eo. case_if.
  - split; [|done]. rewrite Eo. symmetry. auto.
  - split; [apply set_page_eq|]. intros p ?. by apply set_page_ne.
Qed.

Lemma copy_leaves_spec m :
  (forall i, 0 <= i < k -> copy_leaves k live other m (other + i) = m (live + i)) /\
  (forall p, ~ other_page p -> copy_leaves k live other m p = m p).
Proof using WF.
  apply (leaf_loop (fun i m => set_page m (other + i) (m (live + i)))).
  intros i m' Hi El Eo. rewrite <- El. split; [apply set_page_eq|].
  intros p ?. by apply set_page_ne.
Qed.

(** ** The steps the operations are made of *)

Definition staged (s : state) : Prop := db_bitmap s.1 = other.

Lemma staged_as_live m p : m (other + p / CybouDB_MAP_LEAF_PAGES) = m0 (live + p / CybouDB_MAP_LEAF_PAGES) ->
  map_state true m other p = live_state p.
Proof using Type. unfold map_state, live_state, map_leaf. by intros ->. Qed.

Lemma leaf_of p : 0 <= p < k * CybouDB_MAP_LEAF_PAGES -> 0 <= p / CybouDB_MAP_LEAF_PAGES < k.
Proof using Type.
  unfold CybouDB_MAP_LEAF_PAGES, CybouDB_COW_MAX_PAGES, MAP_CRC, MAP_DATA. intros. lia.
Qed.

Lemma in_tx_stage s : in_tx s ->
  in_tx (span_stage s) /\ staged (span_stage s) /\ db_dirty (span_stage s).1 = db_dirty s.1 /\
  db_alloc (span_stage s).1 = db_alloc s.1 /\ db_floor (span_stage s).1 = db_floor s.1.
Proof using WF.
  intros T. pose proof (tx_live_root s T) as El. destruct s as [d m]. unfold span_stage.
  rewrite El. places. pose proof (tx_db_pages _ T) as Ep. simpl in Ep. rewrite Ep. case_if.
  - destruct (tx_stage _ T) as [[Hb _]|[Hs _]]; simpl in *; [congruence|]. unfold staged. done.
  - simpl. split_and!; try done.
    assert (Eo : forall i, 0 <= i < k -> m (other + i) = m0 (other + i)).
    { destruct (tx_stage _ T) as [[_ [Hb _]]|[Hb _]]; simpl in *; [done|lia]. }
    assert (Ev : forall i, 0 <= i < k -> m (live + i) = m0 (live + i)) by apply (tx_live_leaf _ T).
    destruct (stage_leaves_spec m) as [S1 S2].
    { intros i Hi. rewrite Eo, Ev by done. apply (wf_twins _ _ _ _ _ WF i Hi). }
    destruct T. simpl in *. constructor; simpl; try done.
    + intros p. destruct (decide (other <= p < other + k)) as [|Ho]; [by left|].
      rewrite S2 by done. apply tx_pages0.
    + intros p Hp Hs. left. rewrite <- Hs. symmetry. apply staged_as_live.
      pose proof (leaf_of p Hp). rewrite S1, Ev; done.
    + intros p Hp Hs. pose proof (wf_alloc _ _ _ _ _ WF). rewrite staged_as_live in Hs.
      * rewrite live_state_free in Hs by lia. done.
      * pose proof (leaf_of p ltac:(lia)). rewrite S1, Ev; done.
    + right. split; [done|]. intros i Hi. right. rewrite S1, Ev; done.
Qed.

(** The state of a page after its leaf has been replaced. *)
Lemma staged_leaf_ok s i : in_tx s -> staged s -> 0 <= i < k -> page_ok (s.2 (other + i)).
Proof using WF.
  intros T Hs Hi. places. destruct (tx_stage _ T) as [[Hb _]|[_ Hl]].
  - unfold staged in Hs. rewrite Hb in Hs. lia.
  - destruct (Hl i Hi) as [[_ H']| ->]; [done|]. apply (wf_leaves _ _ _ _ _ WF).
    unfold CybouDB_MIN_PAGES. lia.
Qed.

(** A staged leaf is replaced by one of the new generation. *)
Lemma in_tx_leaf d m i leaf : in_tx (d, m) -> staged (d, m) -> 0 <= i < k ->
  leaf_generation leaf = g + 1 -> page_ok leaf ->
  (forall p, 0 <= p < k * CybouDB_MAP_LEAF_PAGES -> p / CybouDB_MAP_LEAF_PAGES = i ->
     map_get leaf (map_index true p) = MAP_PAYLOAD ->
     map_state true m other p = MAP_PAYLOAD \/ taken (db_dirty d) p /\ p < db_alloc d) ->
  in_tx (d, set_page m (other + i) leaf).
Proof using WF.
  intros T Hs Hi Hg Hok Hst. places. unfold staged in Hs. destruct T. simpl in *.
  constructor; simpl; try done.
  - intros p. destruct (decide (p = other + i)) as [->|]; [left; unfold other_page; lia|].
    rewrite set_page_ne by done. apply tx_pages0.
  - rewrite Hs in *. intros p Hp Hq. destruct (decide (p / CybouDB_MAP_LEAF_PAGES = i)) as [Ei|Ei].
    + unfold map_state, map_leaf in Hq. rewrite Ei, set_page_eq in Hq.
      destruct (Hst p Hp Ei Hq) as [H'|[H' _]]; [by apply tx_fresh0|by right; right].
    + apply tx_fresh0; [done|]. rewrite <- Hq. symmetry. apply map_state_ext, set_page_ne.
      unfold map_leaf. lia.
  - rewrite Hs in *. intros p Hp Hq. pose proof (wf_alloc _ _ _ _ _ WF).
    destruct (decide (p / CybouDB_MAP_LEAF_PAGES = i)) as [Ei|Ei].
    + unfold map_state, map_leaf in Hq. rewrite Ei, set_page_eq in Hq.
      destruct (Hst p ltac:(lia) Ei Hq) as [H'|[_ H']]; [by apply (tx_above0 p Hp)|lia].
    + apply (tx_above0 p Hp). rewrite <- Hq. symmetry. apply map_state_ext, set_page_ne.
      unfold map_leaf. lia.
  - destruct tx_stage0 as [[Hb _]|[_ Hl]]; [rewrite Hb in Hs; lia|]. right. split; [done|].
    intros j Hj. destruct (decide (j = i)) as [->|]; [rewrite set_page_eq; by left|].
    rewrite set_page_ne by lia. auto.
Qed.

Lemma in_tx_mark e s p to : in_tx s -> staged s -> 0 <= p < k * CybouDB_MAP_LEAF_PAGES ->
  0 <= to < 4 -> (to = MAP_PAYLOAD -> taken (db_dirty s.1) p /\ p < db_alloc s.1) ->
  in_tx (span_mark e s p to) /\ staged (span_mark e s p to).
Proof using WF.
  intros T Hs Hp Hto Ht. pose proof (leaf_of p Hp) as Hi.
  pose proof (staged_leaf_ok s _ T Hs Hi) as Hok. destruct s as [d m]. simpl in *.
  destruct (map_place k other p Hp) as (_ & Hj & _). unfold staged in Hs. simpl in Hs.
  pose proof (tx_generation _ T) as Hg. simpl in Hg.
  pose proof (wf_generation _ _ _ _ _ WF) as Hgr. unfold UINT64_MAX in Hgr.
  unfold span_mark. rewrite Hs, Hg. split; [|done]. unfold map_leaf.
  assert (Hw : page_ok (wr 8 (m (other + p / CybouDB_MAP_LEAF_PAGES)) MAP_GENERATION (u64 (g + 1)))).
  { apply page_ok_wr; [done|by compute|by compute]. }
  apply in_tx_leaf; try done.
  - by destruct T; constructor.
  - unfold leaf_generation. rewrite rd_map_set; [|done|done|by compute|by compute].
    rewrite u64_small by lia. apply rd_wr_page_eq; [done|by compute|by compute|simpl; lia].
  - by apply page_ok_map_set.
  - simpl. intros q Hq Ei Hst.
    destruct (map_place k other q Hq) as (_ & Hjq & _).
    rewrite map_get_set in Hst by done.
    destruct (map_index true q =? map_index true p) eqn:E; bool_to_prop.
    + right. replace q with p; [by apply Ht|]. apply (map_place_inj other); [|done].
      unfold map_leaf. by rewrite Ei.
    + left. unfold map_state, map_leaf. rewrite Ei, <- Hst. symmetry.
      apply map_get_wr; [done|done|by compute|left; by compute].
Qed.

Lemma mark_fields e s p to : (span_mark e s p to).1 =
  set_cs s.1 (cs_record e (db_cs s.1) p
                (map_get (s.2 (map_leaf true (db_bitmap s.1) p)) (map_index true p)) to).
Proof using Type. by destruct s. Qed.

Lemma taken_mark d p q : runs_ok d -> 0 <= p -> taken d q -> taken (mark_dirty d p) q.
Proof using WF.
  intros Hr Hp (Hq & Hs & Hc). places. split_and!; [lia|lia|done|].
  apply mark_dirty_covers; [done|done|lia|by right].
Qed.

Lemma in_tx_dirty s p : in_tx s -> 0 <= p -> in_tx (dirty_page s p).
Proof using WF.
  intros T Hp. destruct s as [d m], T. simpl in *. constructor; simpl; try done.
  - by apply runs_ok_mark.
  - intros q. destruct (tx_pages0 q) as [|[|]]; auto using taken_mark.
  - intros q Hq Hs. destruct (tx_fresh0 q Hq Hs) as [|[|]]; auto using taken_mark.
Qed.

(** Marking a page dirty and recording its state do not meet. *)
Lemma dirty_mark e s p q to : dirty_page (span_mark e s p to) q = span_mark e (dirty_page s q) p to.
Proof using Type. by destruct s. Qed.

(** A store into a page the transaction has taken. *)
Lemma in_tx_store s p pg : in_tx s -> taken (db_dirty s.1) p -> in_tx (s.1, set_page s.2 p pg).
Proof using WF.
  intros T Hp. pose proof Hp as (Hr & _). places.
  assert (Hmap : forall q, 3 <= q < first -> set_page s.2 p pg q = s.2 q).
  { intros q ?. apply set_page_ne. lia. }
  destruct s as [d m], T. simpl in *. constructor; simpl; try done.
  - intros q. destruct (decide (q = p)) as [->|]; [by right; right|].
    rewrite set_page_ne by done. apply tx_pages0.
  - intros q Hq Hs. apply tx_fresh0; [done|]. rewrite <- Hs. symmetry. apply map_state_ext, Hmap.
    destruct (map_place k (db_bitmap d) q Hq) as (Hl & _ & _).
    destruct tx_stage0 as [[Hb _]|[Hb _]]; rewrite Hb in *; lia.
  - intros q Hq Hs. pose proof (wf_alloc _ _ _ _ _ WF). apply (tx_above0 q Hq). rewrite <- Hs.
    symmetry. apply map_state_ext, Hmap.
    destruct (map_place k (db_bitmap d) q ltac:(lia)) as (Hl & _ & _).
    destruct tx_stage0 as [[Hb _]|[Hb _]]; rewrite Hb in *; lia.
  - destruct tx_stage0 as [(Hb & Ho & Ha)|[Hb Hl]]; [left|right]; split_and!; try done.
    + intros i Hi. rewrite Hmap by lia. auto.
    + intros i Hi. rewrite Hmap by lia. auto.
Qed.

Lemma mark_state e s p to : in_tx s -> staged s -> 0 <= p < k * CybouDB_MAP_LEAF_PAGES ->
  0 <= to < 4 -> map_state true (span_mark e s p to).2 other p = to.
Proof using WF.
  intros T Hs Hp Hto. pose proof (leaf_of p Hp) as Hi.
  pose proof (staged_leaf_ok s _ T Hs Hi) as Hok. destruct s as [d m]. unfold staged in Hs. simpl in *.
  destruct (map_place k other p Hp) as (_ & Hj & _). unfold map_state. rewrite Hs.
  rewrite set_page_eq, map_get_set; [by rewrite Z.eqb_refl| |done|done|done].
  unfold map_leaf. apply page_ok_wr; [done|by compute|by compute].
Qed.

Lemma store_state m p pg q : first <= p -> 0 <= q < k * CybouDB_MAP_LEAF_PAGES ->
  map_state true (set_page m p pg) other q = map_state true m other q.
Proof using WF.
  intros Hp Hq. places. apply map_state_ext, set_page_ne.
  destruct (map_place k other q Hq) as (Hl & _ & _). lia.
Qed.

(** What is left where a page has been handed out: payload of the staged map,
    and nothing in it. *)
Definition handed (s : state) (p : Z) : Prop :=
  staged s /\ p < db_alloc s.1 /\ map_state true s.2 other p = MAP_PAYLOAD /\ s.2 p = zero_page.

(** A page below the high-water that can be taken. *)
Lemma takeable s p : in_tx s -> 0 <= p < pages ->
  live_state p = MAP_FREE \/ live_state p = MAP_RETIRED ->
  in_tx (dirty_page s p) /\ taken (db_dirty (dirty_page s p).1) p.
Proof using WF.
  intros T Hp Hs. split; [apply in_tx_dirty; [done|lia]|]. split_and!; [|lia|done|].
  - apply live_state_takeable; [|done]. by apply (tx_pages_bound).
  - apply mark_dirty_covers; [apply (tx_runs _ T)|lia|lia|by left].
Qed.

(** A page is given to the transaction: marked, flushed at commit, blanked. *)
Definition hand_out (e : env) (s : state) (p : Z) : state :=
  blank_page (dirty_page (span_mark e s p MAP_PAYLOAD) p) p.

Lemma in_tx_hand_out e s p : in_tx s -> staged s -> 0 <= p < db_alloc s.1 ->
  live_state p = MAP_FREE \/ live_state p = MAP_RETIRED ->
  in_tx (hand_out e s p) /\ handed (hand_out e s p) p /\
  taken (db_dirty (hand_out e s p).1) p.
Proof using WF.
  intros T Hs Hp Hl. pose proof (tx_alloc _ T).
  destruct (takeable s p T ltac:(lia) Hl) as [T' Ht]. unfold hand_out. rewrite dirty_mark.
  destruct (in_tx_mark e (dirty_page s p) p MAP_PAYLOAD) as [T2 S2]; try done.
  { apply tx_pages_bound. lia. }
  { intros _. split; [done|]. simpl. lia. }
  assert (Ht2 : taken (db_dirty (span_mark e (dirty_page s p) p MAP_PAYLOAD).1) p).
  { rewrite mark_fields. done. }
  split_and!; [by apply in_tx_store| |done]. split_and!; [done| | |apply set_page_eq].
  - unfold blank_page. cbn [fst]. rewrite mark_fields. simpl. lia.
  - unfold blank_page. cbn [snd]. rewrite store_state; [|apply Ht|apply tx_pages_bound; lia].
    apply mark_state; [done|done|apply tx_pages_bound; lia|done].
Qed.

(** ** Allocation *)

Lemma in_tx_alloc s v : in_tx s -> staged s -> db_alloc s.1 <= v <= pages ->
  in_tx (set_alloc s.1 v, s.2).
Proof using WF.
  intros T Hs Hv. places. unfold staged in Hs. destruct s as [d m], T. simpl in *.
  constructor; simpl; try done; [lia|intros p ?; apply tx_above0; lia|].
  destruct tx_stage0 as [[Hb _]|]; [rewrite Hb in Hs; lia|by right].
Qed.

Lemma in_tx_gap e s to : in_tx s -> staged s -> to <= pages ->
  in_tx (reserve_gap e s to) /\ staged (reserve_gap e s to) /\
  db_dirty (reserve_gap e s to).1 = db_dirty s.1 /\ db_alloc (reserve_gap e s to).1 = db_alloc s.1.
Proof using WF.
  intros T Hs Hto. unfold reserve_gap. places. pose proof (tx_alloc _ T) as Ha.
  pose proof (wf_alloc _ _ _ _ _ WF).
  apply (for_loop_ind (fun _ s' => in_tx s' /\ staged s' /\ db_dirty s'.1 = db_dirty s.1 /\
    db_alloc s'.1 = db_alloc s.1)); [done|].
  intros i s' Hi (T' & Hs' & Hd & Hal).
  destruct (in_tx_mark e s' (db_alloc s.1 + Z.of_nat i) MAP_METADATA) as [T2 S2]; try done.
  { apply tx_pages_bound. lia. }
  split_and!; [done|done|by rewrite mark_fields..].
Qed.

(** The end of [.span_gap_done]: the high-water, in the descriptor and in leaf
    zero. *)
Definition raise_alloc (s : state) (p : Z) : state := (set_alloc s.1 (p + 1), s.2).

Definition stamp_alloc (s : state) (p : Z) : state :=
  let leaf := wr 8 (s.2 (db_bitmap s.1)) MAP_ALLOC (p + 1) in
  (s.1, set_page s.2 (db_bitmap s.1) (wr 8 leaf MAP_GENERATION (u64 (db_generation s.1 + 1)))).

Lemma span_grow_eq e s p :
  span_grow e s p =
  let beside := if db_alloc s.1 <? p then p - 1 else p in
  (CybouDB_OK, p,
   blank_page (stamp_alloc
     (span_mark e (raise_alloc (dirty_page (dirty_page (reserve_gap e s p) beside) p) p)
        p MAP_PAYLOAD) p) p).
Proof using Type. unfold span_grow. by destruct (reserve_gap e s p) as [d m]. Qed.

Lemma in_tx_stamp s p : in_tx s -> staged s ->
  in_tx (stamp_alloc s p) /\ staged (stamp_alloc s p).
Proof using WF.
  intros T Hs. places. pose proof (wf_generation _ _ _ _ _ WF) as Hg. unfold UINT64_MAX in Hg.
  split; [|done]. unfold stamp_alloc. rewrite (tx_generation _ T), Hs.
  rewrite <- (Z.add_0_r other).
  pose proof (staged_leaf_ok s 0 T Hs ltac:(lia)) as Hok.
  assert (Hw : page_ok (wr 8 (s.2 (other + 0)) MAP_ALLOC (p + 1))).
  { apply page_ok_wr; [done|by compute|by compute]. }
  apply in_tx_leaf; [by destruct s|by destruct s|lia| | |].
  - unfold leaf_generation. rewrite u64_small by lia.
    apply rd_wr_page_eq; [done|by compute|by compute|simpl; lia].
  - apply page_ok_wr; [done|by compute|by compute].
  - intros q Hq Ei Hst. left. destruct (map_place k other q Hq) as (_ & Hj & _).
    rewrite !map_get_wr in Hst by (done || (by compute) || (left; by compute)).
    unfold map_state, map_leaf. by rewrite Ei.
Qed.

Lemma stamp_state s p q : in_tx s -> staged s -> 0 <= q < k * CybouDB_MAP_LEAF_PAGES ->
  map_state true (stamp_alloc s p).2 other q = map_state true s.2 other q.
Proof using WF.
  intros T Hs Hq. places. pose proof (staged_leaf_ok s 0 T Hs ltac:(lia)) as Hok.
  unfold staged in Hs. destruct (map_place k other q Hq) as (_ & Hj & _).
  unfold map_state, stamp_alloc. simpl. rewrite Hs, Z.add_0_r in *.
  destruct (decide (map_leaf true other q = other)) as [E|E].
  - rewrite E, set_page_eq.
    assert (Hw : page_ok (wr 8 (s.2 other) MAP_ALLOC (p + 1))).
    { apply page_ok_wr; [done|by compute|by compute]. }
    by rewrite !map_get_wr by (done || (by compute) || (left; by compute)).
  - by rewrite set_page_ne.
Qed.

(** The transaction goes on, with all it has taken. *)
Definition goes_on (s s' : state) : Prop :=
  in_tx s' /\ forall q, taken (db_dirty s.1) q -> taken (db_dirty s'.1) q.

Lemma goes_on_refl s : in_tx s -> goes_on s s.
Proof using Type. by split. Qed.

Lemma goes_on_trans s1 s2 s3 : goes_on s1 s2 -> goes_on s2 s3 -> goes_on s1 s3.
Proof using Type. intros [_ H1] [T H2]. split; auto. Qed.

Lemma goes_on_dirty s s' : in_tx s' -> db_dirty s'.1 = db_dirty s.1 -> goes_on s s'.
Proof using Type. intros T E. split; [done|]. intros q. by rewrite E. Qed.

(** The tail of a growth, from a state that has marked the page dirty. *)
Lemma grow_tail e s p : in_tx s -> staged s -> db_alloc s.1 <= p < pages ->
  taken (db_dirty s.1) p ->
  let s' := blank_page (stamp_alloc (span_mark e (raise_alloc s p) p MAP_PAYLOAD) p) p in
  in_tx s' /\ db_dirty s'.1 = db_dirty s.1 /\ handed s' p.
Proof using WF.
  intros T Hs Hp Ht. pose proof (tx_alloc _ T). pose proof (wf_alloc _ _ _ _ _ WF). places.
  pose proof (tx_pages_bound p ltac:(lia)) as Hpk.
  pose proof (in_tx_alloc s (p + 1) T Hs ltac:(lia)) as T1.
  destruct (in_tx_mark e (raise_alloc s p) p MAP_PAYLOAD) as [T2 S2]; try done.
  { intros _. split; [done|]. simpl. lia. }
  pose proof (mark_state e (raise_alloc s p) p MAP_PAYLOAD T1 Hs Hpk ltac:(done)) as M2.
  assert (E2 : db_dirty (span_mark e (raise_alloc s p) p MAP_PAYLOAD).1 = db_dirty s.1 /\
               db_alloc (span_mark e (raise_alloc s p) p MAP_PAYLOAD).1 = p + 1).
  { by rewrite mark_fields. }
  set (s2 := span_mark e (raise_alloc s p) p MAP_PAYLOAD) in *. clearbody s2. destruct E2 as [D2 A2].
  destruct (in_tx_stamp s2 p T2 S2) as [T3 S3]. cbv zeta. split_and!.
  - apply in_tx_store; [done|]. simpl. by rewrite D2.
  - done.
  - split_and!; [done|simpl; lia| |apply set_page_eq].
    unfold blank_page. cbn [snd]. rewrite store_state; [|apply Ht|done].
    by rewrite (stamp_state s2 p p T2 S2).
Qed.

Lemma span_grow_tx e s p : in_tx s -> staged s -> db_alloc s.1 <= p < pages ->
  goes_on s (span_grow e s p).2 /\ taken (db_dirty (span_grow e s p).2.1) p /\
  handed (span_grow e s p).2 p.
Proof using WF.
  intros T Hs Hp. rewrite span_grow_eq. cbv zeta. cbn [snd].
  destruct (in_tx_gap e s p T Hs ltac:(lia)) as (T1 & S1 & D1 & A1).
  set (s1 := reserve_gap e s p) in *. clearbody s1.
  pose proof (tx_alloc _ T). pose proof (wf_alloc _ _ _ _ _ WF). places.
  assert (Hb : 0 <= (if db_alloc s.1 <? p then p - 1 else p)) by (case_if; lia).
  set (b := if db_alloc s.1 <? p then p - 1 else p) in *. clearbody b.
  pose proof (in_tx_dirty s1 b T1 Hb) as T2.
  destruct (takeable (dirty_page s1 b) p T2) as [T3 Ht]; [lia| |].
  { left. apply live_state_free; [apply tx_pages_bound; lia|lia]. }
  destruct (grow_tail e _ p T3 S1 ltac:(simpl; lia) Ht) as (T4 & D4 & H4).
  split; [|split; [by rewrite D4|done]]. split; [done|]. intros q Hq. rewrite D4.
  pose proof (tx_runs _ T1). apply taken_mark; [by apply runs_ok_mark|lia|].
  apply taken_mark; [done|done|]. by rewrite D1.
Qed.

Lemma in_tx_sweep s next n : in_tx s -> 0 <= next -> in_tx (set_sweep s.1 next n, s.2).
Proof using Type. intros T Hn. destruct s as [d m], T. by constructor. Qed.

Lemma reusable_takeable s p : in_tx s -> 0 <= p < db_alloc s.1 -> reusable_page s p = true ->
  live_state p = MAP_RETIRED /\ map_state true s.2 (db_bitmap s.1) p = MAP_RETIRED.
Proof using WF.
  intros T Hp Hr. pose proof (tx_alloc _ T). unfold reusable_page in Hr.
  rewrite (tx_live_root s T) in Hr. rewrite (tx_live_state s T) in Hr by (apply tx_pages_bound; lia).
  by bool_to_prop.
Qed.

Lemma span_reuse_tx s : in_tx s ->
  let '(p, s') := span_reuse s in
  goes_on s s' /\ db_bitmap s'.1 = db_bitmap s.1 /\
  (p <> 0 -> 0 <= p < db_alloc s'.1 /\ live_state p = MAP_RETIRED /\
     map_state true s.2 (db_bitmap s.1) p = MAP_RETIRED).
Proof using WF.
  intros T. pose proof (tx_sweep _ T) as Hn. pose proof (tx_alloc _ T). pose proof (wf_alloc _ _ _ _ _ WF).
  places. destruct s as [d m]. unfold span_reuse. simpl in *.
  destruct (if db_reusable d =? 0 then None else _) as [p|] eqn:E.
  - destruct (db_reusable d =? 0); [done|]. apply find_page_Some in E as [Hp Hr].
    split_and!; [|done|].
    + apply goes_on_dirty; [|done]. apply (in_tx_sweep (d, m)); [done|lia].
    + intros _. split; [simpl; lia|]. apply (reusable_takeable (d, m)); [done|simpl; lia|done].
  - split_and!; [|done|done]. apply goes_on_dirty; [|done]. apply (in_tx_sweep (d, m)); [done|lia].
Qed.

Lemma hand_out_tx e s p : in_tx s -> staged s -> 0 <= p < db_alloc s.1 ->
  live_state p = MAP_FREE \/ live_state p = MAP_RETIRED ->
  goes_on s (hand_out e s p) /\ handed (hand_out e s p) p /\ taken (db_dirty (hand_out e s p).1) p.
Proof using WF.
  intros T Hs Hp Hl. destruct (in_tx_hand_out e s p T Hs Hp Hl) as (T' & Hs' & Ht).
  split; [split; [done|]|by split]. intros q Hq. unfold hand_out. simpl. rewrite mark_fields. simpl.
  apply taken_mark; [apply (tx_runs _ T)|lia|done].
Qed.

(** What an allocation answers: the code, the page and the state. *)
Definition gives (s : state) (r : Z * Z * state) : Prop :=
  let '(rc, p, s') := r in
  goes_on s s' /\
  (rc = CybouDB_OK -> taken (db_dirty s'.1) p /\ handed s' p /\
     map_state true s.2 (db_bitmap s.1) p <> MAP_PAYLOAD).

Lemma gives_full s s' : goes_on s s' -> gives s (CybouDB_E_FULL, 0, s').
Proof using Type. by split. Qed.

Lemma stage_state s p : in_tx s -> 0 <= p < k * CybouDB_MAP_LEAF_PAGES ->
  map_state true (span_stage s).2 (db_bitmap (span_stage s).1) p =
  map_state true s.2 (db_bitmap s.1) p.
Proof using WF.
  intros T Hp. destruct (in_tx_stage s T) as (T1 & S1 & _). pose proof (tx_live_root s T) as El.
  pose proof (tx_db_pages _ T) as Ep.
  destruct (decide (db_bitmap s.1 = live)) as [Eb|Eb].
  - rewrite Eb, (tx_live_state s T) by done. unfold staged in S1. rewrite S1.
    apply staged_as_live. pose proof (leaf_of p Hp) as Hi. destruct (tx_stage _ T) as [(_ & Eo & _)|[Eb' _]].
    2:{ places. lia. }
    destruct (stage_leaves_spec s.2) as [S2 _].
    { intros i Hj. rewrite Eo by done. rewrite (tx_live_leaf s T) by done.
      apply (wf_twins _ _ _ _ _ WF i Hj). }
    unfold span_stage. destruct s as [d m]. rewrite El. simpl in *. rewrite Eb, Z.eqb_refl, Ep. simpl.
    rewrite S2 by done. by apply (tx_live_leaf (d, m) T).
  - unfold span_stage. destruct s as [d m]. rewrite El. simpl in *.
    destruct (Z.eqb_spec live (db_bitmap d)); [congruence|done].
Qed.

Lemma span_alloc_tx e s : in_tx s -> gives s (span_alloc e s).
Proof using WF.
  intros T. unfold span_alloc. pose proof (tx_alloc _ T). pose proof (tx_db_pages _ T) as Ep.
  pose proof (wf_alloc _ _ _ _ _ WF). places.
  destruct (in_tx_stage s T) as (T1 & S1 & D1 & A1 & F1).
  pose proof (goes_on_dirty s _ T1 D1) as G1.
  assert (Hf : db_alloc s.1 <= grow_from s.1) by (unfold grow_from; case_if; lia).
  case_if.
  - destruct (span_grow_tx e (span_stage s) (grow_from s.1) T1 S1) as (G & Ht & Hh);
      [rewrite A1; lia|].
    rewrite span_grow_eq in *. split; [by eapply goes_on_trans|]. intros _. split_and!; [done..|].
    apply (tx_above _ T). lia.
  - case_if; [by apply gives_full, goes_on_refl|]. case_if; [by apply gives_full, goes_on_refl|].
    pose proof (span_reuse_tx (span_stage s) T1) as Hr.
    destruct (span_reuse (span_stage s)) as [p s2]. destruct Hr as (G2 & B2 & Hp).
    pose proof (goes_on_trans _ _ _ G1 G2) as G. destruct (Z.eqb_spec p 0); [by apply gives_full|].
    destruct (Hp ltac:(done)) as (Hp1 & Hp2 & Hp3). destruct G2 as [T2 _].
    pose proof (in_tx_dirty s2 (grow_from s.1) T2 ltac:(lia)) as T3.
    destruct (hand_out_tx e (dirty_page s2 (grow_from s.1)) p T3) as (G3 & Hh & Ht);
      [by unfold staged in *; simpl; rewrite B2|done|by right|].
    unfold publish. rewrite dirty_mark. split.
    2:{ intros _. split_and!; [done|done|]. pose proof (tx_alloc _ T2).
        rewrite stage_state in Hp3; [by rewrite Hp3|done|apply tx_pages_bound; lia]. }
    eapply goes_on_trans; [exact G|]. eapply goes_on_trans; [|exact G3].
    split; [done|]. intros q Hq. apply taken_mark; [apply (tx_runs _ T2)|lia|done].
Qed.

Lemma db_bitmap_alloc_tx e s : in_tx s -> gives s (db_bitmap_alloc e s).
Proof using WF. intros T. unfold db_bitmap_alloc. rewrite (tx_span _ T). by apply span_alloc_tx. Qed.

(** A run of [n] pages. *)
Definition gives_run (s : state) (n : Z) (r : Z * Z * state) : Prop :=
  let '(rc, p, s') := r in
  goes_on s s' /\ (rc = CybouDB_OK -> forall q, p <= q < p + n -> taken (db_dirty s'.1) q).

Lemma gives_run_full s s' n : goes_on s s' -> gives_run s n (CybouDB_E_FULL, 0, s').
Proof using Type. by split. Qed.

Lemma gives_run_trans s s' n r : goes_on s s' -> gives_run s' n r -> gives_run s n r.
Proof using Type.
  destruct r as [[rc p] s2]. intros G [G' H]. split; [by eapply goes_on_trans|done].
Qed.

Lemma alloc_pages_tx e n index f s : in_tx s -> 0 <= index ->
  (forall q, f <= q < f + index -> taken (db_dirty s.1) q) ->
  gives_run s (index + Z.of_nat n) (alloc_pages e n index f s).
Proof using WF.
  revert index f s. induction n as [|n IH]; intros index f s T Hi Hf; simpl alloc_pages.
  { split; [by apply goes_on_refl|]. intros _ q ?. apply Hf. lia. }
  pose proof (db_bitmap_alloc_tx e s T) as Ha. destruct (db_bitmap_alloc e s) as [[rc p] s1].
  destruct Ha as [G Hp]. destruct (Z.eqb_spec rc CybouDB_OK) as [E|]; simpl.
  2:{ split; [done|]. by intros ->. }
  destruct (Hp E) as [Hp' _]. pose proof G as [T1 M1]. case_if.
  - eapply gives_run_trans; [exact G|]. replace (index + Z.of_nat (S n)) with (1 + Z.of_nat n) by lia.
    apply IH; [done|lia|]. intros q ?. by replace q with p by lia.
  - case_if; [|by apply gives_run_full].
    eapply gives_run_trans; [exact G|].
    replace (index + Z.of_nat (S n)) with (index + 1 + Z.of_nat n) by lia.
    apply IH; [done|lia|]. intros q ?. destruct (decide (q = f + index)) as [->|]; [by subst|].
    apply M1, Hf. lia.
Qed.

(** A loop over pages, each of which is taken when it has been done. *)
Lemma claim_run_tx e s f n : in_tx s -> staged s ->
  (forall q, f <= q < f + n -> 0 <= q < db_alloc s.1 /\ live_state q = MAP_RETIRED) ->
  goes_on s (claim_run e s f n) /\
  forall q, f <= q < f + n -> taken (db_dirty (claim_run e s f n).1) q.
Proof using WF.
  intros T Hs Hq. unfold claim_run.
  enough (H : let s' := for_loop (Z.to_nat n) (fun i s => hand_out e s (f + Z.of_nat i)) s in
    goes_on s s' /\ staged s' /\ db_alloc s'.1 = db_alloc s.1 /\
    forall q, f <= q < f + Z.of_nat (Z.to_nat n) -> taken (db_dirty s'.1) q).
  { destruct H as (G & _ & _ & H). split; [done|]. intros q ?. apply H. lia. }
  apply (for_loop_ind (fun i s' => goes_on s s' /\ staged s' /\ db_alloc s'.1 = db_alloc s.1 /\
    forall q, f <= q < f + Z.of_nat i -> taken (db_dirty s'.1) q)).
  - split_and!; [by apply goes_on_refl|done|done|]. intros; lia.
  - intros i s' Hi (G & Hs' & Ha & Ht). destruct (Hq (f + Z.of_nat i)) as [Hp Hl]; [lia|].
    rewrite <- Ha in Hp. destruct G as [T' M'].
    destruct (hand_out_tx e s' _ T' Hs' Hp) as (G2 & (S2 & _) & H2); [by right|].
    split_and!; [eapply goes_on_trans; [by split|done]|done| |].
    { unfold hand_out. simpl. by rewrite mark_fields. }
    intros q ?. destruct (decide (q = f + Z.of_nat i)) as [->|]; [done|]. apply G2, Ht. lia.
Qed.

Lemma run_reclaim_tx e s n : in_tx s -> 0 < n -> gives_run s n (run_reclaim e s n).
Proof using WF.
  intros T Hn. unfold run_reclaim. rewrite (tx_span _ T). simpl.
  case_if; [by apply gives_run_full, goes_on_refl|].
  destruct (in_tx_stage s T) as (T1 & S1 & D1 & _). pose proof (goes_on_dirty s _ T1 D1) as G1.
  pose proof (tx_sweep _ T1) as Hsw. set (s1 := span_stage s) in *.
  assert (Hr : let '(p, s2) := span_reuse_run s1 n in
    goes_on s1 s2 /\ staged s2 /\
    (p <> 0 -> forall q, p <= q < p + n -> 0 <= q < db_alloc s2.1 /\ live_state q = MAP_RETIRED)).
  { destruct s1 as [d m] eqn:Es1. unfold span_reuse_run. simpl in *.
    case_if; [by split_and!; [apply goes_on_refl| |]|].
    destruct (scan_run _ _ _ _ _ _) as [p|] eqn:Er; [|by split_and!; [apply goes_on_refl| |]].
    split_and!; [|done|].
    - apply goes_on_dirty; [|done]. by apply (in_tx_sweep (d, m)).
    - intros _ q Hq. unfold CybouDB_MIN_PAGES in Er.
      apply scan_run_Some in Er as (E1 & E2 & E3); [|lia|lia|by left|intros; lia].
      split; [simpl; lia|]. apply (reusable_takeable (d, m)); [done|simpl; lia|by apply E3]. }
  destruct (span_reuse_run s1 n) as [p s2]. destruct Hr as (G2 & S2 & Hp).
  pose proof (goes_on_trans _ _ _ G1 G2) as G. destruct (Z.eqb_spec p 0); [by apply gives_run_full|].
  destruct (claim_run_tx e s2 p n) as [G3 H3]; [apply G2|done|by apply Hp|].
  split; [by eapply goes_on_trans|done].
Qed.

Lemma db_bitmap_alloc_run_tx e s n : in_tx s ->
  gives_run s (Z.max 1 n) (db_bitmap_alloc_run e s n).
Proof using WF.
  intros T. unfold db_bitmap_alloc_run. destruct (Z.ltb_spec n 2).
  - pose proof (db_bitmap_alloc_tx e s T) as Ha. destruct (db_bitmap_alloc e s) as [[rc p] s1].
    destruct Ha as [G Hp]. split; [done|]. intros E q ?. replace q with p by lia. by apply Hp.
  - replace (Z.max 1 n) with n by lia. cbv zeta. rewrite (tx_span _ T). case_if; [apply run_reclaim_tx; [done|lia]|].
    case_if; [apply run_reclaim_tx; [done|lia]|].
    pose proof (alloc_pages_tx e (Z.to_nat n) 0 0 s T) as Ha.
    replace (0 + Z.of_nat (Z.to_nat n)) with n in Ha by lia. apply Ha; [lia|]. intros; lia.
Qed.

(** ** The operations of a transaction *)

Lemma retire_tx e s p : in_tx s -> 0 <= p < pages -> goes_on s (db_bitmap_retire e s p).
Proof using WF.
  intros T Hp. unfold db_bitmap_retire. rewrite (tx_span _ T).
  destruct (in_tx_stage s T) as (T1 & S1 & D1 & _).
  destruct (in_tx_mark e (span_stage s) p MAP_RETIRED) as [T2 _]; try done.
  { by apply tx_pages_bound. }
  apply goes_on_dirty; [done|]. by rewrite mark_fields.
Qed.

Lemma copy_page_tx s from to : in_tx s -> taken (db_dirty s.1) to -> goes_on s (copy_page s from to).
Proof using WF. intros T Ht. apply goes_on_dirty; [|done]. by apply in_tx_store. Qed.

(** A loop of steps over pages [from .. from + n). *)
Lemma loop_tx (body : Z -> state -> state) n s :
  in_tx s -> (forall i s', 0 <= i < n -> goes_on s s' -> goes_on s' (body i s')) ->
  goes_on s (for_loop (Z.to_nat n) (fun i => body (Z.of_nat i)) s).
Proof using Type.
  intros T H. apply (for_loop_ind (fun _ s' => goes_on s s')); [by apply goes_on_refl|].
  intros i s' Hi G. eapply goes_on_trans; [done|]. apply H; [lia|done].
Qed.

Lemma source_page_range s p : in_tx s -> source_page s p = true -> 0 <= p < pages.
Proof using WF.
  intros T. unfold source_page, CybouDB_MIN_PAGES. pose proof (tx_alloc _ T). intros. bool_to_prop. lia.
Qed.

(** The ids of a verified run do not wrap. *)
Lemma source_run s source n : in_tx s -> 0 <= source < 2 ^ 64 ->
  forallb (fun i => source_page s (u64 (source + i))) (seqZ 0 n) = true ->
  forall i, 0 <= i < n -> 0 <= source + i < pages.
Proof using WF.
  intros T Hs Hall. rewrite forallb_forall in Hall.
  assert (H : forall i, 0 <= i < n -> source_page s (u64 (source + i)) = true).
  { intros i Hi. apply Hall, list_elem_of_In, elem_of_seqZ. lia. }
  intros i Hi. destruct (decide (source + i < 2 ^ 64)).
  - rewrite <- (u64_small (source + i)) by lia. apply (source_page_range s); [done|auto].
  - exfalso. specialize (H (2 ^ 64 - source) ltac:(lia)).
    replace (source + (2 ^ 64 - source)) with (2 ^ 64) in H by lia. done.
Qed.

Lemma fresh_taken s p : in_tx s -> 0 <= p -> p < db_alloc s.1 -> db_bitmap_is_fresh s p = true ->
  taken (db_dirty s.1) p.
Proof using WF.
  intros T Hp Ha Hf. pose proof (tx_alloc _ T). pose proof (tx_floor _ T).
  pose proof (tx_pages_bound p ltac:(lia)) as Hb. unfold db_bitmap_is_fresh, db_bitmap_is_payload in Hf.
  rewrite (tx_span _ T), (tx_live_root s T) in Hf. cbv zeta in Hf.
  rewrite (tx_live_state s T) in Hf by done. apply andb_true_iff in Hf as [Hf1 Hf2].
  bool_to_prop. destruct (tx_fresh _ T p Hb) as [E|[E|]]; [done| | |done].
  - rewrite E in Hf2. simpl in Hf2. rewrite orb_false_r in Hf2. bool_to_prop.
    rewrite live_state_free in E by lia. done.
  - rewrite E in Hf2. simpl in Hf2. rewrite orb_false_r in Hf2. bool_to_prop.
    rewrite live_state_free in E by lia. done.
Qed.

(** The page is payload of the staged map only. *)
Lemma handed_out_fresh s p : in_tx s -> staged s -> p < db_alloc s.1 ->
  map_state true s.2 other p = MAP_PAYLOAD -> taken (db_dirty s.1) p ->
  db_bitmap_is_fresh s p = true.
Proof using WF.
  intros T Hs Ha Hst (Hp & Hl & _). places. unfold staged in Hs.
  unfold db_bitmap_is_fresh, db_bitmap_is_payload. rewrite (tx_span _ T), (tx_live_root s T), Hs, Hst.
  rewrite (tx_live_state s T) by (apply tx_pages_bound; lia). cbv zeta.
  rewrite (proj2 (Z.ltb_lt p (db_alloc s.1))) by done. simpl.
  destruct Hl as [-> | ->]; apply orb_true_r.
Qed.


(** ** Sealing *)

Lemma page_ok_seal leaf : page_ok leaf -> page_ok (seal_leaf leaf).
Proof using Type. intros. apply page_ok_wr; [done|by compute|by compute]. Qed.

Lemma in_tx_seal s : in_tx s -> in_tx (db_bitmap_seal s) /\ (db_bitmap_seal s).1 = s.1.
Proof using WF.
  intros T. pose proof (tx_span _ T) as Hsp. pose proof (tx_db_pages _ T) as Hp.
  pose proof (tx_generation _ T) as Hg. pose proof (wf_generation _ _ _ _ _ WF) as Hgr.
  destruct s as [d m]. unfold db_bitmap_seal. simpl in *. rewrite Hsp, Hp, Hg.
  case_if; [done|]. rewrite u64_small by (unfold UINT64_MAX in *; lia). split; [|done].
  apply (for_loop_ind (fun _ m' => in_tx (d, m'))); [done|].
  intros i m' Hi T'. case_if; [|done]. places.
  destruct (decide (db_bitmap d = other)) as [Eb|Eb].
  - rewrite Eb in *. pose proof (staged_leaf_ok (d, m') (Z.of_nat i) T' Eb ltac:(lia)) as Hok.
    simpl in Hok. apply in_tx_leaf; [done|done|lia| |by apply page_ok_seal|].
    + unfold leaf_generation, seal_leaf in *.
      rewrite rd_wr_page_ne; [done|done|by compute|by compute|by compute|left; by compute].
    + intros p Hpk Ei Hst. left. destruct (map_place k other p Hpk) as (_ & Hj & _).
      unfold seal_leaf in Hst. rewrite map_get_wr in Hst; [|done|done|by compute|right; by compute].
      unfold map_state, map_leaf. by rewrite Ei.
  - exfalso. destruct (tx_stage _ T') as [[Eb' _]|[Eb' _]]; simpl in *; [|congruence].
    rewrite Eb' in E0. pose proof (tx_live_leaf (d, m') T' (Z.of_nat i) ltac:(lia)) as El. simpl in El.
    rewrite El in E0. destruct (wf_live_leaf _ _ _ _ _ WF (Z.of_nat i)) as [Hl _]; [lia|]. lia.
Qed.

End transaction.

(** ** A transaction *)

(** A call of the operations above, with what the system answers it. *)
Inductive op :=
| OpAlloc (e : env)
| OpAllocRun (e : env) (n : Z)
| OpCopy (e : env) (source : Z)
| OpCopyRun (e : env) (source n : Z)
| OpWrite (p : Z) (buffer : page)
| OpRoot (p : Z)
| OpRetire (e : env) (p : Z).

Definition run_op (s : state) (o : op) : state :=
  match o with
  | OpAlloc e => (db_cow_alloc_page e s).2
  | OpAllocRun e n => (db_cow_alloc_run e s n).2
  | OpCopy e source => (db_cow_copy_page e s source).2
  | OpCopyRun e source n => (db_cow_copy_run e s source n).2
  | OpWrite p buffer => (db_cow_write_page s p buffer).2
  | OpRoot p => (db_cow_set_root s p).2
  | OpRetire e p => db_bitmap_retire e s p
  end.

(** Page numbers are words; [db_bitmap_retire], which checks nothing, is called
    with pages of the file. *)
Definition op_ok (pages : Z) (o : op) : Prop :=
  match o with
  | OpCopyRun _ source _ => 0 <= source < 2 ^ 64
  | OpWrite p _ => 0 <= p
  | OpRetire _ p => 0 <= p < pages
  | _ => True
  end.

Section operations.
Context (m0 : mem) (pages a0 live g : Z) (WF : map_wf m0 pages a0 live g) (cur : Z).
#[local] Notation in_tx := (in_tx m0 pages a0 live g cur).
#[local] Notation goes_on := (goes_on m0 pages a0 live g cur).
#[local] Notation taken := (taken m0 pages live).

Lemma cow_alloc_tx e s : in_tx s -> gives m0 pages a0 live g cur s (db_cow_alloc_page e s).
Proof using WF.
  intros T. unfold db_cow_alloc_page. case_if; [|by apply db_bitmap_alloc_tx].
  split; [by apply goes_on_refl|]. bool_to_prop. congruence.
Qed.

Lemma cow_alloc_run_tx e s n : in_tx s ->
  gives_run m0 pages a0 live g cur s (Z.max 1 n) (db_cow_alloc_run e s n).
Proof using WF.
  intros T. unfold db_cow_alloc_run. case_if; [|by apply db_bitmap_alloc_run_tx].
  split; [by apply goes_on_refl|]. bool_to_prop. congruence.
Qed.

Lemma cow_copy_tx e s source : in_tx s -> goes_on s (db_cow_copy_page e s source).2.
Proof using WF.
  intros T. unfold db_cow_copy_page. case_if; [by apply goes_on_refl|].
  destruct (source_page s source) eqn:Hs; simpl negb; cbv iota; [|by apply goes_on_refl].
  pose proof (source_page_range _ _ _ _ _ WF _ s source T Hs) as Hr.
  pose proof (cow_alloc_tx e s T) as Ha. destruct (db_cow_alloc_page e s) as [[rc p] s1].
  destruct Ha as [G Hp]. destruct (Z.eqb_spec rc CybouDB_OK) as [E'|]; [|done].
  destruct (Hp E') as [Ht _]. simpl. eapply goes_on_trans; [exact G|].
  pose proof (copy_page_tx _ _ _ _ _ WF _ s1 source p (proj1 G) Ht) as G2.
  eapply goes_on_trans; [exact G2|]. apply retire_tx; [done|apply G2|done].
Qed.

Lemma cow_copy_run_tx e s source n : in_tx s -> 0 <= source < 2 ^ 64 ->
  goes_on s (db_cow_copy_run e s source n).2.
Proof using WF.
  intros T Hsrc. unfold db_cow_copy_run. case_if; [by apply cow_copy_tx|].
  destruct (forallb _ _) eqn:Hall; simpl negb; cbv iota; [|by apply goes_on_refl].
  pose proof (source_run _ _ _ _ _ WF _ s source n T Hsrc Hall) as Hr.
  pose proof (cow_alloc_run_tx e s n T) as Ha. destruct (db_cow_alloc_run e s n) as [[rc p] s1].
  destruct Ha as [G Hp]. destruct (Z.eqb_spec rc CybouDB_OK) as [E'|]; [|done].
  specialize (Hp E'). replace (Z.max 1 n) with n in Hp by lia. cbn [negb snd].
  eapply goes_on_trans; [exact G|].
  assert (G2 : goes_on s1 (copy_pages (Z.to_nat n) s1 source p)).
  { apply (loop_tx _ _ _ _ _ _ (fun i s => copy_page s (source + i) (p + i))); [apply G|].
    intros i s' Hi [T' M']. apply copy_page_tx; [done|done|]. apply M', Hp. lia. }
  eapply goes_on_trans; [exact G2|].
  apply (loop_tx _ _ _ _ _ _ (fun i s => db_bitmap_retire e s (source + i))); [apply G2|].
  intros i s' Hi [T' _]. apply retire_tx; [done|done|auto].
Qed.

Lemma cow_write_tx s p buffer : in_tx s -> 0 <= p -> goes_on s (db_cow_write_page s p buffer).2.
Proof using WF.
  intros T Hp. unfold db_cow_write_page. case_if; [by apply goes_on_refl|].
  destruct (Z.ltb_spec p (db_alloc s.1)); [|by apply goes_on_refl]. simpl negb. cbv iota.
  destruct (db_bitmap_is_fresh s p) eqn:Hf; [|by apply goes_on_refl]. simpl.
  apply goes_on_dirty; [|done]. apply in_tx_store; [done|done|]. by eapply fresh_taken.
Qed.

Lemma cow_root_tx s p : in_tx s -> goes_on s (db_cow_set_root s p).2.
Proof using WF.
  intros T. unfold db_cow_set_root.
  assert (G : forall v, 0 <= v < 2 ^ 64 -> goes_on s (set_root s.1 v, s.2)).
  { intros v Hv. apply goes_on_dirty; [|done]. destruct s as [d m], T. by constructor. }
  case_if; [by apply goes_on_refl|]. case_if; [by apply G|].
  destruct (source_page s p) eqn:Hs; [|by apply goes_on_refl]. apply G.
  pose proof (source_page_range _ _ _ _ _ WF _ s p T Hs). pose proof (wf_pages _ _ _ _ _ WF).
  unfold CybouDB_SPAN_MAX_PAGES, CybouDB_MAP_LEAF_PAGES, CybouDB_COW_MAX_PAGES, MAP_CRC, MAP_DATA in *. lia.
Qed.

Lemma run_op_tx s o : in_tx s -> op_ok pages o -> goes_on s (run_op s o).
Proof using WF.
  intros T Ho. destruct o as [e|e n|e source|e source n|p buffer|p|e p]; simpl in *.
  - pose proof (cow_alloc_tx e s T) as H. by destruct (db_cow_alloc_page e s) as [[??]?], H.
  - pose proof (cow_alloc_run_tx e s n T) as H. by destruct (db_cow_alloc_run e s n) as [[??]?], H.
  - by apply cow_copy_tx.
  - by apply cow_copy_run_tx.
  - by apply cow_write_tx.
  - by apply cow_root_tx.
  - by apply retire_tx.
Qed.

Lemma run_ops_tx ops s : in_tx s -> Forall (op_ok pages) ops -> goes_on s (fold_left run_op ops s).
Proof using WF.
  intros T H. revert s T. induction H as [|o ops Ho Hops IH]; intros s T; simpl.
  - by apply goes_on_refl.
  - pose proof (run_op_tx s o T Ho) as G. eapply goes_on_trans; [exact G|]. apply IH, G.
Qed.

End operations.
