(* ===== verification/Recovery.v ===== *)
(** * Recovery: what a crash leaves, and what [db_open] makes of it

    A crash may leave each page of the file in any state it had since it was last
    made durable.  Whatever is left, [db_open] finds the generation that was live
    before the transaction, with every page of it as it was, or the generation
    the commit was publishing, with every page of it as it was written. *)

From S2P Require Import Prelude Crc32c AllocMap Storage Superblock Transaction.

(** ** Opening a file *)

(** What a walk of the graph promises: with nothing published yet it looks at the
    map the candidate names and at the pages that map calls payload only, since
    every walker asks [db_bitmap_candidate_payload] before it follows a page id;
    and there is nothing to walk below an empty root. *)
Class WalkLocal (W : Walk) : Prop := {
  walk_local : forall d m m' sb, has_span d = true -> db_sb_page d = 0 ->
    0 <= db_bitmap_leaves (rd 8 sb SB_TOTAL_PAGES) ->
    rd 8 sb SB_ALLOC_PAGES <=
      db_bitmap_leaves (rd 8 sb SB_TOTAL_PAGES) * CybouDB_MAP_LEAF_PAGES ->
    (forall i, 0 <= i < db_bitmap_leaves (rd 8 sb SB_TOTAL_PAGES) ->
       m (rd 8 sb SB_BITMAP_ROOT + i) = m' (rd 8 sb SB_BITMAP_ROOT + i)) ->
    (forall p, db_bitmap_candidate_payload d m sb p = true -> m p = m' p) ->
    db_catalog_validate d m sb = db_catalog_validate d m' sb;
  walk_empty : forall d m sb, rd 8 sb SB_ROOT_PAGE = 0 -> db_catalog_validate d m sb = true
}.

Lemma forallb_ext_in {A} (f f' : A -> bool) l :
  (forall x, In x l -> f x = f' x) -> forallb f l = forallb f' l.
Proof.
  induction l as [|x l IH]; intros H; simpl; [done|]. rewrite H by (by left).
  f_equal. apply IH. intros y Hy. apply H. by right.
Qed.

Lemma in_seqZ i n : In i (seqZ 0 n) <-> 0 <= i < n.
Proof. rewrite <- list_elem_of_In, elem_of_seqZ. lia. Qed.

Section opening.
Context {W : Walk} {L : WalkLocal W}.

Lemma span_valid_local d m m' sb alloc : db_prove d = false ->
  (forall i, 0 <= i < db_bitmap_leaves (rd 8 sb SB_TOTAL_PAGES) ->
     m (rd 8 sb SB_BITMAP_ROOT + i) = m' (rd 8 sb SB_BITMAP_ROOT + i)) ->
  span_valid (d, m) sb alloc = span_valid (d, m') sb alloc.
Proof using Type.
  intros Hp H. unfold span_valid. f_equal. apply forallb_ext_in. intros i Hi%in_seqZ.
  unfold span_leaf_ok, leaf_proved. simpl. rewrite Hp. simpl. by rewrite (H i Hi).
Qed.

Lemma candidate_local d m m' sb p : has_span d = true ->
  0 <= db_bitmap_leaves (rd 8 sb SB_TOTAL_PAGES) ->
  rd 8 sb SB_ALLOC_PAGES <= db_bitmap_leaves (rd 8 sb SB_TOTAL_PAGES) * CybouDB_MAP_LEAF_PAGES ->
  (forall i, 0 <= i < db_bitmap_leaves (rd 8 sb SB_TOTAL_PAGES) ->
     m (rd 8 sb SB_BITMAP_ROOT + i) = m' (rd 8 sb SB_BITMAP_ROOT + i)) ->
  db_bitmap_candidate_payload d m sb p = db_bitmap_candidate_payload d m' sb p.
Proof using Type.
  intros Hs Hk Ha H. unfold db_bitmap_candidate_payload. rewrite Hs.
  case_if; [done|]. case_if; [done|]. cbv zeta.
  rewrite (map_state_ext m m' (rd 8 sb SB_BITMAP_ROOT) p); [done|].
  apply H. unfold CybouDB_MIN_PAGES, CybouDB_MAP_LEAF_PAGES, CybouDB_COW_MAX_PAGES, MAP_CRC, MAP_DATA in *.
  lia.
Qed.

(** The verdict on a candidate depends on its own pages only. *)
Lemma validate_local d m m' sb : has_span d = true -> db_prove d = false -> db_sb_page d = 0 ->
  1 <= rd 8 sb SB_TOTAL_PAGES <= CybouDB_SPAN_MAX_PAGES ->
  rd 8 sb SB_ALLOC_PAGES <= rd 8 sb SB_TOTAL_PAGES ->
  (forall i, 0 <= i < db_bitmap_leaves (rd 8 sb SB_TOTAL_PAGES) ->
     m (rd 8 sb SB_BITMAP_ROOT + i) = m' (rd 8 sb SB_BITMAP_ROOT + i)) ->
  (forall p, db_bitmap_candidate_payload d m sb p = true -> m p = m' p) ->
  db_bitmap_validate (d, m) sb = db_bitmap_validate (d, m') sb.
Proof using L.
  intros Hs Hp Hn Ht Ha H Hpay. unfold db_bitmap_validate, map_valid, cs_retires_are_unreachable.
  simpl. rewrite Hp. simpl. rewrite Hs. rewrite (span_valid_local d m m' sb _ Hp H).
  pose proof (leaves_bounds _ Ht) as [Hk1 Hk2].
  rewrite (candidate_local d m m' sb (rd 8 sb SB_ROOT_PAGE)); [|done|lia|lia|done].
  by rewrite (walk_local d m m' sb Hs Hn ltac:(lia) ltac:(lia) H Hpay).
Qed.

(** A candidate that is accepted has the geometry of the file. *)
Lemma accepted_geometry d m sb : has_span d = true -> bytes sb ->
  (db_features d .& CybouDB_FEATURE_ENCRYPTION) = 0 ->
  db_bitmap_validate (d, m) sb = true -> check_geometry sb (db_size d) = CybouDB_OK.
Proof using Type.
  intros Hs Hb He Hv. unfold db_bitmap_validate in Hv. bool_to_prop.
  assert (Hm : map_valid (d, m) sb = true).
  { apply orb_true_iff in H. destruct H as [H|H]; [|done]. bool_to_prop. simpl in H.
    unfold has_span in Hs. rewrite H in Hs. done. }
  unfold map_valid in Hm. simpl in Hm. rewrite Hs, He in Hm. simpl in Hm. rewrite orb_false_r in Hm.
  bool_to_prop. unfold check_geometry.
  unfold CybouDB_SPAN_MAX_PAGES, CybouDB_MAP_LEAF_PAGES, CybouDB_COW_MAX_PAGES, CybouDB_COW_MIN_PAGES,
    MAP_CRC, MAP_DATA in *.
  rewrite (proj2 (Z.ltb_ge _ _)) by (unfold CybouDB_MAX_PAGES; lia).
  rewrite (proj2 (Z.eqb_eq _ (db_size d))) by done. simpl.
  rewrite (proj2 (Z.ltb_ge _ CybouDB_MIN_PAGES)) by (unfold CybouDB_MIN_PAGES; lia).
  rewrite (proj2 (Z.ltb_ge _ (rd 8 sb SB_ALLOC_PAGES))) by lia. simpl.
  match goal with H : rd 8 sb SB_FREELIST_ROOT = 0 |- _ => rewrite H end. simpl.
  match goal with H : rd 8 sb SB_FEATURE_ROOT = 0 |- _ => rewrite H end. simpl.
  match goal with H : (rd 8 sb SB_ROOT_PAGE =? 0) || _ = true |- _ =>
    apply orb_true_iff in H as [H|H] end; bool_to_prop.
  - match goal with H : rd 8 sb SB_ROOT_PAGE = 0 |- _ => rewrite H end. done.
  - unfold db_bitmap_candidate_payload in *.
    destruct (Z.ltb_spec (rd 8 sb SB_ROOT_PAGE) CybouDB_MIN_PAGES); [done|].
    destruct (Z.leb_spec (rd 8 sb SB_ALLOC_PAGES) (rd 8 sb SB_ROOT_PAGE)); [done|].
    rewrite (proj2 (Z.leb_le _ _)) by done. rewrite (proj2 (Z.ltb_lt _ _)) by done.
    by rewrite orb_true_r.
Qed.

Lemma validate_map d m sb : has_span d = true -> db_bitmap_validate (d, m) sb = true ->
  map_valid (d, m) sb = true.
Proof using Type.
  intros Hs Hv. unfold db_bitmap_validate in Hv. rewrite !andb_true_iff in Hv. destruct Hv as [[Hv _] _].
  apply orb_true_iff in Hv as [Hv|]; [|done]. apply Z.eqb_eq in Hv. cbn [fst] in Hv.
  unfold has_span in Hs. by rewrite Hv in Hs.
Qed.

(** A leaf of the candidate's own generation was looked at entry by entry. *)
Lemma accepted_leaf d m sb i : has_span d = true -> map_valid (d, m) sb = true ->
  let pages := rd 8 sb SB_TOTAL_PAGES in
  let leaf := m (rd 8 sb SB_BITMAP_ROOT + i) in
  0 <= i < db_bitmap_leaves pages -> rd 8 sb SB_GENERATION = leaf_generation leaf ->
  page_ok leaf -> leaf_wf leaf pages (rd 8 sb SB_ALLOC_PAGES) i.
Proof using Type.
  intros Hs Hm pages leaf Hi Hg Hok.
  unfold map_valid in Hm. cbn [fst snd] in Hm. rewrite Hs, !andb_true_iff in Hm.
  destruct Hm as [[_ Hm] _]. unfold span_valid in Hm. cbv zeta in Hm. rewrite !andb_true_iff in Hm.
  destruct Hm as [[Hf%Z.leb_le _] Hall]. rewrite forallb_forall in Hall.
  specialize (Hall i (proj2 (in_seqZ _ _) Hi)). unfold span_leaf_ok in Hall. cbn [fst snd] in Hall.
  cbv zeta in Hall. fold leaf in Hall. apply andb_true_iff in Hall as [_ Hall].
  unfold db_bitmap_deep in Hall. rewrite Hg, Z.eqb_refl, orb_true_r in Hall.
  rewrite !andb_true_iff in Hall. destruct Hall as [_ Hall].
  change (2 * db_bitmap_leaves (rd 8 sb SB_TOTAL_PAGES) + CybouDB_MIN_PAGES) with (first_payload pages) in *.
  intros j Hj. cbv zeta.
  destruct (Z.ltb_spec (i * CybouDB_MAP_LEAF_PAGES) (rd 8 sb SB_ALLOC_PAGES)) as [Ha|Ha].
  - unfold leaf_entries_ok in Hall. rewrite forallb_forall in Hall.
    specialize (Hall j (proj2 (in_seqZ _ _) Hj)). unfold entry_ok in Hall.
    split; intros Hp; revert Hall.
    + rewrite (proj2 (Z.leb_gt _ _)), (proj2 (Z.ltb_lt _ _)) by lia. apply Z.eqb_eq.
    + rewrite (proj2 (Z.leb_le _ _)) by lia. apply Z.eqb_eq.
  - split; intros Hp; [lia|]. by apply blank_free.
Qed.

(** The candidate the other does not beat. *)
Definition beaten (d : db) (m : mem) (n : Z) : Prop :=
  let o := m (3 - n) in
  sb_valid o = false \/ db_bitmap_validate (d, m) o = false \/
  rd 8 o SB_GENERATION < rd 8 (m n) SB_GENERATION \/
  (rd 8 o SB_GENERATION = rd 8 (m n) SB_GENERATION /\ n = CybouDB_SB_PAGE_A).

#[local] Arguments Z.max : simpl never.

Lemma choose_newest d m n : n = CybouDB_SB_PAGE_A \/ n = CybouDB_SB_PAGE_B ->
  sb_valid (m n) = true -> db_bitmap_validate (d, m) (m n) = true -> beaten d m n ->
  ch_page (choose d m) = n /\ rd 8 (m n) SB_ALLOC_PAGES <= ch_floor (choose d m).
Proof using Type.
  intros Hn Hsb Hv Hb. unfold choose, consider, beaten in *. simpl.
  destruct Hn as [-> | ->]; unfold CybouDB_SB_PAGE_A, CybouDB_SB_PAGE_B in *;
    rewrite Hsb, Hv; simpl.
  - change (3 - 1) with 2 in Hb. destruct (sb_valid (m 2)) eqn:E2; simpl; [|split; [done|lia]].
    destruct (db_bitmap_validate (d, m) (m 2)) eqn:V2; simpl; [|split; [done|lia]].
    destruct Hb as [|[|Hb]]; try done. rewrite (proj2 (Z.ltb_ge _ _)) by lia. split; [done|lia].
  - change (3 - 2) with 1 in Hb. destruct (sb_valid (m 1)) eqn:E1; simpl; [|split; [done|lia]].
    destruct (db_bitmap_validate (d, m) (m 1)) eqn:V1; simpl; [|split; [done|lia]].
    destruct Hb as [|[|Hb]]; try done. rewrite (proj2 (Z.ltb_lt _ _)) by lia. split; [done|lia].
Qed.

End opening.

(** ** What a crash leaves *)

(** A page lies within one of the ranges of bytes. *)
Definition in_ranges (ranges : list (Z * Z)) (p : Z) : bool :=
  existsb (fun r => (r.1 <=? p .<< 12) && ((p + 1) .<< 12 <=? r.2)) ranges.

(** The states a page may be found in: those it had since a barrier covered it,
    [vs] up to now. *)
Fixpoint versions (tr : list event) (p : Z) (vs : list page) : list page :=
  match tr with
  | [] => vs
  | Stored m :: tr' => versions tr' p (vs ++ [m p])
  | Synced ranges :: tr' =>
      versions tr' p (if in_ranges ranges p then [List.last vs []] else vs)
  end.

(** A file that a crash may leave after the events [tr].  A payload page that was
    being written may hold anything. *)
Definition crash_image (m : mem) (pages : Z) (tr : list event) (D : mem) : Prop :=
  forall p, In (D p) (versions tr p [m p]) \/
    (first_payload pages <= p /\
     exists v w, In v (versions tr p [m p]) /\ In w (versions tr p [m p]) /\ v <> w).

Lemma versions_app tr1 tr2 p vs : versions (tr1 ++ tr2) p vs = versions tr2 p (versions tr1 p vs).
Proof.
  revert vs. induction tr1 as [|[m|r] tr1 IH]; intros vs; simpl; [done|apply IH|apply IH].
Qed.

Lemma versions_stored ms p vs : versions (map Stored ms) p vs = vs ++ map (fun m => m p) ms.
Proof.
  revert vs. induction ms as [|m ms IH]; intros vs; simpl; [by rewrite app_nil_r|].
  rewrite IH, <- app_assoc. done.
Qed.

(** The states of the file during the operations. *)
Fixpoint op_states (ops : list op) (s : state) : list mem :=
  match ops with
  | [] => []
  | o :: ops' => let s' := run_op s o in s'.2 :: op_states ops' s'
  end.

(** ** Which files a transaction can leave *)

Section images.
Context (m0 : mem) (pages a0 live g : Z) (WF : map_wf m0 pages a0 live g) (cur : Z).
#[local] Notation k := (db_bitmap_leaves pages).
#[local] Notation other := (other_root k live).
#[local] Notation first := (first_payload pages).
#[local] Notation in_tx := (in_tx m0 pages a0 live g cur).
#[local] Notation taken := (taken m0 pages live).

(** Every page outside the staged half and the pages that were taken is as it
    was; a leaf of the staged half is one it has been. *)
Record tx_image (d : dirty) (m : mem) : Prop := mk_tx_image {
  im_pages : forall p, other_page pages live p \/ m p = m0 p \/ taken d p;
  im_leaves : forall i, 0 <= i < k ->
    m (other + i) = m0 (other + i) \/ staged_leaf m0 live g (m (other + i)) i
}.

Lemma in_tx_image s d : in_tx s -> (forall p, taken (db_dirty s.1) p -> taken d p) ->
  tx_image d s.2.
Proof using Type.
  intros T Hd. constructor.
  - intros p. destruct (tx_pages _ _ _ _ _ _ _ T p) as [|[|]]; auto.
  - intros i Hi. destruct (tx_stage _ _ _ _ _ _ _ T) as [(_ & Ho & _)|[_ Hl]]; auto.
Qed.

Lemma image_start d : tx_image d m0.
Proof using Type. constructor; auto. Qed.

(** The states during the operations, and after sealing. *)
Lemma op_states_image ops s d : in_tx s -> Forall (op_ok pages) ops ->
  (forall p, taken (db_dirty (fold_left run_op ops s).1) p -> taken d p) ->
  Forall (tx_image d) (op_states ops s).
Proof using WF.
  intros T Ho Hd. revert s T Hd. induction Ho as [|o ops Ho Hops IH]; intros s T Hd; simpl in *.
  { by constructor. }
  pose proof (run_op_tx _ _ _ _ _ WF _ s o T Ho) as G1.
  pose proof (run_ops_tx _ _ _ _ _ WF _ ops _ (proj1 G1) Hops) as G2.
  constructor; [|by apply IH; [apply G1|]].
  apply in_tx_image; [apply G1|]. intros p Hp. apply Hd, G2, Hp.
Qed.

(** A page of metadata outside the staged half. *)
Lemma image_meta d m p : tx_image d m -> 0 <= p < first -> ~ other_page pages live p -> m p = m0 p.
Proof using Type.
  intros I Hp Ho. destruct (im_pages _ _ I p) as [|[|[Ht _]]]; [done|done|lia].
Qed.

Lemma image_live_leaf d m i : tx_image d m -> 0 <= i < k -> m (live + i) = m0 (live + i).
Proof using WF.
  intros I Hi. pose proof (k_bounds _ _ _ _ _ WF). pose proof (first_eq pages).
  pose proof (halves _ _ _ _ _ WF). apply (image_meta d); [done|lia|unfold other_page; lia].
Qed.

Lemma image_payload d m p : tx_image d m -> first <= p -> live_state m0 live p = MAP_PAYLOAD ->
  m p = m0 p.
Proof using WF.
  intros I Hp Hs. pose proof (halves _ _ _ _ _ WF). pose proof (first_eq pages).
  destruct (im_pages _ _ I p) as [Ho|[|(_ & [E|E] & _)]]; try done.
  - unfold other_page in Ho. pose proof (k_bounds _ _ _ _ _ WF). lia.
  - by rewrite E in Hs.
  - by rewrite E in Hs.
Qed.

(** What a crash leaves of them is one of them. *)
Lemma crash_tx_image ms d D : Forall (tx_image d) ms -> crash_image m0 pages (map Stored ms) D ->
  tx_image d D.
Proof using WF.
  intros Hms HD. pose proof (halves _ _ _ _ _ WF) as Hh. pose proof (first_eq pages) as Hf.
  pose proof (k_bounds _ _ _ _ _ WF) as Hk.
  assert (Hv : forall p v, In v (versions (map Stored ms) p [m0 p]) ->
    exists m, tx_image d m /\ v = m p).
  { intros p v Hin. rewrite versions_stored in Hin. destruct Hin as [<-|Hin].
    - exists m0. split; [apply image_start|done].
    - apply in_map_iff in Hin as (m & <- & Hin). exists m. split; [|done].
      rewrite Forall_forall in Hms. by apply Hms. }
  constructor.
  - intros p. destruct (HD p) as [Hin|(Hp & v & w & Hin1 & Hin2 & Hne)].
    + destruct (Hv p _ Hin) as (m & I & ->). apply (im_pages _ _ I).
    + right. right. destruct (Hv p _ Hin1) as (m1 & I1 & ->), (Hv p _ Hin2) as (m2 & I2 & ->).
      destruct (im_pages _ _ I1 p) as [Ho|[E1|]]; [unfold other_page in Ho; lia| |done].
      destruct (im_pages _ _ I2 p) as [Ho|[E2|]]; [unfold other_page in Ho; lia|congruence|done].
  - intros i Hi. destruct (HD (other + i)) as [Hin|(Hp & _)]; [|lia].
    destruct (Hv _ _ Hin) as (m & I & ->). by apply (im_leaves _ _ I).
Qed.

(** The map pair of such a file is still one the engine wrote. *)
Lemma image_map_wf d m : tx_image d m -> map_wf m pages a0 live g.
Proof using WF.
  intros I. pose proof (halves _ _ _ _ _ WF) as Hh. pose proof (first_eq pages) as Hf.
  pose proof (k_bounds _ _ _ _ _ WF) as Hk. pose proof WF as WF'. destruct WF'. constructor; try done.
  - intros p Hp. unfold CybouDB_MIN_PAGES in *.
    destruct (decide (other <= p < other + k)) as [Ho|Ho].
    + replace p with (other + (p - other)) by lia.
      destruct (im_leaves _ _ I (p - other) ltac:(lia)) as [-> |[[_ H]| ->]]; [|done|];
        apply wf_leaves; lia.
    + rewrite (image_meta d); [|done|lia|done]. apply wf_leaves. lia.
  - intros i Hi. rewrite (image_live_leaf d) by done. by apply wf_live_leaf.
  - intros i Hi leaf. subst leaf. rewrite (image_live_leaf d m i I Hi).
    destruct (im_leaves _ _ I i Hi) as [-> |[[E _]| ->]]; [by apply wf_twins| |done].
    rewrite E. destruct (wf_live_leaf i Hi) as [Hl _]. lia.
Qed.

End images.

(** The pair is in the pages behind the superblocks. *)
Lemma map_wf_ext m m' pages alloc live g : map_wf m pages alloc live g ->
  (forall p, CybouDB_MIN_PAGES <= p < first_payload pages -> m' p = m p) ->
  map_wf m' pages alloc live g.
Proof.
  intros WF E. pose proof (halves _ _ _ _ _ WF). pose proof (first_eq pages).
  pose proof (k_bounds _ _ _ _ _ WF). destruct WF. unfold CybouDB_MIN_PAGES in *. constructor; try done.
  - intros p Hp. rewrite E by done. auto.
  - intros i Hi. rewrite E by lia. auto.
  - intros i Hi. cbv zeta. rewrite !E by lia. by apply wf_twins.
Qed.

(** The verdict on a map needs no proof of its changes to stand, and depends on
    what the superblock says only. *)
Section transfer.
Context (d d' x : db) (m m' : mem) (sb sb' : page) (gen : Z).
Hypothesis Hs : has_span d = true.
Hypothesis Hs' : has_span d' = true.
Hypothesis Hsize : db_size d' = db_size d.
Hypothesis Hverify : db_verify d' = db_verify d.
Hypothesis Hprove : db_prove d' = false.
Hypothesis S : sb_says sb x gen.
Hypothesis S' : sb_says sb' x gen.
Hypothesis Hleaves : forall i, 0 <= i < db_bitmap_leaves (db_pages x) ->
  m' (db_bitmap x + i) = m (db_bitmap x + i).

Lemma span_leaf_transfer alloc first i : 0 <= i < db_bitmap_leaves (db_pages x) ->
  span_leaf_ok (d, m) sb alloc first i = true -> span_leaf_ok (d', m') sb' alloc first i = true.
Proof using Hprove Hleaves Hverify S S'.
  intros Hi. destruct S as [G1 P1 A1 F1 R1 B1 _ _], S' as [G2 P2 A2 F2 R2 B2 _ _].
  unfold span_leaf_ok, leaf_header_ok, db_bitmap_deep, leaf_proved. cbn [fst snd].
  rewrite Hprove, Hverify, B1, B2, G1, G2, P1, P2, Hleaves by done.
  cbn [negb orb]. intros H. apply andb_true_iff in H as [H1 H2]. rewrite H1. cbn [andb].
  destruct (negb (db_verify d =? 0) || _); [|done].
  apply andb_true_iff in H2 as [H2 H3]. apply andb_true_iff in H2 as [H2 _]. by rewrite H2, H3.
Qed.

Lemma span_transfer alloc : span_valid (d, m) sb alloc = true -> span_valid (d', m') sb' alloc = true.
Proof using Hprove Hleaves Hverify S S'.
  unfold span_valid. pose proof (says_pages _ _ _ S) as P1. pose proof (says_pages _ _ _ S') as P2.
  pose proof (says_bitmap _ _ _ S) as B1. pose proof (says_bitmap _ _ _ S') as B2.
  rewrite B1, B2, P1, P2. cbv zeta. intros H. apply andb_true_iff in H as [H1 H2]. rewrite H1. cbn [andb].
  rewrite forallb_forall in H2. apply forallb_forall. intros i Hi. pose proof Hi as Hi'%in_seqZ.
  apply span_leaf_transfer; [done|auto].
Qed.

Lemma map_valid_transfer : 1 <= db_pages x <= CybouDB_SPAN_MAX_PAGES -> db_alloc x <= db_pages x ->
  map_valid (d, m) sb = true -> map_valid (d', m') sb' = true.
Proof using Hs Hs' Hsize Hprove Hleaves Hverify S S'.
  intros Hp Ha. pose proof (span_transfer (db_alloc x)) as Hspan. pose proof (leaves_bounds _ Hp) as [K1 K2].
  assert (Hc : db_bitmap_candidate_payload d m sb (db_root x) =
               db_bitmap_candidate_payload d' m' sb' (db_root x)).
  { rewrite (candidate_local d m m' sb).
    - destruct S as [G1 P1 A1 F1 R1 B1 _ T1], S' as [G2 P2 A2 F2 R2 B2 _ T2].
      unfold db_bitmap_candidate_payload. by rewrite Hs, Hs', A1, A2, B1, B2, T1, T2.
    - done.
    - rewrite (says_pages _ _ _ S). lia.
    - rewrite (says_pages _ _ _ S), (says_alloc _ _ _ S). lia.
    - rewrite (says_pages _ _ _ S), (says_bitmap _ _ _ S). intros i Hi. symmetry. auto. }
  destruct S as [G1 P1 A1 F1 R1 B1 E1 T1], S' as [G2 P2 A2 F2 R2 B2 E2 T2].
  unfold map_valid. cbn [fst snd]. rewrite Hs, Hs', Hsize.
  rewrite G1, G2, P1, P2, A1, A2, F1, F2, R1, R2, E1, E2, Hc. cbv zeta.
  cbn [Z.eqb orb]. rewrite !andb_true_iff. tauto.
Qed.
End transfer.

(** ** Files the engine opens *)

Definition flags (m : mem) : Z := rd 8 (m 0) HDR_FLAGS_INCOMPAT.

(** The descriptor of an ordinary writable open while it chooses. *)
Definition chooser (size : Z) (m : mem) : db := opening size (flags m) 0 true.

Definition other_sb (n : Z) : Z := 3 - n.

Definition pages_of (sb : page) : Z := rd 8 sb SB_TOTAL_PAGES.
Definition alloc_of (sb : page) : Z := rd 8 sb SB_ALLOC_PAGES.
Definition root_of (sb : page) : Z := rd 8 sb SB_BITMAP_ROOT.
Definition generation_of (sb : page) : Z := rd 8 sb SB_GENERATION.

(** An ordinary open hands back the generation on page [n]. *)
Definition opens_at `{Walk} (m : mem) (size n : Z) : Prop :=
  exists floor damaged, alloc_of (m n) <= floor /\
    open_mapped size 0 true m =
      mk_open_result CybouDB_OK true true
        (Some (db_bitmap_recount (opened (chooser size m) (m n) n floor damaged, m))).

Section files.
Context {W : Walk} {L : WalkLocal W}.

(** The fixed pages of a file in the span layout. *)
Record header_wf (m : mem) : Prop := mk_header_wf {
  hw_header : check_header (m 0) = CybouDB_OK;
  hw_sb_pages : check_sb_pages (m 0) = true;
  hw_span : (flags m .& CybouDB_FEATURE_MAP_SPAN) <> 0
}.

(** A file the engine wrote, whose live generation is on page [n]: the other
    superblock is no newer. *)
Record good (m : mem) (size n : Z) : Prop := mk_good {
  gd_header : header_wf m;
  gd_page : n = CybouDB_SB_PAGE_A \/ n = CybouDB_SB_PAGE_B;
  gd_sb_ok : page_ok (m CybouDB_SB_PAGE_A) /\ page_ok (m CybouDB_SB_PAGE_B);
  gd_valid : sb_valid (m n) = true;
  gd_accepted : db_bitmap_validate (chooser size m, m) (m n) = true;
  gd_map : map_wf m (pages_of (m n)) (alloc_of (m n)) (root_of (m n)) (generation_of (m n));
  gd_older : let o := m (other_sb n) in
    sb_valid o = false \/ generation_of o < generation_of (m n) \/
    (generation_of o = generation_of (m n) /\ n = CybouDB_SB_PAGE_A)
}.

Lemma header_no_encryption pg : check_header pg = CybouDB_OK ->
  (rd 8 pg HDR_FLAGS_INCOMPAT .& CybouDB_FEATURE_ENCRYPTION) = 0.
Proof using Type.
  unfold check_header. repeat (case_if; [done|]). unfold check_features.
  set (f := rd 8 pg HDR_FLAGS_INCOMPAT). intros H.
  destruct (Z.eqb_spec (f .& Z.lnot FEATURES_KNOWN) 0) as [E'|E'].
  - replace CybouDB_FEATURE_ENCRYPTION with (Z.lnot FEATURES_KNOWN .& CybouDB_FEATURE_ENCRYPTION)
      by reflexivity.
    by rewrite Z.land_assoc, E'.
  - simpl in H. by destruct (f .& Z.lnot FEATURES_KNOWN =? CybouDB_FEATURE_ENCRYPTION).
Qed.

Lemma chooser_span m size : header_wf m -> has_span (chooser size m) = true.
Proof using Type.
  intros H. unfold has_span. simpl. apply negb_true_iff, Z.eqb_neq. apply (hw_span _ H).
Qed.

(** What an accepted candidate says. *)
Lemma accepted_bounds m size sb : header_wf m ->
  db_bitmap_validate (chooser size m, m) sb = true ->
  pages_of sb .<< 12 = size /\ CybouDB_COW_MIN_PAGES <= pages_of sb <= CybouDB_SPAN_MAX_PAGES /\
  alloc_of sb <= pages_of sb /\ rd 8 sb SB_FREELIST_ROOT = 0 /\
  span_valid (chooser size m, m) sb (alloc_of sb) = true /\ generation_of sb <> 0.
Proof using Type.
  intros H Hv. pose proof (chooser_span m size H) as Hs. unfold db_bitmap_validate in Hv.
  apply andb_true_iff in Hv as [Hv _]. apply andb_true_iff in Hv as [Hv _].
  apply orb_true_iff in Hv as [Hv|Hv].
  { unfold has_span in Hs. simpl in *. apply Z.eqb_eq in Hv. by rewrite Hv in Hs. }
  unfold map_valid in Hv. cbn [fst snd] in Hv. rewrite Hs in Hv. simpl in Hv. bool_to_prop.
  unfold pages_of, alloc_of, generation_of. split_and!; try done; lia.
Qed.

Lemma opens_newest m size n : header_wf m -> n = CybouDB_SB_PAGE_A \/ n = CybouDB_SB_PAGE_B ->
  bytes (m n) -> sb_valid (m n) = true ->
  db_bitmap_validate (chooser size m, m) (m n) = true -> beaten (chooser size m) m n ->
  opens_at m size n.
Proof using Type.
  intros H Hn Hb Hsb Hv Hbt.
  destruct (choose_newest (chooser size m) m n Hn Hsb Hv Hbt) as [Hc Hf].
  destruct (accepted_bounds m size (m n) H Hv) as (Hsz & Hp & _).
  pose proof (accepted_geometry (chooser size m) m (m n) (chooser_span m size H) Hb
    (header_no_encryption _ (hw_header _ H)) Hv) as Hg. simpl in Hg.
  exists (ch_floor (choose (chooser size m) m)), (ch_damaged (choose (chooser size m) m)).
  split; [done|]. unfold open_mapped. cbv zeta. unfold flags in *.
  change (opening size (rd 8 (m 0) HDR_FLAGS_INCOMPAT) 0 true) with (chooser size m).
  rewrite Hc, Hg, (hw_header _ H), (hw_sb_pages _ H).
  rewrite (proj2 (Z.ltb_ge size (CybouDB_MIN_PAGES * CybouDB_PAGE_SIZE))).
  2:{ rewrite Z.shiftl_mul_pow2 in Hsz by lia.
      unfold CybouDB_MIN_PAGES, CybouDB_PAGE_SIZE, CybouDB_COW_MIN_PAGES in *. lia. }
  destruct Hn as [-> | ->]; reflexivity.
Qed.

Lemma good_opens m size n : good m size n -> opens_at m size n.
Proof using Type.
  intros [H Hn [Hb1 Hb2] Hsb Hv _ Ho]. apply opens_newest; try done.
  - by destruct Hn as [-> | ->]; [destruct Hb1|destruct Hb2].
  - unfold beaten, other_sb, generation_of in *. tauto.
Qed.

End files.

(** ** The first barrier covers what was taken *)

Lemma align_down x : x .& (- CybouDB_SYNC_ALIGN) = 65536 * (x / 65536).
Proof.
  change (- CybouDB_SYNC_ALIGN) with (Z.lnot (Z.ones 16)). rewrite <- Z.ldiff_land.
  rewrite Z.ldiff_ones_r, Z.shiftl_mul_pow2, Z.shiftr_div_pow2 by lia. lia.
Qed.

Lemma sync_range_covers d f c p pages : db_size d = pages .<< 12 -> f <= p < f + c -> p < pages ->
  in_ranges [sync_range d f c] p = true.
Proof.
  intros Hs Hp Hpg. unfold in_ranges, sync_range. simpl. rewrite orb_false_r, !align_down, Hs.
  rewrite !Z.shiftl_mul_pow2 by lia. change (2 ^ 12) with 4096. unfold CybouDB_SYNC_ALIGN.
  apply andb_true_iff. split; apply Z.leb_le; [lia|]. case_if; lia.
Qed.

Lemma flush_range_covers d run p pages : db_size d = pages .<< 12 ->
  run.1 <= p < run.1 + run.2 -> p < pages -> in_ranges [flush_range d run] p = true.
Proof.
  intros Hs Hp Hpg. unfold in_ranges, flush_range. simpl. rewrite orb_false_r, Hs.
  rewrite !Z.shiftl_mul_pow2 by lia. change (2 ^ 12) with 4096.
  apply andb_true_iff. split; apply Z.leb_le; [lia|]. case_if; lia.
Qed.

Lemma in_ranges_app r1 r2 p : in_ranges (r1 ++ r2) p = in_ranges r1 p || in_ranges r2 p.
Proof. apply existsb_app. Qed.

Lemma in_ranges_in r rs p : In r rs -> in_ranges [r] p = true -> in_ranges rs p = true.
Proof.
  intros Hin Hr. apply existsb_exists. exists r. split; [done|]. unfold in_ranges in Hr. simpl in Hr.
  by rewrite orb_false_r in Hr.
Qed.

Lemma commit_covers d p pages : db_mode d = 1 -> db_size d = pages .<< 12 -> p < pages ->
  covered (db_dirty d) p ->
  in_ranges ((commit_ranges d).1 ++ [(commit_ranges d).2]) p = true.
Proof.
  intros Hm Hs Hp [Hh Hr]. unfold commit_ranges. cbv zeta. rewrite Hm. simpl negb. cbv iota.
  assert (Hhull : in_ranges [if dirty_hi (db_dirty d) <=? dirty_lo (db_dirty d)
      then sync_range d 0 CybouDB_MIN_PAGES
      else sync_range d (dirty_lo (db_dirty d)) (dirty_hi (db_dirty d) - dirty_lo (db_dirty d))] p = true).
  { rewrite (proj2 (Z.leb_gt _ _)) by lia. apply (sync_range_covers _ _ _ _ pages); [done|lia|done]. }
  destruct (run_ovf (db_dirty d)); [done|].
  destruct (Hr eq_refl) as (run & Hin & Hrun).
  destruct (rev (dirty_runs (db_dirty d))) as [|r ahead] eqn:E; [done|]. cbn [fst snd].
  rewrite in_ranges_app. apply orb_true_iff. apply in_rev in Hin. rewrite E in Hin.
  destruct Hin as [->|Hin].
  - right. by apply (sync_range_covers _ _ _ _ pages).
  - left. apply (in_ranges_in (flush_range d run)); [|by apply (flush_range_covers _ _ _ pages)].
    apply in_map. by apply in_rev in Hin.
Qed.

(** ** The start of a transaction *)

Section session.
Context {W : Walk} {L : WalkLocal W}.
Context (m0 : mem) (size n : Z) (G : good m0 size n).

#[local] Notation pages := (pages_of (m0 n)).
#[local] Notation a0 := (alloc_of (m0 n)).
#[local] Notation live := (root_of (m0 n)).
#[local] Notation g := (generation_of (m0 n)).
#[local] Notation k := (db_bitmap_leaves pages).
#[local] Notation other := (other_root k live).
#[local] Notation first := (first_payload pages).
#[local] Notation in_tx := (in_tx m0 pages a0 live g n).
#[local] Notation tx_image := (tx_image m0 pages live g).
#[local] Notation taken := (taken m0 pages live).
#[local] Notation t := (other_sb n).

Lemma sb_bytes : bytes (m0 n).
Proof using G.
  destruct (gd_sb_ok _ _ _ G) as [[_ H1] [_ H2]]. by destruct (gd_page _ _ _ G) as [-> | ->].
Qed.

Lemma target_ok : page_ok (m0 t) /\ (t = CybouDB_SB_PAGE_A \/ t = CybouDB_SB_PAGE_B) /\ t <> n.
Proof using G.
  destruct (gd_sb_ok _ _ _ G) as [H1 H2].
  destruct (gd_page _ _ _ G) as [-> | ->]; unfold other_sb.
  - change (3 - CybouDB_SB_PAGE_A) with CybouDB_SB_PAGE_B. split_and!; [done|by right|done].
  - change (3 - CybouDB_SB_PAGE_B) with CybouDB_SB_PAGE_A. split_and!; [done|by left|done].
Qed.

(** A descriptor of the live generation, with nothing staged: what an open, a
    commit and a rollback leave. *)
Record ready (s : state) : Prop := mk_ready {
  rdy_file : s.2 = m0;
  rdy_size : db_size s.1 = size;
  rdy_features : db_features s.1 = flags m0;
  rdy_verify : db_verify s.1 = 0;
  rdy_writable : db_writable s.1 = true;
  rdy_mode : db_mode s.1 = 1;
  rdy_prove : db_prove s.1 = false;
  rdy_pages : db_pages s.1 = pages;
  rdy_alloc : db_alloc s.1 = a0;
  rdy_generation : db_generation s.1 = g;
  rdy_freelist : db_freelist s.1 = rd 8 (m0 n) SB_FREELIST_ROOT;
  rdy_root : db_root s.1 = rd 8 (m0 n) SB_ROOT_PAGE;
  rdy_bitmap : db_bitmap s.1 = live;
  rdy_cur : db_sb_page s.1 = n;
  rdy_floor : a0 <= db_floor s.1;
  rdy_sweep : 0 <= db_reuse_next s.1;
  rdy_runs : runs_ok (db_dirty s.1)
}.

(** It begins a transaction. *)
Lemma in_tx_start s : ready s -> in_tx s.
Proof using G.
  intros R. pose proof (gd_map _ _ _ G) as WF.
  pose proof (gd_header _ _ _ G) as H. pose proof (chooser_span m0 size H) as Hs.
  destruct (accepted_bounds m0 size (m0 n) H (gd_accepted _ _ _ G)) as (Hsz & _ & _ & Hfl & _).
  pose proof (wf_alloc _ _ _ _ _ WF). destruct s as [d m], R. simpl in *. subst m.
  constructor; simpl; try done.
  - unfold has_span. rewrite rdy_features0. exact Hs.
  - congruence.
  - congruence.
  - rewrite rdy_root0. apply rd_range, sb_bytes.
  - apply (gd_page _ _ _ G).
  - rewrite rdy_alloc0. lia.
  - intros p. by right; left.
  - intros p Hp Hst. left. rewrite rdy_bitmap0 in Hst. exact Hst.
  - intros p Hp Hst. pose proof (first_eq pages). pose proof (k_bounds _ _ _ _ _ WF).
    rewrite rdy_bitmap0, rdy_alloc0 in *.
    pose proof (live_state_free _ _ _ _ _ WF p) as Hfree. unfold live_state in Hfree.
    rewrite Hfree in Hst; [done|lia|lia].
  - left. by split_and!.
Qed.

(** Counting touches the sweep only. *)
Lemma ready_recount s : has_span s.1 = true -> ready (set_sweep s.1 CybouDB_MIN_PAGES 0, s.2) ->
  ready (db_bitmap_recount s).
Proof using Type.
  intros Hs R. destruct s as [d m]. cbn [fst snd] in *. unfold db_bitmap_recount. rewrite Hs.
  generalize (count_leaves (S (Z.to_nat (db_alloc d / CybouDB_MAP_LEAF_PAGES))) m (db_bitmap d)
    (db_alloc d) 0 0) as c.
  intros c. destruct R. by constructor.
Qed.

(** What an open hands back. *)
Lemma opened_ready floor damaged : a0 <= floor ->
  ready (db_bitmap_recount (opened (chooser size m0) (m0 n) n floor damaged, m0)).
Proof using G.
  intros Hf. pose proof (gd_header _ _ _ G) as H. apply ready_recount; [exact (chooser_span m0 size H)|].
  constructor; simpl; try done.
  - unfold flags. destruct (Z.eqb_spec (rd 8 (m0 0) HDR_FLAGS_INCOMPAT) 0) as [E0|]; [|done].
    exfalso. apply (hw_span _ H). unfold flags. by rewrite E0.
  - by constructor.
Qed.

Lemma open_ready s : op_db (open_mapped size 0 true m0) = Some s -> ready s.
Proof using G L.
  intros Ho. destruct (good_opens m0 size n G) as (floor & damaged & Hf & E).
  rewrite E in Ho. cbn [op_db] in Ho. apply (inj Some) in Ho. subst s. by apply opened_ready.
Qed.

(** ** The old generation stays acceptable *)

(** The payload of the live generation. *)
Lemma candidate_live p : db_bitmap_candidate_payload (chooser size m0) m0 (m0 n) p = true ->
  first <= p /\ live_state m0 live p = MAP_PAYLOAD.
Proof using G.
  pose proof (gd_map _ _ _ G) as WF. pose proof (gd_header _ _ _ G) as H.
  unfold db_bitmap_candidate_payload. rewrite (chooser_span m0 size H).
  destruct (Z.ltb_spec p CybouDB_MIN_PAGES); [done|].
  destruct (Z.leb_spec (rd 8 (m0 n) SB_ALLOC_PAGES) p); [done|]. cbv zeta.
  assert (Est : rd 4 (m0 n) SB_STAGED = 0).
  { pose proof (gd_valid _ _ _ G) as Hv. unfold sb_valid in Hv. by bool_to_prop. }
  rewrite Est. simpl. rewrite andb_false_r, orb_false_r. intros Hst%Z.eqb_eq.
  split; [|done]. destruct (decide (first <= p)); [done|]. exfalso.
  unfold CybouDB_MIN_PAGES in *.
  pose proof (live_state_metadata _ _ _ _ _ WF p ltac:(lia)) as Hm. unfold live_state, root_of in *.
  rewrite Hst in Hm. done.
Qed.

(** A file in which the pages that were not taken and the metadata outside the
    staged half are as they were, but for the superblock being written. *)
Section image.
Context (d : dirty) (D : mem) (I : tx_image d (set_page D t (m0 t))).

Lemma image_page p : p <> t -> set_page D t (m0 t) p = D p.
Proof using Type. intros. by apply set_page_ne. Qed.

Lemma image_fixed p : 0 <= p < 3 -> p <> t -> D p = m0 p.
Proof using G I.
  intros Hp Ht. pose proof (gd_map _ _ _ G) as WF. pose proof (halves _ _ _ _ _ WF).
  pose proof (first_eq pages). pose proof (k_bounds _ _ _ _ _ WF).
  rewrite <- (image_page p Ht). apply (image_meta m0 pages live g d); [done|lia|unfold other_page; lia].
Qed.

Lemma image_sb : D n = m0 n.
Proof using G I.
  destruct target_ok as (_ & _ & Hne). apply image_fixed; [|done].
  destruct (gd_page _ _ _ G) as [-> | ->]; unfold CybouDB_SB_PAGE_A, CybouDB_SB_PAGE_B; lia.
Qed.

Lemma image_header : D 0 = m0 0.
Proof using G I.
  destruct target_ok as (_ & Ht & _). apply image_fixed; [lia|].
  destruct Ht as [-> | ->]; done.
Qed.

Lemma image_header_wf : header_wf D.
Proof using G I.
  destruct (gd_header _ _ _ G). constructor; unfold flags in *; by rewrite image_header.
Qed.

Lemma image_chooser : chooser size D = chooser size m0.
Proof using G I. unfold chooser, flags. by rewrite image_header. Qed.

(** Every page the live generation reaches. *)
Lemma image_kept p : db_bitmap_candidate_payload (chooser size m0) m0 (m0 n) p = true -> D p = m0 p.
Proof using G I.
  intros Hp. destruct (candidate_live p Hp) as [Hf Hst]. pose proof (gd_map _ _ _ G) as WF.
  pose proof (first_eq pages). pose proof (k_bounds _ _ _ _ _ WF).
  destruct target_ok as (_ & Ht & _).
  rewrite <- (image_page p) by (destruct Ht as [-> | ->]; unfold CybouDB_SB_PAGE_A, CybouDB_SB_PAGE_B; lia).
  by apply (image_payload _ _ _ _ _ WF d).
Qed.

Lemma image_accepted : db_bitmap_validate (chooser size D, D) (D n) = true.
Proof using G I L.
  pose proof (gd_map _ _ _ G) as WF. pose proof (gd_header _ _ _ G) as H.
  destruct (accepted_bounds m0 size (m0 n) H (gd_accepted _ _ _ G)) as (_ & Hp & Ha & _).
  rewrite image_chooser, image_sb, <- (gd_accepted _ _ _ G). symmetry.
  apply validate_local; try done.
  - by apply chooser_span.
  - unfold CybouDB_COW_MIN_PAGES, pages_of in *. lia.
  - intros i Hi. symmetry. destruct target_ok as (_ & Ht & _).
    pose proof (halves _ _ _ _ _ WF). pose proof (k_bounds _ _ _ _ _ WF).
    fold (root_of (m0 n)). fold (pages_of (m0 n)) in Hi.
    rewrite <- (image_page (live + i)) by (destruct Ht as [-> | ->];
      unfold CybouDB_SB_PAGE_A, CybouDB_SB_PAGE_B; lia).
    by apply (image_live_leaf _ _ _ _ _ WF d).
  - intros p Hpay. symmetry. by apply image_kept.
Qed.

(** The old generation, unless the page being written beats it. *)
Lemma image_opens_old :
  sb_valid (D t) = false \/ db_bitmap_validate (chooser size D, D) (D t) = false \/
  generation_of (D t) < g \/ (generation_of (D t) = g /\ n = CybouDB_SB_PAGE_A) ->
  opens_at D size n.
Proof using G I L.
  intros Hb. apply opens_newest.
  - apply image_header_wf.
  - apply (gd_page _ _ _ G).
  - rewrite image_sb. apply sb_bytes.
  - rewrite image_sb. apply (gd_valid _ _ _ G).
  - apply image_accepted.
  - unfold beaten, generation_of, other_sb in *. rewrite image_sb. tauto.
Qed.

End image.

(** The superblock on page [t] has not been touched yet. *)
Lemma image_good d D : tx_image d D -> good D size n /\ (forall p, 0 <= p < 3 -> D p = m0 p).
Proof using G L.
  intros I. pose proof (gd_map _ _ _ G) as WF. pose proof (halves _ _ _ _ _ WF).
  pose proof (first_eq pages). pose proof (k_bounds _ _ _ _ _ WF).
  assert (E : forall p, 0 <= p < 3 -> D p = m0 p).
  { intros p Hp. apply (image_meta m0 pages live g d); [done|lia|unfold other_page; lia]. }
  destruct target_ok as (_ & Ht & _).
  assert (Et : D t = m0 t) by (apply E; destruct Ht as [-> | ->];
    unfold CybouDB_SB_PAGE_A, CybouDB_SB_PAGE_B; lia).
  assert (I' : tx_image d (set_page D t (m0 t))).
  { assert (Es : forall p, set_page D t (m0 t) p = D p).
    { intros p. destruct (decide (p = t)) as [->|]; [by rewrite set_page_eq|by apply set_page_ne]. }
    destruct I as [I1 I2]. constructor; intros; rewrite Es; auto. }
  split; [|done]. pose proof (image_sb d D I') as En. constructor.
  - by apply (image_header_wf d).
  - apply (gd_page _ _ _ G).
  - rewrite !E by (unfold CybouDB_SB_PAGE_A, CybouDB_SB_PAGE_B; lia). apply (gd_sb_ok _ _ _ G).
  - rewrite En. apply (gd_valid _ _ _ G).
  - by apply (image_accepted d).
  - rewrite En. by apply (image_map_wf _ _ _ _ _ WF d).
  - cbv zeta. rewrite En, Et. apply (gd_older _ _ _ G).
Qed.

(** ** The commit *)

Section commit.
Context (s : state) (T : in_tx s).
Let z : state := db_bitmap_seal s.
Let final : page := write_superblock (m0 t) s.1 (g + 1).

Lemma z_tx : in_tx z /\ z.1 = s.1.
Proof using G T. apply in_tx_seal; [apply (gd_map _ _ _ G)|done]. Qed.

Lemma z_image : tx_image (db_dirty s.1) z.2.
Proof using G T.
  destruct z_tx as [Tz E]. apply (in_tx_image m0 pages a0 live g n z); [done|]. by rewrite E.
Qed.

Lemma z_target : z.2 t = m0 t.
Proof using G L T.
  destruct target_ok as (_ & Ht & _). destruct (image_good _ _ z_image) as [_ E]. apply E.
  destruct Ht as [-> | ->]; unfold CybouDB_SB_PAGE_A, CybouDB_SB_PAGE_B; lia.
Qed.

Lemma commit_words : sb_words s.1 (g + 1).
Proof using G T.
  pose proof (gd_map _ _ _ G) as WF. pose proof (wf_generation _ _ _ _ _ WF).
  pose proof (wf_pages _ _ _ _ _ WF). pose proof (wf_alloc _ _ _ _ _ WF).
  pose proof (tx_alloc _ _ _ _ _ _ _ T). pose proof (tx_db_pages _ _ _ _ _ _ _ T) as Ep.
  pose proof (halves _ _ _ _ _ WF). pose proof (k_bounds _ _ _ _ _ WF). pose proof (first_eq pages).
  unfold UINT64_MAX, CybouDB_SPAN_MAX_PAGES, CybouDB_MAP_LEAF_PAGES, CybouDB_COW_MAX_PAGES, MAP_CRC,
    MAP_DATA in *.
  constructor; try lia.
  - rewrite (tx_freelist _ _ _ _ _ _ _ T). lia.
  - apply (tx_root_word _ _ _ _ _ _ _ T).
  - destruct (tx_stage _ _ _ _ _ _ _ T) as [[-> _]|[-> _]]; lia.
Qed.

(** The superblock the commit writes. *)
Lemma final_ok : page_ok final /\ sb_valid final = true /\ sb_says final s.1 (g + 1).
Proof using G T.
  destruct target_ok as ([Hl Hb] & _). pose proof commit_words as Hw.
  assert (H128 : 128 <= Z.of_nat (length (m0 t))) by (rewrite Hl; unfold CybouDB_PAGE_SIZE; lia).
  split_and!; [|by apply write_superblock_valid|by apply write_superblock_says].
  destruct (filled_ok (m0 t) s.1 (g + 1) Hb H128) as [Fl Fb]. unfold final, write_superblock.
  apply page_ok_wr; [split; [by rewrite Fl|done]|by compute|by compute].
Qed.

(** The states of the superblock page while it is written. *)
Lemma sb_state_page j : In j (sb_states z.2 t s.1) ->
  (forall p, p <> t -> j p = z.2 p) /\
  (j t = final \/ exists i, (0 < i <= 24)%nat /\ j t = sb_partial i (m0 t) s.1 (g + 1)).
Proof using G L T.
  pose proof (gd_map _ _ _ G) as WF. pose proof (wf_generation _ _ _ _ _ WF) as Hg.
  unfold sb_states. rewrite (tx_generation _ _ _ _ _ _ _ T), z_target.
  rewrite u64_small by (unfold UINT64_MAX in Hg; lia). intros [Hin|[<-|[]]]%in_app_iff.
  - apply in_map_iff in Hin as (i & <- & Hi%in_seq). split; [intros; by apply set_page_ne|].
    right. exists i. split; [|by rewrite set_page_eq]. rewrite sb_stores_eq in Hi. simpl in Hi. lia.
  - split; [intros; by apply set_page_ne|]. left. by rewrite set_page_eq.
Qed.

(** What a crash may leave once the first barrier is behind: [js] are the states
    of the superblock page so far. *)
Section second.
Context (ms js : list mem).
Hypothesis Hms : Forall (tx_image (db_dirty s.1)) ms.
Hypothesis Hjs : forall j, In j js -> In j (sb_states z.2 t s.1).
Let ranges := (commit_ranges s.1).1 ++ [(commit_ranges s.1).2].

Lemma second_versions p v :
  In v (versions (map Stored (ms ++ [z.2]) ++ Synced ranges :: map Stored js) p [m0 p]) ->
  (p = t -> v = m0 t \/ v = final \/
     exists i, (0 < i <= 24)%nat /\ v = sb_partial i (m0 t) s.1 (g + 1)) /\
  (p <> t -> exists m, tx_image (db_dirty s.1) m /\ v = m p /\ (first <= p -> v = z.2 p)).
Proof using G L T Hms Hjs.
  pose proof (gd_map _ _ _ G) as WF. pose proof z_image as Iz.
  rewrite versions_app, versions_stored. cbn [versions]. rewrite versions_stored. cbn [app].
  assert (Elast : List.last (m0 p :: map (fun m => m p) (ms ++ [z.2])) [] = z.2 p).
  { rewrite map_app. apply (last_last (m0 p :: map (fun m => m p) ms)). }
  assert (Himg : forall m, In m (m0 :: ms ++ [z.2]) -> tx_image (db_dirty s.1) m).
  { intros m [<-|[Hin|[<-|[]]]%in_app_iff]; [apply image_start| |done].
    rewrite List.Forall_forall in Hms. auto. }
  assert (Hbefore : forall v, In v (m0 p :: map (fun m => m p) (ms ++ [z.2])) ->
    exists m, tx_image (db_dirty s.1) m /\ v = m p).
  { intros v' Hv. apply (in_map_iff (fun m => m p) (m0 :: ms ++ [z.2])) in Hv as (m & <- & Hm). eauto. }
  destruct (image_good _ _ Iz) as [_ _].
  assert (Hfirst : first <= p -> forall v,
    In v (if in_ranges ranges p then [List.last (m0 p :: map (fun m => m p) (ms ++ [z.2])) []]
          else m0 p :: map (fun m => m p) (ms ++ [z.2])) -> v = z.2 p).
  { intros Hf v'. pose proof (halves _ _ _ _ _ WF). pose proof (first_eq pages).
    pose proof (k_bounds _ _ _ _ _ WF). destruct (in_ranges ranges p) eqn:Er.
    - rewrite Elast. by intros [<-|[]].
    - intros Hv. destruct (Hbefore v' Hv) as (m & I & ->).
      assert (Hnot : ~ taken (db_dirty s.1) p).
      { intros (Hp & _ & Hc). unfold ranges in Er. rewrite (commit_covers _ p pages) in Er; try done.
        - apply (tx_mode _ _ _ _ _ _ _ T).
        - apply (tx_size _ _ _ _ _ _ _ T).
        - lia. }
      destruct (im_pages _ _ _ _ _ _ I p) as [Ho|[->|]]; [unfold other_page in Ho; lia| |done].
      destruct (im_pages _ _ _ _ _ _ Iz p) as [Ho|[->|]]; [unfold other_page in Ho; lia|done|done]. }
  intros [Hin|Hin]%in_app_iff.
  - assert (Hin' : In v (m0 p :: map (fun m => m p) (ms ++ [z.2]))).
    { destruct (in_ranges ranges p); [|done]. rewrite Elast in Hin. destruct Hin as [<-|[]].
      right. apply in_map_iff. exists z.2. split; [done|]. apply in_app_iff. right. by left. }
    destruct (Hbefore v Hin') as (m & I & ->). split.
    + intros ->. left. destruct (image_good _ _ I) as [_ E]. apply E.
      destruct target_ok as (_ & [-> | ->] & _); unfold CybouDB_SB_PAGE_A, CybouDB_SB_PAGE_B; lia.
    + intros _. exists m. split_and!; [done|done|]. intros Hf. by apply Hfirst.
  - apply in_map_iff in Hin as (j & <- & Hj). destruct (sb_state_page j (Hjs j Hj)) as [J1 J2].
    split; [intros ->; right; destruct J2 as [->|]; auto|]. intros Hp. exists z.2.
    rewrite J1 by done. by split_and!.
Qed.

(** The file is one the transaction can leave, but for page [t]; its payload is
    what was committed. *)
Lemma second_image D :
  crash_image m0 pages (map Stored (ms ++ [z.2]) ++ Synced ranges :: map Stored js) D ->
  tx_image (db_dirty s.1) (set_page D t (m0 t)) /\ (forall p, first <= p -> D p = z.2 p) /\
  (D t = m0 t \/ D t = final \/
   exists i, (0 < i <= 24)%nat /\ D t = sb_partial i (m0 t) s.1 (g + 1)).
Proof using G L T Hms Hjs.
  intros HD. pose proof (gd_map _ _ _ G) as WF. pose proof (halves _ _ _ _ _ WF).
  pose proof (first_eq pages). pose proof (k_bounds _ _ _ _ _ WF).
  destruct target_ok as (_ & Ht & _).
  assert (Ht3 : 0 < t < 3) by (destruct Ht as [-> | ->]; unfold CybouDB_SB_PAGE_A, CybouDB_SB_PAGE_B; lia).
  assert (Hin : forall p, In (D p) (versions (map Stored (ms ++ [z.2]) ++ Synced ranges :: map Stored js)
      p [m0 p])).
  { intros p. destruct (HD p) as [|(Hp & v & w & Hv & Hw & Hne)]; [done|]. exfalso. apply Hne.
    destruct (second_versions p v Hv) as [_ Hv2], (second_versions p w Hw) as [_ Hw2].
    assert (Hne' : p <> t) by (unfold first, first_payload in *; lia).
    destruct (Hv2 Hne') as (_ & _ & _ & Ev), (Hw2 Hne') as (_ & _ & _ & Ew).
    by rewrite (Ev Hp), (Ew Hp). }
  assert (Hp : forall p, p <> t -> exists m, tx_image (db_dirty s.1) m /\ D p = m p /\
    (first <= p -> D p = z.2 p)).
  { intros p Hp. destruct (second_versions p _ (Hin p)) as [_ H']. auto. }
  split_and!.
  - constructor.
    + intros p. destruct (decide (p = t)) as [->|Hne]; [right; left; apply set_page_eq|].
      rewrite set_page_ne by done. destruct (Hp p Hne) as (m & I & -> & _). apply (im_pages _ _ _ _ _ _ I).
    + intros i Hi. rewrite set_page_ne by lia. destruct (Hp (other + i)) as (m & I & -> & _); [lia|].
      by apply (im_leaves _ _ _ _ _ _ I).
  - intros p Hf. destruct (Hp p) as (_ & _ & _ & E); [lia|auto].
  - by destruct (second_versions t _ (Hin t)) as [H' _]; apply H'.
Qed.
End second.

(** Sealing touches the map only. *)
Lemma z_payload p : first <= p -> z.2 p = s.2 p.
Proof using G T.
  intros Hp. pose proof (gd_map _ _ _ G) as WF. pose proof (halves _ _ _ _ _ WF).
  pose proof (first_eq pages). pose proof (k_bounds _ _ _ _ _ WF).
  pose proof (tx_span _ _ _ _ _ _ _ T) as Hs. pose proof (tx_db_pages _ _ _ _ _ _ _ T) as Ep.
  pose proof (tx_stage _ _ _ _ _ _ _ T) as Hst. unfold z, db_bitmap_seal. destruct s as [d m]. simpl in *.
  rewrite Hs, Ep. case_if; [done|]. simpl.
  apply (for_loop_ind (fun _ m' => m' p = m p)); [done|]. intros i m' Hi E'. case_if; [|done].
  rewrite set_page_ne; [done|]. destruct Hst as [[-> _]|[-> _]]; lia.
Qed.

(** The file after the commit. *)
Definition commit_file : mem := set_page z.2 t final.

(** What an open finds: the old generation, every page of it as it was (and the
    next transaction can begin, unless the superblock that was refused is
    whole), or the new one. *)
Definition finds_old (D : mem) : Prop :=
  opens_at D size n /\ D n = m0 n /\
  (forall p, db_bitmap_candidate_payload (chooser size m0) m0 (m0 n) p = true -> D p = m0 p) /\
  (D t <> final -> good D size n).

Definition finds_new (D : mem) : Prop :=
  opens_at D size t /\ sb_says (D t) s.1 (g + 1) /\ forall p, first <= p -> D p = s.2 p.

Lemma first_outcome ms D : Forall (tx_image (db_dirty s.1)) ms ->
  crash_image m0 pages (map Stored ms) D -> finds_old D.
Proof using G L T.
  intros Hms HD. pose proof (crash_tx_image _ _ _ _ _ (gd_map _ _ _ G) ms _ D Hms HD) as I.
  destruct (image_good _ _ I) as [GD E]. split_and!; [by apply good_opens| | |done].
  - apply E. destruct (gd_page _ _ _ G) as [-> | ->]; unfold CybouDB_SB_PAGE_A, CybouDB_SB_PAGE_B; lia.
  - intros p Hp. destruct (candidate_live p Hp).
    by apply (image_payload _ _ _ _ _ (gd_map _ _ _ G) (db_dirty s.1)).
Qed.

(** A file whose other superblock is refused or old. *)
Lemma image_good_old D : tx_image (db_dirty s.1) (set_page D t (m0 t)) -> page_ok (D t) ->
  sb_valid (D t) = false \/ D t = m0 t -> good D size n.
Proof using G L T.
  intros I Hok Hs. destruct (image_good _ _ I) as [GD _]. pose proof (image_sb _ _ I) as En.
  destruct target_ok as (_ & Ht & Hne). destruct GD as [_ Hp Hsb _ _ Hm _].
  rewrite !set_page_ne in Hm by congruence. rewrite En in Hm.
  constructor.
  - by apply (image_header_wf (db_dirty s.1)).
  - done.
  - assert (E : forall p, 0 <= p < 3 -> page_ok (m0 p) -> page_ok (D p)).
    { intros p Hp' Ho. destruct (decide (p = t)) as [->|]; [done|]. by rewrite (image_fixed _ _ I). }
    unfold CybouDB_SB_PAGE_A, CybouDB_SB_PAGE_B in *. split; apply E; try lia; apply (gd_sb_ok _ _ _ G).
  - rewrite En. apply (gd_valid _ _ _ G).
  - by apply (image_accepted (db_dirty s.1)).
  - rewrite En. eapply map_wf_ext; [exact Hm|]. intros p Hp'. symmetry. apply set_page_ne.
    destruct Ht as [-> | ->]; unfold CybouDB_SB_PAGE_A, CybouDB_SB_PAGE_B, CybouDB_MIN_PAGES in *; lia.
  - cbv zeta. rewrite En. destruct Hs as [Hs| ->]; [by left|]. apply (gd_older _ _ _ G).
Qed.

Lemma image_outcome D : tx_image (db_dirty s.1) (set_page D t (m0 t)) ->
  (forall p, first <= p -> D p = z.2 p) ->
  (forall i, (18 <= i <= 24)%nat -> sb_crc (sb_partial i (m0 t) s.1 (g + 1)) <> 0) ->
  (D t = m0 t \/ D t = final \/
   exists i, (0 < i <= 24)%nat /\ D t = sb_partial i (m0 t) s.1 (g + 1)) ->
  finds_old D \/ (finds_new D /\ D t = final).
Proof using G L T.
  intros I Hpay Hcrc Ht. destruct target_ok as ([Hl Hb] & Htp & _).
  assert (Hold : (sb_valid (D t) = false \/ db_bitmap_validate (chooser size D, D) (D t) = false \/
    generation_of (D t) < g \/ (generation_of (D t) = g /\ n = CybouDB_SB_PAGE_A)) ->
    (D t <> final -> good D size n) -> finds_old D).
  { intros Hb' Hg. split_and!; [by apply (image_opens_old _ _ I)|by apply (image_sb _ _ I)| |done].
    intros p. by apply (image_kept _ _ I). }
  destruct Ht as [Et|[Et|(i & Hi & Et)]].
  - left. apply Hold.
    + rewrite Et. destruct (gd_older _ _ _ G) as [|[|]]; auto.
    + intros _. apply image_good_old; [done|by rewrite Et|by right].
  - destruct (db_bitmap_validate (chooser size D, D) (D t)) eqn:Hv; [right|left; apply Hold; [auto|done]].
    destruct final_ok as ((Fl & Fb) & Fv & Fs). rewrite <- Et in Fl, Fb, Fv, Fs.
    split; [|exact Et]. split; [|split].
    + apply opens_newest; [by apply (image_header_wf _ _ I)|exact Htp|exact Fb|exact Fv|exact Hv|].
      right. right. left. replace (3 - t) with n by (unfold other_sb; lia).
      rewrite (image_sb _ _ I), (says_generation _ _ _ Fs). unfold generation_of. lia.
    + exact Fs.
    + intros p Hp. rewrite Hpay by exact Hp. by apply z_payload.
  - left. assert (H128 : 128 <= Z.of_nat (length (m0 t))) by (rewrite Hl; unfold CybouDB_PAGE_SIZE; lia).
    assert (Hi' : sb_valid (D t) = false).
    { rewrite Et. by apply sb_partial_invalid. }
    apply Hold; [by left|]. intros _. apply image_good_old; [done| |by left]. rewrite Et.
    split; [rewrite <- Hl|by apply bytes_stores]. apply length_stores. by apply Forall_take, sb_stores_fit.
Qed.

(** ** The trace of a commit *)

Lemma versions_nonempty tr p vs : vs <> [] -> versions tr p vs <> [].
Proof using Type.
  revert vs. induction tr as [|[m|r] tr IH]; intros vs Hv; simpl; [done| |].
  - apply IH. by destruct vs.
  - apply IH. by case_if.
Qed.

Lemma last_in {A} (l : list A) d : l <> [] -> In (List.last l d) l.
Proof using Type.
  intros H. rewrite (app_removelast_last d H) at 2. apply in_app_iff. right. by left.
Qed.

(** A barrier only takes possibilities away. *)
Lemma crash_synced m tr r D : crash_image m pages (tr ++ [Synced r]) D ->
  crash_image m pages tr D /\
  forall p, p < first -> in_ranges r p = true -> D p = List.last (versions tr p [m p]) [].
Proof using Type.
  intros HD.
  assert (Hsub : forall p v, In v (versions (tr ++ [Synced r]) p [m p]) -> In v (versions tr p [m p])).
  { intros p v. rewrite versions_app. simpl. case_if; [|done]. intros [<-|[]].
    by apply last_in, versions_nonempty. }
  split.
  - intros p. destruct (HD p) as [|(Hp & v & w & Hv & Hw & Hne)]; [by left; apply Hsub|].
    right. split; [done|]. exists v, w. auto.
  - intros p Hp Hr. destruct (HD p) as [Hin|[? _]]; [|lia]. rewrite versions_app in Hin. simpl in Hin.
    rewrite Hr in Hin. by destruct Hin as [<-|[]].
Qed.

(** After the second barrier the superblock and its map are in the file. *)
Lemma third_image ms D : Forall (tx_image (db_dirty s.1)) ms ->
  crash_image m0 pages (map Stored (ms ++ [z.2]) ++
    Synced ((commit_ranges s.1).1 ++ [(commit_ranges s.1).2]) :: map Stored (sb_states z.2 t s.1) ++
    [Synced [publish_range s.1]]) D ->
  tx_image (db_dirty s.1) (set_page D t (m0 t)) /\ D t = final /\
  (forall p, first <= p -> D p = z.2 p) /\
  (forall i, 0 <= i < k -> D (db_bitmap s.1 + i) = z.2 (db_bitmap s.1 + i)).
Proof using G L T.
  intros Hms HD. pose proof (gd_map _ _ _ G) as WF. pose proof (halves _ _ _ _ _ WF).
  pose proof (first_eq pages). pose proof (k_bounds _ _ _ _ _ WF).
  pose proof (wf_alloc _ _ _ _ _ WF) as Ha.
  destruct target_ok as (_ & Ht & _).
  assert (Ht3 : 0 < t < 3) by (destruct Ht as [-> | ->]; unfold CybouDB_SB_PAGE_A, CybouDB_SB_PAGE_B; lia).
  rewrite app_comm_cons, app_assoc in HD. apply crash_synced in HD as [HD Hlast].
  destruct (second_image ms (sb_states z.2 t s.1) Hms (fun j H => H) D HD) as (I & Hpay & _).
  assert (Hcov : forall p, 0 <= p < db_bitmap s.1 + k -> p < first -> D p = set_page z.2 t final p).
  { intros p Hp Hf. rewrite Hlast; [|done|].
    - rewrite versions_app. cbn [versions]. rewrite versions_stored. unfold sb_states.
      rewrite (tx_generation _ _ _ _ _ _ _ T), z_target.
      rewrite u64_small by (pose proof (wf_generation _ _ _ _ _ WF); unfold UINT64_MAX in *; lia).
      rewrite (map_app (fun m : mem => m p) _ [_]), app_assoc. apply last_last.
    - unfold publish_range. rewrite (tx_span _ _ _ _ _ _ _ T), (tx_db_pages _ _ _ _ _ _ _ T).
      apply (sync_range_covers _ _ _ _ pages); [apply (tx_size _ _ _ _ _ _ _ T)|lia|lia]. }
  assert (Hb : db_bitmap s.1 = live \/ db_bitmap s.1 = other).
  { destruct (tx_stage _ _ _ _ _ _ _ T) as [[-> _]|[-> _]]; auto. }
  split_and!; [done| |done|].
  - rewrite Hcov by lia. apply set_page_eq.
  - intros i Hi. rewrite Hcov by lia. apply set_page_ne. lia.
Qed.

(** The map the commit has proved is accepted by an open that finds it. *)
Lemma proved_map D : commit_proved z = true ->
  (forall i, 0 <= i < k -> D (db_bitmap s.1 + i) = z.2 (db_bitmap s.1 + i)) ->
  map_valid (chooser size m0, D) final = true.
Proof using G L T.
  intros Hpr Hleaf. pose proof (gd_map _ _ _ G) as WF.
  pose proof (gd_header _ _ _ G) as H. pose proof (chooser_span m0 size H) as Hs.
  destruct final_ok as (_ & _ & Fs). destruct z_tx as [_ Ez].
  destruct (accepted_bounds m0 size (m0 n) H (gd_accepted _ _ _ G)) as (Hsz & _).
  pose proof (wf_pages _ _ _ _ _ WF). unfold CybouDB_COW_MIN_PAGES in *.
  pose proof (tx_span _ _ _ _ _ _ _ T) as Hsp.
  unfold commit_proved in Hpr. rewrite Ez in Hpr. apply orb_true_iff in Hpr as [Hpr|Hpr].
  { apply Z.eqb_eq in Hpr. unfold has_span in Hsp. by rewrite Hpr in Hsp. }
  apply andb_true_iff in Hpr as [Hv%validate_map _]; [|exact Hsp].
  apply (map_valid_transfer (set_prove s.1 true) _ s.1 z.2 _ (commit_candidate s.1) _ (g + 1));
    [exact Hsp|exact Hs| | |done| |exact Fs| | | |exact Hv].
  - simpl. rewrite <- Hsz. symmetry. apply (tx_size _ _ _ _ _ _ _ T).
  - simpl. symmetry. apply (tx_verify _ _ _ _ _ _ _ T).
  - unfold commit_candidate. rewrite (tx_generation _ _ _ _ _ _ _ T).
    rewrite u64_small by (pose proof (wf_generation _ _ _ _ _ WF); unfold UINT64_MAX in *; lia).
    apply write_superblock_says; [apply Forall_replicate; unfold is_byte; lia| |apply commit_words].
    by rewrite length_replicate.
  - rewrite (tx_db_pages _ _ _ _ _ _ _ T). exact Hleaf.
  - rewrite (tx_db_pages _ _ _ _ _ _ _ T). lia.
  - rewrite (tx_db_pages _ _ _ _ _ _ _ T). apply (tx_alloc _ _ _ _ _ _ _ T).
Qed.

(** A leaf of the new map: its entries were looked at, or it is a leaf of the
    live one. *)
Lemma new_leaf_wf d D i : map_valid (d, D) final = true -> has_span d = true ->
  0 <= i < k -> D (db_bitmap s.1 + i) = z.2 (db_bitmap s.1 + i) ->
  0 < leaf_generation (D (db_bitmap s.1 + i)) <= g + 1 /\
  leaf_wf (D (db_bitmap s.1 + i)) pages (db_alloc s.1) i.
Proof using G T.
  intros Hv Hs Hi E. pose proof (gd_map _ _ _ G) as WF. destruct z_tx as [Tz Ez].
  pose proof (tx_alloc _ _ _ _ _ _ _ T) as Ha. pose proof (wf_generation _ _ _ _ _ WF) as Hg.
  destruct final_ok as (_ & _ & Fs).
  assert (Hold : D (db_bitmap s.1 + i) = m0 (live + i) ->
    0 < leaf_generation (D (db_bitmap s.1 + i)) <= g + 1 /\
    leaf_wf (D (db_bitmap s.1 + i)) pages (db_alloc s.1) i).
  { intros ->. destruct (wf_live_leaf _ _ _ _ _ WF i Hi) as [Hgen Hw]. split; [lia|].
    intros j Hj. destruct (Hw j Hj) as [H1 H2]. split; [done|]. intros. apply H2. lia. }
  destruct (tx_stage _ _ _ _ _ _ _ Tz) as [[Eb _]|[Eb Hl]]; rewrite Ez in Eb; rewrite Eb in *.
  { apply Hold. rewrite E. by apply (tx_live_leaf _ _ _ _ _ WF _ _ Tz). }
  destruct (Hl i Hi) as [[Egen Hok]|Eold]; [|apply Hold; by rewrite E].
  rewrite <- E in Egen, Hok. split; [lia|].
  pose proof (accepted_leaf d D final i Hs Hv) as Hleaf.
  rewrite (says_pages _ _ _ Fs), (says_alloc _ _ _ Fs), (says_bitmap _ _ _ Fs) in Hleaf.
  rewrite (tx_db_pages _ _ _ _ _ _ _ T), Eb in Hleaf. specialize (Hleaf Hi).
  rewrite (says_generation _ _ _ Fs), Egen in Hleaf. specialize (Hleaf eq_refl).
  by apply Hleaf.
Qed.

Lemma new_accepted D : commit_proved z = true ->
  db_catalog_validate (chooser size m0) z.2 final = true ->
  tx_image (db_dirty s.1) (set_page D t (m0 t)) -> D t = final ->
  (forall p, first <= p -> D p = z.2 p) ->
  (forall i, 0 <= i < k -> D (db_bitmap s.1 + i) = z.2 (db_bitmap s.1 + i)) ->
  db_bitmap_validate (chooser size D, D) (D t) = true.
Proof using G L T.
  intros Hpr Hcat I Et Hpay Hleaf. pose proof (gd_map _ _ _ G) as WF.
  pose proof (gd_header _ _ _ G) as H. pose proof (chooser_span m0 size H) as Hs.
  pose proof (image_chooser _ _ I) as Ec. destruct final_ok as (_ & _ & Fs).
  pose proof (proved_map D Hpr Hleaf) as Hm.
  rewrite Ec, Et. unfold db_bitmap_validate. rewrite Hm, orb_true_r. cbn [andb fst snd].
  unfold cs_retires_are_unreachable. cbn. rewrite andb_true_r.
  pose proof (tx_alloc _ _ _ _ _ _ _ T) as Ha. pose proof (k_bounds _ _ _ _ _ WF) as Hk.
  rewrite <- Hcat. apply walk_local; [exact Hs|done| | | |].
  - rewrite (says_pages _ _ _ Fs), (tx_db_pages _ _ _ _ _ _ _ T). lia.
  - rewrite (says_pages _ _ _ Fs), (says_alloc _ _ _ Fs), (tx_db_pages _ _ _ _ _ _ _ T). lia.
  - rewrite (says_pages _ _ _ Fs), (says_bitmap _ _ _ Fs), (tx_db_pages _ _ _ _ _ _ _ T). exact Hleaf.
  - intros p Hp. destruct (decide (first <= p)) as [Hf|Hf]; [by apply Hpay|]. exfalso.
    pose proof (wf_alloc _ _ _ _ _ WF) as Ha0.
    unfold db_bitmap_candidate_payload in Hp. rewrite Hs in Hp.
    rewrite (says_alloc _ _ _ Fs), (says_bitmap _ _ _ Fs), (says_staged _ _ _ Fs) in Hp.
    destruct (Z.ltb_spec p CybouDB_MIN_PAGES); [done|]. destruct (Z.leb_spec (db_alloc s.1) p); [done|].
    cbv zeta in Hp. cbn in Hp. rewrite andb_false_r, orb_false_r in Hp. apply Z.eqb_eq in Hp.
    unfold CybouDB_MIN_PAGES in *.
    destruct (map_place k (db_bitmap s.1) p ltac:(lia)) as (Hl & Hi & E).
    set (i := map_leaf true (db_bitmap s.1) p - db_bitmap s.1) in *.
    destruct (new_leaf_wf (chooser size m0) D i Hm Hs ltac:(lia) (Hleaf i ltac:(lia))) as [_ Hw].
    destruct (Hw _ Hi) as [Hmeta _]. rewrite <- E in Hmeta.
    unfold map_state in Hp. replace (map_leaf true (db_bitmap s.1) p) with (db_bitmap s.1 + i) in Hp by lia.
    rewrite Hmeta in Hp by lia. done.
Qed.

(** A leaf of the new map with the generation of its twin is that twin. *)
Lemma new_twins D : tx_image (db_dirty s.1) (set_page D t (m0 t)) ->
  (forall i, 0 <= i < k -> D (db_bitmap s.1 + i) = z.2 (db_bitmap s.1 + i)) ->
  forall i, 0 <= i < k ->
  let leaf := D (other_root k (db_bitmap s.1) + i) in
  leaf_generation (D (db_bitmap s.1 + i)) = leaf_generation leaf -> D (db_bitmap s.1 + i) = leaf.
Proof using G L T.
  intros I Hleaf i Hi. cbv zeta. pose proof (gd_map _ _ _ G) as WF. destruct z_tx as [Tz Ez].
  pose proof (image_map_wf _ _ _ _ _ WF _ _ I) as WFi.
  pose proof (halves _ _ _ _ _ WF). pose proof (k_bounds _ _ _ _ _ WF).
  destruct target_ok as (_ & Ht & _).
  assert (Ep : forall p, 3 <= p -> set_page D t (m0 t) p = D p).
  { intros p Hp. apply set_page_ne. destruct Ht as [-> | ->];
      unfold CybouDB_SB_PAGE_A, CybouDB_SB_PAGE_B; lia. }
  destruct (tx_stage _ _ _ _ _ _ _ Tz) as [[Eb _]|[Eb Hl]]; rewrite Ez in Eb; rewrite Eb in *.
  - pose proof (wf_twins _ _ _ _ _ WFi i Hi) as Htw. cbv zeta in Htw. rewrite !Ep in Htw by lia. exact Htw.
  - assert (Eo : other_root k other = live).
    { unfold other_root at 1. destruct (Z.eqb_spec other CybouDB_MIN_PAGES); unfold CybouDB_MIN_PAGES in *; lia. }
    rewrite Eo. rewrite <- (Ep (live + i)) by lia.
    rewrite (image_live_leaf _ _ _ _ _ WF _ _ i I Hi), Hleaf by done.
    destruct (Hl i Hi) as [[Egen _]|E]; [|done].
    destruct (wf_live_leaf _ _ _ _ _ WF i Hi) as [Hg _]. lia.
Qed.

(** The file that is left is one the engine wrote, with the new generation
    live. *)
Lemma new_good D : g + 1 < UINT64_MAX -> commit_proved z = true ->
  db_catalog_validate (chooser size m0) z.2 final = true ->
  tx_image (db_dirty s.1) (set_page D t (m0 t)) -> D t = final ->
  (forall p, first <= p -> D p = z.2 p) ->
  (forall i, 0 <= i < k -> D (db_bitmap s.1 + i) = z.2 (db_bitmap s.1 + i)) ->
  good D size t.
Proof using G L T.
  intros Hmax Hpr Hcat I Et Hpay Hleaf. pose proof (gd_map _ _ _ G) as WF.
  pose proof (gd_header _ _ _ G) as H. pose proof (chooser_span m0 size H) as Hs.
  pose proof (new_accepted D Hpr Hcat I Et Hpay Hleaf) as Hacc.
  pose proof (proved_map D Hpr Hleaf) as Hm. destruct final_ok as (Fok & Fv & Fs).
  destruct target_ok as (_ & Ht & Hne). pose proof (image_sb _ _ I) as En.
  pose proof (image_map_wf _ _ _ _ _ WF _ _ I) as WFi.
  pose proof (halves _ _ _ _ _ WF). pose proof (first_eq pages). pose proof (k_bounds _ _ _ _ _ WF).
  pose proof (wf_generation _ _ _ _ _ WF). pose proof (tx_alloc _ _ _ _ _ _ _ T).
  pose proof (wf_alloc _ _ _ _ _ WF).
  assert (Ht3 : 0 < t < 3) by (destruct Ht as [-> | ->]; unfold CybouDB_SB_PAGE_A, CybouDB_SB_PAGE_B; lia).
  assert (Eo : other_sb t = n) by (unfold other_sb; lia).
  assert (Ep : forall p, CybouDB_MIN_PAGES <= p -> set_page D t (m0 t) p = D p).
  { intros p Hp. apply set_page_ne. unfold CybouDB_MIN_PAGES in Hp. lia. }
  constructor.
  - by apply (image_header_wf (db_dirty s.1)).
  - exact Ht.
  - assert (E : forall p, 0 <= p < 3 -> page_ok (m0 p) -> page_ok (D p)).
    { intros p Hp' Ho. destruct (decide (p = t)) as [->|]; [by rewrite Et|].
      by rewrite (image_fixed _ _ I). }
    unfold CybouDB_SB_PAGE_A, CybouDB_SB_PAGE_B in *. split; apply E; try lia; apply (gd_sb_ok _ _ _ G).
  - by rewrite Et.
  - exact Hacc.
  - rewrite Et. unfold pages_of, alloc_of, root_of, generation_of.
    rewrite (says_pages _ _ _ Fs), (says_alloc _ _ _ Fs), (says_bitmap _ _ _ Fs), (says_generation _ _ _ Fs).
    rewrite (tx_db_pages _ _ _ _ _ _ _ T). constructor.
    + apply (wf_pages _ _ _ _ _ WF).
    + lia.
    + destruct (tx_stage _ _ _ _ _ _ _ T) as [[-> _]|[-> _]]; unfold CybouDB_MIN_PAGES; lia.
    + intros p Hp. rewrite <- Ep by lia. by apply (wf_leaves _ _ _ _ _ WFi).
    + lia.
    + intros i Hi. apply (new_leaf_wf (chooser size m0)); [exact Hm|exact Hs|done|by apply Hleaf].
    + by apply (new_twins D I Hleaf).
  - cbv zeta. rewrite Eo, En, Et. right. left. unfold generation_of at 2.
    rewrite (says_generation _ _ _ Fs). lia.
Qed.

End commit.
End session.
