(* ===== verification/CatalogGraph.v ===== *)
(** * CatalogGraph: the walk of the graph below a root

    [db_catalog_validate] of [src/core/catalog.asm] with the checks it makes of a
    page, a schema and a name: the directory, and every object it names, of a
    candidate superblock.  What lies below an object - row storage, zone maps,
    index trees, queue and stream segments - is walked by the modules that own
    them, the interface [Objects].  An instance of [Objects] that keeps to the
    payload of the candidate makes the walk the interface [Walk] that the
    allocation map and recovery are stated over. *)

From S2P Require Import Prelude Crc32c AllocMap Storage Superblock Transaction Recovery.

Module Graph.

(** ** The format ([include/catalog.inc] and its companions) *)

Definition CAT_MAGIC_VALUE : Z := 0x43515341.
Definition CAT_VERSION_VALUE : Z := 1.
Definition CAT_VERSION : Z := 4.
Definition CAT_GENERATION : Z := 16.
Definition CAT_TYPE : Z := 32.
Definition CAT_COUNT : Z := 36.
Definition CAT_RESERVED : Z := 40.
Definition CAT_STATS_ROOT : Z := 56.
Definition CAT_DATA : Z := 64.
Definition CAT_CRC : Z := 4092.
Definition CAT_DIRECTORY : Z := 1.
Definition CAT_SCHEMA : Z := 2.
Definition CAT_INDEX : Z := 3.
Definition CAT_QUEUE : Z := 4.
Definition CAT_STREAM : Z := 5.
Definition CAT_MAX_TABLES : Z := 251.
Definition CAT_TABLE_NAME : Z := 64.
Definition CAT_COLUMNS : Z := 96.
Definition CAT_MAX_COLUMNS : Z := 64.
Definition CAT_INT32 : Z := 1.
Definition CAT_BOOL : Z := 4.
Definition CAT_BLOB : Z := 6.
Definition CAT_VECTOR : Z := 7.
Definition CAT_NULLABLE : Z := 1.

Definition has_feature (d : db) (bit : Z) : bool := negb ((db_features d .& bit) =? 0).

(** ** Names, tails and schemas *)

Definition is_letter (b : Z) : bool :=
  (b =? 95) || ((65 <=? b) && (b <=? 90)) || ((97 <=? b) && (b <=? 122)).
Definition is_digit (b : Z) : bool := (48 <=? b) && (b <=? 57).

(** [name_valid]: an identifier, then zeros to the end of its field; [seen] when
    there has been a character. *)
Fixpoint name_chars (field : list Z) (seen : bool) : bool :=
  match field with
  | [] => false
  | b :: rest =>
      if b =? 0 then seen && forallb (fun c => c =? 0) rest
      else (is_letter b || (seen && is_digit b)) && name_chars rest true
  end.

Definition name_valid (pg : page) (off width : Z) : bool :=
  name_chars (take (Z.to_nat width) (drop (Z.to_nat off) pg)) false.

Definition equal_name (a : page) (off : Z) (b : page) (off' width : Z) : bool :=
  forallb (fun i => rd 8 a (off + 8 * i) =? rd 8 b (off' + 8 * i)) (seqZ 0 (width / 8)).

Definition zero_tail (pg : page) (off : Z) : bool :=
  forallb (fun b => b =? 0) (take (Z.to_nat (CAT_CRC - off)) (drop (Z.to_nat off) pg)).

(** The type and the flags of a column. *)
Definition column_type_ok (d : db) (ty flags : Z) : bool :=
  if ty <? CAT_INT32 then false
  else if ty <=? CAT_BOOL then (flags .& u32 (Z.lnot CAT_NULLABLE)) =? 0
  else if ty <=? CAT_BLOB then
    has_feature d CybouDB_FEATURE_VARLEN && ((flags .& u32 (Z.lnot CAT_NULLABLE)) =? 0)
  else if ty =? CAT_VECTOR then
    has_feature d CybouDB_FEATURE_VECTOR &&
    ((flags .& (0xffff - CAT_NULLABLE)) =? 0) &&
    negb (flags .>> 16 =? 0) && (flags .>> 16 <=? 4096)
  else false.

Definition column_at (i : Z) : Z := CAT_COLUMNS + 32 * i.

Definition column_valid (d : db) (pg : page) (i : Z) : bool :=
  column_type_ok d (rd 4 pg (column_at i)) (rd 4 pg (column_at i + 4)) &&
  name_valid pg (column_at i + 8) 24 &&
  forallb (fun j => negb (equal_name pg (column_at i + 8) pg (column_at j + 8) 24)) (seqZ 0 i).

Definition schema_valid (d : db) (pg : page) : bool :=
  let count := rd 4 pg CAT_COUNT in
  negb (count =? 0) && (count <=? CAT_MAX_COLUMNS) &&
  name_valid pg CAT_TABLE_NAME 32 &&
  forallb (column_valid d pg) (seqZ 0 count) &&
  zero_tail pg (column_at count).

(** ** Pages *)

(** What the reserved span of a page may hold, by its type. *)
Definition reserved_ok (d : db) (pg : page) : bool :=
  let type := rd 4 pg CAT_TYPE in
  let clear := (rd 8 pg CAT_RESERVED .| rd 8 pg (CAT_RESERVED + 8) .| rd 8 pg (CAT_RESERVED + 16)) =? 0 in
  if type =? CAT_QUEUE then has_feature d CybouDB_FEATURE_QUEUE
  else if type =? CAT_STREAM then has_feature d CybouDB_FEATURE_STREAM
  else if negb (has_feature d CybouDB_FEATURE_PAX) then clear
  else if type =? CAT_INDEX then has_feature d CybouDB_FEATURE_INDEX
  else if type =? CAT_SCHEMA then
    (rd 8 pg CAT_STATS_ROOT =? 0) || has_feature d CybouDB_FEATURE_ZONE_MAPS
  else clear.

(** Membership is asked before the page is looked at. *)
Definition page_valid (d : db) (m : mem) (sb : page) (id : Z) : bool :=
  if db_bitmap_candidate_payload d m sb id then
    let pg := m id in
    (rd 4 pg CAT_MAGIC =? CAT_MAGIC_VALUE) &&
    (rd 4 pg CAT_VERSION =? CAT_VERSION_VALUE) &&
    (rd 8 pg CAT_PAGE_ID =? id) &&
    negb (rd 8 pg CAT_GENERATION =? 0) &&
    (rd 8 pg CAT_GENERATION <=? rd 8 sb SB_GENERATION) &&
    reserved_ok d pg &&
    (if db_bitmap_deep d sb (rd 8 pg CAT_GENERATION)
     then rd 4 pg CAT_CRC =? crc (take (Z.to_nat CAT_CRC) pg) else true)
  else false.

(** What the modules below answer for an object's page. *)
Class Objects := {
  db_pax_validate : db -> mem -> page -> Z -> bool;
  db_zone_validate : db -> mem -> page -> Z -> bool;
  index_page_valid : db -> mem -> page -> Z -> bool;
  queue_page_valid : db -> mem -> page -> Z -> bool;
  stream_page_valid : db -> mem -> page -> Z -> bool
}.

(** ** The directory *)

Definition entry_id (dir : page) (i : Z) : Z := rd 8 dir (CAT_DATA + 16 * i).
Definition entry_page (dir : page) (i : Z) : Z := rd 8 dir (CAT_DATA + 16 * i + 8).

(** The page the directory [dir] names for an object, 0 when it does not. *)
Definition catalog_entry_in (d : db) (m : mem) (dir id type : Z) : Z :=
  let pg := m dir in
  let count := rd 4 pg CAT_COUNT in
  if (dir <? CybouDB_MIN_PAGES) || (db_pages d <=? dir) then 0
  else if negb (rd 4 pg CAT_TYPE =? CAT_DIRECTORY) then 0
  else if (count =? 0) || (CAT_MAX_TABLES <? count) then 0
  else match list_find (fun i => entry_id pg i = id) (seqZ 0 count) with
       | None => 0
       | Some (_, i) =>
           let p := entry_page pg i in
           if (p <? CybouDB_MIN_PAGES) || (db_pages d <=? p) then 0
           else if negb (type =? 0) && negb (rd 4 (m p) CAT_TYPE =? type) then 0
           else if negb (rd 8 (m p) CAT_OWNER =? id) then 0
           else p
       end.

Section walk.
Context {O : Objects}.

(** The published directory names the same object at the same page. *)
Definition inherited (d : db) (m : mem) (id p : Z) : bool :=
  if negb (db_verify d =? 0) || cs_overflow (db_cs d) || (db_sb_page d =? 0) then false
  else
    let old := catalog_entry_in d m (rd 8 (m (db_sb_page d)) SB_ROOT_PAGE) id (rd 4 (m p) CAT_TYPE) in
    negb (old =? 0) && (old =? p).

Definition object_valid (d : db) (m : mem) (sb : page) (p : Z) : bool :=
  let type := rd 4 (m p) CAT_TYPE in
  if type =? CAT_INDEX then index_page_valid d m sb p
  else if type =? CAT_QUEUE then queue_page_valid d m sb p
  else if type =? CAT_STREAM then stream_page_valid d m sb p
  else (type =? CAT_SCHEMA) && schema_valid d (m p) && db_pax_validate d m sb p &&
       db_zone_validate d m sb p.

(** One turn of [.leaf]: ids increase, the page answers to its id, nothing older
    names what it names. *)
Definition entry_valid (d : db) (m : mem) (sb dir : page) (i : Z) : bool :=
  let id := entry_id dir i in
  let p := entry_page dir i in
  ((if i =? 0 then 0 else entry_id dir (i - 1)) <? id) &&
  page_valid d m sb p &&
  (rd 8 (m p) CAT_OWNER =? id) &&
  (rd 8 (m p) CAT_GENERATION <=? rd 8 dir CAT_GENERATION) &&
  (inherited d m id p || object_valid d m sb p) &&
  forallb (fun j => negb (equal_name (m p) CAT_TABLE_NAME (m (entry_page dir j)) CAT_TABLE_NAME 32))
    (seqZ 0 i).

Definition directory_valid (d : db) (m : mem) (sb : page) (root : Z) : bool :=
  let dir := m root in
  let count := rd 4 dir CAT_COUNT in
  page_valid d m sb root &&
  (rd 4 dir CAT_TYPE =? CAT_DIRECTORY) &&
  (rd 8 dir CAT_OWNER =? 0) &&
  negb (count =? 0) && (count <=? CAT_MAX_TABLES) &&
  zero_tail dir (16 * count + CAT_DATA) &&
  forallb (entry_valid d m sb dir) (seqZ 0 count).

Definition db_catalog_validate (d : db) (m : mem) (sb : page) : bool :=
  if negb (has_feature d CybouDB_FEATURE_CATALOG) then true
  else let root := rd 8 sb SB_ROOT_PAGE in
       if root =? 0 then true else directory_valid d m sb root.

(** ** The graph of the transaction *)

(** The candidate [current_valid] lays out on its stack, over what the frame
    holds: the staged map and root, at the generation to come. *)
Definition staged_candidate (frame : page) (d : db) : page :=
  let generation := if db_generation d =? UINT64_MAX then db_generation d else db_generation d + 1 in
  let sb := wr 8 frame SB_GENERATION generation in
  let sb := wr 8 sb SB_ALLOC_PAGES (db_alloc d) in
  let sb := wr 8 sb SB_BITMAP_ROOT (db_bitmap d) in
  let sb := wr 8 sb SB_ROOT_PAGE (db_root d) in
  wr 4 sb SB_STAGED 1.

Definition set_validated (d : db) : db :=
  mk_db (db_size d) (db_features d) (db_verify d) (db_writable d) (db_mode d) (db_pages d)
    (db_alloc d) (db_generation d) (db_freelist d) (db_root d) (db_bitmap d) (db_sb_page d)
    (db_floor d) (db_reuse_next d) (db_reusable d) (db_tx_active d) true (db_damaged d)
    (db_prove d) (db_audit d) (db_dirty d) (db_cs d).

(** A writer remembers the answer. *)
Definition current_valid (frame : page) (s : state) : bool * state :=
  let '(d, m) := s in
  if db_writable d && db_validated d then (true, s)
  else if db_catalog_validate d m (staged_candidate frame d) then
    (true, if db_writable d then (set_validated d, m) else s)
  else (false, s).

Definition CybouDB_E_CATALOG : Z := 26.
Definition CybouDB_E_NOTFOUND : Z := 28.

(** The code, and the page of the object when there is one.  The directory was
    accepted by the walk, so that its count is not zero and lies within the page. *)
Definition db_catalog_get (frame : page) (s : state) (id : Z) : Z * option Z * state :=
  if db_mode s.1 =? -1 then (CybouDB_E_STATE, None, s)
  else if negb (has_feature s.1 CybouDB_FEATURE_CATALOG) then (CybouDB_E_STATE, None, s)
  else
    let '(ok, s) := current_valid frame s in
    if negb ok then (CybouDB_E_CATALOG, None, s)
    else if db_root s.1 =? 0 then (CybouDB_E_NOTFOUND, None, s)
    else
      let dir := s.2 (db_root s.1) in
      match list_find (fun i => entry_id dir i = id) (seqZ 0 (rd 4 dir CAT_COUNT)) with
      | None => (CybouDB_E_NOTFOUND, None, s)
      | Some (_, i) => (CybouDB_OK, Some (entry_page dir i), s)
      end.

End walk.
End Graph.

(** ** The walk keeps to the payload *)

(** Two files that agree on the map a candidate names and on its payload, seen by
    an open that has published nothing yet. *)
Record agree (d : db) (m m' : mem) (sb : page) : Prop := mk_agree {
  ag_span : has_span d = true;
  ag_fresh : db_sb_page d = 0;
  ag_leaves_pos : 0 <= db_bitmap_leaves (rd 8 sb SB_TOTAL_PAGES);
  ag_alloc : rd 8 sb SB_ALLOC_PAGES <=
    db_bitmap_leaves (rd 8 sb SB_TOTAL_PAGES) * CybouDB_MAP_LEAF_PAGES;
  ag_leaves : forall i, 0 <= i < db_bitmap_leaves (rd 8 sb SB_TOTAL_PAGES) ->
    m (rd 8 sb SB_BITMAP_ROOT + i) = m' (rd 8 sb SB_BITMAP_ROOT + i);
  ag_payload : forall p, db_bitmap_candidate_payload d m sb p = true -> m p = m' p
}.

(** What the modules below promise of the objects they walk. *)
Class ObjectsLocal (O : Graph.Objects) : Prop :=
  objects_local : forall d m m' sb p, agree d m m' sb ->
    db_bitmap_candidate_payload d m sb p = true ->
    Graph.db_pax_validate d m sb p = Graph.db_pax_validate d m' sb p /\
    Graph.db_zone_validate d m sb p = Graph.db_zone_validate d m' sb p /\
    Graph.index_page_valid d m sb p = Graph.index_page_valid d m' sb p /\
    Graph.queue_page_valid d m sb p = Graph.queue_page_valid d m' sb p /\
    Graph.stream_page_valid d m sb p = Graph.stream_page_valid d m' sb p.

Section local.
Context {O : Graph.Objects} {OL : ObjectsLocal O}.

Lemma agree_candidate d m m' sb p : agree d m m' sb ->
  db_bitmap_candidate_payload d m sb p = db_bitmap_candidate_payload d m' sb p.
Proof using Type. intros []. by apply candidate_local. Qed.

Lemma agree_sym d m m' sb : agree d m m' sb -> agree d m' m sb.
Proof using Type.
  intros A. pose proof A as []. constructor; try done.
  - intros i Hi. symmetry. auto.
  - intros p Hp. symmetry. apply (ag_payload _ _ _ _ A). by rewrite (agree_candidate _ _ m') by done.
Qed.

Lemma page_valid_payload d m sb p : Graph.page_valid d m sb p = true ->
  db_bitmap_candidate_payload d m sb p = true.
Proof using Type. unfold Graph.page_valid. by destruct (db_bitmap_candidate_payload d m sb p). Qed.

Lemma page_valid_agree d m m' sb p : agree d m m' sb -> Graph.page_valid d m sb p = true ->
  Graph.page_valid d m' sb p = true /\ m p = m' p.
Proof using Type.
  intros A Hv. pose proof (page_valid_payload _ _ _ _ Hv) as Hc.
  pose proof (ag_payload _ _ _ _ A p Hc) as E. split; [|done]. rewrite <- Hv. unfold Graph.page_valid.
  by rewrite <- (agree_candidate _ _ _ _ p A), Hc, E.
Qed.

Lemma object_valid_agree d m m' sb p : agree d m m' sb ->
  db_bitmap_candidate_payload d m sb p = true ->
  Graph.object_valid d m sb p = Graph.object_valid d m' sb p.
Proof using OL.
  intros A Hc. destruct (objects_local d m m' sb p A Hc) as (E1 & E2 & E3 & E4 & E5).
  unfold Graph.object_valid. by rewrite <- (ag_payload _ _ _ _ A p Hc), E1, E2, E3, E4, E5.
Qed.

Lemma entry_valid_page d m sb dir i : Graph.entry_valid d m sb dir i = true ->
  Graph.page_valid d m sb (Graph.entry_page dir i) = true.
Proof using Type. unfold Graph.entry_valid. cbv zeta. rewrite !andb_true_iff. tauto. Qed.

Lemma entry_valid_agree d m m' sb dir i : agree d m m' sb ->
  (forall j, 0 <= j < i -> m (Graph.entry_page dir j) = m' (Graph.entry_page dir j)) ->
  Graph.entry_valid d m sb dir i = true -> Graph.entry_valid d m' sb dir i = true.
Proof using OL.
  intros A Hb Hv. pose proof (entry_valid_page _ _ _ _ _ Hv) as Hp.
  destruct (page_valid_agree _ _ m' _ _ A Hp) as [Hp' E].
  pose proof (object_valid_agree _ _ _ _ _ A (page_valid_payload _ _ _ _ Hp)) as Eo.
  unfold Graph.entry_valid in *. cbv zeta in *. unfold Graph.inherited in *.
  rewrite (ag_fresh _ _ _ _ A), orb_true_r in *. cbn [orb] in *. rewrite <- E, <- Eo, Hp'.
  rewrite !andb_true_iff in Hv |- *. destruct Hv as (((((H1 & _) & H2) & H3) & H4) & H5).
  split_and!; try done. rewrite <- H5. apply forallb_ext_in. intros j Hj%in_seqZ. by rewrite (Hb j) by lia.
Qed.

Lemma directory_agree d m m' sb root : agree d m m' sb ->
  Graph.directory_valid d m sb root = true -> Graph.directory_valid d m' sb root = true.
Proof using OL.
  intros A Hv. unfold Graph.directory_valid in *. cbv zeta in *. rewrite !andb_true_iff in Hv |- *.
  destruct Hv as ((((((Hp & H1) & H2) & H3) & H4) & H5) & Hall).
  destruct (page_valid_agree _ _ m' _ _ A Hp) as [Hp' E]. rewrite <- E. split_and!; try done.
  rewrite forallb_forall in Hall. apply forallb_forall. intros i Hi. pose proof Hi as Hi'%in_seqZ.
  apply (entry_valid_agree d m); [done| |auto]. intros j Hj.
  apply (page_valid_agree d m m' sb); [done|]. eapply entry_valid_page. apply Hall, in_seqZ. lia.
Qed.

(** The walk is the one recovery is stated over. *)
#[global] Instance graph_walk : Walk := {
  db_catalog_validate := Graph.db_catalog_validate;
  catalog_entry_in := Graph.catalog_entry_in
}.

#[global] Instance graph_walk_local : WalkLocal graph_walk.
Proof using OL.
  constructor.
  - intros d m m' sb Hs Hn Hk Ha Hl Hp. assert (A : agree d m m' sb) by (by constructor).
    cbn. unfold Graph.db_catalog_validate. case_if; [done|]. cbv zeta. case_if; [done|].
    apply eq_true_iff_eq. split; apply directory_agree; [done|by apply agree_sym].
  - intros d m sb Hr. cbn. unfold Graph.db_catalog_validate. rewrite Hr. by case_if.
Qed.
End local.

(** ** What an accepted directory is *)

(** The pages of the directory are pages of the file. *)
Lemma payload_in_file d m sb p : rd 8 sb SB_ALLOC_PAGES <= db_pages d ->
  db_bitmap_candidate_payload d m sb p = true -> (p <? CybouDB_MIN_PAGES) || (db_pages d <=? p) = false.
Proof.
  unfold db_bitmap_candidate_payload. intros Ha. destruct (Z.ltb_spec p CybouDB_MIN_PAGES); [done|].
  destruct (Z.leb_spec (rd 8 sb SB_ALLOC_PAGES) p); [done|]. intros _. cbn [orb]. apply Z.leb_gt. lia.
Qed.

Section directory.
Context {O : Graph.Objects}.
Context (d : db) (m : mem) (sb : page) (root : Z).
Hypothesis Hv : Graph.directory_valid d m sb root = true.

#[local] Notation dir := (m root).
#[local] Notation count := (rd 4 (m root) Graph.CAT_COUNT).

Lemma directory_parts : Graph.page_valid d m sb root = true /\
  rd 4 dir Graph.CAT_TYPE = Graph.CAT_DIRECTORY /\ 0 <> count /\ count <= Graph.CAT_MAX_TABLES /\
  forall i, 0 <= i < count -> Graph.entry_valid d m sb dir i = true.
Proof using Hv.
  unfold Graph.directory_valid in Hv. cbv zeta in Hv. rewrite !andb_true_iff in Hv.
  destruct Hv as ((((((H1 & H2) & _) & H3) & H4) & _) & Hall).
  apply Z.eqb_eq in H2. apply negb_true_iff, Z.eqb_neq in H3. apply Z.leb_le in H4.
  rewrite forallb_forall in Hall. split_and!; [done|done|by symmetry|done|].
  intros i Hi. apply Hall. by apply in_seqZ.
Qed.

Lemma entry_parts i : 0 <= i < count ->
  Graph.page_valid d m sb (Graph.entry_page dir i) = true /\
  rd 8 (m (Graph.entry_page dir i)) CAT_OWNER = Graph.entry_id dir i /\
  (if i =? 0 then 0 else Graph.entry_id dir (i - 1)) < Graph.entry_id dir i /\
  forall j, 0 <= j < i -> Graph.equal_name (m (Graph.entry_page dir i)) Graph.CAT_TABLE_NAME
    (m (Graph.entry_page dir j)) Graph.CAT_TABLE_NAME 32 = false.
Proof using Hv.
  intros Hi. destruct directory_parts as (_ & _ & _ & _ & Hall). specialize (Hall i Hi).
  unfold Graph.entry_valid in Hall. cbv zeta in Hall. rewrite !andb_true_iff in Hall.
  destruct Hall as (((((H1 & H2) & H3) & _) & _) & H4).
  apply Z.ltb_lt in H1. apply Z.eqb_eq in H3. rewrite forallb_forall in H4.
  split_and!; [done|done|done|]. intros j Hj. apply negb_true_iff, H4. by apply in_seqZ.
Qed.

Lemma ids_increase i j : 0 <= i < j -> j < count -> Graph.entry_id dir i < Graph.entry_id dir j.
Proof using Hv.
  intros Hij Hj. remember (Z.to_nat (j - i - 1)) as n eqn:En. revert j Hij Hj En.
  induction n as [|n IH]; intros j Hij Hj En; destruct (entry_parts j ltac:(lia)) as (_ & _ & Hlt & _);
    rewrite (proj2 (Z.eqb_neq j 0)) in Hlt by lia.
  - by replace i with (j - 1) by lia.
  - etransitivity; [apply (IH (j - 1)); lia|done].
Qed.

Lemma id_positive i : 0 <= i < count -> 0 < Graph.entry_id dir i.
Proof using Hv.
  intros Hi. destruct (decide (i = 0)) as [->|Hne].
  - by destruct (entry_parts 0 Hi) as (_ & _ & Hlt & _).
  - etransitivity; [|apply (ids_increase 0); lia].
    by destruct (entry_parts 0 ltac:(lia)) as (_ & _ & Hlt & _).
Qed.

(** A lookup finds the entry that has the id. *)
Lemma entry_found i : 0 <= i < count -> rd 8 sb SB_ALLOC_PAGES <= db_pages d ->
  Graph.catalog_entry_in d m root (Graph.entry_id dir i) 0 = Graph.entry_page dir i.
Proof using Hv.
  intros Hi Ha. destruct directory_parts as (Hp & Hty & Hc0 & Hc & _).
  destruct (entry_parts i Hi) as (Hpi & Ho & _ & _). unfold Graph.catalog_entry_in.
  rewrite (payload_in_file d m sb root Ha (page_valid_payload _ _ _ _ Hp)), Hty. cbv zeta. cbn [negb].
  rewrite Z.eqb_refl. cbn [negb]. rewrite (proj2 (Z.eqb_neq _ _) (not_eq_sym Hc0)).
  rewrite (proj2 (Z.ltb_ge _ _) Hc). cbn [orb].
  destruct (list_find _ (seqZ 0 count)) as [[k i']|] eqn:Ef.
  - apply list_find_Some in Ef as (Hk & Hid & _). apply lookup_seqZ in Hk as [-> Hk].
    assert (Ei : 0 + Z.of_nat k = i).
    { destruct (Z.lt_trichotomy (0 + Z.of_nat k) i) as [Hlt|[|Hlt]]; [|done|].
      - pose proof (ids_increase (0 + Z.of_nat k) i ltac:(lia) ltac:(lia)). lia.
      - pose proof (ids_increase i (0 + Z.of_nat k) ltac:(lia) ltac:(lia)). lia. }
    rewrite Ei. rewrite (payload_in_file d m sb _ Ha (page_valid_payload _ _ _ _ Hpi)), Ho.
    change (0 =? 0) with true. cbn [negb andb]. by rewrite Z.eqb_refl.
  - exfalso. apply list_find_None in Ef. rewrite Forall_forall in Ef.
    apply (Ef i); [by apply in_seqZ|done].
Qed.

Lemma entry_missing id : (forall i, 0 <= i < count -> Graph.entry_id dir i <> id) ->
  Graph.catalog_entry_in d m root id 0 = 0.
Proof using Hv.
  intros Hno. unfold Graph.catalog_entry_in. case_if; [done|]. case_if; [done|]. case_if; [done|].
  destruct (list_find _ (seqZ 0 count)) as [[k i]|] eqn:Ef; [|done].
  apply list_find_Some in Ef as (Hk & Hid & _). apply lookup_seqZ in Hk as [-> Hk].
  exfalso. by apply (Hno (0 + Z.of_nat k)); [lia|].
Qed.
End directory.

(** C20: a directory that the walk accepts is a map: its ids are positive and
    increase, every object page is payload of the candidate and answers to the id
    that names it, no two entries share a page or a name, and [catalog_entry_in]
    finds exactly the objects it names. *)
Theorem accepted_directory {O : Graph.Objects} d m sb root :
  Graph.directory_valid d m sb root = true -> rd 8 sb SB_ALLOC_PAGES <= db_pages d ->
  let dir := m root in
  let count := rd 4 dir Graph.CAT_COUNT in
  (forall i, 0 <= i < count ->
     0 < Graph.entry_id dir i /\
     db_bitmap_candidate_payload d m sb (Graph.entry_page dir i) = true /\
     rd 8 (m (Graph.entry_page dir i)) CAT_OWNER = Graph.entry_id dir i /\
     Graph.catalog_entry_in d m root (Graph.entry_id dir i) 0 = Graph.entry_page dir i) /\
  (forall i j, 0 <= i < j -> j < count ->
     Graph.entry_id dir i < Graph.entry_id dir j /\
     Graph.entry_page dir i <> Graph.entry_page dir j /\
     Graph.equal_name (m (Graph.entry_page dir j)) Graph.CAT_TABLE_NAME
       (m (Graph.entry_page dir i)) Graph.CAT_TABLE_NAME 32 = false) /\
  (forall id, (forall i, 0 <= i < count -> Graph.entry_id dir i <> id) ->
     Graph.catalog_entry_in d m root id 0 = 0).
Proof.
  intros Hv Ha. cbv zeta. split_and!.
  - intros i Hi. destruct (entry_parts d m sb root Hv i Hi) as (Hp & Ho & _).
    split_and!; [by eapply id_positive|by apply page_valid_payload|done|by eapply entry_found].
  - intros i j Hij Hj. pose proof (ids_increase d m sb root Hv i j Hij Hj) as Hlt.
    destruct (entry_parts d m sb root Hv j ltac:(lia)) as (_ & Hoj & _ & Hn).
    destruct (entry_parts d m sb root Hv i ltac:(lia)) as (_ & Hoi & _).
    split_and!; [done| |apply Hn; lia]. intros E. rewrite E in Hoi. lia.
  - by apply (entry_missing d m sb root Hv).
Qed.

(** A directory of one queue, page 5, in a file of ten pages: page 6. *)
#[local] Instance unchecked : Graph.Objects := {
  Graph.db_pax_validate := fun _ _ _ _ => true; Graph.db_zone_validate := fun _ _ _ _ => true;
  Graph.index_page_valid := fun _ _ _ _ => true; Graph.queue_page_valid := fun _ _ _ _ => true;
  Graph.stream_page_valid := fun _ _ _ _ => true }.

Definition sample_page (id owner type count : Z) : page :=
  let pg := wr 4 zero_page CAT_MAGIC Graph.CAT_MAGIC_VALUE in
  let pg := wr 4 pg Graph.CAT_VERSION Graph.CAT_VERSION_VALUE in
  let pg := wr 8 pg CAT_PAGE_ID id in
  let pg := wr 8 pg Graph.CAT_GENERATION 1 in
  let pg := wr 8 pg CAT_OWNER owner in
  let pg := wr 4 pg Graph.CAT_TYPE type in
  wr 4 pg Graph.CAT_COUNT count.

Definition sample_map : page := map_set (map_set zero_page 5 MAP_PAYLOAD) 6 MAP_PAYLOAD.
Definition sample_sb : page :=
  wr 8 (wr 8 (wr 8 zero_page SB_GENERATION 2) SB_ALLOC_PAGES 7) SB_BITMAP_ROOT 3.
Definition sample_mem : mem := fun p =>
  if p =? 3 then sample_map
  else if p =? 5 then sample_page 5 9 Graph.CAT_QUEUE 0
  else if p =? 6 then wr 8 (wr 8 (sample_page 6 0 Graph.CAT_DIRECTORY 1) 64 9) 72 5
  else zero_page.
Definition sample_db : db :=
  mk_db 40960 CybouDB_FEATURES_DEFAULT 0 true 1 10 7 1 0 6 3 0 7 3 0 false false 0 false false
    (mk_dirty 0 0 [] false) (mk_changes None false).

Lemma accepted_directory_witness :
  Graph.directory_valid sample_db sample_mem sample_sb 6 = true /\
  Graph.catalog_entry_in sample_db sample_mem 6 9 0 = 5 /\
  Graph.catalog_entry_in sample_db sample_mem 6 8 0 = 0.
Proof.
  assert (Hv : Graph.directory_valid sample_db sample_mem sample_sb 6 = true) by (vm_compute; reflexivity).
  assert (Ha : rd 8 sample_sb SB_ALLOC_PAGES <= db_pages sample_db) by (vm_compute; discriminate).
  destruct (accepted_directory sample_db sample_mem sample_sb 6 Hv Ha) as (H1 & _ & H2).
  assert (Ec : rd 4 (sample_mem 6) Graph.CAT_COUNT = 1) by (vm_compute; reflexivity).
  assert (Ei : Graph.entry_id (sample_mem 6) 0 = 9) by (vm_compute; reflexivity).
  cbv zeta in H1, H2. rewrite Ec in H1, H2.
  split_and!; [exact Hv| |].
  - destruct (H1 0 ltac:(lia)) as (_ & _ & _ & E). rewrite Ei in E. rewrite E. vm_compute. reflexivity.
  - apply H2. intros i Hi. replace i with 0 by lia. rewrite Ei. lia.
Defined.
