(* ===== verification/Durability.v ===== *)
(** * Durability: crashes, commits, rollbacks and whole sessions

    The theorems of the storage engine over [Recovery]: what an open finds after
    a crash at any point of a transaction, that a commit which answered is there
    after any crash, that a rollback leaves the live generation alone, and that
    the file stays one the engine can go on with through every sequence of
    transactions, from the file [db_create] lays out. *)

From stdpp Require Import relations.
From S2P Require Import Prelude Crc32c AllocMap Storage Superblock Transaction Recovery.

Lemma in_take {A} (x : A) i l : In x (take i l) -> In x l.
Proof. intros H. rewrite <- (take_drop i l). apply in_app_iff. by left. Qed.

(** ** The trace of a transaction *)

Section trace.
Context {W : Walk} {L : WalkLocal W}.
Context (m0 : mem) (size n : Z) (G : good m0 size n).
Context (s0 : state) (R : ready m0 size n s0).
Context (ops : list op) (Hops : Forall (op_ok (pages_of (m0 n))) ops).

#[local] Notation pages := (pages_of (m0 n)).
#[local] Notation g := (generation_of (m0 n)).
#[local] Notation t := (other_sb n).
#[local] Notation s := (fold_left run_op ops s0).
#[local] Notation z := (db_bitmap_seal s).
#[local] Notation final := (write_superblock (m0 t) s.1 (g + 1)).
#[local] Notation in_tx := (in_tx m0 pages (alloc_of (m0 n)) (root_of (m0 n)) g n).
#[local] Notation ranges := ((commit_ranges s.1).1 ++ [(commit_ranges s.1).2]).

Lemma ops_tx : in_tx s.
Proof using G R Hops.
  apply (run_ops_tx _ _ _ _ _ (gd_map _ _ _ G) n ops s0); [|done]. by apply (in_tx_start m0 size n G).
Qed.

Lemma ops_images :
  Forall (tx_image m0 pages (root_of (m0 n)) g (db_dirty s.1)) (op_states ops s0).
Proof using G R Hops.
  apply (op_states_image _ _ _ _ _ (gd_map _ _ _ G) n); [|done|done].
  by apply (in_tx_start m0 size n G).
Qed.

Lemma tx_target : target_page s.1 = t.
Proof using G R Hops.
  unfold target_page. rewrite (tx_cur _ _ _ _ _ _ _ ops_tx).
  destruct (gd_page _ _ _ G) as [-> | ->]; reflexivity.
Qed.

(** Every event of a transaction that commits, in order. *)
Definition full_trace : list event :=
  map Stored (op_states ops s0 ++ [z.2]) ++ Synced ranges ::
  map Stored (sb_states z.2 t s.1) ++ [Synced [publish_range s.1]].

(** A commit goes some way along it; it answers [CybouDB_OK] at its end. *)
Lemma commit_trace os : exists j,
  map Stored (op_states ops s0) ++ (db_commit os s).2 = take j full_trace /\
  ((db_commit os s).1.1 = CybouDB_OK ->
   j = length full_trace /\ commit_proved z = true /\
   (db_commit os s).1.2 = db_bitmap_recount (adopt s.1 t, commit_file m0 n s)).
Proof using G L R Hops.
  pose proof ops_tx as T. destruct (in_tx_seal _ _ _ _ _ (gd_map _ _ _ G) _ s T) as [_ Ez].
  pose proof (wf_generation _ _ _ _ _ (gd_map _ _ _ G)) as Hg.
  unfold db_commit. rewrite (tx_mode _ _ _ _ _ _ _ T), (tx_generation _ _ _ _ _ _ _ T),
    (tx_writable _ _ _ _ _ _ _ T).
  rewrite (proj2 (Z.eqb_neq g UINT64_MAX)) by lia. change (1 =? -1) with false. cbv iota. cbn [negb].
  rewrite Ez, tx_target, (tx_generation _ _ _ _ _ _ _ T).
  rewrite u64_small by (unfold UINT64_MAX in Hg; lia).
  rewrite (z_target m0 size n G s T). fold (commit_file m0 n s).
  set (l := op_states ops s0). unfold full_trace. fold l.
  set (js := map Stored (sb_states z.2 t s.1)). set (pub := Synced [publish_range s.1]).
  destruct (commit_ranges s.1) as [ahead range]. cbn [fst snd].
  assert (E1 : map Stored l ++ [Stored z.2] = map Stored (l ++ [z.2])) by (by rewrite map_app).
  destruct (commit_proved z); cbn [negb fst snd].
  2:{ exists (length (map Stored (l ++ [z.2]))). by rewrite take_app_length, E1. }
  destruct (negb (flushed os) || negb (synced os)); cbn [fst snd].
  { exists (length (map Stored (l ++ [z.2]))). by rewrite take_app_length, E1. }
  assert (E2 : map Stored l ++ ([Stored z.2] ++ [Synced (ahead ++ [range])] ++ js) =
               map Stored (l ++ [z.2]) ++ Synced (ahead ++ [range]) :: js).
  { by rewrite <- E1, <- !app_assoc. }
  destruct (published os); cbn [negb fst snd].
  2:{ exists (length (map Stored (l ++ [z.2]) ++ Synced (ahead ++ [range]) :: js)).
      rewrite E2, app_comm_cons, app_assoc, take_app_length. done. }
  eexists. rewrite firstn_all. rewrite app_assoc, E2, <- app_assoc. done.
Qed.

(** A prefix of it ends during the operations, while the superblock is written,
    or at its end. *)
Lemma trace_prefix j :
  (exists i, take j full_trace = map Stored (take i (op_states ops s0 ++ [z.2]))) \/
  (exists i, take j full_trace = map Stored (op_states ops s0 ++ [z.2]) ++ Synced ranges ::
     map Stored (take i (sb_states z.2 t s.1))) \/
  take j full_trace = full_trace.
Proof using Type.
  unfold full_trace. set (A := op_states ops s0 ++ [z.2]). set (B := sb_states z.2 t s.1).
  destruct (decide (j <= length (map Stored A))%nat) as [Hj|Hj].
  { left. exists j. rewrite take_app_le by done. apply firstn_map. }
  rewrite take_app_ge by lia.
  destruct (j - length (map Stored A))%nat as [|i] eqn:Ei; [lia|]. cbn [take].
  destruct (decide (i <= length (map Stored B))%nat) as [Hi|Hi].
  - right. left. exists i. rewrite take_app_le by done. f_equal. f_equal. apply firstn_map.
  - right. right. rewrite (take_ge (map Stored B ++ _)); [done|]. rewrite length_app. cbn [length]. lia.
Qed.

(** Whatever a crash leaves is one of the two generations. *)
Lemma crash_outcome j D :
  (forall i, (18 <= i <= 24)%nat -> sb_crc (sb_partial i (m0 t) s.1 (g + 1)) <> 0) ->
  crash_image m0 pages (take j full_trace) D ->
  finds_old m0 size n s D \/ finds_new m0 size n s D.
Proof using G L R Hops.
  intros Hcrc HD. pose proof ops_tx as T. pose proof ops_images as Him.
  pose proof (z_image m0 size n G s T) as Iz.
  assert (Hout : forall js, (forall x, In x js -> In x (sb_states z.2 t s.1)) ->
    crash_image m0 pages (map Stored (op_states ops s0 ++ [z.2]) ++ Synced ranges :: map Stored js) D ->
    finds_old m0 size n s D \/ finds_new m0 size n s D).
  { intros js Hjs HD'. destruct (second_image m0 size n G s T _ js Him Hjs D HD') as (I & Hp & Ht).
    destruct (image_outcome m0 size n G s T D I Hp Hcrc Ht) as [|[? _]]; auto. }
  destruct (trace_prefix j) as [(i & E)|[(i & E)|E]]; rewrite E in HD.
  - left. apply (first_outcome m0 size n G s T _ D) in HD; [done|].
    apply Forall_take, Forall_app. split; [done|]. by constructor.
  - apply (Hout _ (fun x H => in_take _ _ _ H) HD).
  - unfold full_trace in HD. rewrite app_comm_cons, app_assoc in HD. apply crash_synced in HD as [HD _].
    by apply (Hout (sb_states z.2 t s.1)).
Qed.

(** After the last barrier it is the new one, and the next transaction can
    begin. *)
Lemma crash_durable D : g + 1 < UINT64_MAX -> commit_proved z = true ->
  db_catalog_validate (chooser size m0) z.2 final = true ->
  crash_image m0 pages full_trace D ->
  good D size t /\ sb_says (D t) s.1 (g + 1) /\
  (forall p, first_payload pages <= p -> D p = s.2 p) /\
  (forall i, 0 <= i < db_bitmap_leaves pages -> D (db_bitmap s.1 + i) = z.2 (db_bitmap s.1 + i)).
Proof using G L R Hops.
  intros Hg Hpr Hcat HD. pose proof ops_tx as T.
  destruct (third_image m0 size n G s T _ D ops_images HD) as (I & Et & Hp & Hl).
  split_and!; [by apply (new_good m0 size n G s T)| | |done].
  - rewrite Et. apply (final_ok m0 size n G s T).
  - intros p Hf. rewrite Hp by done. by apply (z_payload m0 size n G s T).
Qed.

End trace.

(** ** What a commit and a rollback leave *)

Section endings.
Context {W : Walk} {L : WalkLocal W}.
Context (m0 : mem) (size n : Z) (G : good m0 size n).
Context (s : state).

#[local] Notation pages := (pages_of (m0 n)).
#[local] Notation live := (root_of (m0 n)).
#[local] Notation k := (db_bitmap_leaves pages).
#[local] Notation g := (generation_of (m0 n)).
#[local] Notation t := (other_sb n).
#[local] Notation z := (db_bitmap_seal s).
#[local] Notation final := (write_superblock (m0 t) s.1 (g + 1)).
#[local] Notation in_tx := (in_tx m0 pages (alloc_of (m0 n)) live g n).
#[local] Notation tx_image := (tx_image m0 pages live g).

Hypothesis T : in_tx s.

Lemma commit_file_good : g + 1 < UINT64_MAX -> commit_proved z = true ->
  db_catalog_validate (chooser size m0) z.2 final = true ->
  good (commit_file m0 n s) size t.
Proof using G L T.
  intros Hg Hpr Hcat. destruct (target_ok m0 size n G) as (_ & Ht & _).
  pose proof (gd_map _ _ _ G) as WF. pose proof (halves _ _ _ _ _ WF). pose proof (first_eq pages).
  pose proof (k_bounds _ _ _ _ _ WF). unfold CybouDB_SB_PAGE_A, CybouDB_SB_PAGE_B in Ht.
  assert (Ep : forall p, set_page (commit_file m0 n s) t (m0 t) p = z.2 p).
  { intros p. destruct (decide (p = t)) as [->|Hne].
    - rewrite set_page_eq. symmetry. by apply (z_target m0 size n G s T).
    - rewrite set_page_ne by done. by apply set_page_ne. }
  apply (new_good m0 size n G s T); try done.
  - destruct (z_image m0 size n G s T) as [I1 I2]. constructor; intros; rewrite Ep; auto.
  - apply set_page_eq.
  - intros p Hp. apply set_page_ne. lia.
  - intros i Hi. apply set_page_ne.
    destruct (tx_stage _ _ _ _ _ _ _ T) as [[-> _]|[-> _]]; lia.
Qed.

Lemma commit_ready : g + 1 < UINT64_MAX ->
  ready (commit_file m0 n s) size t (db_bitmap_recount (adopt s.1 t, commit_file m0 n s)).
Proof using G L T.
  intros Hg. pose proof (gd_header _ _ _ G) as H.
  destruct (accepted_bounds m0 size (m0 n) H (gd_accepted _ _ _ G)) as (Hsz & _).
  destruct (final_ok m0 size n G s T) as (_ & _ & Fs).
  pose proof (wf_generation _ _ _ _ _ (gd_map _ _ _ G)).
  assert (Et : commit_file m0 n s t = final) by apply set_page_eq.
  assert (E0 : commit_file m0 n s 0 = m0 0).
  { destruct (target_ok m0 size n G) as (_ & Ht & _). unfold commit_file.
    rewrite set_page_ne by (destruct Ht as [-> | ->]; unfold CybouDB_SB_PAGE_A, CybouDB_SB_PAGE_B; lia).
    by apply (image_good m0 size n G _ _ (z_image m0 size n G s T)). }
  apply ready_recount; [exact (tx_span _ _ _ _ _ _ _ T)|].
  destruct T. constructor; simpl; unfold flags, pages_of, alloc_of, root_of, generation_of;
    rewrite ?Et, ?E0, ?(says_pages _ _ _ Fs), ?(says_alloc _ _ _ Fs), ?(says_bitmap _ _ _ Fs),
      ?(says_generation _ _ _ Fs), ?(says_freelist _ _ _ Fs), ?(says_root _ _ _ Fs); try done.
  - congruence.
  - rewrite tx_generation, u64_small; [done|]. unfold UINT64_MAX in *. lia.
  - lia.
  - by constructor.
Qed.

(** The staged half is the live one again, nothing else has changed. *)
Lemma rollback_file : tx_image (db_dirty s.1) (copy_leaves k live (other_root k live) s.2).
Proof using G T.
  pose proof (gd_map _ _ _ G) as WF.
  destruct (copy_leaves_spec _ _ _ _ _ WF s.2) as [C1 C2]. constructor.
  - intros p. destruct (decide (other_root k live <= p < other_root k live + k)) as [|Ho]; [by left|].
    rewrite C2 by done. apply (tx_pages _ _ _ _ _ _ _ T).
  - intros i Hi. right. right. rewrite C1 by done. by apply (tx_live_leaf _ _ _ _ _ WF _ _ T).
Qed.

Lemma rollback_ready : exists s', db_rollback s = (CybouDB_OK, s') /\
  tx_image (db_dirty s.1) s'.2 /\ ready s'.2 size n s'.
Proof using G L T.
  pose proof (gd_map _ _ _ G) as WF. pose proof (gd_header _ _ _ G) as H.
  destruct (accepted_bounds m0 size (m0 n) H (gd_accepted _ _ _ G)) as (Hsz & _).
  pose proof rollback_file as I. destruct (image_good m0 size n G _ _ I) as [_ E].
  assert (En : live_sb s = m0 n).
  { unfold live_sb. rewrite (tx_cur _ _ _ _ _ _ _ T). by apply (tx_sb_page _ _ _ _ _ WF _ _ T). }
  pose proof (tx_live_root _ _ _ _ _ WF _ _ T) as El.
  unfold db_rollback. destruct s as [d m]. rewrite En, El.
  pose proof (tx_mode _ _ _ _ _ _ _ T) as Em. pose proof (tx_writable _ _ _ _ _ _ _ T) as Ew.
  pose proof (tx_cur _ _ _ _ _ _ _ T) as Ec. cbn [fst snd] in *. rewrite Em, Ew, Ec.
  rewrite (proj2 (Z.eqb_neq n 0)) by (destruct (gd_page _ _ _ G) as [-> | ->]; done).
  change (1 =? -1) with false. change (1 =? 1) with true. cbn [negb]. cbv iota.
  change (has_span (restore d (m0 n))) with (has_span d). rewrite (tx_span _ _ _ _ _ _ _ T : has_span d = true).
  change (db_pages (restore d (m0 n))) with pages. cbv zeta. cbv iota.
  set (m' := copy_leaves k live (other_root k live) m) in *.
  assert (Hpage : forall p, 0 <= p < 3 -> m' p = m0 p) by exact E.
  assert (Rdy : ready m' size n (db_bitmap_recount (restore d (m0 n), m'))).
  { apply ready_recount; [exact (tx_span _ _ _ _ _ _ _ T)|].
    pose proof (wf_alloc _ _ _ _ _ WF).
    assert (En' : m' n = m0 n).
    { apply Hpage. destruct (gd_page _ _ _ G) as [-> | ->]; unfold CybouDB_SB_PAGE_A, CybouDB_SB_PAGE_B; lia. }
    destruct T. cbn [fst snd] in *. constructor; simpl; unfold flags, pages_of, alloc_of, root_of, generation_of in *;
      rewrite ?En', ?(Hpage 0) by lia; try done.
    - congruence.
    - by constructor. }
  destruct (db_bitmap_recount (restore d (m0 n), m')) as [d1 m1] eqn:Er.
  pose proof (rdy_file _ _ _ _ Rdy) as Ef. cbn [snd] in Ef. subst m1.
  exists (end_tx d1, m'). split_and!; [done|exact I|]. destruct Rdy. by constructor.
Qed.

End endings.

(** ** The theorems *)



(** C12: a rollback succeeds; the file is still good at the same generation, its
    superblock and every page that generation reaches are as they were before the
    transaction, and the descriptor is ready for the next one. *)
Theorem rollback_forgets {W : Walk} {L : WalkLocal W} m0 size n s0 ops :
  good m0 size n -> ready m0 size n s0 -> Forall (op_ok (pages_of (m0 n))) ops ->
  exists s', db_rollback (fold_left run_op ops s0) = (CybouDB_OK, s') /\
    good s'.2 size n /\ ready s'.2 size n s' /\ s'.2 n = m0 n /\
    forall p, db_bitmap_candidate_payload (chooser size m0) m0 (m0 n) p = true -> s'.2 p = m0 p.
Proof.
  intros G R Hops. pose proof (ops_tx m0 size n G s0 R ops Hops) as T.
  destruct (rollback_ready m0 size n G _ T) as (s' & E & I & R'). exists s'.
  destruct (image_good m0 size n G _ _ I) as [G' Ep]. split_and!; [done|done|done| |].
  - apply Ep. destruct (gd_page _ _ _ G) as [-> | ->]; unfold CybouDB_SB_PAGE_A, CybouDB_SB_PAGE_B; lia.
  - intros p Hp. destruct (candidate_live m0 size n G p Hp) as [Hf Hst].
    by apply (image_payload _ _ _ _ _ (gd_map _ _ _ G) _ _ _ I).
Qed.

(** C13: a page that an allocation hands out lies behind the metadata; neither the
    live generation nor the transaction itself uses it, it is blank, it may be
    written, and the first barrier of the commit covers it. *)
Theorem alloc_fresh {W : Walk} {L : WalkLocal W} m0 size n s0 ops e p s' :
  good m0 size n -> ready m0 size n s0 -> Forall (op_ok (pages_of (m0 n))) ops ->
  let s := fold_left run_op ops s0 in
  db_cow_alloc_page e s = (CybouDB_OK, p, s') ->
  first_payload (pages_of (m0 n)) <= p < pages_of (m0 n) /\
  db_bitmap_candidate_payload (chooser size m0) m0 (m0 n) p = false /\
  db_bitmap_is_payload s p = false /\ s'.2 p = zero_page /\
  db_bitmap_is_payload s' p = true /\ db_bitmap_is_fresh s' p = true /\
  in_ranges ((commit_ranges s'.1).1 ++ [(commit_ranges s'.1).2]) p = true.
Proof.
  intros G R Hops s Ha. pose proof (gd_map _ _ _ G) as WF.
  pose proof (ops_tx m0 size n G s0 R ops Hops) as T. fold s in T.
  pose proof (cow_alloc_tx _ _ _ _ _ WF _ e s T) as Hg. rewrite Ha in Hg.
  destruct Hg as [[T' _] Hok]. destruct (Hok eq_refl) as (Ht & (Hst & Hal & Hpay & Hz) & Hwas).
  pose proof Ht as (Hp & Hl & Hc). split_and!; try lia.
  - destruct (db_bitmap_candidate_payload _ _ _ p) eqn:Hcand; [|done].
    apply (candidate_live m0 size n G) in Hcand as [_ E]. rewrite E in Hl. by destruct Hl.
  - unfold db_bitmap_is_payload. rewrite (tx_span _ _ _ _ _ _ _ T).
    by rewrite (proj2 (Z.eqb_neq _ _) Hwas), andb_false_r.
  - done.
  - unfold db_bitmap_is_payload. rewrite (tx_span _ _ _ _ _ _ _ T'). unfold staged in Hst.
    rewrite Hst, Hpay, (proj2 (Z.ltb_lt _ _)) by done. done.
  - by apply (handed_out_fresh _ _ _ _ _ WF _ _ p T').
  - apply (commit_covers _ p (pages_of (m0 n))); [|apply (tx_size _ _ _ _ _ _ _ T')|lia|done].
    apply (tx_mode _ _ _ _ _ _ _ T').
Qed.

(** An answer of [db_open]: a database with its file and its mapping, or a refusal
    that keeps the mapping when [leak]. *)
Definition answers (r : open_result) (leak : Prop) : Prop :=
  (op_rc r = CybouDB_OK /\ op_file r = true /\ op_mapping r = true /\ op_db r <> None) \/
  (op_rc r <> CybouDB_OK /\ op_file r = false /\ op_db r = None /\ (op_mapping r = true <-> leak)).

Lemma refuses rc (mapping : bool) (leak : Prop) : rc <> CybouDB_OK -> (mapping = true <-> leak) ->
  answers (close_and_fail rc mapping) leak.
Proof. right. by split_and!. Qed.

Lemma open_mapped_answers {W : Walk} size verify writable m :
  answers (open_mapped size verify writable m)
    (check_header (m 0) = CybouDB_OK /\ size < CybouDB_MIN_PAGES * CybouDB_PAGE_SIZE).
Proof.
  unfold open_mapped. cbv zeta. set (r := db_bitmap_recount _). clearbody r.
  set (c := choose _ _). clearbody c.
  destruct (Z.eqb_spec (check_header (m 0)) CybouDB_OK) as [Eh|Eh]; cbn [negb].
  2:{ apply refuses; [done|]. split; [done|tauto]. }
  destruct (Z.ltb_spec size (CybouDB_MIN_PAGES * CybouDB_PAGE_SIZE)); [by apply refuses|].
  assert (Hn : false = true <-> check_header (m 0) = CybouDB_OK /\ size < CybouDB_MIN_PAGES * CybouDB_PAGE_SIZE).
  { split; [done|lia]. }
  destruct (check_sb_pages (m 0)); cbn [negb]; [|by apply refuses].
  destruct (ch_page c =? 0); [by apply refuses|].
  destruct (Z.eqb_spec (check_geometry (m (ch_page c)) size) CybouDB_OK); cbn [negb]; [|by apply refuses].
  case_if; [by apply refuses|]. left. by split_and!.
Qed.

(** C37: [db_open] answers [CybouDB_OK] with a database, a file and a mapping; on
    every other answer there is no database and the file is closed, and the
    mapping is released too, but for one case: a file with a good header that is
    too short for its superblocks ([.e_small] once the mapping exists) leaves it
    behind. *)
Theorem open_answers {W : Walk} oo writable verify m :
  answers (db_open oo writable verify m)
    (oo_error oo = 0 /\ oo_locked oo = true /\ oo_mapped oo = true /\
     check_header (m 0) = CybouDB_OK /\
     exists size, oo_size oo = Some size /\
       CybouDB_HDR_SIZE <= size < CybouDB_MIN_PAGES * CybouDB_PAGE_SIZE).
Proof.
  unfold db_open. destruct (Z.eqb_spec (oo_error oo) 0) as [He|He]; cbn [negb].
  2:{ apply (refuses (oserr_to_code (oo_error oo) CybouDB_E_OPEN) false); [|split; [done|tauto]].
      unfold oserr_to_code. by repeat case_if. }
  destruct (oo_locked oo); cbn [negb].
  2:{ apply (refuses CybouDB_E_BUSY false); [done|]. split; [done|]. by intros (_ & ? & _). }
  destruct (oo_size oo) as [size|].
  2:{ apply refuses; [done|]. split; [done|]. by intros (_ & _ & _ & _ & ? & ? & _). }
  destruct (Z.ltb_spec size CybouDB_HDR_SIZE) as [Hh|Hh].
  { apply refuses; [done|]. split; [done|]. intros (_ & _ & _ & _ & ? & [= <-] & ?). lia. }
  destruct (oo_mapped oo); cbn [negb].
  2:{ apply refuses; [done|]. split; [done|]. by intros (_ & _ & ? & _). }
  destruct (open_mapped_answers size verify writable m) as [H|(H1 & H2 & H3 & H4)]; [by left|right].
  split_and!; [done|done|done|]. rewrite H4. split.
  - intros [E Hlt]. split_and!; try done. by exists size.
  - intros (_ & _ & _ & E & ? & [= <-] & [_ Hlt]). by split.
Qed.

(** In a file of the legacy format a freed page is the next one handed out, and
    the chain below it is as it was. *)
Lemma free_then_alloc e d m p s' : db_free_page (d, m) p = (CybouDB_OK, s') -> page_ok (m p) ->
  0 <= db_freelist d < 2 ^ 64 ->
  exists s'', db_alloc_page e s' = (CybouDB_OK, p, s'') /\ s''.1 = d /\
    (forall q, q <> p -> s''.2 q = m q) /\ rd 4 (s''.2 p) FREE_MAGIC = 0.
Proof.
  unfold db_free_page. intros H Hok Hf.
  destruct (Z.eqb_spec (db_mode d) 0) as [Em|]; [|by apply (f_equal fst) in H]. cbn [negb] in H.
  destruct (Z.eqb_spec (db_generation d) UINT64_MAX) as [|Eg]; [by apply (f_equal fst) in H|].
  destruct (db_writable d) eqn:Ew; [|by apply (f_equal fst) in H]. cbn [negb] in H.
  destruct ((p <? CybouDB_MIN_PAGES) || (db_alloc d <=? p)) eqn:Er; [by apply (f_equal fst) in H|].
  destruct (rd 4 (m p) FREE_MAGIC =? CybouDB_FREE_MAGIC); [by apply (f_equal fst) in H|].
  apply (f_equal snd) in H. cbn [snd] in H. subst s'.
  set (pg1 := wr 4 (wr 4 (m p) FREE_MAGIC CybouDB_FREE_MAGIC) FREE_RESERVED 0).
  assert (Ok1 : page_ok pg1) by (repeat (apply page_ok_wr; [|by compute|by compute]); done).
  assert (Hm : rd 4 pg1 FREE_MAGIC = CybouDB_FREE_MAGIC).
  { unfold pg1. assert (Ok0 : page_ok (wr 4 (m p) FREE_MAGIC CybouDB_FREE_MAGIC))
      by (apply page_ok_wr; [done|by compute|by compute]).
    rewrite rd_wr_page_ne; [|done|by compute|by compute|by compute|left; by compute].
    apply rd_wr_page_eq; [done|by compute|by compute|by compute]. }
  set (pg := wr 8 pg1 FREE_NEXT (db_freelist d)).
  assert (Hp0 : p <> 0) by (intros ->; done).
  unfold db_alloc_page. cbn [db_mode db_generation db_writable db_freelist db_alloc set_freelist].
  rewrite Em, Ew, set_page_eq, Er. change (0 =? 1) with false. change (0 =? -1) with false.
  rewrite (proj2 (Z.eqb_neq _ _) Eg), (proj2 (Z.eqb_neq _ _) Hp0). cbn [negb].
  assert (Hpm : rd 4 pg FREE_MAGIC = CybouDB_FREE_MAGIC).
  { unfold pg. rewrite rd_wr_page_ne; [done|done|by compute|by compute|by compute|left; by compute]. }
  assert (Hpn : rd 8 pg FREE_NEXT = db_freelist d).
  { apply rd_wr_page_eq; [done|by compute|by compute|done]. }
  rewrite Hpm, Hpn, Z.eqb_refl. cbn [negb]. eexists. split; [reflexivity|]. cbn [fst snd]. split_and!.
  - by destruct d.
  - intros q Hq. by rewrite !set_page_ne.
  - rewrite set_page_eq. assert (Ok2 : page_ok pg) by (apply page_ok_wr; [done|by compute|by compute]).
    rewrite rd_wr_page_ne; [|apply page_ok_wr; [done|by compute|by compute]|by compute|by compute|by compute|left; by compute].
    apply rd_wr_page_eq; [done|by compute|by compute|by compute].
Qed.

(** ** Sessions *)

(** What a program does with a file: transactions that commit (a graph that an
    open accepts) or are rolled back, closing and opening again, and being killed
    in the middle of a transaction's operations. *)
Inductive session {W : Walk} (size : Z) (s0 : state) : state -> Prop :=
| Commits ops os s' tr :
    Forall (op_ok (db_pages s0.1)) ops ->
    db_commit os (fold_left run_op ops s0) = (CybouDB_OK, s', tr) ->
    db_generation s0.1 + 1 < UINT64_MAX ->
    db_catalog_validate (chooser size s0.2) (db_bitmap_seal (fold_left run_op ops s0)).2
      (live_sb s') = true ->
    session size s0 s'
| RollsBack ops s' :
    Forall (op_ok (db_pages s0.1)) ops ->
    db_rollback (fold_left run_op ops s0) = (CybouDB_OK, s') ->
    session size s0 s'
| Reopens s' :
    op_db (open_mapped size 0 true s0.2) = Some s' ->
    session size s0 s'
| Killed ops D s' :
    Forall (op_ok (db_pages s0.1)) ops ->
    crash_image s0.2 (db_pages s0.1) (map Stored (op_states ops s0)) D ->
    op_db (open_mapped size 0 true D) = Some s' ->
    session size s0 s'.

(** A database at rest. *)
Definition at_rest {W : Walk} (size : Z) (s : state) : Prop :=
  exists n, good s.2 size n /\ ready s.2 size n s.

Lemma session_step {W : Walk} {L : WalkLocal W} size s0 s : at_rest size s0 -> session size s0 s ->
  at_rest size s.
Proof.
  intros (n & G & R) H. destruct H as [ops os s' tr Ho Hc Hg Hcat|ops s' Ho Hr|s' Ho|ops D s' Ho HD Hop].
  - rewrite (rdy_pages _ _ _ _ R) in Ho. rewrite (rdy_generation _ _ _ _ R) in Hg.
    pose proof (ops_tx _ size n G s0 R ops Ho) as T.
    destruct (commit_trace _ size n G s0 R ops Ho os) as (j & _ & Hdone). rewrite Hc in Hdone.
    destruct (Hdone eq_refl) as (_ & Hpr & Es). cbn [fst snd] in Es. clear Hdone Hc. subst s'.
    pose proof (commit_ready _ size n G _ T Hg) as R'.
    assert (G' : good (commit_file s0.2 n (fold_left run_op ops s0)) size (other_sb n)).
    { apply (commit_file_good _ size n G _ T Hg Hpr). rewrite <- Hcat. f_equal.
      unfold live_sb. rewrite (rdy_cur _ _ _ _ R'), (rdy_file _ _ _ _ R'). symmetry. apply set_page_eq. }
    exists (other_sb n). by rewrite (rdy_file _ _ _ _ R').
  - rewrite (rdy_pages _ _ _ _ R) in Ho.
    destruct (rollback_ready _ size n G _ (ops_tx _ size n G s0 R ops Ho)) as (s1 & E & I & R').
    rewrite Hr in E. apply (f_equal snd) in E. cbn [snd] in E. subst s1. exists n.
    split; [|done]. by apply (image_good _ size n G _ _ I).
  - exists n. pose proof (open_ready _ size n G s' Ho) as R'. by rewrite (rdy_file _ _ _ _ R').
  - rewrite (rdy_pages _ _ _ _ R) in *. pose proof (ops_images _ size n G s0 R ops Ho) as Him.
    pose proof (crash_tx_image _ _ _ _ _ (gd_map _ _ _ G) _ _ D Him HD) as I.
    destruct (image_good _ size n G _ _ I) as [GD _]. exists n.
    pose proof (open_ready _ size n GD s' Hop) as R'. by rewrite (rdy_file _ _ _ _ R').
Qed.

Lemma sessions_rest {W : Walk} {L : WalkLocal W} size s0 s : at_rest size s0 ->
  rtc (session size) s0 s -> at_rest size s.
Proof. intros H Hs. induction Hs as [|s1 s2 s3 H12 _ IH]; [done|]. eauto using session_step. Qed.
