(* ===== verification/Creation.v ===== *)
(** * Creation: the file [db_create] lays out

    The header, the superblocks and the two copies of the allocation map of a new
    file in the span layout are what [db_open] accepts, so that every session
    starts from a good file. *)

From stdpp Require Import relations.
From S2P Require Import Prelude Crc32c AllocMap Storage Superblock Transaction Recovery CatalogGraph Durability.

(** ** Reading what was stored *)

(** A load of a page through the stores it was made with. *)
Ltac page_fits := solve [assumption | by compute | simpl; lia | left; by compute | right; by compute].
Ltac ok_page :=
  repeat match goal with
  | |- page_ok (wr _ _ _ _) => apply page_ok_wr; [|page_fits|page_fits]
  | |- page_ok zero_page => exact page_ok_zero
  end.
Ltac rd_page :=
  repeat match goal with
  | |- context [rd ?w (wr ?w' ?pg ?o' ?v) ?o] =>
      first
        [ constr_eq o o'; rewrite (rd_wr_page_eq w pg o v); [|ok_page|page_fits|page_fits|page_fits]
        | rewrite (rd_wr_page_ne w' w pg o' o v); [|ok_page|page_fits|page_fits|page_fits|page_fits] ]
  end.

Lemma rd_zero w off : rd w zero_page off = 0.
Proof.
  unfold rd, zero_page. rewrite drop_replicate, take_replicate. apply le_val_zeros.
Qed.

Lemma map_get_zero i : 0 <= i < CybouDB_MAP_LEAF_PAGES -> map_get zero_page i = MAP_FREE.
Proof.
  intros Hi. destruct (entry_place i Hi) as (_ & Hb & _). unfold map_get, zero_page.
  rewrite lookup_total_replicate_2; [by rewrite Z.shiftr_0_l|].
  unfold CybouDB_PAGE_SIZE, MAP_CRC, MAP_DATA in *. lia.
Qed.

(** ** The leaves *)

Lemma reserve_spec leaf n : page_ok leaf -> 0 <= n <= CybouDB_MAP_LEAF_PAGES ->
  page_ok (reserve leaf n) /\
  (forall j, 0 <= j < CybouDB_MAP_LEAF_PAGES ->
     map_get (reserve leaf n) j = if j <? n then MAP_METADATA else map_get leaf j) /\
  (forall w off, 0 <= off -> off + Z.of_nat w <= MAP_DATA -> rd w (reserve leaf n) off = rd w leaf off).
Proof.
  intros Hok Hn. unfold reserve.
  pose proof (for_loop_ind (fun i l => page_ok l /\
    (forall j, 0 <= j < CybouDB_MAP_LEAF_PAGES ->
       map_get l j = if j <? Z.of_nat i then MAP_METADATA else map_get leaf j) /\
    (forall w off, 0 <= off -> off + Z.of_nat w <= MAP_DATA -> rd w l off = rd w leaf off))
    (Z.to_nat n) (fun i leaf => map_set leaf (Z.of_nat i) MAP_METADATA) leaf) as Hloop.
  cbv beta in Hloop. rewrite Z2Nat.id in Hloop by lia. apply Hloop.
  - split_and!; [done| |done]. intros j Hj. by rewrite (proj2 (Z.ltb_ge j _)) by lia.
  - intros i l Hi (Ho & Hg & Hr). assert (Hi' : 0 <= Z.of_nat i < CybouDB_MAP_LEAF_PAGES) by lia.
    split_and!.
    + by apply page_ok_map_set.
    + intros j Hj. rewrite map_get_set, Hg by done.
      destruct (Z.eqb_spec j (Z.of_nat i)), (Z.ltb_spec j (Z.of_nat i)),
        (Z.ltb_spec j (Z.of_nat (S i))); (done || lia).
    + intros w off H1 H2. rewrite rd_map_set by done. auto.
Qed.

Section leaf.
Context (index total first : Z).
Hypothesis Hi : 0 <= index < 1024.
Hypothesis Ht : 0 <= total <= CybouDB_SPAN_MAX_PAGES.
Hypothesis Hf : 0 < first <= total.

#[local] Notation span := (index * CybouDB_MAP_LEAF_PAGES).
#[local] Notation leaf := (db_bitmap_leaf_build index total first).

(** The leaf before its entries. *)
Definition blank_leaf : page :=
  let leaf := wr 4 zero_page MAP_MAGIC CybouDB_MAP_MAGIC in
  let leaf := wr 4 leaf MAP_HEADER_SIZE MAP_DATA in
  let leaf := wr 8 leaf MAP_GENERATION 1 in
  let leaf := wr 8 leaf MAP_TOTAL total in
  let leaf := wr 8 leaf MAP_SPAN span in
  if index =? 0 then wr 8 leaf MAP_ALLOC first else leaf.

Definition open_leaf : page :=
  if first <=? span then blank_leaf
  else reserve blank_leaf (Z.min (first - span) CybouDB_MAP_LEAF_PAGES).

Lemma leaf_build_eq : leaf = seal_leaf open_leaf.
Proof using Type. done. Qed.

Lemma blank_leaf_ok : page_ok blank_leaf.
Proof using Type. unfold blank_leaf. destruct (index =? 0); ok_page. Qed.

Lemma open_leaf_spec : page_ok open_leaf /\
  (forall j, 0 <= j < CybouDB_MAP_LEAF_PAGES ->
     map_get open_leaf j = if span + j <? first then MAP_METADATA else MAP_FREE) /\
  (forall w off, 0 <= off -> off + Z.of_nat w <= MAP_DATA -> rd w open_leaf off = rd w blank_leaf off).
Proof using Hf Hi.
  assert (Hz : forall j, 0 <= j < CybouDB_MAP_LEAF_PAGES -> map_get blank_leaf j = MAP_FREE).
  { intros j Hj. unfold blank_leaf. cbv zeta.
    destruct (index =? 0); rewrite !map_get_wr by (ok_page || page_fits || done); by apply map_get_zero. }
  unfold open_leaf. destruct (Z.leb_spec first span) as [Hs|Hs].
  - split_and!; [apply blank_leaf_ok| |done]. intros j Hj.
    rewrite (proj2 (Z.ltb_ge _ _)) by lia. by apply Hz.
  - assert (Hn : 0 <= Z.min (first - span) CybouDB_MAP_LEAF_PAGES <= CybouDB_MAP_LEAF_PAGES).
    { unfold CybouDB_MAP_LEAF_PAGES, CybouDB_COW_MAX_PAGES, MAP_CRC, MAP_DATA in *. lia. }
    destruct (reserve_spec blank_leaf _ blank_leaf_ok Hn) as (R1 & R2 & R3). split_and!; [done| |done].
    intros j Hj. rewrite R2, Hz by done.
    destruct (Z.ltb_spec j (Z.min (first - span) CybouDB_MAP_LEAF_PAGES)),
      (Z.ltb_spec (span + j) first); (done || lia).
Qed.

Lemma built_leaf_ok : page_ok leaf.
Proof using Hf Hi. rewrite leaf_build_eq. apply page_ok_seal, open_leaf_spec. Qed.

Lemma built_get j : 0 <= j < CybouDB_MAP_LEAF_PAGES ->
  map_get leaf j = if span + j <? first then MAP_METADATA else MAP_FREE.
Proof using Hf Hi.
  intros Hj. rewrite leaf_build_eq. unfold seal_leaf.
  rewrite map_get_wr; [|apply open_leaf_spec|done|page_fits|right; by compute].
  by apply open_leaf_spec.
Qed.

Lemma built_rd w off : 0 <= off -> off + Z.of_nat w <= MAP_DATA -> rd w leaf off = rd w blank_leaf off.
Proof using Hf Hi.
  intros H1 H2. rewrite leaf_build_eq. unfold seal_leaf.
  rewrite rd_wr_page_ne; [|apply open_leaf_spec|by compute|by compute|done|].
  - by apply open_leaf_spec.
  - left. unfold MAP_DATA, MAP_CRC in *. lia.
Qed.

Lemma built_generation : leaf_generation leaf = 1.
Proof using Hf Hi.
  unfold leaf_generation. rewrite built_rd by (by compute). unfold blank_leaf. cbv zeta.
  destruct (index =? 0); rd_page; reflexivity.
Qed.

Lemma built_sealed : leaf_sealed leaf = true.
Proof using Hf Hi.
  destruct open_leaf_spec as (Hok & _). rewrite leaf_build_eq. unfold leaf_sealed, seal_leaf.
  rewrite take_wr; [|by compute|].
  - rewrite rd_wr_page_eq; [apply Z.eqb_refl|done|by compute|by compute|apply crc_word].
  - destruct Hok as [-> _]. by compute.
Qed.

(** A leaf above the first payload page has no entry set. *)
Lemma built_blank : first <= span -> leaf_blank leaf = true.
Proof using Hf Hi.
  intros Hs. rewrite leaf_build_eq. unfold open_leaf. rewrite (proj2 (Z.leb_le _ _)) by done.
  pose proof blank_leaf_ok as Hok.
  assert (Hz : forall w off, MAP_DATA <= off -> off + Z.of_nat w <= MAP_CRC ->
    rd w (seal_leaf blank_leaf) off = 0).
  { intros w off H1 H2. unfold seal_leaf, MAP_DATA, MAP_CRC in *.
    rewrite rd_wr_page_ne; [|done|by compute|by compute|lia|lia].
    unfold blank_leaf. cbv zeta.
    assert (Hbeside : forall x, x + 8 <= 64 -> off + Z.of_nat w <= x \/ x + 8 <= off) by lia.
    destruct (index =? 0); unfold MAP_MAGIC, MAP_HEADER_SIZE, MAP_GENERATION, MAP_TOTAL, MAP_SPAN, MAP_ALLOC;
      rewrite !rd_wr_page_ne by (ok_page || page_fits || lia); apply rd_zero. }
  unfold leaf_blank. apply andb_true_iff. split.
  - apply forallb_forall. intros i Hin%in_seqZ. apply Z.eqb_eq, Hz.
    + lia.
    + unfold MAP_DATA, MAP_CRC in *. simpl in Hin. lia.
  - apply Z.eqb_eq, Hz; by compute.
Qed.
End leaf.

(** ** The header *)

Section header.
Context (features : Z).
Hypothesis Hw : 0 <= features < 2 ^ 64.
Hypothesis Hfeat : check_features features = CybouDB_OK.

(** The header without its checksum. *)
Definition open_header : page :=
  let pg := wr 4 zero_page HDR_MAGIC CybouDB_MAGIC in
  let pg := wr 4 pg HDR_HEADER_SIZE CybouDB_HDR_SIZE in
  let pg := wr 4 pg HDR_VERSION CybouDB_VERSION in
  let pg := wr 4 pg HDR_PAGE_SIZE CybouDB_PAGE_SIZE in
  let pg := wr 8 pg HDR_SB_PAGE_A CybouDB_SB_PAGE_A in
  let pg := wr 8 pg HDR_SB_PAGE_B CybouDB_SB_PAGE_B in
  wr 8 pg HDR_FLAGS_INCOMPAT features.

Lemma header_page_eq : header_page features zero_page =
  wr 4 open_header HDR_CRC (crc (take (Z.to_nat HDR_CRC) open_header)).
Proof using Type.
  unfold header_page. replace (memcpy zero_page 0 (replicate (Z.to_nat CybouDB_HDR_SIZE) 0)) with zero_page;
    [done|]. vm_compute. reflexivity.
Qed.

Lemma open_header_ok : page_ok open_header.
Proof using Type. unfold open_header. ok_page. Qed.

Lemma header_rd w off : 0 <= off -> off + Z.of_nat w <= HDR_CRC ->
  rd w (header_page features zero_page) off = rd w open_header off.
Proof using Type.
  intros H1 H2. rewrite header_page_eq. unfold HDR_CRC in *.
  rewrite rd_wr_page_ne; [done|apply open_header_ok|by compute|by compute|done|by left].
Qed.

Lemma header_flags : rd 8 (header_page features zero_page) HDR_FLAGS_INCOMPAT = features.
Proof using Hw. rewrite header_rd by (by compute). unfold open_header. cbv zeta. by rd_page. Qed.

Lemma header_accepted : check_header (header_page features zero_page) = CybouDB_OK.
Proof using Hw Hfeat.
  pose proof open_header_ok as Hok.
  assert (Hcrc : rd 4 (header_page features zero_page) HDR_CRC =
                 crc (take (Z.to_nat HDR_CRC) (header_page features zero_page))).
  { rewrite header_page_eq, take_wr; [|by compute|destruct Hok as [-> _]; by compute].
    apply rd_wr_page_eq; [done|by compute|by compute|apply crc_word]. }
  unfold check_header. rewrite Hcrc, header_flags. clear Hcrc.
  rewrite !header_rd by (by compute). unfold open_header. cbv zeta. rd_page.
  rewrite !Z.eqb_refl. exact Hfeat.
Qed.

Lemma header_sb_pages : check_sb_pages (header_page features zero_page) = true.
Proof using Type.
  unfold check_sb_pages. rewrite !header_rd by (by compute). unfold open_header. cbv zeta. by rd_page.
Qed.
End header.

(** ** The file *)

Section file.
Context {W : Walk} {L : WalkLocal W}.
Context (pages features : Z).
Hypothesis Hsize : create_pages_ok pages features = CybouDB_OK.
Hypothesis Hpos : 0 <= pages.
Hypothesis Hw : 0 <= features < 2 ^ 64.
Hypothesis Hspan : (features .& CybouDB_FEATURE_MAP_SPAN) <> 0.
Hypothesis Hfeat : check_features features = CybouDB_OK.

#[local] Notation k := (db_bitmap_leaves pages).
#[local] Notation first := (first_payload pages).
#[local] Notation m := (create_file pages features).
#[local] Notation d := (created pages first features CybouDB_MIN_PAGES).

Lemma created_pages : CybouDB_MIN_PAGES < pages <= CybouDB_SPAN_MAX_PAGES /\ first < pages /\ 1 <= k <= 1024.
Proof using Hsize Hpos Hw Hspan.
  unfold create_pages_ok in Hsize.
  assert (Hf : features <> 0) by (intros E; apply Hspan; by rewrite E).
  rewrite (proj2 (Z.eqb_neq features 0)) in Hsize by done.
  rewrite (proj2 (Z.eqb_neq (features .& CybouDB_FEATURE_MAP_SPAN) 0)) in Hsize by done.
  change (2 * k + CybouDB_MIN_PAGES) with first in Hsize.
  destruct (Z.ltb_spec CybouDB_SPAN_MAX_PAGES pages); [done|].
  destruct (Z.leb_spec pages first); [done|]. cbn [orb] in Hsize.
  destruct (Z.ltb_spec pages CybouDB_MIN_PAGES); [done|].
  assert (K : 1 <= k <= 1024) by (apply leaves_bounds; unfold CybouDB_MIN_PAGES in *; lia).
  unfold first_payload in *. lia.
Qed.

Lemma created_loop (m0 : mem) i : 0 <= i < 2 * k ->
  (db_bitmap_init m0 pages features).2 (CybouDB_MIN_PAGES + i) =
    db_bitmap_leaf_build (i mod k) pages first.
Proof using Hsize Hpos Hw Hspan.
  destruct created_pages as (_ & _ & K). unfold db_bitmap_init.
  rewrite (proj2 (Z.eqb_neq (features .& CybouDB_FEATURE_MAP_SPAN) 0)) by done. cbn [snd].
  change (2 * k + CybouDB_MIN_PAGES) with first. intros Hi.
  pose proof (for_loop_ind (fun n (m' : mem) => forall i, 0 <= i < Z.of_nat n ->
    m' (CybouDB_MIN_PAGES + i) = db_bitmap_leaf_build (i mod k) pages first)) as Hloop.
  apply (Hloop (Z.to_nat (2 * k))); [lia| |lia].
  intros j m' Hj IH i' Hi'. destruct (decide (i' = Z.of_nat j)) as [->|]; [by rewrite set_page_eq|].
  rewrite set_page_ne by lia. apply IH. lia.
Qed.

Lemma created_low (m0 : mem) p : p < CybouDB_MIN_PAGES -> (db_bitmap_init m0 pages features).2 p = m0 p.
Proof using Hw Hspan.
  unfold db_bitmap_init.
  rewrite (proj2 (Z.eqb_neq (features .& CybouDB_FEATURE_MAP_SPAN) 0)) by done. cbn [snd]. intros Hp.
  apply (for_loop_ind (fun _ (m' : mem) => m' p = m0 p)); [done|]. intros i m' _ <-.
  apply set_page_ne. lia.
Qed.

Lemma created_alloc (m0 : mem) : (db_bitmap_init m0 pages features).1 = first.
Proof using Hw Hspan.
  unfold db_bitmap_init. by rewrite (proj2 (Z.eqb_neq (features .& CybouDB_FEATURE_MAP_SPAN) 0)) by done.
Qed.

(** The pages of the file. *)
Lemma created_file :
  m 0 = header_page features zero_page /\
  m CybouDB_SB_PAGE_A = write_superblock zero_page d 1 /\
  m CybouDB_SB_PAGE_B = write_superblock zero_page d 1 /\
  forall i, 0 <= i < 2 * k -> m (CybouDB_MIN_PAGES + i) = db_bitmap_leaf_build (i mod k) pages first.
Proof using Hsize Hpos Hw Hspan.
  assert (Hf : features <> 0) by (intros E; apply Hspan; by rewrite E). unfold create_file. cbv zeta.
  rewrite (proj2 (Z.eqb_neq features 0)) by done.
  set (m1 := set_page (fun _ => zero_page) 0 (header_page features zero_page)).
  pose proof (created_alloc m1) as Ea. pose proof (created_low m1) as El. pose proof (created_loop m1) as Ei.
  destruct (db_bitmap_init m1 pages features) as [alloc m2]. cbn [fst snd] in *. subst alloc.
  unfold CybouDB_SB_PAGE_A, CybouDB_SB_PAGE_B, CybouDB_MIN_PAGES in *.
  assert (Hl : forall p, p < 3 -> p <> 0 -> m2 p = zero_page).
  { intros p Hp H0. rewrite El by done. by apply set_page_ne. }
  split_and!.
  - rewrite !set_page_ne by done. rewrite El by lia. apply set_page_eq.
  - rewrite set_page_ne by done. rewrite set_page_eq. by rewrite Hl.
  - rewrite set_page_eq, set_page_ne by done. by rewrite Hl.
  - intros i Hi. rewrite !set_page_ne by lia. auto.
Qed.

Lemma created_says : sb_says (write_superblock zero_page d 1) d 1 /\
  sb_valid (write_superblock zero_page d 1) = true /\ page_ok (write_superblock zero_page d 1).
Proof using Hsize Hpos Hw Hspan.
  destruct created_pages as (Hp & Hf & K).
  unfold CybouDB_MIN_PAGES, CybouDB_SPAN_MAX_PAGES, CybouDB_MAP_LEAF_PAGES, CybouDB_COW_MAX_PAGES,
    MAP_CRC, MAP_DATA in Hp.
  pose proof (first_eq pages) as Ef.
  assert (Hwd : sb_words d 1) by (constructor; simpl; unfold CybouDB_MIN_PAGES; lia).
  destruct page_ok_zero as [Zl Zb].
  assert (H128 : 128 <= Z.of_nat (length zero_page)) by (rewrite Zl; by compute).
  split_and!; [by apply write_superblock_says|by apply write_superblock_valid|].
  destruct (filled_ok zero_page d 1 Zb H128) as [Fl Fb]. unfold write_superblock.
  apply page_ok_wr; [split; [by rewrite Fl|done]|by compute|by compute].
Qed.

Lemma created_header : header_wf m.
Proof using Hsize Hpos Hw Hspan Hfeat.
  destruct created_file as (E0 & _). constructor; unfold flags; rewrite E0.
  - by apply header_accepted.
  - apply header_sb_pages.
  - by rewrite header_flags.
Qed.

(** Every leaf of both copies passes the checks of an open. *)
Lemma created_leaf_ok dd i : 0 <= i < k ->
  rd 8 (write_superblock zero_page d 1) SB_BITMAP_ROOT = CybouDB_MIN_PAGES ->
  db_prove dd = false ->
  span_leaf_ok (dd, m) (write_superblock zero_page d 1) first first i = true.
Proof using Hsize Hpos Hw Hspan.
  intros Hi Hroot Hpr. destruct created_pages as (Hp & Hf & K). destruct created_says as (S & _).
  destruct created_file as (_ & _ & _ & El). pose proof (first_eq pages) as Ef.
  assert (Hf' : 0 < first <= pages) by lia. assert (Hi' : 0 <= i < 1024) by lia.
  unfold span_leaf_ok. cbn [fst snd]. rewrite Hroot, El by lia. rewrite Z.mod_small by lia.
  pose proof (built_rd i pages first Hi' Hf') as Hrd.
  pose proof (built_get i pages first Hi' Hf') as Hget.
  pose proof (built_generation i pages first Hi' Hf') as Hgen.
  rewrite (built_sealed i pages first Hi' Hf').
  assert (Hbl : first <= i * CybouDB_MAP_LEAF_PAGES ->
    leaf_blank (db_bitmap_leaf_build i pages first) = true) by (by apply built_blank).
  set (leaf := db_bitmap_leaf_build i pages first) in *. clearbody leaf.
  unfold db_bitmap_deep, leaf_proved. cbn [fst snd]. rewrite Hgen, (says_generation _ _ _ S), Hpr.
  rewrite Z.eqb_refl, orb_true_r. cbn [negb orb andb]. apply andb_true_iff. split.
  - unfold leaf_header_ok. rewrite Hgen, (says_generation _ _ _ S), (says_pages _ _ _ S).
    rewrite !Hrd by (by compute). unfold blank_leaf. cbv zeta.
    assert (Wp : 0 <= pages < 2 ^ (8 * Z.of_nat 8)).
    { unfold CybouDB_SPAN_MAX_PAGES, CybouDB_MAP_LEAF_PAGES, CybouDB_COW_MAX_PAGES, MAP_CRC, MAP_DATA in Hp.
      simpl. lia. }
    assert (Wf : 0 <= first < 2 ^ (8 * Z.of_nat 8)) by lia.
    assert (Ws : 0 <= i * CybouDB_MAP_LEAF_PAGES < 2 ^ (8 * Z.of_nat 8)).
    { unfold CybouDB_MAP_LEAF_PAGES, CybouDB_COW_MAX_PAGES, MAP_CRC, MAP_DATA. simpl. lia. }
    destruct (i =? 0); rd_page; rewrite !rd_zero, !Z.eqb_refl; done.
  - destruct (Z.ltb_spec (i * CybouDB_MAP_LEAF_PAGES) first) as [Hs|Hs]; [|auto].
    apply forallb_forall. intros j Hj%in_seqZ. rewrite Hget by done. unfold entry_ok.
    rewrite (Z.add_comm j).
    destruct (Z.ltb_spec (i * CybouDB_MAP_LEAF_PAGES + j) first),
      (Z.leb_spec first (i * CybouDB_MAP_LEAF_PAGES + j)); (done || lia).
Qed.

Lemma created_leaf i : 0 <= i < 2 * k -> page_ok (m (CybouDB_MIN_PAGES + i)) /\
  leaf_generation (m (CybouDB_MIN_PAGES + i)) = 1 /\
  leaf_wf (m (CybouDB_MIN_PAGES + i)) pages first (i mod k).
Proof using Hsize Hpos Hw Hspan.
  intros Hi. destruct created_pages as (Hp & Hf & K). destruct created_file as (_ & _ & _ & El).
  pose proof (first_eq pages) as Ef. rewrite El by exact Hi. clear El.
  assert (Hi' : 0 <= i mod k < 1024) by (pose proof (Z.mod_pos_bound i k); lia).
  assert (Hf' : 0 < first <= pages) by lia.
  split_and!; [by apply built_leaf_ok|by apply built_generation|].
  intros j Hj. cbv zeta. rewrite built_get by done.
  split; intros Hpj; [rewrite (proj2 (Z.ltb_lt _ _)) by done|rewrite (proj2 (Z.ltb_ge _ _)) by done]; done.
Qed.

Lemma created_map : map_wf m pages first CybouDB_MIN_PAGES 1.
Proof using Hsize Hpos Hw Hspan.
  destruct created_pages as (Hp & Hf & K). pose proof (first_eq pages) as Ef.
  destruct created_file as (_ & _ & _ & El). pose proof created_leaf as Hleaf.
  unfold CybouDB_MIN_PAGES in *. constructor; unfold CybouDB_MIN_PAGES, CybouDB_COW_MIN_PAGES.
  - lia.
  - lia.
  - by left.
  - intros p Hpp. replace p with (3 + (p - 3)) by lia. apply Hleaf. lia.
  - by compute.
  - intros i Hi. destruct (Hleaf i ltac:(lia)) as (_ & -> & Hl). rewrite Z.mod_small in Hl by lia.
    split; [lia|exact Hl].
  - intros i Hi. cbv zeta. unfold other_root. change (3 =? CybouDB_MIN_PAGES) with true. cbv iota.
    unfold CybouDB_MIN_PAGES. intros _. replace (k + 3 + i) with (3 + (k + i)) by lia.
    rewrite !El by lia. f_equal. rewrite <- (Z.mul_1_l k) at 2. rewrite Z.add_comm, Z_mod_plus_full. reflexivity.
Qed.

Lemma created_accepted : map_valid (chooser (pages .<< 12) m, m) (write_superblock zero_page d 1) = true.
Proof using Hsize Hpos Hw Hspan Hfeat.
  destruct created_pages as (Hp & Hf & K). destruct created_says as (S & _ & _).
  pose proof (first_eq pages) as Ef. pose proof created_header as H.
  pose proof (chooser_span m (pages .<< 12) H) as Hs. clear H.
  pose proof (says_bitmap _ _ _ S) as Hb. cbn [db_bitmap created] in Hb.
  pose proof (fun i Hi => created_leaf_ok (chooser (pages .<< 12) m) i Hi Hb eq_refl) as Hleaf.
  unfold map_valid. cbn [fst snd]. rewrite Hs.
  rewrite (says_generation _ _ _ S), (says_pages _ _ _ S), (says_alloc _ _ _ S), (says_freelist _ _ _ S),
    (says_root _ _ _ S), (says_feature _ _ _ S).
  cbn [db_pages db_alloc db_freelist db_root created]. cbv zeta.
  change (db_size (chooser (pages .<< 12) m)) with (pages .<< 12). rewrite Z.eqb_refl.
  rewrite (proj2 (Z.leb_le CybouDB_COW_MIN_PAGES pages)),
    (proj2 (Z.leb_le pages CybouDB_SPAN_MAX_PAGES)), (proj2 (Z.leb_le CybouDB_COW_MIN_PAGES first)),
    (proj2 (Z.leb_le first pages)) by (unfold CybouDB_COW_MIN_PAGES, CybouDB_MIN_PAGES in *; lia).
  change (1 =? 0) with false. change (0 =? 0) with true. cbn [negb orb andb]. rewrite andb_true_r.
  unfold span_valid. rewrite Hb, (says_pages _ _ _ S). cbn [db_pages created]. cbv zeta.
  change (2 * k + CybouDB_MIN_PAGES) with first. rewrite (proj2 (Z.leb_le first first)) by lia.
  rewrite Z.eqb_refl. cbn [orb andb]. apply forallb_forall. intros i Hi%in_seqZ. by apply Hleaf.
Qed.

(** The file is good: nothing is allocated, the first generation is live. *)
Lemma create_good : good m (pages .<< 12) CybouDB_SB_PAGE_A.
Proof using Hsize Hpos Hw Hspan Hfeat L.
  destruct created_says as (S & Sv & Sok). destruct created_file as (_ & EA & EB & _).
  pose proof created_accepted as Hm. pose proof created_map as Hwf.
  constructor.
  - exact created_header.
  - left. reflexivity.
  - rewrite EA, EB. split; exact Sok.
  - rewrite EA. exact Sv.
  - rewrite EA. unfold db_bitmap_validate. rewrite Hm.
    rewrite walk_empty by apply (says_root _ _ _ S). unfold cs_retires_are_unreachable. cbn [fst snd].
    cbn [negb orb andb db_prove chooser opening]. rewrite orb_true_r. reflexivity.
  - rewrite EA. unfold pages_of, alloc_of, root_of, generation_of.
    rewrite (says_pages _ _ _ S), (says_alloc _ _ _ S), (says_bitmap _ _ _ S), (says_generation _ _ _ S).
    exact Hwf.
  - cbv zeta. change (other_sb CybouDB_SB_PAGE_A) with CybouDB_SB_PAGE_B. rewrite EA, EB.
    right. right. split; reflexivity.
Qed.
End file.

Lemma db_create_inv os pages features m : db_create os pages features = (CybouDB_OK, Some m) ->
  create_pages_ok pages features = CybouDB_OK /\ m = create_file pages features.
Proof.
  unfold db_create. intros H. destruct (Z.eqb_spec (create_pages_ok pages features) CybouDB_OK) as [E|E].
  2:{ exfalso. by apply (f_equal snd) in H. }
  cbn [negb] in H. split; [done|].
  destruct (negb (oc_error os =? 0)); [by apply (f_equal snd) in H|].
  destruct (negb (oc_resized os)); [by apply (f_equal snd) in H|].
  destruct (negb (oc_mapped os)); [by apply (f_equal snd) in H|].
  apply (f_equal snd) in H. cbn [snd] in H. apply (inj Some) in H. by symmetry.
Qed.

(** ** The theorems *)

(** C21: what [db_create] lays out opens: with no error of the system, [db_open]
    answers [CybouDB_OK] and hands back the first generation, with no root, no
    page taken and all the pages asked for. *)
Theorem created_opens {W : Walk} {L : WalkLocal W} os oo pages features m :
  db_create os pages features = (CybouDB_OK, Some m) ->
  0 <= pages -> 0 <= features < 2 ^ 64 -> (features .& CybouDB_FEATURE_MAP_SPAN) <> 0 ->
  check_features features = CybouDB_OK ->
  oo = mk_os_open 0 true (Some (pages .<< 12)) true ->
  exists s, db_open oo true 0 m = mk_open_result CybouDB_OK true true (Some s) /\
    ready m (pages .<< 12) CybouDB_SB_PAGE_A s /\ db_pages s.1 = pages /\
    db_generation s.1 = 1 /\ db_root s.1 = 0 /\ db_alloc s.1 = first_payload pages.
Proof.
  intros Hc Hp Hw Hs Hf ->. apply db_create_inv in Hc as [Hok ->].
  pose proof (create_good pages features Hok Hp Hw Hs Hf) as G.
  destruct (good_opens _ _ _ G) as (floor & damaged & Hfl & E).
  pose proof (opened_ready _ _ _ G floor damaged Hfl) as R.
  destruct (created_says pages features Hok Hp Hw Hs) as (S & _).
  destruct (created_file pages features Hok Hp Hw Hs) as (_ & EA & _).
  destruct (created_pages pages features Hok Hp Hw Hs) as (Hpp & _).
  set (s := db_bitmap_recount _) in R, E. clearbody s. exists s.
  assert (Hsz : CybouDB_HDR_SIZE <= pages .<< 12).
  { rewrite Z.shiftl_mul_pow2 by lia. unfold CybouDB_HDR_SIZE, CybouDB_MIN_PAGES in *. lia. }
  split_and!; [|exact R| | | |].
  - unfold db_open. cbn [oo_error oo_locked oo_size oo_mapped negb].
    change (0 =? 0) with true. cbn [negb]. rewrite (proj2 (Z.ltb_ge _ _)) by exact Hsz. exact E.
  - rewrite (rdy_pages _ _ _ _ R), EA. apply (says_pages _ _ _ S).
  - rewrite (rdy_generation _ _ _ _ R), EA. apply (says_generation _ _ _ S).
  - rewrite (rdy_root _ _ _ _ R), EA. apply (says_root _ _ _ S).
  - rewrite (rdy_alloc _ _ _ _ R), EA. apply (says_alloc _ _ _ S).
Qed.


(** ** An example *)

(** Objects of which nothing is asked. *)
#[local] Instance plain_objects : Graph.Objects := {
  Graph.db_pax_validate := fun _ _ _ _ => true; Graph.db_zone_validate := fun _ _ _ _ => true;
  Graph.index_page_valid := fun _ _ _ _ => true; Graph.queue_page_valid := fun _ _ _ _ => true;
  Graph.stream_page_valid := fun _ _ _ _ => true }.
#[local] Instance plain_objects_local : ObjectsLocal plain_objects.
Proof. done. Qed.

Definition sample_file : mem := create_file 40 CybouDB_FEATURES_DEFAULT.
Definition sample_size : Z := 40 .<< 12.
Definition sample_start : state :=
  db_bitmap_recount (opened (chooser sample_size sample_file) (sample_file CybouDB_SB_PAGE_A)
    CybouDB_SB_PAGE_A 5 0, sample_file).
Definition sample_env : env := mk_env true true.
Definition sample_disk : os_commit := mk_os_commit true true true.

Lemma sample_good : good sample_file sample_size CybouDB_SB_PAGE_A.
Proof. apply create_good; (reflexivity || lia || (unfold CybouDB_FEATURES_DEFAULT; lia) || done). Qed.

Lemma sample_ready : ready sample_file sample_size CybouDB_SB_PAGE_A sample_start.
Proof. apply opened_ready; [exact sample_good|]. vm_compute. discriminate. Qed.

Lemma sample_crcs i : (18 <= i <= 24)%nat ->
  sb_crc (sb_partial i (sample_file (other_sb CybouDB_SB_PAGE_A))
    (fold_left run_op [OpAlloc sample_env] sample_start).1
    (generation_of (sample_file CybouDB_SB_PAGE_A) + 1)) <> 0.
Proof.
  intros Hi. assert (Hin : In i (seq 18 7)) by (apply in_seq; lia).
  assert (Hall : forallb (fun i => negb (sb_crc (sb_partial i (sample_file (other_sb CybouDB_SB_PAGE_A))
    (fold_left run_op [OpAlloc sample_env] sample_start).1
    (generation_of (sample_file CybouDB_SB_PAGE_A) + 1)) =? 0)) (seq 18 7) = true) by (vm_compute; reflexivity).
  rewrite forallb_forall in Hall. specialize (Hall i Hin). by bool_to_prop.
Qed.

(** The file as the events leave it, which is what a kill finds. *)
Fixpoint trace_end (tr : list event) (m : mem) : mem :=
  match tr with
  | [] => m
  | Stored m' :: tr' => trace_end tr' m'
  | Synced _ :: tr' => trace_end tr' m
  end.

Lemma versions_end tr p vs m : vs <> [] -> List.last vs [] = m p ->
  In (trace_end tr m p) (versions tr p vs).
Proof.
  revert vs m. induction tr as [|[m'|r] tr IH]; intros vs m Hn Hl; simpl.
  - rewrite <- Hl. by apply last_in.
  - apply IH; [by destruct vs|]. apply last_last.
  - apply IH; [by case_if|]. by case_if.
Qed.

Lemma crash_end m pages tr : crash_image m pages tr (trace_end tr m).
Proof. intros p. left. by apply versions_end. Qed.


Lemma sample_commits :
  (db_commit sample_disk (fold_left run_op [OpRoot 0] sample_start)).1.1 = CybouDB_OK /\
  generation_of (sample_file CybouDB_SB_PAGE_A) + 1 < UINT64_MAX /\
  db_catalog_validate (chooser sample_size sample_file)
    (db_bitmap_seal (fold_left run_op [OpRoot 0] sample_start)).2
    (write_superblock (sample_file (other_sb CybouDB_SB_PAGE_A))
      (fold_left run_op [OpRoot 0] sample_start).1 (generation_of (sample_file CybouDB_SB_PAGE_A) + 1)) = true.
Proof. split_and!; vm_compute; reflexivity. Qed.


Lemma rollback_forgets_witness :
  exists s', db_rollback (fold_left run_op [OpAlloc sample_env] sample_start) = (CybouDB_OK, s') /\
    good s'.2 sample_size 1 /\ ready s'.2 sample_size 1 s' /\ s'.2 1 = sample_file 1 /\
    forall p, db_bitmap_candidate_payload (chooser sample_size sample_file) sample_file (sample_file 1) p = true ->
      s'.2 p = sample_file p.
Proof.
  apply (rollback_forgets sample_file sample_size CybouDB_SB_PAGE_A sample_start [OpAlloc sample_env]
           sample_good sample_ready).
  by repeat constructor.
Defined.

Lemma alloc_fresh_witness :
  let s' := (db_cow_alloc_page sample_env sample_start).2 in
  5 <= 5 < 40 /\ s'.2 5 = zero_page /\ db_bitmap_is_fresh s' 5 = true /\
  in_ranges ((commit_ranges s'.1).1 ++ [(commit_ranges s'.1).2]) 5 = true.
Proof.
  destruct (alloc_fresh sample_file sample_size CybouDB_SB_PAGE_A sample_start [] sample_env 5
    (db_cow_alloc_page sample_env sample_start).2 sample_good sample_ready) as (_ & _ & _ & H1 & _ & H2 & H3).
  - constructor.
  - cbn [fold_left]. rewrite (surjective_pairing (db_cow_alloc_page sample_env sample_start)) at 1.
    by f_equal.
  - split_and!; (lia || assumption).
Defined.

Lemma created_opens_witness :
  exists s, db_open (mk_os_open 0 true (Some (40 .<< 12)) true) true 0 sample_file =
    mk_open_result CybouDB_OK true true (Some s) /\
    ready sample_file (40 .<< 12) CybouDB_SB_PAGE_A s /\ db_pages s.1 = 40 /\
    db_generation s.1 = 1 /\ db_root s.1 = 0 /\ db_alloc s.1 = first_payload 40.
Proof.
  apply (created_opens (mk_os_create 0 true true true) _ 40 CybouDB_FEATURES_DEFAULT);
    (reflexivity || lia || (unfold CybouDB_FEATURES_DEFAULT; lia) || done).
Defined.

